(* ===== verification/_CoqProject ===== *)
-Q . S2P
Prelude.v
JsNum.v
Wire.v
Sha256.v
Json.v
CoinData.v
Coins.v
CoinsFacts.v
AuxPow.v
Rpc.v
Activation.v
ProtocolTime.v
Expiration.v
Batch.v
Collapse.v
LibSample.v
BlockDecoder.v
Buffers.v
BlockFetch.v
Config.v
DispenserCommand.v
Db.v
DbRows.v
Atomic.v
Idle.v
Dispensers.v
DispenserReorg.v
StorageGate.v
Carrier.v
Parse.v
Sample.v
CarrierFacts.v
Ingest.v
IngestAtomic.v
IngestFacts.v
BlockStore.v
BlockAtomic.v
Halt.v
Node.v
ReorgWalk.v
Identity.v
ReorgSpec.v
ReorgFacts.v
ReorgSafety.v
ReorgProgress.v
LoopState.v
HaltPark.v
TipRefresh.v
SyncStatus.v
MainLoop.v
LoopSpec.v
LoopFacts.v
LoopSafety.v
LoopRuns.v
ClearHalt.v
Mempool.v
MempoolFacts.v
SqlText.v
SqlTextFacts.v
Regex.v
SqlRules.v
SqlRulesFacts.v
LiveSchema.v
KeyGuards.v
MigrationTables.v
Runner.v
Migrate.v
RunSample.v
MigrateTrace.v
MigrateFacts.v
MigratePool.v
Setup.v
SetupFacts.v
Shutdown.v
MempoolApi.v
Probes.v
LogShipper.v
LogText.v
Metrics.v
Observability.v
