(* ===== verification/Prelude.v ===== *)
(** * The XChain decoder, verified

    The XChain decoder (src/src) follows a Bitcoin-like chain block by block, finds the
    XChain ACTIONs its transactions carry, and writes blocks, transactions, captured
    outputs and an advisory registry of open dispensers to MariaDB.  Every instance must
    write the same rows from the same chain, a block must be stored entirely or not at
    all, and a reorg must take a block back out.  This library models that program from
    its sources, as executable definitions, from the bytes of a block to the rows of the
    database and the migrations of its schema, and proves the properties that make it
    correct.

    ** How the program is put together

    A decoder is configured by its environment and by the coin files (coins/*.js), whose
    consensus fields are pinned by their SHA-256 (consensus_pin.js) and checked at boot.
    A boot (XChainDecoder/startup.js) prepares the database: it builds or completes the
    tables of src/sql (db/database_setup.js, db/table_drift.js) and runs the pending
    migrations (db/migrations.js), whose automatic files pass a scan of their text and two
    guards against the live tables.  Then it checks the node's chain and enters the parse
    loop.  A pass of the loop refreshes the node's tip (tip_refresh.js), fetches the next
    block over RPC with failover (chain/blockchain_connector), decodes it
    (chain/XChainBlockDecoder.js), compares the previous hash (block_ingest.js), and calls
    [storeBlock] (block_store.js).  In one database transaction [storeBlock] resolves the
    block's protocol time, inserts the blocks row, expires dispensers at one end of the
    block or the other, loads the addresses whose payments are captured, ingests the
    transactions in order and commits; then it purges old dispenser rows.  Ingesting a
    transaction (transaction_ingest.js) parses it (transaction_parsing.js: carriers, source,
    fees), passes the payload through the storage gate, writes its rows, and mirrors the
    dispenser commands a BATCH or a single action holds.  A parse failure is retried by
    rolling the block back, and quarantined after three retries.  A previous hash that
    differs starts the walk back to the fork point (reorg_verification.js), which deletes
    blocks one at a time ([deleteBlockByIndex], db/blocks.js) and halts for good where it
    would go too deep; a halt parks the loop (chain_integrity.js) until an operator clears
    it (clear_reorg_halt.js).  Beside the loop a timer refreshes the table of pending
    transactions (mempool_refresh.js), an HTTP server answers health probes and serves the
    pending transactions (api.js, api/*.js), records are logged, counted and shipped
    (observability/*.js), and a signal drains the process (shutdown.js).

    ** Where each part is

    Shared:
    - [Prelude]: JavaScript strings as lists of UTF-16 code units, buffers as lists of
      bytes, splitting and joining, record updates, and the tactics and list lemmas
      everything shares.
    - [JsNum]: JavaScript numbers (rationals, the infinities and NaN), [Number(...)] on
      strings, rounding to binary64, [parseInt], decimal digits.
    - [Sha256], [Json]: SHA-256, and JSON.stringify, JSON.parse and the canonical JSON of the
      coin registry, with printing and parsing inverse.
    - [Config]: the decoder's configuration and the parse result.

    Configuration and process:
    - [CoinData], [Coins]: coins/BTC.js, LTC.js, DOGE.js and consensus_pin.js as data, and
      coins/index.js.  [CoinsFacts]: the pins.
    - [Identity]: chain/crypto_networks.js, protocol/fee_destination.js, the configuration
      startApi hands over and the identity a decoder takes from it, with what it reads.
    - [Shutdown]: shutdown.js, the exits of api/crash_reporting.js and startApi around them,
      and the order of a drain.

    Chain:
    - [Wire]: chain/bufferutils.js and the number readers of Buffer.  [Buffers]: its
      BufferWriter and BufferReader and the patch of apply_bufferutils_patch.js.
    - [AuxPow], [BlockFetch], [Rpc]: chain/blockchain_connector/*.js: the proof of work of a
      merge-mined block and its removal, the block queries, the POST path and its retries.
    - [BlockDecoder]: chain/XChainBlockDecoder.js, with Litecoin's MWEB blocks.
    - [LibSample]: a concrete transaction library, for the runs of the block codecs.

    Protocol:
    - [Activation], [ProtocolTime], [Expiration]: the per-network gates
      (protocol/constants/*.js), protocol/protocol_time.js,
      XChainDecoder/dispenser_wide_expiration.js.
    - [Batch], [Collapse], [DispenserCommand]: the capture of BATCH sub-commands
      (protocol/batch_sub_command_capture/*.js), the collapse of a transaction's dispenser
      creates, and dispenser_registration.js.  The asynchronous address lookup is a state
      transformer, so its writes and failures are those of the caller's database.
    - [StorageGate], [Carrier], [Parse]: payload_helpers.js and
      dispenser_and_oracle_fees.js; carrier_extraction.js and envelope_recognition.js;
      source_resolution.js and transaction_parsing.js.  [CarrierFacts]: their properties.

    Storage:
    - [Db]: the tables, the database handle and its connection lifecycle
      (db/connection_lifecycle.js), and asynchronous computations over them.
    - [DbRows], [Dispensers]: the row statements of db/*.js.
    - [Ingest], [BlockStore]: transaction_ingest.js and block_store.js.  [IngestFacts]: the
      quarantine ladder.
    - [Atomic], [IngestAtomic], [BlockAtomic]: a logic for the block transaction and its
      application to every operation from a single statement up to [storeBlock]: what each
      one writes of the tables it finds ([ingested], [recorded_block]).  [Idle]: the same
      outside the block transaction.
    - [DispenserReorg]: the writes of one block as an abstract step relation
      ([block_writes]) and the deletion of a block.
    - [Mempool], [MempoolFacts]: mempool_refresh.js and db/mempool.js.
    - [Sample]: concrete functions for the parameters, and a small chain the witnesses run.

    Reorgs and the loop:
    - [Halt], [ClearHalt]: db/reorg_halt.js and reorg_halt.js; clear_reorg_halt.js.
    - [Node]: protocol/chain_identity.js, the node's answers, and computations that
      question it.
    - [ReorgWalk]: reorg_verification.js and reorg_verification/*.js.  [ReorgSpec],
      [ReorgFacts]: the abstract rollback ([rollback]), a Hoare logic, and the refinement of
      every function of the walk; [ReorgSafety], [ReorgProgress]: what follows.
    - [LoopState], [HaltPark], [TipRefresh], [SyncStatus], [MainLoop]: the fields of the
      loop, chain_integrity.js and sync_loop.js, tip_refresh.js, sync_status.js,
      block_ingest.js and the boot and loop of startup.js.  [LoopSpec], [LoopFacts]: the
      abstract loop ([chain_step]) and the refinement of every function; [LoopSafety],
      [LoopRuns]: what follows.

    Schema:
    - [SqlText], [Regex], [SqlRules]: the quote-aware walkers of db/migration_statements.js,
      the regular expressions of the sources (a parser of patterns and a matcher proved
      against their meaning), and the destructive-statement scan
      (db/migration_guards/destructive_statement_rules.js).  [SqlTextFacts],
      [SqlRulesFacts]: the tokens of a text, and the statements the scan admits.
    - [LiveSchema], [KeyGuards]: db/migration_live_schema_guard.js,
      db/migration_guards/declared_key_drop.js and key_witness.js, with their properties.
    - [MigrationTables]: the pinned checksums, the preconditions and the contracts the boot
      asserts.  [Runner]: the connection, the session and the ledger of a run, and the
      monad [Run].  [Migrate]: migrations.js, migration_guards/applied_ledger.js and the
      command migrate.js.  [Setup]: database_setup.js and table_drift.js.  [RunSample]: a
      small directory and server.
    - [MigrateTrace], [MigrateFacts], [MigratePool], [SetupFacts]: rules for relations and
      invariants of [Run], the log and the ledger of a run, the pool, and the boots of a
      database that starts empty.

    Serving and reporting:
    - [MempoolApi]: api/mempool_methods.js with the two read queries of db/mempool.js: the
      cache getmempool's requests share, as a machine over requests and ends of reads.
    - [Probes]: api/probe_routes.js, api/health_probe.js and the routes and methods of
      api.js, as computations over the state of the loop.
    - [LogShipper], [LogText]: observability/logShipper.js: the queue of the shipper as a
      machine over records and outcomes of the transport; redaction and the text line.
    - [Metrics]: observability/metrics.js, the route labels of observability/index.js and
      the gauges of metrics/decoder_metrics.js.
    - [Observability]: the rest of observability/index.js that decides something: its
      environment, the metrics endpoint and the middleware that counts requests.

    ** How code is modelled

    A method is a Definition of the same name.  Synchronous code is a function.  Code that
    awaits the database or the node is a computation in a monad over an explicit world,
    which returns or throws; [M A := world -> res A * world] of [Db] may also wait forever on
    the transaction lock.  Its world holds the tables as the current connection sees them,
    the tables at BEGIN while a transaction is open, the handle's two fields
    (transactionConnection, _transactionLock), the AUTO_INCREMENT counters, the monitoring
    counters, and [faults]: the outcomes of the coming calls, any of which may fail, before
    or after taking effect on the server.  The theorems about storing and deleting hold for
    every sequence of outcomes.  The migrations have a world of their own ([Runner.world]),
    whose tables are opaque and whose connections, pool and ledger are explicit; there, too,
    each call may be refused, or lose the connection before or after it took effect.

    The fields of [loop] and the set of open addresses are passed and returned by the code
    that stores a block.  A throw that leaves [storeBlock] ends the parse loop in the program
    (start() has no retry), so their values after a throw are not described.

    The reorg walk also questions the node and the clock: it is a computation [W A] over a
    state that holds the world, the decoder's reorg fields and the number of questions
    asked, and [node k] is what the node would answer to question [k].  The parse loop is a
    computation [L A] over a state that holds that one, the latches of the loop and its
    cursors.  Their theorems hold for every such function.

    Outside src/, and therefore parameters: MariaDB's text comparison ([Collation], a key
    function), bitcoinjs-lib, the AES-128-CTR cipher, the node's getrawtransaction and
    the block decoder where the parser uses it ([ChainLib]), the HTTP client ([Rpc]), and the
    disk and the server a migration runs on ([Runner.Disk], [Runner.Server]); the environment
    and the sidecar file of the process are an argument ([Coins.host]), and so are the order
    the server gives pending rows and the time it stamps on them ([MempoolApi]) and the text
    of a number that is no safe integer ([Metrics]).  Nothing is
    assumed of them but what a theorem states.  What is relied on of MariaDB is stated in
    [Db] and [Runner]: a statement is atomic, ROLLBACK or a lost connection restores what the
    transaction changed, and a statement of DDL commits what is open.  Releasing a connection
    leased for one statement is taken not to fail.

    ** What is proved

    - The shipped coin files match their pins, a change of any pinned field is refused where
      the pin is set, and a decoder on a federation network reads the values of the shipped
      coin file whatever its environment holds; on testnet its boot checks them against the
      pin, on mainnet, whose pin is null, it skips that check (CoinsFacts, Identity).  A
      change is told from the pinned subset up to a collision of SHA-256.
    - Storing a block refines "nothing, or the record of that block": its row with the
      height, the hash and the previous hash it was called with, the expiries of its time,
      and each of its transactions in order, with what its parse found or a PARSE_ERROR
      row; never a deadlock on the handle's own lock, never a half-written block, whatever
      fails (BlockAtomic.storeBlock_atomic); the same for the deletion of a block
      (DispenserReorg.deleteBlockByIndex_atomic).
    - A stored block can be taken back (DispenserReorg.delete_block_undoes_block over the
      abstract writes, BlockAtomic.stored_block_reversible over the code).
    - Whatever the node answers, the walk back refines a rollback that removes only blocks
      from the top, each proven off the node's chain (ReorgSafety); its depth stays under
      the ceiling, a restart reads that depth back, a live halt stops every later walk, and
      only a clear that names it lifts it.  Against a node that answers, the walk
      removes exactly the blocks above the fork point (ReorgProgress).
    - The loop, over any number of passes, refines an abstract one that only stores the
      block the node serves on top of the stored tip its header names, with the hash the
      node gave for it and its transactions, or rolls back
      (LoopSafety.loop_refines_chain); a boot on a halted database never parses; and one
      wait leaves the cursor above the stored tip for good (LoopRuns).
    - The operator's clear commits only what its audit allows, and its probe sees every
      text that registers a dispenser (ClearHalt); the rows of the mempool view are
      accounted for (MempoolFacts).
    - Blocks: a merge-mined block is cut to what its library parses, a reassembled block is
      the stripped one, MWEB blocks read back (AuxPow, BlockFetch, BlockDecoder, LibSample),
      and so does whatever the buffer writer wrote (Buffers);
      the RPC failover reaches every endpoint and its retries end (Rpc).
    - The registry errs on the side of capture: extensions, grace windows and the purge
      never drop an address still capturable (DispenserReorg), and the collapse of a
      batch's creates covers every create without key collisions (Collapse).
    - What is stored is well formed: the storage gate (StorageGate), expirations
      (Expiration), creates and edits (DispenserCommand), amounts and keys (IngestFacts),
      vouts and envelopes (CarrierFacts).  The command view of a BATCH agrees with the
      indexer's split and rejections (Batch).  Protocol time never decreases along a chain
      (ProtocolTime).
    - The retry ladder ends with the transaction set aside under a PARSE_ERROR row, is only
      climbed by content failures, and a position is quarantined only after more than
      three of them (IngestFacts).
    - A signalled process closes its pools last and once, exits with 0 only when it has, and
      can always end (Shutdown).
    - Every probe is answered, and means what it says: the status codes of /live and /ready
      and the reasons they name are exact, and a halt once known is reported on every surface whatever the database
      does (Probes).  Every request to getmempool is answered from one state of the table,
      and a burst of requests is one read (MempoolApi).
    - Logged records are shipped in order, none twice, and every loss is counted
      (LogShipper); a record is one line of text that reads back (LogText), and so does the
      text of the metrics, whose series stay under their caps (Metrics).  The endpoint
      answers to its token alone and the gauge of open requests is exact (Observability).
    - The schema: the splitter cuts a file at its top-level semicolons and nowhere else
      (SqlTextFacts), a statement the scan admits reads as one of the allowed forms
      (SqlRulesFacts), a type the live guard accepts keeps every value but for the cases
      stated (LiveSchema), the key guard is exact (KeyGuards).  Whatever fails in a
      run, it sends only statements of files in its scope, each file in order, and an
      automatic one only if the guards admit it on the tables as they are right before it
      ([sends]); a row of the ledger is added only right after its file ran to the end or
      where its precondition holds of those tables ([grows]); and the pool stays clean;
      after a full run no later run
      sends anything (MigrateFacts, MigratePool); the remedy a refused boot prints is one
      the runner carries out (MigrationTables); a database built from empty never replays a
      migration (SetupFacts).

    ** Bounds and fuel

    The walkers over text and bytes take one unit of fuel per character and one more; the
    pattern parser likewise, and the JSON reader two per character and one more, proved enough
    by the round trip of [Json].  [dec_digits] takes the bit length of the number,
    proved enough by [dec_digits_spec].  Retry loops have the program's own counts (30 connection
    attempts, 15 attempts on the database, 5 reads, the ladder of the RPC calls), the walk
    over previous block times is bounded by the program's span, the insertion of pending
    rows takes one unit per transaction.  The walk back, which the program repeats as long
    as the node does not answer, takes one unit per pass, and one more than the depth of the
    fork is enough when it answers (ReorgProgress.verifyReorg_reaches_fork).  The parse loop
    does not end: [run_loop] is any number of passes.

    ** Not modelled

    Left out: HTTP itself and the packages that serve it, the patched console and the
    handles of the loggers, the process metrics, scrubMessage and the log lines, which write
    to the outside and decide nothing; sleeps and wall-clock stamps that are only shown; pool
    creation; getTransaction and parseRawTransaction, which no code under src/src calls; the
    display copy of a halt; and the development tools under src/bin.  The numbers of the JSON
    model are integers, the only ones the coin files and the records of the log hold. *)
From Stdlib Require Export ZArith Lia Ascii String.
From stdpp Require Export base tactics list gmap sets.
Set Default Goal Selector "!".
#[global] Open Scope Z_scope.

(** ** JavaScript strings

    A JavaScript string is a sequence of UTF-16 code units; a code unit is a
    [Z] in [0, 65535].  A Buffer is a sequence of bytes, also [list Z]. *)

Abbreviation jstr := (list Z).
Abbreviation bytes := (list Z).

(** ASCII literals of the source, e.g. [js "BATCH|"]. *)
Definition js (s : String.string) : jstr :=
  map (fun c => Z.of_N (Ascii.N_of_ascii c)) (String.list_ascii_of_string s).

Arguments js _%_string_scope.

(** Decidable equality of strings as a boolean. *)
Definition eqs (a b : jstr) : bool := bool_decide (a = b).

Lemma eqs_true a b : eqs a b = true <-> a = b.
Proof. apply bool_decide_eq_true. Qed.

Lemma eqs_false a b : eqs a b = false <-> a <> b.
Proof. apply bool_decide_eq_false. Qed.

Lemma eqs_refl a : eqs a a = true.
Proof. by apply eqs_true. Qed.

(** [s.startsWith(p)] *)
Fixpoint startsWith (p s : jstr) : bool :=
  match p, s with
  | [], _ => true
  | x :: p', y :: s' => (x =? y) && startsWith p' s'
  | _ :: _, [] => false
  end.

Lemma startsWith_app p r : startsWith p (p ++ r) = true.
Proof. induction p as [|x p IH]; simpl; [done|]. by rewrite Z.eqb_refl. Qed.

Lemma startsWith_spec p s :
  startsWith p s = true <-> exists r, s = p ++ r.
Proof.
  split.
  - revert s. induction p as [|x p IH]; intros s H; [by exists s|].
    destruct s as [|y s]; [done|]. simpl in H.
    apply andb_prop in H as [Hx Hs]. apply Z.eqb_eq in Hx as ->.
    destruct (IH _ Hs) as [r ->]. by exists r.
  - intros [r ->]. apply startsWith_app.
Qed.

(** [s.split(sep)] for a one-character separator. *)
Fixpoint split_on (c : Z) (s : jstr) : list jstr :=
  match s with
  | [] => [[]]
  | x :: s' =>
      if x =? c then [] :: split_on c s'
      else match split_on c s' with
           | [] => [[x]]
           | w :: ws => (x :: w) :: ws
           end
  end.

(** [l.join(sep)] *)
Fixpoint join_with (c : Z) (l : list jstr) : jstr :=
  match l with
  | [] => []
  | [w] => w
  | w :: ws => w ++ c :: join_with c ws
  end.

Lemma split_on_nonempty c s : split_on c s <> [].
Proof.
  destruct s as [|x s]; simpl; [done|].
  destruct (x =? c); [done|]. by destruct (split_on c s).
Qed.

Lemma split_on_cons c s : exists w ws, split_on c s = w :: ws.
Proof.
  pose proof (split_on_nonempty c s). destruct (split_on c s) as [|w ws]; [done|].
  by exists w, ws.
Qed.

Lemma join_split c s : join_with c (split_on c s) = s.
Proof.
  induction s as [|x s IH]; simpl; [done|].
  destruct (split_on_cons c s) as (w & ws & E). rewrite E in IH |- *.
  destruct (Z.eqb_spec x c) as [->|Hne]; simpl.
  - by rewrite <- IH.
  - destruct ws as [|w' ws]; simpl in *; by rewrite <- IH.
Qed.

Lemma split_on_no_sep c s w : w ∈ split_on c s -> c ∉ w.
Proof.
  revert w. induction s as [|x s IH]; intros w; simpl.
  { intros ->%list_elem_of_singleton. apply not_elem_of_nil. }
  destruct (split_on_cons c s) as (v & vs & E). rewrite E in IH |- *.
  destruct (Z.eqb_spec x c) as [->|Hne]; intros Hw.
  - apply elem_of_cons in Hw as [->|Hw]; [apply not_elem_of_nil|eauto].
  - apply elem_of_cons in Hw as [->|Hw].
    + rewrite elem_of_cons. intros [->|Hin]; [done|].
      by eapply (IH v); [left|].
    + apply IH. by right.
Qed.

Lemma split_on_app c w s :
  c ∉ w -> split_on c (w ++ c :: s) = w :: split_on c s.
Proof.
  induction w as [|x w IH]; simpl; intros Hw; [by rewrite Z.eqb_refl|].
  apply not_elem_of_cons in Hw as [Hx Hw]. rewrite IH by done.
  by destruct (Z.eqb_spec x c).
Qed.

Lemma split_on_id c w : c ∉ w -> split_on c w = [w].
Proof.
  induction w as [|x w IH]; simpl; intros Hw; [done|].
  apply not_elem_of_cons in Hw as [Hx Hw]. rewrite IH by done.
  by destruct (Z.eqb_spec x c).
Qed.

Lemma split_join c l :
  l <> [] -> Forall (fun w => c ∉ w) l -> split_on c (join_with c l) = l.
Proof.
  intros Hl Hf. destruct l as [|w l]; [done|]. clear Hl. revert w Hf.
  induction l as [|w' l IH]; intros w Hf; apply Forall_cons in Hf as [Hw Hf].
  - by apply split_on_id.
  - change (join_with c (w :: w' :: l)) with (w ++ c :: join_with c (w' :: l)).
    rewrite split_on_app by done. by rewrite IH.
Qed.

(** The characters before the first occurrence of [c] (all when none). *)
Fixpoint before (c : Z) (s : jstr) : jstr :=
  match s with
  | [] => []
  | x :: s' => if x =? c then [] else x :: before c s'
  end.

(** The first [c] and everything after it (empty when there is none). *)
Fixpoint from_char (c : Z) (s : jstr) : jstr :=
  match s with
  | [] => []
  | x :: s' => if x =? c then s else from_char c s'
  end.

Lemma before_from_char c s : before c s ++ from_char c s = s.
Proof.
  induction s as [|x s IH]; simpl; [done|].
  destruct (x =? c); simpl; [done|]. by rewrite IH.
Qed.

Lemma before_no_char c s : c ∉ before c s.
Proof.
  induction s as [|x s IH]; simpl; [apply not_elem_of_nil|].
  destruct (Z.eqb_spec x c); [apply not_elem_of_nil|].
  rewrite elem_of_cons. intros [->|?]; done.
Qed.

Lemma before_app_char c s r : c ∉ s -> before c (s ++ c :: r) = s.
Proof.
  induction s as [|x s IH]; simpl; intros H.
  - by rewrite Z.eqb_refl.
  - rewrite elem_of_cons in H. destruct (Z.eqb_spec x c) as [->|]; [tauto|].
    rewrite IH; tauto.
Qed.

Lemma before_id c s : c ∉ s -> before c s = s.
Proof.
  induction s as [|x s IH]; simpl; intros H; [done|].
  rewrite elem_of_cons in H. destruct (Z.eqb_spec x c) as [->|]; [tauto|].
  rewrite IH; tauto.
Qed.

Lemma split_on_head c s : exists ws, split_on c s = before c s :: ws.
Proof.
  induction s as [|x s [ws IH]]; simpl; [by eexists|].
  destruct (x =? c); [by eexists|]. rewrite IH. by eexists.
Qed.

Lemma drop_before c s : drop (length (before c s)) s = from_char c s.
Proof. rewrite <- (before_from_char c s) at 2. apply drop_app_length. Qed.

Lemma from_char_idem c s : from_char c (from_char c s) = from_char c s.
Proof.
  induction s as [|y s IH]; simpl; [done|].
  destruct (Z.eqb_spec y c) as [->|]; [|done]. simpl. by rewrite Z.eqb_refl.
Qed.

Lemma from_char_app c e s : c ∉ e -> from_char c (e ++ s) = from_char c s.
Proof.
  induction e as [|y e IH]; simpl; intros Hp; [done|].
  rewrite elem_of_cons in Hp. destruct (Z.eqb_spec y c) as [->|]; naive_solver.
Qed.

Lemma before_app_from c e s : c ∉ e -> before c (e ++ from_char c s) = e.
Proof.
  intros He. destruct (from_char c s) as [|x r] eqn:Hf.
  { rewrite app_nil_r. by apply before_id. }
  assert (x = c) as ->; [|by apply before_app_char].
  clear He. induction s as [|y s IH]; simpl in Hf; [done|].
  destruct (Z.eqb_spec y c); [congruence|auto].
Qed.

(** ** Characters used by the wire format *)
Definition pipe : Z := 124.     (* '|' *)
Definition semicolon : Z := 59. (* ';' *)
Definition caret : Z := 94.     (* '^' *)
Definition dot : Z := 46.       (* '.' *)

(** White space as [String.prototype.trim] and [Number] strip it. *)
Definition is_ws (c : Z) : bool :=
  ((9 <=? c) && (c <=? 13)) || (c =? 32) || (c =? 160) || (c =? 5760)
  || ((8192 <=? c) && (c <=? 8202)) || (c =? 8232) || (c =? 8233)
  || (c =? 8239) || (c =? 8287) || (c =? 12288) || (c =? 65279).

Fixpoint drop_ws (s : jstr) : jstr :=
  match s with
  | [] => []
  | c :: s' => if is_ws c then drop_ws s' else s
  end.

Definition trim (s : jstr) : jstr := rev (drop_ws (rev (drop_ws s))).

Definition is_digit (c : Z) : bool := (48 <=? c) && (c <=? 57).

(** The longest prefix of [s] whose characters satisfy [f], and the rest. *)
Fixpoint span (f : Z -> bool) (s : jstr) : jstr * jstr :=
  match s with
  | [] => ([], [])
  | c :: s' => if f c then let '(a, b) := span f s' in (c :: a, b) else ([], s)
  end.

Lemma span_app f s : (span f s).1 ++ (span f s).2 = s.
Proof.
  induction s as [|c s IH]; simpl; [done|].
  destruct (f c); [|done]. destruct (span f s) as [a b]. simpl in *. by rewrite IH.
Qed.

Lemma span_forall f s : Forall (fun c => f c = true) (span f s).1.
Proof.
  induction s as [|c s IH]; simpl; [done|].
  destruct (f c) eqn:E; [|by constructor].
  destruct (span f s) as [a b]. simpl in *. by constructor.
Qed.

Lemma span_all f s : Forall (fun c => f c = true) s -> span f s = (s, []).
Proof.
  induction 1 as [|c s Hc _ IH]; simpl; [done|]. by rewrite Hc, IH.
Qed.

(** Case, for the characters of ASCII. *)
Definition lowercase (c : Z) : Z := if (65 <=? c) && (c <=? 90) then c + 32 else c.
Definition uppercase (c : Z) : Z := if (97 <=? c) && (c <=? 122) then c - 32 else c.

Definition lower (s : jstr) : jstr := map lowercase s.
Definition upper (s : jstr) : jstr := map uppercase s.

(** ** Small generic helpers *)

(** [arr[i]] on an array: [None] is [undefined]. *)
Definition field (l : list jstr) (i : nat) : option jstr := l !! i.

Definition is_empty (s : jstr) : bool := match s with [] => true | _ => false end.

Definition nonblank (l : list jstr) : list jstr := List.filter (fun s => negb (is_empty s)) l.

Lemma is_empty_true s : is_empty s = true <-> s = [].
Proof. by destruct s. Qed.

Lemma Forall2_with {A B} (P : A -> B -> Prop) (Q : A -> Prop) (R : B -> Prop) l k :
  Forall2 P l k -> Forall Q l -> Forall R k ->
  Forall2 (fun x y => P x y /\ Q x /\ R y) l k.
Proof.
  induction 1 as [|x y l k Hp _ IH]; intros Hq Hr; [constructor|].
  apply Forall_cons in Hq as [? ?]. apply Forall_cons in Hr as [? ?].
  constructor; [done|]. by apply IH.
Qed.

Lemma Forall_self {A} (l : list A) : Forall (fun x => x ∈ l) l.
Proof. by apply Forall_forall. Qed.

(** Case analysis on every [match]/[if] of the goal or a hypothesis. *)
Ltac case_all := repeat (case_match; simplify_eq/=).

(** Turn boolean tests into propositions. *)
Ltac b2p :=
  repeat match goal with
  | H : _ && _ = true |- _ => apply andb_prop in H as [? ?]
  | H : _ || _ = true |- _ => apply orb_prop in H
  | H : _ || _ = false |- _ => apply orb_false_elim in H as [? ?]
  | H : negb _ = true |- _ => apply negb_true_iff in H
  | H : negb _ = false |- _ => apply negb_false_iff in H
  | H : (_ =? _)%Z = true |- _ => apply Z.eqb_eq in H
  | H : (_ =? _)%Z = false |- _ => apply Z.eqb_neq in H
  | H : (_ <=? _)%Z = true |- _ => apply Z.leb_le in H
  | H : (_ <=? _)%Z = false |- _ => apply Z.leb_gt in H
  | H : (_ <? _)%Z = true |- _ => apply Z.ltb_lt in H
  | H : (_ <? _)%Z = false |- _ => apply Z.ltb_ge in H
  | H : eqs _ _ = true |- _ => apply eqs_true in H
  | H : eqs _ _ = false |- _ => apply eqs_false in H
  | H : bool_decide _ = true |- _ => apply bool_decide_eq_true in H
  | H : bool_decide _ = false |- _ => apply bool_decide_eq_false in H
  end.

Create HintDb xd.
Create Rewrite HintDb xd.
#[export] Hint Rewrite eqs_refl join_split before_from_char : xd.
#[export] Hint Resolve split_on_nonempty before_no_char : xd.

(** ** Record update

    [s <| p := v |>] sets a field, [s <| p ::= f |>] maps one.  A record opts in with its
    eta-expansion, [Eta]; the setter of a projection is found in it. *)
Class Eta (R : Type) := eta : R -> R.
Class Setter {R T : Type} (p : R -> T) := set_field : (T -> T) -> R -> R.
Arguments set_field {R T} p {_} f r.

Ltac derive_setter :=
  lazymatch goal with
  | |- @Setter ?R _ ?p =>
      let e := constr:(_ : Eta R) in
      let f := fresh "f" in
      let r := fresh "r" in
      intros f r;
      let t := eval cbv beta iota delta [eta] in (e r) in
      let t := eval red in t in
      let t := eval cbv beta in t in
      lazymatch eval pattern (p r) in t with
      | ?g _ => let b := eval cbv beta in (g (f (p r))) in exact b
      end
  end.

#[export] Hint Extern 0 (Setter _) => derive_setter : typeclass_instances.

Declare Scope update_scope.
Delimit Scope update_scope with update.
Notation "s <| p := v |>" := (set_field p (fun _ => v) s)
  (at level 1, left associativity, p at level 9, v at level 200) : update_scope.
Notation "s <| p ::= f |>" := (set_field p f s)
  (at level 1, left associativity, p at level 9, f at level 200) : update_scope.

Lemma filter_all {A} (f : A -> bool) l :
  Forall (fun x => f x = true) l -> List.filter f l = l.
Proof. induction 1 as [|x l Hx _ IH]; simpl; [done|]. by rewrite Hx, IH. Qed.
