(* ===== verification/JsNum.v ===== *)
(** * JavaScript numbers

    The part of the ECMAScript number semantics the decoder relies on: the
    conversion [Number(v)] of a primitive value, [parseInt(s, 10)],
    [isNaN(parseFloat(s))] and [Number.isSafeInteger].  A finite number is the
    rational it denotes; the conversion of a decimal literal rounds to the
    nearest binary64, ties to even. *)
From Stdlib Require Import QArith.QArith_base QArith.Qreduction.
From S2P Require Import Prelude.
#[local] Open Scope Z_scope.

Inductive num :=
  | NaN
  | Inf (negative : bool)
  | Fin (q : Q).

(** The primitive values the decoder's guards are applied to. *)
Inductive jsval :=
  | JUndefined
  | JNull
  | JBool (b : bool)
  | JNum (n : num)
  | JStr (s : jstr)
  | JBigInt (z : Z).

Definition Qz (z : Z) : Q := Qmake z 1.
Definition numZ (z : Z) : num := Fin (Qz z).
Definition jint (z : Z) : jsval := JNum (numZ z).

(** ** Rounding to binary64 *)

(** Division rounded to nearest, ties to even. *)
Definition rdiv (a b : Z) : Z :=
  let q := a / b in
  let r := a mod b in
  if 2 * r <? b then q
  else if b <? 2 * r then q + 1
  else if Z.even q then q else q + 1.

(** [n < d * 2^e] without fractions. *)
Definition lt_scaled (n d e : Z) : bool :=
  if 0 <=? e then n <? d * 2 ^ e else n * 2 ^ (- e) <? d.

(** The exponent of the unit in the last place of [n/d]. *)
Definition ulp_exp (n d : Z) : Z :=
  let k := Z.log2 n - Z.log2 d - 52 in
  let k := if lt_scaled n d (k + 52) then k - 1 else k in
  Z.max k (-1074).

(** Round the positive fraction [n/d]. *)
Definition round_pos (n d : Z) : num :=
  let k := ulp_exp n d in
  if 0 <=? k then
    let z := rdiv n (d * 2 ^ k) * 2 ^ k in
    if 2 ^ 1024 <=? z then Inf false else numZ z
  else Fin (Qmake (rdiv (n * 2 ^ (- k)) d) (Z.to_pos (2 ^ (- k)))).

Definition neg_num (n : num) : num :=
  match n with
  | NaN => NaN
  | Inf b => Inf (negb b)
  | Fin q => Fin (Qopp q)
  end.

Definition round_binary64 (q : Q) : num :=
  match Qred q with
  | Qmake n d =>
      if n =? 0 then numZ 0
      else if 0 <? n then round_pos n (Zpos d)
      else neg_num (round_pos (- n) (Zpos d))
  end.

(** ** Decimal literals *)

Fixpoint digits_value (acc : Z) (s : jstr) : Z :=
  match s with
  | [] => acc
  | c :: s' => digits_value (acc * 10 + (c - 48)) s'
  end.

(** An optional sign. *)
Definition parse_sign (s : jstr) : bool * jstr :=
  match s with
  | c :: s' => if c =? 43 then (false, s') else if c =? 45 then (true, s') else (false, s)
  | [] => (false, [])
  end.

Record decimal := Decimal {
  dec_neg : bool;        (* a '-' sign *)
  dec_int : jstr;        (* the digits before the point *)
  dec_frac : jstr;       (* the digits after the point *)
  dec_exp : option jstr  (* the token after e/E, sign included *)
}.

(** An optional sign and digits, to the end of the string. *)
Definition is_exponent_token (s : jstr) : bool :=
  let '(_, r) := parse_sign s in
  let '(ds, rest) := span is_digit r in
  negb (is_empty ds) && is_empty rest.

(** An optional exponent and the end of the string: [Some None] when there is
    no exponent. *)
Definition parse_exponent (s : jstr) : option (option jstr) :=
  match s with
  | [] => Some None
  | c :: s' =>
      if (c =? 101) || (c =? 69)
      then if is_exponent_token s' then Some (Some s') else None
      else None
  end.

(** An optional sign, digits with an optional point and digits (or a point and
    digits), an optional exponent, and the end of the string. *)
Definition parse_decimal (s : jstr) : option decimal :=
  let '(neg, r) := parse_sign s in
  let '(int, r1) := span is_digit r in
  let '(has_dot, r2) :=
    match r1 with c :: r' => if c =? dot then (true, r') else (false, r1) | [] => (false, []) end in
  let '(frac, r3) := if has_dot : bool then span is_digit r2 else ([], r2) in
  if is_empty int && is_empty frac then None
  else match parse_exponent r3 with
       | None => None
       | Some e => Some (Decimal neg int frac e)
       end.

(** The signed integer an exponent token denotes. *)
Definition exponent_value (e : jstr) : Z :=
  let '(neg, ds) := parse_sign e in
  if neg then - digits_value 0 ds else digits_value 0 ds.

(** [m * 10^e] *)
Definition scale10 (m e : Z) : Q :=
  if 0 <=? e then Qz (m * 10 ^ e) else Qmake m (Z.to_pos (10 ^ (- e))).

(** The rational a decimal literal denotes, before rounding. *)
Definition decimal_value (d : decimal) : Q :=
  let m := digits_value 0 (dec_int d ++ dec_frac d) in
  let e := match dec_exp d with None => 0 | Some t => exponent_value t end in
  scale10 (if dec_neg d then - m else m) (e - Z.of_nat (length (dec_frac d))).

(** ** [Number(v)] *)

Definition hex_value (c : Z) : option Z :=
  if is_digit c then Some (c - 48)
  else if (97 <=? c) && (c <=? 102) then Some (c - 87)
  else if (65 <=? c) && (c <=? 70) then Some (c - 55)
  else None.

Fixpoint radix_value (b acc : Z) (s : jstr) : option Z :=
  match s with
  | [] => Some acc
  | c :: s' =>
      match hex_value c with
      | Some v => if v <? b then radix_value b (acc * b + v) s' else None
      | None => None
      end
  end.

(** [0x..], [0o..], [0b..] (no sign, at least one digit). *)
Definition parse_radix (s : jstr) : option Z :=
  match s with
  | z :: x :: c :: s' =>
      if z =? 48 then
        if (x =? 120) || (x =? 88) then radix_value 16 0 (c :: s')
        else if (x =? 111) || (x =? 79) then radix_value 8 0 (c :: s')
        else if (x =? 98) || (x =? 66) then radix_value 2 0 (c :: s')
        else None
      else None
  | _ => None
  end.

Definition string_to_number (s : jstr) : num :=
  let t := trim s in
  if is_empty t then numZ 0
  else if eqs t (js "Infinity") || eqs t (js "+Infinity") then Inf false
  else if eqs t (js "-Infinity") then Inf true
  else match parse_radix t with
       | Some z => round_binary64 (Qz z)
       | None =>
           match parse_decimal t with
           | Some d => round_binary64 (decimal_value d)
           | None => NaN
           end
       end.

Definition Number (v : jsval) : num :=
  match v with
  | JUndefined => NaN
  | JNull => numZ 0
  | JBool b => numZ (if b then 1 else 0)
  | JNum n => n
  | JStr s => string_to_number s
  | JBigInt z => round_binary64 (Qz z)
  end.

Definition isFinite (n : num) : bool := match n with Fin _ => true | _ => false end.

(** [parseInt(s, 10)] *)
Definition parse_int_str (s : jstr) : num :=
  let '(neg, r) := parse_sign (drop_ws s) in
  let '(ds, _) := span is_digit r in
  if is_empty ds then NaN
  else round_binary64 (Qz (if neg then - digits_value 0 ds else digits_value 0 ds)).

(** [isNaN(parseFloat(s))]: no prefix of [s] is a decimal literal. *)
Definition parse_float_is_nan (s : jstr) : bool :=
  let '(_, r) := parse_sign (drop_ws s) in
  if startsWith (js "Infinity") r then false
  else match r with
       | c :: r' =>
           if is_digit c then false
           else if c =? dot then
             match r' with c' :: _ => negb (is_digit c') | [] => true end
           else true
       | [] => true
       end.

Definition MAX_SAFE_INTEGER : Z := 2 ^ 53 - 1.

(** The integer a finite number equals, when it is one. *)
Definition integer_of (n : num) : option Z :=
  match n with
  | Fin (Qmake a b) => if a mod Zpos b =? 0 then Some (a / Zpos b) else None
  | _ => None
  end.

(** [Number.isSafeInteger(n)], with the integer. *)
Definition safe_integer (n : num) : option Z :=
  match integer_of n with
  | Some z => if Z.abs z <=? MAX_SAFE_INTEGER then Some z else None
  | None => None
  end.

(** [n === z] for an integer literal [z]. *)
Definition num_is (n : num) (z : Z) : bool :=
  match integer_of n with Some a => a =? z | None => false end.

(** [a >= b] and [a > b] on finite numbers. *)
Definition Qge (a b : Q) : bool := Qle_bool b a.
Definition Qgt (a b : Q) : bool := negb (Qle_bool a b).

Definition falsy_num (n : num) : bool := match n with NaN => true | _ => num_is n 0 end.

(** [a < b] and [a <= b]; a comparison with NaN is false. *)
Definition num_lt (a b : num) : bool :=
  match a, b with
  | Fin x, Fin y => Qgt y x
  | Inf true, Fin _ | Inf true, Inf false | Fin _, Inf false => true
  | _, _ => false
  end.

Definition num_le (a b : num) : bool :=
  match a, b with
  | NaN, _ | _, NaN => false
  | _, _ => negb (num_lt b a)
  end.

(** ** Facts *)

Lemma Qge_Qz a b : Qge (Qz a) (Qz b) = (b <=? a).
Proof. unfold Qge, Qle_bool, Qz; simpl. by rewrite !Z.mul_1_r. Qed.

Lemma Qgt_Qz a b : Qgt (Qz a) (Qz b) = (b <? a).
Proof.
  unfold Qgt, Qle_bool, Qz; simpl. rewrite !Z.mul_1_r.
  by rewrite Z.ltb_antisym.
Qed.

Lemma num_lt_Z a b : num_lt (numZ a) (numZ b) = (a <? b).
Proof. apply Qgt_Qz. Qed.

Lemma num_le_Z a b : num_le (numZ a) (numZ b) = (a <=? b).
Proof. unfold num_le. cbn [numZ]. change (Fin (Qz ?x)) with (numZ x). rewrite num_lt_Z. lia. Qed.

Lemma integer_of_Qz z : integer_of (numZ z) = Some z.
Proof. simpl. by rewrite Z.mod_1_r, Z.div_1_r. Qed.

Lemma safe_integer_numZ z :
  Z.abs z <= MAX_SAFE_INTEGER -> safe_integer (numZ z) = Some z.
Proof.
  intros H. unfold safe_integer. rewrite integer_of_Qz.
  by rewrite (proj2 (Z.leb_le _ _) H).
Qed.

Lemma safe_integer_bound n z : safe_integer n = Some z -> Z.abs z <= MAX_SAFE_INTEGER.
Proof.
  unfold safe_integer. destruct (integer_of n); [|done].
  case_match; [|done]. intros [= <-]. by b2p.
Qed.

Lemma rdiv_1 a : rdiv a 1 = a.
Proof. unfold rdiv. rewrite Z.mod_1_r, Z.div_1_r. done. Qed.

Lemma rdiv_lower a b : a / b <= rdiv a b.
Proof. unfold rdiv. repeat case_match; lia. Qed.

Lemma ulp_exp_int v :
  0 < v -> ulp_exp v 1 = Z.log2 v - 52.
Proof.
  intros Hv. unfold ulp_exp. change (Z.log2 1) with 0.
  replace (Z.log2 v - 0 - 52) with (Z.log2 v - 52) by lia.
  pose proof (Z.log2_nonneg v). destruct (Z.log2_spec v Hv) as [Hlo _].
  replace (lt_scaled v 1 (Z.log2 v - 52 + 52)) with false; [lia|].
  symmetry. unfold lt_scaled. rewrite Z.sub_add.
  rewrite (proj2 (Z.leb_le _ _)); [|lia]. apply Z.ltb_ge. lia.
Qed.

(** Integers below 2^53 are represented exactly. *)
Lemma round_int_exact v :
  0 < v -> v < 2 ^ 53 -> safe_integer (round_pos v 1) = Some v.
Proof.
  intros Hv Hlt. unfold round_pos. rewrite ulp_exp_int by done.
  assert (Hl : Z.log2 v <= 52).
  { assert (Z.log2 v < 53); [|lia]. apply Z.log2_lt_pow2; done. }
  case_match eqn:E; b2p.
  - assert (Z.log2 v - 52 = 0) as -> by lia.
    change (1 * 2 ^ 0) with 1. rewrite rdiv_1.
    replace (v * 2 ^ 0) with v by (simpl; lia).
    rewrite (proj2 (Z.leb_gt (2 ^ 1024) v)).
    { apply safe_integer_numZ. unfold MAX_SAFE_INTEGER. lia. }
    eapply Z.lt_trans; [exact Hlt|]. reflexivity.
  - rewrite rdiv_1. set (p := - (Z.log2 v - 52)).
    assert (Hp : 0 < 2 ^ p) by (apply Z.pow_pos_nonneg; lia).
    unfold safe_integer, integer_of. rewrite Z2Pos.id by done.
    rewrite Z.mod_mul by lia. simpl (0 =? 0). rewrite Z.div_mul by lia.
    rewrite (proj2 (Z.leb_le _ _)); [done|]. unfold MAX_SAFE_INTEGER. lia.
Qed.

(** Integers from 2^53 on never round to a safe integer. *)
Lemma round_int_unsafe v :
  2 ^ 53 <= v -> safe_integer (round_pos v 1) = None.
Proof.
  intros Hv. assert (0 < v) by lia. unfold round_pos. rewrite ulp_exp_int by done.
  assert (Hl : 53 <= Z.log2 v).
  { apply Z.log2_le_pow2; [done|]. done. }
  rewrite (proj2 (Z.leb_le 0 _)) by lia.
  set (k := Z.log2 v - 52). rewrite Z.mul_1_l.
  assert (Hk : 0 < 2 ^ k) by (apply Z.pow_pos_nonneg; lia).
  destruct (Z.log2_spec v) as [Hlo _]; [done|].
  assert (Hd : 2 ^ 52 <= v / 2 ^ k).
  { apply Z.div_le_lower_bound; [done|]. rewrite <- Z.pow_add_r by lia.
    replace (k + 52) with (Z.log2 v) by lia. done. }
  pose proof (rdiv_lower v (2 ^ k)) as Hr.
  assert (H2 : 2 ^ 1 <= 2 ^ k) by (apply Z.pow_le_mono_r; lia).
  case_match; [done|]. unfold safe_integer. rewrite integer_of_Qz.
  rewrite (proj2 (Z.leb_gt _ _)); [done|]. unfold MAX_SAFE_INTEGER.
  rewrite Z.abs_eq by nia. nia.
Qed.

Lemma integer_of_neg n z : integer_of (neg_num n) = Some z -> integer_of n = Some (- z).
Proof.
  destruct n as [| |[a b]]; simpl; [done..|].
  destruct (Z.eqb_spec (- a mod Zpos b) 0) as [E|]; [|done].
  intros [= <-]. assert (Hm : a mod Zpos b = 0).
  { destruct (Z.eq_dec (a mod Zpos b) 0) as [|Hn]; [done|].
    rewrite Z.mod_opp_l_nz in E by lia. pose proof (Z.mod_pos_bound a (Zpos b)). lia. }
  rewrite Hm. simpl. f_equal. rewrite Z.div_opp_l_z by lia. lia.
Qed.

Lemma safe_integer_neg n z : safe_integer (neg_num n) = Some z -> safe_integer n = Some (- z).
Proof.
  unfold safe_integer. destruct (integer_of (neg_num n)) as [w|] eqn:E; [|done].
  case_match eqn:H; [|done]. intros [= <-]. apply integer_of_neg in E as ->.
  by rewrite Z.abs_opp, H.
Qed.

Lemma Qred_integral n d v : n = v * Zpos d -> Qred (Qmake n d) = Qz v.
Proof.
  intros ->. assert (H : Qeq (Qmake (v * Zpos d) d) (Qz v)).
  { unfold Qeq, Qz. simpl. lia. }
  rewrite (Qred_complete _ _ H). unfold Qred, Qz.
  pose proof (Z.ggcd_correct_divisors v 1) as Hd.
  pose proof (Z.ggcd_gcd v 1) as Hg. rewrite Z.gcd_1_r in Hg.
  destruct (Z.ggcd v 1) as [g [a b]]. simpl in Hg. subst g.
  destruct Hd as [Ha Hb]. rewrite !Z.mul_1_l in *. by subst.
Qed.

(** If an exact integer rounds to a safe integer, it is that integer. *)
Lemma round_binary64_integral n d v z :
  n = v * Zpos d ->
  safe_integer (round_binary64 (Qmake n d)) = Some z -> v = z.
Proof.
  intros Hn. unfold round_binary64. rewrite (Qred_integral n d v Hn). unfold Qz.
  assert (Hpos : forall w y, 0 < w -> safe_integer (round_pos w 1) = Some y -> w = y).
  { intros w y Hw Hy. destruct (Z.lt_ge_cases w (2 ^ 53)) as [Hl|Hg].
    - rewrite round_int_exact in Hy by done. congruence.
    - rewrite round_int_unsafe in Hy by done. done. }
  destruct (Z.eqb_spec v 0) as [->|Hv0].
  { rewrite safe_integer_numZ by done. congruence. }
  destruct (Z.ltb_spec 0 v).
  - apply Hpos. done.
  - intros Hs%safe_integer_neg. apply Hpos in Hs; lia.
Qed.

Lemma round_binary64_small v :
  Z.abs v <= MAX_SAFE_INTEGER -> safe_integer (round_binary64 (Qz v)) = Some v.
Proof.
  intros Hv. unfold MAX_SAFE_INTEGER in Hv. unfold round_binary64, Qz.
  rewrite (Qred_integral v 1 v) by lia. unfold Qz.
  destruct (Z.eqb_spec v 0) as [->|]; [done|].
  destruct (Z.ltb_spec 0 v).
  - apply round_int_exact; lia.
  - assert (Hp : safe_integer (round_pos (- v) 1) = Some (- v)).
    { apply round_int_exact; lia. }
    revert Hp. destruct (round_pos (- v) 1) as [| |[a b]]; [done..|].
    unfold safe_integer, integer_of; simpl.
    destruct (Z.eqb_spec (a mod Zpos b) 0) as [E|]; [|done].
    rewrite Z.mod_opp_l_z by lia. simpl. rewrite Z.div_opp_l_z by lia.
    rewrite Z.abs_opp. case_match; [|done]. intros [= ->]. f_equal. lia.
Qed.

(** ** Decimal digits of a natural number *)

Fixpoint dec_digits_fuel (fuel : nat) (n : Z) (acc : jstr) : jstr :=
  match fuel with
  | O => acc
  | S f => let acc' := (48 + n mod 10) :: acc in
           if n <? 10 then acc' else dec_digits_fuel f (n / 10) acc'
  end.

(** [String(n)] of a non-negative integer: its decimal digits. *)
Definition dec_digits (n : Z) : jstr := dec_digits_fuel (S (Z.to_nat (Z.log2 n))) n [].

(** [String(z)] of an integer. *)
Definition dec (z : Z) : jstr := if z <? 0 then 45 :: dec_digits (- z) else dec_digits z.

Lemma digits_value_app acc a b :
  digits_value acc (a ++ b) = digits_value (digits_value acc a) b.
Proof. revert acc. induction a as [|c a IH]; intros acc; simpl; [done|]. apply IH. Qed.

Lemma digits_value_nonneg s acc :
  0 <= acc -> Forall (fun c => is_digit c = true) s -> 0 <= digits_value acc s.
Proof.
  revert acc. induction s as [|c s IH]; intros acc Ha H; simpl; [done|].
  apply Forall_cons in H as [Hc Hs]. apply IH; [|done].
  unfold is_digit in Hc. b2p. lia.
Qed.

Lemma dec_digits_fuel_value fuel n acc :
  0 <= n -> n < 2 ^ Z.of_nat fuel ->
  exists ds, dec_digits_fuel fuel n acc = ds ++ acc
    /\ digits_value 0 ds = n /\ Forall (fun c => is_digit c = true) ds.
Proof.
  revert n acc. induction fuel as [|f IH]; intros n acc Hn Hf.
  { simpl in Hf. exists []. simpl. repeat split; [lia|done]. }
  cbn [dec_digits_fuel]. pose proof (Z.mod_pos_bound n 10 ltac:(lia)) as Hm.
  assert (Hd : is_digit (48 + n mod 10) = true).
  { unfold is_digit. rewrite !(proj2 (Z.leb_le _ _)); [done|lia|lia]. }
  destruct (Z.ltb_spec n 10).
  - exists [48 + n mod 10]. simpl. rewrite Z.mod_small by lia.
    repeat split; [lia|]. constructor; [|done]. by rewrite Z.mod_small in Hd by lia.
  - rewrite Nat2Z.inj_succ, Z.pow_succ_r in Hf by lia.
    destruct (IH (n / 10) ((48 + n mod 10) :: acc)) as (ds & E & Hv & Ha).
    { apply Z.div_pos; lia. }
    { apply Z.div_lt_upper_bound; lia. }
    exists (ds ++ [48 + n mod 10]). rewrite E, <- app_assoc. split; [done|]. split.
    + rewrite digits_value_app, Hv. simpl. pose proof (Z.div_mod n 10). lia.
    + apply Forall_app. split; [done|]. by constructor.
Qed.

Lemma dec_digits_spec n :
  0 <= n -> digits_value 0 (dec_digits n) = n
            /\ Forall (fun c => is_digit c = true) (dec_digits n).
Proof.
  intros Hn. unfold dec_digits.
  destruct (dec_digits_fuel_value (S (Z.to_nat (Z.log2 n))) n []) as (ds & E & Hv & Hd); [done| |].
  { rewrite Nat2Z.inj_succ. rewrite Z2Nat.id by apply Z.log2_nonneg.
    destruct (Z.eq_dec n 0) as [->|]; [done|]. apply Z.log2_spec. lia. }
  rewrite E, app_nil_r. done.
Qed.

Lemma dec_digits_fuel_app fuel n acc :
  exists l, dec_digits_fuel fuel n acc = l ++ acc.
Proof.
  revert n acc. induction fuel as [|f IH]; intros n acc; simpl; [by exists []|].
  destruct (n <? 10); [by exists [48 + n mod 10]|].
  destruct (IH (n / 10) ((48 + n mod 10) :: acc)) as [l ->].
  exists (l ++ [48 + n mod 10]). by rewrite <- app_assoc.
Qed.
