(* ===== verification/Wire.v ===== *)
(** * Byte-level primitives

    src/src/chain/bufferutils.js and the number readers of Node's Buffer that the block
    codecs use: a buffer is a list of bytes, an offset an integer that may lie past its
    end, and [None] is a throw.

    Integers of eight bytes become JavaScript numbers, which round above 2^53.  Such a
    value is past the end of every buffer, so rounding changes no outcome and is left out
    where the value is a length or a count. *)
From S2P Require Import Prelude JsNum.
#[local] Open Scope Z_scope.

Definition is_byte (b : Z) : Prop := 0 <= b < 256.

Definition bytes_b (b : bytes) : bool := forallb (fun x => (0 <=? x) && (x <? 256)) b.

Lemma bytes_b_true b : bytes_b b = true -> Forall is_byte b.
Proof.
  unfold bytes_b. rewrite forallb_forall. intros H. apply Forall_forall. intros x Hx.
  specialize (H x (proj1 (list_elem_of_In _ _) Hx)). unfold is_byte. b2p. lia.
Qed.

(** ** Little-endian numbers *)

Fixpoint le_value (b : bytes) : Z :=
  match b with
  | [] => 0
  | x :: b' => x + 256 * le_value b'
  end.

Fixpoint le_bytes (n : nat) (v : Z) : bytes :=
  match n with
  | O => []
  | S n' => v mod 256 :: le_bytes n' (v / 256)
  end.

Definition size_of (buf : bytes) : Z := Z.of_nat (length buf).

(** [buf.subarray(o, o + n)] of a range inside the buffer. *)
Definition sub_bytes (buf : bytes) (o n : Z) : bytes :=
  take (Z.to_nat n) (drop (Z.to_nat o) buf).

(** [buf.readUInt8(o)], [readUInt16LE], [readUInt32LE], [readBigUInt64LE]: a range error
    unless the whole number is inside. *)
Definition read_le (n : Z) (buf : bytes) (o : Z) : option Z :=
  if (0 <=? o) && (o + n <=? size_of buf) then Some (le_value (sub_bytes buf o n)) else None.

#[global] Arguments read_le : simpl never.

(** [buf.readInt32LE(o)] *)
Definition read_int32 (buf : bytes) (o : Z) : option Z :=
  (fun v => if v <? 2 ^ 31 then v else v - 2 ^ 32) <$> read_le 4 buf o.

(** [buf[o]]; [None] is undefined. *)
Definition get_byte (buf : bytes) (o : Z) : option Z :=
  if o <? 0 then None else buf !! Z.to_nat o.

(** ** bufferutils.js *)

Definition MAX_UINT53 : Z := 9007199254740991.   (* 0x001fffffffffffff *)

Definition verifuint (value : num) (max : Z) : option Z :=
  match integer_of value with
  | Some v => if (0 <=? v) && (v <=? max) then Some v else None
  | None => None
  end.

Definition readUInt64LE (buffer : bytes) (offset : Z) : option Z :=
  a ← read_le 4 buffer offset;
  b ← read_le 4 buffer (offset + 4);
  verifuint (numZ (b * 2 ^ 32 + a)) MAX_UINT53.

(** The eight bytes written at the offset. *)
Definition writeUInt64LE (value : num) : option bytes :=
  v ← verifuint value MAX_UINT53;
  Some (le_bytes 4 (v mod 2 ^ 32) ++ le_bytes 4 (v / 2 ^ 32)).

(** The in-place swap loop. *)
Fixpoint swap_from (buffer : bytes) (i j : nat) (n : nat) : bytes :=
  match n with
  | O => buffer
  | S n' =>
      match buffer !! i, buffer !! j with
      | Some x, Some y => swap_from (<[j := x]> (<[i := y]> buffer)) (S i) (pred j) n'
      | _, _ => buffer
      end
  end.

Definition reverseBuffer (buffer : bytes) : bytes :=
  swap_from buffer 0 (pred (length buffer)) (Nat.div2 (S (length buffer))).

(** ** Hexadecimal *)

Definition hex_digit (d : Z) : Z := if d <? 10 then 48 + d else 87 + d.

(** [buf.toString('hex')] *)
Definition hex_of (b : bytes) : jstr :=
  flat_map (fun x => [hex_digit (x / 16); hex_digit (x mod 16)]) b.

(** [Buffer.from(s, 'hex')] stops at the first pair that is not two hex digits. *)
Fixpoint from_hex (s : jstr) : bytes :=
  match s with
  | c :: d :: s' =>
      match hex_value c, hex_value d with
      | Some x, Some y => 16 * x + y :: from_hex s'
      | _, _ => []
      end
  | _ => []
  end.

Definition is_hex (c : Z) : bool := bool_decide (is_Some (hex_value c)).

Fixpoint hex_fold (acc : Z) (s : jstr) : Z :=
  match s with
  | [] => acc
  | c :: s' => hex_fold (acc * 16 + default 0 (hex_value c)) s'
  end.

(** The hex prefix [0x] is skipped. *)
Definition strip_0x (s : jstr) : jstr :=
  match s with
  | z :: x :: s' => if (z =? 48) && ((x =? 120) || (x =? 88)) then s' else s
  | _ => s
  end.

(** [parseInt(s, 16)] of a string of few enough digits to be exact; [None] is NaN. *)
Definition parse_int16 (s : jstr) : option Z :=
  let '(neg, r) := parse_sign (drop_ws s) in
  let '(ds, _) := span is_hex (strip_0x r) in
  if is_empty ds then None else Some (if neg then - hex_fold 0 ds else hex_fold 0 ds).

(** ** 32-bit operators *)

(** ToInt32 *)
Definition to_int32 (z : Z) : Z :=
  let m := z mod 2 ^ 32 in if m <? 2 ^ 31 then m else m - 2 ^ 32.

(** [a << n] *)
Definition shl32 (a n : Z) : Z := to_int32 (Z.shiftl a n).

(** ** CompactSize *)

(** Bitcoin's variable-length integer, as every node writes it. *)
Definition compact_size (v : Z) : bytes :=
  if v <? 253 then [v]
  else if v <=? 65535 then 253 :: le_bytes 2 v
  else if v <=? 4294967295 then 254 :: le_bytes 4 v
  else 255 :: le_bytes 8 v.

(** ** bitcoinjs-lib

    The block and transaction parser and varuint-bitcoin are not under src/: the codecs
    take them as parameters.  [None] is a throw. *)
Class BlockLib := {
  lib_tx : Type;
  lib_block : Type;
  tx_fromBuffer : bool -> bytes -> option lib_tx;     (* the flag is _NO_STRICT *)
  tx_byteLength : lib_tx -> Z;
  tx_build : Z -> list (bytes * Z) -> Z -> lib_tx;    (* version, outs, locktime; no ins *)
  block_fromBuffer : bytes -> option lib_block;
  block_transactions : lib_block -> list lib_tx;
  block_byteLength : lib_block -> Z;
  block_merkleRoot : lib_block -> bytes;
  calculateMerkleRoot : list lib_tx -> bytes;         (* of at least one transaction *)
  getWitnessCommit : list lib_tx -> option bytes;
  varuint_decode : bytes -> Z -> option (Z * Z)       (* the value and its width *)
}.

(** ** Transactions as nodes write them

    The reference serialisation the readers are held to. *)

Definition var_bytes (b : bytes) : bytes := compact_size (size_of b) ++ b.

Definition vector {A} (ser : A -> bytes) (l : list A) : bytes :=
  compact_size (Z.of_nat (length l)) ++ concat (map ser l).

Record wire_in := WireIn { wi_prevout : bytes; wi_script : bytes; wi_sequence : bytes }.
Record wire_out := WireOut { wo_value : bytes; wo_script : bytes }.

Definition ser_in (i : wire_in) : bytes := wi_prevout i ++ var_bytes (wi_script i) ++ wi_sequence i.
Definition ser_out (o : wire_out) : bytes := wo_value o ++ var_bytes (wo_script o).

(** One witness stack per input. *)
Definition ser_witness (w : list (list bytes)) : bytes := concat (map (vector var_bytes) w).

Record wire_tx := WireTx {
  wt_version : bytes;
  wt_ins : list wire_in;
  wt_outs : list wire_out;
  wt_witness : option (list (list bytes));
  wt_locktime : bytes
}.

Definition ser_body (t : wire_tx) : bytes :=
  vector ser_in (wt_ins t) ++ vector ser_out (wt_outs t)
  ++ match wt_witness t with Some w => ser_witness w | None => [] end.

Definition ser_tx (t : wire_tx) : bytes :=
  wt_version t ++ (if wt_witness t is Some _ then [0; 1] else []) ++ ser_body t
  ++ wt_locktime t.

(** Every length is one a CompactSize can hold. *)
Definition fits (n : Z) : Prop := n <= MAX_UINT53.
Definition ok_bytes (b : bytes) : Prop := fits (size_of b).

Record wf_in (i : wire_in) : Prop := WfIn {
  wf_prevout : size_of (wi_prevout i) = 36;
  wf_sequence : size_of (wi_sequence i) = 4;
  wf_in_script : ok_bytes (wi_script i)
}.

Record wf_out (o : wire_out) : Prop := WfOut {
  wf_value : size_of (wo_value o) = 8;
  wf_out_script : ok_bytes (wo_script o)
}.

Definition ok_vector {A} (ok : A -> Prop) (l : list A) : Prop :=
  fits (Z.of_nat (length l)) /\ Forall ok l.

Record wf_tx (t : wire_tx) : Prop := WfTx {
  wf_version : size_of (wt_version t) = 4;
  wf_locktime : size_of (wt_locktime t) = 4;
  wf_ins : ok_vector wf_in (wt_ins t);
  wf_outs : ok_vector wf_out (wt_outs t);
  wf_witness : forall w, wt_witness t = Some w ->
    length w = length (wt_ins t) /\ Forall (ok_vector ok_bytes) w
}.

(** ** Loops over a buffer

    [for (let i = 0; i < n; i++) offset = step(offset)].  Every step that does not throw
    starts inside the buffer and moves on, so one unit of fuel per byte, and one more,
    is enough ([skip_loop_fuel]). *)
Fixpoint skip_loop (fuel : nat) (n : Z) (step : Z -> option Z) (offset : Z) : option Z :=
  if n <=? 0 then Some offset
  else match fuel with
       | O => None
       | S f => o ← step offset; skip_loop f (n - 1) step o
       end.

Definition loop_fuel (buf : bytes) : nat := S (length buf).

(** Where a piece of a buffer is. *)
Definition sits (buf : bytes) (o : Z) (x : bytes) : Prop :=
  exists pre post, buf = pre ++ x ++ post /\ o = size_of pre.

(** ** Readers of a format

    A reader goes from where a piece starts to where it ends; readers of its parts
    compose to a reader of the whole. *)
Class Walks {A} (ser : A -> bytes) (ok : A -> Prop) (step : bytes -> Z -> option Z) : Prop :=
  walk : forall x buf o, ok x -> sits buf o (ser x) -> step buf o = Some (o + size_of (ser x)).

(** ** Facts *)

Definition advances (buf : bytes) (step : Z -> option Z) : Prop :=
  forall o o', step o = Some o' -> o < o' /\ o < size_of buf.

(** A failed loop fails with any amount of fuel, and a finished one keeps its result. *)
Lemma skip_loop_fuel buf step o n f :
  advances buf step -> 0 <= o -> size_of buf - o < Z.of_nat f ->
  forall f', (f <= f')%nat -> skip_loop f' n step o = skip_loop f n step o.
Proof.
  intros Ha. revert o n. induction f as [|f IH]; intros o n Ho Hf f' Hf'.
  - destruct f' as [|f']; simpl; [done|]. destruct (n <=? 0); [done|].
    destruct (step o) as [o'|] eqn:E; [|done]. apply Ha in E. lia.
  - destruct f' as [|f']; [lia|]. simpl. destruct (n <=? 0); [done|].
    destruct (step o) as [o'|] eqn:E; simpl; [|done]. apply Ha in E. apply IH; lia.
Qed.

Lemma skip_loop_mono buf step f n o o' :
  advances buf step -> skip_loop f n step o = Some o' ->
  o <= o' /\ (0 < n -> o < o').
Proof.
  intros Ha. revert n o. induction f as [|f IH]; intros n o; simpl.
  - destruct (n <=? 0) eqn:E; [|done]. intros [= <-]. b2p. lia.
  - destruct (n <=? 0) eqn:E; [intros [= <-]; b2p; lia|].
    destruct (step o) as [o1|] eqn:Es; [|done]. simpl. intros H.
    apply Ha in Es. apply IH in H. lia.
Qed.

Lemma length_le_bytes n v : length (le_bytes n v) = n.
Proof. revert v. induction n as [|n IH]; intros v; simpl; [done|]. by rewrite IH. Qed.

Lemma le_value_bytes n v : 0 <= v < 256 ^ Z.of_nat n -> le_value (le_bytes n v) = v.
Proof.
  revert v. induction n as [|n IH]; intros v Hv; [simpl in *; lia|].
  cbn [le_bytes le_value]. rewrite IH.
  - pose proof (Z.div_mod v 256). lia.
  - replace (Z.of_nat (S n)) with (1 + Z.of_nat n) in Hv by lia.
    rewrite Z.pow_add_r in Hv by lia. split; [apply Z.div_pos; lia|].
    apply Z.div_lt_upper_bound; lia.
Qed.

Lemma le_bytes_are_bytes n v : Forall is_byte (le_bytes n v).
Proof.
  revert v. induction n as [|n IH]; intros v; simpl; constructor; [|done].
  unfold is_byte. pose proof (Z.mod_pos_bound v 256). lia.
Qed.

(** *** Where a piece of a buffer sits *)

Lemma size_app a b : size_of (a ++ b) = size_of a + size_of b.
Proof. unfold size_of. rewrite length_app. lia. Qed.

Lemma size_nonneg a : 0 <= size_of a.
Proof. unfold size_of. lia. Qed.

Lemma sits_app buf o x y : sits buf o (x ++ y) -> sits buf o x /\ sits buf (o + size_of x) y.
Proof.
  intros (pre & post & -> & ->). split.
  - exists pre, (y ++ post). by rewrite <- !app_assoc.
  - exists (pre ++ x), post. by rewrite <- !app_assoc, size_app.
Qed.

Lemma sits_bound buf o x : sits buf o x -> 0 <= o /\ o + size_of x <= size_of buf.
Proof.
  intros (pre & post & -> & ->). rewrite !size_app.
  pose proof (size_nonneg pre). pose proof (size_nonneg post). lia.
Qed.

Lemma sits_sub buf o x : sits buf o x -> sub_bytes buf o (size_of x) = x.
Proof.
  intros (pre & post & -> & ->). unfold sub_bytes, size_of. rewrite !Nat2Z.id.
  by rewrite drop_app_length, take_app_length.
Qed.

Lemma sits_read n buf o x : sits buf o x -> n = size_of x -> read_le n buf o = Some (le_value x).
Proof.
  intros Hs ->. unfold read_le. destruct (sits_bound _ _ _ Hs) as [H1 H2].
  rewrite (proj2 (Z.leb_le _ _) H1), (proj2 (Z.leb_le _ _) H2). simpl. by rewrite sits_sub.
Qed.

Lemma sits_byte buf o b x : sits buf o (b :: x) -> get_byte buf o = Some b.
Proof.
  intros (pre & post & -> & ->). unfold get_byte. pose proof (size_nonneg pre) as H.
  rewrite (proj2 (Z.ltb_ge _ _) H). unfold size_of. rewrite Nat2Z.id.
  simpl. by rewrite list_lookup_middle.
Qed.

Lemma sits_cons buf o b x : sits buf o (b :: x) -> sits buf o [b] /\ sits buf (o + 1) x.
Proof. apply (sits_app buf o [b] x). Qed.

(** A loop over pieces that sit one after the other. *)
Lemma skip_loop_pieces {A} (ser : A -> bytes) buf step l o fuel :
  (forall x o, x ∈ l -> sits buf o (ser x) -> step o = Some (o + size_of (ser x))) ->
  sits buf o (concat (map ser l)) -> (length l <= fuel)%nat ->
  skip_loop fuel (Z.of_nat (length l)) step o = Some (o + size_of (concat (map ser l))).
Proof.
  intros Hs. revert o fuel. induction l as [|x l IH]; intros o fuel H Hf.
  - replace (o + size_of (concat (map ser []))) with o by (unfold size_of; simpl; lia).
    by destruct fuel.
  - destruct fuel as [|fuel]; [simpl in Hf; lia|]. cbn [concat map] in H.
    apply sits_app in H as [H1 H2].
    cbn [skip_loop]. rewrite (proj2 (Z.leb_gt _ _)) by (simpl length; lia).
    rewrite (Hs x) by (by left || done). cbn [mbind option_bind].
    replace (Z.of_nat (length (x :: l)) - 1) with (Z.of_nat (length l)) by (simpl length; lia).
    rewrite IH; [|intros y o' Hy; apply Hs; by right|done|simpl in Hf; lia].
    f_equal. cbn [concat map]. rewrite size_app. lia.
Qed.

(** Pieces of at least a byte each: the fuel of a loop over them is enough. *)
Lemma pieces_fuel {A} (ser : A -> bytes) buf l o :
  (forall x, 0 < size_of (ser x)) -> sits buf o (concat (map ser l)) ->
  (length l <= loop_fuel buf)%nat.
Proof.
  intros Hp H. apply sits_bound in H as [H1 H2].
  assert (Hl : Z.of_nat (length l) <= size_of (concat (map ser l))).
  { clear -Hp. induction l as [|x l IH]; simpl; [done|]. rewrite size_app.
    specialize (Hp x). lia. }
  unfold loop_fuel, size_of in *. lia.
Qed.

Lemma walk_then {A} (ser : A -> bytes) ok step `{!Walks ser ok step} x buf o rest :
  ok x -> sits buf o (ser x ++ rest) ->
  step buf o = Some (o + size_of (ser x)) /\ sits buf (o + size_of (ser x)) rest.
Proof. intros Hx Hs. apply sits_app in Hs as [H1 H2]. split; [by apply walk|done]. Qed.

Lemma walk_loop {A} (ser : A -> bytes) ok step `{!Walks ser ok step} l buf o rest :
  (forall x, 0 < size_of (ser x)) -> Forall ok l ->
  sits buf o (concat (map ser l) ++ rest) ->
  skip_loop (loop_fuel buf) (Z.of_nat (length l)) (step buf) o
    = Some (o + size_of (concat (map ser l)))
  /\ sits buf (o + size_of (concat (map ser l))) rest.
Proof.
  intros Hp Hl Hs. apply sits_app in Hs as [H1 H2]. split; [|done].
  apply (skip_loop_pieces ser buf); [|done|by apply (pieces_fuel ser buf l o)].
  intros x o' Hx Ho. apply walk; [by eapply Forall_forall|done].
Qed.

Lemma size_le_bytes n v : size_of (le_bytes n v) = Z.of_nat n.
Proof. unfold size_of. by rewrite length_le_bytes. Qed.

Lemma size_one b : size_of [b] = 1.
Proof. done. Qed.

Lemma size_compact_pos v : 0 < size_of (compact_size v).
Proof.
  unfold compact_size, size_of. repeat case_match; simpl length; try rewrite length_le_bytes; lia.
Qed.

(** The prefix byte tells which width follows; the value reads back. *)
Lemma compact_size_cases v :
  0 <= v < 2 ^ 64 ->
  (v < 253 /\ compact_size v = [v])
  \/ (exists p n, compact_size v = p :: le_bytes n v /\ le_value (le_bytes n v) = v
       /\ 253 <= v /\ ((p = 253 /\ n = 2%nat) \/ (p = 254 /\ n = 4%nat) \/ (p = 255 /\ n = 8%nat))).
Proof.
  intros Hv. unfold compact_size. destruct (v <? 253) eqn:E1; [left; b2p; done|]. right.
  assert (Hle : forall n, v < 256 ^ Z.of_nat n -> le_value (le_bytes n v) = v)
    by (intros n Hn; apply le_value_bytes; lia).
  destruct (v <=? 65535) eqn:E2; [|destruct (v <=? 4294967295) eqn:E3]; b2p;
    eexists _, _; (split; [reflexivity|]); rewrite Hle by (simpl; lia); auto 6.
Qed.

Lemma sits_compact buf o v x :
  0 <= v < 2 ^ 64 -> sits buf o (compact_size v ++ x) ->
  (v < 253 /\ get_byte buf o = Some v /\ size_of (compact_size v) = 1)
  \/ (exists p n, get_byte buf o = Some p /\ read_le n buf (o + 1) = Some v
       /\ 253 <= v /\ size_of (compact_size v) = 1 + n
       /\ ((p = 253 /\ n = 2) \/ (p = 254 /\ n = 4) \/ (p = 255 /\ n = 8))).
Proof.
  intros Hv Hs. apply sits_app in Hs as [Hs _].
  destruct (compact_size_cases v Hv) as [[H E]|(p & n & E & Hle & Hb & Hp)].
  - left. rewrite E in *. split; [done|]. split; [by apply sits_byte in Hs|done].
  - right. exists p, (Z.of_nat n). rewrite E in *. pose proof (sits_byte _ _ _ _ Hs) as Hg.
    apply sits_cons in Hs as [_ Hs].
    rewrite (sits_read _ _ _ _ Hs) by by rewrite size_le_bytes.
    rewrite Hle. repeat (split; [done|]). split.
    + unfold size_of. rewrite length_cons, length_le_bytes. lia.
    + destruct Hp as [[-> ->]|[[-> ->]|[-> ->]]]; auto.
Qed.

Lemma fits_64 n : 0 <= n -> fits n -> 0 <= n < 2 ^ 64.
Proof. unfold fits, MAX_UINT53. lia. Qed.

Lemma size_var_bytes_pos b : 0 < size_of (var_bytes b).
Proof.
  unfold var_bytes. rewrite size_app.
  pose proof (size_compact_pos (size_of b)). pose proof (size_nonneg b). lia.
Qed.

Lemma size_vector_pos {A} (ser : A -> bytes) l : 0 < size_of (vector ser l).
Proof.
  unfold vector. rewrite size_app.
  pose proof (size_compact_pos (Z.of_nat (length l))).
  pose proof (size_nonneg (concat (map ser l))). lia.
Qed.

Lemma size_ser_in_pos i : 0 < size_of (ser_in i).
Proof.
  unfold ser_in. rewrite !size_app. pose proof (size_nonneg (wi_prevout i)).
  pose proof (size_var_bytes_pos (wi_script i)). pose proof (size_nonneg (wi_sequence i)). lia.
Qed.

Lemma size_ser_out_pos i : 0 < size_of (ser_out i).
Proof.
  unfold ser_out. rewrite !size_app. pose proof (size_nonneg (wo_value i)).
  pose proof (size_var_bytes_pos (wo_script i)). lia.
Qed.
(** An eight-byte number is its two halves. *)
Lemma le_value_app a b : le_value (a ++ b) = le_value a + 256 ^ size_of a * le_value b.
Proof.
  unfold size_of. induction a as [|x a IH]; [simpl; lia|].
  cbn [app le_value length]. rewrite IH, Nat2Z.inj_succ, Z.pow_succ_r by lia. lia.
Qed.

Lemma read_le_split buf o v :
  read_le 8 buf o = Some v ->
  exists lo hi, read_le 4 buf o = Some lo /\ read_le 4 buf (o + 4) = Some hi
                /\ v = hi * 2 ^ 32 + lo.
Proof.
  unfold read_le. destruct (0 <=? o) eqn:E1; [|done].
  destruct (o + 8 <=? size_of buf) eqn:E2; [|done]. intros [= <-]. b2p.
  rewrite (proj2 (Z.leb_le (o + 4) (size_of buf))) by lia.
  rewrite (proj2 (Z.leb_le 0 (o + 4))) by lia.
  rewrite (proj2 (Z.leb_le (o + 4 + 4) (size_of buf))) by lia.
  eexists _, _. split; [reflexivity|]. split; [reflexivity|].
  replace (sub_bytes buf o 8) with (sub_bytes buf o 4 ++ sub_bytes buf (o + 4) 4).
  - rewrite le_value_app. replace (size_of (sub_bytes buf o 4)) with 4; [lia|].
    unfold size_of, sub_bytes in *. rewrite length_take, length_drop. lia.
  - unfold sub_bytes. rewrite Z2Nat.inj_add, <- drop_drop by lia.
    rewrite <- (take_drop (Z.to_nat 4) (take (Z.to_nat 8) _)).
    rewrite take_take, skipn_firstn_comm. f_equal.
Qed.

(** *** bufferutils.js *)

Lemma swap_from_rev n m pre post :
  n = Nat.div2 (S (length m)) ->
  swap_from (pre ++ m ++ post) (length pre) (pred (length pre + length m)) n
  = pre ++ rev m ++ post.
Proof.
  revert m pre post. induction n as [|n IH]; intros m pre post Hn.
  { destruct m as [|x [|y m]]; done. }
  destruct m as [|x m]; [done|]. cbn [swap_from].
  replace (pre ++ (x :: m) ++ post) with (pre ++ x :: m ++ post) by done.
  rewrite (list_lookup_middle pre _ x) by done.
  destruct m as [|y mid _] using rev_ind.
  - simpl length in *. replace (pred (length pre + 1)) with (length pre) by lia.
    rewrite (list_lookup_middle pre _ x) by done.
    rewrite !(list_insert_id (pre ++ x :: [] ++ post)) by by apply list_lookup_middle.
    destruct n; [done|simpl in Hn; lia].
  - rewrite length_cons, length_app in Hn |- *. simpl length in *.
    replace (pre ++ x :: (mid ++ [y]) ++ post) with ((pre ++ x :: mid) ++ y :: post)
      by by rewrite <- !app_assoc.
    replace (pred (length pre + S (length mid + 1))) with (length (pre ++ x :: mid))
      by (rewrite length_app; simpl; lia).
    rewrite list_lookup_middle by done.
    rewrite insert_app_l by (rewrite length_app; simpl; lia).
    rewrite (insert_app_r_alt pre) by lia. rewrite Nat.sub_diag. cbn [insert list_insert].
    rewrite length_app. cbn [length].
    replace (length pre + S (length mid))%nat with (length (pre ++ y :: mid))
      by (rewrite length_app; done).
    rewrite (insert_app_r_alt (pre ++ y :: mid)) by lia. rewrite Nat.sub_diag.
    cbn [insert list_insert].
    replace ((pre ++ y :: mid) ++ x :: post) with ((pre ++ [y]) ++ mid ++ (x :: post))
      by by rewrite <- !app_assoc.
    replace (S (length pre)) with (length (pre ++ [y])) by (rewrite length_app; simpl; lia).
    replace (pred (length (pre ++ y :: mid))) with (pred (length (pre ++ [y]) + length mid))
      by (rewrite !length_app; simpl; lia).
    rewrite IH by (rewrite Nat.add_1_r in Hn; by injection Hn).
    rewrite (app_comm_cons mid), rev_app_distr. simpl. by rewrite <- !app_assoc.
Qed.

Lemma reverseBuffer_rev b : reverseBuffer b = rev b.
Proof.
  unfold reverseBuffer. pose proof (swap_from_rev (Nat.div2 (S (length b))) b [] [] eq_refl) as H.
  simpl in H. by rewrite !app_nil_r in H.
Qed.

Lemma writeUInt64LE_read v pre post :
  0 <= v <= MAX_UINT53 ->
  exists b, writeUInt64LE (numZ v) = Some b /\ length b = 8%nat
            /\ readUInt64LE (pre ++ b ++ post) (size_of pre) = Some v.
Proof.
  intros Hv. assert (Ev : forall z, 0 <= z <= MAX_UINT53 -> verifuint (numZ z) MAX_UINT53 = Some z).
  { intros z Hz. unfold verifuint, integer_of, numZ, Qz. rewrite Z.mod_1_r, Z.div_1_r.
    cbn. by rewrite (proj2 (Z.leb_le _ _) (proj1 Hz)), (proj2 (Z.leb_le _ _) (proj2 Hz)). }
  unfold writeUInt64LE. rewrite Ev by done. eexists. split; [reflexivity|].
  split; [by rewrite length_app, !length_le_bytes|]. unfold readUInt64LE.
  assert (Hs : sits (pre ++ (le_bytes 4 (v mod 2 ^ 32) ++ le_bytes 4 (v / 2 ^ 32)) ++ post)
    (size_of pre) (le_bytes 4 (v mod 2 ^ 32) ++ le_bytes 4 (v / 2 ^ 32))) by by eexists _, _.
  apply sits_app in Hs as [H1 H2].
  change (size_of (le_bytes 4 (v mod 2 ^ 32))) with 4 in H2.
  rewrite (sits_read 4 _ _ _ H1), (sits_read 4 _ _ _ H2); [|done..].
  cbn [mbind option_bind]. unfold MAX_UINT53 in *.
  assert (Hlo : 0 <= v mod 2 ^ 32 < 256 ^ Z.of_nat 4) by (apply Z.mod_pos_bound; lia).
  assert (Hhi : 0 <= v / 2 ^ 32 < 256 ^ Z.of_nat 4)
    by (split; [apply Z.div_pos; lia|apply Z.div_lt_upper_bound; lia]).
  rewrite (le_value_bytes 4 _ Hlo), (le_value_bytes 4 _ Hhi).
  rewrite Z.mul_comm, <- Z.div_mod by lia. by apply Ev.
Qed.

(** *** Hexadecimal *)

Lemma hex_value_digit d : 0 <= d < 16 -> hex_value (hex_digit d) = Some d.
Proof.
  intros Hd. assert (Hc : d ∈ [0;1;2;3;4;5;6;7;8;9;10;11;12;13;14;15]).
  { repeat (rewrite elem_of_cons). rewrite elem_of_nil. lia. }
  clear Hd. repeat (apply elem_of_cons in Hc as [->|Hc]; [reflexivity|]).
  by apply not_elem_of_nil in Hc.
Qed.

Lemma nibbles x : is_byte x -> 0 <= x / 16 < 16 /\ 0 <= x mod 16 < 16.
Proof.
  unfold is_byte. intros H. split; [|by apply Z.mod_pos_bound].
  split; [apply Z.div_pos; lia|apply Z.div_lt_upper_bound; lia].
Qed.

Lemma hex_of_app a b : hex_of (a ++ b) = hex_of a ++ hex_of b.
Proof. apply flat_map_app. Qed.

Lemma length_hex_of b : length (hex_of b) = (2 * length b)%nat.
Proof. induction b as [|x b IH]; [done|]. simpl in *. lia. Qed.

Lemma from_hex_of b : Forall is_byte b -> from_hex (hex_of b) = b.
Proof.
  induction 1 as [|x b Hx _ IH]; [done|]. cbn [hex_of flat_map app from_hex].
  destruct (nibbles x Hx) as [H1 H2]. rewrite !hex_value_digit by done.
  f_equal; [|exact IH]. pose proof (Z.div_mod x 16). lia.
Qed.

Lemma hex_of_hex b : Forall is_byte b -> Forall (fun c => is_hex c = true) (hex_of b).
Proof.
  induction 1 as [|x b Hx _ IH]; [done|]. destruct (nibbles x Hx) as [H1 H2].
  cbn [hex_of flat_map app]. unfold is_hex at 1.
  repeat constructor; [by rewrite hex_value_digit..|exact IH].
Qed.

Lemma take_hex_of n b : take (2 * n) (hex_of b) = hex_of (take n b).
Proof.
  revert n. induction b as [|x b IH]; intros [|n]; [done..|].
  replace (2 * S n)%nat with (S (S (2 * n))) by lia. cbn. f_equal. f_equal. apply IH.
Qed.

Lemma drop_hex_of n b : drop (2 * n) (hex_of b) = hex_of (drop n b).
Proof.
  revert n. induction b as [|x b IH]; intros [|n]; [done..|].
  replace (2 * S n)%nat with (S (S (2 * n))) by lia. cbn. apply IH.
Qed.

Lemma hex_fold_of acc b :
  Forall is_byte b -> hex_fold acc (hex_of b) = foldl (fun a x => a * 256 + x) acc b.
Proof.
  intros H. revert acc. induction H as [|x b Hx _ IH]; intros acc; [done|].
  destruct (nibbles x Hx) as [H1 H2]. cbn [hex_of flat_map app hex_fold foldl].
  rewrite !hex_value_digit by done. cbn [from_option]. unfold id.
  replace ((acc * 16 + x / 16) * 16 + x mod 16) with (acc * 256 + x)
    by (pose proof (Z.div_mod x 16); lia).
  apply IH.
Qed.

Lemma hex_digit_plain d : 0 <= d < 16 ->
  is_ws (hex_digit d) = false /\ hex_digit d <> 43 /\ hex_digit d <> 45
  /\ hex_digit d <> 120 /\ hex_digit d <> 88.
Proof.
  intros Hd. assert (Hc : d ∈ [0;1;2;3;4;5;6;7;8;9;10;11;12;13;14;15]).
  { repeat (rewrite elem_of_cons). rewrite elem_of_nil. lia. }
  clear Hd. repeat (apply elem_of_cons in Hc as [->|Hc]; [by vm_compute; repeat split|]).
  by apply not_elem_of_nil in Hc.
Qed.

(** Hex digits of bytes are read back as the big-endian number they are. *)
Lemma parse_int16_hex_of x b :
  Forall is_byte (x :: b) ->
  parse_int16 (hex_of (x :: b)) = Some (foldl (fun a y => a * 256 + y) 0 (x :: b)).
Proof.
  intros H. rewrite <- (hex_fold_of 0) by done. unfold parse_int16.
  pose proof (hex_of_hex _ H) as Hh. inversion H as [|? ? Hx Hb]; subst.
  destruct (nibbles x Hx) as [H1 H2].
  destruct (hex_digit_plain _ H1) as (Hw & Hp & Hm & _ & _).
  destruct (hex_digit_plain _ H2) as (_ & _ & _ & Hx1 & Hx2).
  set (s := hex_of (x :: b)) in *.
  assert (Es : s = hex_digit (x / 16) :: hex_digit (x mod 16) :: hex_of b) by done.
  rewrite Es at 1. cbn [drop_ws]. rewrite Hw. cbn [parse_sign].
  rewrite (proj2 (Z.eqb_neq _ _) Hp), (proj2 (Z.eqb_neq _ _) Hm). cbn [strip_0x].
  rewrite (proj2 (Z.eqb_neq _ _) Hx1), (proj2 (Z.eqb_neq _ _) Hx2), andb_false_r.
  rewrite <- Es, span_all by done. by rewrite Es.
Qed.

(** *** 32-bit operators *)

Lemma to_int32_mod z : to_int32 z mod 2 ^ 32 = z mod 2 ^ 32.
Proof.
  unfold to_int32. case_match; [by apply Z.mod_mod|].
  rewrite <- (Z.mod_add (z mod 2 ^ 32 - 2 ^ 32) 1) by lia.
  rewrite Z.mul_1_l, Z.sub_add. by apply Z.mod_mod.
Qed.

Lemma to_int32_testbit z i : 0 <= i < 32 -> Z.testbit (to_int32 z) i = Z.testbit z i.
Proof.
  intros Hi. rewrite <- (Z.mod_pow2_bits_low (to_int32 z) 32) by lia.
  rewrite to_int32_mod. apply Z.mod_pow2_bits_low. lia.
Qed.

Lemma land_pow2_testbit z n : 0 <= n -> (Z.land z (2 ^ n) =? 0) = negb (Z.testbit z n).
Proof.
  intros Hn. assert (Z.land z (2 ^ n) = if Z.testbit z n then 2 ^ n else 0) as ->.
  { apply Z.bits_inj'. intros i Hi. rewrite Z.land_spec, Z.pow2_bits_eqb by done.
    destruct (Z.eqb_spec n i) as [<-|Hne].
    - destruct (Z.testbit z n); [by rewrite Z.pow2_bits_true|by rewrite Z.bits_0].
    - rewrite andb_false_r. destruct (Z.testbit z n); [|by rewrite Z.bits_0].
      by rewrite Z.pow2_bits_false by done. }
  destruct (Z.testbit z n); [|done]. apply Z.eqb_neq. pose proof (Z.pow_pos_nonneg 2 n). lia.
Qed.
