(* ===== verification/Sha256.v ===== *)
(** * SHA-256 of a text

    [crypto.createHash('sha256').update(text).digest('hex')] of Node's standard library:
    a JavaScript string is encoded in UTF-8, hashed (FIPS 180-4) and printed in lower-case
    hexadecimal.  The round constants are computed the way the standard derives them, from
    the roots of the first primes; the test vectors below fix the transcription. *)
From S2P Require Import Prelude Wire.
#[local] Open Scope Z_scope.

(** ** UTF-8 *)

Definition is_high (u : Z) : bool := (55296 <=? u) && (u <=? 56319).
Definition is_low (u : Z) : bool := (56320 <=? u) && (u <=? 57343).

Definition utf8_char (c : Z) : bytes :=
  if c <? 128 then [c]
  else if c <? 2048 then [192 + c / 64; 128 + c mod 64]
  else if c <? 65536 then [224 + c / 4096; 128 + c / 64 mod 64; 128 + c mod 64]
  else [240 + c / 262144; 128 + c / 4096 mod 64; 128 + c / 64 mod 64; 128 + c mod 64].

(** A lone surrogate is encoded as U+FFFD. *)
Fixpoint utf8 (s : jstr) : bytes :=
  match s with
  | [] => []
  | u :: s' =>
      if is_high u then
        match s' with
        | v :: s'' =>
            if is_low v then utf8_char (65536 + (u - 55296) * 1024 + (v - 56320)) ++ utf8 s''
            else utf8_char 65533 ++ utf8 s'
        | [] => utf8_char 65533
        end
      else (if is_low u then utf8_char 65533 else utf8_char u) ++ utf8 s'
  end.

(** ** Words of 32 bits *)

Definition MASK : Z := 4294967295.
Definition wadd (a b : Z) : Z := Z.land (a + b) MASK.
Definition shr (n x : Z) : Z := Z.shiftr x n.
Definition rotr (n x : Z) : Z := Z.lor (Z.shiftr x n) (Z.land (Z.shiftl x (32 - n)) MASK).
Definition xor3 (a b c : Z) : Z := Z.lxor a (Z.lxor b c).

Definition ch (x y z : Z) : Z := Z.lxor (Z.land x y) (Z.land (MASK - x) z).
Definition maj (x y z : Z) : Z := xor3 (Z.land x y) (Z.land x z) (Z.land y z).
Definition bsig0 (x : Z) : Z := xor3 (rotr 2 x) (rotr 13 x) (rotr 22 x).
Definition bsig1 (x : Z) : Z := xor3 (rotr 6 x) (rotr 11 x) (rotr 25 x).
Definition ssig0 (x : Z) : Z := xor3 (rotr 7 x) (rotr 18 x) (shr 3 x).
Definition ssig1 (x : Z) : Z := xor3 (rotr 17 x) (rotr 19 x) (shr 10 x).

(** ** Constants *)

Definition divides_none (n : Z) (ps : list Z) : bool :=
  forallb (fun p => negb (n mod p =? 0)) ps.

(** The primes among the [k] numbers from [n] on, after the primes [acc] below [n]. *)
Fixpoint sieve (k : nat) (n : Z) (acc : list Z) : list Z :=
  match k with
  | O => acc
  | S k => sieve k (n + 1) (if divides_none n acc then acc ++ [n] else acc)
  end.

(** The 64 primes up to 311. *)
Definition primes : list Z := sieve 310 2 [].

(** The largest [r] below [r0 + 2^bits] with [r^3 <= n]. *)
Fixpoint cbrt_from (bits : nat) (r0 n : Z) : Z :=
  match bits with
  | O => r0
  | S b =>
      let r := r0 + 2 ^ Z.of_nat b in
      cbrt_from b (if r * r * r <=? n then r else r0) n
  end.

(** The first 32 bits of the fractional parts of the cube roots and of the square roots. *)
Definition K : list Z :=
  Eval vm_compute in map (fun p => Z.land (cbrt_from 36 0 (Z.shiftl p 96)) MASK) primes.
Definition H0 : list Z :=
  Eval vm_compute in map (fun p => Z.land (Z.sqrt (Z.shiftl p 64)) MASK) (take 8 primes).

(** ** Compression *)

Record hash_state := HashState { ha : Z; hb : Z; hc : Z; hd : Z; he : Z; hf : Z; hg : Z; hh : Z }.

Definition sha_round (s : hash_state) (k w : Z) : hash_state :=
  let t1 := wadd (hh s + bsig1 (he s) + ch (he s) (hf s) (hg s) + k) w in
  let t2 := bsig0 (ha s) + maj (ha s) (hb s) (hc s) in
  HashState (wadd t1 t2) (ha s) (hb s) (hc s) (wadd (hd s) t1) (he s) (hf s) (hg s).

(** The word sixteen places after the head of the window. *)
Definition next_word (window : list Z) : Z :=
  match window with
  | w0 :: w1 :: r =>
      wadd (ssig1 (nth 12 r 0) + nth 7 r 0) (ssig0 w1 + w0)
  | _ => 0
  end.

Fixpoint rounds (ks window : list Z) (s : hash_state) : hash_state :=
  match ks, window with
  | k :: ks, w :: ws => rounds ks (ws ++ [next_word window]) (sha_round s k w)
  | _, _ => s
  end.

Definition add_state (s t : hash_state) : hash_state :=
  HashState (wadd (ha s) (ha t)) (wadd (hb s) (hb t)) (wadd (hc s) (hc t)) (wadd (hd s) (hd t))
    (wadd (he s) (he t)) (wadd (hf s) (hf t)) (wadd (hg s) (hg t)) (wadd (hh s) (hh t)).

Fixpoint words (b : bytes) : list Z :=
  match b with
  | a :: b :: c :: d :: r => ((a * 256 + b) * 256 + c) * 256 + d :: words r
  | _ => []
  end.

Definition be_bytes (n : nat) (z : Z) : bytes :=
  map (fun i => Z.land (Z.shiftr z (8 * Z.of_nat i)) 255) (rev (seq 0 n)).

(** A one bit, zeros, and the length in bits: a whole number of blocks. *)
Definition padded (b : bytes) : bytes :=
  let n := Z.of_nat (length b) in
  b ++ 128 :: repeat 0 (Z.to_nat ((55 - n) mod 64)) ++ be_bytes 8 (8 * n).

(** Sixteen words to a block; [fuel] is at least the number of blocks. *)
Fixpoint compress (fuel : nat) (ws : list Z) (s : hash_state) : hash_state :=
  match fuel, ws with
  | S fuel, _ :: _ => compress fuel (drop 16 ws) (add_state s (rounds K (take 16 ws) s))
  | _, _ => s
  end.

Definition initial_state : hash_state :=
  let h i := nth i H0 0 in HashState (h 0%nat) (h 1%nat) (h 2%nat) (h 3%nat) (h 4%nat) (h 5%nat) (h 6%nat) (h 7%nat).

Definition state_bytes (s : hash_state) : bytes :=
  flat_map (be_bytes 4) [ha s; hb s; hc s; hd s; he s; hf s; hg s; hh s].

Definition sha256 (b : bytes) : bytes :=
  let ws := words (padded b) in state_bytes (compress (length ws) ws initial_state).

(** [crypto.createHash('sha256').update(text).digest('hex')] *)
Definition sha256_hex (text : jstr) : jstr := hex_of (sha256 (utf8 text)).

(** [doubleSha256AndReverse] of src/src/chain/XChainBlockDecoder.js: the hash of a header or a
    transaction, in the byte order it is shown in. *)
Definition doubleSha256AndReverse (data : bytes) : bytes := rev (sha256 (sha256 data)).

(** ** Test vectors of the standard *)

Example sha256_empty :
  sha256_hex [] = js "e3b0c44298fc1c149afbf4c8996fb92427ae41e4649b934ca495991b7852b855".
Proof. by vm_compute. Qed.

Example sha256_abc :
  sha256_hex (js "abc") = js "ba7816bf8f01cfea414140de5dae2223b00361a396177a9cb410ff61f20015ad".
Proof. by vm_compute. Qed.

Example sha256_two_blocks :
  sha256_hex (js "abcdbcdecdefdefgefghfghighijhijkijkljklmklmnlmnomnopnopq")
  = js "248d6a61d20638b8e5c026930c3e6039a33ce45964ff2167f6ecedd419db06c1".
Proof. by vm_compute. Qed.

(** The header of Bitcoin's first block. *)
Example genesis_header_hash :
  hex_of (doubleSha256AndReverse (from_hex (js (String.append
    "0100000000000000000000000000000000000000000000000000000000000000000000003ba3edfd7a7b12b27ac72c3e"
    "67768f617fc81bc3888a51323a9fb8aa4b1e5e4a29ab5f49ffff001d1dac2b7c"))))
  = js "000000000019d6689c085ae165831e934ff763ae46a2a6c172b3f1b60a8ce26f".
Proof. vm_compute. reflexivity. Qed.
