(* ===== verification/Json.v ===== *)
(** * JSON texts

    The part of the standard library's [JSON] that the coin registry uses, and the
    canonical form it hashes (src/src/coins/index.js, clone and canonicalJson).

    [plain] is what a JSON text denotes, with numbers restricted to integers, the only ones
    the coin files hold.  The fields of an object are listed in the order [Object.keys]
    gives them.

    What [stringify] prints, [read_value] reads back; so a clone is the value itself, and
    two values have one canonical text exactly when they differ only in the order of keys. *)
From Stdlib Require Import Sorted.
From S2P Require Import Prelude JsNum Wire Sha256.
#[local] Open Scope Z_scope.

#[warnings="-register-all"]
Inductive plain :=
  | PNull
  | PBool (b : bool)
  | PInt (z : Z)
  | PStr (s : jstr)
  | PArr (l : list plain)
  | PObj (fields : list (jstr * plain)).

Section PlainInd.
Variable P : plain -> Prop.
Hypothesis on_null : P PNull.
Hypothesis on_bool : forall b, P (PBool b).
Hypothesis on_int : forall z, P (PInt z).
Hypothesis on_str : forall s, P (PStr s).
Hypothesis on_arr : forall l, Forall P l -> P (PArr l).
Hypothesis on_obj : forall fs, Forall (fun kv => P kv.2) fs -> P (PObj fs).

Fixpoint plain_induction (v : plain) : P v :=
  match v with
  | PNull => on_null
  | PBool b => on_bool b
  | PInt z => on_int z
  | PStr s => on_str s
  | PArr l => on_arr l ((fix go l : Forall P l :=
                           match l with
                           | [] => Forall_nil_2 _
                           | v :: l => Forall_cons_2 _ _ _ (plain_induction v) (go l)
                           end) l)
  | PObj fs => on_obj fs ((fix go fs : Forall (fun kv => P kv.2) fs :=
                             match fs with
                             | [] => Forall_nil_2 _
                             | kv :: fs => Forall_cons_2 _ _ _ (plain_induction kv.2) (go fs)
                             end) fs)
  end.
End PlainInd.

Definition QUOTE : Z := 34.
Definition BACKSLASH : Z := 92.
Definition COMMA : Z := 44.
Definition COLON : Z := 58.

(** ** JSON.stringify *)

Definition unicode_escape (u : Z) : jstr :=
  BACKSLASH :: 117 :: hex_of [u / 256; u mod 256].

Definition short_escape (u : Z) : option Z :=
  if u =? 8 then Some 98 else if u =? 9 then Some 116 else if u =? 10 then Some 110
  else if u =? 12 then Some 102 else if u =? 13 then Some 114
  else if u =? QUOTE then Some QUOTE else if u =? BACKSLASH then Some BACKSLASH
  else None.

(** Control characters, the quote, the backslash and lone surrogates are escaped. *)
Definition escape (u : Z) : jstr :=
  match short_escape u with
  | Some c => [BACKSLASH; c]
  | None => if u <? 32 then unicode_escape u else [u]
  end.

Fixpoint quoted (s : jstr) : jstr :=
  match s with
  | [] => [QUOTE]
  | u :: s' =>
      if is_high u then
        match s' with
        | v :: s'' => if is_low v then u :: v :: quoted s'' else unicode_escape u ++ quoted s'
        | [] => unicode_escape u ++ quoted s'
        end
      else if is_low u then unicode_escape u ++ quoted s'
      else escape u ++ quoted s'
  end.

Definition quote (s : jstr) : jstr := QUOTE :: quoted s.

Definition member (k text : jstr) : jstr := quote k ++ COLON :: text.
Definition brackets (l : list jstr) : jstr := 91 :: join_with COMMA l ++ [93].
Definition braces (l : list jstr) : jstr := 123 :: join_with COMMA l ++ [125].

Fixpoint stringify (v : plain) : jstr :=
  match v with
  | PNull => js "null"
  | PBool b => if b then js "true" else js "false"
  | PInt z => dec z
  | PStr s => quote s
  | PArr l => brackets (map stringify l)
  | PObj fs => braces (map (fun kv => member kv.1 (stringify kv.2)) fs)
  end.

(** ** JSON.parse *)

Definition is_json_ws (c : Z) : bool := (c =? 32) || (c =? 9) || (c =? 10) || (c =? 13).

Fixpoint skip_ws (t : jstr) : jstr :=
  match t with
  | c :: t' => if is_json_ws c then skip_ws t' else t
  | [] => []
  end.

Definition hex4 (a b c d : Z) : option Z := radix_value 16 0 [a; b; c; d].

Definition unescape (c : Z) : option Z :=
  if c =? 98 then Some 8 else if c =? 116 then Some 9 else if c =? 110 then Some 10
  else if c =? 102 then Some 12 else if c =? 114 then Some 13
  else if (c =? QUOTE) || (c =? BACKSLASH) || (c =? 47) then Some c
  else None.

Definition with_unit (u : Z) (r : option (jstr * jstr)) : option (jstr * jstr) :=
  '(s, rest) ← r; Some (u :: s, rest).

(** The characters up to the closing quote, and the text after it. *)
Fixpoint read_chars (t : jstr) : option (jstr * jstr) :=
  match t with
  | [] => None
  | c :: t1 =>
      if c =? QUOTE then Some ([], t1)
      else if c =? BACKSLASH then
        match t1 with
        | e :: t2 =>
            if e =? 117 then
              match t2 with
              | h1 :: h2 :: h3 :: h4 :: t3 => u ← hex4 h1 h2 h3 h4; with_unit u (read_chars t3)
              | _ => None
              end
            else u ← unescape e; with_unit u (read_chars t2)
        | [] => None
        end
      else if c <? 32 then None
      else with_unit c (read_chars t1)
  end.

(** A fraction or an exponent is not read: it is not an integer of [plain]. *)
Definition read_digits (t : jstr) : option (Z * jstr) :=
  let '(ds, r) := span is_digit t in
  match ds with
  | [] => None
  | d :: ds' =>
      if (d =? 48) && negb (is_empty ds') then None
      else match r with
           | c :: _ => if (c =? dot) || (c =? 101) || (c =? 69) then None
                       else Some (digits_value 0 ds, r)
           | [] => Some (digits_value 0 ds, r)
           end
  end.

Definition read_int (t : jstr) : option (Z * jstr) :=
  match t with
  | c :: t' => if c =? 45 then '(z, r) ← read_digits t'; Some (- z, r) else read_digits t
  | [] => None
  end.

Definition read_word (w : jstr) (v : plain) (t : jstr) : option (plain * jstr) :=
  if startsWith w t then Some (v, drop (length w) t) else None.

(** The text after the token [c], white space before it skipped. *)
Definition eat (c : Z) (t : jstr) : option jstr :=
  match skip_ws t with
  | x :: r => if x =? c then Some r else None
  | [] => None
  end.

(** A value at the head of a text; [n] bounds the nesting and the lengths of the lists. *)
Fixpoint read_value (n : nat) (t : jstr) {struct n} : option (plain * jstr) :=
  match n with
  | O => None
  | S n =>
      match skip_ws t with
      | [] => None
      | (c :: r) as t =>
          if c =? QUOTE then '(s, r) ← read_chars r; Some (PStr s, r)
          else if c =? 91 then
            match eat 93 r with
            | Some r => Some (PArr [], r)
            | None => '(l, r) ← read_items n r; Some (PArr l, r)
            end
          else if c =? 123 then
            match eat 125 r with
            | Some r => Some (PObj [], r)
            | None => '(fs, r) ← read_members n r; Some (PObj fs, r)
            end
          else if c =? 110 then read_word (js "null") PNull t
          else if c =? 116 then read_word (js "true") (PBool true) t
          else if c =? 102 then read_word (js "false") (PBool false) t
          else '(z, r) ← read_int t; Some (PInt z, r)
      end
  end
with read_items (n : nat) (t : jstr) {struct n} : option (list plain * jstr) :=
  match n with
  | O => None
  | S n =>
      '(v, r) ← read_value n t;
      match eat COMMA r with
      | Some r => '(l, r) ← read_items n r; Some (v :: l, r)
      | None => r ← eat 93 r; Some ([v], r)
      end
  end
with read_members (n : nat) (t : jstr) {struct n} : option (list (jstr * plain) * jstr) :=
  match n with
  | O => None
  | S n =>
      r ← eat QUOTE t;
      '(k, r) ← read_chars r;
      r ← eat COLON r;
      '(v, r) ← read_value n r;
      match eat COMMA r with
      | Some r => '(fs, r) ← read_members n r; Some ((k, v) :: fs, r)
      | None => r ← eat 125 r; Some ([(k, v)], r)
      end
  end.

(** ** Objects

    A new key goes behind the others, but a key that spells an array index goes in front,
    in ascending order; a key already present keeps its place. *)
Definition is_index (k : jstr) : bool :=
  negb (is_empty k) && forallb is_digit k && (digits_value 0 k <? 4294967295)
  && eqs k (dec_digits (digits_value 0 k)).

Fixpoint put_index {V} (k : jstr) (v : V) (fs : list (jstr * V)) : list (jstr * V) :=
  match fs with
  | (k', v') :: fs' =>
      if is_index k' && (digits_value 0 k' <? digits_value 0 k) then (k', v') :: put_index k v fs'
      else (k, v) :: fs
  | [] => [(k, v)]
  end.

Definition has_key {V} (k : jstr) (fs : list (jstr * V)) : bool := existsb (fun kv => eqs k kv.1) fs.

Definition define {V} (fs : list (jstr * V)) (kv : jstr * V) : list (jstr * V) :=
  let '(k, v) := kv in
  if has_key k fs then map (fun kv => if eqs k kv.1 then (k, v) else kv) fs
  else if is_index k then put_index k v fs
  else fs ++ [(k, v)].

Fixpoint lookup_key {V} (k : jstr) (fs : list (jstr * V)) : option V :=
  match fs with
  | [] => None
  | (k', v) :: fs' => if eqs k k' then Some v else lookup_key k fs'
  end.

(** The value a text denotes: of two members with one name the last counts. *)
Fixpoint revive (v : plain) : plain :=
  match v with
  | PArr l => PArr (map revive l)
  | PObj fs => PObj (foldl define [] (map (fun kv => (kv.1, revive kv.2)) fs))
  | _ => v
  end.

(** Integers a number holds exactly; a text with another one is not read. *)
Fixpoint safe_ints (v : plain) : bool :=
  match v with
  | PInt z => Z.abs z <=? MAX_SAFE_INTEGER
  | PArr l => forallb safe_ints l
  | PObj fs => forallb (fun kv => safe_ints kv.2) fs
  | _ => true
  end.

Definition json_parse (t : jstr) : option plain :=
  '(v, r) ← read_value (S (2 * length t)) t;
  if is_empty (skip_ws r) && safe_ints v then Some (revive v) else None.

(** [clone]; [None] is the SyntaxError. *)
Definition clone (v : plain) : option plain := json_parse (stringify v).

(** ** The canonical form *)

(** The order of [Array.prototype.sort]: code unit by code unit. *)
Fixpoint key_leb (a b : jstr) : bool :=
  match a, b with
  | [], _ => true
  | _ :: _, [] => false
  | x :: a', y :: b' => (x <? y) || ((x =? y) && key_leb a' b')
  end.

Fixpoint insert_key {V} (kv : jstr * V) (fs : list (jstr * V)) : list (jstr * V) :=
  match fs with
  | [] => [kv]
  | kv' :: fs' => if key_leb kv.1 kv'.1 then kv :: fs else kv' :: insert_key kv fs'
  end.

Definition sort_keys {V} (fs : list (jstr * V)) : list (jstr * V) := foldr insert_key [] fs.

(** The keys of an object are distinct, so sorting the members sorts its keys. *)
Fixpoint canonicalJson (v : plain) : jstr :=
  match v with
  | PArr l => brackets (map canonicalJson l)
  | PObj fs =>
      braces (map (fun kv => member kv.1 kv.2)
                (sort_keys (map (fun kv => (kv.1, canonicalJson kv.2)) fs)))
  | _ => stringify v
  end.

(** Members in another order, at any depth. *)
#[warnings="-register-all"]
Inductive same : plain -> plain -> Prop :=
  | same_null : same PNull PNull
  | same_bool b : same (PBool b) (PBool b)
  | same_int z : same (PInt z) (PInt z)
  | same_str s : same (PStr s) (PStr s)
  | same_arr l k : Forall2 same l k -> same (PArr l) (PArr k)
  | same_obj f g g' :
      g ≡ₚ g' -> Forall2 (fun a b => a.1 = b.1 /\ same a.2 b.2) f g' -> same (PObj f) (PObj g).

(** ** Values the registry holds *)

Definition is_unit (u : Z) : bool := (0 <=? u) && (u <=? 65535).

(** Strings of code units, and objects whose keys are distinct and spell no index. *)
Fixpoint well_formed (v : plain) : bool :=
  match v with
  | PStr s => forallb is_unit s
  | PArr l => forallb well_formed l
  | PObj fs =>
      forallb (fun kv => forallb is_unit kv.1 && negb (is_index kv.1) && well_formed kv.2) fs
      && bool_decide (NoDup (map fst fs))
  | _ => true
  end.

(** ** Strings *)

Lemma radix16_cons acc d s :
  0 <= d < 16 -> radix_value 16 acc (hex_digit d :: s) = radix_value 16 (acc * 16 + d) s.
Proof.
  intros Hd. cbn [radix_value].
  rewrite hex_value_digit by done.
  by rewrite (proj2 (Z.ltb_lt d 16)) by lia.
Qed.

Lemma is_unit_spec u : is_unit u = true <-> 0 <= u <= 65535.
Proof. unfold is_unit. rewrite andb_true_iff, !Z.leb_le. done. Qed.

Lemma hex4_digits u :
  is_unit u = true ->
  hex4 (hex_digit (u / 256 / 16)) (hex_digit ((u / 256) mod 16))
    (hex_digit (u mod 256 / 16)) (hex_digit ((u mod 256) mod 16)) = Some u.
Proof.
  intros [H1 H2]%is_unit_spec. unfold hex4.
  pose proof (Z.mod_pos_bound u 256 ltac:(lia)).
  assert (u / 256 < 256) by (apply Z.div_lt_upper_bound; lia).
  assert (0 <= u / 256) by (apply Z.div_pos; lia).
  assert (forall x, 0 <= x < 256 -> 0 <= x / 16 < 16 /\ 0 <= x mod 16 < 16 /\ x = x / 16 * 16 + x mod 16) as Hb.
  { intros x Hx. split_and!; try (apply Z.mod_pos_bound; lia).
    - apply Z.div_pos; lia.
    - apply Z.div_lt_upper_bound; lia.
    - pose proof (Z.div_mod x 16). lia. }
  destruct (Hb (u / 256)) as (?&?&E1); [lia|]. destruct (Hb (u mod 256)) as (?&?&E2); [lia|].
  rewrite !radix16_cons by lia. cbn [radix_value]. f_equal.
  pose proof (Z.div_mod u 256). lia.
Qed.

Lemma read_unicode u t :
  is_unit u = true -> read_chars (unicode_escape u ++ t) = with_unit u (read_chars t).
Proof.
  intros Hu. unfold unicode_escape, hex_of. cbn [flat_map app read_chars].
  change (BACKSLASH =? QUOTE) with false. change (BACKSLASH =? BACKSLASH) with true.
  cbn iota. change (117 =? 117) with true. cbn iota.
  rewrite hex4_digits by done. done.
Qed.

(** A character that is neither a quote, a backslash nor a control character. *)
Lemma read_raw u t :
  32 <= u -> u <> QUOTE -> u <> BACKSLASH -> read_chars (u :: t) = with_unit u (read_chars t).
Proof.
  intros H1 H2 H3. cbn [read_chars]. rewrite (proj2 (Z.eqb_neq _ _) H2), (proj2 (Z.eqb_neq _ _) H3).
  by rewrite (proj2 (Z.ltb_ge _ _) H1).
Qed.

Lemma read_escape u t :
  is_unit u = true -> read_chars (escape u ++ t) = with_unit u (read_chars t).
Proof.
  intros Hu. unfold escape, short_escape.
  repeat match goal with
         | |- context [u =? ?k] => destruct (Z.eqb_spec u k) as [->|?]; [done|]
         end.
  destruct (Z.ltb_spec u 32); [by apply read_unicode|]. by apply read_raw.
Qed.

Lemma high_raw u : is_high u = true -> 32 <= u /\ u <> QUOTE /\ u <> BACKSLASH.
Proof. unfold is_high, QUOTE, BACKSLASH. rewrite andb_true_iff, !Z.leb_le. lia. Qed.

Lemma low_raw u : is_low u = true -> 32 <= u /\ u <> QUOTE /\ u <> BACKSLASH.
Proof. unfold is_low, QUOTE, BACKSLASH. rewrite andb_true_iff, !Z.leb_le. lia. Qed.

Lemma read_quoted s t :
  forallb is_unit s = true -> read_chars (quoted s ++ t) = Some (s, t).
Proof.
  induction s as [s IH] using (induction_ltof1 _ (@length Z)). unfold ltof in IH.
  destruct s as [|u s]; [done|]. cbn [forallb]. intros [Hu Hs]%andb_prop.
  assert (read_chars (quoted s ++ t) = Some (s, t)) as Hrest by (apply IH; [simpl; lia|done]).
  cbn [quoted]. destruct (is_high u) eqn:Hh.
  - destruct s as [|v s].
    { rewrite <- app_assoc, read_unicode by done. by rewrite Hrest. }
    destruct (is_low v) eqn:Hl.
    + apply high_raw in Hh as (?&?&?). apply low_raw in Hl as (?&?&?).
      cbn [forallb] in Hs. apply andb_prop in Hs as [_ Hs]. cbn [app].
      rewrite !read_raw by done. rewrite IH; [done|simpl; lia|done].
    + by rewrite <- app_assoc, read_unicode, Hrest.
  - destruct (is_low u); rewrite <- app_assoc.
    + by rewrite read_unicode, Hrest.
    + by rewrite read_escape, Hrest.
Qed.

(** ** Numbers *)

Lemma dec_digits_fuel_lead fuel n acc :
  0 < n -> n < 2 ^ Z.of_nat fuel ->
  exists d ds, dec_digits_fuel fuel n acc = d :: ds ++ acc /\ d <> 48.
Proof.
  revert n acc. induction fuel as [|f IH]; intros n acc Hn Hf; [simpl in Hf; lia|].
  cbn [dec_digits_fuel]. destruct (Z.ltb_spec n 10).
  - exists (48 + n mod 10), []. rewrite Z.mod_small by lia. split; [done|lia].
  - rewrite Nat2Z.inj_succ, Z.pow_succ_r in Hf by lia.
    destruct (IH (n / 10) ((48 + n mod 10) :: acc)) as (d & ds & E & Hd).
    { apply Z.div_str_pos. lia. }
    { apply Z.div_lt_upper_bound; lia. }
    exists d, (ds ++ [48 + n mod 10]). by rewrite E, <- app_assoc.
Qed.

Lemma dec_digits_lead n :
  0 <= n -> exists d ds, dec_digits n = d :: ds /\ (d = 48 -> ds = []).
Proof.
  intros Hn. destruct (Z.eq_dec n 0) as [->|]; [by exists 48, []|]. unfold dec_digits.
  destruct (dec_digits_fuel_lead (S (Z.to_nat (Z.log2 n))) n []) as (d & ds & E & Hd); [lia| |].
  { rewrite Nat2Z.inj_succ. rewrite Z2Nat.id by apply Z.log2_nonneg. apply Z.log2_spec. lia. }
  exists d, ds. rewrite E, app_nil_r. done.
Qed.

(** What may follow a value in a text [stringify] prints. *)
Definition ends (r : jstr) : Prop :=
  match r with [] => True | c :: _ => c = COMMA \/ c = 93 \/ c = 125 end.

Lemma read_digits_print n r :
  0 <= n -> ends r -> read_digits (dec_digits n ++ r) = Some (n, r).
Proof.
  intros Hn Hr. destruct (dec_digits_spec n Hn) as [Hv Hd].
  destruct (dec_digits_lead n Hn) as (d & ds & E & Hlead). unfold read_digits.
  assert (span is_digit (dec_digits n ++ r) = (dec_digits n, r)) as ->.
  { clear -Hd Hr. induction (dec_digits n) as [|c l IH]; cbn [app].
    - destruct r as [|c r]; [done|]. cbn. by destruct Hr as [-> | [-> | ->]].
    - apply Forall_cons in Hd as [Hc Hd]. cbn [span]. rewrite Hc. by rewrite IH. }
  rewrite E in Hv |- *.
  assert ((d =? 48) && negb (is_empty ds) = false) as ->.
  { destruct (Z.eqb_spec d 48) as [->|]; [by rewrite Hlead|done]. }
  rewrite Hv. destruct r as [|c r]; [done|]. by destruct Hr as [-> | [-> | ->]].
Qed.

Lemma read_int_dec z r : ends r -> read_int (dec z ++ r) = Some (z, r).
Proof.
  intros Hr. unfold dec. destruct (Z.ltb_spec z 0).
  - cbn [app read_int]. change (45 =? 45) with true. cbn iota.
    rewrite read_digits_print by (done || lia). cbn. by rewrite Z.opp_involutive.
  - destruct (dec_digits_lead z ltac:(lia)) as (d & ds & E & _).
    destruct (dec_digits_spec z ltac:(lia)) as [_ Hd].
    pose proof (read_digits_print z r ltac:(lia) Hr) as Hread.
    rewrite E in Hd, Hread |- *. apply Forall_cons in Hd as [Hd _].
    cbn [app read_int] in *. destruct (Z.eqb_spec d 45) as [->|]; [done|exact Hread].
Qed.

(** ** Values *)

Lemma eat_hit c r : is_json_ws c = false -> eat c (c :: r) = Some r.
Proof. intros H. unfold eat. cbn [skip_ws]. by rewrite H, Z.eqb_refl. Qed.

Lemma eat_miss c x r : is_json_ws x = false -> x <> c -> eat c (x :: r) = None.
Proof. intros H Hx. unfold eat. cbn [skip_ws]. by rewrite H, (proj2 (Z.eqb_neq _ _) Hx). Qed.

Lemma dec_head z : exists c t, dec z = c :: t /\ (is_digit c = true \/ c = 45).
Proof.
  unfold dec. destruct (z <? 0) eqn:Hz; b2p; [by eauto|].
  destruct (dec_digits_lead z Hz) as (d & ds & E & _).
  destruct (dec_digits_spec z Hz) as [_ Hd]. rewrite E in Hd |- *.
  apply Forall_cons in Hd as [Hd _]. by eauto.
Qed.

Lemma numeral_chars (P : Z -> Prop) c :
  is_digit c = true \/ c = 45 -> Forall P [45;48;49;50;51;52;53;54;55;56;57] -> P c.
Proof.
  intros Hc HP. apply (proj1 (Forall_forall _ _) HP).
  repeat rewrite elem_of_cons. unfold is_digit in Hc. destruct Hc as [Hc|]; b2p; lia.
Qed.

Lemma stringify_head v :
  exists c t, stringify v = c :: t /\ is_json_ws c = false /\ c <> 93.
Proof.
  destruct v as [|[]|z|s|l|fs]; try by eexists _, _.
  destruct (dec_head z) as (c & t & E & Hc). exists c, t. split; [done|].
  pattern c. apply (numeral_chars _ c Hc). by repeat constructor.
Qed.

Lemma read_value_int n c t :
  is_digit c = true \/ c = 45 ->
  read_value (S n) (c :: t) = ('(z, r) ← read_int (c :: t); Some (PInt z, r)).
Proof.
  intros Hc. pattern c. apply (numeral_chars _ c Hc).
  repeat (apply Forall_cons; split; [reflexivity|]). constructor.
Qed.

Definition reads (v : plain) : Prop :=
  forall n r, (2 * length (stringify v) <= n)%nat -> ends r ->
    read_value n (stringify v ++ r) = Some (v, r).

Lemma join_cons c (x y : jstr) l : join_with c (x :: y :: l) = x ++ c :: join_with c (y :: l).
Proof. done. Qed.

Lemma read_items_print l :
  Forall reads l -> l <> [] -> forall n r,
  (2 * length (join_with COMMA (map stringify l)) < n)%nat ->
  read_items n (join_with COMMA (map stringify l) ++ 93 :: r) = Some (l, r).
Proof.
  induction 1 as [|v l Hv Hl IH]; [done|]. intros _ n r Hn.
  destruct n as [|n]; [lia|]. destruct l as [|w l].
  - cbn [map join_with] in Hn |- *. cbn [read_items]. rewrite Hv by (lia || (cbn; auto)).
    cbn [mbind option_bind]. by rewrite eat_miss, eat_hit.
  - cbn [map] in Hn, IH |- *. rewrite join_cons in Hn |- *.
    rewrite length_app in Hn. cbn [length] in Hn.
    rewrite <- app_assoc. cbn [app read_items]. rewrite Hv by (lia || (cbn; auto)).
    cbn [mbind option_bind]. rewrite eat_hit by done. by rewrite IH by (done || lia).
Qed.

Lemma member_shape k text r :
  member k text ++ r = QUOTE :: (quoted k ++ COLON :: (text ++ r)).
Proof. unfold member, quote. cbn [app]. by rewrite <- app_assoc. Qed.

Lemma member_length k text : (length text + 3 <= length (member k text))%nat.
Proof.
  assert (exists c t, quoted k = c :: t) as (c & t & E).
  { destruct k as [|u k]; [by eexists _, _|]. cbn [quoted].
    destruct (is_high u); [destruct k as [|v k]; [by eexists _, _|destruct (is_low v); by eexists _, _]|].
    destruct (is_low u); [by eexists _, _|]. unfold escape.
    destruct (short_escape u); [by eexists _, _|]. destruct (u <? 32); by eexists _, _. }
  unfold member, quote. rewrite E, length_app. simpl. lia.
Qed.

Definition member_text (kv : jstr * plain) : jstr := member kv.1 (stringify kv.2).

Lemma read_member n k v r :
  forallb is_unit k = true -> reads v -> (2 * length (member_text (k, v)) <= n)%nat -> ends r ->
  (r0 ← eat QUOTE (member_text (k, v) ++ r); '(k, r1) ← read_chars r0; r2 ← eat COLON r1;
   '(v, r3) ← read_value n r2; Some (k, v, r3)) = Some (k, v, r).
Proof.
  intros Hk Hv Hn Hr. unfold member_text in *. cbn [fst snd] in *. rewrite member_shape.
  pose proof (member_length k (stringify v)).
  rewrite eat_hit by done. cbn [mbind option_bind]. rewrite read_quoted by done.
  cbn [mbind option_bind]. rewrite eat_hit by done. cbn [mbind option_bind].
  by rewrite Hv by (done || lia).
Qed.

Lemma read_members_step n t :
  read_members (S n) t =
  ('(k, v, r) ← (r0 ← eat QUOTE t; '(k, r1) ← read_chars r0; r2 ← eat COLON r1;
                 '(v, r3) ← read_value n r2; Some (k, v, r3));
   match eat COMMA r with
   | Some r => '(fs, r) ← read_members n r; Some ((k, v) :: fs, r)
   | None => r ← eat 125 r; Some ([(k, v)], r)
   end).
Proof.
  cbn [read_members]. destruct (eat QUOTE t) as [r0|]; [|done]. cbn [mbind option_bind].
  destruct (read_chars r0) as [[k r1]|]; [|done]. cbn [mbind option_bind].
  destruct (eat COLON r1) as [r2|]; [|done]. cbn [mbind option_bind].
  by destruct (read_value n r2) as [[v r3]|].
Qed.

Lemma read_members_print fs :
  Forall (fun kv => forallb is_unit kv.1 = true /\ reads kv.2) fs -> fs <> [] -> forall n r,
  (2 * length (join_with COMMA (map member_text fs)) < n)%nat ->
  read_members n (join_with COMMA (map member_text fs) ++ 125 :: r) = Some (fs, r).
Proof.
  induction 1 as [|[k v] fs [Hk Hv] Hl IH]; [done|]. intros _ n r Hn. cbn [fst snd] in *.
  destruct n as [|n]; [lia|]. rewrite read_members_step. destruct fs as [|w fs].
  - cbn [map join_with] in Hn |- *. rewrite read_member by (done || lia || (cbn; auto)).
    cbn [mbind option_bind]. by rewrite eat_miss, eat_hit.
  - cbn [map] in Hn, IH |- *. rewrite join_cons in Hn |- *.
    rewrite length_app in Hn. cbn [length] in Hn.
    rewrite <- app_assoc. cbn [app]. rewrite read_member by (done || lia || (cbn; auto)).
    cbn [mbind option_bind]. rewrite eat_hit by done. by rewrite IH by (done || lia).
Qed.

Lemma well_formed_members fs :
  well_formed (PObj fs) = true ->
  Forall (fun kv => forallb is_unit kv.1 = true /\ is_index kv.1 = false /\ well_formed kv.2 = true) fs
  /\ NoDup (map fst fs).
Proof.
  cbn [well_formed]. intros [H1 H2]%andb_prop. split; [|by apply bool_decide_eq_true in H2].
  apply Forall_forall. intros kv Hin%list_elem_of_In.
  pose proof (proj1 (forallb_forall _ _) H1 _ Hin) as H. cbn beta in H.
  by apply andb_prop in H as [[? ?%negb_true_iff]%andb_prop ?].
Qed.

Lemma well_formed_items l : well_formed (PArr l) = true -> Forall (fun v => well_formed v = true) l.
Proof.
  cbn [well_formed]. intros H. apply Forall_forall. intros v Hin%list_elem_of_In.
  by apply (proj1 (forallb_forall _ _) H).
Qed.

Lemma no_fuel v : ~ (2 * length (stringify v) <= 0)%nat.
Proof. destruct (stringify_head v) as (c & t & E & _). rewrite E. simpl. lia. Qed.

Lemma reads_arr l : Forall reads l -> reads (PArr l).
Proof.
  intros Hl n r Hn _. destruct n as [|n]; [by apply no_fuel in Hn|].
  destruct l as [|v l]; [done|].
  cbn [stringify] in Hn |- *. unfold brackets in *. rewrite app_comm_cons in Hn.
  rewrite length_app in Hn. cbn [length] in Hn. cbn [app]. rewrite <- app_assoc. cbn [app].
  set (items := join_with COMMA (map stringify (v :: l))) in *.
  cbn [read_value]. change (skip_ws (91 :: items ++ 93 :: r)) with (91 :: items ++ 93 :: r).
  cbn iota. change (91 =? QUOTE) with false. change (91 =? 91) with true. cbn iota.
  assert (eat 93 (items ++ 93 :: r) = None) as ->.
  { destruct (stringify_head v) as (c & t & E & Hws & H93). subst items. cbn [map].
    destruct l; cbn [map join_with]; rewrite E; cbn [app]; by apply eat_miss. }
  subst items. by rewrite read_items_print by (done || lia).
Qed.

Lemma reads_obj fs :
  Forall (fun kv => forallb is_unit kv.1 = true /\ reads kv.2) fs -> reads (PObj fs).
Proof.
  intros Hl n r Hn _. destruct n as [|n]; [by apply no_fuel in Hn|].
  destruct fs as [|[k v] fs]; [done|].
  cbn [stringify] in Hn |- *. change (map _ ((k, v) :: fs)) with (map member_text ((k, v) :: fs)) in *.
  unfold braces in *. rewrite app_comm_cons in Hn.
  rewrite length_app in Hn. cbn [length] in Hn. cbn [app]. rewrite <- app_assoc. cbn [app].
  set (items := join_with COMMA (map member_text ((k, v) :: fs))) in *.
  cbn [read_value]. change (skip_ws (123 :: items ++ 125 :: r)) with (123 :: items ++ 125 :: r).
  cbn iota. change (123 =? QUOTE) with false. change (123 =? 91) with false.
  change (123 =? 123) with true. cbn iota.
  assert (eat 125 (items ++ 125 :: r) = None) as ->.
  { subst items. cbn [map]. destruct fs; cbn [map join_with]; unfold member_text at 1, member, quote;
      cbn [app fst snd]; by apply eat_miss. }
  subst items. by rewrite read_members_print by (done || lia).
Qed.

Lemma read_print v : well_formed v = true -> reads v.
Proof.
  induction v as [|b|z|s|l IH|fs IH] using plain_induction; intros Hw.
  5: { apply well_formed_items in Hw. apply reads_arr, Forall_forall. intros w Hin.
    by apply (proj1 (Forall_forall _ _) IH), (proj1 (Forall_forall _ _) Hw). }
  5: { apply well_formed_members in Hw as [Hw _]. apply reads_obj, Forall_forall. intros w Hin.
    destruct (proj1 (Forall_forall _ _) Hw _ Hin) as (?&_&?). split; [done|].
    by apply (proj1 (Forall_forall _ _) IH). }
  all: intros n r Hn Hr; (destruct n as [|n]; [by apply no_fuel in Hn|]).
  - done.
  - by destruct b.
  - destruct (dec_head z) as (c & t & E & Hc). pose proof (read_int_dec z r Hr) as Hread.
    cbn [stringify]. rewrite E in Hread |- *. cbn [app] in Hread |- *.
    rewrite read_value_int by done. by rewrite Hread.
  - cbn [stringify]. unfold quote. cbn [app read_value]. change (skip_ws (QUOTE :: quoted s ++ r))
      with (QUOTE :: quoted s ++ r). cbv iota beta. change (QUOTE =? QUOTE) with true. cbn iota.
    by rewrite read_quoted by done.
Qed.

(** A text has one value. *)
Lemma stringify_inj v w :
  well_formed v = true -> well_formed w = true -> stringify v = stringify w -> v = w.
Proof.
  intros Hv Hw E. pose proof (read_print v Hv (2 * length (stringify v))%nat [] (le_n _) I) as H1.
  pose proof (read_print w Hw (2 * length (stringify v))%nat []) as H2. rewrite <- E in H2.
  specialize (H2 (le_n _) I). congruence.
Qed.

(** ** Cloning *)

Lemma has_key_spec {V} k (fs : list (jstr * V)) : has_key k fs = true <-> k ∈ map fst fs.
Proof.
  unfold has_key. rewrite existsb_exists, list_elem_of_fmap. split.
  - intros (kv & Hin & E). b2p. exists kv. split; [done|]. by apply list_elem_of_In.
  - intros (kv & -> & Hin). exists kv. rewrite eqs_refl. split; [|done]. by apply list_elem_of_In.
Qed.

Lemma define_all {V} (fs acc : list (jstr * V)) :
  NoDup (map fst (acc ++ fs)) -> Forall (fun kv => is_index kv.1 = false) fs ->
  foldl define acc fs = acc ++ fs.
Proof.
  revert acc. induction fs as [|[k v] fs IH]; intros acc Hnd Hidx; [by rewrite app_nil_r|].
  apply Forall_cons in Hidx as [Hk Hidx]. cbn [foldl].
  assert (define acc (k, v) = acc ++ [(k, v)]) as ->.
  { unfold define. cbn [fst] in Hk. rewrite Hk. destruct (has_key k acc) eqn:Hh; [|done].
    apply has_key_spec in Hh. rewrite map_app in Hnd. apply NoDup_app in Hnd as (_ & Hd & _).
    exfalso. apply (Hd k Hh). by left. }
  rewrite IH; rewrite <- ?app_assoc; done.
Qed.

Lemma revive_id v : well_formed v = true -> revive v = v.
Proof.
  induction v as [| | | |l IH|fs IH] using plain_induction; intros Hw; try done; cbn [revive]; f_equal.
  - apply well_formed_items in Hw. rewrite <- (map_id l) at 2. apply map_ext_Forall.
    apply Forall_forall. intros w Hin.
    by apply (proj1 (Forall_forall _ _) IH), (proj1 (Forall_forall _ _) Hw).
  - apply well_formed_members in Hw as [Hw Hnd].
    assert (map (fun kv => (kv.1, revive kv.2)) fs = fs) as ->.
    { rewrite <- (map_id fs) at 2. apply map_ext_Forall, Forall_forall. intros [k w] Hin.
      destruct (proj1 (Forall_forall _ _) Hw _ Hin) as (_&_&?). cbn. f_equal.
      by apply (proj1 (Forall_forall _ _) IH _ Hin). }
    rewrite define_all; [done|done|]. by eapply Forall_impl; [exact Hw|intros ? (?&?&?)].
Qed.

Lemma clone_id v : well_formed v = true -> safe_ints v = true -> clone v = Some v.
Proof.
  intros Hw Hs. unfold clone, json_parse.
  pose proof (read_print v Hw (S (2 * length (stringify v)))%nat []) as H. rewrite app_nil_r in H.
  rewrite H by (done || lia). cbn. rewrite Hs. by rewrite revive_id.
Qed.

(** ** The canonical form *)

Section KeyOrder.
Context {V : Type}.
Implicit Types (fs gs : list (jstr * V)) (kv : jstr * V).

Lemma key_leb_total a b : key_leb a b = true \/ key_leb b a = true.
Proof.
  revert b. induction a as [|x a IH]; intros [|y b]; cbn; auto.
  destruct (Z.ltb_spec x y), (Z.ltb_spec y x); cbn; auto.
  assert (x = y) as -> by lia. rewrite Z.eqb_refl. apply IH.
Qed.

Lemma key_leb_antisym a b : key_leb a b = true -> key_leb b a = true -> a = b.
Proof.
  revert b. induction a as [|x a IH]; intros [|y b]; cbn; try done.
  destruct (Z.ltb_spec x y), (Z.ltb_spec y x), (Z.eqb_spec x y), (Z.eqb_spec y x);
    cbn; intros; try done; try lia.
  subst. f_equal. by apply IH.
Qed.

Lemma key_leb_trans a b c : key_leb a b = true -> key_leb b c = true -> key_leb a c = true.
Proof.
  revert b c. induction a as [|x a IH]; intros [|y b] [|z c]; cbn; try done.
  destruct (Z.ltb_spec x y), (Z.ltb_spec y z), (Z.ltb_spec x z), (Z.eqb_spec x y), (Z.eqb_spec y z),
    (Z.eqb_spec x z); cbn; intros; try done; try lia.
  by eapply IH.
Qed.

Definition key_le kv kv' : Prop := key_leb kv.1 kv'.1 = true.

Lemma insert_key_perm kv fs : insert_key kv fs ≡ₚ kv :: fs.
Proof.
  induction fs as [|kv' fs IH]; cbn; [done|]. destruct (key_leb _ _); [done|].
  rewrite IH. apply Permutation_swap.
Qed.

Lemma sort_keys_perm fs : sort_keys fs ≡ₚ fs.
Proof. induction fs as [|kv fs IH]; cbn; [done|]. by rewrite insert_key_perm, IH. Qed.

Lemma insert_key_sorted kv fs : StronglySorted key_le fs -> StronglySorted key_le (insert_key kv fs).
Proof.
  induction 1 as [|kv' fs Hs IH Hf]; cbn; [by repeat constructor|].
  destruct (key_leb kv.1 kv'.1) eqn:E.
  - constructor; [by constructor|]. constructor; [done|].
    eapply Forall_impl; [exact Hf|]. intros x. by apply key_leb_trans.
  - constructor; [done|]. rewrite insert_key_perm. constructor; [|done].
    destruct (key_leb_total kv.1 kv'.1); [congruence|done].
Qed.

Lemma sort_keys_sorted fs : StronglySorted key_le (sort_keys fs).
Proof. induction fs; cbn; [constructor|by apply insert_key_sorted]. Qed.

Lemma same_key fs kv kv' : NoDup (map fst fs) -> kv ∈ fs -> kv' ∈ fs -> kv.1 = kv'.1 -> kv = kv'.
Proof.
  induction fs as [|x fs IH]; cbn; [by intros _ ?%not_elem_of_nil|].
  intros [Hx Hnd]%NoDup_cons H H' E. apply elem_of_cons in H, H'.
  destruct H as [->|H], H' as [->|H']; [done| | |by apply IH].
  - destruct Hx. rewrite E. by apply list_elem_of_fmap_2.
  - destruct Hx. rewrite <- E. by apply list_elem_of_fmap_2.
Qed.

Lemma sorted_unique fs gs :
  NoDup (map fst fs) -> fs ≡ₚ gs -> StronglySorted key_le fs -> StronglySorted key_le gs -> fs = gs.
Proof.
  intros Hnd Hp Hf. revert gs Hp. induction Hf as [|x fs Hs IH Hx]; intros gs Hp Hg.
  { by apply Permutation_nil_l in Hp as ->. }
  destruct Hg as [|y gs Hg Hy]; [by apply Permutation_nil_r in Hp|].
  assert (x = y) as ->.
  { apply (same_key (x :: fs)); [done|left| |].
    - rewrite Hp. left.
    - apply key_leb_antisym.
      + assert (y ∈ x :: fs) as [->|Hin]%elem_of_cons by (rewrite Hp; left).
        * destruct (key_leb_total x.1 x.1); done.
        * by apply (proj1 (Forall_forall _ _) Hx).
      + assert (x ∈ y :: gs) as [->|Hin]%elem_of_cons by (rewrite <- Hp; left).
        * destruct (key_leb_total y.1 y.1); done.
        * by apply (proj1 (Forall_forall _ _) Hy). }
  apply Permutation_cons_inv in Hp. f_equal. apply IH; [by apply NoDup_cons in Hnd as []|done..].
Qed.

Lemma sort_keys_unique fs gs : NoDup (map fst fs) -> fs ≡ₚ gs -> sort_keys fs = sort_keys gs.
Proof.
  intros Hnd Hp. apply sorted_unique; try apply sort_keys_sorted.
  - by rewrite sort_keys_perm.
  - by rewrite !sort_keys_perm.
Qed.
End KeyOrder.

Lemma sort_keys_map {V W} (f : V -> W) fs :
  sort_keys (map (fun kv => (kv.1, f kv.2)) fs) = map (fun kv => (kv.1, f kv.2)) (sort_keys fs).
Proof.
  unfold sort_keys. induction fs as [|kv fs IH]; cbn; [done|]. rewrite IH. clear IH.
  induction (foldr insert_key [] fs) as [|kv' gs IH]; cbn; [done|]. destruct (key_leb _ _); [done|].
  cbn. by rewrite IH.
Qed.

(** The value with its keys in order, at every depth. *)
Fixpoint by_keys (v : plain) : plain :=
  match v with
  | PArr l => PArr (map by_keys l)
  | PObj fs => PObj (sort_keys (map (fun kv => (kv.1, by_keys kv.2)) fs))
  | _ => v
  end.

Lemma canonicalJson_by_keys v : canonicalJson v = stringify (by_keys v).
Proof.
  induction v as [| | | |l IH|fs IH] using plain_induction; try done;
    cbn [canonicalJson by_keys stringify].
  - f_equal. rewrite map_map. by apply map_ext_Forall.
  - f_equal. rewrite sort_keys_map, !map_map. cbn.
    rewrite (sort_keys_map by_keys), map_map. cbn. apply map_ext_Forall.
    rewrite sort_keys_perm. eapply Forall_impl; [exact IH|]. intros kv E. cbn in *. by rewrite E.
Qed.

Lemma map_fst_keep {V W} (f : V -> W) (fs : list (jstr * V)) :
  map fst (map (fun kv => (kv.1, f kv.2)) fs) = map fst fs.
Proof. by rewrite map_map. Qed.

Lemma well_formed_obj fs :
  Forall (fun kv => forallb is_unit kv.1 = true /\ is_index kv.1 = false /\ well_formed kv.2 = true) fs ->
  NoDup (map fst fs) -> well_formed (PObj fs) = true.
Proof.
  intros Hf Hnd. cbn [well_formed]. apply andb_true_intro. split; [|by apply bool_decide_eq_true].
  apply forallb_forall. intros kv Hin%list_elem_of_In.
  destruct (proj1 (Forall_forall _ _) Hf _ Hin) as (H1&H2&H3). by rewrite H1, H2, H3.
Qed.

Lemma by_keys_well_formed v : well_formed v = true -> well_formed (by_keys v) = true.
Proof.
  induction v as [| | | |l IH|fs IH] using plain_induction; intros Hw; try done; cbn [by_keys].
  - apply well_formed_items in Hw. cbn [well_formed]. apply forallb_forall.
    intros w (v & <- & Hin%list_elem_of_In)%in_map_iff.
    by apply (proj1 (Forall_forall _ _) IH), (proj1 (Forall_forall _ _) Hw).
  - apply well_formed_members in Hw as [Hw Hnd]. apply well_formed_obj.
    + rewrite sort_keys_perm. apply Forall_map, Forall_forall. intros kv Hin. cbn.
      destruct (proj1 (Forall_forall _ _) Hw _ Hin) as (?&?&?). split_and!; [done..|].
      by apply (proj1 (Forall_forall _ _) IH).
    + by rewrite sort_keys_perm, map_fst_keep.
Qed.

Lemma map_eq_Forall2 {A B} (f : A -> B) l k : map f l = map f k -> Forall2 (fun x y => f x = f y) l k.
Proof. revert k. induction l as [|x l IH]; intros [|y k]; cbn; try done. intros [= ? ?]. constructor; auto. Qed.

Lemma by_keys_same v w : by_keys v = by_keys w -> same v w.
Proof.
  revert w. induction v as [|b|z|s|l IH|fs IH] using plain_induction;
    intros [|b'|z'|s'|l'|fs']; try done; cbn [by_keys]; intros E; try (injection E as ->; constructor).
  - constructor.
  - constructor. injection E as E. apply map_eq_Forall2 in E. clear -IH E.
    induction E as [|x y l k Hxy _ IHl]; [constructor|]. apply Forall_cons in IH as [? ?]. auto.
  - assert (map (fun kv => (kv.1, by_keys kv.2)) fs ≡ₚ map (fun kv => (kv.1, by_keys kv.2)) fs') as Hp.
    { injection E as E. by rewrite <- (sort_keys_perm (map _ fs)), E, sort_keys_perm. }
    apply Permutation_map_inv in Hp as (gs & Hmap & Hp). apply (same_obj _ _ gs); [by rewrite Hp|].
    apply map_eq_Forall2 in Hmap. clear -IH Hmap.
    induction Hmap as [|x y l k Hxy _ IHl]; [constructor|]. apply Forall_cons in IH as [? ?].
    injection Hxy as ? ?. constructor; auto.
Qed.

Lemma same_by_keys v w : same v w -> well_formed v = true -> by_keys v = by_keys w.
Proof.
  revert w. induction v as [|b|z|s|l IH|fs IH] using plain_induction; intros w Hs Hw;
    inversion Hs as [| | | |l1 k Hf|f g g' Hp Hf]; subst; try done; cbn [by_keys]; f_equal.
  - apply well_formed_items in Hw. clear Hs. induction Hf as [|x y l k Hxy _ IHl]; [done|].
    apply Forall_cons in IH as [IH ?], Hw as [? ?]. cbn. rewrite (IH y) by done. by rewrite IHl.
  - apply well_formed_members in Hw as [Hw Hnd]. apply sort_keys_unique; [by rewrite map_fst_keep|].
    rewrite Hp. clear Hs Hp Hnd.
    assert (map (fun kv => (kv.1, by_keys kv.2)) fs = map (fun kv => (kv.1, by_keys kv.2)) g') as ->;
      [|done].
    induction Hf as [|x y l k [E Hxy] _ IHl]; [done|].
    apply Forall_cons in IH as [IH ?], Hw as [(?&?&?) ?]. cbn. rewrite E, (IH y.2) by done. by rewrite IHl.
Qed.

Lemma canonicalJson_same v w :
  well_formed v = true -> well_formed w = true -> canonicalJson v = canonicalJson w -> same v w.
Proof.
  intros Hv Hw. rewrite !canonicalJson_by_keys. intros E. apply by_keys_same.
  apply stringify_inj; [by apply by_keys_well_formed..|done].
Qed.

(** The canonical text identifies a value up to the order of its keys: two
    well-formed values have the same canonicalJson exactly when they are equal but for the
    order in which their objects, at any depth, list their members. *)
Theorem canonicalJson_exact v w :
  well_formed v = true -> well_formed w = true ->
  canonicalJson v = canonicalJson w <-> same v w.
Proof.
  intros Hv Hw. split; [by apply canonicalJson_same|]. intros Hs.
  by rewrite !canonicalJson_by_keys, (same_by_keys v w).
Qed.

Lemma canonicalJson_exact_witness :
  let v := PObj [(js "b", PInt 1); (js "a", PArr [PStr (js "x"); PNull])] in
  let w := PObj [(js "a", PArr [PStr (js "x"); PNull]); (js "b", PInt 1)] in
  canonicalJson v = canonicalJson w.
Proof.
  refine (proj2 (canonicalJson_exact _ _ _ _) _); [by vm_compute..|].
  eapply same_obj; [apply Permutation_swap|]. by repeat constructor.
Defined.
