(* ===== verification/CoinData.v ===== *)
(** * The coin files

    src/src/coins/BTC.js, LTC.js and DOGE.js and the pins of consensus_pin.js: a coin file is
    the object it exports, with the fields in the order of the source. *)
From S2P Require Import Prelude Json.
#[local] Open Scope Z_scope.

Declare Scope coin_scope.
Delimit Scope coin_scope with coin.
Notation "k ~> v" := (js k, v) (at level 80, right associativity) : coin_scope.
#[local] Open Scope coin_scope.

Definition str (s : String.string) : plain := PStr (js s).
Arguments str _%_string_scope.

(** The message prefix of bitcoinjs: the length of the rest as a character, and the rest. *)
Definition signed_message (size : Z) (s : String.string) : plain := PStr (size :: js s ++ [10]).
Arguments signed_message _ _%_string_scope.

(** ** Bitcoin *)

Definition BTC_identity : list (jstr * plain) :=
  [
    "tick" ~> str "BTC";
    "fullName" ~> str "bitcoin";
    "displayName" ~> str "Bitcoin";
    "site" ~> str "https://bitcoin.org";
    "decimals" ~> PInt 8;
    "confirmations" ~> PInt 6;
    "wireFormat" ~> str "default";
    "DISPLAY_ONLY_ADDRESS_ROLES" ~> PArr [str "EXPLORER"]].

Definition BTC_mainnet_net : plain :=
  PObj [
    "messagePrefix" ~> signed_message 24 "Bitcoin Signed Message:";
    "bech32" ~> str "bc";
    "bip32" ~> PObj ["public" ~> PInt 0x0488b21e; "private" ~> PInt 0x0488ade4];
    "pubKeyHash" ~> PInt 0x00;
    "scriptHash" ~> PInt 0x05;
    "wif" ~> PInt 0x80;
    "dustThreshold" ~> PInt 546;
    "minStandardTxNonWitnessSize" ~> PInt 82;
    "singleOpReturnPolicy" ~> PBool true].

Definition BTC_mainnet_addresses : plain :=
  PObj [
    "BURN" ~> str "1XChainBurnAddressXXXXXXXXXbRsd2N";
    "GAS" ~> str "1XChain3M4uRwcHqt4XuhVBUQ8cL4qQsA";
    "DONATE1" ~> str "1Donate1GERVKPW6GFQcnGeTa8dgL6Abyp";
    "DONATE2" ~> str "1Donate2LkbBrsanwCVRPWZCXAqQcvcqGz";
    "FEE_DESTINATION" ~> str "1FeesxM9LTEjBYVTkynK6jfDBgvksuh2WL";
    "REWARD" ~> str "1RewardsRQTXMAytLt4bBQvPEscKsSEXt";
    "BRIDGE_LTC" ~> str "17BridgeLtcXChainXXXXXXXXXXa5uRRy";
    "BRIDGE_DOGE" ~> str "17BridgeDogeXChainXXXXXXXXXVuqXcv";
    "EXPLORER" ~> str "1Donate3GBGSZzzrS9U9gUgURYKscAE6Yn"].

Definition BTC_mainnet_genesis : plain :=
  PObj [
    "block" ~> PInt 950000;
    "ledgerHash" ~> str "13aeeebb9f2e27d507ca96fb7c54a1bfa98b9cc80c3feebd5d1ad022ce7e2b73";
    "dumpHash" ~> str "85431c2c41d6442e38aa78af804148dd6ead207aca036f6e44fbf2bee8c2846e";
    "airdropPaths" ~> PArr [];
    "airdropHashes" ~> PArr [];
    "airdropAmounts" ~> PArr [];
    "airdropSnapshotBlock" ~> PNull;
    "airdropSetHash" ~> PNull].

Definition BTC_mainnet : plain :=
  PObj [
    "net" ~> BTC_mainnet_net;
    "firstBlock" ~> PInt 950000;
    "chainGenesisHash" ~> PNull;
    "addresses" ~> BTC_mainnet_addresses;
    "genesis" ~> BTC_mainnet_genesis].

Definition BTC_testnet_net : plain :=
  PObj [
    "messagePrefix" ~> signed_message 24 "Bitcoin Signed Message:";
    "bech32" ~> str "tb";
    "bip32" ~> PObj ["public" ~> PInt 0x043587cf; "private" ~> PInt 0x04358394];
    "pubKeyHash" ~> PInt 0x6f;
    "scriptHash" ~> PInt 0xc4;
    "wif" ~> PInt 0xef;
    "dustThreshold" ~> PInt 546;
    "minStandardTxNonWitnessSize" ~> PInt 82;
    "singleOpReturnPolicy" ~> PBool true].

Definition BTC_testnet_addresses : plain :=
  PObj [
    "BURN" ~> str "mxchainburnaddressXXXXXXXXXXa8EAfp";
    "GAS" ~> str "mgassdEpzH2AuKGK9W5FZh8drWYKrpXk6D";
    "DONATE1" ~> str "mfztXKX1HeVdCQf6pDCZFEzo5i5wYNHAM6";
    "DONATE2" ~> str "myBbbZ4t7BPoyNcT4sHtFwZDuiyYGDXLQM";
    "FEE_DESTINATION" ~> str "mfees5QurRs5BHXofdGpTG5pXB6uC6R8RU";
    "REWARD" ~> str "mrewards4RQFYoZ5yEv4xr12PzfjDYViks";
    "BRIDGE_LTC" ~> str "mfbtcbridgeLtcXXXXXXXXXXXXXXVPqpoV";
    "BRIDGE_DOGE" ~> str "mfbtcbridgedogeXXXXXXXXXXXXXUXTr4m";
    "EXPLORER" ~> str "n1jbLKMrhvFae7NwTj37ZtkN4uPy29o9aM"].

Definition BTC_testnet_genesis : plain :=
  PObj [
    "block" ~> PInt 0;
    "ledgerHash" ~> PNull;
    "dumpHash" ~> PNull;
    "airdropPaths" ~> PArr [];
    "airdropHashes" ~> PArr [];
    "airdropAmounts" ~> PArr [];
    "airdropSnapshotBlock" ~> PNull;
    "airdropSetHash" ~> PNull].

Definition BTC_testnet : plain :=
  PObj [
    "net" ~> BTC_testnet_net;
    "firstBlock" ~> PInt 149700;
    "chainGenesisHash" ~> PNull;
    "addresses" ~> BTC_testnet_addresses;
    "genesis" ~> BTC_testnet_genesis].

Definition BTC_regtest_net : plain :=
  PObj [
    "messagePrefix" ~> signed_message 24 "Bitcoin Signed Message:";
    "bech32" ~> str "bcrt";
    "bip32" ~> PObj ["public" ~> PInt 0x043587cf; "private" ~> PInt 0x04358394];
    "pubKeyHash" ~> PInt 0x6f;
    "scriptHash" ~> PInt 0xc4;
    "wif" ~> PInt 0xef;
    "dustThreshold" ~> PInt 546;
    "minStandardTxNonWitnessSize" ~> PInt 82;
    "singleOpReturnPolicy" ~> PBool true].

Definition BTC_regtest_addresses : plain :=
  PObj [
    "BURN" ~> str "mxchainburnaddressXXXXXXXXXXa8EAfp";
    "GAS" ~> str "mgash6jYSKAR3Q5HPpDgNX2BYr18q9N6GQ";
    "DONATE1" ~> str "muYHF9MMnK6Nmd5zx7EBtqEYZdaf2Xy8JX";
    "DONATE2" ~> str "mkQd27aJSqsQ666z1Q4MLFmd3Ybqzy3TNw";
    "FEE_DESTINATION" ~> str "mfeesX6rLE6V3WPg9tsbL2fHNS7E4rDAim";
    "REWARD" ~> str "mrewardshQqD1ptkEBZGjPDF77L5uKJQmk";
    "BRIDGE_LTC" ~> str "mfbtcbridgeLtcXXXXXXXXXXXXXXVPqpoV";
    "BRIDGE_DOGE" ~> str "mfbtcbridgedogeXXXXXXXXXXXXXUXTr4m";
    "EXPLORER" ~> str "mrDH7rA2ZmGoh4Qx5guhDBJbZotUd6XyVH"].

Definition BTC_regtest_genesis : plain :=
  PObj [
    "$envOverrides" ~> PObj [
      "block" ~> PObj [
        "env" ~> str "XCHAIN_GENESIS_BLOCK";
        "type" ~> str "int";
        "default" ~> PInt 0];
      "ledgerHash" ~> PObj [
        "env" ~> str "XCHAIN_GENESIS_LEDGER_HASH";
        "type" ~> str "str";
        "default" ~> PNull];
      "dumpHash" ~> PObj [
        "env" ~> str "XCHAIN_GENESIS_DUMP_HASH";
        "type" ~> str "str";
        "default" ~> PNull];
      "airdropPaths" ~> PObj [
        "env" ~> str "GENESIS_AIRDROP_PATHS";
        "type" ~> str "csv";
        "default" ~> PArr []];
      "airdropHashes" ~> PObj [
        "env" ~> str "GENESIS_AIRDROP_HASHES";
        "type" ~> str "csv_sparse";
        "default" ~> PArr []];
      "airdropAmounts" ~> PObj [
        "env" ~> str "GENESIS_AIRDROP_AMOUNTS";
        "type" ~> str "csv_sparse";
        "default" ~> PArr []];
      "airdropSnapshotBlock" ~> PObj [
        "env" ~> str "GENESIS_AIRDROP_SNAPSHOT_BLOCK";
        "type" ~> str "str";
        "default" ~> PNull];
      "airdropSetHash" ~> PObj [
        "env" ~> str "GENESIS_AIRDROP_SET_HASH";
        "type" ~> str "str";
        "default" ~> PNull]]].

Definition BTC_regtest : plain :=
  PObj [
    "net" ~> BTC_regtest_net;
    "firstBlock" ~> PInt 0;
    "chainGenesisHash" ~> PNull;
    "addresses" ~> BTC_regtest_addresses;
    "genesis" ~> BTC_regtest_genesis].

Definition BTC_params : list (jstr * plain) :=
  [
    "legacyFees" ~> PObj [
      "ISSUANCE_FEE_TOKEN" ~> str "1.00000000";
      "ISSUANCE_FEE_SUBTOKEN" ~> str "0.50000000";
      "EXPIRATION_FEE_DEFAULT_DAYS" ~> PInt 90;
      "EXPIRATION_FEE_FREE_DAYS" ~> PInt 182;
      "EXPIRATION_FEE_PER_DAY" ~> str "0.00547945"];
    "GAS_PRICE" ~> str "0.00001";
    "UNIFIED_EXPIRATION_FEE_FREE_DAYS" ~> PInt 90;
    "FEE_PAYMENT_MODE" ~> str "xchain";
    "FEE_TOLERANCE_MIN" ~> str "0.95";
    "FEE_TOLERANCE_MAX" ~> str "1.10";
    "ORACLE_MAX_PRICE_AGE_SECONDS" ~> PInt 1800;
    "ORACLE_MAX_PRICE_AGE_HOURLY_SECONDS" ~> PInt 4500;
    "VALIDATOR_QUERY_LIMIT" ~> PInt 1000].

Definition BTC_GAS_SCHEDULE : plain :=
  PObj [
    "ISSUE" ~> PInt 100000;
    "ISSUE_SUBTOKEN" ~> PInt 50000;
    "EXPIRATION_PER_DAY" ~> PInt 550;
    "OWNERSHIP_ESCROW" ~> PInt 50000;
    "AIRDROP_PER_RECIPIENT" ~> PInt 100;
    "DIVIDEND_PER_RECIPIENT" ~> PInt 100;
    "SWEEP_BASE" ~> PInt 5000;
    "SWEEP_PER_ITEM" ~> PInt 100;
    "CALLBACK_BASE" ~> PInt 5000;
    "CALLBACK_PER_RECIPIENT" ~> PInt 100;
    "XBRIDGE_BASE" ~> PInt 5000;
    "LIST_SHARE" ~> PInt 100000;
    "LIST_SHARED_EDIT_BASE" ~> PInt 5000;
    "LIST_SHARED_EDIT_PER_ITEM" ~> PInt 100;
    "BET_FEED_PER_DAY" ~> PInt 550;
    "BET_PER_CREDIT" ~> PInt 100;
    "VM_EXECUTE_BASE" ~> PInt 1000;
    "VM_DEPLOY_BASE" ~> PInt 100000;
    "VM_DEPLOY_PER_BYTE" ~> PInt 10;
    "VM_STATE_READ" ~> PInt 100;
    "VM_STATE_WRITE" ~> PInt 200;
    "VM_STATE_DELETE" ~> PInt 100;
    "VM_ORACLE_READ" ~> PInt 100;
    "VM_CROSSCHAIN_READ" ~> PInt 100;
    "VM_ATTEST_REQUEST" ~> PInt 5000;
    "VM_XCALL_REQUEST" ~> PInt 2000;
    "VM_XCALL_CALLBACK" ~> PInt 20000;
    "VM_EMISSION" ~> PInt 500;
    "VM_COMPUTATION" ~> PInt 1;
    "VM_GUARD_GAS_CEILING" ~> PInt 200000].

Definition BTC_STAKING : plain :=
  PObj [
    "COOLDOWN_BLOCKS" ~> PInt 1000;
    "ACTIVATION_DELAY_BLOCKS" ~> PInt 6;
    "CAPABILITIES" ~> PObj [
      "price" ~> PObj [
        "MIN_STAKE" ~> str "1000.00000000";
        "SLASH" ~> PObj [
          "BOUNTY_BPS" ~> PInt 500;
          "BOUNTY_FLOOR" ~> str "50.00000000";
          "BOUNTY_CAP" ~> str "1000.00000000"]];
      "cross_chain" ~> PObj [
        "MIN_STAKE" ~> str "5000.00000000";
        "SLASH" ~> PObj [
          "BOUNTY_BPS" ~> PInt 500;
          "BOUNTY_FLOOR" ~> str "50.00000000";
          "BOUNTY_CAP" ~> str "1000.00000000"]];
      "oracle_publish" ~> PObj [
        "MIN_STAKE" ~> str "500.00000000";
        "SLASH" ~> PObj [
          "BOUNTY_BPS" ~> PInt 500;
          "BOUNTY_FLOOR" ~> str "50.00000000";
          "BOUNTY_CAP" ~> str "1000.00000000"]];
      "attestation" ~> PObj [
        "MIN_STAKE" ~> str "1000.00000000";
        "SLASH" ~> PObj [
          "BOUNTY_BPS" ~> PInt 500;
          "BOUNTY_FLOOR" ~> str "50.00000000";
          "BOUNTY_CAP" ~> str "1000.00000000"]];
      "full_node" ~> PObj ["MIN_STAKE" ~> str "2000.00000000"]]].

Definition BTC_FULLNODE : plain :=
  PObj [
    "CHALLENGE_INTERVAL_BLOCKS" ~> PInt 144;
    "CONFIRM_DEPTH" ~> PInt 100;
    "PROOF_WINDOW_BLOCKS" ~> PInt 300;
    "VERDICT_ACCEPT_WINDOW_BLOCKS" ~> PInt 24;
    "REWARD_SHARE" ~> str "0";
    "REWARD_PASS_WINDOW_BLOCKS" ~> PInt 1008;
    "MIN_PASS_RATE_BPS" ~> PInt 7000;
    "COLLECT_DEPTH_BLOCKS" ~> PInt 3;
    "GENESIS_VERIFIERS" ~> PArr [];
    "$regtestSidecar" ~> str "fullnode.regtest.json";
    "$regtestEnvOverrides" ~> PObj [
      "CHALLENGE_INTERVAL_BLOCKS" ~> PObj [
        "env" ~> str "FULLNODE_CHALLENGE_INTERVAL_BLOCKS";
        "type" ~> str "int"];
      "CONFIRM_DEPTH" ~> PObj ["env" ~> str "FULLNODE_CONFIRM_DEPTH"; "type" ~> str "int"];
      "PROOF_WINDOW_BLOCKS" ~> PObj [
        "env" ~> str "FULLNODE_PROOF_WINDOW_BLOCKS";
        "type" ~> str "int"];
      "VERDICT_ACCEPT_WINDOW_BLOCKS" ~> PObj [
        "env" ~> str "FULLNODE_VERDICT_ACCEPT_WINDOW_BLOCKS";
        "type" ~> str "int"];
      "REWARD_PASS_WINDOW_BLOCKS" ~> PObj [
        "env" ~> str "FULLNODE_REWARD_PASS_WINDOW_BLOCKS";
        "type" ~> str "int"];
      "MIN_PASS_RATE_BPS" ~> PObj ["env" ~> str "FULLNODE_MIN_PASS_RATE_BPS"; "type" ~> str "int"];
      "REWARD_SHARE" ~> PObj ["env" ~> str "FULLNODE_REWARD_SHARE"; "type" ~> str "str"];
      "COLLECT_DEPTH_BLOCKS" ~> PObj [
        "env" ~> str "FULLNODE_COLLECT_DEPTH_BLOCKS";
        "type" ~> str "int"];
      "GENESIS_VERIFIERS" ~> PObj [
        "env" ~> str "FULLNODE_GENESIS_VERIFIERS";
        "type" ~> str "csv_lower"]]].

Definition BTC : plain :=
  PObj (BTC_identity
    ++ ["networks" ~> PObj ["mainnet" ~> BTC_mainnet; "testnet" ~> BTC_testnet; "regtest" ~> BTC_regtest]]
    ++ BTC_params
    ++ [
        "GAS_SCHEDULE" ~> BTC_GAS_SCHEDULE;
        "STAKING" ~> BTC_STAKING;
        "CONFIG_SLASH" ~> PObj ["BOUNTY_BPS" ~> PInt 500; "BOUNTY_FLOOR" ~> str "50.00000000"; "BOUNTY_CAP" ~> str "1000.00000000"];
        "FULLNODE" ~> BTC_FULLNODE]).

(** ** Litecoin *)

Definition LTC_identity : list (jstr * plain) :=
  [
    "tick" ~> str "LTC";
    "fullName" ~> str "litecoin";
    "displayName" ~> str "Litecoin";
    "site" ~> str "https://litecoin.org";
    "decimals" ~> PInt 8;
    "confirmations" ~> PInt 12;
    "wireFormat" ~> str "mweb";
    "DISPLAY_ONLY_ADDRESS_ROLES" ~> PArr [str "EXPLORER"]].

Definition LTC_mainnet_net : plain :=
  PObj [
    "messagePrefix" ~> signed_message 25 "Litecoin Signed Message:";
    "bech32" ~> str "ltc";
    "bip32" ~> PObj ["public" ~> PInt 0x019da462; "private" ~> PInt 0x019d9cfe];
    "pubKeyHash" ~> PInt 0x30;
    "scriptHash" ~> PInt 0x32;
    "wif" ~> PInt 0xb0;
    "dustThreshold" ~> PInt 5460;
    "minStandardTxNonWitnessSize" ~> PInt 85;
    "singleOpReturnPolicy" ~> PBool true].

Definition LTC_mainnet_addresses : plain :=
  PObj [
    "BURN" ~> str "LXChainBurnAddressXXXXXXXXXXSkrYkJ";
    "GAS" ~> str "LXChainCN6yjHVqqS9tYzYVYZ8CCZcSx72";
    "DONATE1" ~> str "Ldonate18tNZcVThKm5MX33EjvhaanJ6Mg";
    "DONATE2" ~> str "Ldonate2io846q2e7q8dUArh3TNnaq9ENb";
    "FEE_DESTINATION" ~> str "Lfees7tszAx5Gqam2fuqf6biaX3LXafM4H";
    "REWARD" ~> str "XXXXXXXXXXXXXXXXXXXXXXXXXXXXXXXXXX";
    "BRIDGE_BTC" ~> str "LKLtcbridgebtcXXXXXXXXXXXXXXXA61Gk";
    "BRIDGE_DOGE" ~> str "LKLtcbridgedogeXXXXXXXXXXXXXX8Aknx";
    "EXPLORER" ~> str "Ldonate3FfyqbYQAYxo3qjFLcu28oUdAfn"].

Definition LTC_mainnet_genesis : plain :=
  PObj [
    "block" ~> PInt 0;
    "ledgerHash" ~> PNull;
    "airdropPaths" ~> PArr [];
    "airdropHashes" ~> PArr [];
    "airdropAmounts" ~> PArr [];
    "airdropSnapshotBlock" ~> PNull;
    "airdropSetHash" ~> PNull].

Definition LTC_mainnet : plain :=
  PObj [
    "net" ~> LTC_mainnet_net;
    "firstBlock" ~> PInt 3120000;
    "chainGenesisHash" ~> PNull;
    "addresses" ~> LTC_mainnet_addresses;
    "genesis" ~> LTC_mainnet_genesis].

Definition LTC_testnet_net : plain :=
  PObj [
    "messagePrefix" ~> signed_message 25 "Litecoin Signed Message:";
    "bech32" ~> str "tltc";
    "bip32" ~> PObj ["public" ~> PInt 0x0436f6e1; "private" ~> PInt 0x0436ef7d];
    "pubKeyHash" ~> PInt 0x6f;
    "scriptHash" ~> PInt 0xc4;
    "wif" ~> PInt 0xef;
    "dustThreshold" ~> PInt 5460;
    "minStandardTxNonWitnessSize" ~> PInt 85;
    "singleOpReturnPolicy" ~> PBool true].

Definition LTC_testnet_addresses : plain :=
  PObj [
    "BURN" ~> str "mxchainburnaddressXXXXXXXXXXa8EAfp";
    "GAS" ~> str "mgashLN9oSvj2CUJYKWdNxh6VkamPg1Ges";
    "DONATE1" ~> str "mybp5CceJvVV5tNCCiF7oBiZWko2fNkmnT";
    "DONATE2" ~> str "muKEjejjXQvLY7Lp7Ecpn29gM2TCb5BLTF";
    "FEE_DESTINATION" ~> str "mfeeskqGYw3wXYqMZFnUxBwGposEvjziRW";
    "REWARD" ~> str "XXXXXXXXXXXXXXXXXXXXXXXXXXXXXXXXXX";
    "BRIDGE_BTC" ~> str "mgLtcbridgebtcXXXXXXXXXXXXXXYpo2Bo";
    "BRIDGE_DOGE" ~> str "mgLtcbridgedogeXXXXXXXXXXXXXZBQunc";
    "EXPLORER" ~> str "mzCXcxcECbY5aNSXsfWjzKQN1YwoefEcG8"].

Definition LTC_testnet_genesis : plain :=
  PObj [
    "block" ~> PInt 0;
    "ledgerHash" ~> PNull;
    "airdropPaths" ~> PArr [];
    "airdropHashes" ~> PArr [];
    "airdropAmounts" ~> PArr [];
    "airdropSnapshotBlock" ~> PNull;
    "airdropSetHash" ~> PNull].

Definition LTC_testnet : plain :=
  PObj [
    "net" ~> LTC_testnet_net;
    "firstBlock" ~> PInt 4862500;
    "chainGenesisHash" ~> PNull;
    "addresses" ~> LTC_testnet_addresses;
    "genesis" ~> LTC_testnet_genesis].

Definition LTC_regtest_net : plain :=
  PObj [
    "messagePrefix" ~> signed_message 25 "Litecoin Signed Message:";
    "bech32" ~> str "rltc";
    "bip32" ~> PObj ["public" ~> PInt 0x0436f6e1; "private" ~> PInt 0x0436ef7d];
    "pubKeyHash" ~> PInt 0x6f;
    "scriptHash" ~> PInt 0xc4;
    "wif" ~> PInt 0xef;
    "dustThreshold" ~> PInt 5460;
    "minStandardTxNonWitnessSize" ~> PInt 85;
    "singleOpReturnPolicy" ~> PBool true].

Definition LTC_regtest_addresses : plain :=
  PObj [
    "BURN" ~> str "mxchainburnaddressXXXXXXXXXXa8EAfp";
    "GAS" ~> str "mgas5QYE38Bg34hwEjFKaE7Gs536FARue4";
    "DONATE1" ~> str "mgNY2ZXbnNEkRT5ZRF8yGamivrSX2QH97h";
    "DONATE2" ~> str "n2DLJPppXUi8jC6fLiSkthZi2sc9UKiZHd";
    "FEE_DESTINATION" ~> str "mfeesJdVLx23zhtsCveA8EEfmHX7qSV2Ls";
    "REWARD" ~> str "XXXXXXXXXXXXXXXXXXXXXXXXXXXXXXXXXX";
    "BRIDGE_BTC" ~> str "mgLtcbridgebtcXXXXXXXXXXXXXXYpo2Bo";
    "BRIDGE_DOGE" ~> str "mgLtcbridgedogeXXXXXXXXXXXXXZBQunc";
    "EXPLORER" ~> str "myL7sZGPEG3LhFXn7RFCZ321r8bxgmgDBz"].

Definition LTC_regtest_genesis : plain :=
  PObj [
    "$envOverrides" ~> PObj [
      "block" ~> PObj [
        "env" ~> str "XCHAIN_GENESIS_BLOCK";
        "type" ~> str "int";
        "default" ~> PInt 0];
      "ledgerHash" ~> PObj [
        "env" ~> str "XCHAIN_GENESIS_LEDGER_HASH";
        "type" ~> str "str";
        "default" ~> PNull];
      "airdropPaths" ~> PObj [
        "env" ~> str "GENESIS_AIRDROP_PATHS";
        "type" ~> str "csv";
        "default" ~> PArr []];
      "airdropHashes" ~> PObj [
        "env" ~> str "GENESIS_AIRDROP_HASHES";
        "type" ~> str "csv_sparse";
        "default" ~> PArr []];
      "airdropAmounts" ~> PObj [
        "env" ~> str "GENESIS_AIRDROP_AMOUNTS";
        "type" ~> str "csv_sparse";
        "default" ~> PArr []];
      "airdropSnapshotBlock" ~> PObj [
        "env" ~> str "GENESIS_AIRDROP_SNAPSHOT_BLOCK";
        "type" ~> str "str";
        "default" ~> PNull];
      "airdropSetHash" ~> PObj [
        "env" ~> str "GENESIS_AIRDROP_SET_HASH";
        "type" ~> str "str";
        "default" ~> PNull]]].

Definition LTC_regtest : plain :=
  PObj [
    "net" ~> LTC_regtest_net;
    "firstBlock" ~> PInt 0;
    "chainGenesisHash" ~> PNull;
    "addresses" ~> LTC_regtest_addresses;
    "genesis" ~> LTC_regtest_genesis].

Definition LTC_params : list (jstr * plain) :=
  [
    "legacyFees" ~> PObj [
      "ISSUANCE_FEE_TOKEN" ~> str "0.50000000";
      "ISSUANCE_FEE_SUBTOKEN" ~> str "0.25000000";
      "EXPIRATION_FEE_DEFAULT_DAYS" ~> PInt 90;
      "EXPIRATION_FEE_FREE_DAYS" ~> PInt 182;
      "EXPIRATION_FEE_PER_DAY" ~> str "0.00273973"];
    "GAS_PRICE" ~> str "0.00001";
    "UNIFIED_EXPIRATION_FEE_FREE_DAYS" ~> PInt 90;
    "FEE_PAYMENT_MODE" ~> str "native";
    "FEE_TOLERANCE_MIN" ~> str "0.95";
    "FEE_TOLERANCE_MAX" ~> str "1.10";
    "ORACLE_MAX_PRICE_AGE_SECONDS" ~> PInt 1800;
    "ORACLE_MAX_PRICE_AGE_HOURLY_SECONDS" ~> PInt 4500;
    "VALIDATOR_QUERY_LIMIT" ~> PInt 1000].

Definition LTC_GAS_SCHEDULE : plain :=
  PObj [
    "ISSUE" ~> PInt 100000;
    "ISSUE_SUBTOKEN" ~> PInt 50000;
    "EXPIRATION_PER_DAY" ~> PInt 550;
    "OWNERSHIP_ESCROW" ~> PInt 50000;
    "AIRDROP_PER_RECIPIENT" ~> PInt 100;
    "DIVIDEND_PER_RECIPIENT" ~> PInt 100;
    "SWEEP_BASE" ~> PInt 5000;
    "SWEEP_PER_ITEM" ~> PInt 100;
    "CALLBACK_BASE" ~> PInt 5000;
    "CALLBACK_PER_RECIPIENT" ~> PInt 100;
    "XBRIDGE_BASE" ~> PInt 5000;
    "LIST_SHARE" ~> PInt 100000;
    "LIST_SHARED_EDIT_BASE" ~> PInt 5000;
    "LIST_SHARED_EDIT_PER_ITEM" ~> PInt 100;
    "BET_FEED_PER_DAY" ~> PInt 550;
    "BET_PER_CREDIT" ~> PInt 100;
    "VM_EXECUTE_BASE" ~> PInt 1000;
    "VM_DEPLOY_BASE" ~> PInt 100000;
    "VM_DEPLOY_PER_BYTE" ~> PInt 10;
    "VM_STATE_READ" ~> PInt 100;
    "VM_STATE_WRITE" ~> PInt 200;
    "VM_STATE_DELETE" ~> PInt 100;
    "VM_ORACLE_READ" ~> PInt 100;
    "VM_CROSSCHAIN_READ" ~> PInt 100;
    "VM_ATTEST_REQUEST" ~> PInt 5000;
    "VM_XCALL_REQUEST" ~> PInt 2000;
    "VM_XCALL_CALLBACK" ~> PInt 20000;
    "VM_EMISSION" ~> PInt 500;
    "VM_COMPUTATION" ~> PInt 1;
    "VM_GUARD_GAS_CEILING" ~> PInt 200000].

Definition LTC_STAKING : plain :=
  PObj [
    "COOLDOWN_BLOCKS" ~> PInt 4032;
    "ACTIVATION_DELAY_BLOCKS" ~> PInt 24;
    "CAPABILITIES" ~> PObj []].

Definition LTC : plain :=
  PObj (LTC_identity
    ++ ["networks" ~> PObj ["mainnet" ~> LTC_mainnet; "testnet" ~> LTC_testnet; "regtest" ~> LTC_regtest]]
    ++ LTC_params
    ++ [
        "GAS_SCHEDULE" ~> LTC_GAS_SCHEDULE;
        "STAKING" ~> LTC_STAKING]).

(** ** Dogecoin *)

Definition DOGE_identity : list (jstr * plain) :=
  [
    "tick" ~> str "DOGE";
    "fullName" ~> str "dogecoin";
    "displayName" ~> str "Dogecoin";
    "site" ~> str "https://dogecoin.com";
    "decimals" ~> PInt 8;
    "confirmations" ~> PInt 60;
    "wireFormat" ~> str "auxpow";
    "DISPLAY_ONLY_ADDRESS_ROLES" ~> PArr [str "EXPLORER"]].

Definition DOGE_mainnet_net : plain :=
  PObj [
    "messagePrefix" ~> signed_message 25 "Dogecoin Signed Message:";
    "bip32" ~> PObj ["public" ~> PInt 0x02facafd; "private" ~> PInt 0x02fac398];
    "pubKeyHash" ~> PInt 0x1e;
    "scriptHash" ~> PInt 0x16;
    "wif" ~> PInt 0x9e;
    "dustThreshold" ~> PInt 100000;
    "supportsSegwit" ~> PBool false;
    "singleOpReturnPolicy" ~> PBool true].

Definition DOGE_mainnet_addresses : plain :=
  PObj [
    "BURN" ~> str "DChainBurnAddressXXXXXXXXXXXawc9pt";
    "GAS" ~> str "DGasfpttCnTijuuoAdiJ9sXJjG7vQ5pMkW";
    "DONATE1" ~> str "DDonate1RBcwGnCRNnVtwuCmQyWW1Gn25f";
    "DONATE2" ~> str "DDonate2o3Sg4phybp92oFpkmv8S9ZhGSV";
    "FEE_DESTINATION" ~> str "DFeesjvoMoVqd9UDuwDSAxzHMF5xZFgeG9";
    "REWARD" ~> str "XXXXXXXXXXXXXXXXXXXXXXXXXXXXXXXXXX";
    "BRIDGE_BTC" ~> str "D5dogebridgebtcXXXXXXXXXXXXXVAFQt9";
    "BRIDGE_LTC" ~> str "D5dogebridgeLtcXXXXXXXXXXXXXUVFLyn";
    "EXPLORER" ~> str "DDonate3FCoUgi1bxW5r9c2p75uKTLw9qE"].

Definition DOGE_mainnet_genesis : plain :=
  PObj [
    "block" ~> PInt 6240000;
    "ledgerHash" ~> str "888fc0be89d4ac58dff24ef5b02c8ccfb947cef9c3d4bc3b28db2202e68da5df";
    "dumpHash" ~> str "9aae4cdf2bc14de119e089c267d442aec4671e01f6139aff486460798bb96a92";
    "airdropPaths" ~> PArr [];
    "airdropHashes" ~> PArr [];
    "airdropAmounts" ~> PArr [];
    "airdropSnapshotBlock" ~> PNull;
    "airdropSetHash" ~> PNull].

Definition DOGE_mainnet : plain :=
  PObj [
    "net" ~> DOGE_mainnet_net;
    "firstBlock" ~> PInt 6240000;
    "chainGenesisHash" ~> PNull;
    "addresses" ~> DOGE_mainnet_addresses;
    "genesis" ~> DOGE_mainnet_genesis].

Definition DOGE_testnet_net : plain :=
  PObj [
    "messagePrefix" ~> signed_message 25 "Dogecoin Signed Message:";
    "bip32" ~> PObj ["public" ~> PInt 0x0432a9a8; "private" ~> PInt 0x0432a243];
    "pubKeyHash" ~> PInt 0x71;
    "scriptHash" ~> PInt 0xc4;
    "wif" ~> PInt 0xf1;
    "dustThreshold" ~> PInt 100000;
    "supportsSegwit" ~> PBool false;
    "singleOpReturnPolicy" ~> PBool true].

Definition DOGE_testnet_addresses : plain :=
  PObj [
    "BURN" ~> str "nchainburnaddressXXXXXXXXXXXYKgF7W";
    "GAS" ~> str "ngasn6zHFzJ72zpk3DBKmXhD2XtszujSDW";
    "DONATE1" ~> str "ndonate1dE87UXUFf4gjyhPg7hfQRJXVXr";
    "DONATE2" ~> str "ndonate2wev8vKDgvd1DHhtJtvkRbn2usJ";
    "FEE_DESTINATION" ~> str "nfeesoodkv5UTFXcDeKcUU95QHFiK2Ggo7";
    "REWARD" ~> str "XXXXXXXXXXXXXXXXXXXXXXXXXXXXXXXXXX";
    "BRIDGE_BTC" ~> str "nUdogebridgebtcXXXXXXXXXXXXXWUG2kx";
    "BRIDGE_LTC" ~> str "nUdogebridgeLtcXXXXXXXXXXXXXTsEz6W";
    "EXPLORER" ~> str "ndonate3xHD56SnmmSxbjX7UMSPfN7XmVA"].

Definition DOGE_testnet_genesis : plain :=
  PObj [
    "block" ~> PInt 0;
    "ledgerHash" ~> PNull;
    "dumpHash" ~> PNull;
    "airdropPaths" ~> PArr [];
    "airdropHashes" ~> PArr [];
    "airdropAmounts" ~> PArr [];
    "airdropSnapshotBlock" ~> PNull;
    "airdropSetHash" ~> PNull].

Definition DOGE_testnet : plain :=
  PObj [
    "net" ~> DOGE_testnet_net;
    "firstBlock" ~> PInt 67847500;
    "chainGenesisHash" ~> PNull;
    "addresses" ~> DOGE_testnet_addresses;
    "genesis" ~> DOGE_testnet_genesis].

Definition DOGE_regtest_net : plain :=
  PObj [
    "messagePrefix" ~> signed_message 25 "Dogecoin Signed Message:";
    "bip32" ~> PObj ["public" ~> PInt 0x043587cf; "private" ~> PInt 0x04358394];
    "pubKeyHash" ~> PInt 0x6f;
    "scriptHash" ~> PInt 0xc4;
    "wif" ~> PInt 0xef;
    "dustThreshold" ~> PInt 100000;
    "supportsSegwit" ~> PBool false;
    "singleOpReturnPolicy" ~> PBool true].

Definition DOGE_regtest_addresses : plain :=
  PObj [
    "BURN" ~> str "mvs8WdppEhzQLxfcYwrr1eoKA2nUFi55ff";
    "GAS" ~> str "mgasDTdKu5DsbW97qSRnE8raAuYpKMfmhg";
    "DONATE1" ~> str "mzdg8wGxgP3Jk45FuZPspumCL3Ruup37ob";
    "DONATE2" ~> str "mmXU8RU7q3BUsyT66rtw1H6P7B2ZZd9c5Y";
    "FEE_DESTINATION" ~> str "mfees5pa2HwNBonk5vG23aDWkN9fuDJib4";
    "REWARD" ~> str "XXXXXXXXXXXXXXXXXXXXXXXXXXXXXXXXXX";
    "BRIDGE_BTC" ~> str "mfdogebridgebtcXXXXXXXXXXXXXZ3agHN";
    "BRIDGE_LTC" ~> str "mfdogebridgeLtcXXXXXXXXXXXXXXb2E4n";
    "EXPLORER" ~> str "n1AvTJLLSA1NHamHd5KFj9mRn6BEcwnVbf"].

Definition DOGE_regtest_genesis : plain :=
  PObj [
    "$envOverrides" ~> PObj [
      "block" ~> PObj [
        "env" ~> str "XCHAIN_GENESIS_BLOCK";
        "type" ~> str "int";
        "default" ~> PInt 0];
      "ledgerHash" ~> PObj [
        "env" ~> str "XCHAIN_GENESIS_LEDGER_HASH";
        "type" ~> str "str";
        "default" ~> PNull];
      "dumpHash" ~> PObj [
        "env" ~> str "XCHAIN_GENESIS_DUMP_HASH";
        "type" ~> str "str";
        "default" ~> PNull];
      "airdropPaths" ~> PObj [
        "env" ~> str "GENESIS_AIRDROP_PATHS";
        "type" ~> str "csv";
        "default" ~> PArr []];
      "airdropHashes" ~> PObj [
        "env" ~> str "GENESIS_AIRDROP_HASHES";
        "type" ~> str "csv_sparse";
        "default" ~> PArr []];
      "airdropAmounts" ~> PObj [
        "env" ~> str "GENESIS_AIRDROP_AMOUNTS";
        "type" ~> str "csv_sparse";
        "default" ~> PArr []];
      "airdropSnapshotBlock" ~> PObj [
        "env" ~> str "GENESIS_AIRDROP_SNAPSHOT_BLOCK";
        "type" ~> str "str";
        "default" ~> PNull];
      "airdropSetHash" ~> PObj [
        "env" ~> str "GENESIS_AIRDROP_SET_HASH";
        "type" ~> str "str";
        "default" ~> PNull]]].

Definition DOGE_regtest : plain :=
  PObj [
    "net" ~> DOGE_regtest_net;
    "firstBlock" ~> PInt 0;
    "chainGenesisHash" ~> PNull;
    "addresses" ~> DOGE_regtest_addresses;
    "genesis" ~> DOGE_regtest_genesis].

Definition DOGE_params : list (jstr * plain) :=
  [
    "legacyFees" ~> PObj [
      "ISSUANCE_FEE_TOKEN" ~> str "0.25000000";
      "ISSUANCE_FEE_SUBTOKEN" ~> str "0.10000000";
      "EXPIRATION_FEE_DEFAULT_DAYS" ~> PInt 90;
      "EXPIRATION_FEE_FREE_DAYS" ~> PInt 182;
      "EXPIRATION_FEE_PER_DAY" ~> str "0.00136986"];
    "GAS_PRICE" ~> str "0.00001";
    "UNIFIED_EXPIRATION_FEE_FREE_DAYS" ~> PInt 90;
    "FEE_PAYMENT_MODE" ~> str "native";
    "FEE_TOLERANCE_MIN" ~> str "0.95";
    "FEE_TOLERANCE_MAX" ~> str "1.10";
    "ORACLE_MAX_PRICE_AGE_SECONDS" ~> PInt 1800;
    "ORACLE_MAX_PRICE_AGE_HOURLY_SECONDS" ~> PInt 4500;
    "VALIDATOR_QUERY_LIMIT" ~> PInt 1000].

Definition DOGE_GAS_SCHEDULE : plain :=
  PObj [
    "ISSUE" ~> PInt 100000;
    "ISSUE_SUBTOKEN" ~> PInt 50000;
    "EXPIRATION_PER_DAY" ~> PInt 550;
    "OWNERSHIP_ESCROW" ~> PInt 50000;
    "AIRDROP_PER_RECIPIENT" ~> PInt 100;
    "DIVIDEND_PER_RECIPIENT" ~> PInt 100;
    "SWEEP_BASE" ~> PInt 5000;
    "SWEEP_PER_ITEM" ~> PInt 100;
    "CALLBACK_BASE" ~> PInt 5000;
    "CALLBACK_PER_RECIPIENT" ~> PInt 100;
    "XBRIDGE_BASE" ~> PInt 5000;
    "LIST_SHARE" ~> PInt 100000;
    "LIST_SHARED_EDIT_BASE" ~> PInt 5000;
    "LIST_SHARED_EDIT_PER_ITEM" ~> PInt 100;
    "BET_FEED_PER_DAY" ~> PInt 550;
    "BET_PER_CREDIT" ~> PInt 100;
    "VM_EXECUTE_BASE" ~> PInt 1000;
    "VM_DEPLOY_BASE" ~> PInt 100000;
    "VM_DEPLOY_PER_BYTE" ~> PInt 10;
    "VM_STATE_READ" ~> PInt 100;
    "VM_STATE_WRITE" ~> PInt 200;
    "VM_STATE_DELETE" ~> PInt 100;
    "VM_ORACLE_READ" ~> PInt 100;
    "VM_CROSSCHAIN_READ" ~> PInt 100;
    "VM_ATTEST_REQUEST" ~> PInt 5000;
    "VM_XCALL_REQUEST" ~> PInt 2000;
    "VM_XCALL_CALLBACK" ~> PInt 20000;
    "VM_EMISSION" ~> PInt 500;
    "VM_COMPUTATION" ~> PInt 1;
    "VM_GUARD_GAS_CEILING" ~> PInt 200000].

Definition DOGE_STAKING : plain :=
  PObj [
    "COOLDOWN_BLOCKS" ~> PInt 10080;
    "ACTIVATION_DELAY_BLOCKS" ~> PInt 60;
    "CAPABILITIES" ~> PObj []].

Definition DOGE : plain :=
  PObj (DOGE_identity
    ++ ["networks" ~> PObj ["mainnet" ~> DOGE_mainnet; "testnet" ~> DOGE_testnet; "regtest" ~> DOGE_regtest]]
    ++ DOGE_params
    ++ [
        "GAS_SCHEDULE" ~> DOGE_GAS_SCHEDULE;
        "STAKING" ~> DOGE_STAKING]).

(** ** The pins *)

Definition CONSENSUS_CONFIG_PIN : plain :=
  PObj [
    "mainnet" ~> PNull;
    "testnet" ~> PObj [
      "BTC" ~> str "3e0083d555399e54eff2670a0ea5e8d76c8935d3e7423451c1221ae698386b5a";
      "LTC" ~> str "d9c315b36adf5ab8bd6831ccc59a2a01124df70ba9fc8141662ec682285251e8";
      "DOGE" ~> str "82c6bc814e3de4a1e023d008457b7186c5a6ac142c85be9bf0a18f2d5989fd72"];
    "regtest" ~> PObj [
      "BTC" ~> str "ad800ecb8d28448f9d39743bd3a28e6aac121d0e9add30743ee1dcbbf694af86";
      "LTC" ~> str "16dd43ca2299880704e076e5f7c262eae6b5e32823ad49c9748c33f014f44c36";
      "DOGE" ~> str "d7bd53f527d961f1cf0cfc7de725d61e625975f7086532976c777a04c08988f6"]].
