(* ===== verification/Coins.v ===== *)
(** * The coin registry

    src/src/coins/index.js over the objects of [CoinData].  A function that may throw
    answers [inl error]; a property whose value is undefined is left out of an object, since
    reading it gives undefined either way.  The one exception is the consensus subset, whose
    canonical text spells undefined out. *)
From S2P Require Import Prelude JsNum Sha256 Json CoinData.
#[local] Open Scope Z_scope.

Inductive coin_error :=
  | UnknownCoin (tick : jstr)
  | UnknownFullName (fullName : jstr)
  | UnknownNetwork (network : jstr)
  | NoNetwork (tick network : jstr)
  | PinMismatch (tick network : jstr) (expected : plain) (actual : jstr)
  | NoWireFormat (coin network : jstr)
  | TypeError
  | SyntaxError.

Definition Res (A : Type) : Type := coin_error + A.
#[export] Instance Res_ret : MRet Res := fun A a => inr a.
#[export] Instance Res_bind : MBind Res := fun A B k m =>
  match m with inl e => inl e | inr a => k a end.

(** ** Values and properties *)

Definition truthy (v : option plain) : bool :=
  match v with
  | None | Some PNull => false
  | Some (PBool b) => b
  | Some (PInt z) => negb (z =? 0)
  | Some (PStr s) => negb (is_empty s)
  | Some (PArr _) | Some (PObj _) => true
  end.

(** [String(v)] *)
Fixpoint text_of (v : plain) : jstr :=
  match v with
  | PNull => js "null"
  | PBool b => if b then js "true" else js "false"
  | PInt z => dec z
  | PStr s => s
  | PArr l => join_with COMMA (map (fun w => match w with PNull => [] | _ => text_of w end) l)
  | PObj _ => js "[object Object]"
  end.

Definition key_of (v : option plain) : jstr :=
  match v with Some v => text_of v | None => js "undefined" end.

Definition is_text (v : option plain) (s : jstr) : bool :=
  match v with Some (PStr t) => eqs t s | _ => false end.

(** The members every object inherits, none of which holds plain data. *)
Definition INHERITED : list jstr :=
  map js ["constructor"; "toString"; "toLocaleString"; "valueOf"; "hasOwnProperty"; "isPrototypeOf";
          "propertyIsEnumerable"; "__proto__"; "__defineGetter__"; "__defineSetter__";
          "__lookupGetter__"; "__lookupSetter__"]%string.

Definition inherited (k : jstr) : bool := existsb (eqs k) INHERITED.

(** [o[k]] of an object with these fields. *)
Definition own (fs : list (jstr * plain)) (k : jstr) : option plain :=
  match lookup_key k fs with
  | Some v => Some v
  | None => if inherited k then Some (PObj []) else None
  end.

Definition prop (o : option plain) (k : jstr) : Res (option plain) :=
  match o with
  | None | Some PNull => inl TypeError
  | Some (PObj fs) => inr (own fs k)
  | Some _ => inr None
  end.

Arguments prop o k%_string_scope.
Notation "o .[ k ]" := (prop o (js k)) (at level 1, left associativity, format "o .[ k ]") : coin_scope.
#[local] Open Scope coin_scope.

(** [Object.entries(o)]; the keys of an array or a string are its indices. *)
Definition entries (o : option plain) : Res (list (jstr * plain)) :=
  match o with
  | None | Some PNull => inl TypeError
  | Some (PObj fs) => inr fs
  | Some (PArr l) => inr (imap (fun i v => (dec_digits (Z.of_nat i), v)) l)
  | Some (PStr s) => inr (imap (fun i u => (dec_digits (Z.of_nat i), PStr [u])) s)
  | Some _ => inr []
  end.

(** [o[k] = v]: assigning __proto__ adds no property of the object's own. *)
Definition assign (fs : list (jstr * plain)) (k : jstr) (v : option plain) : list (jstr * plain) :=
  if eqs k (js "__proto__") then fs
  else match v with
       | Some v => define fs (k, v)
       | None => List.filter (fun kv => negb (eqs k kv.1)) fs
       end.

Definition assign_all (fs : list (jstr * plain)) (gs : list (jstr * plain)) : list (jstr * plain) :=
  foldl (fun fs kv => assign fs kv.1 (Some kv.2)) fs gs.

(** A literal object with these properties. *)
Definition literal (fs : list (jstr * option plain)) : list (jstr * plain) :=
  omap (fun kv => (fun v => (kv.1, v)) <$> kv.2) fs.

(** [clone] of a value that may be undefined, which is no JSON text. *)
Definition copy (v : option plain) : Res (option plain) :=
  match v with
  | None => inl SyntaxError
  | Some v => match clone v with Some w => inr (Some w) | None => inl SyntaxError end
  end.

Definition is_descriptor (k : jstr) : bool := match k with c :: _ => c =? 36 | [] => false end.

Definition stripDescriptors (obj : option plain) : Res (list (jstr * plain)) :=
  fs ← entries obj;
  inr (assign_all [] (List.filter (fun kv => negb (is_descriptor kv.1)) fs)).

Definition NETWORKS : list jstr := map js ["mainnet"; "testnet"; "regtest"]%string.
Definition REGTEST : jstr := js "regtest".

(** ** Environment overrides *)

Definition strings (l : list jstr) : plain := PArr (map PStr l).

Definition coerceEnv (raw : option jstr) (type : option plain) : option plain :=
  match raw with
  | None | Some [] => None
  | Some raw =>
      if is_text type (js "int") then PInt <$> integer_of (parse_int_str raw)
      else if is_text type (js "csv_lower") then
        Some (strings (nonblank (map (fun s => lower (trim s)) (split_on COMMA raw))))
      else if is_text type (js "csv") then Some (strings (nonblank (map trim (split_on COMMA raw))))
      else if is_text type (js "csv_sparse") then Some (strings (map trim (split_on COMMA raw)))
      else Some (PStr raw)
  end.

(** What the working directory holds at the path of a sidecar: no file, one that cannot be
    read or parsed, or a JSON value. *)
Inductive sidecar_file := Missing | Unreadable | Holds (v : plain).

(** The process: [process.env] and the files beside it. *)
Record host := Host {
  env : jstr -> option jstr;
  sidecar : jstr -> sidecar_file
}.

Section Env.
Variable h : host.

Definition env_value (desc : plain) : Res (option plain) :=
  name ← (Some desc).["env"];
  type ← (Some desc).["type"];
  inr (coerceEnv (env h (key_of name)) type).

Fixpoint genesis_fields (network : jstr) (fs out : list (jstr * plain)) : Res (list (jstr * plain)) :=
  match fs with
  | [] => inr out
  | (key, desc) :: fs =>
      v ← (if eqs network REGTEST then env_value desc else inr None);
      v ← match v with Some v => inr (Some v) | None => (Some desc).["default"] end;
      genesis_fields network fs (assign out key v)
  end.

Definition resolveGenesis (genesisBlock : option plain) (network : jstr) : Res (option plain) :=
  if negb (truthy genesisBlock) then inr None
  else
    overrides ← genesisBlock.["$envOverrides"];
    if truthy overrides then
      fs ← entries overrides; out ← genesis_fields network fs []; inr (Some (PObj out))
    else out ← stripDescriptors genesisBlock; inr (Some (PObj out)).

Definition lower_verifiers (out : list (jstr * plain)) : list (jstr * plain) :=
  match own out (js "GENESIS_VERIFIERS") with
  | Some (PArr l) =>
      assign out (js "GENESIS_VERIFIERS") (Some (strings (map (fun s => lower (text_of s)) l)))
  | _ => out
  end.

(** The sidecar's members over those of [out]; a value that is no path, a missing file and
    one that cannot be read leave [out] as it is. *)
Definition apply_sidecar (name : option plain) (out : list (jstr * plain)) : list (jstr * plain) :=
  match name with
  | Some (PStr (c :: s)) =>
      match sidecar h (c :: s) with
      | Holds j =>
          if truthy (Some j) then
            match entries (Some j) with inr fs => assign_all out fs | inl _ => out end
          else out
      | _ => out
      end
  | _ => out
  end.

Fixpoint apply_env (fs out : list (jstr * plain)) : Res (list (jstr * plain)) :=
  match fs with
  | [] => inr out
  | (key, desc) :: fs =>
      v ← env_value desc;
      apply_env fs (match v with Some _ => assign out key v | None => out end)
  end.

Definition resolveFullnode (fullnode : option plain) (network : jstr) : Res (option plain) :=
  if negb (truthy fullnode) then inr None
  else
    stripped ← stripDescriptors fullnode;
    let out := lower_verifiers stripped in
    if negb (eqs network REGTEST) then inr (Some (PObj out))
    else
      name ← fullnode.["$regtestSidecar"];
      let out := apply_sidecar name out in
      overrides ← fullnode.["$regtestEnvOverrides"];
      if truthy overrides then
        fs ← entries overrides; out ← apply_env fs out; inr (Some (PObj out))
      else inr (Some (PObj out)).

Definition fee_key (tick network : jstr) : jstr :=
  js "XCHAIN_FEE_DESTINATION_" ++ tick ++ js "_" ++ upper network.

Definition resolveFeeDestination (tick network : jstr) (defaultAddr : option plain) : option plain :=
  match env h (fee_key tick network) with
  | None | Some [] => defaultAddr
  | Some override => if eqs network REGTEST then Some (PStr override) else defaultAddr
  end.
End Env.

(** ** The registry

    [COIN_FILES] lists the coin files under their tickers, [CONSENSUS_CONFIG_PIN] is the
    export of consensus_pin.js. *)
Definition COIN_FILES : list (jstr * plain) := ["BTC" ~> BTC; "LTC" ~> LTC; "DOGE" ~> DOGE].

Section Registry.
Variable files : list (jstr * plain).
Variable pins : option plain.

Definition ALLOWED_COINS : list jstr := map fst files.

Definition COIN_FULL_NAME : list (jstr * option plain) :=
  map (fun f => (f.1, match f.2 with PObj fs => own fs (js "fullName") | _ => None end)) files.

Definition FULL_NAME_TO_TICK : list (jstr * plain) :=
  foldl (fun out f => assign out (key_of (match f.2 with PObj fs => own fs (js "fullName") | _ => None end))
                        (Some (PStr f.1))) [] files.

Definition pick (o : option plain) (names : list String.string) : Res (list (jstr * option plain)) :=
  mapM (fun k => v ← prop o (js k); inr (js k, v)) names.

Definition coin_network (coin : option plain) (tick network : jstr) : Res (option plain) :=
  nets ← coin.["networks"];
  net ← prop nets network;
  if truthy net then inr net else inl (NoNetwork tick network).

(** The addresses of a network with the fee destination resolved. *)
Definition resolved_addresses (h : host) (tick network : jstr) (netBlock : option plain) : Res (option plain) :=
  addresses ← netBlock.["addresses"] ≫= copy;
  bundled ← addresses.["FEE_DESTINATION"];
  inr (match addresses with
       | Some (PObj fs) =>
           Some (PObj (assign fs (js "FEE_DESTINATION") (resolveFeeDestination h tick network bundled)))
       | _ => addresses
       end).

(** [resolved], from the clone [src] of the coin and the block of the network. *)
Definition resolved_config (h : host) (tick network : jstr) (src netBlock : option plain) : Res plain :=
  addresses ← resolved_addresses h tick network netBlock;
  identity ← pick src ["tick"; "fullName"; "displayName"; "site"; "decimals"; "confirmations"; "wireFormat"]%string;
  net ← netBlock.["net"] ≫= copy;
  firstBlock ← netBlock.["firstBlock"];
  chainGenesisHash ← netBlock.["chainGenesisHash"];
  genesis ← netBlock.["genesis"] ≫= (fun g => resolveGenesis h g network);
  legacyFees ← src.["legacyFees"] ≫= copy;
  params ← pick src ["GAS_PRICE"; "UNIFIED_EXPIRATION_FEE_FREE_DAYS"; "FEE_PAYMENT_MODE";
                     "FEE_TOLERANCE_MIN"; "FEE_TOLERANCE_MAX"; "ORACLE_MAX_PRICE_AGE_SECONDS";
                     "ORACLE_MAX_PRICE_AGE_HOURLY_SECONDS"; "VALIDATOR_QUERY_LIMIT"]%string;
  GAS_SCHEDULE ← src.["GAS_SCHEDULE"] ≫= copy;
  STAKING ← src.["STAKING"] ≫= copy;
  CONFIG_SLASH ← src.["CONFIG_SLASH"] ≫= (fun s => if truthy s then copy s else inr None);
  FULLNODE ← src.["FULLNODE"] ≫= (fun f => resolveFullnode h f network);
  inr (PObj (literal (identity
    ++ ["network" ~> Some (PStr network); "net" ~> net; "firstBlock" ~> firstBlock;
        "chainGenesisHash" ~> Some (match chainGenesisHash with Some v => v | None => PNull end);
        "addresses" ~> addresses; "genesis" ~> genesis; "legacyFees" ~> legacyFees]
    ++ params
    ++ ["GAS_SCHEDULE" ~> GAS_SCHEDULE; "STAKING" ~> STAKING;
        "CONFIG_SLASH" ~> CONFIG_SLASH; "FULLNODE" ~> FULLNODE]))).

Definition getCoinConfig (h : host) (tick network : jstr) : Res plain :=
  let coin := own files tick in
  if negb (truthy coin) then inl (UnknownCoin tick)
  else if negb (existsb (eqs network) NETWORKS) then inl (UnknownNetwork network)
  else
    _ ← coin_network coin tick network;
    src ← copy coin;
    nets ← src.["networks"];
    netBlock ← prop nets network;
    resolved_config h tick network src netBlock.

Definition getCoinConfigByFullName (h : host) (fullName network : jstr) : Res plain :=
  let tick := own FULL_NAME_TO_TICK fullName in
  if truthy tick then getCoinConfig h (key_of tick) network else inl (UnknownFullName fullName).

(** ** The consensus subset and its hash *)

(** The members of [new Set(v)]: an array's elements or a string's characters. *)
Definition set_of (v : option plain) : Res (list plain) :=
  match v with
  | Some (PArr l) => inr l
  | Some (PStr s) => inr (map (fun u => PStr [u]) s)
  | _ => inl TypeError
  end.

Definition is_role (k : jstr) (v : plain) : bool := is_text (Some v) k.

Definition consensusSubset (tick network : jstr) : Res (list (jstr * option plain)) :=
  let coin := own files tick in
  if negb (truthy coin) then inl (UnknownCoin tick)
  else
    netBlock ← coin_network coin tick network;
    roles ← coin.["DISPLAY_ONLY_ADDRESS_ROLES"];
    displayRoles ← (if truthy roles then set_of roles else inr [PStr (js "EXPLORER")]);
    all ← netBlock.["addresses"] ≫= entries;
    let addresses := List.filter (fun kv => negb (existsb (is_role kv.1) displayRoles)) all in
    net ← netBlock.["net"];
    wireFormat ← coin.["wireFormat"];
    firstBlock ← netBlock.["firstBlock"];
    params ← pick coin ["legacyFees"; "GAS_PRICE"; "UNIFIED_EXPIRATION_FEE_FREE_DAYS";
                        "FEE_TOLERANCE_MIN"; "FEE_TOLERANCE_MAX"; "ORACLE_MAX_PRICE_AGE_SECONDS";
                        "ORACLE_MAX_PRICE_AGE_HOURLY_SECONDS"; "VALIDATOR_QUERY_LIMIT";
                        "GAS_SCHEDULE"; "STAKING"]%string;
    CONFIG_SLASH ← coin.["CONFIG_SLASH"];
    FULLNODE ← coin.["FULLNODE"];
    frozen ← (if truthy FULLNODE then stripDescriptors FULLNODE else inr []);
    inr (["net" ~> net; "wireFormat" ~> wireFormat; "firstBlock" ~> firstBlock;
          "addresses" ~> Some (PObj (assign_all [] addresses))]
         ++ params
         ++ (if truthy CONFIG_SLASH then ["CONFIG_SLASH" ~> CONFIG_SLASH] else [])
         ++ (if truthy FULLNODE then ["FULLNODE" ~> Some (PObj frozen)] else [])).

(** [canonicalJson] of an object whose fields may be undefined: [JSON.stringify(undefined)]
    is undefined, which the concatenation spells out. *)
Definition canonical_field (v : option plain) : jstr :=
  match v with Some v => canonicalJson v | None => js "undefined" end.

Definition canonical_subset (fs : list (jstr * option plain)) : jstr :=
  braces (map (fun kv => member kv.1 kv.2) (sort_keys (map (fun kv => (kv.1, canonical_field kv.2)) fs))).

Definition consensusHash (tick network : jstr) : Res jstr :=
  fs ← consensusSubset tick network; inr (sha256_hex (canonical_subset fs)).

Definition consensusHashes (network : jstr) : Res (list (jstr * jstr)) :=
  mapM (fun tick => hash ← consensusHash tick network; inr (tick, hash)) ALLOWED_COINS.

(** The loop over the coins; [pin] is the network's pin. *)
Fixpoint verify_coins (pin : option plain) (network : jstr) (ticks : list jstr) : Res unit :=
  match ticks with
  | [] => inr tt
  | tick :: ticks =>
      expected ← prop pin tick;
      _ ← match expected with
          | Some e =>
              if truthy expected then
                actual ← consensusHash tick network;
                if eqs actual (lower (text_of e)) then inr tt
                else inl (PinMismatch tick network e actual)
              else inr tt
          | None => inr tt
          end;
      verify_coins pin network ticks
  end.

Record pin_check := PinCheck { ok : bool; skipped : bool }.

Definition verifyConsensusPin (network : jstr) : Res pin_check :=
  pin ← (if truthy pins then prop pins network else inr None);
  match pin with
  | None | Some PNull => inr (PinCheck true true)
  | Some _ => _ ← verify_coins pin network ALLOWED_COINS; inr (PinCheck true false)
  end.

(** ** Confirmations *)

(** The coin file's depth is a number. *)
Definition default_confirmations (coin : plain) : num :=
  match coin with
  | PObj fs => match own fs (js "confirmations") with Some (PInt z) => numZ z | _ => NaN end
  | _ => NaN
  end.

Definition DEFAULT_CONFIRMATIONS : list (jstr * num) :=
  map (fun f => (f.1, default_confirmations f.2)) files.

Definition WIRE_FORMAT : list (jstr * option plain) :=
  map (fun f => (f.1, match f.2 with PObj fs => own fs (js "wireFormat") | _ => None end)) files.

(** [a || b] *)
Definition or_num (a b : num) : num := if falsy_num a then b else a.

Definition confirmation_key (tick : jstr) : jstr := js "XCHAIN_CONFIRMATIONS_" ++ tick.

Definition floored (network : jstr) : bool := eqs network (js "mainnet") || eqs network (js "testnet").

Definition resolve_depth (h : host) (cfg : list (jstr * plain)) (network tick : jstr) (def : num) : num :=
  let key := confirmation_key tick in
  let of_text (s : option jstr) := match s with Some s => parse_int_str s | None => NaN end in
  let val := or_num (or_num (of_text (env h key)) (parse_int_str (key_of (own cfg key)))) def in
  let val := if negb (isFinite val) || num_le val (numZ 0) then def else val in
  if floored network && num_lt val def then def else val.

Definition resolveConfirmations (h : host) (cfg : list (jstr * plain)) (network : jstr) : list (jstr * num) :=
  map (fun td => (td.1, resolve_depth h cfg network td.1 td.2)) DEFAULT_CONFIRMATIONS.
End Registry.
