(* ===== verification/CoinsFacts.v ===== *)
(** * Properties of the coin registry

    The shipped files carry the pinned hashes, a bundle that passes the pins has the pinned
    subset up to the order of keys (or exhibits a collision of SHA-256), what a federation
    network is served is what the pin covers whatever the environment holds, and
    confirmations stay at or above their floor. *)
From Stdlib Require Import QArith.QArith_base.
From S2P Require Import Prelude JsNum Wire Sha256 Json CoinData Coins.
#[local] Open Scope Z_scope.
#[local] Open Scope coin_scope.

(** The shipped coin files hash to the shipped pins: on testnet and on regtest
    verifyConsensusPin accepts every coin without skipping, and on mainnet, whose pin is
    null, it skips.  The hashes are computed: the canonical JSON of each subset is run
    through SHA-256. *)
Theorem shipped_pins_hold network :
  network ∈ NETWORKS ->
  verifyConsensusPin COIN_FILES (Some CONSENSUS_CONFIG_PIN) network
  = inr (PinCheck true (eqs network (js "mainnet"))).
Proof.
  unfold NETWORKS. cbn [map]. rewrite !elem_of_cons, elem_of_nil.
  intros [-> | [-> | [-> | []]]]; by vm_compute.
Qed.

Lemma shipped_pins_hold_witness :
  verifyConsensusPin COIN_FILES (Some CONSENSUS_CONFIG_PIN) (js "testnet") = inr (PinCheck true false).
Proof. refine (shipped_pins_hold (js "testnet") _). right. left. Defined.

(** ** Objects *)

Definition good (v : plain) : Prop := well_formed v = true /\ safe_ints v = true.

Lemma lookup_key_in {V} k v (fs : list (jstr * V)) : lookup_key k fs = Some v -> (k, v) ∈ fs.
Proof.
  induction fs as [|[k' v'] fs IH]; cbn; [done|]. destruct (eqs k k') eqn:E; [|by right; auto].
  b2p. subst. intros [= ->]. left.
Qed.

Lemma in_lookup_key {V} k v (fs : list (jstr * V)) :
  NoDup (map fst fs) -> (k, v) ∈ fs -> lookup_key k fs = Some v.
Proof.
  induction fs as [|[k' v'] fs IH]; cbn; [by intros _ ?%not_elem_of_nil|].
  intros [Hk Hnd]%NoDup_cons [[= <- <-]|Hin]%elem_of_cons; [by rewrite eqs_refl|].
  destruct (eqs k k') eqn:E; [|by apply IH]. b2p. subst. destruct Hk.
  by apply (list_elem_of_fmap_2 fst) in Hin.
Qed.

Lemma good_obj fs : good (PObj fs) -> Forall (fun kv => good kv.2) fs.
Proof.
  intros [Hw Hs]. apply well_formed_members in Hw as [Hw _]. apply Forall_forall. intros kv Hin.
  split; [by apply (proj1 (Forall_forall _ _) Hw)|].
  cbn in Hs. by apply (proj1 (forallb_forall _ _) Hs), list_elem_of_In.
Qed.

Lemma good_own fs k v : good (PObj fs) -> own fs k = Some v -> good v.
Proof.
  intros Hg. unfold own. destruct (lookup_key k fs) as [w|] eqn:E.
  - intros [= <-]. apply lookup_key_in in E. apply good_obj in Hg.
    by apply (proj1 (Forall_forall _ _) Hg (k, w)).
  - destruct (inherited k); [|done]. by intros [= <-].
Qed.

Lemma copy_good v : good v -> copy (Some v) = inr (Some v).
Proof. intros [Hw Hs]. unfold copy. by rewrite clone_id. Qed.

Lemma bind_inr {A B} (m : Res A) (k : A -> Res B) b :
  m ≫= k = inr b -> exists a, m = inr a /\ k a = inr b.
Proof. destruct m as [e|a]; [done|]. by exists a. Qed.

Lemma answer_inj {A} (a b : A) : inr a = (inr b : Res A) -> a = b.
Proof. by intros [= ->]. Qed.

(** Open the steps of a computation that answered. *)
Ltac res_inv :=
  repeat match goal with
  | H : (_ ≫= _) = inr _ |- _ => apply bind_inr in H as (?&?&H)
  | H : inr _ = inr _ |- _ => apply answer_inj in H; subst
  | H : inl _ = inr _ |- _ => discriminate H
  end.

Definition chosen (fs : list (jstr * plain)) (names : list String.string) : list (jstr * option plain) :=
  map (fun k => (js k, own fs (js k))) names.

Lemma pick_obj fs names : pick (Some (PObj fs)) names = inr (chosen fs names).
Proof.
  unfold pick, chosen. induction names as [|k names IH]; [done|]. cbn [map mapM].
  cbn [prop mbind Res_bind]. change (mapM _ names) with
    (mapM (fun k => v ← prop (Some (PObj fs)) (js k); inr (js k, v)) names). by rewrite IH.
Qed.

Lemma lookup_literal k (l : list (jstr * option plain)) :
  NoDup (map fst l) -> lookup_key k (literal l) = mjoin (lookup_key k l).
Proof.
  induction l as [|[k' [v|]] l IH]; cbn; [done| |]; intros [Hk Hnd]%NoDup_cons.
  - destruct (eqs k k'); [done|by apply IH].
  - destruct (eqs k k') eqn:E; [|by apply IH]. b2p. subst. cbn.
    fold (literal l). rewrite IH by done. clear -Hk. induction l as [|[k v] l IH]; [done|].
    cbn in *. apply not_elem_of_cons in Hk as [Hk ?]. rewrite (proj2 (eqs_false _ _)) by done. auto.
Qed.

Lemma put_index_in {V} k (v : V) fs kv : kv ∈ put_index k v fs -> kv = (k, v) \/ kv ∈ fs.
Proof.
  induction fs as [|[k' v'] fs IH]; cbn; [rewrite list_elem_of_singleton; auto|].
  case_match; rewrite !elem_of_cons; [|tauto]. intros [->|[->|Hin]%IH]; auto.
Qed.

Lemma assign_in fs k v kv : kv ∈ assign fs k (Some v) -> kv = (k, v) \/ kv ∈ fs.
Proof.
  unfold assign, define. destruct (eqs k (js "__proto__")); [auto|]. destruct (has_key k fs).
  - intros (kv' & -> & Hin)%list_elem_of_fmap. destruct (eqs k kv'.1); auto.
  - destruct (is_index k); [apply put_index_in|]. rewrite elem_of_app, list_elem_of_singleton. tauto.
Qed.

Lemma assign_all_in fs gs kv : kv ∈ assign_all fs gs -> kv ∈ fs \/ kv ∈ gs.
Proof.
  unfold assign_all. revert fs. induction gs as [|[k v] gs IH]; intros fs; cbn; [auto|].
  intros [H|H]%IH; [|right; by right]. apply assign_in in H as [->|]; [right; left|auto].
Qed.

(** Writing back what is read changes nothing. *)
Lemma assign_self fs k :
  NoDup (map fst fs) -> inherited k = false -> assign fs k (own fs k) = fs.
Proof.
  intros Hnd Hk. unfold assign, own. rewrite Hk.
  destruct (eqs k (js "__proto__")); [done|].
  destruct (lookup_key k fs) as [v|] eqn:E.
  - unfold define. apply lookup_key_in in E as Hin.
    rewrite (proj2 (has_key_spec k fs)) by by apply (list_elem_of_fmap_2 fst) in Hin.
    rewrite <- (map_id fs) at 2. apply map_ext_Forall, Forall_forall. intros [k' v'] Hin'. cbn.
    destruct (eqs k k') eqn:Ek; [|done]. b2p. subst.
    apply (in_lookup_key _ _ _ Hnd) in Hin'. congruence.
  - apply filter_all, Forall_forall. intros [k' v'] Hin. cbn.
    destruct (eqs k k') eqn:Ek; [|done]. b2p. subst.
    apply (in_lookup_key _ _ _ Hnd) in Hin. congruence.
Qed.

(** ** A resolved configuration *)

Lemma prop_obj o k v : prop o k = inr (Some v) -> exists fs, o = Some (PObj fs) /\ own fs k = Some v.
Proof. destruct o as [[]|]; cbn; try done. intros [= E]. by eexists. Qed.

Lemma prop_prop o k k' v :
  (o ← prop o k; prop o k') = inr v -> exists fs o', o = Some (PObj fs) /\ own fs k = o' /\ prop o' k' = inr v.
Proof.
  intros (o' & Ho & Hv)%bind_inr. destruct o' as [o'|]; [|done].
  apply prop_obj in Ho as (fs & -> & Ho). by eexists _, _.
Qed.

Lemma copy_own fs k v : good (PObj fs) -> copy (own fs k) = inr v -> own fs k = v /\ v <> None.
Proof.
  intros Hg H. destruct (own fs k) as [w|] eqn:E; [|done].
  rewrite copy_good in H by (by eapply good_own). by injection H as <-.
Qed.

Section Config.
Context (files : list (jstr * plain)).
Hypothesis Hfiles : Forall (fun f => good f.2) files.

Lemma good_coin tick v : own files tick = Some v -> good v.
Proof.
  unfold own. destruct (lookup_key tick files) as [w|] eqn:E.
  - intros [= <-]. apply lookup_key_in in E. by apply (proj1 (Forall_forall _ _) Hfiles (tick, w)).
  - destruct (inherited tick); [|done]. by intros [= <-].
Qed.

(** The fields of the coin [fs] and of its network block [bs] a configuration is made of. *)
Definition config_of (fs bs : list (jstr * plain)) (network : jstr)
    (addresses genesis FULLNODE : option plain) : list (jstr * option plain) :=
  chosen fs ["tick"; "fullName"; "displayName"; "site"; "decimals"; "confirmations"; "wireFormat"]%string
  ++ ["network" ~> Some (PStr network); "net" ~> own bs (js "net"); "firstBlock" ~> own bs (js "firstBlock");
      "chainGenesisHash" ~> Some (match own bs (js "chainGenesisHash") with Some v => v | None => PNull end);
      "addresses" ~> addresses; "genesis" ~> genesis; "legacyFees" ~> own fs (js "legacyFees")]
  ++ chosen fs ["GAS_PRICE"; "UNIFIED_EXPIRATION_FEE_FREE_DAYS"; "FEE_PAYMENT_MODE";
                "FEE_TOLERANCE_MIN"; "FEE_TOLERANCE_MAX"; "ORACLE_MAX_PRICE_AGE_SECONDS";
                "ORACLE_MAX_PRICE_AGE_HOURLY_SECONDS"; "VALIDATOR_QUERY_LIMIT"]%string
  ++ ["GAS_SCHEDULE" ~> own fs (js "GAS_SCHEDULE"); "STAKING" ~> own fs (js "STAKING");
      "CONFIG_SLASH" ~> (if truthy (own fs (js "CONFIG_SLASH")) then own fs (js "CONFIG_SLASH") else None);
      "FULLNODE" ~> FULLNODE].

Lemma coin_network_obj coin tick network netBlock :
  coin_network coin tick network = inr netBlock ->
  exists fs nets, coin = Some (PObj fs) /\ own fs (js "networks") = Some (PObj nets)
                  /\ own nets network = netBlock /\ truthy netBlock = true.
Proof.
  unfold coin_network. intros (nets & Hnets & (nb & Hnb & H)%bind_inr)%bind_inr.
  destruct (truthy nb) eqn:Ht; [|done]. injection H as <-.
  destruct nb as [nb|]; [|done]. apply prop_obj in Hnb as (ns & -> & Hnb).
  apply prop_obj in Hnets as (fs & -> & Hnets). by eexists _, _.
Qed.

Lemma resolved_shape h tick network fs netBlock cfg :
  good (PObj fs) -> (forall v, netBlock = Some v -> good v) ->
  resolved_config h tick network (Some (PObj fs)) netBlock = inr cfg ->
  exists bs addresses genesis FULLNODE,
    netBlock = Some (PObj bs) /\ good (PObj bs)
    /\ resolved_addresses h tick network (Some (PObj bs)) = inr addresses
    /\ resolveGenesis h (own bs (js "genesis")) network = inr genesis
    /\ resolveFullnode h (own fs (js "FULLNODE")) network = inr FULLNODE
    /\ cfg = PObj (literal (config_of fs bs network addresses genesis FULLNODE)).
Proof.
  intros Hf Hb. unfold resolved_config. intros (addresses & Ha & H)%bind_inr.
  assert (exists bs, netBlock = Some (PObj bs)) as [bs ->].
  { pose proof Ha as Ha'. unfold resolved_addresses in Ha'.
    apply bind_inr in Ha' as (a & (a' & Hp & Hc)%bind_inr & _). destruct a' as [a'|]; [|done].
    apply prop_obj in Hp as (bs & -> & _). by exists bs. }
  specialize (Hb _ eq_refl). rewrite !pick_obj in H. cbn [prop mbind Res_bind] in H. res_inv.
  repeat match goal with
  | H : copy (own _ _) = inr _ |- _ => apply copy_own in H as [<- _]; [|assumption]
  end.
  match goal with H : (if truthy ?o then copy ?o else inr None) = inr ?s |- _ =>
    assert (s = if truthy o then o else None) as -> end.
  { destruct (truthy (own fs (js "CONFIG_SLASH"))); [|by res_inv].
    match goal with H : copy (own _ _) = inr _ |- _ => apply copy_own in H as [<- _]; [reflexivity|assumption] end. }
  by eexists bs, _, _, _.
Qed.

Lemma config_shape h tick network cfg :
  getCoinConfig files h tick network = inr cfg ->
  exists fs bs addresses genesis FULLNODE,
    own files tick = Some (PObj fs) /\ good (PObj fs) /\ good (PObj bs)
    /\ coin_network (Some (PObj fs)) tick network = inr (Some (PObj bs))
    /\ resolved_addresses h tick network (Some (PObj bs)) = inr addresses
    /\ resolveFullnode h (own fs (js "FULLNODE")) network = inr FULLNODE
    /\ cfg = PObj (literal (config_of fs bs network addresses genesis FULLNODE)).
Proof.
  unfold getCoinConfig. destruct (own files tick) as [coin|] eqn:Hcoin; [|done].
  assert (good coin) as Hg by by eapply good_coin.
  destruct (truthy (Some coin)) eqn:Ht; [|done]. cbn [negb].
  destruct (existsb _ NETWORKS) eqn:Hn; [|done]. cbn [negb].
  rewrite (copy_good coin) by done. intros (nb & Hnb & H)%bind_inr.
  pose proof Hnb as (fs & nets & [= ->] & Hnets & Hnb' & _)%coin_network_obj.
  cbn [mbind Res_bind prop] in H. rewrite Hnets in H. cbn [prop] in H. rewrite Hnb' in H.
  apply resolved_shape in H as (bs & addresses & genesis & FULLNODE & -> & Hb & Ha & _ & Hf & ->);
    [|done|].
  - by eexists fs, bs, addresses, genesis, FULLNODE.
  - intros v ->. eapply good_own; [|done]. by eapply good_own.
Qed.

(** What a configuration serves for a field of the consensus subset: the same value; for
    the addresses, every role of the subset; for FULLNODE, the same with the verifiers'
    keys in lower case. *)
Definition served (cfg : plain) (kv : jstr * option plain) : Prop :=
  let w := match cfg with PObj c => lookup_key kv.1 c | _ => None end in
  if eqs kv.1 (js "addresses") then
    match kv.2, entries w with
    | Some (PObj roles), inr all => Forall (fun r => r ∈ all) roles
    | _, _ => False
    end
  else if eqs kv.1 (js "FULLNODE") then
    match kv.2 with Some (PObj f) => w = Some (PObj (lower_verifiers f)) | _ => False end
  else w = kv.2.

Lemma config_lookup fs bs network addresses genesis FULLNODE k :
  lookup_key k (literal (config_of fs bs network addresses genesis FULLNODE))
  = mjoin (lookup_key k (config_of fs bs network addresses genesis FULLNODE)).
Proof. apply lookup_literal. apply (bool_decide_unpack _). by vm_compute. Qed.

Lemma served_field fs bs network addresses genesis FULLNODE k v :
  eqs k (js "addresses") = false -> eqs k (js "FULLNODE") = false ->
  mjoin (lookup_key k (config_of fs bs network addresses genesis FULLNODE)) = v ->
  served (PObj (literal (config_of fs bs network addresses genesis FULLNODE))) (k, v).
Proof.
  intros H1 H2 <-. unfold served. cbn [fst snd]. rewrite H1, H2. apply config_lookup.
Qed.

Lemma regtest_only network : network <> REGTEST -> eqs network REGTEST = false.
Proof. by apply eqs_false. Qed.

Lemma fee_destination_bundled h tick network v :
  network <> REGTEST -> resolveFeeDestination h tick network v = v.
Proof.
  intros Hn. unfold resolveFeeDestination. rewrite regtest_only by done.
  by destruct (env h _) as [[|? ?]|].
Qed.

Lemma addresses_bundled h tick network bs addresses :
  good (PObj bs) -> network <> REGTEST ->
  resolved_addresses h tick network (Some (PObj bs)) = inr addresses ->
  addresses = own bs (js "addresses").
Proof.
  intros Hg Hn (a & (a' & Hp & Hc)%bind_inr & (v & Hv & H)%bind_inr)%bind_inr.
  cbn [prop] in Hp. apply answer_inj in Hp as <-. pose proof Hc as [E _]%copy_own; [|done].
  rewrite E. clear Hc. apply answer_inj in H as <-.
  destruct a as [[| | | | |fs]|]; try done.
  rewrite fee_destination_bundled by done. cbn [prop] in Hv. apply answer_inj in Hv as <-.
  assert (good (PObj fs)) as [Hw _] by (by eapply good_own; [exact Hg|]).
  apply well_formed_members in Hw as [_ Hnd].
  by rewrite assign_self.
Qed.

Lemma fullnode_frozen h network f v :
  network <> REGTEST -> resolveFullnode h f network = inr v ->
  if truthy f then exists stripped, stripDescriptors f = inr stripped /\ v = Some (PObj (lower_verifiers stripped))
  else v = None.
Proof.
  intros Hn. unfold resolveFullnode. destruct (truthy f); cbn [negb]; [|by intros [= <-]].
  intros (stripped & Hs & H)%bind_inr. rewrite regtest_only in H by done. cbn [negb] in H.
  apply answer_inj in H as <-. by exists stripped.
Qed.

Ltac served_by_name := apply served_field; by vm_compute.

Lemma served_addresses fs bs network genesis FULLNODE all f :
  entries (own bs (js "addresses")) = inr all ->
  served (PObj (literal (config_of fs bs network (own bs (js "addresses")) genesis FULLNODE)))
    ("addresses" ~> Some (PObj (assign_all [] (List.filter f all)))).
Proof.
  intros Hall. unfold served. cbn [fst snd].
  change (eqs (js "addresses") (js "addresses")) with true. cbn iota. rewrite config_lookup.
  change (mjoin (lookup_key (js "addresses") _)) with (own bs (js "addresses")). rewrite Hall.
  apply Forall_forall. intros r [Hr|Hr]%assign_all_in; [by apply not_elem_of_nil in Hr|].
  by apply list_elem_of_In, filter_In in Hr as [Hr%list_elem_of_In _].
Qed.

(** On mainnet and testnet the configuration a service is given is the one the pin
    covers, whatever the environment and the files of the process hold: every field of the
    hashed consensus subset is served with the hashed value (the addresses with every hashed
    role, FEE_DESTINATION included; FULLNODE with its verifier keys in lower case). *)
Theorem federation_config_is_pinned h tick network cfg fields :
  network <> REGTEST ->
  getCoinConfig files h tick network = inr cfg ->
  consensusSubset files tick network = inr fields ->
  Forall (served cfg) fields.
Proof.
  intros Hn (fs & bs & addresses & genesis & FULLNODE & Hcoin & Hfs & Hbs & Hnet & Ha & Hf & ->)%config_shape.
  unfold consensusSubset. rewrite Hcoin. cbn [truthy negb]. rewrite Hnet.
  apply addresses_bundled in Ha as ->; [|done..]. apply fullnode_frozen in Hf; [|done].
  rewrite pick_obj. cbn [mbind Res_bind prop]. intros H. res_inv.
  rewrite !Forall_app. split_and!.
  - apply Forall_cons. split; [by served_by_name|]. apply Forall_cons. split; [by served_by_name|].
    apply Forall_cons. split; [by served_by_name|]. apply Forall_singleton.
    by eapply served_addresses.
  - unfold chosen. cbn [map]. repeat (apply Forall_cons; split; [by served_by_name|]). constructor.
  - destruct (truthy (own fs (js "CONFIG_SLASH"))) eqn:Ht; [|constructor]. apply Forall_singleton.
    apply served_field; [by vm_compute..|].
    transitivity (if truthy (own fs (js "CONFIG_SLASH")) then own fs (js "CONFIG_SLASH") else None);
      [by vm_compute|by rewrite Ht].
  - destruct (truthy (own fs (js "FULLNODE"))); [|constructor]. apply Forall_singleton.
    destruct Hf as (stripped & Hs & ->). rewrite Hs in *. apply answer_inj in H2 as <-.
    unfold served. cbn [fst snd]. rewrite config_lookup. by vm_compute.
Qed.
End Config.

(** ** Independence of the environment *)

Lemma bind_ext {A B} (m m' : Res A) (k k' : A -> Res B) :
  m = m' -> (forall a, k a = k' a) -> m ≫= k = m' ≫= k'.
Proof. intros -> Hk. destruct m' as [e|a]; [done|]. apply Hk. Qed.

Lemma genesis_fields_frozen h h' network fs out :
  network <> REGTEST -> genesis_fields h network fs out = genesis_fields h' network fs out.
Proof.
  intros Hn. revert out. induction fs as [|[k desc] fs IH]; intros out; [done|]. cbn [genesis_fields].
  rewrite regtest_only by done. apply bind_ext; [done|]. intros v. apply bind_ext; [done|]. intros w.
  apply IH.
Qed.

Lemma resolveGenesis_frozen h h' g network :
  network <> REGTEST -> resolveGenesis h g network = resolveGenesis h' g network.
Proof.
  intros Hn. unfold resolveGenesis. destruct (negb (truthy g)); [done|]. apply bind_ext; [done|].
  intros overrides. destruct (truthy overrides); [|done]. apply bind_ext; [done|]. intros fs.
  apply bind_ext; [by apply genesis_fields_frozen|done].
Qed.

Lemma resolveFullnode_frozen h h' f network :
  network <> REGTEST -> resolveFullnode h f network = resolveFullnode h' f network.
Proof.
  intros Hn. unfold resolveFullnode. destruct (negb (truthy f)); [done|]. apply bind_ext; [done|].
  intros stripped. by rewrite regtest_only.
Qed.

Lemma getCoinConfig_frozen files h h' tick network :
  network <> REGTEST -> getCoinConfig files h tick network = getCoinConfig files h' tick network.
Proof.
  intros Hn. unfold getCoinConfig. destruct (negb (truthy _)); [done|].
  destruct (negb (existsb _ _)); [done|]. apply bind_ext; [done|]. intros _.
  apply bind_ext; [done|]. intros src. apply bind_ext; [done|]. intros nets.
  apply bind_ext; [done|]. intros netBlock. unfold resolved_config.
  apply bind_ext.
  { unfold resolved_addresses. apply bind_ext; [done|]. intros a. apply bind_ext; [done|]. intros v.
    by rewrite !fee_destination_bundled. }
  intros a1. do 4 (apply bind_ext; [done|]; intros ?).
  apply bind_ext; [apply bind_ext; [done|intros ?; by apply resolveGenesis_frozen]|].
  intros ?. do 5 (apply bind_ext; [done|]; intros ?).
  apply bind_ext; [apply bind_ext; [done|intros ?; by apply resolveFullnode_frozen]|done].
Qed.

(** ** What the pin detects *)

Definition defined (fields : list (jstr * option plain)) : Prop := Forall (fun kv => is_Some kv.2) fields.

(** Plain data under distinct, ordinary keys. *)
Definition plain_fields (fields : list (jstr * option plain)) : bool :=
  forallb (fun kv => forallb is_unit kv.1 && negb (is_index kv.1)
                     && match kv.2 with Some v => well_formed v | None => true end) fields
  && bool_decide (NoDup (map fst fields)).

Lemma plain_fields_spec fields :
  plain_fields fields = true ->
  Forall (fun kv => forallb is_unit kv.1 = true /\ is_index kv.1 = false
                    /\ forall v, kv.2 = Some v -> well_formed v = true) fields
  /\ NoDup (map fst fields).
Proof.
  intros [H1 H2]%andb_prop. split; [|by apply bool_decide_eq_true in H2].
  apply Forall_forall. intros [k v] Hin%list_elem_of_In.
  pose proof (proj1 (forallb_forall _ _) H1 _ Hin) as H. cbn [fst snd] in *.
  apply andb_prop in H as [[? ?%negb_true_iff]%andb_prop Hv]. split_and!; [done..|].
  intros w E. by rewrite E in Hv.
Qed.

Lemma literal_defined fields :
  defined fields -> map (fun kv => (kv.1, Some kv.2)) (literal fields) = fields.
Proof.
  induction 1 as [|[k v] fields [w Hw] _ IH]; [done|]. cbn in Hw. subst. cbn. f_equal. exact IH.
Qed.

Lemma literal_well_formed fields :
  plain_fields fields = true -> defined fields -> well_formed (PObj (literal fields)) = true.
Proof.
  intros [Hf Hnd]%plain_fields_spec Hd. apply literal_defined in Hd. rewrite <- Hd in Hf, Hnd.
  rewrite map_map in Hnd. cbn in Hnd. apply well_formed_obj; [|done].
  apply Forall_map in Hf. eapply Forall_impl; [exact Hf|]. intros kv (H1 & H2 & H3). cbn in *. auto.
Qed.

Lemma canonical_subset_defined fields :
  defined fields -> canonical_subset fields = canonicalJson (PObj (literal fields)).
Proof.
  intros Hd%literal_defined. unfold canonical_subset. rewrite <- Hd at 1. rewrite map_map. done.
Qed.

(** A member whose value is undefined is no JSON. *)
Lemma read_value_undefined n r : read_value n (js "undefined" ++ r) = None.
Proof. by destruct n. Qed.

Definition field_text (kv : jstr * option plain) : jstr := member kv.1 (canonical_field kv.2).

Lemma read_members_undefined fields :
  Forall (fun kv => forallb is_unit kv.1 = true /\ forall v, kv.2 = Some v -> well_formed v = true) fields ->
  ~ defined fields -> forall n r,
  (2 * length (join_with COMMA (map field_text fields)) < n)%nat ->
  read_members n (join_with COMMA (map field_text fields) ++ 125 :: r) = None.
Proof.
  induction 1 as [|[k v] fields [Hk Hv] Hf IH]; intros Hd n r Hn; [destruct Hd; constructor|]. cbn [fst snd] in *.
  destruct n as [|n]; [lia|]. rewrite read_members_step. destruct v as [v|].
  - assert (~ defined fields) as Hd' by (intros ?; apply Hd; by constructor).
    destruct fields as [|w fields]; [destruct Hd'; constructor|].
    cbn [map] in Hn, IH |- *. rewrite join_cons in Hn |- *. rewrite length_app in Hn. cbn [length] in Hn.
    change (field_text (k, Some v)) with (member k (canonicalJson v)) in *.
    rewrite canonicalJson_by_keys in *.
    change (member k (stringify (by_keys v))) with (member_text (k, by_keys v)) in *.
    rewrite <- app_assoc. cbn [app]. rewrite read_member; [|done| |lia|by left].
    2: { apply read_print, by_keys_well_formed. by apply Hv. }
    cbn [mbind option_bind]. rewrite eat_hit by done. by rewrite IH by (done || lia).
  - assert (exists tail, join_with COMMA (map field_text ((k, None) :: fields)) ++ 125 :: r
                         = member k (js "undefined") ++ tail) as [tail ->].
    { cbn [map]. destruct fields as [|w fields]; [by eexists|]. cbn [map]. rewrite join_cons, <- app_assoc.
      by eexists. }
    rewrite member_shape, eat_hit by done. cbn [mbind option_bind]. rewrite read_quoted by done.
    cbn [mbind option_bind]. rewrite eat_hit by done. cbn [mbind option_bind].
    by rewrite read_value_undefined.
Qed.

Lemma read_braces n items r :
  (exists k text rest, items = member k text ++ rest) ->
  read_members n (items ++ 125 :: r) = None -> read_value (S n) (123 :: items ++ 125 :: r) = None.
Proof.
  intros (k & text & rest & ->) Hn. rewrite <- app_assoc, member_shape in *.
  cbn [read_value]. match goal with |- context [skip_ws (123 :: ?t)] =>
    change (skip_ws (123 :: t)) with (123 :: t) end.
  cbn iota. change (123 =? QUOTE) with false. change (123 =? 91) with false.
  change (123 =? 123) with true. cbn iota. rewrite eat_miss by done. by rewrite Hn.
Qed.

Lemma undefined_unreadable fields n r :
  plain_fields fields = true -> ~ defined fields ->
  (2 * length (canonical_subset fields) <= n)%nat ->
  read_value n (canonical_subset fields ++ r) = None.
Proof.
  intros [Hf Hnd]%plain_fields_spec Hd. unfold canonical_subset. rewrite sort_keys_map, map_map.
  change (map _ (sort_keys fields)) with (map field_text (sort_keys fields)). unfold braces.
  rewrite app_comm_cons, length_app. cbn [length app]. rewrite <- app_assoc. cbn [app]. intros Hn.
  destruct n as [|n]; [done|]. unfold defined in Hd. rewrite <- (sort_keys_perm fields) in Hd, Hf.
  apply read_braces.
  - destruct (sort_keys fields) as [|kv fs]; [destruct Hd; constructor|].
    destruct fs as [|w fs]; cbn [map].
    + exists kv.1, (canonical_field kv.2), []. by rewrite app_nil_r.
    + rewrite join_cons. by eexists _, _, _.
  - apply read_members_undefined; [|done|lia].
    eapply Forall_impl; [exact Hf|]. by intros kv (?&_&?).
Qed.

Lemma canonical_subset_exact fields fields' :
  plain_fields fields = true -> plain_fields fields' = true -> defined fields ->
  canonical_subset fields = canonical_subset fields' ->
  defined fields' /\ same (PObj (literal fields)) (PObj (literal fields')).
Proof.
  intros Hf Hf' Hd E.
  assert (defined fields') as Hd'.
  { destruct (decide (Forall (fun kv => is_Some kv.2) fields')) as [|Hd']; [done|]. exfalso.
    pose proof (literal_well_formed _ Hf Hd) as Hw. apply by_keys_well_formed in Hw.
    pose proof (read_print _ Hw _ [] (le_n _) I) as Hr.
    rewrite <- canonicalJson_by_keys, <- canonical_subset_defined, E in Hr by done.
    by rewrite undefined_unreadable in Hr by done. }
  split; [done|]. rewrite !canonical_subset_defined in E by done.
  by apply canonicalJson_same; [apply literal_well_formed..|].
Qed.

Lemma verify_coins_checks files pin network ticks tick e :
  verify_coins files pin network ticks = inr tt -> tick ∈ ticks ->
  prop pin tick = inr (Some e) -> truthy (Some e) = true ->
  consensusHash files tick network = inr (lower (text_of e)).
Proof.
  intros H Hin Hp Ht. induction ticks as [|t ticks IH]; [by apply not_elem_of_nil in Hin|].
  cbn [verify_coins] in H. apply bind_inr in H as (expected & He & (u & Hc & H)%bind_inr).
  apply elem_of_cons in Hin as [->|Hin]; [|by apply IH].
  rewrite Hp in He. apply answer_inj in He as <-. rewrite Ht in Hc.
  apply bind_inr in Hc as (actual & -> & Hc). destruct (eqs actual _) eqn:E; [|done]. by b2p; subst.
Qed.

(** C23: The pin identifies the consensus subset: when two bundles of coin files both pass
    the same armed pin, the subset of every pinned coin is the same in both up to the order
    of keys, provided only that SHA-256 does not collide on their two texts.  The second
    bundle may have left fields undefined: the first has not, and so neither has the
    second. *)
Theorem pin_detects_drift files files' pins network tick pin e fields fields' :
  verifyConsensusPin files pins network = inr (PinCheck true false) ->
  verifyConsensusPin files' pins network = inr (PinCheck true false) ->
  truthy pins = true -> prop pins network = inr pin ->
  prop pin tick = inr (Some e) -> truthy (Some e) = true ->
  tick ∈ ALLOWED_COINS files -> tick ∈ ALLOWED_COINS files' ->
  consensusSubset files tick network = inr fields ->
  consensusSubset files' tick network = inr fields' ->
  plain_fields fields = true -> plain_fields fields' = true -> defined fields ->
  (sha256_hex (canonical_subset fields) = sha256_hex (canonical_subset fields') ->
   canonical_subset fields = canonical_subset fields') ->
  defined fields' /\ same (PObj (literal fields)) (PObj (literal fields')).
Proof.
  intros H H' Hp Hpin He Ht Hin Hin' Hs Hs' Hf Hf' Hd Hcol.
  apply canonical_subset_exact; [done..|]. apply Hcol.
  unfold verifyConsensusPin in H, H'. rewrite Hp, Hpin in H, H'. cbn [mbind Res_bind] in H, H'.
  destruct pin as [pin|]; [|done].
  assert (forall fs (v : Res pin_check), match pin with PNull => inr (PinCheck true true) | _ =>
    _ ← verify_coins fs (Some pin) network (ALLOWED_COINS fs); inr (PinCheck true false) end = v ->
    v = inr (PinCheck true false) -> verify_coins fs (Some pin) network (ALLOWED_COINS fs) = inr tt) as Hv.
  { intros fs v <-. destruct pin; [done|..]; by intros ([] & -> & _)%bind_inr. }
  apply (Hv _ _ eq_refl), verify_coins_checks with (tick := tick) (e := e) in H; [|done..].
  apply (Hv _ _ eq_refl), verify_coins_checks with (tick := tick) (e := e) in H'; [|done..].
  unfold consensusHash in H, H'. rewrite Hs in H. rewrite Hs' in H'. cbn [mbind Res_bind] in H, H'.
  congruence.
Qed.

(** The same members, listed backwards at every depth. *)
Fixpoint backwards (v : plain) : plain :=
  match v with
  | PArr l => PArr (map backwards l)
  | PObj fs => PObj (rev (map (fun kv => (kv.1, backwards kv.2)) fs))
  | _ => v
  end.

Definition reordered_files : list (jstr * plain) := map (fun f => (f.1, backwards f.2)) COIN_FILES.

Definition subset_of (files : list (jstr * plain)) (tick network : jstr) : list (jstr * option plain) :=
  match consensusSubset files tick network with inr fs => fs | inl _ => [] end.

Definition served_config (files : list (jstr * plain)) (h : host) (tick network : jstr) : plain :=
  match getCoinConfig files h tick network with inr cfg => cfg | inl _ => PNull end.

Definition pin_value (network tick : String.string) : plain :=
  match prop (Some CONSENSUS_CONFIG_PIN) (js network) with
  | inr pin => match prop pin (js tick) with inr (Some e) => e | _ => PNull end
  | _ => PNull
  end.

Lemma pin_detects_drift_witness :
  let fields := subset_of COIN_FILES (js "LTC") (js "testnet") in
  let fields' := subset_of reordered_files (js "LTC") (js "testnet") in
  defined fields' /\ same (PObj (literal fields)) (PObj (literal fields')).
Proof.
  refine (pin_detects_drift COIN_FILES reordered_files (Some CONSENSUS_CONFIG_PIN) (js "testnet")
    (js "LTC") (own match CONSENSUS_CONFIG_PIN with PObj fs => fs | _ => [] end (js "testnet"))
    (pin_value "testnet" "LTC") _ _ _ _ _ _ _ _ _ _ _ _ _ _ _ _); try by vm_compute.
  all: apply (bool_decide_unpack _); by vm_compute.
Defined.

(** An environment that tries to redirect the fees and the full-node parameters. *)
Definition hostile : host :=
  Host (fun _ => Some (js "mfeesX6rLE6V3WPg9tsbL2fHNS7E4rDAim"))
    (fun _ => Holds (PObj ["CONFIRM_DEPTH" ~> PInt 1])).

Lemma federation_config_is_pinned_witness :
  let cfg := served_config COIN_FILES hostile (js "BTC") (js "mainnet") in
  getCoinConfig COIN_FILES hostile (js "BTC") (js "mainnet") = inr cfg
  /\ Forall (served cfg) (subset_of COIN_FILES (js "BTC") (js "mainnet")).
Proof.
  assert (getCoinConfig COIN_FILES hostile (js "BTC") (js "mainnet")
          = inr (served_config COIN_FILES hostile (js "BTC") (js "mainnet"))) as Hcfg by by vm_compute.
  split; [exact Hcfg|].
  refine (federation_config_is_pinned COIN_FILES _ hostile (js "BTC") (js "mainnet") _ _ _ Hcfg _).
  - repeat constructor; by vm_compute.
  - by apply eqs_false.
  - by vm_compute.
Defined.

(** ** Confirmations *)

Lemma num_lt_Fin p q : num_lt (Fin p) (Fin q) = true <-> Qlt p q.
Proof.
  cbn. unfold Qgt. rewrite negb_true_iff, <- not_true_iff_false, Qle_bool_iff.
  split; [apply Qnot_le_lt|apply Qlt_not_le].
Qed.

Lemma num_le_Fin p q : num_le (Fin p) (Fin q) = true <-> Qle p q.
Proof.
  unfold num_le. rewrite negb_true_iff, <- not_true_iff_false, num_lt_Fin.
  split; [apply Qnot_lt_le|apply Qle_not_lt].
Qed.

Lemma positive_truthy q : Qlt (Qz 0) q -> falsy_num (Fin q) = false.
Proof.
  intros Hq. destruct q as [a b]. unfold Qlt in Hq. cbn in Hq. unfold falsy_num, num_is, integer_of.
  destruct (Z.eqb_spec (a mod Zpos b) 0) as [E|]; [|done]. apply Z.eqb_neq. intros E'.
  pose proof (Z.div_mod a (Zpos b)). lia.
Qed.

(** Confirmation depths keep their floor: for a positive default the resolved depth is
    finite and positive whatever the environment and the hub's configuration hold, on
    mainnet and testnet it is never below the default, and an override of the environment
    that raises it is honoured on every network. *)
Theorem confirmations_floor h cfg network tick def :
  isFinite def = true -> num_lt (numZ 0) def = true ->
  let n := resolve_depth h cfg network tick def in
  isFinite n = true /\ num_lt (numZ 0) n = true
  /\ (floored network = true -> num_le def n = true)
  /\ forall s, env h (confirmation_key tick) = Some s ->
       isFinite (parse_int_str s) = true -> num_le def (parse_int_str s) = true ->
       n = parse_int_str s.
Proof.
  destruct def as [| |d]; [done..|]. intros _ Hd. apply num_lt_Fin in Hd.
  assert (num_le (Fin d) (Fin d) = true) as Hdd by by apply num_le_Fin, Qle_refl.
  unfold resolve_depth. set (val := or_num _ (Fin d)).
  set (val' := if negb (isFinite val) || num_le val (numZ 0) then Fin d else val).
  assert (exists v, val' = Fin v /\ Qlt (Qz 0) v) as (v & E & Hv).
  { subst val'. destruct val as [| |v]; [by exists d..|]. cbn [isFinite negb orb].
    destruct (num_le (Fin v) (numZ 0)) eqn:Hle; [by exists d|]. exists v. split; [done|].
    apply Qnot_le_lt. intros H. apply num_le_Fin in H.
    change (Fin (Qz 0)) with (numZ 0) in H. congruence. }
  rewrite E. split_and!.
  - by destruct (_ && _).
  - destruct (_ && _); by apply num_lt_Fin.
  - intros ->. cbn [andb]. unfold num_le. destruct (num_lt (Fin v) (Fin d)) eqn:Hlt; [done|].
    by rewrite Hlt.
  - intros s Hs Hfin Hle. subst val' val. rewrite Hs in E.
    destruct (parse_int_str s) as [| |x] eqn:Hx; [done..|].
    apply num_le_Fin in Hle. assert (Qlt (Qz 0) x) as Hpos by (eapply Qlt_le_trans; [exact Hd|exact Hle]).
    unfold or_num in E. rewrite !(positive_truthy x) in E by done. cbn [isFinite negb orb] in E.
    assert (num_le (Fin x) (numZ 0) = false) as Hx0.
    { apply not_true_is_false. change (numZ 0) with (Fin (Qz 0)). rewrite num_le_Fin. by apply Qlt_not_le. }
    rewrite Hx0 in E. rewrite <- E.
    assert (num_lt (Fin x) (Fin d) = false) as ->; [|by rewrite andb_false_r].
    apply not_true_is_false. rewrite num_lt_Fin. by apply Qle_not_lt.
Qed.

Lemma confirmations_floor_witness :
  let h := Host (fun k => if eqs k (js "XCHAIN_CONFIRMATIONS_BTC") then Some (js "2") else None)
             (fun _ => Missing) in
  let n := resolve_depth h [] (js "testnet") (js "BTC") (numZ 6) in
  n = numZ 6 /\ num_le (numZ 6) n = true.
Proof.
  split; [by vm_compute|].
  refine (proj1 (proj2 (proj2 (confirmations_floor _ _ (js "testnet") _ (numZ 6) _ _))) _); by vm_compute.
Defined.

(** ** Two comments of the sources *)

(** The head of BTC.js counts genesis among the hashed fields; it is not one. *)
Example genesis_is_not_hashed tick network :
  tick ∈ ALLOWED_COINS COIN_FILES -> network ∈ NETWORKS ->
  has_key (js "genesis") (subset_of COIN_FILES tick network) = false.
Proof.
  unfold ALLOWED_COINS, COIN_FILES, NETWORKS. cbn [map fst]. rewrite !elem_of_cons, !elem_of_nil.
  intros [-> | [-> | [-> | []]]] [-> | [-> | [-> | []]]]; by vm_compute.
Qed.

(** resolveFullnode lower-cases the verifiers before it reads the sidecar, so those of the
    sidecar are served as they are spelled. *)
Example sidecar_verifier_not_lowered :
  let h := Host (fun _ => None) (fun _ => Holds (PObj ["GENESIS_VERIFIERS" ~> PArr [str "02AB"]])) in
  match resolveFullnode h (Some BTC_FULLNODE) REGTEST with
  | inr (Some (PObj out)) => own out (js "GENESIS_VERIFIERS") = Some (PArr [str "02AB"])
  | _ => False
  end.
Proof. by vm_compute. Qed.
