(* ===== verification/AuxPow.v ===== *)
(** * Merge-mined blocks

    src/src/chain/blockchain_connector/auxpow_codec.js and the block fetches of
    block_queries.js: a Dogecoin block carries its proof of work after the 80-byte
    header, and the decoder cuts it out, or rebuilds the block from its parts.

    [None] is a throw; nothing tells the messages apart. *)
From S2P Require Import Prelude JsNum Wire.
#[local] Open Scope Z_scope.

(** ** Varints *)

(** The value and the bytes it takes.  Past the end [buf[offset]] is undefined, which
    takes the eight-byte branch. *)
Definition readVarint (buf : bytes) (offset : Z) : option (Z * Z) :=
  let long := (lo ← read_le 4 buf (offset + 1);
               hi ← read_le 4 buf (offset + 5);
               Some (hi * 2 ^ 32 + lo, 9)) in
  match get_byte buf offset with
  | Some first =>
      if first <? 253 then Some (first, 1)
      else if first =? 253 then v ← read_le 2 buf (offset + 1); Some (v, 3)
      else if first =? 254 then v ← read_le 4 buf (offset + 1); Some (v, 5)
      else long
  | None => long
  end.

Definition encodeVarintHex (value : N) : option jstr :=
  let v := Z.of_N value in
  if v <? 253 then Some [hex_digit (v / 16); hex_digit (v mod 16)]
  else if v <=? 65535 then Some (hex_of (253 :: le_bytes 2 v))
  else if v <=? 4294967295 then Some (hex_of (254 :: le_bytes 4 v))
  else None.

(** ** Walking over the AuxPoW section *)

(** [if (offset + n > buf.length) throw; offset += n] *)
Definition skip (buf : bytes) (n offset : Z) : option Z :=
  if size_of buf <? offset + n then None else Some (offset + n).

(** [offset += vi.bytes + vi.value], unchecked. *)
Definition skip_var (buf : bytes) (offset : Z) : option Z :=
  '(value, width) ← readVarint buf offset; Some (offset + width + value).

Definition skip_input (buf : bytes) (offset : Z) : option Z :=
  o ← skip buf 36 offset; o ← skip_var buf o; skip buf 4 o.

Definition skip_output (buf : bytes) (offset : Z) : option Z :=
  o ← skip buf 8 offset; skip_var buf o.

(** A count and that many items. *)
Definition skip_items (buf : bytes) (item : Z -> option Z) (offset : Z) : option Z :=
  '(n, width) ← readVarint buf offset;
  skip_loop (loop_fuel buf) n item (offset + width).

Definition skipCoinbaseTransaction (buf : bytes) (start : Z) : option Z :=
  o ← skip buf 4 start;
  let hasSegwit := bool_decide (get_byte buf o = Some 0) in
  let o := if hasSegwit then o + 2 else o in
  '(nIns, width) ← readVarint buf o;
  o ← skip_loop (loop_fuel buf) nIns (skip_input buf) (o + width);
  o ← skip_items buf (skip_output buf) o;
  o ← (if hasSegwit : bool
       then skip_loop (loop_fuel buf) nIns (skip_items buf (skip_var buf)) o
       else Some o);
  skip buf 4 o.

(** A merkle branch: the count, the hashes and the index. *)
Definition skip_branch (buf : bytes) (offset : Z) : option Z :=
  '(n, width) ← readVarint buf offset; skip buf (n * 32 + 4) (offset + width).

Definition skipAuxPow (buf : bytes) (start : Z) : option Z :=
  o ← skipCoinbaseTransaction buf start;
  o ← skip buf 32 o;
  o ← skip_branch buf o;
  o ← skip_branch buf o;
  skip buf 80 o.

(** ** Stripping *)

Section strip.
Context `{BlockLib}.

Definition assertWholeBlock (blockHex : jstr) : option unit :=
  let buf := from_hex blockHex in
  if negb (size_of buf * 2 =? Z.of_nat (length blockHex)) then None
  else
    block ← block_fromBuffer buf;
    let txs := block_transactions block in
    if Z.of_nat (length txs) <? 1 then None
    else if negb (block_byteLength block =? size_of buf) then None
    else if bool_decide (calculateMerkleRoot txs = block_merkleRoot block) then Some tt
    else None.

(** The first four bytes of the block, swapped to the number they are; NaN reads as 0. *)
Definition block_version (blockHex : jstr) : Z :=
  let versionLE := to_int32 (default 0 (parse_int16 (take 8 blockHex))) in
  Z.lor (Z.lor (Z.lor (shl32 (Z.land versionLE 255) 24)
                      (shl32 (Z.land (Z.shiftr versionLE 8) 255) 16))
               (shl32 (Z.land (Z.shiftr versionLE 16) 255) 8))
        (Z.land (Z.shiftr versionLE 24) 255).

Definition stripAuxPowFromBlockHex (headerHex blockHex : jstr) : option jstr :=
  let dataToRemove := Z.of_nat (length headerHex) - 160 in
  if 0 <? dataToRemove then
    let stripped := take 160 blockHex ++ drop (Z.to_nat (160 + dataToRemove)) blockHex in
    _ ← assertWholeBlock stripped; Some stripped
  else if (8 <=? Z.of_nat (length blockHex))
          && negb (Z.land (block_version blockHex) 256 =? 0) then
    afterAuxPow ← skipAuxPow (from_hex blockHex) 80;
    let stripped := take 160 blockHex ++ drop (Z.to_nat (afterAuxPow * 2)) blockHex in
    _ ← assertWholeBlock stripped; Some stripped
  else Some blockHex.

End strip.

(** ** Facts *)

Lemma readVarint_compact buf v o x :
  0 <= v < 2 ^ 64 -> sits buf o (compact_size v ++ x) ->
  readVarint buf o = Some (v, size_of (compact_size v)).
Proof.
  intros Hv Hs. unfold readVarint.
  destruct (sits_compact _ _ _ _ Hv Hs) as [(H & -> & ->)|(p & n & -> & Hr & Hb & -> & Hp)].
  { by rewrite (proj2 (Z.ltb_lt _ _) H). }
  destruct Hp as [[-> ->]|[[-> ->]|[-> ->]]]; cbn; rewrite ?Hr; [done..|].
  destruct (read_le_split buf (o + 1) v Hr) as (lo & hi & Hlo & Hhi & ->).
  rewrite Hlo. replace (o + 5) with (o + 1 + 4) by lia. simpl. by rewrite Hhi.
Qed.

#[local] Arguments readVarint : simpl never.

Lemma skip_then n x buf o rest :
  size_of x = n -> sits buf o (x ++ rest) ->
  skip buf n o = Some (o + size_of x) /\ sits buf (o + size_of x) rest.
Proof.
  intros <- Hs. apply sits_app in Hs as [H1 H2]. split; [|done].
  unfold skip. apply sits_bound in H1 as [_ H1]. by rewrite (proj2 (Z.ltb_ge _ _) H1).
Qed.

Lemma count_then buf v o x :
  0 <= v -> fits v -> sits buf o (compact_size v ++ x) ->
  readVarint buf o = Some (v, size_of (compact_size v)) /\ sits buf (o + size_of (compact_size v)) x.
Proof.
  intros H1 H2 Hs. split; [|by apply sits_app in Hs as [_ Hs]].
  eapply readVarint_compact; [by apply fits_64|done].
Qed.

#[export] Instance walks_var : Walks var_bytes ok_bytes skip_var.
Proof.
  intros b buf o Hb Hs. unfold skip_var. unfold var_bytes in Hs |- *.
  destruct (count_then _ _ _ _ (size_nonneg b) Hb Hs) as [-> _]. simpl.
  rewrite size_app. f_equal. lia.
Qed.

#[export] Instance walks_input : Walks ser_in wf_in skip_input.
Proof.
  intros i buf o [H1 H2 H3] Hs. unfold skip_input, ser_in in *.
  destruct (skip_then 36 _ _ _ _ H1 Hs) as [-> Hs1]. cbn [mbind option_bind].
  destruct (walk_then var_bytes ok_bytes skip_var _ _ _ _ H3 Hs1) as [-> Hs2]. cbn [mbind option_bind].
  rewrite <- (app_nil_r (wi_sequence i)) in Hs2.
  destruct (skip_then 4 _ _ _ _ H2 Hs2) as [-> _]. rewrite !size_app. f_equal. lia.
Qed.

#[export] Instance walks_output : Walks ser_out wf_out skip_output.
Proof.
  intros i buf o [H1 H2] Hs. unfold skip_output, ser_out in *.
  destruct (skip_then 8 _ _ _ _ H1 Hs) as [-> Hs1]. cbn [mbind option_bind].
  rewrite (walk (step:=skip_var) _ _ _ H2 Hs1). rewrite !size_app. f_equal. lia.
Qed.

Lemma items_then {A} (ser : A -> bytes) ok step `{!Walks ser ok step} l buf o rest :
  (forall x, 0 < size_of (ser x)) -> ok_vector ok l -> sits buf o (vector ser l ++ rest) ->
  skip_items buf (step buf) o = Some (o + size_of (vector ser l))
  /\ sits buf (o + size_of (vector ser l)) rest.
Proof.
  intros Hp [H1 H2] Hs. unfold skip_items, vector in *. rewrite <- app_assoc in Hs.
  destruct (count_then _ _ _ _ (Nat2Z.is_nonneg _) H1 Hs) as [-> Hs1]. cbn [mbind option_bind].
  rewrite size_app, Z.add_assoc. by apply (walk_loop ser ok step).
Qed.

#[export] Instance walks_stack :
  Walks (vector var_bytes) (ok_vector ok_bytes) (fun buf => skip_items buf (skip_var buf)).
Proof.
  intros l buf o H Hs. rewrite <- (app_nil_r (vector _ _)) in Hs.
  by eapply (items_then var_bytes ok_bytes skip_var); [apply size_var_bytes_pos|..].
Qed.

(** *** The coinbase transaction *)

(** A node writes a transaction without the marker only when it has an input. *)
Definition ok_coinbase (t : wire_tx) : Prop :=
  wf_tx t /\ (wt_witness t = None -> wt_ins t <> []).

Lemma compact_size_head v o buf x :
  0 < v < 2 ^ 64 -> sits buf o (compact_size v ++ x) -> get_byte buf o <> Some 0.
Proof.
  intros Hv Hs. assert (Hv' : 0 <= v < 2 ^ 64) by lia.
  destruct (sits_compact _ _ _ _ Hv' Hs) as [(H & -> & _)|(p & n & -> & _ & _ & _ & Hp)].
  - intros [= ->]. lia.
  - intros [= ->]. lia.
Qed.

(** From the marker on. *)
Lemma skip_coinbase_body t buf o rest :
  wf_tx t -> sits buf o (ser_body t ++ wt_locktime t ++ rest) ->
  ('(nIns, width) ← readVarint buf o;
   o ← skip_loop (loop_fuel buf) nIns (skip_input buf) (o + width);
   o ← skip_items buf (skip_output buf) o;
   o ← (if bool_decide (is_Some (wt_witness t))
        then skip_loop (loop_fuel buf) nIns (skip_items buf (skip_var buf)) o
        else Some o);
   skip buf 4 o)
  = Some (o + size_of (ser_body t) + size_of (wt_locktime t)).
Proof.
  intros [H1 H2 [H3 H3'] H4 H5] Hs. unfold ser_body in Hs |- *.
  change (vector ser_in (wt_ins t)) with
    (compact_size (Z.of_nat (length (wt_ins t))) ++ concat (map ser_in (wt_ins t))) in *.
  rewrite <- !app_assoc in Hs.
  destruct (count_then _ _ _ _ (Nat2Z.is_nonneg _) H3 Hs) as [-> Hs1]. cbn [mbind option_bind].
  destruct (walk_loop ser_in wf_in skip_input _ _ _ _ size_ser_in_pos H3' Hs1) as [-> Hs2].
  cbn [mbind option_bind].
  destruct (items_then ser_out wf_out skip_output _ _ _ _ size_ser_out_pos H4 Hs2) as [-> Hs3].
  cbn [mbind option_bind]. clear Hs2. revert Hs3.
  generalize (vector ser_out (wt_outs t)); intros outs Hs3.
  rewrite !size_app, !Z.add_assoc.
  destruct (wt_witness t) as [w|] eqn:Ew.
  - destruct (H5 w eq_refl) as [Hl Hw]. rewrite <- Hl in Hs3 |- *.
    rewrite bool_decide_eq_true_2 by done.
    destruct (walk_loop (vector var_bytes) (ok_vector ok_bytes) (fun buf => skip_items buf (skip_var buf))
      _ _ _ _ (size_vector_pos var_bytes) Hw Hs3) as [-> Hs4].
    cbn [mbind option_bind]. by destruct (skip_then 4 _ _ _ _ H2 Hs4) as [-> _].
  - cbn. rewrite Z.add_0_r. by destruct (skip_then 4 _ _ _ _ H2 Hs3) as [-> _].
Qed.

Lemma skip_coinbase t buf o rest :
  ok_coinbase t -> sits buf o (ser_tx t ++ rest) ->
  skipCoinbaseTransaction buf o = Some (o + size_of (ser_tx t))
  /\ sits buf (o + size_of (ser_tx t)) rest.
Proof.
  intros [Hwf Hne] Hs. split; [|by apply sits_app in Hs as [_ Hs]].
  unfold ser_tx in Hs |- *. rewrite <- !app_assoc in Hs. unfold skipCoinbaseTransaction.
  destruct (skip_then 4 _ _ _ _ (wf_version _ Hwf) Hs) as [-> Hs1]. cbn [mbind option_bind].
  pose proof (skip_coinbase_body t buf) as Hb. rewrite !size_app, !Z.add_assoc.
  destruct (wt_witness t) as [w|] eqn:Ew.
  - rewrite (sits_byte _ _ _ _ Hs1). apply (sits_app _ _ [0; 1]) in Hs1 as [_ Hs2].
    exact (Hb _ _ Hwf Hs2).
  - assert (Hz : get_byte buf (o + size_of (wt_version t)) <> Some 0).
    { simpl in Hs1. unfold ser_body, vector in Hs1. rewrite <- !app_assoc in Hs1.
      apply (compact_size_head _ _ _ _) with (2 := Hs1).
      destruct (wt_ins t) eqn:Ei; [by destruct (Hne eq_refl)|].
      pose proof (proj1 (wf_ins _ Hwf)) as Hf. rewrite Ei in Hf. unfold fits, MAX_UINT53 in Hf.
      simpl length in *. lia. }
    rewrite bool_decide_eq_false_2 by done. rewrite Z.add_0_r. exact (Hb _ _ Hwf Hs1).
Qed.

(** *** The AuxPoW section *)

Record aux_pow := AuxPowSection {
  ap_coinbase : wire_tx;
  ap_parent_hash : bytes;
  ap_coinbase_branch : list bytes;
  ap_coinbase_index : bytes;
  ap_chain_branch : list bytes;
  ap_chain_index : bytes;
  ap_parent_header : bytes
}.

Definition ser_branch (hashes : list bytes) (index : bytes) : bytes := vector id hashes ++ index.

Definition ser_aux (a : aux_pow) : bytes :=
  ser_tx (ap_coinbase a) ++ ap_parent_hash a
  ++ ser_branch (ap_coinbase_branch a) (ap_coinbase_index a)
  ++ ser_branch (ap_chain_branch a) (ap_chain_index a) ++ ap_parent_header a.

Definition ok_branch (hashes : list bytes) (index : bytes) : Prop :=
  ok_vector (fun h => size_of h = 32) hashes /\ size_of index = 4.

Record ok_aux (a : aux_pow) : Prop := OkAux {
  oa_coinbase : ok_coinbase (ap_coinbase a);
  oa_parent_hash : size_of (ap_parent_hash a) = 32;
  oa_coinbase_branch : ok_branch (ap_coinbase_branch a) (ap_coinbase_index a);
  oa_chain_branch : ok_branch (ap_chain_branch a) (ap_chain_index a);
  oa_parent_header : size_of (ap_parent_header a) = 80
}.

Lemma size_concat_fixed n l :
  Forall (fun b => size_of b = n) l -> size_of (concat (map id l)) = Z.of_nat (length l) * n.
Proof.
  induction 1 as [|b l Hb _ IH]; [done|]. cbn [map concat]. unfold id at 1.
  rewrite size_app, IH, Hb. simpl length. lia.
Qed.

Lemma branch_then hashes index buf o rest :
  ok_branch hashes index -> sits buf o (ser_branch hashes index ++ rest) ->
  skip_branch buf o = Some (o + size_of (ser_branch hashes index))
  /\ sits buf (o + size_of (ser_branch hashes index)) rest.
Proof.
  intros [[H1 H2] H3] Hs. split; [|by apply sits_app in Hs as [_ Hs]].
  unfold ser_branch, vector in Hs |- *. rewrite <- !app_assoc, (app_assoc (concat _)) in Hs.
  unfold skip_branch.
  destruct (count_then _ _ _ _ (Nat2Z.is_nonneg _) H1 Hs) as [-> Hs1]. cbn [mbind option_bind].
  assert (Hn : size_of (concat (map id hashes) ++ index) = Z.of_nat (length hashes) * 32 + 4)
    by by rewrite size_app, (size_concat_fixed 32), H3.
  destruct (skip_then _ _ _ _ _ Hn Hs1) as [-> _]. rewrite !size_app. f_equal. lia.
Qed.

Lemma skip_aux a buf o rest :
  ok_aux a -> sits buf o (ser_aux a ++ rest) ->
  skipAuxPow buf o = Some (o + size_of (ser_aux a)).
Proof.
  intros [H1 H2 H3 H4 H5] Hs. unfold ser_aux in Hs |- *. rewrite <- !app_assoc in Hs.
  unfold skipAuxPow.
  destruct (skip_coinbase _ _ _ _ H1 Hs) as [-> Hs1]. cbn [mbind option_bind].
  destruct (skip_then 32 _ _ _ _ H2 Hs1) as [-> Hs2]. cbn [mbind option_bind].
  destruct (branch_then _ _ _ _ _ H3 Hs2) as [-> Hs3]. cbn [mbind option_bind].
  destruct (branch_then _ _ _ _ _ H4 Hs3) as [-> Hs4]. cbn [mbind option_bind].
  destruct (skip_then 80 _ _ _ _ H5 Hs4) as [-> _].
  generalize (ser_tx (ap_coinbase a)), (ser_branch (ap_coinbase_branch a) (ap_coinbase_index a)),
    (ser_branch (ap_chain_branch a) (ap_chain_index a)).
  intros x y z. rewrite !size_app. f_equal. lia.
Qed.

(** *** The version bit *)

Lemma block_version_bit b0 b1 b2 b3 rest :
  Forall is_byte [b0; b1; b2; b3] ->
  (Z.land (block_version (hex_of [b0; b1; b2; b3] ++ rest)) 256 =? 0) = negb (Z.odd b1).
Proof.
  intros Hb. unfold block_version. rewrite take_app_le by done.
  rewrite (firstn_all2 (hex_of _)) by done. rewrite parse_int16_hex_of by done.
  cbn [default from_option foldl]. unfold id. set (v := to_int32 _). change 256 with (2 ^ 8).
  rewrite land_pow2_testbit by lia. f_equal. rewrite !Z.lor_spec. unfold shl32.
  rewrite !to_int32_testbit by lia.
  rewrite !(Z.shiftl_spec_low _ 24), !(Z.shiftl_spec_low _ 16) by lia.
  rewrite Z.shiftl_spec, !Z.land_spec, !Z.shiftr_spec by lia.
  change (Z.testbit 255 (8 - 8)) with true. change (Z.testbit 255 8) with false.
  rewrite andb_false_r, andb_true_r, orb_false_r. cbn [orb].
  unfold v. change (8 - 8 + 16) with 16. rewrite to_int32_testbit by lia.
  rewrite Z.testbit_eqb by lia.
  apply Forall_cons in Hb as [K0 Hb]. apply Forall_cons in Hb as [K1 Hb].
  apply Forall_cons in Hb as [K2 Hb]. apply Forall_cons in Hb as [K3 _].
  unfold is_byte in *.
  replace ((((0 * 256 + b0) * 256 + b1) * 256 + b2) * 256 + b3)
    with ((b0 * 256 + b1) * 2 ^ 16 + (b2 * 256 + b3)) by lia.
  rewrite Z.div_add_l, (Z.div_small (b2 * 256 + b3)), Z.add_0_r by lia.
  rewrite Zmod_odd, Z.odd_add, Z.odd_mul, andb_false_r. by destruct (Z.odd b1).
Qed.

(** ** Stripping a merge-mined block

    A block is an 80-byte header whose version has the merge-mining bit, the AuxPoW
    section and the transactions.  A newer daemon answers getblockheader with the plain
    header, an older one with the header and the section. *)

Record aux_header (h : bytes) : Prop := AuxHeader {
  ah_size : length h = 80%nat;
  ah_bytes : Forall is_byte h;
  ah_bit : Z.odd (nth 1 h 0) = true
}.

Section strip_facts.
Context `{BlockLib}.

(** A block of bytes that bitcoinjs-lib reads to its last byte, with a transaction and
    the merkle root of the header. *)
Definition whole_block (buf : bytes) : Prop :=
  exists block, block_fromBuffer buf = Some block
    /\ block_transactions block <> [] /\ block_byteLength block = size_of buf
    /\ calculateMerkleRoot (block_transactions block) = block_merkleRoot block.

Lemma assertWholeBlock_sound hex :
  assertWholeBlock hex = Some tt -> whole_block (from_hex hex).
Proof.
  unfold assertWholeBlock, whole_block. case_match; [done|].
  destruct (block_fromBuffer (from_hex hex)) as [block|]; [|done]. cbn [mbind option_bind].
  destruct (Z.of_nat _ <? 1) eqn:E1; [done|].
  destruct (block_byteLength block =? _) eqn:E2; [|done].
  destruct (bool_decide _) eqn:E3; [|done]. intros _. b2p. exists block.
  split; [done|]. split; [|by split].
  intros E. rewrite E in E1. simpl in E1. lia.
Qed.

Lemma assertWholeBlock_complete buf :
  Forall is_byte buf -> whole_block buf -> assertWholeBlock (hex_of buf) = Some tt.
Proof.
  intros Hb (block & Ef & Ht & Hl & Hm). unfold assertWholeBlock.
  rewrite from_hex_of by done. rewrite (proj2 (Z.eqb_eq _ _)).
  2: { rewrite length_hex_of. unfold size_of. lia. }
  cbn [negb]. rewrite Ef. cbn [mbind option_bind]. rewrite (proj2 (Z.ltb_ge _ _)).
  2: { destruct (block_transactions block); [done|]. simpl length. lia. }
  rewrite (proj2 (Z.eqb_eq _ _) Hl). by rewrite bool_decide_eq_true_2.
Qed.

Lemma cut_hex h a body :
  length h = 80%nat ->
  take 160 (hex_of (h ++ a ++ body)) ++ drop (160 + 2 * length a) (hex_of (h ++ a ++ body))
  = hex_of (h ++ body).
Proof.
  intros Hh. change 160%nat with (2 * 80)%nat. rewrite <- Nat.mul_add_distr_l.
  rewrite take_hex_of, drop_hex_of, <- hex_of_app, <- Hh. f_equal.
  rewrite take_app_length, <- drop_drop, drop_app_length, drop_app_length. done.
Qed.

Lemma strip_aux h a body headerHex :
  aux_header h -> ok_aux a -> Forall is_byte (ser_aux a) -> Forall is_byte body ->
  (length headerHex = 160 \/ length headerHex = 160 + 2 * length (ser_aux a))%nat ->
  stripAuxPowFromBlockHex headerHex (hex_of (h ++ ser_aux a ++ body))
  = (_ ← assertWholeBlock (hex_of (h ++ body)); Some (hex_of (h ++ body))).
Proof.
  intros [Hs Hh Hbit] Ha Hab Hbody Hlen. unfold stripAuxPowFromBlockHex.
  assert (Hcase : 0 < size_of (ser_aux a)).
  { unfold ser_aux. rewrite !size_app, (oa_parent_hash _ Ha).
    pose proof (size_nonneg (ser_tx (ap_coinbase a))).
    generalize (ser_branch (ap_coinbase_branch a) (ap_coinbase_index a)),
      (ser_branch (ap_chain_branch a) (ap_chain_index a)). intros x y.
    pose proof (size_nonneg x). pose proof (size_nonneg y).
    pose proof (size_nonneg (ap_parent_header a)). lia. }
  unfold size_of in Hcase. destruct Hlen as [->| ->].
  - change (0 <? Z.of_nat 160 - 160) with false.
    rewrite length_hex_of, !length_app, Hs.
    rewrite (proj2 (Z.leb_le 8 _)) by lia. cbn [andb].
    destruct h as [|b0 [|b1 [|b2 [|b3 h]]]]; try done. simpl in Hbit.
    assert (Hb4 : Forall is_byte [b0; b1; b2; b3]).
    { by do 4 (apply Forall_cons in Hh as [? Hh]; apply Forall_cons; split; [done|]). }
    change (hex_of ((b0 :: b1 :: b2 :: b3 :: h) ++ ser_aux a ++ body))
      with (hex_of [b0; b1; b2; b3] ++ hex_of (h ++ ser_aux a ++ body)) at 1.
    rewrite block_version_bit, Hbit by done. cbn [negb].
    set (hd := b0 :: b1 :: b2 :: b3 :: h) in *.
    rewrite from_hex_of by by rewrite !Forall_app.
    rewrite (skip_aux a _ 80 body Ha); cycle 1.
    { exists hd, []. rewrite app_nil_r. split; [done|]. unfold size_of. by rewrite Hs. }
    cbn [mbind option_bind].
    replace (Z.to_nat ((80 + size_of (ser_aux a)) * 2)) with (160 + 2 * length (ser_aux a))%nat
      by (unfold size_of; lia).
    by rewrite cut_hex.
  - rewrite (proj2 (Z.ltb_lt 0 _)) by lia.
    replace (Z.to_nat _) with (160 + 2 * length (ser_aux a))%nat by lia.
    by rewrite cut_hex.
Qed.

Lemma strip_sound headerHex blockHex out :
  stripAuxPowFromBlockHex headerHex blockHex = Some out ->
  whole_block (from_hex out)
  \/ (out = blockHex /\ (length headerHex <= 160)%nat
      /\ ((8 <= length blockHex)%nat -> Z.land (block_version blockHex) 256 = 0)).
Proof.
  unfold stripAuxPowFromBlockHex. intros Hs. case_match eqn:E1.
  - left. apply bind_Some in Hs as ([] & Hw & [= <-]). by apply assertWholeBlock_sound.
  - case_match eqn:E2.
    + left. apply bind_Some in Hs as (o & _ & Hs). apply bind_Some in Hs as ([] & Hw & [= <-]).
      by apply assertWholeBlock_sound.
    + right. injection Hs as <-. b2p. split; [done|]. split; [lia|]. intros H8.
      apply andb_false_iff in E2 as [E2|E2]; [b2p; lia|]. by apply negb_false_iff, Z.eqb_eq in E2.
Qed.

End strip_facts.
