(* ===== verification/Rpc.v ===== *)
(** * The RPC connection

    src/src/chain/blockchain_connector.js and, under blockchain_connector/, rpc_transport.js,
    rpc_helpers.js and transaction_queries.js: the endpoints and their configuration, the
    single POST path with endpoint failover, the retry ladder of the block queries and the
    ladder of getrawtransaction.

    axios, the node and the clock are the parameter [Transport]: what the [n]-th POST of
    the connector's life brings.  Sleeps and log lines are left out, and a throw keeps the
    fields callers read, not its message. *)
From S2P Require Import Prelude JsNum.
#[local] Open Scope Z_scope.

(** ** JSON values *)

#[warnings="-register-all"]
Inductive json :=
  | Prim (v : jsval)
  | Arr (l : list json)
  | Obj (fields : list (jstr * json)).

Definition undefined : json := Prim JUndefined.
Definition jstring (s : jstr) : json := Prim (JStr s).

Fixpoint assoc (k : jstr) (fields : list (jstr * json)) : json :=
  match fields with
  | [] => undefined
  | (k', v) :: rest => if eqs k k' then v else assoc k rest
  end.

(** [o.k]; [None] is the TypeError of undefined and null. *)
Definition get (o : json) (k : jstr) : option json :=
  match o with
  | Prim JUndefined | Prim JNull => None
  | Obj fields => Some (assoc k fields)
  | _ => Some undefined
  end.

(** [o?.k] *)
Definition get_opt (o : json) (k : jstr) : json := default undefined (get o k).

Definition truthy (v : json) : bool :=
  match v with
  | Prim JUndefined | Prim JNull => false
  | Prim (JBool b) => b
  | Prim (JNum n) => negb (falsy_num n)
  | Prim (JStr s) => negb (is_empty s)
  | Prim (JBigInt z) => negb (z =? 0)
  | _ => true
  end.

Definition is_undefined (v : json) : bool :=
  match v with Prim JUndefined => true | _ => false end.
Definition is_nullish (v : json) : bool :=
  match v with Prim JUndefined | Prim JNull => true | _ => false end.
Definition is_object (v : json) : bool :=
  match v with Arr _ | Obj _ | Prim JNull => true | _ => false end.
Definition string_of (v : json) : option jstr :=
  match v with Prim (JStr s) => Some s | _ => None end.

(** [v === z] and [typeof v === 'number'] *)
Definition is_int (v : json) (z : Z) : bool :=
  match v with Prim (JNum n) => num_is n z | _ => false end.
Definition is_number (v : json) : bool :=
  match v with Prim (JNum _) => true | _ => false end.
Definition is_text (v : json) (s : jstr) : bool :=
  match v with Prim (JStr t) => eqs t s | _ => false end.

(** ** Errors *)

(** The fields of a thrown error; [err_response] is [error.response], when there is one. *)
Record rpc_error := RpcError {
  err_code : json;
  err_rpcCode : json;
  err_rpcMessage : json;
  err_response : option (json * json);    (* status, data *)
  auxPowParseFailure : bool
}.

Definition plain_rpc_error : rpc_error := RpcError undefined undefined undefined None false.

Definition attachRpcFields (e : rpc_error) (rpcCode rpcMessage : json) : rpc_error :=
  if is_undefined rpcCode && is_undefined rpcMessage then e
  else RpcError (err_code e) rpcCode rpcMessage (err_response e) (auxPowParseFailure e).

Definition text_or_undefined (v : json) : json :=
  match v with Prim (JStr _) => v | _ => undefined end.

(** The node's code and message are read before the response is cut to its status. *)
Definition sanitizeRpcError (e : rpc_error) : rpc_error :=
  match err_response e with
  | None => e
  | Some (status, data) =>
      let rpcErr := if truthy data then get_opt data (js "error") else data in
      let known := truthy rpcErr && is_object rpcErr in
      let rpcCode := if known then get_opt rpcErr (js "code") else undefined in
      let rpcMessage := if known then text_or_undefined (get_opt rpcErr (js "message"))
                        else undefined in
      attachRpcFields
        (RpcError (err_code e) (err_rpcCode e) (err_rpcMessage e)
           (if is_undefined status then None else Some (status, undefined))
           (auxPowParseFailure e))
        rpcCode rpcMessage
  end.

Definition carryErrorIdentity (target : rpc_error) (cause : option rpc_error) : rpc_error :=
  match cause with
  | None => target
  | Some c =>
      attachRpcFields
        (if is_undefined (err_code c) then target
         else RpcError (err_code c) (err_rpcCode target) (err_rpcMessage target)
                (err_response target) (auxPowParseFailure target))
        (err_rpcCode c) (err_rpcMessage c)
  end.

(** [rpcResult(response, label)], of the response's data. *)
Definition rpcResult (data : json) : rpc_error + json :=
  let rpcError := if truthy data then get_opt data (js "error") else data in
  if truthy data && truthy rpcError then
    inl (attachRpcFields plain_rpc_error (get_opt rpcError (js "code"))
           (text_or_undefined (get_opt rpcError (js "message"))))
  else if negb (truthy data) then inl plain_rpc_error
  else
    let result := get_opt data (js "result") in
    if is_nullish result then inl plain_rpc_error else inr result.

(** ** The connector *)

Inductive request :=
  | ReqNetworkInfo
  | ReqBlockchainInfo
  | ReqBlockHash (blockindex : num)
  | ReqBlockHeader (blockhash : json) (verbose : bool)
  | ReqBlock (blockhash : json) (verbose : bool)
  | ReqRawTransaction (txid : json)
  | ReqRawMempool.

Inductive posted := Answered (status data : json) | Refused (e : rpc_error).

Class Transport := {
  axios_post : nat -> Z -> request -> posted;   (* of the n-th POST, to that endpoint *)
  post_time : nat -> Z
}.

Record connector := Connector {
  endpoints_length : Z;
  failoverThreshold : Z;
  activeEndpointIndex : Z;
  connectionFailures : Z;
  connector_rpcErrors : Z;
  lastNodeOkAt : Z;
  lastNodeFailAt : Z;
  posts : nat                     (* POSTs made so far *)
}.

(** *** Its configuration *)

(** [/^-?\d+$/] *)
Definition integer_text (s : jstr) : bool :=
  let ds := match s with c :: s' => if c =? 45 then s' else s | [] => [] end in
  negb (is_empty ds) && forallb is_digit ds.

Definition envInt (raw : option jstr) (fallback min : Z) : Z :=
  let s := trim (default [] raw) in
  match (if integer_text s then integer_of (string_to_number s) else None) with
  | Some n => if n <? min then fallback else n
  | None => fallback
  end.

(** The optional protocol of an entry, [None] where there is none, and the rest. *)
Definition split_protocol (s : jstr) : option jstr * jstr :=
  let http := js "http:" ++ [47; 47] in
  let https := js "https:" ++ [47; 47] in
  if startsWith http s then (Some http, drop (length http) s)
  else if startsWith https s then (Some https, drop (length https) s)
  else (None, s).

Definition host_char (c : Z) : bool := negb ((c =? 58) || (c =? 47)).

(** [/^(https?:\/\/)?([^:\/]+)(?::(\d+))?$/] of the trimmed entry, the parts put together
    again with what was missing. *)
Definition normalizeEndpoint (entry defaultPort : jstr) : option jstr :=
  let '(protocol, rest) := split_protocol (trim entry) in
  let '(host, after) := span host_char rest in
  if is_empty host then None
  else
    let base port := default (js "http:" ++ [47; 47]) protocol ++ host ++ 58 :: port in
    match after with
    | [] => Some (base defaultPort)
    | c :: port =>
        if (c =? 58) && negb (is_empty port) && forallb is_digit port then Some (base port) else None
    end.

(** [NODE_URL_FALLBACK.split(',').map(s => s.trim()).filter(Boolean)] *)
Definition fallback_entries (raw : jstr) : list jstr :=
  List.filter (fun s => negb (is_empty s)) (map trim (split_on 44 raw)).

(** The ordered endpoints and the fields; [None]: an entry is invalid. *)
Definition new_connector (url port fallback : jstr) (threshold : option jstr) : option (list jstr * connector) :=
  endpoints ← mapM (fun e => normalizeEndpoint e port) (url :: fallback_entries fallback);
  Some (endpoints,
        Connector (Z.of_nat (length endpoints)) (envInt threshold 3 1) 0 0 0 0 0 0).

Definition R (A : Type) : Type := connector -> (rpc_error + A) * connector.

#[export] Instance R_ret : MRet R := fun A a c => (inr a, c).
#[export] Instance R_bind : MBind R := fun A B k m c =>
  match m c with
  | (inr a, c') => k a c'
  | (inl e, c') => (inl e, c')
  end.

Definition rthrow {A} (e : rpc_error) : R A := fun c => (inl e, c).
Definition rcatch {A} (m : R A) (h : rpc_error -> R A) : R A := fun c =>
  match m c with (inl e, c') => h e c' | r => r end.
Definition lift_result {A} (r : rpc_error + A) : R A := fun c => (r, c).

Definition with_endpoint i f c := Connector (endpoints_length c) (failoverThreshold c) i f
  (connector_rpcErrors c) (lastNodeOkAt c) (lastNodeFailAt c) (posts c).
Definition with_seen ok fail n c := Connector (endpoints_length c) (failoverThreshold c)
  (activeEndpointIndex c) (connectionFailures c) (connector_rpcErrors c) ok fail n.
Definition count_rpc_error : R unit := fun c =>
  (inr tt, Connector (endpoints_length c) (failoverThreshold c) (activeEndpointIndex c)
             (connectionFailures c) (connector_rpcErrors c + 1) (lastNodeOkAt c)
             (lastNodeFailAt c) (posts c)).

Definition CONNECTION_ERROR_CODES : list jstr :=
  map js ["ECONNREFUSED"; "ECONNRESET"; "ECONNABORTED"; "ENOTFOUND"; "EHOSTUNREACH";
          "ENETUNREACH"; "ETIMEDOUT"; "EAI_AGAIN"; "EPIPE"]%string.

Definition connection_error (e : rpc_error) : bool :=
  existsb (is_text (err_code e)) CONNECTION_ERROR_CODES.

Definition noteConnectionFailure (c : connector) : connector :=
  if endpoints_length c <? 2 then c
  else
    let n := connectionFailures c + 1 in
    if failoverThreshold c <=? n
    then with_endpoint ((activeEndpointIndex c + 1) mod endpoints_length c) 0 c
    else with_endpoint (activeEndpointIndex c) n c.

Section Rpc.
Context `{Transport}.

Definition rpcPost (data : request) : R (json * json) := fun c =>
  let n := posts c in
  match axios_post n (activeEndpointIndex c) data with
  | Answered status body =>
      (inr (status, body),
       with_endpoint (activeEndpointIndex c) 0
         (with_seen (post_time n) (lastNodeFailAt c) (S n) c))
  | Refused e =>
      let c := with_seen (lastNodeOkAt c) (post_time n) (S n) c in
      (inl e,
       if err_response e is Some _ then with_endpoint (activeEndpointIndex c) 0 c
       else if connection_error e then noteConnectionFailure c
       else c)
  end.

(** ** The ladder of the block queries *)

Definition RPC_TRIES : nat := 10.

(** [tries] are left. *)
Fixpoint rpc_ladder (tries : nat) (lastError : option rpc_error) (data : request) : R json :=
  match tries with
  | O =>
      count_rpc_error;; rthrow (carryErrorIdentity plain_rpc_error lastError)
  | S n =>
      rcatch (r ← (p ← rpcPost data; lift_result (rpcResult p.2)); mret (inr r))
        (fun e =>
           if is_text (err_code e) (js "ECONNABORTED") then mret (inl (sanitizeRpcError e))
           else count_rpc_error;; rthrow (sanitizeRpcError e))
      ≫= fun r : rpc_error + json =>
           match r with
           | inr result => mret result
           | inl e => rpc_ladder n (Some e) data
           end
  end.

Definition rpcCallWithTimeoutRetry (data : request) : R json := rpc_ladder RPC_TRIES None data.

(** ** getrawtransaction *)

Definition is_hex_char (c : Z) : bool := bool_decide (is_Some (hex_value c)).

Definition wholeHexResult (result : json) : rpc_error + json :=
  match string_of result with
  | Some s =>
      if (Z.of_nat (length s) mod 2 =? 0) && negb (is_empty s) && forallb is_hex_char s
      then inr result else inl plain_rpc_error
  | None => inl plain_rpc_error
  end.

(** [null] is the answer of a transaction the node does not have. *)
Definition jnull : json := Prim JNull.

Definition rawTransactionResponse (status data : json) : rpc_error + json :=
  let httpRpcError := get_opt data (js "error") in
  let code := get_opt httpRpcError (js "code") in
  if truthy httpRpcError && is_number code && negb (is_int code (-5)) then
    inl (RpcError undefined undefined undefined
           (Some (status, Obj [(js "error", Obj [(js "code", code);
              (js "message", get_opt httpRpcError (js "message"))])])) false)
  else
    match get data (js "result") with
    | None => inl plain_rpc_error
    | Some result => if truthy result then wholeHexResult result else inr jnull
    end.

(** [error.response?.data?.error?.code === -5] *)
Definition tx_not_found (e : rpc_error) : bool :=
  match err_response e with
  | Some (_, data) => is_int (get_opt (get_opt data (js "error")) (js "code")) (-5)
  | None => false
  end.

Definition RAW_TX_TRIES : nat := 10.

Fixpoint raw_tx_ladder (tries : nat) (lastError : option rpc_error) (txid : json) : R json :=
  match tries with
  | O => count_rpc_error;; rthrow (carryErrorIdentity plain_rpc_error lastError)
  | S n =>
      rcatch
        (r ← (p ← rpcPost (ReqRawTransaction txid);
              lift_result (rawTransactionResponse p.1 p.2)); mret (inr r))
        (fun e => if tx_not_found e then mret (inr jnull)
                  else mret (inl (sanitizeRpcError e)))
      ≫= fun r : rpc_error + json =>
           match r with
           | inr result => mret result
           | inl e => raw_tx_ladder n (Some e) txid
           end
  end.

Definition getRawTransaction (txid : json) : R json := raw_tx_ladder RAW_TX_TRIES None txid.

(** In the order of the ids.  The calls of a slice overlap in the code; here one follows
    the other. *)
Fixpoint getRawTransactions (txIdArray : list json) : R (list json) :=
  match txIdArray with
  | [] => mret []
  | txid :: rest => t ← getRawTransaction txid; l ← getRawTransactions rest; mret (t :: l)
  end.
End Rpc.

(** ** Reachability of the node *)

(** The published pair: the last success, and since when the node has not answered, with
    the age in seconds. *)
Definition nodeReachabilityFrom (startedAt lastOk lastFail now : Z)
  : option Z * option (Z * Z) :=
  let lastOkAt := if 0 <? lastOk then Some lastOk else None in
  let failing := (0 <? lastFail) && ((lastOk =? 0) || (lastOk <? lastFail)) in
  if negb failing then (lastOkAt, None)
  else
    let sinceMs := if 0 <? lastOk then lastOk else startedAt in
    (lastOkAt, Some (sinceMs, Z.max 0 ((now - sinceMs) / 1000))).

(** ** Facts *)

Definition in_range (c : connector) : Prop := 0 <= activeEndpointIndex c < endpoints_length c.

Section RpcFacts.
Context `{Transport}.

Lemma noteConnectionFailure_in_range c : in_range c -> in_range (noteConnectionFailure c).
Proof.
  unfold noteConnectionFailure, in_range. intros Hc.
  case_match; [done|]. case_match; simpl; [|done]. apply Z.mod_pos_bound. lia.
Qed.

Lemma rpcPost_in_range d c : in_range c -> in_range (rpcPost d c).2.
Proof.
  intros Hc. unfold rpcPost. destruct (axios_post _ _ _); [done|].
  cbn [snd]. repeat case_match; try done. by apply noteConnectionFailure_in_range.
Qed.

Lemma rpcPost_posts d c :
  posts (rpcPost d c).2 = S (posts c) /\ connector_rpcErrors (rpcPost d c).2 = connector_rpcErrors c
  /\ endpoints_length (rpcPost d c).2 = endpoints_length c
  /\ failoverThreshold (rpcPost d c).2 = failoverThreshold c.
Proof.
  unfold rpcPost, noteConnectionFailure. destruct (axios_post _ _ _); [done|]. cbn [snd].
  by repeat case_match.
Qed.

(** What the [n]-th POST, to some endpoint, brought. *)
Definition timed_out (n : nat) : Prop :=
  exists i d e, axios_post n i d = Refused e /\ is_text (err_code e) (js "ECONNABORTED") = true.

Lemma rpcResult_not_timeout data e :
  rpcResult data = inl e -> is_text (err_code e) (js "ECONNABORTED") = false.
Proof.
  unfold rpcResult. repeat case_match; intros [= <-]; try done.
  unfold attachRpcFields. by case_match.
Qed.

(** A call makes between one and [tries] POSTs, all but the last timed out; a failed call
    is counted once, a successful one not at all. *)
Lemma rpc_ladder_posts tries lastError d c :
  let '(r, c') := rpc_ladder tries lastError d c in
  (posts c <= posts c' <= posts c + tries)%nat /\ (tries <> O -> posts c < posts c')%nat
  /\ (forall k, posts c <= k -> S k < posts c' -> timed_out k)%nat
  /\ connector_rpcErrors c' = connector_rpcErrors c + (if r is inl _ then 1 else 0).
Proof.
  revert lastError c. induction tries as [|n IH]; intros lastError c.
  { cbn. unfold mbind, R_bind. cbn. split; [lia|]. split; [done|]. split; [lia|done]. }
  cbn [rpc_ladder]. unfold mbind at 1, R_bind at 1, rcatch, mbind at 1, R_bind at 1.
  unfold mbind at 1, R_bind at 1.
  pose proof (rpcPost_posts d c) as (Hp & Hq & _).
  assert (Hret : timed_out (posts c) \/ (forall e, (rpcPost d c).1 = inl e ->
            is_text (err_code e) (js "ECONNABORTED") = false)).
  { unfold rpcPost. destruct (axios_post _ _ _) as [|e] eqn:E; [by right|].
    destruct (is_text (err_code e) (js "ECONNABORTED")) eqn:Et; [left; by repeat eexists|].
    right. by intros e' [= <-]. }
  destruct (rpcPost d c) as [[e|[st data]] c1]; cbn [fst snd] in *.
  - destruct (is_text (err_code e) _) eqn:Et.
    + destruct Hret as [Hret|Hret]; [|by specialize (Hret e eq_refl); congruence].
      cbn [mret R_ret]. specialize (IH (Some (sanitizeRpcError e)) c1).
      destruct (rpc_ladder n _ d c1) as [r c2]. destruct IH as (I1 & I2 & I3 & I4).
      split; [lia|]. split; [lia|]. split; [|lia]. intros k Hk1 Hk2.
      destruct (decide (k = posts c)) as [->|Hne]; [done|]. apply I3; lia.
    + unfold mbind, R_bind. cbn. split; [lia|]. split; [lia|]. split; [lia|lia].
  - unfold lift_result. destruct (rpcResult data) as [e|result] eqn:Er; cbn [mret R_ret].
    + rewrite (rpcResult_not_timeout _ _ Er). unfold mbind, R_bind. cbn. split; [lia|]. split; [lia|]. split; [lia|lia].
    + split; [lia|]. split; [lia|]. split; [lia|lia].
Qed.

(** *** Failover *)

(** No endpoint can be reached. *)
Definition unreachable : Prop :=
  forall n i d, exists e, axios_post n i d = Refused e /\ err_response e = None
                          /\ connection_error e = true.

Fixpoint post_many (k : nat) (d : request) (c : connector) : connector :=
  match k with
  | O => c
  | S n => post_many n d (rpcPost d c).2
  end.

Lemma post_many_add j k d c : post_many (j + k) d c = post_many k d (post_many j d c).
Proof. revert c. induction j as [|j IH]; intros c; [done|]. apply IH. Qed.

Lemma unreachable_post d c :
  unreachable -> 2 <= endpoints_length c ->
  activeEndpointIndex (rpcPost d c).2
    = (if failoverThreshold c <=? connectionFailures c + 1
       then (activeEndpointIndex c + 1) mod endpoints_length c else activeEndpointIndex c)
  /\ connectionFailures (rpcPost d c).2
    = (if failoverThreshold c <=? connectionFailures c + 1 then 0 else connectionFailures c + 1).
Proof.
  intros Hu Hn. unfold rpcPost.
  destruct (Hu (posts c) (activeEndpointIndex c) d) as (e & -> & -> & ->). cbn [snd].
  unfold noteConnectionFailure. cbn [endpoints_length with_seen].
  rewrite (proj2 (Z.ltb_ge _ _) Hn). cbn. by case_match.
Qed.

(** One full round of failures moves on to the next endpoint. *)
Lemma post_many_failures j d c :
  unreachable -> 2 <= endpoints_length c -> 0 <= connectionFailures c ->
  connectionFailures c + Z.of_nat j < failoverThreshold c ->
  let c' := post_many j d c in
  activeEndpointIndex c' = activeEndpointIndex c
  /\ connectionFailures c' = connectionFailures c + Z.of_nat j
  /\ endpoints_length c' = endpoints_length c /\ failoverThreshold c' = failoverThreshold c.
Proof.
  intros Hu. revert c. induction j as [|j IH]; intros c Hn H0 Hj c'; subst c'.
  { simpl. repeat split; lia. }
  cbn [post_many]. pose proof (rpcPost_posts d c) as (_ & _ & Hl & Ht).
  destruct (unreachable_post d c Hu Hn) as [Ha Hf].
  rewrite (proj2 (Z.leb_gt _ _)) in Ha, Hf by lia.
  destruct (IH (rpcPost d c).2) as (I1 & I2 & I3 & I4); [lia..|]. repeat split; lia.
Qed.

Lemma post_many_round d c :
  unreachable -> 2 <= endpoints_length c -> connectionFailures c = 0 -> 1 <= failoverThreshold c ->
  let c' := post_many (Z.to_nat (failoverThreshold c)) d c in
  activeEndpointIndex c' = (activeEndpointIndex c + 1) mod endpoints_length c
  /\ connectionFailures c' = 0
  /\ endpoints_length c' = endpoints_length c /\ failoverThreshold c' = failoverThreshold c.
Proof.
  intros Hu Hn Hz Ht. set (j := Z.to_nat (failoverThreshold c - 1)). cbn zeta.
  replace (Z.to_nat (failoverThreshold c)) with (j + 1)%nat by lia. rewrite post_many_add.
  destruct (post_many_failures j d c Hu Hn) as (I1 & I2 & I3 & I4); [lia..|].
  set (c1 := post_many j d c) in *. cbn [post_many].
  pose proof (rpcPost_posts d c1) as (_ & _ & Hl & Hth).
  destruct (unreachable_post d c1 Hu) as [Ha Hf]; [lia|].
  rewrite (proj2 (Z.leb_le _ _)) in Ha, Hf by lia. rewrite Ha, Hf, I1, I3. repeat split; lia.
Qed.

Lemma post_many_rounds k d c :
  unreachable -> 2 <= endpoints_length c -> in_range c -> connectionFailures c = 0 ->
  1 <= failoverThreshold c ->
  let c' := post_many (k * Z.to_nat (failoverThreshold c)) d c in
  activeEndpointIndex c' = (activeEndpointIndex c + Z.of_nat k) mod endpoints_length c
  /\ connectionFailures c' = 0.
Proof.
  intros Hu. revert c. induction k as [|k IH]; intros c Hn Hr Hz Ht.
  { simpl. rewrite Z.add_0_r, Z.mod_small; [done|exact Hr]. }
  cbn [Nat.mul]. rewrite post_many_add.
  destruct (post_many_round d c Hu Hn Hz Ht) as (I1 & I2 & I3 & I4).
  set (c1 := post_many (Z.to_nat (failoverThreshold c)) d c) in *.
  rewrite <- I4. destruct (IH c1) as [J1 J2]; [lia| |lia..|].
  { unfold in_range. rewrite I1, I3. apply Z.mod_pos_bound. lia. }
  split; [|done]. rewrite J1, I1, I3, Zplus_mod_idemp_l. f_equal. lia.
Qed.

(** While nothing can be reached every endpoint has its turn: the one [k] places further
    on is the active one after [k] rounds of [failoverThreshold] POSTs. *)
Lemma endpoint_turn target d c :
  unreachable -> 2 <= endpoints_length c -> in_range c -> connectionFailures c = 0 ->
  1 <= failoverThreshold c -> 0 <= target < endpoints_length c ->
  exists n, (Z.of_nat n <= endpoints_length c * failoverThreshold c)
    /\ activeEndpointIndex (post_many n d c) = target.
Proof.
  intros Hu Hn Hr Hz Ht Hg. set (k := Z.to_nat ((target - activeEndpointIndex c) mod endpoints_length c)).
  exists (k * Z.to_nat (failoverThreshold c))%nat.
  pose proof (Z.mod_pos_bound (target - activeEndpointIndex c) (endpoints_length c)) as Hk.
  split; [rewrite Nat2Z.inj_mul; nia|].
  destruct (post_many_rounds k d c Hu Hn Hr Hz Ht) as [-> _]. unfold k.
  rewrite Z2Nat.id, Zplus_mod_idemp_r by lia.
  replace (activeEndpointIndex c + (target - activeEndpointIndex c)) with target by lia.
  by apply Z.mod_small.
Qed.

(** *** getrawtransaction *)

(** The node itself said it has no such transaction. *)
Definition node_has_no_tx (n : nat) (txid : json) : Prop :=
  exists i, match axios_post n i (ReqRawTransaction txid) with
            | Answered _ data => exists r, get data (js "result") = Some r /\ truthy r = false
            | Refused e => tx_not_found e = true
            end.

Definition whole_hex (v : json) : Prop :=
  exists s, v = jstring s /\ s <> [] /\ Z.of_nat (length s) mod 2 = 0
            /\ Forall (fun c => is_hex_char c = true) s.

Lemma rawTransactionResponse_sound status data v :
  rawTransactionResponse status data = inr v ->
  whole_hex v \/ (v = jnull /\ exists r, get data (js "result") = Some r /\ truthy r = false).
Proof.
  unfold rawTransactionResponse. case_match; [done|].
  destruct (get data (js "result")) as [r|]; [|done].
  destruct (truthy r) eqn:Et.
  - unfold wholeHexResult. destruct r as [[| | | |s|]| |]; try done. cbn [string_of].
    destruct ((_ =? 0) && _ && _) eqn:E; [|done]. intros [= <-]. left.
    apply andb_true_iff in E as [E E3]. apply andb_true_iff in E as [E1 E2].
    exists s. split; [done|]. split; [by intros ->|]. split; [by apply Z.eqb_eq|].
    apply Forall_forall. intros c Hc. rewrite forallb_forall in E3. apply E3. by apply list_elem_of_In.
  - intros [= <-]. right. split; [done|]. by exists r.
Qed.

(** An answer that is an error is not the one of a missing transaction. *)
Lemma rawTransactionResponse_found status data e :
  rawTransactionResponse status data = inl e -> tx_not_found e = false.
Proof.
  unfold rawTransactionResponse.
  generalize (get_opt (get_opt data (js "error")) (js "message")) as m.
  generalize (get_opt (get_opt data (js "error")) (js "code")) as code. intros code m.
  case_match eqn:Ec; [intros [= <-]|].
  - change (is_int code (-5) = false). apply andb_true_iff in Ec as [_ Ec].
    by apply negb_true_iff.
  - destruct (get data _); [|by intros [= <-]]. case_match; [|done].
    unfold wholeHexResult. repeat case_match; by intros [= <-].
Qed.

Lemma raw_tx_ladder_sound tries lastError txid c v c' :
  raw_tx_ladder tries lastError txid c = (inr v, c') ->
  (posts c < posts c' <= posts c + tries)%nat
  /\ (whole_hex v \/ (v = jnull /\ node_has_no_tx (pred (posts c')) txid)).
Proof.
  revert lastError c. induction tries as [|n IH]; intros lastError c; [done|].
  cbn [raw_tx_ladder]. unfold mbind, R_bind, rcatch, lift_result.
  pose proof (rpcPost_posts (ReqRawTransaction txid) c) as (Hp & _).
  destruct (rpcPost (ReqRawTransaction txid) c) as [[e|[st data]] c1] eqn:E; cbn [fst snd] in *.
  - destruct (tx_not_found e) eqn:Et; cbn [mret R_ret].
    + intros [= <- <-]. rewrite Hp. split; [lia|]. right. split; [done|]. cbn [pred].
      unfold rpcPost in E. destruct (axios_post _ _ _) as [|e'] eqn:Ea; [done|].
      injection E as -> _. exists (activeEndpointIndex c). by rewrite Ea.
    + intros Hl. apply IH in Hl as [I1 I2]. split; [lia|done].
  - destruct (rawTransactionResponse st data) as [e|r] eqn:Er; cbn [mret R_ret].
    + destruct (tx_not_found e) eqn:Et; cbn [mret R_ret].
      { by rewrite (rawTransactionResponse_found _ _ _ Er) in Et. }
      intros Hl. apply IH in Hl as [I1 I2]. split; [lia|done].
    + intros [= <- <-]. rewrite Hp. split; [lia|].
      destruct (rawTransactionResponse_sound _ _ _ Er) as [Hw|[Hn Hd]]; [by left|]. right.
      split; [done|]. cbn [pred]. unfold rpcPost in E.
      destruct (axios_post _ _ _) as [st' d'|] eqn:Ea; [|done]. injection E as -> -> _.
      exists (activeEndpointIndex c). by rewrite Ea.
Qed.
End RpcFacts.

(** ** Properties *)

(** *** A new connector *)

Lemma envInt_min raw fallback min : min <= fallback -> min <= envInt raw fallback min.
Proof.
  intros H. unfold envInt. destruct (if integer_text _ then _ else None) as [n|]; [|done].
  destruct (Z.ltb_spec n min); lia.
Qed.

(** A connector starts as the theorems about failover want it. *)
Lemma new_connector_ok url port fallback threshold l c :
  new_connector url port fallback threshold = Some (l, c) ->
  in_range c /\ connectionFailures c = 0 /\ 1 <= failoverThreshold c
  /\ endpoints_length c = Z.of_nat (S (length (fallback_entries fallback))).
Proof.
  unfold new_connector. destruct (mapM _ _) as [es|] eqn:E; [|done]. intros [= <- <-].
  apply length_mapM in E. unfold in_range. cbn in *. split_and!; [lia|lia|done|apply envInt_min; lia|by rewrite <- E].
Qed.

Lemma trim_ends s x m y : s = x :: m ++ [y] -> is_ws x = false -> is_ws y = false -> trim s = s.
Proof.
  intros -> Hx Hy. unfold trim. cbn [drop_ws]. rewrite Hx. cbn [rev]. rewrite rev_app_distr. cbn [rev app].
  cbn [drop_ws]. rewrite Hy. rewrite <- (rev_involutive (x :: m ++ [y])). f_equal. cbn [rev].
  by rewrite rev_app_distr.
Qed.

Lemma digits_end port : negb (is_empty port) && forallb is_digit port = true ->
  exists m y, port = m ++ [y] /\ is_ws y = false.
Proof.
  intros [Hne Hd]%andb_prop. destruct port as [|c port _] using rev_ind; [done|]. exists port, c. split; [done|].
  rewrite forallb_app in Hd. apply andb_prop in Hd as [_ Hd]. cbn in Hd. rewrite andb_true_r in Hd.
  unfold is_digit in Hd. unfold is_ws. lia.
Qed.

(** An endpoint in normal form stays as it is, whatever the default port. *)
Lemma normalizeEndpoint_normal protocol host port port' :
  protocol = js "http:" ++ [47; 47] \/ protocol = js "https:" ++ [47; 47] ->
  host <> [] -> Forall (fun c => host_char c = true) host ->
  negb (is_empty port) && forallb is_digit port = true ->
  normalizeEndpoint (protocol ++ host ++ 58 :: port) port' = Some (protocol ++ host ++ 58 :: port).
Proof.
  intros Hp Hne Hh Hd. set (e := protocol ++ host ++ 58 :: port).
  destruct (digits_end port Hd) as (m & y & Ey & Hy).
  assert (trim e = e) as Ht.
  { assert (exists p, protocol = 104 :: p) as [p Ep] by (destruct Hp as [-> | ->]; by eexists).
    apply (trim_ends _ 104 (p ++ host ++ 58 :: m) y); [|done|done]. unfold e. rewrite Ep, Ey.
    cbn [app]. by rewrite <- !app_assoc. }
  assert (split_protocol e = (Some protocol, host ++ 58 :: port)) as Hs by (destruct Hp as [-> | ->]; done).
  unfold normalizeEndpoint. rewrite Ht, Hs.
  assert (span host_char (host ++ 58 :: port) = (host, 58 :: port)) as Hsp.
  { clear -Hh. induction Hh as [|c host Hc _ IH]; [done|]. cbn [app span]. by rewrite Hc, IH. }
  rewrite Hsp. destruct host as [|c host]; [done|]. cbn [is_empty default from_option Z.eqb]. unfold id.
  cbn. by rewrite Hd.
Qed.

(** So normalising twice is normalising once. *)
Lemma normalizeEndpoint_again entry port e :
  negb (is_empty port) && forallb is_digit port = true ->
  normalizeEndpoint entry port = Some e -> forall port', normalizeEndpoint e port' = Some e.
Proof.
  intros Hport. unfold normalizeEndpoint at 1. destruct (split_protocol (trim entry)) as [protocol rest] eqn:Es.
  destruct (span host_char rest) as [host after] eqn:Eh.
  assert (Forall (fun c => host_char c = true) host) as Hh by (pose proof (span_forall host_char rest) as H; by rewrite Eh in H).
  assert (default (js "http:" ++ [47; 47]) protocol = js "http:" ++ [47; 47]
    \/ default (js "http:" ++ [47; 47]) protocol = js "https:" ++ [47; 47]) as Hp.
  { unfold split_protocol in Es. repeat case_match; injection Es as <- _; by (left + right). }
  destruct host as [|c host]; [done|]. cbn [is_empty]. destruct after as [|d after].
  - intros [= <-] port'. exact (normalizeEndpoint_normal _ (c :: host) port port' Hp ltac:(done) Hh Hport).
  - destruct ((d =? 58) && negb (is_empty after) && forallb is_digit after) eqn:Ed; [|done].
    intros [= <-] port'. apply andb_prop in Ed as [Ed H2]. apply andb_prop in Ed as [_ H1].
    apply (normalizeEndpoint_normal _ (c :: host)); [done|done|done|by rewrite H1, H2].
Qed.

(** C35: while no endpoint can be reached every configured endpoint gets its turn, within
    as many POSTs as there are endpoints times the failover threshold. *)
Theorem failover_reaches_every_endpoint `{Transport} target d c :
  unreachable -> 2 <= endpoints_length c -> in_range c -> connectionFailures c = 0 ->
  1 <= failoverThreshold c -> 0 <= target < endpoints_length c ->
  exists n, (Z.of_nat n <= endpoints_length c * failoverThreshold c)
    /\ activeEndpointIndex (post_many n d c) = target.
Proof. apply endpoint_turn. Qed.

Definition refused_error : rpc_error :=
  RpcError (jstring (js "ECONNREFUSED")) undefined undefined None false.

Definition dead_network : Transport := {|
  axios_post _ _ _ := Refused refused_error; post_time _ := 0 |}.

Lemma failover_reaches_every_endpoint_witness :
  exists n, (Z.of_nat n <= 3 * 2)
    /\ activeEndpointIndex (@post_many dead_network n ReqRawMempool (Connector 3 2 1 0 0 0 0 0)) = 0.
Proof.
  apply (@failover_reaches_every_endpoint dead_network 0 ReqRawMempool (Connector 3 2 1 0 0 0 0 0)).
  - intros n i d. exists refused_error. by vm_compute.
  - done.
  - done.
  - done.
  - done.
  - done.
Defined.

(** A block query always ends: it makes between one POST and ten, every one before the
    last ended in a timeout, and the error counter moves by one exactly when it throws. *)
Theorem rpc_call_bounded `{Transport} d c :
  let '(r, c') := rpcCallWithTimeoutRetry d c in
  (posts c < posts c' <= posts c + 10)%nat
  /\ (forall k, posts c <= k -> S k < posts c' -> timed_out k)%nat
  /\ connector_rpcErrors c' = connector_rpcErrors c + (if r is inl _ then 1 else 0).
Proof.
  unfold rpcCallWithTimeoutRetry. pose proof (rpc_ladder_posts RPC_TRIES None d c) as Hp.
  destruct (rpc_ladder RPC_TRIES None d c) as [r c']. destruct Hp as (H1 & H2 & H3 & H4).
  unfold RPC_TRIES in *. split; [|by split]. split; [by apply H2|lia].
Qed.

(** A transaction reads as missing only when the node itself said so, in its last
    answer; anything else that is returned is a whole hex string.  No failure of the
    transport is taken for a missing transaction. *)
Theorem missing_tx_only_from_node `{Transport} txid c v c' :
  getRawTransaction txid c = (inr v, c') ->
  (posts c < posts c' <= posts c + 10)%nat
  /\ (whole_hex v \/ (v = jnull /\ node_has_no_tx (pred (posts c')) txid)).
Proof. apply raw_tx_ladder_sound. Qed.

(** Two refused connections, then the node's "no such transaction". *)
Definition evicted_tx : Transport := {|
  axios_post n _ _ :=
    if (n <? 2)%nat then Refused refused_error
    else Refused (RpcError undefined undefined undefined
           (Some (Prim (jint 500),
              Obj [(js "error", Obj [(js "code", Prim (jint (-5)))])])) false);
  post_time _ := 0 |}.

Lemma missing_tx_only_from_node_witness :
  let r := @getRawTransaction evicted_tx (jstring (js "ab")) (Connector 1 3 0 0 0 0 0 0) in
  r.1 = inr jnull /\ posts r.2 = 3%nat
  /\ (whole_hex jnull \/ (jnull = jnull
      /\ @node_has_no_tx evicted_tx (pred (posts r.2)) (jstring (js "ab")))).
Proof.
  split; [reflexivity|]. split; [reflexivity|].
  apply (@missing_tx_only_from_node evicted_tx (jstring (js "ab")) (Connector 1 3 0 0 0 0 0 0)
    jnull (Connector 1 3 0 0 0 0 0 3)).
  by vm_compute.
Defined.
