(* ===== verification/Activation.v ===== *)
(** * Activation

    The consensus activation maps (src/src/protocol/constants/activation.js,
    constants/dispenser_wide_expiration.js, the weighting instant of
    indexer_batch_limits.js) and the gate predicates built on them.  Every
    predicate has the same shape: an unknown network or a [null] entry reads as
    "inactive", and otherwise the block time (or height) is compared with [>=]. *)
From Stdlib Require Import QArith.QArith_base.
From S2P Require Import Prelude JsNum.
#[local] Open Scope Z_scope.

(** A per-network activation table; [None] is a [null] (disarmed) entry. *)
Record gate := Gate {
  at_mainnet : option Z;
  at_testnet : option Z;
  at_regtest : option Z
}.

(** [TABLE[network]], restricted to numbers: [None] covers [null] entries and
    keys the table does not hold. *)
Definition gate_at (g : gate) (network : jstr) : option Z :=
  if eqs network (js "mainnet") then at_mainnet g
  else if eqs network (js "testnet") then at_testnet g
  else if eqs network (js "regtest") then at_regtest g
  else None.

(** The body every block-time gate shares: [typeof activation === 'number'],
    [Number.isFinite(Number(blockTime))], [Number(blockTime) >= activation]. *)
Definition time_gate (g : gate) (network : jstr) (blockTime : jsval) : bool :=
  match gate_at g network with
  | None => false
  | Some activation =>
      match Number blockTime with
      | Fin t => Qge t (Qz activation)
      | _ => false
      end
  end.

(** A per-coin table of per-network heights. *)
Record coin_gate := CoinGate { at_BTC : gate; at_LTC : gate; at_DOGE : gate }.

Definition coin_gate_at (c : coin_gate) (coinTick network : jstr) : option Z :=
  if eqs coinTick (js "BTC") then gate_at (at_BTC c) network
  else if eqs coinTick (js "LTC") then gate_at (at_LTC c) network
  else if eqs coinTick (js "DOGE") then gate_at (at_DOGE c) network
  else None.

(** [height !== null && typeof blockHeight === 'number' && blockHeight >= height] *)
Definition height_gate (activation : option Z) (blockHeight : jsval) : bool :=
  match activation, blockHeight with
  | Some a, JNum (Fin h) => Qge h (Qz a)
  | Some _, JNum (Inf false) => true
  | _, _ => false
  end.

(** ** The tables *)

Definition ORACLE_FEE_OUTPUT_ACTIVATION := Gate (Some 1786060800) (Some 0) (Some 0).

Definition ORACLE_FEE_SET_CAPTURE_ACTIVATION := Gate (Some 1786060800) (Some 0) (Some 0).

Definition DISPENSER_EXPIRY_REALIGN_ACTIVATION := Gate (Some 0) (Some 0) (Some 0).

Definition DISPENSER_CANCEL_GRACE_ACTIVATION := Gate (Some 0) (Some 0) (Some 0).

Definition DISPENSER_PURGE_GRACE_ACTIVATION :=
  Gate (Some 9999999999) (Some 1792454400) (Some 0).

Definition DISPENSER_CANCEL_GRACE_PARENT_FLOOR_ACTIVATION :=
  Gate (Some 9999999999) (Some 1792454400) (Some 0).

Definition DISPENSER_ADDRESS_ID_COLLAPSE_ACTIVATION :=
  Gate (Some 9999999999) (Some 1792454400) (Some 0).

Definition EXACT_INTEGER_EXPIRATION_ACTIVATION := Gate None (Some 1792605600) (Some 0).

Definition BATCH_SUBCOMMAND_OUTPUT_CAPTURE_ACTIVATION :=
  Gate (Some 1786838400) (Some 0) (Some 0).

Definition DISPENSER_WIDE_EXPIRATION_GATES :=
  Gate (Some 9999999999) (Some 1792605600) (Some 0).

Definition COST_WEIGHTING_ACTIVATION := Gate (Some 0) (Some 0) (Some 0).

Definition ENVELOPE_RECOGNITION_ACTIVATION := CoinGate
  (Gate (Some 960850) (Some 0) (Some 0))
  (Gate (Some 3153500) (Some 0) (Some 0))
  (Gate None None None).

Definition ENVELOPE_CARRIER_RECOGNITION_ACTIVATION := CoinGate
  (Gate None (Some 0) (Some 0))
  (Gate None (Some 0) (Some 0))
  (Gate None None None).

Definition P2WSH_WALKBACK_SEGWIT_GATE_ACTIVATION := CoinGate
  (Gate (Some 0) (Some 0) (Some 0))
  (Gate (Some 0) (Some 0) (Some 0))
  (Gate None None (Some 0)).

(** ** The gates *)

Definition isOracleFeeCaptureActive (consensusNetwork : jstr) (blockTime : jsval) : bool :=
  time_gate ORACLE_FEE_OUTPUT_ACTIVATION consensusNetwork blockTime.

Definition isOracleFeeSetCaptureActive (consensusNetwork : jstr) (blockTime : jsval) : bool :=
  time_gate ORACLE_FEE_SET_CAPTURE_ACTIVATION consensusNetwork blockTime.

Definition isDispenserExpiryRealignActive (consensusNetwork : jstr) (blockTime : jsval) : bool :=
  time_gate DISPENSER_EXPIRY_REALIGN_ACTIVATION consensusNetwork blockTime.

Definition isDispenserCancelGraceActive (consensusNetwork : jstr) (blockTime : jsval) : bool :=
  time_gate DISPENSER_CANCEL_GRACE_ACTIVATION consensusNetwork blockTime.

Definition isDispenserCancelGraceParentFloorActive (consensusNetwork : jstr) (blockTime : jsval)
  : bool :=
  time_gate DISPENSER_CANCEL_GRACE_PARENT_FLOOR_ACTIVATION consensusNetwork blockTime.

Definition isDispenserPurgeGraceActive (consensusNetwork : jstr) (blockTime : jsval) : bool :=
  time_gate DISPENSER_PURGE_GRACE_ACTIVATION consensusNetwork blockTime.

Definition isDispenserAddressIdCollapseActive (consensusNetwork : jstr) (blockTime : jsval)
  : bool :=
  time_gate DISPENSER_ADDRESS_ID_COLLAPSE_ACTIVATION consensusNetwork blockTime.

Definition isExactIntegerExpirationActive (consensusNetwork : jstr) (blockTime : jsval) : bool :=
  time_gate EXACT_INTEGER_EXPIRATION_ACTIVATION consensusNetwork blockTime.

Definition isDispenserWideExpirationActive (consensusNetwork : jstr) (blockTime : jsval) : bool :=
  time_gate DISPENSER_WIDE_EXPIRATION_GATES consensusNetwork blockTime.

Definition isBatchSubCommandCaptureActive (consensusNetwork : jstr) (blockTime : jsval) : bool :=
  time_gate BATCH_SUBCOMMAND_OUTPUT_CAPTURE_ACTIVATION consensusNetwork blockTime.

Definition isBatchCostWeightingActive (consensusNetwork : jstr) (blockTime : jsval) : bool :=
  time_gate COST_WEIGHTING_ACTIVATION consensusNetwork blockTime.

Definition envelopeRecognitionHeight (coinTick consensusNetwork : jstr) : option Z :=
  coin_gate_at ENVELOPE_RECOGNITION_ACTIVATION coinTick consensusNetwork.

Definition envelopeActiveAt (coinTick consensusNetwork : jstr) (blockHeight : jsval) : bool :=
  height_gate (envelopeRecognitionHeight coinTick consensusNetwork) blockHeight.

Definition envelopeCarrierRecognitionHeight (coinTick consensusNetwork : jstr) : option Z :=
  coin_gate_at ENVELOPE_CARRIER_RECOGNITION_ACTIVATION coinTick consensusNetwork.

Definition envelopeCarrierRecognitionActiveAt
    (coinTick consensusNetwork : jstr) (blockHeight : jsval) : bool :=
  height_gate (envelopeCarrierRecognitionHeight coinTick consensusNetwork) blockHeight.

(** [network.supportsSegwit] is [undefined], [true] or [false]; only the literal
    [false] makes the activation matter. *)
Definition p2wshWalkbackEnabled (supportsSegwit : option bool)
    (coinTick consensusNetwork : jstr) (blockHeight : jsval) : bool :=
  match supportsSegwit with
  | Some false =>
      negb (height_gate
              (coin_gate_at P2WSH_WALKBACK_SEGWIT_GATE_ACTIVATION coinTick consensusNetwork)
              blockHeight)
  | _ => true
  end.

(** ** Protocol size limits (constants/action_size.js) *)
Definition MAX_ACTION_DATA_LENGTH : Z := 8192.
Definition OP_RETURN_PUSH_OVERHEAD : Z := 3.
Definition ENVELOPE_MAX_PAYLOAD : Z := 390000.

(** ** Facts *)

(** The three networks a table knows. *)
Definition known_network (network : jstr) : bool :=
  eqs network (js "mainnet") || eqs network (js "testnet") || eqs network (js "regtest").

Lemma gate_at_unknown g network : known_network network = false -> gate_at g network = None.
Proof.
  unfold known_network, gate_at. intros [[H1 H2]%orb_false_elim H3]%orb_false_elim.
  by rewrite H1, H2, H3.
Qed.

Lemma time_gate_int g network t :
  time_gate g network (jint t)
  = match gate_at g network with None => false | Some a => a <=? t end.
Proof. unfold time_gate. destruct (gate_at g network); [|done]. apply Qge_Qz. Qed.

Lemma time_gate_mono g network t t' :
  t <= t' -> time_gate g network (jint t) = true -> time_gate g network (jint t') = true.
Proof.
  rewrite !time_gate_int. destruct (gate_at g network); [|done].
  intros ? ?. b2p. apply Z.leb_le. lia.
Qed.

Lemma height_gate_int a h :
  height_gate (Some a) (jint h) = (a <=? h).
Proof. apply Qge_Qz. Qed.

(** [g] never opens before [h]. *)
Definition gate_le_opt (h g : option Z) : bool :=
  match g, h with
  | None, _ => true
  | Some _, None => false
  | Some b, Some a => a <=? b
  end.

Definition never_precedes (g h : gate) : bool :=
  gate_le_opt (at_mainnet h) (at_mainnet g)
  && gate_le_opt (at_testnet h) (at_testnet g)
  && gate_le_opt (at_regtest h) (at_regtest g).

Lemma never_precedes_gate g h network blockTime :
  never_precedes g h = true ->
  time_gate g network blockTime = true -> time_gate h network blockTime = true.
Proof.
  unfold never_precedes, time_gate. intros Hle.
  assert (Hat : gate_le_opt (gate_at h network) (gate_at g network) = true).
  { unfold gate_at. b2p. by repeat case_match. }
  destruct (gate_at g network) as [b|]; [|done].
  destruct (gate_at h network) as [a|]; [|done]. simpl in Hat. b2p.
  destruct (Number blockTime) as [| |[n d]]; [done..|].
  unfold Qge, Qle_bool, Qz. simpl. intros ?. b2p. apply Z.leb_le. nia.
Qed.

(** A second gate only widens a capture its base gate already switched on: set
    capture implies oracle-fee capture, the parent floor implies the cancellation
    grace, and no gate is active on an unknown network. *)
Lemma gates_ordered consensusNetwork blockTime :
  (isOracleFeeSetCaptureActive consensusNetwork blockTime = true ->
   isOracleFeeCaptureActive consensusNetwork blockTime = true)
  /\ (isDispenserCancelGraceParentFloorActive consensusNetwork blockTime = true ->
      isDispenserCancelGraceActive consensusNetwork blockTime = true)
  /\ (isDispenserPurgeGraceActive consensusNetwork blockTime = true ->
      isDispenserCancelGraceActive consensusNetwork blockTime = true)
  /\ (isBatchSubCommandCaptureActive consensusNetwork blockTime = true ->
      isOracleFeeCaptureActive consensusNetwork blockTime = true)
  /\ (isExactIntegerExpirationActive consensusNetwork blockTime = true ->
      isDispenserWideExpirationActive consensusNetwork blockTime = true).
Proof. repeat split; by apply never_precedes_gate. Qed.
