(* ===== verification/ProtocolTime.v ===== *)
(** * Protocol time

    src/src/protocol/protocol_time.js: the instant the time-keyed gates of one
    block read.  On testnet it is the median of the previous eleven header
    times, never later than the block's own; elsewhere it is the header time. *)
From Stdlib Require Import QArith.QArith_base Sorting.Permutation Sorting.Sorted.
From S2P Require Import Prelude JsNum.
#[local] Open Scope Z_scope.

Definition MEDIAN_TIME_SPAN : nat := 11.

(** [PROTOCOL_TIME_MTP_NETWORKS[network] === true] *)
Definition isProtocolTimeMtpActive (network : jstr) : bool :=
  if eqs network (js "mainnet") then false
  else if eqs network (js "testnet") then true
  else if eqs network (js "regtest") then false
  else false.

(** [times.sort((a, b) => a - b)] on finite numbers. *)
Fixpoint insert_time (q : Q) (l : list Q) : list Q :=
  match l with
  | [] => [q]
  | x :: l' => if Qle_bool q x then q :: l else x :: insert_time q l'
  end.

Fixpoint sort_times (l : list Q) : list Q :=
  match l with
  | [] => []
  | x :: l' => insert_time x (sort_times l')
  end.

(** [.map(Number).filter(t => Number.isFinite(t) && t > 0)] *)
Fixpoint usable_times (l : list jsval) : list Q :=
  match l with
  | [] => []
  | v :: l' =>
      match Number v with
      | Fin t => if Qgt t (Qz 0) then t :: usable_times l' else usable_times l'
      | _ => usable_times l'
      end
  end.

Definition medianTimePast (previousBlockTimes : list jsval) : option Q :=
  let times := usable_times (take MEDIAN_TIME_SPAN previousBlockTimes) in
  match times with
  | [] => None
  | _ => sort_times times !! (length times / 2)%nat
  end.

Definition Qmin (a b : Q) : Q := if Qle_bool a b then a else b.

(** The sentinels [false], [null] and [undefined], and anything that does not
    convert to a finite number, are returned unchanged. *)
Definition protocolTime (network : jstr) (rawBlockTime : jsval)
    (previousBlockTimes : list jsval) : jsval :=
  match rawBlockTime with
  | JBool false | JNull | JUndefined => rawBlockTime
  | _ =>
      match Number rawBlockTime with
      | Fin raw =>
          if negb (isProtocolTimeMtpActive network) then JNum (Fin raw)
          else match medianTimePast previousBlockTimes with
               | None => JNum (Fin raw)
               | Some mtp => JNum (Fin (Qmin mtp raw))
               end
      | _ => rawBlockTime
      end
  end.

Record BlockTimeContext := {
  rawBlockTime : num;
  protocolBlockTime : jsval
}.

Definition createBlockTimeContext (network : jstr) (raw : jsval)
    (previousBlockTimes : list jsval) : BlockTimeContext :=
  {| rawBlockTime := Number raw;
     protocolBlockTime := protocolTime network (JNum (Number raw)) previousBlockTimes |}.

(** ** Integer header times

    Header times are unsigned 32-bit integers; on them the median is the median
    of a list of [Z]. *)

Fixpoint insert_Z (z : Z) (l : list Z) : list Z :=
  match l with
  | [] => [z]
  | x :: l' => if z <=? x then z :: l else x :: insert_Z z l'
  end.

Fixpoint sort_Z (l : list Z) : list Z :=
  match l with
  | [] => []
  | x :: l' => insert_Z x (sort_Z l')
  end.

Definition median_Z (l : list Z) : option Z :=
  match l with
  | [] => None
  | _ => sort_Z l !! (length l / 2)%nat
  end.

Lemma Qle_bool_Qz a b : Qle_bool (Qz a) (Qz b) = (a <=? b).
Proof. apply Qge_Qz. Qed.

Lemma insert_time_Qz z l : insert_time (Qz z) (map Qz l) = map Qz (insert_Z z l).
Proof.
  induction l as [|x l IH]; simpl; [done|]. rewrite Qle_bool_Qz.
  destruct (z <=? x); simpl; [done|]. by rewrite IH.
Qed.

Lemma sort_times_Qz l : sort_times (map Qz l) = map Qz (sort_Z l).
Proof. induction l as [|x l IH]; simpl; [done|]. by rewrite IH, insert_time_Qz. Qed.

Lemma usable_times_int l :
  Forall (fun t => 0 < t) l -> usable_times (map jint l) = map Qz l.
Proof.
  induction 1 as [|t l Ht _ IH]; simpl; [done|]. rewrite Qgt_Qz.
  rewrite (proj2 (Z.ltb_lt _ _) Ht). by rewrite IH.
Qed.

Lemma medianTimePast_int l :
  Forall (fun t => 0 < t) l ->
  medianTimePast (map jint l) = Qz <$> median_Z (take MEDIAN_TIME_SPAN l).
Proof.
  intros H. unfold medianTimePast, median_Z. rewrite firstn_map.
  rewrite usable_times_int by by apply Forall_take.
  destruct (take MEDIAN_TIME_SPAN l) as [|x m]; [done|].
  rewrite sort_times_Qz, length_map. cbn [map]. by rewrite list_lookup_fmap.
Qed.

Lemma insert_Z_perm z l : Permutation (insert_Z z l) (z :: l).
Proof.
  induction l as [|x l IH]; simpl; [done|]. destruct (z <=? x); [done|].
  rewrite IH. apply perm_swap.
Qed.

Lemma sort_Z_perm l : Permutation (sort_Z l) l.
Proof. induction l as [|x l IH]; simpl; [done|]. by rewrite insert_Z_perm, IH. Qed.

Lemma insert_Z_sorted z l : StronglySorted Z.le l -> StronglySorted Z.le (insert_Z z l).
Proof.
  induction 1 as [|x l Hs IH Hx]; simpl; [repeat constructor|].
  destruct (Z.leb_spec z x).
  - constructor; [by constructor|]. constructor; [done|].
    eapply Forall_impl; [exact Hx|]. intros. simpl in *. lia.
  - constructor; [done|]. rewrite insert_Z_perm. constructor; [lia|done].
Qed.

Lemma sort_Z_sorted l : StronglySorted Z.le (sort_Z l).
Proof. induction l; simpl; [constructor|]. by apply insert_Z_sorted. Qed.

(** How many elements are at least [m]. *)
Definition count_ge (m : Z) (l : list Z) : nat := length (filter (fun x => m <= x) l).

Lemma count_ge_perm m l l' : Permutation l l' -> count_ge m l = count_ge m l'.
Proof. intros H. unfold count_ge. by rewrite H. Qed.

Lemma count_ge_cons m x l :
  count_ge m (x :: l) = ((if Z.leb m x then 1 else 0) + count_ge m l)%nat.
Proof.
  unfold count_ge. rewrite filter_cons. destruct (Z.leb_spec m x); case_decide; simpl; lia.
Qed.

Lemma count_ge_app m l k : count_ge m (l ++ k) = (count_ge m l + count_ge m k)%nat.
Proof. unfold count_ge. by rewrite filter_app, length_app. Qed.

(** In a sorted list, the element at [i] is at least [m] exactly when at least
    [length - i] elements are. *)
Lemma sorted_lookup_count l i x m :
  StronglySorted Z.le l -> l !! i = Some x ->
  m <= x <-> (length l - i <= count_ge m l)%nat.
Proof.
  intros Hs. revert i. induction Hs as [|y l Hs IH Hy]; intros i Hi; [done|].
  rewrite count_ge_cons. destruct i as [|i]; simpl in *.
  - injection Hi as ->. destruct (Z.leb_spec m x) as [Hm|Hm].
    + split; [intros _|done]. assert (count_ge m l = length l) as ->; [|lia].
      unfold count_ge. f_equal. clear IH Hs. induction Hy as [|z l' Hz _ IHl]; [done|].
      rewrite filter_cons. rewrite decide_True by lia. by rewrite IHl.
    + split; [lia|]. intros Hc. assert (count_ge m l <= length l)%nat; [|lia].
      unfold count_ge. apply length_filter.
  - rewrite (IH i Hi). assert (y <= x).
    { rewrite Forall_forall in Hy. apply Hy. by apply list_elem_of_lookup_2 in Hi. }
    assert (i < length l)%nat by by eapply lookup_lt_Some.
    destruct (Z.leb_spec m y) as [Hm|Hm]; [|simpl; lia].
    split; [lia|]. intros _. assert (m <= x) as Hx by lia.
    apply (IH i Hi) in Hx. lia.
Qed.

Lemma median_Z_ge l x m :
  median_Z l = Some x -> m <= x <-> (length l - length l / 2 <= count_ge m l)%nat.
Proof.
  unfold median_Z. destruct l as [|y l]; [done|]. intros Hx.
  pose proof (sorted_lookup_count _ _ _ m (sort_Z_sorted (y :: l)) Hx) as H.
  rewrite (count_ge_perm m _ _ (sort_Z_perm (y :: l))) in H.
  by rewrite (Permutation_length (sort_Z_perm (y :: l))) in H.
Qed.

Lemma median_Z_some l : l <> [] -> is_Some (median_Z l).
Proof.
  destruct l as [|x l]; [done|]. intros _. unfold median_Z. apply lookup_lt_is_Some.
  rewrite (Permutation_length (sort_Z_perm (x :: l))).
  apply Nat.div_lt; simpl; lia.
Qed.

(** The median is one of the times. *)
Lemma median_Z_elem l x : median_Z l = Some x -> x ∈ l.
Proof.
  unfold median_Z. destruct l as [|y l]; [done|].
  intros Hx%list_elem_of_lookup_2. by rewrite (sort_Z_perm (y :: l)) in Hx.
Qed.

(** Sliding the window over a time above the median never lowers the median. *)
Lemma median_slide l t m m' :
  median_Z (take MEDIAN_TIME_SPAN l) = Some m -> m < t ->
  median_Z (take MEDIAN_TIME_SPAN (t :: l)) = Some m' -> m <= m'.
Proof.
  intros Hm Hlt Hm'. apply (median_Z_ge _ _ m Hm').
  pose proof (proj1 (median_Z_ge _ _ m Hm) (Z.le_refl m)) as Hc.
  change (take MEDIAN_TIME_SPAN (t :: l)) with (t :: take 10 l).
  rewrite count_ge_cons. rewrite (proj2 (Z.leb_le m t)) by lia.
  destruct (decide (length l <= 10)%nat) as [Hl|Hl].
  - rewrite take_ge in Hc by (unfold MEDIAN_TIME_SPAN; lia).
    rewrite take_ge by lia. cbn [length].
    pose proof (Nat.div_mod (length l) 2). pose proof (Nat.div_mod (S (length l)) 2).
    pose proof (Nat.mod_upper_bound (length l) 2).
    pose proof (Nat.mod_upper_bound (S (length l)) 2). lia.
  - assert (Hsplit : take MEDIAN_TIME_SPAN l = take 10 l ++ take 1 (drop 10 l)).
    { unfold MEDIAN_TIME_SPAN. change 11%nat with (10 + 1)%nat.
      by rewrite take_take_drop. }
    rewrite Hsplit, count_ge_app, length_app, !length_take in Hc.
    rewrite length_drop in Hc. cbn [length]. rewrite length_take.
    replace (10 `min` length l)%nat with 10%nat in * by lia.
    replace (1 `min` (length l - 10))%nat with 1%nat in Hc by lia.
    change ((10 + 1) / 2)%nat with 5%nat in Hc. change (S 10 / 2)%nat with 5%nat.
    assert (count_ge m (take 1 (drop 10 l)) <= 1)%nat.
    { unfold count_ge. etrans; [apply length_filter|]. rewrite length_take. lia. }
    lia.
Qed.

(** ** Properties *)

(** [t] obeys the header-time rule after [prev] (newest first): it is later than
    the median of the previous eleven. *)
Definition header_time_ok (prev : list Z) (t : Z) : Prop :=
  forall m, median_Z (take MEDIAN_TIME_SPAN prev) = Some m -> m < t.

Lemma protocolTime_testnet prev t :
  Forall (fun t => 0 < t) prev ->
  protocolTime (js "testnet") (jint t) (map jint prev)
  = match median_Z (take MEDIAN_TIME_SPAN prev) with
    | None => jint t
    | Some m => jint (Z.min m t)
    end.
Proof.
  intros H. unfold protocolTime. cbn [Number jint numZ].
  change (isProtocolTimeMtpActive (js "testnet")) with true. cbn [negb].
  rewrite medianTimePast_int by done.
  destruct (median_Z _) as [m|]; [|done]. cbn [fmap option_fmap option_map].
  unfold Qmin. rewrite Qle_bool_Qz. unfold jint, numZ.
  destruct (Z.leb_spec m t); do 3 f_equal; lia.
Qed.

(** Protocol time never decreases along a chain and never runs ahead of the
    header: for consecutive testnet blocks whose header times satisfy the
    median-time-past rule, the earlier block's protocol time is at most the later
    one's, which is at most the later header time. *)
Theorem protocol_time_monotone prev t t' p p' :
  Forall (fun t => 0 < t) prev -> 0 < t ->
  prev <> [] ->
  header_time_ok prev t -> header_time_ok (t :: prev) t' ->
  protocolTime (js "testnet") (jint t) (map jint prev) = jint p ->
  protocolTime (js "testnet") (jint t') (map jint (t :: prev)) = jint p' ->
  p <= p' /\ p' <= t'.
Proof.
  intros Hpos Ht Hne Hok Hok'. rewrite !protocolTime_testnet by (try constructor; done).
  destruct (median_Z_some (take MEDIAN_TIME_SPAN prev)) as [m Hm].
  { by destruct prev. }
  destruct (median_Z_some (take MEDIAN_TIME_SPAN (t :: prev))) as [m' Hm']; [done|].
  specialize (Hok _ Hm). specialize (Hok' _ Hm').
  pose proof (median_slide _ _ _ _ Hm Hok Hm') as Hle.
  rewrite Hm, Hm'. intros [= <-] [= <-]. lia.
Qed.

Lemma protocol_time_monotone_witness :
  exists p p',
    protocolTime (js "testnet") (jint 130) (map jint [120; 110; 100]) = jint p
    /\ protocolTime (js "testnet") (jint 125) (map jint [130; 120; 110; 100]) = jint p'
    /\ p = 110 /\ p' = 120 /\ (p <= p' /\ p' <= 125).
Proof.
  exists 110, 120. split; [by vm_compute|]. split; [by vm_compute|].
  split; [done|]. split; [done|].
  apply (protocol_time_monotone [120; 110; 100] 130 125).
  - repeat constructor.
  - done.
  - done.
  - intros m. vm_compute. by intros [= <-].
  - intros m. vm_compute. by intros [= <-].
  - by vm_compute.
  - by vm_compute.
Defined.
