(* ===== verification/Expiration.v ===== *)
(** * Expiration tokens

    src/src/XChainDecoder/dispenser_wide_expiration.js: which spellings of a
    DISPENSER EXPIRATION are accepted, and the number they are stored as. *)
From Stdlib Require Import QArith.QArith_base QArith.Qreduction.
From S2P Require Import Prelude JsNum Activation.
#[local] Open Scope Z_scope.

Definition MAX_SAFE_DISPENSER_EXPIRATION : Z := MAX_SAFE_INTEGER.
Definition U64_MAX : Z := 18446744073709551615.

(** [/^0*$/.test(s)] *)
Definition all_zeros (s : jstr) : bool := forallb (fun c => c =? 48) s.

(** [s.replace(/^0+/, '')] *)
Fixpoint strip_zeros (s : jstr) : jstr :=
  match s with
  | c :: s' => if c =? 48 then strip_zeros s' else s
  | [] => []
  end.

(** The last [n] characters, and all but the last [n]. *)
Definition last_n (n : nat) (s : jstr) : jstr := drop (length s - n) s.
Definition but_last_n (n : nat) (s : jstr) : jstr := take (length s - n) s.

Definition isExactIntegerToken (value : jstr) : bool :=
  match parse_decimal (trim value) with
  | None => false
  | Some m =>
      let fraction := dec_frac m in
      let digits := dec_int m ++ fraction in
      let exponent := match dec_exp m with
                      | None => Some 0
                      | Some t => safe_integer (Number (JStr t))
                      end in
      match exponent with
      | None => false
      | Some e =>
          let fractionalDigits := Z.of_nat (length fraction) - e in
          if fractionalDigits <=? 0 then true
          else if Z.of_nat (length digits) <=? fractionalDigits then all_zeros digits
          else all_zeros (last_n (Z.to_nat fractionalDigits) digits)
      end
  end.

(** The token is [None] when the field is absent; the expiration is [None] for
    [null]. *)
Definition hasValidExpirationToken (expirationToken : option jstr) (expiration : option num)
    (consensusNetwork : jstr) (blockTime : jsval) : bool :=
  match expiration with
  | None => false
  | Some n =>
      match safe_integer n with
      | None => false
      | Some e =>
          if e <? 0 then false
          else match expirationToken with
               | None => true
               | Some t =>
                   if is_empty t then true
                   else negb (isExactIntegerExpirationActive consensusNetwork blockTime)
                        || isExactIntegerToken t
               end
      end
  end.

(** An optional '+', digits with an optional point and digits (no leading point),
    an optional exponent, and the end of the string. *)
Definition parse_unsigned_decimal (token : jstr) : option decimal :=
  match token with
  | c :: _ => if c =? 45 then None
              else match parse_decimal token with
                   | Some d => if is_empty (dec_int d) then None else Some d
                   | None => None
                   end
  | [] => None
  end.

Definition exactUnsignedDecimal (raw : jstr) : option Z :=
  match parse_unsigned_decimal (trim raw) with
  | None => None
  | Some m =>
      let fraction := dec_frac m in
      let exponentToken := match dec_exp m with None => js "0" | Some t => t end in
      if Nat.ltb 6 (length (strip_zeros (parse_sign exponentToken).2)) then None
      else
        match integer_of (Number (JStr exponentToken)) with
        | None => None
        | Some exponent =>
            let digits := dec_int m ++ fraction in
            let fractionalPlaces := Z.of_nat (length fraction) - exponent in
            if 0 <? fractionalPlaces then
              if Z.of_nat (length digits) <=? fractionalPlaces then
                if all_zeros digits then Some 0 else None
              else if negb (all_zeros (last_n (Z.to_nat fractionalPlaces) digits)) then None
              else Some (digits_value 0 (but_last_n (Z.to_nat fractionalPlaces) digits))
            else if fractionalPlaces <? 0 then
              let zeroCount := - fractionalPlaces in
              if negb (all_zeros digits)
                 && (20 <? Z.of_nat (length (strip_zeros digits)) + zeroCount) then None
              else Some (digits_value 0 (digits ++ replicate (Z.to_nat zeroCount) 48))
            else Some (digits_value 0 digits)
        end
  end.

(** [raw] is a string in every call; the result [None] is [null]. *)
Definition normalizeDispenserExpiration (raw : jstr) (consensusNetwork : jstr)
    (blockTime : jsval) (asNumber : num) : option Z :=
  if is_empty (trim raw) then None
  else
    match (match safe_integer asNumber with
           | Some z => if 0 <=? z then Some z else None
           | None => None
           end) with
    | Some z => Some z
    | None =>
        if negb (isDispenserWideExpirationActive consensusNetwork blockTime) then None
        else match exactUnsignedDecimal raw with
             | None => None
             | Some exact =>
                 if (exact <=? MAX_SAFE_DISPENSER_EXPIRATION) || (U64_MAX <? exact) then None
                 else Some MAX_SAFE_DISPENSER_EXPIRATION
             end
    end.

(** The combination both call sites (create and edit) use: normalize, then check. *)
Definition acceptedExpiration (token : jstr) (consensusNetwork : jstr) (blockTime : jsval)
  : option Z :=
  match normalizeDispenserExpiration token consensusNetwork blockTime (Number (JStr token)) with
  | None => None
  | Some e =>
      if hasValidExpirationToken (Some token) (Some (numZ e)) consensusNetwork blockTime
      then Some e else None
  end.

(** ** Digits *)

Abbreviation is_digits := (Forall (fun c => is_digit c = true)).

Lemma digits_value_acc acc s :
  digits_value acc s = acc * 10 ^ Z.of_nat (length s) + digits_value 0 s.
Proof.
  revert acc. induction s as [|c s IH]; intros acc; cbn [digits_value length].
  { simpl. lia. }
  rewrite (IH (acc * 10 + (c - 48))), (IH (0 * 10 + (c - 48))).
  rewrite Nat2Z.inj_succ, Z.pow_succ_r by lia. lia.
Qed.

Lemma digits_value_split a b :
  digits_value 0 (a ++ b)
  = digits_value 0 a * 10 ^ Z.of_nat (length b) + digits_value 0 b.
Proof. by rewrite digits_value_app, digits_value_acc. Qed.

Lemma all_zeros_spec s : all_zeros s = true <-> Forall (fun c => c = 48) s.
Proof.
  unfold all_zeros. rewrite forallb_forall, Forall_forall.
  setoid_rewrite list_elem_of_In. by setoid_rewrite Z.eqb_eq.
Qed.

Lemma digits_value_zeros s : all_zeros s = true -> digits_value 0 s = 0.
Proof.
  rewrite all_zeros_spec. induction 1 as [|c s -> _ IH]; simpl; [done|]. done.
Qed.

Lemma all_zeros_replicate n : all_zeros (replicate n 48) = true.
Proof. induction n; simpl; [done|]. done. Qed.

(** ** Exponent tokens *)

Lemma is_digit_range c : is_digit c = true -> 48 <= c <= 57.
Proof. unfold is_digit. intros H. b2p. lia. Qed.

Lemma drop_ws_no_ws s : Forall (fun c => is_ws c = false) s -> drop_ws s = s.
Proof. destruct 1 as [|c s Hc _]; simpl; [done|]. by rewrite Hc. Qed.

Lemma trim_no_ws s : Forall (fun c => is_ws c = false) s -> trim s = s.
Proof.
  intros H. unfold trim. rewrite (drop_ws_no_ws s) by done.
  rewrite drop_ws_no_ws; [apply rev_involutive|]. by apply Forall_rev.
Qed.

Lemma no_ws_range c : 43 <= c <= 57 -> is_ws c = false.
Proof. unfold is_ws. intros H. repeat (apply orb_false_intro); lia. Qed.

(** A sign (or none) followed by at least one digit. *)
Lemma exponent_token_shape t :
  is_exponent_token t = true ->
  exists sg c ds, t = sg ++ c :: ds /\ (sg = [] \/ sg = [43] \/ sg = [45])
    /\ is_digits (c :: ds) /\ parse_sign t = (eqs sg [45], c :: ds).
Proof.
  unfold is_exponent_token. intros H.
  assert (Hs : forall s, (let '(ds, rest) := span is_digit s in
                     negb (is_empty ds) && is_empty rest) = true ->
                    exists c ds, s = c :: ds /\ is_digits (c :: ds)).
  { intros s. pose proof (span_app is_digit s) as Ha. pose proof (span_forall is_digit s) as Hf.
    destruct (span is_digit s) as [ds rest]. simpl in *. intros Hb. b2p.
    destruct rest; [|done]. rewrite app_nil_r in Ha. subst s.
    destruct ds as [|c ds]; [done|]. by exists c, ds. }
  destruct t as [|x t]; [done|]. cbn [parse_sign] in *.
  destruct (Z.eqb_spec x 43) as [->|].
  { apply Hs in H as (c & ds & -> & Hd). exists [43], c, ds. naive_solver. }
  destruct (Z.eqb_spec x 45) as [->|].
  { apply Hs in H as (c & ds & -> & Hd). exists [45], c, ds. naive_solver. }
  apply Hs in H as (c & ds & [= -> ->] & Hd). exists [], c, ds. naive_solver.
Qed.

Lemma span_digits s : is_digits s -> span is_digit s = (s, []).
Proof. apply span_all. Qed.

Lemma parse_decimal_digits sg c ds :
  (sg = [] \/ sg = [43] \/ sg = [45]) -> is_digits (c :: ds) ->
  parse_decimal (sg ++ c :: ds) = Some (Decimal (eqs sg [45]) (c :: ds) [] None).
Proof.
  intros Hsg Hd. unfold parse_decimal.
  assert (Hs : parse_sign (sg ++ c :: ds) = (eqs sg [45], c :: ds)).
  { apply Forall_cons in Hd as [Hc%is_digit_range _].
    destruct Hsg as [->|[->| ->]]; [|done|done]. simpl.
    rewrite (proj2 (Z.eqb_neq c 43)), (proj2 (Z.eqb_neq c 45)) by lia. done. }
  rewrite Hs, span_digits by done. done.
Qed.

Lemma parse_radix_digits sg c ds :
  (sg = [] \/ sg = [43] \/ sg = [45]) -> is_digits (c :: ds) ->
  parse_radix (sg ++ c :: ds) = None.
Proof.
  intros Hsg [Hc Hds]%Forall_cons.
  destruct Hsg as [->|[->| ->]]; simpl; [|by destruct ds..].
  destruct ds as [|x [|y ds]]; [done|done|].
  apply Forall_cons in Hds as [Hx%is_digit_range _].
  case_match; [|done].
  repeat (rewrite (proj2 (Z.eqb_neq x _)) by lia). done.
Qed.

Lemma string_to_number_decimal t d :
  Forall (fun c => is_ws c = false) t -> t <> [] ->
  Forall (fun c => c <> 73) t ->   (* no 'I' of Infinity *)
  parse_radix t = None -> parse_decimal t = Some d ->
  string_to_number t = round_binary64 (decimal_value d).
Proof.
  intros Hws Hne HI Hr Hd. unfold string_to_number. rewrite trim_no_ws by done.
  destruct (is_empty t) eqn:E; [by apply is_empty_true in E|].
  assert (HnI : forall s, 73 ∈ s -> eqs t s = false).
  { intros s Hs. apply eqs_false. intros ->. rewrite Forall_forall in HI. by apply (HI 73). }
  rewrite !HnI by (by apply (bool_decide_unpack _); vm_compute). simpl. by rewrite Hr, Hd.
Qed.

Lemma string_to_number_signed sg c ds :
  (sg = [] \/ sg = [43] \/ sg = [45]) -> is_digits (c :: ds) ->
  string_to_number (sg ++ c :: ds)
  = round_binary64 (Qz (if eqs sg [45] then - digits_value 0 (c :: ds)
                        else digits_value 0 (c :: ds))).
Proof.
  intros Hsg Hd.
  assert (Hr : Forall (fun x => 43 <= x <= 57) (sg ++ c :: ds)).
  { apply Forall_app. split; [destruct Hsg as [->|[->| ->]]; repeat constructor; lia|].
    eapply Forall_impl; [exact Hd|]. intros x Hx%is_digit_range. lia. }
  rewrite (string_to_number_decimal _ (Decimal (eqs sg [45]) (c :: ds) [] None)).
  - unfold decimal_value. cbn [dec_int dec_frac dec_neg dec_exp]. rewrite app_nil_r.
    unfold scale10. simpl (0 - _). cbn [Z.leb Z.compare]. simpl (10 ^ 0).
    by rewrite Z.mul_1_r.
  - eapply Forall_impl; [exact Hr|]. intros x. apply no_ws_range.
  - by destruct sg.
  - eapply Forall_impl; [exact Hr|]. simpl. lia.
  - by apply parse_radix_digits.
  - by apply parse_decimal_digits.
Qed.

Lemma round_binary64_integer_of_small v :
  Z.abs v <= MAX_SAFE_INTEGER -> integer_of (round_binary64 (Qz v)) = Some v.
Proof.
  intros H. pose proof (round_binary64_small v H) as Hs. unfold safe_integer in Hs.
  destruct (integer_of _); [|done]. by case_match; simplify_eq.
Qed.

(** [Number(t)] of an exponent token is the integer it denotes, when safe. *)
Lemma Number_exponent_token t e :
  is_exponent_token t = true ->
  safe_integer (Number (JStr t)) = Some e -> e = exponent_value t.
Proof.
  intros (sg & c & ds & -> & Hsg & Hd & Hp)%exponent_token_shape.
  cbn [Number]. rewrite string_to_number_signed by done.
  intros He. symmetry. unfold exponent_value. rewrite Hp.
  eapply round_binary64_integral; [|exact He]. by rewrite Z.mul_1_r.
Qed.

(** ** What a token denotes *)

(** The rational [q] is the integer [v]. *)
Definition denotes (q : Q) (v : Z) : Prop := Qnum q = v * Zpos (Qden q).

Lemma denotes_fun q v w : denotes q v -> denotes q w -> v = w.
Proof. unfold denotes. intros. nia. Qed.

Lemma scale10_denotes m e v :
  (0 <= e -> v = m * 10 ^ e) -> (e < 0 -> m = v * 10 ^ (- e)) ->
  denotes (scale10 m e) v.
Proof.
  intros Hp Hn. unfold denotes, scale10. destruct (Z.leb_spec 0 e); simpl.
  - rewrite Hp by done. lia.
  - rewrite Z2Pos.id by (apply Z.pow_pos_nonneg; lia). by apply Hn.
Qed.

Lemma parse_decimal_wf s d :
  parse_decimal s = Some d ->
  is_digits (dec_int d) /\ is_digits (dec_frac d)
  /\ (forall e, dec_exp d = Some e -> is_exponent_token e = true).
Proof.
  unfold parse_decimal. destruct (parse_sign s) as [neg r].
  pose proof (span_forall is_digit r) as Hi. destruct (span is_digit r) as [int r1].
  match goal with |- context [let '(_, _) := ?x in _] => destruct x as [hd r2] end.
  assert (Hf : is_digits (if hd : bool then span is_digit r2 else ([], r2)).1).
  { destruct hd; [apply span_forall|constructor]. }
  destruct (if hd : bool then span is_digit r2 else ([], r2)) as [frac r3].
  case_match; [done|]. destruct (parse_exponent r3) as [e|] eqn:Ee; [|done].
  intros [= <-]. simpl in *. split; [done|]. split; [done|]. intros e' ->.
  unfold parse_exponent in Ee. by case_all.
Qed.

Lemma parse_decimal_not_radix s d : parse_decimal s = Some d -> parse_radix s = None.
Proof.
  intros Hd. destruct s as [|z [|x [|c s]]]; [done..|]. simpl.
  destruct (Z.eqb_spec z 48) as [->|]; [|done].
  assert (Hx : x = 120 \/ x = 88 \/ x = 111 \/ x = 79 \/ x = 98 \/ x = 66 -> False).
  { intros Hx. revert Hd. unfold parse_decimal. cbn [parse_sign].
    simpl (48 =? 43). simpl (48 =? 45). cbn [span].
    change (is_digit 48) with true. cbn iota.
    destruct Hx as [->|[->|[->|[->|[->| ->]]]]]; done. }
  repeat (rewrite (proj2 (Z.eqb_neq x _)) by (intros ->; apply Hx; tauto)). done.
Qed.

Lemma parse_decimal_number t d :
  parse_decimal (trim t) = Some d ->
  string_to_number t = round_binary64 (decimal_value d).
Proof.
  intros Hd. unfold string_to_number. pose proof (parse_decimal_not_radix _ _ Hd) as ->.
  rewrite Hd. destruct (is_empty (trim t)) eqn:E.
  { apply is_empty_true in E. by rewrite E in Hd. }
  assert (Hne : forall s, parse_decimal s = None -> eqs (trim t) s = false).
  { intros s Hs. apply eqs_false. intros Heq. by rewrite Heq, Hs in Hd. }
  by rewrite !Hne by by vm_compute.
Qed.

Lemma last_but_last n s : but_last_n n s ++ last_n n s = s.
Proof. apply take_drop. Qed.

Lemma length_last_n n s : (n <= length s)%nat -> length (last_n n s) = n.
Proof. intros H. unfold last_n. rewrite length_drop. lia. Qed.

(** Dropping [k] trailing zeros divides by [10^k]. *)
Lemma digits_value_trailing n s :
  (n <= length s)%nat -> all_zeros (last_n n s) = true ->
  digits_value 0 s = digits_value 0 (but_last_n n s) * 10 ^ Z.of_nat n.
Proof.
  intros Hn Hz. rewrite <- (last_but_last n s) at 1.
  rewrite digits_value_split, length_last_n by done.
  rewrite (digits_value_zeros _ Hz). lia.
Qed.

Lemma decimal_value_denotes d e v :
  e = match dec_exp d with None => 0 | Some t => exponent_value t end ->
  let m := digits_value 0 (dec_int d ++ dec_frac d) in
  let fd := Z.of_nat (length (dec_frac d)) - e in
  (fd <= 0 -> v = m * 10 ^ (- fd)) -> (0 < fd -> m = v * 10 ^ fd) ->
  denotes (decimal_value d) (if dec_neg d then - v else v).
Proof.
  intros -> m fd Hle Hgt. unfold decimal_value. fold m.
  replace (_ - Z.of_nat (length (dec_frac d))) with (- fd) by lia.
  apply scale10_denotes; intros H.
  - rewrite Hle by lia. destruct (dec_neg d); lia.
  - rewrite Z.opp_involutive. rewrite (Hgt ltac:(lia)). destruct (dec_neg d); lia.
Qed.

(** A token accepted by the exact test denotes an integer. *)
Lemma isExactIntegerToken_denotes t :
  isExactIntegerToken t = true ->
  exists d v, parse_decimal (trim t) = Some d /\ denotes (decimal_value d) v.
Proof.
  unfold isExactIntegerToken. destruct (parse_decimal (trim t)) as [d|] eqn:Hd; [|done].
  destruct (parse_decimal_wf _ _ Hd) as (_ & _ & He).
  set (m := digits_value 0 (dec_int d ++ dec_frac d)).
  destruct (match dec_exp d with None => _ | Some _ => _ end) as [e|] eqn:Hexp; [|done].
  assert (Hev : e = match dec_exp d with None => 0 | Some t => exponent_value t end).
  { destruct (dec_exp d) as [et|]; [|congruence].
    eapply Number_exponent_token; [by apply He|done]. }
  pose proof (decimal_value_denotes d e) as Hden. cbv zeta in Hden. fold m in Hden.
  set (fd := Z.of_nat (length (dec_frac d)) - e) in *.
  destruct (Z.leb_spec fd 0).
  { intros _. exists d. eexists. split; [done|]. eapply Hden; [done|reflexivity|lia]. }
  destruct (Z.leb_spec (Z.of_nat (length (dec_int d ++ dec_frac d))) fd); intros Hz.
  - exists d, (if dec_neg d then - 0 else 0). split; [done|]. apply Hden; [done|lia|].
    intros _. unfold m. rewrite digits_value_zeros; [lia|done].
  - apply digits_value_trailing in Hz; [|lia]. rewrite Z2Nat.id in Hz by lia.
    exists d. eexists. split; [done|]. eapply Hden; [done|lia|].
    intros _. exact Hz.
Qed.

Lemma strip_zeros_value s : digits_value 0 (strip_zeros s) = digits_value 0 s.
Proof.
  induction s as [|c s IH]; simpl; [done|].
  destruct (Z.eqb_spec c 48) as [->|]; [|done]. by rewrite IH.
Qed.

Lemma strip_zeros_digits s : is_digits s -> is_digits (strip_zeros s).
Proof. induction 1; simpl; [done|]. case_match; [done|]. by constructor. Qed.

Lemma digits_value_bound s : is_digits s -> digits_value 0 s < 10 ^ Z.of_nat (length s).
Proof.
  induction s as [|c s IH] using rev_ind; intros H; [done|].
  apply Forall_app in H as [Hs Hc]. specialize (IH Hs).
  apply Forall_cons in Hc as [Hc%is_digit_range _].
  rewrite digits_value_split, length_app. simpl. rewrite Z.pow_1_r.
  rewrite Nat2Z.inj_add, Z.pow_add_r by lia. simpl. lia.
Qed.

Lemma exponent_small t :
  is_exponent_token t = true ->
  (length (strip_zeros (parse_sign t).2) <= 6)%nat ->
  integer_of (Number (JStr t)) = Some (exponent_value t).
Proof.
  intros (sg & c & ds & -> & Hsg & Hd & Hp)%exponent_token_shape.
  unfold exponent_value. rewrite Hp. cbn [snd Number]. intros Hlen.
  rewrite string_to_number_signed by done.
  apply round_binary64_integer_of_small.
  pose proof (digits_value_bound _ (strip_zeros_digits _ Hd)) as Hb.
  rewrite strip_zeros_value in Hb.
  assert (digits_value 0 (c :: ds) < 10 ^ 6).
  { eapply Z.lt_le_trans; [exact Hb|]. apply Z.pow_le_mono_r; lia. }
  pose proof (digits_value_nonneg (c :: ds) 0 ltac:(lia) Hd).
  unfold MAX_SAFE_INTEGER. destruct (eqs sg [45]); lia.
Qed.

Lemma parse_unsigned_decimal_spec s d :
  parse_unsigned_decimal s = Some d -> parse_decimal s = Some d /\ dec_neg d = false.
Proof.
  unfold parse_unsigned_decimal. destruct s as [|c s]; [done|].
  destruct (Z.eqb_spec c 45); [done|].
  destruct (parse_decimal (c :: s)) as [d'|] eqn:Hd; [|done].
  case_match; [done|]. intros [= ->]. split; [done|].
  revert Hd. unfold parse_decimal.
  assert (Hs : (parse_sign (c :: s)).1 = false).
  { simpl. case_match; [done|]. by rewrite (proj2 (Z.eqb_neq c 45)). }
  destruct (parse_sign (c :: s)) as [neg r]. simpl in Hs. subst neg.
  repeat case_match; intros; simplify_eq; done.
Qed.

Lemma exactUnsignedDecimal_exponent d :
  (forall e, dec_exp d = Some e -> is_exponent_token e = true) ->
  let t := match dec_exp d with None => js "0" | Some t => t end in
  (length (strip_zeros (parse_sign t).2) <= 6)%nat ->
  integer_of (Number (JStr t))
  = Some (match dec_exp d with None => 0 | Some t => exponent_value t end).
Proof.
  intros He t Hl. subst t. destruct (dec_exp d) as [t|]; [|by vm_compute].
  apply exponent_small; [by apply He|done].
Qed.

(** The exact reading of a token is the integer it denotes. *)
Lemma exactUnsignedDecimal_denotes t v :
  exactUnsignedDecimal t = Some v ->
  exists d, parse_decimal (trim t) = Some d /\ denotes (decimal_value d) v /\ 0 <= v.
Proof.
  unfold exactUnsignedDecimal.
  destruct (parse_unsigned_decimal (trim t)) as [d|] eqn:Hd; [|done].
  apply parse_unsigned_decimal_spec in Hd as [Hd Hneg].
  destruct (parse_decimal_wf _ _ Hd) as (Hi & Hf & He).
  destruct (Nat.ltb_spec 6 (length (strip_zeros
    (parse_sign match dec_exp d with None => js "0" | Some t => t end).2))); [done|].
  rewrite exactUnsignedDecimal_exponent by done.
  set (e := match dec_exp d with None => 0 | Some t => exponent_value t end).
  pose proof (decimal_value_denotes d e) as Hden. rewrite Hneg in Hden. cbv zeta in Hden.
  set (digits := dec_int d ++ dec_frac d) in *.
  assert (Hdig : is_digits digits) by by apply Forall_app.
  set (fp := Z.of_nat (length (dec_frac d)) - e) in *.
  assert (Hnn : forall s, is_digits s -> 0 <= digits_value 0 s).
  { intros s. by apply digits_value_nonneg. }
  intros Hv. exists d. split; [done|].
  destruct (Z.ltb_spec 0 fp) as [Hp|Hp].
  - destruct (Z.leb_spec (Z.of_nat (length digits)) fp).
    + destruct (all_zeros digits) eqn:Hz; [|done]. injection Hv as <-.
      split; [|done]. apply Hden; [done|lia|]. intros _. by rewrite digits_value_zeros.
    + destruct (negb (all_zeros (last_n _ digits))) eqn:Hz; [done|]. b2p.
      injection Hv as <-. apply digits_value_trailing in Hz; [|lia].
      rewrite Z2Nat.id in Hz by lia. split; [apply Hden; [done|lia|by intros _]|].
      apply Hnn. unfold but_last_n. by apply Forall_take.
  - assert (Hvv : v = digits_value 0 digits * 10 ^ (- fp)).
    { destruct (Z.ltb_spec fp 0).
      - destruct (negb (all_zeros digits) && _); [done|]. injection Hv as <-.
        rewrite digits_value_split, length_replicate, Z2Nat.id by lia.
        rewrite (digits_value_zeros (replicate _ _)) by apply all_zeros_replicate. lia.
      - injection Hv as <-. replace (- fp) with 0 by lia. simpl. lia. }
    split; [apply Hden; [done|by intros _|lia]|]. subst v.
    pose proof (Hnn _ Hdig). pose proof (Z.pow_nonneg 10 (- fp)). nia.
Qed.

Lemma exact_implies_wide net time :
  isExactIntegerExpirationActive net time = true ->
  isDispenserWideExpirationActive net time = true.
Proof. by apply never_precedes_gate. Qed.

(** ** Properties *)

(** C31: at or above the exact-integer gate an accepted EXPIRATION token denotes an
    unsigned 64-bit integer exactly, and it is stored as that integer, clamped to
    [Number.MAX_SAFE_INTEGER]: never a rounded neighbour, never an earlier time. *)
Theorem accepted_expiration_exact token net time e :
  isExactIntegerExpirationActive net time = true ->
  acceptedExpiration token net time = Some e ->
  exists d v, parse_decimal (trim token) = Some d /\ denotes (decimal_value d) v
    /\ 0 <= v <= U64_MAX /\ e = Z.min v MAX_SAFE_INTEGER.
Proof.
  intros Hgate. unfold acceptedExpiration, normalizeDispenserExpiration.
  pose proof (exact_implies_wide _ _ Hgate) as Hwide.
  destruct (is_empty (trim token)) eqn:Hem; [done|].
  assert (Hne : is_empty token = false) by (by destruct token).
  unfold hasValidExpirationToken. rewrite Hgate, Hwide, Hne. cbn [negb orb Number].
  assert (Hden : isExactIntegerToken token = true ->
    exists d v, parse_decimal (trim token) = Some d /\ denotes (decimal_value d) v)
    by apply isExactIntegerToken_denotes.
  destruct (match safe_integer (string_to_number token) with None => _ | Some _ => _ end)
    as [z|] eqn:Hs.
  - destruct (safe_integer (string_to_number token)) as [z'|] eqn:Hsafe; [|done].
    case_match; [|done]. injection Hs as ->. b2p.
    pose proof (safe_integer_bound _ _ Hsafe) as Hb.
    rewrite safe_integer_numZ by done. rewrite (proj2 (Z.ltb_ge z 0)) by done.
    destruct (isExactIntegerToken token); [|done]. intros [= <-].
    destruct (Hden eq_refl) as (d & v & Hd & Hv). exists d, v. do 2 (split; [done|]).
    rewrite (parse_decimal_number _ _ Hd) in Hsafe.
    destruct (decimal_value d) as [n q]. unfold denotes in Hv. simpl in Hv.
    pose proof (round_binary64_integral n q v z Hv Hsafe) as ->.
    unfold MAX_SAFE_INTEGER, U64_MAX in *. lia.
  - destruct (exactUnsignedDecimal token) as [x|] eqn:Hx; [|done].
    destruct ((x <=? _) || _) eqn:Hr; [done|]. b2p.
    rewrite safe_integer_numZ by done. simpl (_ <? 0).
    destruct (isExactIntegerToken token); [|done]. intros [= <-].
    destruct (exactUnsignedDecimal_denotes _ _ Hx) as (d & Hd & Hv & Hnn).
    exists d, x. do 2 (split; [done|]).
    unfold MAX_SAFE_DISPENSER_EXPIRATION, MAX_SAFE_INTEGER, U64_MAX in *. lia.
Qed.

Lemma accepted_expiration_exact_witness :
  acceptedExpiration (js " 1.8446744073709551615e19 ") (js "regtest") (jint 5)
  = Some 9007199254740991
  /\ (exists d v, parse_decimal (trim (js " 1.8446744073709551615e19 ")) = Some d
        /\ denotes (decimal_value d) v /\ 0 <= v <= U64_MAX
        /\ 9007199254740991 = Z.min v MAX_SAFE_INTEGER).
Proof.
  split; [by vm_compute|].
  apply (accepted_expiration_exact _ (js "regtest") (jint 5)); by vm_compute.
Defined.

Lemma digit_string n :
  0 <= n -> exists c ds, dec_digits n = c :: ds /\ is_digits (c :: ds)
                         /\ digits_value 0 (c :: ds) = n.
Proof.
  intros Hn. destruct (dec_digits_spec n Hn) as [Hv Hd].
  destruct (dec_digits n) as [|c ds] eqn:E; [|by exists c, ds].
  exfalso. unfold dec_digits in E. cbn [dec_digits_fuel] in E.
  destruct (n <? 10); [done|].
  destruct (dec_digits_fuel_app (Z.to_nat (Z.log2 n)) (n / 10) [48 + n mod 10]) as [l Hl].
  rewrite Hl in E. by destruct l.
Qed.

(** Writing an expiration in decimal and reading it back is the identity up to
    2^53-1, on every network and at every time; above it, up to 2^64-1, the wide
    gate clamps it and without the gate it is refused. *)
Theorem accepted_expiration_decimal n net time :
  0 <= n <= U64_MAX ->
  acceptedExpiration (dec_digits n) net time
  = if n <=? MAX_SAFE_INTEGER then Some n
    else if isDispenserWideExpirationActive net time then Some MAX_SAFE_INTEGER
    else None.
Proof.
  intros Hn. destruct (digit_string n) as (c & ds & -> & Hd & Hv); [lia|].
  assert (Hr : Forall (fun x => is_ws x = false) (c :: ds)).
  { eapply Forall_impl; [exact Hd|]. intros x Hx%is_digit_range. apply no_ws_range. lia. }
  assert (Hp : parse_decimal (c :: ds) = Some (Decimal false (c :: ds) [] None)).
  { apply (parse_decimal_digits []); auto. }
  assert (Hex : isExactIntegerToken (c :: ds) = true).
  { unfold isExactIntegerToken. by rewrite trim_no_ws, Hp by done. }
  assert (Hnum : Number (JStr (c :: ds)) = round_binary64 (Qz n)).
  { cbn [Number]. pose proof (string_to_number_signed [] c ds) as E. simpl app in E.
    rewrite E by auto. by rewrite Hv. }
  assert (Hval : forall e, 0 <= e <= MAX_SAFE_INTEGER ->
    hasValidExpirationToken (Some (c :: ds)) (Some (numZ e)) net time = true).
  { intros e He. unfold hasValidExpirationToken. rewrite safe_integer_numZ by lia.
    rewrite (proj2 (Z.ltb_ge e 0)) by lia. simpl. rewrite Hex. apply orb_true_r. }
  unfold acceptedExpiration, normalizeDispenserExpiration. rewrite Hnum, trim_no_ws by done.
  cbn [is_empty]. destruct (Z.leb_spec n MAX_SAFE_INTEGER).
  - rewrite round_binary64_small by lia. rewrite (proj2 (Z.leb_le 0 n)) by lia.
    by rewrite Hval by lia.
  - assert (Hu : safe_integer (round_binary64 (Qz n)) = None).
    { destruct (safe_integer (round_binary64 (Qz n))) as [z|] eqn:E; [|done].
      pose proof (safe_integer_bound _ _ E).
      pose proof (round_binary64_integral n 1 n z ltac:(lia) E). lia. }
    rewrite Hu. destruct (isDispenserWideExpirationActive net time); [|done]. cbn [negb].
    assert (Hxu : exactUnsignedDecimal (c :: ds) = Some n).
    { unfold exactUnsignedDecimal, parse_unsigned_decimal.
      rewrite trim_no_ws by done. rewrite Hp.
      apply Forall_cons in Hd as [Hc%is_digit_range _].
      rewrite (proj2 (Z.eqb_neq c 45)) by lia. cbn [is_empty dec_int dec_exp dec_frac].
      change (integer_of (Number (JStr (js "0")))) with (Some 0).
      rewrite app_nil_r, Hv. done. }
    rewrite Hxu. unfold MAX_SAFE_DISPENSER_EXPIRATION.
    rewrite (proj2 (Z.leb_gt n _)), (proj2 (Z.ltb_ge _ n)) by lia. simpl orb. cbn iota.
    rewrite Hval; [done|]. unfold MAX_SAFE_INTEGER. lia.
Qed.

Lemma accepted_expiration_decimal_witness :
  0 <= 1900000000 <= U64_MAX
  /\ acceptedExpiration (dec_digits 1900000000) (js "mainnet") (jint 0) = Some 1900000000.
Proof.
  split; [by vm_compute|].
  apply (accepted_expiration_decimal 1900000000 (js "mainnet") (jint 0)); by vm_compute.
Defined.

(** Below the gate a fractional wire value can still be accepted, rounded: the
    history the gate preserves. *)
Example fractional_expiration_below_gate :
  acceptedExpiration (js "4503599627370497.0000000001") (js "mainnet") (jint 1800000000)
  = Some 4503599627370497
  /\ isExactIntegerToken (js "4503599627370497.0000000001") = false.
Proof. by vm_compute. Qed.
