(* ===== verification/Batch.v ===== *)
(** * BATCH sub-commands

    src/src/protocol/batch_sub_command_capture.js and its two parts
    (sub_commands.js, batch_cost.js), with the vendored limits
    (indexer_batch_limits.js) and aliases (action_aliases.js): the list of action
    strings the capture and registration decisions are taken over. *)
From S2P Require Import Prelude JsNum Activation.
#[local] Open Scope Z_scope.

(** ** Vendored tables *)

Definition ACTION_ALIASES : list (jstr * jstr) :=
  [ (js "TRANSFER", js "SEND"); (js "ADDR", js "ADDRESS"); (js "DROP", js "AIRDROP");
    (js "CAST", js "BROADCAST"); (js "MSG", js "MESSAGE") ].

Definition COMMAND_LIMIT : Z := 250.
Definition ACTION_LIMITS : list (jstr * Z) :=
  [ (js "BATCH", 0); (js "ISSUE", 1); (js "MINT", 1) ].
Definition GATED_ACTION_LIMITS : list (jstr * Z) := [ (js "DEPLOY", 1) ].
Definition CHILD_ISSUE_KEY : jstr := js "ISSUE.CHILD".
Definition WEIGHT_BUDGET : Z := 250.
Definition COMMAND_WEIGHTS : list (jstr * Z) :=
  [ (js "AIRDROP", 25); (js "DEPLOY", 30); (js "DIVIDEND", 25);
    (js "EXECUTE", 30); (js "XEXEC", 30) ].

(** An own property of an object literal. *)
Fixpoint assoc {V} (k : jstr) (table : list (jstr * V)) : option V :=
  match table with
  | [] => None
  | (k', v) :: table' => if eqs k k' then Some v else assoc k table'
  end.

(** ** Sub-commands (sub_commands.js) *)

Definition BATCH_SUB_COMMAND_FORMATS : list jstr := [ js "0" ].

Definition batch_prefix (format : jstr) : jstr := js "BATCH|" ++ format ++ [pipe].

(** [None]: not a BATCH at all; [Some []]: a BATCH none of whose formats is
    registered. *)
Definition batchSubCommands (decodedData : jstr) : option (list jstr) :=
  if negb (startsWith (js "BATCH|") decodedData) then None
  else
    match find (fun format => startsWith (batch_prefix format) decodedData)
               BATCH_SUB_COMMAND_FORMATS with
    | Some format =>
        Some (split_on semicolon (drop (length (batch_prefix format)) decodedData))
    | None => Some []
    end.

Definition subCommandActionName (command : jstr) : jstr := before pipe command.

Definition hasProvablyRejectedSubCommand (subCommands : list jstr) : bool :=
  existsb (fun command => is_empty (subCommandActionName command)) subCommands.

Definition expandAliasName (actionName : jstr) (aliases : list (jstr * jstr)) : jstr :=
  if is_empty actionName then actionName
  else match assoc actionName aliases with
       | None => actionName
       | Some canonical => if is_empty canonical then actionName else canonical
       end.

Definition expandSubCommandAlias (command : jstr) (aliases : list (jstr * jstr)) : jstr :=
  let actionName := subCommandActionName command in
  if is_empty actionName then command
  else
    let canonical := expandAliasName actionName aliases in
    if eqs canonical actionName then command
    else canonical ++ drop (length actionName) command.

(** [!isNaN(parseFloat(value)) && isFinite(value)] on a string. *)
Definition isNumeric (value : jstr) : bool :=
  negb (parse_float_is_nan value) && isFinite (Number (JStr value)).

(** [params[0]] is [undefined] on an empty array, and [String(undefined)] has nine
    characters. *)
Definition isLegacyActionFormat (params : list jstr) : bool :=
  match params with
  | [] => true
  | version :: _ =>
      if Nat.ltb 2 (length version) then true
      else negb (isNumeric version)
  end.

(** [params[1]] after the implied VERSION 0 is spliced in front of a legacy
    parameter list. *)
Definition tick_param (params : list jstr) (legacy : bool) : option jstr :=
  if legacy then params !! 0%nat else params !! 1%nat.

Definition command_params (command : jstr) : list jstr := tl (split_on pipe command).

Definition subCommandTick (action command : jstr) : jstr :=
  let params := command_params command in
  let versioned := existsb (eqs action) [js "ISSUE"; js "MINT"; js "SEND"] in
  match tick_param params (versioned && isLegacyActionFormat params) with
  | None => []
  | Some tick => trim tick
  end.

Definition subCommandLimitKey (command : jstr) (aliases : list (jstr * jstr)) : jstr :=
  let action := expandAliasName (subCommandActionName command) aliases in
  if negb (eqs action (js "ISSUE")) then action
  else
    let params := command_params command in
    match tick_param params (isLegacyActionFormat params) with
    | None => action
    | Some tick =>
        match tick with
        | c :: _ => if c =? caret then action
                    else if existsb (Z.eqb dot) tick then CHILD_ISSUE_KEY else action
        | [] => action
        end
    end.

(** One more occurrence of [k] in a [Map] of counts. *)
Definition bump (counts : gmap jstr Z) (k : jstr) : gmap jstr Z :=
  <[k := default 0 (counts !! k) + 1]> counts.

Fixpoint max_ticks_loop (counts : gmap jstr Z) (max : Z) (ticks : list jstr) : Z :=
  match ticks with
  | [] => max
  | tick :: ticks' =>
      let counts' := bump counts tick in
      let count := default 0 (counts' !! tick) in
      max_ticks_loop counts' (if max <? count then count else max) ticks'
  end.

Definition maxIdenticalMintTicks (ticks : list jstr) : Z := max_ticks_loop ∅ 0 ticks.

(** ** Whole-batch rejection (batch_cost.js) *)

Definition subCommandCostWeight (command : jstr) (aliases : list (jstr * jstr)) : Z :=
  let action := expandAliasName (subCommandActionName command) aliases in
  if eqs action (js "DEPLOY") then 1
  else match assoc action COMMAND_WEIGHTS with
       | None => 1
       | Some weight => if 1 <=? weight then weight else 1
       end.

Fixpoint batchCostWeight (subCommands : list jstr) (aliases : list (jstr * jstr)) : Z :=
  match subCommands with
  | [] => 0
  | command :: rest => subCommandCostWeight command aliases + batchCostWeight rest aliases
  end.

(** The keys the per-ACTION limits count, in position order. *)
Definition limit_keys (subCommands : list jstr) (aliases : list (jstr * jstr)) : list jstr :=
  map (fun command => subCommandLimitKey command aliases) subCommands.

Definition tally (keys : list jstr) : gmap jstr Z := foldl bump ∅ keys.

Definition mint_ticks (subCommands : list jstr) (aliases : list (jstr * jstr)) : list jstr :=
  map (subCommandTick (js "MINT"))
    (List.filter (fun command => eqs (subCommandLimitKey command aliases) (js "MINT"))
       subCommands).

Definition caps : list (jstr * Z) := ACTION_LIMITS ++ GATED_ACTION_LIMITS.

Definition hasProvablyRejectedBatch (subCommands : list jstr) (aliases : list (jstr * jstr))
    (consensusNetwork : jstr) (blockTime : jsval) : bool :=
  let weightsActive := isBatchCostWeightingActive consensusNetwork blockTime in
  if (if weightsActive then WEIGHT_BUDGET else COMMAND_LIMIT)
     <? Z.of_nat (length subCommands) then true
  else if hasProvablyRejectedSubCommand subCommands then true
  else
    let t := tally (limit_keys subCommands aliases) in
    let mintTicks := mint_ticks subCommands aliases in
    if existsb (fun '(action, cap) =>
         cap <? (if eqs action (js "MINT") then maxIdenticalMintTicks mintTicks
                 else default 0 (t !! action))) caps then true
    else weightsActive && (WEIGHT_BUDGET <? batchCostWeight subCommands aliases).

(** ** The command view (batch_sub_command_capture.js) *)

Definition captureCommands (decodedData : jstr) (consensusNetwork : jstr) (blockTime : jsval)
  : list jstr :=
  if negb (isBatchSubCommandCaptureActive consensusNetwork blockTime) then [decodedData]
  else match batchSubCommands decodedData with
       | None => [decodedData]
       | Some subCommands =>
           if hasProvablyRejectedBatch subCommands ACTION_ALIASES consensusNetwork blockTime
           then []
           else map (fun command => expandSubCommandAlias command ACTION_ALIASES) subCommands
       end.

(** ** The indexer's reading, as sub_commands.js quotes it

    [commands = data.split(';'); commands[0] = commands[0].replace('BATCH|F|', '')],
    where [replace] removes the first occurrence of the prefix. *)
Fixpoint remove_first (p s : jstr) : jstr :=
  if startsWith p s then drop (length p) s
  else match s with
       | [] => []
       | c :: s' => c :: remove_first p s'
       end.

Definition indexerReadCommands (format data : jstr) : list jstr :=
  match split_on semicolon data with
  | [] => []
  | c :: cs => remove_first (batch_prefix format) c :: cs
  end.

(** ** Counting *)

Definition occurrences (k : jstr) (l : list jstr) : Z :=
  Z.of_nat (length (List.filter (eqs k) l)).

Lemma occurrences_cons k x l :
  occurrences k (x :: l) = (if eqs k x then 1 else 0) + occurrences k l.
Proof. unfold occurrences. simpl. destruct (eqs k x); simpl; lia. Qed.

Lemma occurrences_nonneg k l : 0 <= occurrences k l.
Proof. unfold occurrences. lia. Qed.

Lemma bump_lookup counts k k' :
  default 0 (bump counts k !! k')
  = default 0 (counts !! k') + (if eqs k' k then 1 else 0).
Proof.
  unfold bump. destruct (eqs k' k) eqn:E; b2p.
  - subst. by rewrite lookup_insert_eq.
  - rewrite lookup_insert_ne by done. lia.
Qed.

Lemma tally_from counts l k :
  default 0 (foldl bump counts l !! k) = default 0 (counts !! k) + occurrences k l.
Proof.
  revert counts. induction l as [|x l IH]; intros counts; cbn [foldl].
  { unfold occurrences. simpl. lia. }
  rewrite IH, bump_lookup, occurrences_cons. lia.
Qed.

Lemma tally_occurrences l k : default 0 (tally l !! k) = occurrences k l.
Proof. unfold tally. rewrite tally_from, lookup_empty. simpl. lia. Qed.

Lemma max_ticks_ge counts max ticks : max <= max_ticks_loop counts max ticks.
Proof.
  revert counts max. induction ticks as [|t ticks IH]; intros counts max; simpl; [lia|].
  etrans; [|apply IH]. case_match; b2p; lia.
Qed.

Lemma max_ticks_le counts max ticks n :
  0 <= n -> max <= n ->
  (forall k, default 0 (counts !! k) + occurrences k ticks <= n) ->
  max_ticks_loop counts max ticks <= n.
Proof.
  intros Hn. revert counts max.
  induction ticks as [|t ticks IH]; intros counts max Hm Hk; simpl; [done|].
  assert (Hb : forall k, default 0 (bump counts t !! k) + occurrences k ticks <= n).
  { intros k. rewrite bump_lookup. specialize (Hk k). rewrite occurrences_cons in Hk. lia. }
  apply IH; [|done]. specialize (Hb t). pose proof (occurrences_nonneg t ticks).
  case_match; b2p; lia.
Qed.

Lemma max_ticks_reached counts max ticks k :
  k ∈ ticks ->
  default 0 (counts !! k) + occurrences k ticks <= max_ticks_loop counts max ticks.
Proof.
  revert counts max. induction ticks as [|t ticks IH]; intros counts max Hk.
  { by apply not_elem_of_nil in Hk. }
  cbn [max_ticks_loop]. rewrite occurrences_cons.
  destruct (decide (k ∈ ticks)) as [Hin|Hout].
  - etrans; [|by apply IH]. rewrite bump_lookup. lia.
  - apply elem_of_cons in Hk as [->|]; [|done].
    assert (occurrences t ticks = 0) as ->.
    { clear IH. induction ticks as [|x ticks IHt]; [done|].
      rewrite occurrences_cons. rewrite elem_of_cons in Hout.
      destruct (eqs t x) eqn:E; b2p; [naive_solver|]. rewrite IHt; naive_solver. }
    rewrite eqs_refl. etrans; [|apply max_ticks_ge].
    rewrite bump_lookup, eqs_refl. case_match; b2p; lia.
Qed.

(** The loop computes the largest multiplicity. *)
Lemma maxIdenticalMintTicks_gt n ticks :
  0 <= n -> n < maxIdenticalMintTicks ticks <-> exists k, n < occurrences k ticks.
Proof.
  intros Hn. unfold maxIdenticalMintTicks. split.
  - intros Hlt.
    destruct (decide (Exists (fun k => n < occurrences k ticks) ticks)) as [HE|HE].
    + apply Exists_exists in HE as (k & _ & Hk). by exists k.
    + exfalso. assert (max_ticks_loop ∅ 0 ticks <= n); [|lia].
      apply max_ticks_le; [done|done|]. intros k. rewrite lookup_empty. simpl.
      destruct (decide (k ∈ ticks)) as [Hin|Hout].
      * destruct (Z.lt_ge_cases n (occurrences k ticks)); [|lia].
        exfalso. apply HE. apply Exists_exists. by exists k.
      * assert (occurrences k ticks = 0); [|lia]. unfold occurrences.
        clear -Hout. induction ticks as [|x ticks IH]; [done|]. simpl.
        rewrite elem_of_cons in Hout. destruct (eqs k x) eqn:E; b2p; [naive_solver|].
        apply IH. naive_solver.
  - intros [k Hk]. eapply Z.lt_le_trans; [exact Hk|].
    rewrite <- (Z.add_0_l (occurrences k ticks)).
    change 0 with (default 0 ((∅ : gmap jstr Z) !! k)) at 1.
    apply max_ticks_reached. apply list_elem_of_In.
    unfold occurrences in Hk. destruct (List.filter (eqs k) ticks) as [|x l] eqn:E; [simpl in Hk; lia|].
    assert (Hx : In x (List.filter (eqs k) ticks)) by (rewrite E; by left).
    apply filter_In in Hx as [Hin Heq]. b2p. by subst.
Qed.

(** ** Properties *)

Lemma find_format d :
  find (fun format => startsWith (batch_prefix format) d) BATCH_SUB_COMMAND_FORMATS
  = if startsWith (js "BATCH|0|") d then Some (js "0") else None.
Proof. reflexivity. Qed.

Lemma batchSubCommands_some d l :
  batchSubCommands d = Some l ->
  (exists r, d = js "BATCH|0|" ++ r /\ l = split_on semicolon r)
  \/ (l = [] /\ startsWith (js "BATCH|0|") d = false /\ startsWith (js "BATCH|") d = true).
Proof.
  unfold batchSubCommands. destruct (startsWith (js "BATCH|") d) eqn:Hb; [|done].
  rewrite find_format. cbn [negb].
  destruct (startsWith (js "BATCH|0|") d) eqn:Hp; [|intros [= <-]; by right].
  apply startsWith_spec in Hp as [r ->]. intros [= <-]. left. exists r. split; [done|].
  reflexivity.
Qed.

Lemma batchSubCommands_prefix r :
  batchSubCommands (js "BATCH|0|" ++ r) = Some (split_on semicolon r).
Proof.
  unfold batchSubCommands.
  assert (startsWith (js "BATCH|") (js "BATCH|0|" ++ r) = true) as -> by done.
  rewrite find_format, startsWith_app. cbn [negb].
  reflexivity.
Qed.

(** The sub-commands of a BATCH are a faithful split of its text: joining them
    with ';' after the prefix rebuilds the action string, none of them contains a
    ';', and only a BATCH of a registered format has any. *)
Lemma batch_sub_commands_rejoin d l :
  batchSubCommands d = Some l -> l <> [] ->
  d = js "BATCH|0|" ++ join_with semicolon l
  /\ (forall c, c ∈ l -> semicolon ∉ c).
Proof.
  intros [(r & -> & ->)|(-> & _)]%batchSubCommands_some Hne; [|done].
  rewrite join_split. split; [done|]. intros c. apply split_on_no_sep.
Qed.

Lemma batch_sub_commands_rejoin_witness :
  batchSubCommands (js "BATCH|0|SEND|0|A;MINT|0|B") = Some [js "SEND|0|A"; js "MINT|0|B"]
  /\ (js "BATCH|0|SEND|0|A;MINT|0|B"
      = js "BATCH|0|" ++ join_with semicolon [js "SEND|0|A"; js "MINT|0|B"]
      /\ (forall c, c ∈ [js "SEND|0|A"; js "MINT|0|B"] -> semicolon ∉ c)).
Proof.
  split; [by vm_compute|].
  apply (batch_sub_commands_rejoin (js "BATCH|0|SEND|0|A;MINT|0|B")); [by vm_compute|done].
Defined.

Lemma remove_first_prefix p r : remove_first p (p ++ r) = r.
Proof.
  destruct (p ++ r) as [|c s] eqn:E.
  - apply app_eq_nil in E as [-> ->]. done.
  - cbn [remove_first]. rewrite <- E, startsWith_app. by rewrite drop_app_length.
Qed.

Lemma split_on_app_prefix c p r :
  c ∉ p -> split_on c (p ++ r)
           = match split_on c r with w :: ws => (p ++ w) :: ws | [] => [p] end.
Proof.
  induction p as [|x p IH]; intros Hp; simpl.
  - destruct (split_on_cons c r) as (w & ws & E). by rewrite E.
  - rewrite elem_of_cons in Hp. destruct (Z.eqb_spec x c) as [->|]; [tauto|].
    rewrite IH by tauto. destruct (split_on_cons c r) as (w & ws & E). by rewrite E.
Qed.

(** Slicing the prefix before the split is the indexer's split-then-strip: for
    every string with the literal prefix of the registered format the decoder's
    sub-command list is the array the indexer builds. *)
Theorem batch_sub_commands_match_indexer d :
  startsWith (js "BATCH|0|") d = true ->
  batchSubCommands d = Some (indexerReadCommands (js "0") d).
Proof.
  intros [r ->]%startsWith_spec. rewrite batchSubCommands_prefix.
  unfold indexerReadCommands. rewrite split_on_app_prefix.
  - destruct (split_on_cons semicolon r) as (w & ws & ->).
    change (batch_prefix (js "0")) with (js "BATCH|0|"). by rewrite remove_first_prefix.
  - apply (bool_decide_unpack _). by vm_compute.
Qed.

Lemma batch_sub_commands_match_indexer_witness :
  startsWith (js "BATCH|0|") (js "BATCH|0|BATCH|0|x;y") = true
  /\ batchSubCommands (js "BATCH|0|BATCH|0|x;y")
     = Some (indexerReadCommands (js "0") (js "BATCH|0|BATCH|0|x;y")).
Proof.
  split; [by vm_compute|].
  apply (batch_sub_commands_match_indexer (js "BATCH|0|BATCH|0|x;y")). by vm_compute.
Defined.

(** How many sub-commands are counted under the key [k]. *)
Definition key_count (k : jstr) (subs : list jstr) (aliases : list (jstr * jstr)) : Z :=
  occurrences k (limit_keys subs aliases).

(** How many MINTs of the batch name the TICK [t]. *)
Definition mint_count (t : jstr) (subs : list jstr) (aliases : list (jstr * jstr)) : Z :=
  occurrences t (mint_ticks subs aliases).

(** The declarative reading of a provable whole-batch rejection. *)
Definition batch_rejected_spec (subs : list jstr) (aliases : list (jstr * jstr))
    (weightsActive : bool) : Prop :=
  250 < Z.of_nat (length subs)
  \/ (exists c, c ∈ subs /\ subCommandActionName c = [])
  \/ 1 <= key_count (js "BATCH") subs aliases
  \/ 2 <= key_count (js "ISSUE") subs aliases
  \/ 2 <= key_count (js "DEPLOY") subs aliases
  \/ (exists t, 2 <= mint_count t subs aliases)
  \/ (weightsActive = true /\ 250 < batchCostWeight subs aliases).

Lemma rejected_sub_command_spec subs :
  hasProvablyRejectedSubCommand subs = true
  <-> exists c, c ∈ subs /\ subCommandActionName c = [].
Proof.
  unfold hasProvablyRejectedSubCommand. rewrite existsb_exists.
  setoid_rewrite is_empty_true. setoid_rewrite <- list_elem_of_In. done.
Qed.

Lemma caps_exceeded t m :
  existsb (fun '(action, cap) =>
    cap <? (if eqs action (js "MINT") then m else default 0 ((t : gmap jstr Z) !! action))) caps
  = ((0 <? default 0 (t !! js "BATCH")) || ((1 <? default 0 (t !! js "ISSUE"))
     || ((1 <? m) || ((1 <? default 0 (t !! js "DEPLOY")) || false)))).
Proof. reflexivity. Qed.

Lemma rejected_batch_spec subs aliases net time :
  hasProvablyRejectedBatch subs aliases net time = true
  <-> batch_rejected_spec subs aliases (isBatchCostWeightingActive net time).
Proof.
  unfold hasProvablyRejectedBatch, batch_rejected_spec.
  set (w := isBatchCostWeightingActive net time).
  replace (if w then WEIGHT_BUDGET else COMMAND_LIMIT) with 250 by by destruct w.
  rewrite <- rejected_sub_command_spec. unfold key_count, mint_count.
  destruct (Z.ltb_spec 250 (Z.of_nat (length subs))); [naive_solver|].
  destruct (hasProvablyRejectedSubCommand subs); [naive_solver|].
  rewrite caps_exceeded, !tally_occurrences.
  assert (Hm : (exists t, 2 <= occurrences t (mint_ticks subs aliases))
               <-> 1 < maxIdenticalMintTicks (mint_ticks subs aliases)).
  { rewrite maxIdenticalMintTicks_gt by lia.
    split; intros [t Ht]; exists t; lia. }
  rewrite Hm. unfold WEIGHT_BUDGET. case_match eqn:E.
  - split; [intros _|done]. repeat rewrite orb_true_iff, ?Z.ltb_lt in E.
    destruct E as [?|[?|[?|[?|?]]]]; [lia|lia|tauto|lia|done].
  - rewrite !orb_false_iff, !Z.ltb_ge in E. rewrite andb_true_iff, !Z.ltb_lt.
    destruct E as (? & ? & E & ? & _). split; [tauto|].
    intros [?|[?|[?|[?|[?|[Hx|?]]]]]]; [lia|done|lia|lia|lia|lia|done].
Qed.

(** The whole-batch rejection fires exactly on the causes it can prove: more
    than 250 commands, an empty action name, a nested BATCH, two top-level ISSUEs,
    two DEPLOYs, two MINTs of one literal TICK, or (where weighting is in force) a
    cost above the budget. *)
Theorem has_provably_rejected_batch_spec subs aliases net time :
  hasProvablyRejectedBatch subs aliases net time = true
  <-> batch_rejected_spec subs aliases (isBatchCostWeightingActive net time).
Proof. apply rejected_batch_spec. Qed.

(** The mirror of the indexer's per-token MINT cap never over-counts: identical
    ticks always fall into one bucket of any tick resolution. *)
Lemma occurrences_map_le (resolve : jstr -> jstr) k l :
  occurrences k l <= occurrences (resolve k) (map resolve l).
Proof.
  induction l as [|x l IH]; [done|]. cbn [map]. rewrite !occurrences_cons.
  destruct (eqs k x) eqn:E; b2p.
  - subst. rewrite eqs_refl. lia.
  - case_match; lia.
Qed.

(** The literal-TICK count is a lower bound on the count per resolved token,
    whatever the token resolution is, so a batch this decoder rejects for its MINTs
    is one the indexer's per-token cap rejects. *)
Theorem identical_mint_ticks_lower_bound (resolve : jstr -> jstr) ticks :
  maxIdenticalMintTicks ticks <= maxIdenticalMintTicks (map resolve ticks).
Proof.
  destruct (Z.le_gt_cases (maxIdenticalMintTicks ticks)
              (maxIdenticalMintTicks (map resolve ticks))) as [|H]; [done|].
  apply maxIdenticalMintTicks_gt in H as [k Hk]; [|apply max_ticks_ge].
  pose proof (occurrences_map_le resolve k ticks) as Hle.
  assert (maxIdenticalMintTicks (map resolve ticks)
          < maxIdenticalMintTicks (map resolve ticks)); [|lia].
  apply maxIdenticalMintTicks_gt; [apply max_ticks_ge|]. exists (resolve k). lia.
Qed.

Lemma subCommandCostWeight_pos c aliases : 1 <= subCommandCostWeight c aliases.
Proof. unfold subCommandCostWeight. repeat case_match; b2p; lia. Qed.

(** Every weight is at least one, so a count over the budget is a weight over it. *)
Lemma batchCostWeight_length subs aliases :
  Z.of_nat (length subs) <= batchCostWeight subs aliases.
Proof.
  induction subs as [|c subs IH]; [done|]. cbn [batchCostWeight length].
  pose proof (subCommandCostWeight_pos c aliases). lia.
Qed.

Lemma batchCostWeight_le subs aliases (weight : jstr -> Z) :
  (forall c, subCommandCostWeight c aliases <= weight c) ->
  batchCostWeight subs aliases <= foldr (fun c acc => weight c + acc) 0 subs.
Proof.
  intros H. induction subs as [|c subs IH]; simpl; [done|]. specialize (H c). lia.
Qed.

Lemma assoc_in {V} k (v : V) table : assoc k table = Some v -> v ∈ table.*2.
Proof.
  induction table as [|[k' w] table IH]; [done|]. cbn [assoc fmap list_fmap snd].
  destruct (eqs k k'); [intros [= ->]; by left|]. intros H. right. by apply IH.
Qed.

Lemma alias_values_forall (P : jstr -> Prop) k v :
  Forall P (ACTION_ALIASES.*2) -> assoc k ACTION_ALIASES = Some v -> P v.
Proof. intros Hf Ha%assoc_in. rewrite Forall_forall in Hf. by apply Hf. Qed.

(** An alias expands to its table value; every other name stays. *)
Lemma expand_alias_cases name :
  name <> [] ->
  (assoc name ACTION_ALIASES = None /\ expandAliasName name ACTION_ALIASES = name)
  \/ assoc name ACTION_ALIASES = Some (expandAliasName name ACTION_ALIASES).
Proof.
  intros Hn. unfold expandAliasName.
  destruct (is_empty name) eqn:E; [by apply is_empty_true in E|].
  destruct (assoc name ACTION_ALIASES) as [v|] eqn:Ha; [|by left].
  assert (Hv : is_empty v = false).
  { refine (alias_values_forall (fun v => is_empty v = false) _ _ _ Ha). repeat constructor. }
  rewrite Hv. by right.
Qed.

(** A property of every table value and of the name holds of the expansion. *)
Lemma expand_alias_forall (P : jstr -> Prop) name :
  name <> [] -> Forall P (ACTION_ALIASES.*2) -> (assoc name ACTION_ALIASES = None -> P name) ->
  P (expandAliasName name ACTION_ALIASES).
Proof.
  intros Hn Hf Hp. destruct (expand_alias_cases name Hn) as [[Ha ->]|Ha]; [auto|].
  by eapply alias_values_forall.
Qed.

Lemma expand_alias_no_pipe c :
  subCommandActionName c <> [] ->
  pipe ∉ expandAliasName (subCommandActionName c) ACTION_ALIASES.
Proof.
  intros Hn. apply (expand_alias_forall (fun v => pipe ∉ v)); [done| |].
  - apply (bool_decide_unpack _). by vm_compute.
  - intros _. apply before_no_char.
Qed.

(** Expansion rewrites the name and nothing else. *)
Lemma expand_sub_command_parts c :
  subCommandActionName c <> [] ->
  expandSubCommandAlias c ACTION_ALIASES
  = expandAliasName (subCommandActionName c) ACTION_ALIASES ++ from_char pipe c.
Proof.
  intros Hn. unfold expandSubCommandAlias.
  destruct (is_empty (subCommandActionName c)) eqn:E; [by apply is_empty_true in E|].
  unfold subCommandActionName in *. rewrite drop_before.
  destruct (eqs _ _) eqn:E2; b2p; [|done]. rewrite E2. by rewrite before_from_char.
Qed.

Lemma limit_key_batch c aliases :
  expandAliasName (subCommandActionName c) aliases = js "BATCH" ->
  subCommandLimitKey c aliases = js "BATCH".
Proof. intros H. unfold subCommandLimitKey. by rewrite H. Qed.

Lemma occurrences_pos k l : k ∈ l -> 1 <= occurrences k l.
Proof.
  induction l as [|x l IH]; intros H; [by apply not_elem_of_nil in H|].
  rewrite occurrences_cons. pose proof (occurrences_nonneg k l).
  apply elem_of_cons in H as [->|H]; [rewrite eqs_refl; lia|].
  specialize (IH H). case_match; lia.
Qed.

(** At or above the gate, every command a BATCH yields has a non-empty action
    name that is neither BATCH nor a short-form alias; the rest of the command is
    untouched. *)
Theorem capture_commands_canonical d subs net time c :
  isBatchSubCommandCaptureActive net time = true ->
  batchSubCommands d = Some subs ->
  c ∈ captureCommands d net time ->
  subCommandActionName c <> []
  /\ subCommandActionName c <> js "BATCH"
  /\ assoc (subCommandActionName c) ACTION_ALIASES = None
  /\ exists s, s ∈ subs /\ from_char pipe c = from_char pipe s.
Proof.
  intros Hg Hs. unfold captureCommands. rewrite Hg, Hs. cbn [negb].
  destruct (hasProvablyRejectedBatch _ _ _ _) eqn:Hr; [intros H; by apply not_elem_of_nil in H|].
  assert (Hn : ~ batch_rejected_spec subs ACTION_ALIASES (isBatchCostWeightingActive net time)).
  { rewrite <- rejected_batch_spec. by rewrite Hr. }
  intros (s & -> & Hin)%list_elem_of_fmap.
  assert (Hname : subCommandActionName s <> []).
  { intros He. apply Hn. right; left. by exists s. }
  rewrite (expand_sub_command_parts s Hname). pose proof (expand_alias_no_pipe s Hname) as Hp.
  unfold subCommandActionName at 1 3 5. rewrite before_app_from by done.
  split_and!.
  - apply (expand_alias_forall (fun v => v <> [])); [done| |done]. repeat constructor; done.
  - intros Hb. apply Hn. do 2 right. left. unfold key_count. apply occurrences_pos.
    apply list_elem_of_fmap. exists s. split; [|done]. symmetry. by apply limit_key_batch.
  - apply (expand_alias_forall (fun v => assoc v ACTION_ALIASES = None)); [done| |done].
    repeat constructor.
  - exists s. split; [done|]. rewrite from_char_app by done. apply from_char_idem.
Qed.

Lemma capture_commands_canonical_witness :
  js "SEND|0|x" ∈ captureCommands (js "BATCH|0|MINT|0|A;TRANSFER|0|x") (js "regtest") (jint 7)
  /\ (subCommandActionName (js "SEND|0|x") <> []
      /\ subCommandActionName (js "SEND|0|x") <> js "BATCH"
      /\ assoc (subCommandActionName (js "SEND|0|x")) ACTION_ALIASES = None
      /\ exists s, s ∈ [js "MINT|0|A"; js "TRANSFER|0|x"]
           /\ from_char pipe (js "SEND|0|x") = from_char pipe s).
Proof.
  assert (Hin : js "SEND|0|x"
    ∈ captureCommands (js "BATCH|0|MINT|0|A;TRANSFER|0|x") (js "regtest") (jint 7)).
  { apply (bool_decide_unpack _). by vm_compute. }
  split; [exact Hin|].
  apply (capture_commands_canonical (js "BATCH|0|MINT|0|A;TRANSFER|0|x") _
           (js "regtest") (jint 7)); [by vm_compute|by vm_compute|exact Hin].
Defined.

(** Below the gate, and for anything that is not a BATCH, the command view is
    the action string itself, so replay of earlier history is unchanged. *)
Theorem capture_commands_legacy d net time :
  isBatchSubCommandCaptureActive net time = false \/ startsWith (js "BATCH|") d = false ->
  captureCommands d net time = [d].
Proof.
  unfold captureCommands, batchSubCommands. intros [->| ->]; [done|].
  by destruct (isBatchSubCommandCaptureActive net time).
Qed.

Lemma capture_commands_legacy_witness :
  (isBatchSubCommandCaptureActive (js "mainnet") (jint 1786838399) = false
   \/ startsWith (js "BATCH|") (js "BATCH|0|COINPAY|0") = false)
  /\ captureCommands (js "BATCH|0|COINPAY|0") (js "mainnet") (jint 1786838399)
     = [js "BATCH|0|COINPAY|0"].
Proof.
  split; [left; by vm_compute|].
  apply (capture_commands_legacy (js "BATCH|0|COINPAY|0") (js "mainnet") (jint 1786838399)).
  left. by vm_compute.
Defined.
