(* ===== verification/Collapse.v ===== *)
(** * Dispenser registration collapse

    src/src/protocol/dispenser_registration_collapse.js, the address keys
    (batch_sub_command_capture/dispenser_address_key.js) and the gate that picks
    between them (batch_sub_command_capture.js): at most one registration per
    operating address for the dispenser creates of one transaction. *)
From S2P Require Import Prelude JsNum Activation.
#[local] Open Scope Z_scope.

(** A create candidate; absent or [null] fields are [None]. *)
Record candidate := Candidate {
  cd_address : option jstr;
  cd_sourceAddress : option jstr;
  cd_oracleAddress : option jstr;
  cd_expiration : Z
}.

Record registration := Registration {
  address : jstr;
  sourceAddress : option jstr;
  oracleAddress : option jstr;
  expiration : Z
}.

(** [s || null]: an empty string is falsy. *)
Definition truthy (o : option jstr) : option jstr :=
  match o with Some s => if is_empty s then None else Some s | None => None end.

(** [typeof selectedKey === 'string' && selectedKey ? selectedKey : address] *)
Definition key_for (keyOf : option (jstr -> option jstr)) (address : jstr) : jstr :=
  match keyOf with
  | None => address
  | Some f => default address (truthy (f address))
  end.

(** [existing] after the later candidate [c] of the same key. *)
Definition merge (existing : registration) (c : candidate) : registration :=
  {| address := address existing;
     sourceAddress := sourceAddress existing;
     oracleAddress := match truthy (oracleAddress existing), truthy (cd_oracleAddress c) with
                      | None, Some o => Some o
                      | _, _ => oracleAddress existing
                      end;
     expiration := if expiration existing <? cd_expiration c
                   then cd_expiration c else expiration existing |}.

(** A [Map] in insertion order. *)
Abbreviation keyed := (list (jstr * registration)).

Fixpoint collapse_into (key : jstr) (fresh : registration) (c : candidate) (m : keyed) : keyed :=
  match m with
  | [] => [(key, fresh)]
  | (k, r) :: m' =>
      if eqs k key then (k, merge r c) :: m' else (k, r) :: collapse_into key fresh c m'
  end.

Definition collapse_step (keyOf : option (jstr -> option jstr)) (m : keyed) (c : candidate)
  : keyed :=
  match truthy (cd_address c) with
  | None => m
  | Some a =>
      collapse_into (key_for keyOf a)
        {| address := a; sourceAddress := cd_sourceAddress c;
           oracleAddress := truthy (cd_oracleAddress c); expiration := cd_expiration c |}
        c m
  end.

Definition collapse_map (candidates : list candidate) (keyOf : option (jstr -> option jstr))
  : keyed := foldl (collapse_step keyOf) [] candidates.

Definition collapseRegistrationsByKey (candidates : list candidate)
    (keyOf : option (jstr -> option jstr)) : list registration :=
  (collapse_map candidates keyOf).*2.

Fixpoint drop_spaces (s : jstr) : jstr :=
  match s with
  | c :: s' => if c =? 32 then drop_spaces s' else s
  | [] => []
  end.

Definition legacyDispenserAddressKey (address : jstr) : jstr :=
  rev (drop_spaces (rev (map lowercase address))).

(** ** Keys from the address table

    [addressIdOf] is an asynchronous lookup that may allocate a row and may
    throw: it takes a state and returns [None] with the state it left when it
    throws. *)
Section AddressIds.
Context {St : Type} (addressIdOf : jstr -> St -> option (option Z) * St).

Definition id_key (address : jstr) (addressId : option Z) : jstr :=
  match addressId with
  | None => js "address:" ++ address
  | Some id => js "address-id:" ++ dec_digits id
  end.

Definition dispenserAddressKey (address : jstr) (st : St) : option jstr * St :=
  match addressIdOf address st with
  | (None, st') => (None, st')
  | (Some addressId, st') => (Some (id_key address addressId), st')
  end.

(** [keys.set(address, await dispenserAddressKey(...))] for each new address. *)
Fixpoint resolve_keys (candidates : list candidate) (keys : gmap jstr jstr) (st : St)
  : option (gmap jstr jstr) * St :=
  match candidates with
  | [] => (Some keys, st)
  | c :: rest =>
      match truthy (cd_address c) with
      | None => resolve_keys rest keys st
      | Some a =>
          match keys !! a with
          | Some _ => resolve_keys rest keys st
          | None =>
              match dispenserAddressKey a st with
              | (None, st') => (None, st')
              | (Some k, st') => resolve_keys rest (<[a := k]> keys) st'
              end
          end
      end
  end.

Definition raw_addresses (candidates : list candidate) : gset jstr :=
  list_to_set (omap (fun c => truthy (cd_address c)) candidates).

Definition collapseRegistrationsByAddressId (candidates : list candidate) (st : St)
  : option (list registration) * St :=
  if Nat.ltb (size (raw_addresses candidates)) 2
  then (Some (collapseRegistrationsByKey candidates None), st)
  else match resolve_keys candidates ∅ st with
       | (None, st') => (None, st')
       | (Some keys, st') =>
           (Some (collapseRegistrationsByKey candidates (Some (fun a => keys !! a))), st')
       end.
End AddressIds.

(** [addressIdOf] is [None] when the database offers no lookup. *)
Definition collapseDispenserRegistrations {St : Type} (candidates : list candidate)
    (consensusNetwork : jstr) (blockTime : jsval)
    (addressIdOf : option (jstr -> St -> option (option Z) * St)) (st : St)
  : option (list registration) * St :=
  if isDispenserAddressIdCollapseActive consensusNetwork blockTime then
    match addressIdOf with
    | Some f => collapseRegistrationsByAddressId f candidates st
    | None =>
        (Some (collapseRegistrationsByKey candidates
                 (Some (fun a => Some (legacyDispenserAddressKey a)))), st)
    end
  else (Some (collapseRegistrationsByKey candidates None), st).

(** A property of the state every lookup keeps, the collapse keeps. *)
Lemma collapse_state_invariant {St : Type} (I : St -> Prop) f l net time st :
  (forall a st, I st -> I (f a st).2) -> I st ->
  I (collapseDispenserRegistrations l net time (Some f) st).2.
Proof.
  intros Hf Hst. unfold collapseDispenserRegistrations, collapseRegistrationsByAddressId.
  case_match; [|done]. case_match; [done|].
  assert (Hr : forall l keys st, I st -> I (resolve_keys f l keys st).2).
  { clear -Hf. induction l as [|c l IH]; intros keys st Hst; simpl; [done|].
    case_match; [|by apply IH]. case_match; [by apply IH|].
    unfold dispenserAddressKey. match goal with |- context [f ?a st] =>
      pose proof (Hf a st Hst); destruct (f a st) as [[id|] st'] end; simpl in *;
      [by apply IH|done]. }
  pose proof (Hr l ∅ st Hst). destruct (resolve_keys _ _ _ _) as [[k|] st']; done.
Qed.

(** ** Facts *)

(** The candidates that reach the map under [key]. *)
Definition has_key (keyOf : option (jstr -> option jstr)) (key : jstr) (c : candidate) : Prop :=
  exists a, truthy (cd_address c) = Some a /\ key_for keyOf a = key.

(** What the map holds under a key after a list of candidates: the first one's
    addresses, the latest expiration, the first oracle. *)
Fixpoint summary (keyOf : option (jstr -> option jstr)) (key : jstr)
    (acc : option registration) (l : list candidate) : option registration :=
  match l with
  | [] => acc
  | c :: l' =>
      let acc' :=
        match truthy (cd_address c) with
        | None => acc
        | Some a =>
            if eqs (key_for keyOf a) key then
              match acc with
              | None => Some {| address := a; sourceAddress := cd_sourceAddress c;
                                oracleAddress := truthy (cd_oracleAddress c);
                                expiration := cd_expiration c |}
              | Some r => Some (merge r c)
              end
            else acc
        end in
      summary keyOf key acc' l'
  end.

Fixpoint keyed_lookup (key : jstr) (m : keyed) : option registration :=
  match m with
  | [] => None
  | (k, r) :: m' => if eqs k key then Some r else keyed_lookup key m'
  end.

Lemma eqs_sym a b : eqs a b = eqs b a.
Proof. unfold eqs. by apply bool_decide_ext. Qed.

Lemma collapse_into_lookup key fresh c m k :
  keyed_lookup k (collapse_into key fresh c m)
  = if eqs key k then match keyed_lookup key m with
                      | None => Some fresh | Some r => Some (merge r c) end
    else keyed_lookup k m.
Proof.
  induction m as [|[k' r] m IH]; simpl; [done|].
  destruct (eqs k' key) eqn:E; simpl.
  - b2p. subst. by destruct (eqs key k).
  - destruct (eqs k' k) eqn:E'.
    + destruct (eqs key k) eqn:E2; [|done]. b2p. by subst.
    + done.
Qed.

Lemma collapse_map_lookup keyOf l m k :
  keyed_lookup k (foldl (collapse_step keyOf) m l) = summary keyOf k (keyed_lookup k m) l.
Proof.
  revert m. induction l as [|c l IH]; intros m; simpl; [done|]. rewrite IH. f_equal.
  unfold collapse_step. destruct (truthy (cd_address c)) as [a|]; [|done].
  rewrite collapse_into_lookup. destruct (eqs (key_for keyOf a) k) eqn:E; [|done].
  b2p. by subst.
Qed.

Lemma collapse_into_keys key fresh c m :
  (collapse_into key fresh c m).*1 = if existsb (eqs key) m.*1 then m.*1 else m.*1 ++ [key].
Proof.
  induction m as [|[k r] m IH]; [done|]. cbn [collapse_into fmap list_fmap existsb fst].
  rewrite (eqs_sym key k). destruct (eqs k key) eqn:E; [done|].
  cbn [fmap list_fmap existsb fst orb app]. rewrite IH. by destruct (existsb _ _).
Qed.

Lemma existsb_eqs key l : existsb (eqs key) l = true <-> key ∈ l.
Proof.
  rewrite existsb_exists. setoid_rewrite <- list_elem_of_In. setoid_rewrite eqs_true.
  naive_solver.
Qed.

(** No key occurs twice. *)
Lemma collapse_map_nodup keyOf l : NoDup (collapse_map l keyOf).*1.
Proof.
  unfold collapse_map. assert (H : NoDup ([] : keyed).*1) by constructor.
  revert H. generalize ([] : keyed). induction l as [|c l IH]; intros m H; simpl; [done|].
  apply IH. unfold collapse_step. destruct (truthy _) as [a|]; [|done].
  rewrite collapse_into_keys. destruct (existsb _ _) eqn:E; [done|].
  apply NoDup_app. split; [done|]. split; [|apply NoDup_singleton].
  intros x Hx ->%list_elem_of_singleton. apply existsb_eqs in Hx. congruence.
Qed.

Lemma keyed_lookup_elem k r m : NoDup m.*1 -> (k, r) ∈ m <-> keyed_lookup k m = Some r.
Proof.
  induction m as [|[k' r'] m IH]; simpl.
  { intros _. split; [intros H; by apply not_elem_of_nil in H|done]. }
  intros [Hn Hd]%NoDup_cons. rewrite elem_of_cons. destruct (eqs k' k) eqn:E; b2p.
  - subst. split; [|naive_solver]. intros [[= ->]|Hin]; [done|].
    exfalso. apply Hn. apply list_elem_of_fmap. by exists (k, r).
  - rewrite <- IH by done. naive_solver.
Qed.

(** Every registration is stored under the key of its own address. *)
Lemma summary_key keyOf k l acc r :
  summary keyOf k acc l = Some r ->
  (forall r0, acc = Some r0 -> key_for keyOf (address r0) = k) ->
  key_for keyOf (address r) = k.
Proof.
  revert acc. induction l as [|c l IH]; intros acc; simpl; [naive_solver|].
  intros Hs Hacc. eapply IH; [exact Hs|]. intros r0.
  destruct (truthy (cd_address c)) as [a|]; [|auto].
  destruct (eqs _ k) eqn:E; [|auto]. b2p. destruct acc as [r1|]; intros [= <-]; [|done].
  simpl. auto.
Qed.

Lemma merge_expiration_ge r c :
  expiration r <= expiration (merge r c) /\ cd_expiration c <= expiration (merge r c).
Proof. simpl. case_match; b2p; lia. Qed.

Lemma summary_expiration keyOf k l acc :
  (forall r0, acc = Some r0 ->
     exists r, summary keyOf k acc l = Some r /\ expiration r0 <= expiration r)
  /\ (forall c, c ∈ l -> has_key keyOf k c ->
     exists r, summary keyOf k acc l = Some r /\ cd_expiration c <= expiration r).
Proof.
  revert acc. induction l as [|x l IH]; intros acc; simpl.
  { split; [naive_solver|]. intros c Hc. by apply not_elem_of_nil in Hc. }
  set (acc' := match truthy (cd_address x) with None => acc | Some _ => _ end).
  destruct (IH acc') as [IH1 IH2]. split.
  - intros r0 ->.
    assert (exists r1, acc' = Some r1 /\ expiration r0 <= expiration r1) as (r1 & E & Hle).
    { unfold acc'. destruct (truthy _); [|naive_solver lia].
      destruct (eqs _ _); [|naive_solver lia]. eexists. split; [done|].
      apply merge_expiration_ge. }
    destruct (IH1 _ E) as (r & Hr & Hle'). exists r. split; [done|]. lia.
  - intros c [->|Hc]%elem_of_cons Hk; [|by apply IH2].
    assert (exists r1, acc' = Some r1 /\ cd_expiration x <= expiration r1) as (r1 & E & Hle).
    { destruct Hk as (a & Ha & Hk). unfold acc'. rewrite Ha, Hk, eqs_refl.
      destruct acc as [r0|]; eexists; (split; [done|]); [apply merge_expiration_ge|done]. }
    destruct (IH1 _ E) as (r & Hr & Hle'). exists r. split; [done|]. lia.
Qed.

Lemma elem_of_collapse keyOf l r :
  r ∈ collapseRegistrationsByKey l keyOf
  <-> summary keyOf (key_for keyOf (address r)) None l = Some r.
Proof.
  unfold collapseRegistrationsByKey. rewrite list_elem_of_fmap.
  pose proof (collapse_map_nodup keyOf l) as Hd. split.
  - intros ([k r'] & -> & Hin). simpl. apply keyed_lookup_elem in Hin; [|done].
    unfold collapse_map in Hin. rewrite collapse_map_lookup in Hin.
    rewrite (summary_key _ _ _ _ _ Hin); [done|done].
  - intros Hs. exists (key_for keyOf (address r), r). split; [done|].
    apply keyed_lookup_elem; [done|]. unfold collapse_map. by rewrite collapse_map_lookup.
Qed.

(** ** Properties *)

Lemma collapse_by_key_covers keyOf l :
  (forall c a, c ∈ l -> truthy (cd_address c) = Some a ->
     exists r, r ∈ collapseRegistrationsByKey l keyOf
       /\ key_for keyOf (address r) = key_for keyOf a
       /\ cd_expiration c <= expiration r)
  /\ NoDup (map (fun r => key_for keyOf (address r)) (collapseRegistrationsByKey l keyOf)).
Proof.
  split.
  - intros c a Hc Ha.
    destruct (proj2 (summary_expiration keyOf (key_for keyOf a) l None) c Hc) as (r & Hr & Hle).
    { by exists a. }
    assert (Hk : key_for keyOf (address r) = key_for keyOf a).
    { eapply summary_key; [exact Hr|done]. }
    exists r. split; [|done]. apply elem_of_collapse. by rewrite Hk.
  - unfold collapseRegistrationsByKey. pose proof (collapse_map_nodup keyOf l) as Hd.
    assert (Hm : forall k r, (k, r) ∈ collapse_map l keyOf -> key_for keyOf (address r) = k).
    { intros k r Hin. apply keyed_lookup_elem in Hin; [|done].
      unfold collapse_map in Hin. rewrite collapse_map_lookup in Hin.
      eapply summary_key; [exact Hin|done]. }
    revert Hd Hm. generalize (collapse_map l keyOf).
    intros m Hd Hm.
    assert (Heq : map (fun r => key_for keyOf (address r)) m.*2 = m.*1); [|by rewrite Heq].
    clear Hd.
    induction m as [|[k r] m IH]; [done|]. simpl. f_equal; [apply Hm; by left|].
    apply IH. intros k' r' Hin. apply Hm. by right.
Qed.

(** The collapse never closes an address early and never merges two keys: every
    create with an address is covered by a registration of the same key whose
    expiration is at least its own, and two registrations of the result never
    share a key. *)
Theorem collapse_covers_every_create keyOf l :
  (forall c a, c ∈ l -> truthy (cd_address c) = Some a ->
     exists r, r ∈ collapseRegistrationsByKey l keyOf
       /\ key_for keyOf (address r) = key_for keyOf a
       /\ cd_expiration c <= expiration r)
  /\ NoDup (map (fun r => key_for keyOf (address r)) (collapseRegistrationsByKey l keyOf)).
Proof. apply collapse_by_key_covers. Qed.

(** A transaction with a single create registers exactly that create. *)
Lemma collapse_single keyOf a src orc e :
  a <> [] ->
  collapseRegistrationsByKey [Candidate (Some a) src orc e] keyOf
  = [Registration a src (truthy orc) e].
Proof. intros Ha. by destruct a. Qed.

Lemma collapse_single_witness :
  js "addr" <> []
  /\ collapseRegistrationsByKey [Candidate (Some (js "addr")) None (Some []) 9] None
     = [Registration (js "addr") None None 9].
Proof. split; [done|]. by apply (collapse_single None (js "addr") None (Some []) 9). Defined.

(** ** Address ids *)
Section PureIds.
Context (idOf : jstr -> Z) (idOf_nonneg : forall a, 0 <= idOf a).

(** A lookup that answers [idOf] and never fails. *)
Definition pure_lookup (a : jstr) (st : unit) : option (option Z) * unit :=
  (Some (Some (idOf a)), st).

Lemma id_key_inj a b : id_key a (Some (idOf a)) = id_key b (Some (idOf b)) -> idOf a = idOf b.
Proof.
  unfold id_key. intros H%app_inv_head.
  destruct (dec_digits_spec (idOf a)) as [Ha _]; [done|].
  destruct (dec_digits_spec (idOf b)) as [Hb _]; [done|]. congruence.
Qed.

Lemma resolve_keys_pure l keys st :
  (forall a k, keys !! a = Some k -> k = id_key a (Some (idOf a))) ->
  exists keys', resolve_keys pure_lookup l keys st = (Some keys', st)
    /\ (forall a k, keys' !! a = Some k -> k = id_key a (Some (idOf a)))
    /\ (forall a, is_Some (keys !! a) -> is_Some (keys' !! a))
    /\ (forall c a, c ∈ l -> truthy (cd_address c) = Some a -> is_Some (keys' !! a)).
Proof.
  revert keys. induction l as [|c l IH]; intros keys Hk; simpl.
  { exists keys. repeat split; auto. intros c a Hc. by apply not_elem_of_nil in Hc. }
  destruct (truthy (cd_address c)) as [a|] eqn:Ha.
  - destruct (keys !! a) as [k|] eqn:Hka.
    + destruct (IH keys Hk) as (k' & -> & H1 & H2 & H3). exists k'. split_and!; try done.
      intros c' a' [->|Hc]%elem_of_cons; [|eauto]. intros; simplify_eq. apply H2. by eexists.
    + destruct (IH (<[a := id_key a (Some (idOf a))]> keys)) as (k' & Hr & H1 & H2 & H3).
      { intros a' k'. destruct (decide (a = a')) as [->|]; [rewrite lookup_insert_eq|].
        - naive_solver.
        - rewrite lookup_insert_ne by done. apply Hk. }
      simpl in Hr. rewrite Hr. exists k'. split_and!; [done|done| |].
      * intros a' Hs. apply H2. destruct (decide (a = a')) as [->|].
        -- rewrite lookup_insert_eq. by eexists.
        -- by rewrite lookup_insert_ne.
      * intros c' a' [->|Hc]%elem_of_cons; [|eauto]. intros; simplify_eq. apply H2.
        rewrite lookup_insert_eq. by eexists.
  - destruct (IH keys Hk) as (k' & -> & H1 & H2 & H3). exists k'. split_and!; try done.
    intros c' a' [->|Hc]%elem_of_cons; [congruence|eauto].
Qed.
End PureIds.

Lemma summary_from keyOf k l r :
  summary keyOf k None l = Some r ->
  exists c, c ∈ l /\ truthy (cd_address c) = Some (address r).
Proof.
  assert (Hgen : forall acc, summary keyOf k acc l = Some r ->
    (exists c, c ∈ l /\ truthy (cd_address c) = Some (address r))
    \/ exists r0, acc = Some r0 /\ address r0 = address r).
  { induction l as [|c l IH]; intros acc; simpl; [naive_solver|].
    intros [(c' & Hc & Ha)|(r0 & Hr0 & Ha)]%IH.
    { left. exists c'. split; [by right|done]. }
    destruct (truthy (cd_address c)) as [a|] eqn:Hca; [|naive_solver].
    destruct (eqs _ k); [|naive_solver]. destruct acc as [r1|]; simplify_eq/=.
    - right. by exists r1.
    - left. exists c. split; [by left|]. congruence. }
  intros H. destruct (Hgen _ H) as [|(r0 & ? & _)]; done.
Qed.

Lemma small_set_eq (X : gset jstr) a b : (size X < 2)%nat -> a ∈ X -> b ∈ X -> a = b.
Proof.
  intros Hs Ha Hb. destruct (decide (a = b)) as [|Hne]; [done|]. exfalso.
  assert (size ({[a; b]} : gset jstr) <= size X)%nat as Hle.
  { apply subseteq_size. set_solver. }
  rewrite size_union in Hle by set_solver. rewrite !size_singleton in Hle. lia.
Qed.

(** With the address-id gate armed the registrations of one transaction have
    pairwise distinct address ids, so inserting them can never hit the
    (tx_index, address_id) primary key twice, whatever addresses the table's
    collation identifies. *)
Theorem collapse_address_ids_distinct (idOf : jstr -> Z) net time l regs :
  (forall a, 0 <= idOf a) ->
  isDispenserAddressIdCollapseActive net time = true ->
  collapseDispenserRegistrations l net time (Some (pure_lookup idOf)) tt = (Some regs, tt) ->
  NoDup (map (fun r => idOf (address r)) regs).
Proof.
  intros Hid Hg. unfold collapseDispenserRegistrations. rewrite Hg.
  unfold collapseRegistrationsByAddressId.
  destruct (Nat.ltb_spec (size (raw_addresses l)) 2) as [Hsz|_].
  - intros [= <-].
    pose proof (proj2 (collapse_by_key_covers None l)) as Hd.
    assert (Hall : forall r, r ∈ collapseRegistrationsByKey l None -> address r ∈ raw_addresses l).
    { intros r Hr%elem_of_collapse%summary_from. destruct Hr as (c & Hc & Ha).
      unfold raw_addresses. apply elem_of_list_to_set, list_elem_of_omap. by exists c. }
    destruct (collapseRegistrationsByKey l None) as [|r1 [|r2 rs]].
    + constructor.
    + apply NoDup_singleton.
    + exfalso. simpl in Hd. apply NoDup_cons in Hd as [Hd _]. apply Hd.
      rewrite (small_set_eq _ (address r1) (address r2) Hsz).
      * by left.
      * apply Hall. by left.
      * apply Hall. right. by left.
  - destruct (resolve_keys_pure idOf l ∅ tt) as (keys & -> & H1 & _ & H3).
    { intros a k. by rewrite lookup_empty. }
    intros [= <-]. set (kf := Some (fun a => keys !! a)).
    pose proof (proj2 (collapse_by_key_covers kf l)) as Hd.
    assert (Hall : forall r, r ∈ collapseRegistrationsByKey l kf ->
      key_for kf (address r) = id_key (address r) (Some (idOf (address r)))).
    { intros r Hr%elem_of_collapse%summary_from. destruct Hr as (c & Hc & Ha).
      destruct (H3 _ _ Hc Ha) as [k Hk]. simpl. rewrite Hk.
      rewrite (H1 _ _ Hk). done. }
    revert Hd Hall. generalize (collapseRegistrationsByKey l kf). intros rs Hd Hall.
    induction rs as [|r rs IH]; simpl in *; [constructor|].
    apply NoDup_cons in Hd as [Hn Hd]. constructor.
    + intros (r' & Heq & Hr')%list_elem_of_fmap. apply Hn. apply list_elem_of_fmap.
      exists r'. split; [|done]. rewrite !Hall by (by left || by right).
      unfold id_key. by rewrite Heq.
    + apply IH; [done|]. intros r' Hr'. apply Hall. by right.
Qed.

Lemma collapse_address_ids_distinct_witness :
  let idOf := fun a : jstr => Z.of_nat (length a) in
  let l := [Candidate (Some (js "AB")) None None 5; Candidate (Some (js "ab")) None None 9;
            Candidate (Some (js "xyz")) None None 1] in
  collapseDispenserRegistrations l (js "regtest") (jint 1) (Some (pure_lookup idOf)) tt
  = (Some [Registration (js "AB") None None 9; Registration (js "xyz") None None 1], tt)
  /\ NoDup (map (fun r => idOf (address r))
              [Registration (js "AB") None None 9; Registration (js "xyz") None None 1]).
Proof.
  cbv zeta. split; [by vm_compute|].
  apply (collapse_address_ids_distinct (fun a => Z.of_nat (length a)) (js "regtest") (jint 1)
    [Candidate (Some (js "AB")) None None 5; Candidate (Some (js "ab")) None None 9;
     Candidate (Some (js "xyz")) None None 1]).
  - intros a. apply Nat2Z.is_nonneg.
  - by vm_compute.
  - by vm_compute.
Defined.
