(* ===== verification/LibSample.v ===== *)
(** * A small block library

    A concrete reader of transactions and blocks in the place of bitcoinjs-lib, and a
    small merge-mined block, for the concrete runs of the block codecs.  A transaction is
    its bytes, and the merkle root of a list the number of its transactions. *)
From S2P Require Import Prelude JsNum Wire AuxPow.
#[local] Open Scope Z_scope.

Definition toy_tx (buf : bytes) : option bytes :=
  e ← skipCoinbaseTransaction buf 0; Some (take (Z.to_nat e) buf).

Fixpoint toy_txs (n : nat) (buf : bytes) : option (list bytes) :=
  match n with
  | O => Some []
  | S n' =>
      t ← toy_tx buf; l ← toy_txs n' (drop (length t) buf); Some (t :: l)
  end.

Record toy_block := ToyBlock {
  toy_prev : bytes; toy_time : Z; toy_root : bytes; toy_transactions : list bytes
}.

Definition toy_head (buf : bytes) (txs : list bytes) : toy_block :=
  ToyBlock (sub_bytes buf 4 32) (le_value (sub_bytes buf 68 4)) (sub_bytes buf 36 32) txs.

Definition toy_merkle (txs : list bytes) : bytes := replicate 32 (Z.of_nat (length txs)).

Definition toy_fromBuffer (buf : bytes) : option toy_block :=
  if size_of buf <? 80 then None
  else if size_of buf =? 80 then Some (toy_head buf [])
  else
    '(n, width) ← readVarint buf 80;
    l ← toy_txs (Z.to_nat n) (drop (Z.to_nat (80 + width)) buf);
    Some (toy_head buf l).

#[export] Instance toy_lib : BlockLib := {|
  lib_tx := bytes;
  lib_block := toy_block;
  tx_fromBuffer _ buf := toy_tx buf;
  tx_byteLength := size_of;
  tx_build version outs locktime :=
    le_bytes 4 version ++ [0] ++ vector (fun o => o.1 ++ var_bytes o.1) outs ++ le_bytes 4 locktime;
  block_fromBuffer := toy_fromBuffer;
  block_transactions := toy_transactions;
  block_byteLength b :=
    80 + size_of (compact_size (Z.of_nat (length (toy_transactions b))))
    + size_of (concat (toy_transactions b));
  block_merkleRoot := toy_root;
  calculateMerkleRoot := toy_merkle;
  getWitnessCommit _ := None;
  varuint_decode := readVarint
|}.

(** ** A merge-mined block of two transactions *)

Definition toy_coinbase : wire_tx :=
  WireTx [1; 0; 0; 0] [WireIn (replicate 36 0) [3; 1; 2; 3] (replicate 4 255)]
    [WireOut (le_bytes 8 5000) [118; 169]] None [0; 0; 0; 0].

Definition toy_payment : wire_tx :=
  WireTx [2; 0; 0; 0] [WireIn (replicate 36 7) [] (replicate 4 254)]
    [WireOut (le_bytes 8 1200) [0; 20]; WireOut (le_bytes 8 80) [106; 2; 88; 67]]
    (Some [[[48; 69]; [2; 33]]]) [9; 0; 0; 0].

(** Version 6422788, whose second byte holds the merge-mining bit. *)
Definition toy_header : bytes :=
  [4; 1; 98; 0] ++ replicate 32 17 ++ replicate 32 2 ++ replicate 12 5.

Definition toy_aux : aux_pow :=
  AuxPowSection toy_coinbase (replicate 32 9) [replicate 32 3; replicate 32 4] [0; 0; 0; 0]
    [] [1; 0; 0; 0] (replicate 80 6).

Definition toy_block_txs : list bytes := [ser_tx toy_coinbase; ser_tx toy_payment].

Lemma toy_header_ok : aux_header toy_header.
Proof. by split; vm_compute; repeat constructor. Qed.

Lemma toy_coinbase_ok : ok_coinbase toy_coinbase.
Proof. split; [split; try done|done]; repeat constructor; done. Qed.

Lemma toy_aux_ok : ok_aux toy_aux.
Proof. split; [apply toy_coinbase_ok|done| | |done]; repeat constructor; done. Qed.

Lemma toy_aux_bytes : Forall is_byte (ser_aux toy_aux).
Proof. by apply bytes_b_true. Qed.

Lemma toy_txs_bytes : Forall is_byte (concat toy_block_txs).
Proof. by apply bytes_b_true. Qed.

(** The block without its AuxPoW section is whole. *)
Lemma toy_block_whole :
  whole_block (toy_header ++ compact_size 2 ++ concat toy_block_txs).
Proof. exists (ToyBlock (replicate 32 17) 84215045 (replicate 32 2) toy_block_txs). by vm_compute. Qed.

(** ** Stripping *)

(** A merge-mined block, with its AuxPoW section where the node puts it, is stripped to
    its header and transactions whichever daemon answered getblockheader, and the strip
    is accepted when what is left is one whole block. *)
Theorem strip_cuts_auxpow `{BlockLib} h a body headerHex :
  aux_header h -> ok_aux a -> Forall is_byte (ser_aux a) -> Forall is_byte body ->
  (length headerHex = 160 \/ length headerHex = 160 + 2 * length (ser_aux a))%nat ->
  whole_block (h ++ body) ->
  stripAuxPowFromBlockHex headerHex (hex_of (h ++ ser_aux a ++ body)) = Some (hex_of (h ++ body)).
Proof.
  intros Hh Ha Hab Hb Hlen Hw. rewrite strip_aux, assertWholeBlock_complete by
    first [done|apply Forall_app; split; [apply Hh|done]]. done.
Qed.

Lemma strip_cuts_auxpow_witness :
  stripAuxPowFromBlockHex (hex_of toy_header)
    (hex_of (toy_header ++ ser_aux toy_aux ++ compact_size 2 ++ concat toy_block_txs))
  = Some (hex_of (toy_header ++ compact_size 2 ++ concat toy_block_txs)).
Proof.
  apply (strip_cuts_auxpow toy_header toy_aux).
  - exact toy_header_ok.
  - exact toy_aux_ok.
  - exact toy_aux_bytes.
  - by apply bytes_b_true.
  - by left.
  - exact toy_block_whole.
Defined.

(** ** The readers of the toy library *)

Lemma toy_tx_reads t rest : ok_coinbase t -> toy_tx (ser_tx t ++ rest) = Some (ser_tx t).
Proof.
  intros Ht. unfold toy_tx.
  destruct (skip_coinbase t (ser_tx t ++ rest) 0 rest Ht) as [-> _].
  { exists [], []. by rewrite app_nil_r. }
  cbn [mbind option_bind]. f_equal. unfold size_of. rewrite Z.add_0_l, Nat2Z.id.
  by rewrite take_app_length.
Qed.

Lemma toy_payment_ok : ok_coinbase toy_payment.
Proof.
  split; [|done]. split; [done|done| | |].
  - repeat constructor; done.
  - repeat constructor; done.
  - intros w [= <-]. repeat constructor; done.
Qed.
