(* ===== verification/BlockDecoder.v ===== *)
(** * The block decoder

    src/src/chain/XChainBlockDecoder.js: blocks and transactions from their bytes, with
    the readers of Litecoin's MWEB serialisation, which bitcoinjs-lib does not have.

    Inside the readers [None] is a throw: both its callers turn any of them into a
    TransactionParseError.  bitcoinjs-lib and varuint-bitcoin are the parameter
    [BlockLib]. *)
From S2P Require Import Prelude JsNum Wire AuxPow LibSample.
#[local] Open Scope Z_scope.

Inductive decode_error := TransactionParseError | PlainError.

Definition LITECOIN_HOGEX_FLAG : Z := 8.
Definition LITECOIN_MWEB_SEGWIT_FLAG : Z := 9.

(** ** Bounded readers *)

Definition skipMwebBytes (buf : bytes) (count offset : Z) : option Z :=
  if size_of buf - offset <? count then None else Some (offset + count).

(** The value and the end. *)
Definition readMwebCompactSize (buf : bytes) (offset : Z) : option (Z * Z) :=
  if size_of buf <=? offset then None
  else
    first ← get_byte buf offset;
    if first <? 253 then Some (first, offset + 1)
    else
      let width := if first =? 253 then 2 else if first =? 254 then 4 else 8 in
      e ← skipMwebBytes buf width (offset + 1);
      value ← read_le width buf (offset + 1);
      if MAX_UINT53 <? value then None else Some (value, e).

Definition skipMwebVarBytes (buf : bytes) (offset : Z) : option Z :=
  '(length, e) ← readMwebCompactSize buf offset; skipMwebBytes buf length e.

Definition mweb_input (buf : bytes) (offset : Z) : option Z :=
  o ← skipMwebBytes buf 36 offset; o ← skipMwebVarBytes buf o; skipMwebBytes buf 4 o.

Definition mweb_output (buf : bytes) (offset : Z) : option Z :=
  o ← skipMwebBytes buf 8 offset; skipMwebVarBytes buf o.

(** The end, where the outputs start, and the number of inputs. *)
Definition skipMwebInsAndOuts (buf : bytes) (offset : Z) : option (Z * Z * Z) :=
  '(nIns, o) ← readMwebCompactSize buf offset;
  outsStart ← skip_loop (loop_fuel buf) nIns (mweb_input buf) o;
  '(nOuts, o) ← readMwebCompactSize buf outsStart;
  e ← skip_loop (loop_fuel buf) nOuts (mweb_output buf) o;
  Some (e, outsStart, nIns).

(** The items of one input. *)
Definition mweb_stack (buf : bytes) (offset : Z) : option Z :=
  '(items, o) ← readMwebCompactSize buf offset;
  skip_loop (loop_fuel buf) items (skipMwebVarBytes buf) o.

Definition skipMwebWitness (buf : bytes) (offset nIns : Z) : option Z :=
  skip_loop (loop_fuel buf) nIns (mweb_stack buf) offset.

Definition hasMwebFlag (buf : bytes) (offset : Z) : bool :=
  if size_of buf - offset <? 6 then false
  else
    let version := default 0 (read_le 4 buf offset) in
    let flag := default 0 (get_byte buf (offset + 5)) in
    ((version =? 1) || (version =? 2)) && bool_decide (get_byte buf (offset + 4) = Some 0)
    && ((flag =? LITECOIN_HOGEX_FLAG) || (flag =? LITECOIN_MWEB_SEGWIT_FLAG)).

(** ** MWEB-flagged transactions *)

(** The loop of buildInputlessTransaction: script and value of each output. *)
Fixpoint read_outs (fuel : nat) (buf : bytes) (n offset : Z) : option (list (bytes * Z)) :=
  if n <=? 0 then Some []
  else match fuel with
       | O => None
       | S f =>
           value ← read_le 8 buf offset;
           '(len, e) ← readMwebCompactSize buf (offset + 8);
           rest ← read_outs f buf (n - 1) (e + len);
           Some ((sub_bytes buf e len, value) :: rest)
       end.

Section Decoder.
Context `{BlockLib}.

Definition buildInputlessTransaction (buf : bytes) (start outsStart lockTimeAt : Z)
  : option lib_tx :=
  version ← read_int32 buf start;
  '(nOuts, offset) ← readMwebCompactSize buf outsStart;
  outs ← read_outs (loop_fuel buf) buf nOuts offset;
  locktime ← read_le 4 buf lockTimeAt;
  Some (tx_build version outs locktime).

(** From the MWEB tag on: the transaction without its MWEB part, and the bytes consumed. *)
Definition read_from_tag (buf : bytes) (start : Z) (standalone withWitness : bool)
    (outsStart nIns witnessEnd : Z) : option (lib_tx * Z) :=
  afterTag ← skipMwebBytes buf 1 witnessEnd;
  lockTimeAt ←
    (if bool_decide (get_byte buf witnessEnd = Some 0) then Some afterTag
     else if negb standalone then None
     else if size_of buf - 4 <? afterTag then None
     else Some (size_of buf - 4));
  e ← skipMwebBytes buf 4 lockTimeAt;
  tx ← (if nIns =? 0 then buildInputlessTransaction buf start outsStart lockTimeAt
        else tx_fromBuffer false
               (sub_bytes buf start 4 ++ (if withWitness then [0; 1] else [])
                ++ sub_bytes buf (start + 6) (witnessEnd - (start + 6))
                ++ sub_bytes buf lockTimeAt (e - lockTimeAt)));
  Some (tx, e - start).

Definition readMwebFlaggedTransaction (buf : bytes) (start : Z) (standalone : bool)
  : option (lib_tx * Z) :=
  let withWitness := Z.land (default 0 (get_byte buf (start + 5))) 1 =? 1 in
  '(insOutsEnd, outsStart, nIns) ← skipMwebInsAndOuts buf (start + 6);
  witnessEnd ← (if withWitness then skipMwebWitness buf insOutsEnd nIns else Some insOutsEnd);
  read_from_tag buf start standalone withWitness outsStart nIns witnessEnd.

(** ** Blocks *)

(** [readTransaction] and the last-place rule, over [n] transactions: the transactions,
    the end, and whether the last was a HogEx. *)
Fixpoint read_block_txs (n : nat) (buf : bytes) (offset : Z)
  : option (list lib_tx * Z * bool) :=
  match n with
  | O => Some ([], offset, false)
  | S k =>
      if (k =? 0)%nat && hasMwebFlag buf offset then
        '(tx, consumed) ← readMwebFlaggedTransaction buf offset false;
        Some ([tx], offset + consumed, true)
      else
        tx ← tx_fromBuffer true (drop (Z.to_nat offset) buf);
        '(rest, e, hogEx) ← read_block_txs k buf (offset + tx_byteLength tx);
        Some (tx :: rest, e, hogEx)
  end.

Definition readMwebTransactions (buf : bytes) (offset : Z) : option (list lib_tx * Z * bool) :=
  '(nTransactions, width) ← varuint_decode buf offset;
  let offset := offset + width in
  let remainingBytes := size_of buf - offset in
  if remainingBytes <? nTransactions * 10 then None
  else read_block_txs (Z.to_nat nTransactions) buf offset.

(** The three checks of a block body. *)
Definition assertBlockBodyIntact (txs : list lib_tx) (merkleRoot : bytes)
    (bufferLength bodyEnd : Z) (extensionFollows : bool) : bool :=
  if Z.of_nat (length txs) <? 1 then false
  else if negb (bodyEnd =? bufferLength) && negb extensionFollows then false
  else bool_decide (calculateMerkleRoot txs = merkleRoot).

Record mweb_block := MwebBlock {
  mb_version : Z;
  mb_prevHash : bytes;
  mb_merkleRoot : bytes;
  mb_timestamp : Z;
  mb_bits : Z;
  mb_nonce : Z;
  mb_transactions : option (list lib_tx);    (* [None]: a header alone *)
  mb_witnessCommit : option bytes
}.

Inductive decoded_block := Mweb (b : mweb_block) | Plain (b : lib_block).

Definition read_header (buf : bytes) : option (option (list lib_tx) -> option bytes -> mweb_block) :=
  version ← read_int32 buf 0;
  timestamp ← read_le 4 buf 68;
  bits ← read_le 4 buf 72;
  nonce ← read_le 4 buf 76;
  Some (MwebBlock version (sub_bytes buf 4 32) (sub_bytes buf 36 32) timestamp bits nonce).

Definition mweb_from_buffer (buffer : bytes) : decode_error + decoded_block :=
  match read_header buffer with
  | None => inl PlainError                                   (* fewer than 80 bytes *)
  | Some block =>
      if size_of buffer =? 80 then inr (Mweb (block None None))
      else match readMwebTransactions buffer 80 with
           | None => inl TransactionParseError
           | Some (txs, bodyEnd, extensionFollows) =>
               if assertBlockBodyIntact txs (sub_bytes buffer 36 32) (size_of buffer) bodyEnd
                    extensionFollows
               then inr (Mweb (block (Some txs) (getWitnessCommit txs)))
               else inl PlainError
           end
  end.

Definition plain_from_buffer (buffer : bytes) : decode_error + decoded_block :=
  match block_fromBuffer buffer with
  | None => inl TransactionParseError
  | Some b =>
      if size_of buffer =? 80 then inr (Plain b)
      else if assertBlockBodyIntact (block_transactions b) (block_merkleRoot b) (size_of buffer)
                (block_byteLength b) false
      then inr (Plain b) else inl PlainError
  end.

Inductive wire_format := WireDefault | WireMweb | WireAuxpow.

Definition blockFromBuffer (wireFormat : wire_format) (buffer : bytes)
  : decode_error + decoded_block :=
  match wireFormat with
  | WireMweb => mweb_from_buffer buffer
  | _ => plain_from_buffer buffer
  end.

Definition blockFromHex (wireFormat : wire_format) (blockHex : jstr)
  : decode_error + decoded_block := blockFromBuffer wireFormat (from_hex blockHex).

(** ** Single transactions *)

Definition whole_hex_text (txHex : jstr) : bool :=
  negb (is_empty txHex) && (Z.of_nat (length txHex) mod 2 =? 0) && forallb is_hex txHex.

Definition transactionFromHex (wireFormat : wire_format) (txHex : jstr)
  : decode_error + lib_tx :=
  let read :=
    if negb (whole_hex_text txHex) then None
    else
      let buffer := from_hex txHex in
      match wireFormat, hasMwebFlag buffer 0 with
      | WireMweb, true =>
          '(tx, consumed) ← readMwebFlaggedTransaction buffer 0 true;
          if consumed =? size_of buffer then Some tx else None
      | _, _ =>
          tx ← tx_fromBuffer true buffer;
          if tx_byteLength tx =? size_of buffer then Some tx else None
      end in
  match read with Some tx => inr tx | None => inl TransactionParseError end.
End Decoder.

(** ** Facts *)

Lemma mweb_bytes_then n x buf o rest :
  size_of x = n -> sits buf o (x ++ rest) ->
  skipMwebBytes buf n o = Some (o + size_of x) /\ sits buf (o + size_of x) rest.
Proof.
  intros <- Hs. apply sits_app in Hs as [H1 H2]. split; [|done].
  unfold skipMwebBytes. apply sits_bound in H1 as [_ H1]. by rewrite (proj2 (Z.ltb_ge _ _)) by lia.
Qed.

Lemma mweb_count_then buf v o x :
  0 <= v -> fits v -> sits buf o (compact_size v ++ x) ->
  readMwebCompactSize buf o = Some (v, o + size_of (compact_size v))
  /\ sits buf (o + size_of (compact_size v)) x.
Proof.
  intros H1 H2 Hs. assert (Hv : 0 <= v < 2 ^ 64) by by apply fits_64.
  assert (Hb : o + size_of (compact_size v) <= size_of buf)
    by (apply sits_app in Hs as [Hs _]; by apply sits_bound in Hs as [_ Hs]).
  pose proof (size_compact_pos v) as Hp.
  split; [|by apply sits_app in Hs as [_ Hs]]. unfold readMwebCompactSize.
  rewrite (proj2 (Z.leb_gt _ _)) by lia.
  destruct (sits_compact _ _ _ _ Hv Hs) as [(H & -> & E)|(p & n & -> & Hr & Hge & E & Hc)];
    cbn [mbind option_bind].
  { by rewrite (proj2 (Z.ltb_lt _ _) H), E. }
  assert (Hskip : skipMwebBytes buf n (o + 1) = Some (o + size_of (compact_size v))).
  { unfold skipMwebBytes. rewrite (proj2 (Z.ltb_ge _ _)) by lia. f_equal. lia. }
  destruct Hc as [[-> ->]|[[-> ->]|[-> ->]]]; cbn -[skipMwebBytes];
    rewrite Hskip; cbn [mbind option_bind]; rewrite Hr; cbn [mbind option_bind];
    by rewrite (proj2 (Z.ltb_ge _ _)) by exact H2.
Qed.

#[export] Instance walks_mweb_var : Walks var_bytes ok_bytes skipMwebVarBytes.
Proof.
  intros b buf o Hb Hs. unfold skipMwebVarBytes. unfold var_bytes in Hs |- *.
  destruct (mweb_count_then _ _ _ _ (size_nonneg b) Hb Hs) as [-> Hs1]. cbn [mbind option_bind].
  assert (Hs2 : sits buf (o + size_of (compact_size (size_of b))) (b ++ [])) by by rewrite app_nil_r.
  destruct (mweb_bytes_then (size_of b) b _ _ _ eq_refl Hs2) as [-> _].
  rewrite size_app. f_equal. lia.
Qed.

#[export] Instance walks_mweb_input : Walks ser_in wf_in mweb_input.
Proof.
  intros i buf o [H1 H2 H3] Hs. unfold mweb_input, ser_in in *.
  destruct (mweb_bytes_then 36 _ _ _ _ H1 Hs) as [-> Hs1]. cbn [mbind option_bind].
  destruct (walk_then var_bytes ok_bytes skipMwebVarBytes _ _ _ _ H3 Hs1) as [-> Hs2].
  cbn [mbind option_bind]. rewrite <- (app_nil_r (wi_sequence i)) in Hs2.
  destruct (mweb_bytes_then 4 _ _ _ _ H2 Hs2) as [-> _]. rewrite !size_app. f_equal. lia.
Qed.

#[export] Instance walks_mweb_output : Walks ser_out wf_out mweb_output.
Proof.
  intros i buf o [H1 H2] Hs. unfold mweb_output, ser_out in *.
  destruct (mweb_bytes_then 8 _ _ _ _ H1 Hs) as [-> Hs1]. cbn [mbind option_bind].
  rewrite (walk (step:=skipMwebVarBytes) _ _ _ H2 Hs1). rewrite !size_app. f_equal. lia.
Qed.

#[export] Instance walks_mweb_stack : Walks (vector var_bytes) (ok_vector ok_bytes) mweb_stack.
Proof.
  intros l buf o [H1 H2] Hs. unfold mweb_stack, vector in *.
  destruct (mweb_count_then _ _ _ _ (Nat2Z.is_nonneg _) H1 Hs) as [-> Hs1]. cbn [mbind option_bind].
  rewrite <- (app_nil_r (concat _)) in Hs1.
  destruct (walk_loop var_bytes ok_bytes skipMwebVarBytes _ _ _ _ size_var_bytes_pos H2 Hs1) as [-> _].
  rewrite size_app. f_equal. lia.
Qed.

(** The inputs and outputs of a transaction. *)
Lemma insouts_then t buf o rest :
  wf_tx t ->
  sits buf o (vector ser_in (wt_ins t) ++ vector ser_out (wt_outs t) ++ rest) ->
  let outsStart := o + size_of (vector ser_in (wt_ins t)) in
  let e := outsStart + size_of (vector ser_out (wt_outs t)) in
  skipMwebInsAndOuts buf o = Some (e, outsStart, Z.of_nat (length (wt_ins t))) /\ sits buf e rest.
Proof.
  intros [_ _ [H1 H1'] [H2 H2'] _] Hs. unfold vector in Hs |- *. rewrite <- !app_assoc in Hs.
  unfold skipMwebInsAndOuts.
  destruct (mweb_count_then _ _ _ _ (Nat2Z.is_nonneg _) H1 Hs) as [-> Hs1]. cbn [mbind option_bind].
  destruct (walk_loop ser_in wf_in mweb_input _ _ _ _ size_ser_in_pos H1' Hs1) as [-> Hs2].
  cbn [mbind option_bind].
  destruct (mweb_count_then _ _ _ _ (Nat2Z.is_nonneg _) H2 Hs2) as [-> Hs3]. cbn [mbind option_bind].
  destruct (walk_loop ser_out wf_out mweb_output _ _ _ _ size_ser_out_pos H2' Hs3) as [-> Hs4].
  cbn [mbind option_bind]. rewrite !size_app, !Z.add_assoc. by split.
Qed.

Lemma witness_then t w buf o rest :
  wf_tx t -> wt_witness t = Some w -> sits buf o (ser_witness w ++ rest) ->
  skipMwebWitness buf o (Z.of_nat (length (wt_ins t))) = Some (o + size_of (ser_witness w))
  /\ sits buf (o + size_of (ser_witness w)) rest.
Proof.
  intros Hwf Hw Hs. destruct (wf_witness _ Hwf _ Hw) as [<- Hok]. unfold skipMwebWitness.
  by apply (walk_loop (vector var_bytes) (ok_vector ok_bytes) mweb_stack _ _ _ _
    (size_vector_pos var_bytes)).
Qed.

(** *** MWEB-flagged transactions *)

(** A transaction and its MWEB part; [None] is the null part of a HogEx. *)
Record mweb_tx := MwebTx { mt_base : wire_tx; mt_body : option bytes }.

Definition mweb_flag (m : mweb_tx) : Z :=
  if wt_witness (mt_base m) is Some _ then LITECOIN_MWEB_SEGWIT_FLAG else LITECOIN_HOGEX_FLAG.

Definition ser_part (m : mweb_tx) : bytes := default [0] (mt_body m).

Definition ser_mweb (m : mweb_tx) : bytes :=
  wt_version (mt_base m) ++ [0; mweb_flag m] ++ ser_body (mt_base m) ++ ser_part m
  ++ wt_locktime (mt_base m).

Record wf_mweb (m : mweb_tx) : Prop := WfMweb {
  wm_base : wf_tx (mt_base m);
  wm_version : le_value (wt_version (mt_base m)) = 1 \/ le_value (wt_version (mt_base m)) = 2;
  wm_body : forall b, mt_body m = Some b -> exists x r, b = x :: r /\ x <> 0
}.

Lemma sits_sub_n n buf o x rest :
  sits buf o (x ++ rest) -> n = size_of x -> sub_bytes buf o n = x.
Proof. intros Hs ->. apply sits_app in Hs as [Hs _]. by apply sits_sub. Qed.

Lemma sits_read_n n buf o x rest :
  sits buf o (x ++ rest) -> n = size_of x -> read_le n buf o = Some (le_value x).
Proof. intros Hs Hn. apply sits_app in Hs as [Hs _]. by apply sits_read. Qed.

Lemma flagged_has_flag m buf start rest :
  wf_mweb m -> sits buf start (ser_mweb m ++ rest) -> hasMwebFlag buf start = true.
Proof.
  intros [Hb Hv _] Hs. unfold ser_mweb in Hs. rewrite <- !app_assoc in Hs.
  pose proof (wf_version _ Hb) as H4. unfold hasMwebFlag.
  rewrite (sits_read_n 4 _ _ _ _ Hs (eq_sym H4)). cbn [default from_option]. unfold id.
  pose proof (sits_app _ _ _ _ Hs) as [_ Hs1]. rewrite H4 in Hs1.
  rewrite (sits_byte _ _ _ _ Hs1). apply sits_cons in Hs1 as [_ Hs2].
  replace (start + 4 + 1) with (start + 5) in Hs2 by lia.
  rewrite (sits_byte _ _ _ _ Hs2). rewrite (proj2 (Z.ltb_ge _ _)).
  2: { pose proof (sits_bound _ _ _ Hs) as [_ Hle]. rewrite !size_app, H4 in Hle.
       change (size_of [0; mweb_flag m]) with 2 in Hle.
       pose proof (size_nonneg (ser_body (mt_base m))). pose proof (size_nonneg (ser_part m)).
       pose proof (size_nonneg (wt_locktime (mt_base m))). pose proof (size_nonneg rest). lia. }
  rewrite bool_decide_eq_true_2 by done.
  assert (((le_value (wt_version (mt_base m)) =? 1) || (le_value (wt_version (mt_base m)) =? 2)) = true)
    as -> by by destruct Hv as [->| ->].
  unfold mweb_flag. by destruct (wt_witness (mt_base m)).
Qed.

(** The outputs read back one by one. *)
Lemma read_outs_pieces l buf o rest fuel :
  Forall wf_out l -> sits buf o (concat (map ser_out l) ++ rest) -> (length l <= fuel)%nat ->
  read_outs fuel buf (Z.of_nat (length l)) o
  = Some (map (fun x => (wo_script x, le_value (wo_value x))) l).
Proof.
  intros Hl. revert o fuel. induction Hl as [|x l Hx Hl IH]; intros o fuel Hs Hf.
  { by destruct fuel. }
  destruct fuel as [|fuel]; [simpl in Hf; lia|]. cbn [concat map] in Hs.
  unfold ser_out at 1 in Hs. rewrite <- !app_assoc in Hs. unfold var_bytes in Hs.
  rewrite <- !app_assoc in Hs. destruct Hx as [H8 Hok].
  cbn [read_outs]. rewrite (proj2 (Z.leb_gt _ _)) by (simpl length; lia).
  rewrite (sits_read_n 8 _ _ _ _ Hs (eq_sym H8)). cbn [mbind option_bind].
  apply sits_app in Hs as [_ Hs]. rewrite H8 in Hs.
  destruct (mweb_count_then _ _ _ _ (size_nonneg (wo_script x)) Hok Hs) as [-> Hs1].
  cbn [mbind option_bind]. rewrite (sits_sub_n _ _ _ _ _ Hs1 eq_refl).
  apply sits_app in Hs1 as [_ Hs2].
  replace (Z.of_nat (length (x :: l)) - 1) with (Z.of_nat (length l)) by (simpl length; lia).
  rewrite (IH _ fuel Hs2) by (simpl in Hf; lia). done.
Qed.

Section ReadMweb.
Context `{BlockLib}.

(** What the reader builds: the transaction without its MWEB part. *)
Definition without_mweb (m : mweb_tx) : option lib_tx :=
  let t := mt_base m in
  match wt_ins t with
  | [] => Some (tx_build (le_value (wt_version t))
                  (map (fun x => (wo_script x, le_value (wo_value x))) (wt_outs t))
                  (le_value (wt_locktime t)))
  | _ => tx_fromBuffer false (ser_tx t)
  end.

Lemma inputless_read m buf start o lockAt rest rest' :
  wf_mweb m -> sits buf start (wt_version (mt_base m) ++ rest') ->
  sits buf o (vector ser_out (wt_outs (mt_base m)) ++ rest) ->
  sits buf lockAt (wt_locktime (mt_base m)) ->
  buildInputlessTransaction buf start o lockAt
  = Some (tx_build (le_value (wt_version (mt_base m)))
            (map (fun x => (wo_script x, le_value (wo_value x))) (wt_outs (mt_base m)))
            (le_value (wt_locktime (mt_base m)))).
Proof.
  intros [Hb Hv _] H1 H2 H3. unfold buildInputlessTransaction, read_int32.
  rewrite (sits_read_n 4 _ _ _ _ H1) by by rewrite (wf_version _ Hb). cbn [fmap option_fmap option_map].
  assert (Hlt : (le_value (wt_version (mt_base m)) <? 2 ^ 31) = true)
    by by destruct Hv as [->| ->].
  rewrite Hlt. cbn [mbind option_bind].
  destruct (wf_outs _ Hb) as [Hn Ho]. unfold vector in H2. rewrite <- app_assoc in H2.
  destruct (mweb_count_then _ _ _ _ (Nat2Z.is_nonneg _) Hn H2) as [-> Hs]. cbn [mbind option_bind].
  rewrite (read_outs_pieces _ _ _ _ _ Ho Hs); cycle 1.
  { apply sits_app in Hs as [Hs _]. exact (pieces_fuel ser_out _ _ _ size_ser_out_pos Hs). }
  cbn [mbind option_bind]. rewrite (sits_read 4 _ _ _ H3) by by rewrite (wf_locktime _ Hb). done.
Qed.
(** The tag of the MWEB part and where the locktime is. *)
Lemma part_read m buf o rest standalone :
  wf_mweb m -> sits buf o (ser_part m ++ rest) ->
  (mt_body m = None
   \/ (standalone = true /\ size_of rest = 4 /\ o + size_of (ser_part m) + 4 = size_of buf)) ->
  exists tag, skipMwebBytes buf 1 o = Some tag
    /\ (if bool_decide (get_byte buf o = Some 0) then Some tag
        else if negb standalone then None
        else if size_of buf - 4 <? tag then None
        else Some (size_of buf - 4)) = Some (o + size_of (ser_part m)).
Proof.
  intros [_ _ Hbody] Hs Hpart. exists (o + 1). unfold ser_part in *.
  destruct (mt_body m) as [b|] eqn:Eb; cbn [default from_option] in *; unfold id in *.
  - destruct (Hbody b eq_refl) as (x & r & -> & Hx).
    destruct Hpart as [Hn|(-> & H4 & Hend)]; [done|].
    pose proof (sits_bound _ _ _ Hs) as [_ Hle]. rewrite (sits_byte _ _ _ _ Hs).
    rewrite size_app in Hle. unfold skipMwebBytes, size_of in *. simpl length in *.
    rewrite (proj2 (Z.ltb_ge _ _)) by lia. split; [done|].
    rewrite bool_decide_eq_false_2 by congruence. cbn [negb].
    rewrite (proj2 (Z.ltb_ge _ _)) by lia. f_equal. lia.
  - destruct (mweb_bytes_then 1 [0] _ _ _ eq_refl Hs) as [-> _]. split; [done|].
    rewrite (sits_byte _ _ _ _ Hs). by rewrite bool_decide_eq_true_2.
Qed.

(** The reader gets to the tag. *)
Lemma flagged_to_tag m buf start rest standalone :
  wf_mweb m -> sits buf start (ser_mweb m ++ rest) ->
  let t := mt_base m in
  let tagAt := start + 6 + size_of (ser_body t) in
  readMwebFlaggedTransaction buf start standalone
    = read_from_tag buf start standalone (bool_decide (is_Some (wt_witness t)))
        (start + 6 + size_of (vector ser_in (wt_ins t))) (Z.of_nat (length (wt_ins t))) tagAt
  /\ sits buf (start + 6) (ser_body t ++ ser_part m ++ wt_locktime t ++ rest).
Proof.
  intros [Hb Hv Hbody] Hs t tagAt. fold t in Hb. unfold ser_mweb in Hs. rewrite <- !app_assoc in Hs. fold t in Hs.
  apply sits_app in Hs as [_ Hs1]. rewrite (wf_version _ Hb) in Hs1.
  apply (sits_app _ _ [0; mweb_flag m]) in Hs1 as [Hsf Hs2].
  change (size_of [0; mweb_flag m]) with 2 in Hs2. replace (start + 4 + 2) with (start + 6) in Hs2 by lia.
  apply sits_cons in Hsf as [_ Hsf]. replace (start + 4 + 1) with (start + 5) in Hsf by lia.
  split; [|exact Hs2].
  unfold readMwebFlaggedTransaction. rewrite (sits_byte _ _ _ _ Hsf). cbn [default from_option].
  unfold id. assert ((Z.land (mweb_flag m) 1 =? 1) = bool_decide (is_Some (wt_witness t))) as ->
    by (unfold mweb_flag, t; by destruct (wt_witness (mt_base m))).
  unfold ser_body in Hs2. rewrite <- !app_assoc in Hs2.
  destruct (insouts_then t _ _ _ Hb Hs2) as [-> Hs4]. cbn [mbind option_bind].
  unfold tagAt, ser_body. revert Hs4. clear tagAt Hs2. generalize (vector ser_out (wt_outs t)).
  intros a Hs4. destruct (wt_witness t) as [w|] eqn:Ew.
  - rewrite bool_decide_eq_true_2 by done.
    destruct (witness_then t w _ _ _ Hb Ew Hs4) as [-> _]. cbn [mbind option_bind]. f_equal.
    generalize (vector ser_in (wt_ins t)). intros b. rewrite !size_app. lia.
  - rewrite bool_decide_eq_false_2 by by intros [? ?]. cbn [mbind option_bind]. f_equal.
    generalize (vector ser_in (wt_ins t)). intros b. rewrite !size_app.
    change (size_of []) with 0. lia.
Qed.

(** The transaction the reader builds from a body of this shape. *)
Lemma read_tx m buf start lockAt rest rest' :
  wf_mweb m -> sits buf start (ser_mweb m ++ rest) ->
  let t := mt_base m in
  let tagAt := start + 6 + size_of (ser_body t) in
  sits buf (start + 6) (ser_body t ++ rest') -> sits buf lockAt (wt_locktime t) ->
  (if Z.of_nat (length (wt_ins t)) =? 0
   then buildInputlessTransaction buf start (start + 6 + size_of (vector ser_in (wt_ins t))) lockAt
   else tx_fromBuffer false
     (sub_bytes buf start 4 ++ (if bool_decide (is_Some (wt_witness t)) then [0; 1] else [])
      ++ sub_bytes buf (start + 6) (tagAt - (start + 6))
      ++ sub_bytes buf lockAt (lockAt + size_of (wt_locktime t) - lockAt)))
  = without_mweb m.
Proof.
  intros Hm Hs t tagAt Hs2 Hl. pose proof (wm_base _ Hm) as Hb. fold t in Hb.
  unfold ser_mweb in Hs. rewrite <- !app_assoc in Hs. fold t in Hs.
  unfold without_mweb. fold t. destruct (wt_ins t) as [|x l] eqn:Ei.
  - simpl length. change (Z.of_nat 0 =? 0) with true. cbn match.
    unfold ser_body in Hs2. rewrite Ei, <- !app_assoc in Hs2. apply sits_app in Hs2 as [_ Hs3].
    exact (inputless_read m buf start _ _ _ _ Hm Hs Hs3 Hl).
  - rewrite (proj2 (Z.eqb_neq _ _)) by (simpl length; lia).
    rewrite (sits_sub_n 4 _ _ _ _ Hs) by by rewrite (wf_version _ Hb).
    rewrite (sits_sub_n _ _ _ _ _ Hs2) by (unfold tagAt; lia).
    replace (lockAt + size_of (wt_locktime t) - lockAt) with (size_of (wt_locktime t)) by lia.
    rewrite (sits_sub _ _ _ Hl). unfold ser_tx. by destruct (wt_witness t).
Qed.

Lemma flagged_read m buf start rest standalone :
  wf_mweb m -> sits buf start (ser_mweb m ++ rest) ->
  (mt_body m = None
   \/ (standalone = true /\ rest = [] /\ start + size_of (ser_mweb m) = size_of buf)) ->
  readMwebFlaggedTransaction buf start standalone
  = (tx ← without_mweb m; Some (tx, size_of (ser_mweb m))).
Proof.
  intros Hm Hs Hpart. destruct (flagged_to_tag m _ _ _ standalone Hm Hs) as [-> Hs2].
  pose proof (fun lockAt => read_tx m buf start lockAt _ _ Hm Hs Hs2) as Htx.
  assert (Hsize : size_of (ser_mweb m)
    = 6 + size_of (ser_body (mt_base m)) + size_of (ser_part m) + 4).
  { unfold ser_mweb. rewrite !size_app, (wf_version _ (wm_base _ Hm)), (wf_locktime _ (wm_base _ Hm)).
    change (size_of [0; mweb_flag m]) with 2. lia. }
  set (t := mt_base m) in *. pose proof (wf_locktime _ (wm_base _ Hm)) as Hl4. fold t in Hl4.
  apply sits_app in Hs2 as [_ Hs5]. unfold read_from_tag.
  destruct (part_read m _ _ _ standalone Hm Hs5) as (tag & -> & Htag).
  { destruct Hpart as [Hn|(Hst & -> & Hend)]; [by left|right]. split; [done|].
    rewrite app_nil_r, Hl4. lia. }
  cbn [mbind option_bind]. rewrite Htag. cbn [mbind option_bind]. apply sits_app in Hs5 as [_ Hs6].
  destruct (mweb_bytes_then 4 _ _ _ _ Hl4 Hs6) as [-> _]. cbn [mbind option_bind].
  apply sits_app in Hs6 as [Hs6 _]. rewrite (Htx _ Hs6).
  destruct (without_mweb m) as [tx|]; [|done]. cbn [mbind option_bind]. do 2 f_equal. lia.
Qed.

(** Inside a block nothing says where a non-null MWEB part ends. *)
Lemma flagged_refused m buf start rest :
  wf_mweb m -> mt_body m <> None -> sits buf start (ser_mweb m ++ rest) ->
  readMwebFlaggedTransaction buf start false = None.
Proof.
  intros Hm Hb Hs. destruct (flagged_to_tag m _ _ _ false Hm Hs) as [-> Hs2].
  apply sits_app in Hs2 as [_ Hs2]. unfold read_from_tag, ser_part in *.
  destruct (mt_body m) as [b|] eqn:Eb; [|done]. destruct (wm_body _ Hm b Eb) as (x & r & -> & Hx).
  cbn [default from_option] in Hs2. unfold id in Hs2. rewrite (sits_byte _ _ _ _ Hs2).
  rewrite (bool_decide_eq_false_2 (Some x = Some 0)); [by destruct (skipMwebBytes _ _ _)|]. by intros [= ->].
Qed.
End ReadMweb.

(** *** Litecoin blocks *)

Section MwebBlocks.
Context `{BlockLib}.

(** varuint-bitcoin reads CompactSize, and bitcoinjs-lib reads this transaction back from
    its bytes, whatever follows them. *)
Definition varuint_law : Prop :=
  forall v buf o x, 0 <= v -> fits v -> sits buf o (compact_size v ++ x) ->
    varuint_decode buf o = Some (v, size_of (compact_size v)).

Definition lib_reads (p : bytes * lib_tx) : Prop :=
  (forall rest, tx_fromBuffer true (p.1 ++ rest) = Some p.2)
  /\ tx_byteLength p.2 = size_of p.1 /\ 10 <= size_of p.1.

(** A header, the transactions, the HogEx and the MWEB extension block. *)
Definition ltc_block (header : bytes) (l : list (bytes * lib_tx)) (h : mweb_tx)
    (extension : bytes) : bytes :=
  header ++ compact_size (Z.of_nat (length l) + 1) ++ concat (map fst l) ++ ser_mweb h ++ extension.

Lemma sits_drop buf o x : sits buf o x -> exists rest, drop (Z.to_nat o) buf = x ++ rest.
Proof.
  intros (pre & post & -> & ->). exists post. unfold size_of. rewrite Nat2Z.id.
  by rewrite drop_app_length.
Qed.

Lemma read_block_txs_hogex l h buf o rest :
  Forall lib_reads l -> wf_mweb h -> sits buf o (concat (map fst l) ++ ser_mweb h ++ rest) ->
  read_block_txs (length l + 1) buf o
  = ('(tx, consumed) ← readMwebFlaggedTransaction buf (o + size_of (concat (map fst l))) false;
     Some (map snd l ++ [tx], o + size_of (concat (map fst l)) + consumed, true)).
Proof.
  intros Hl Hh. revert o. induction Hl as [|[s t] l (Hr & Hlen & _) Hl IH]; intros o Hs.
  - simpl in Hs. cbn [read_block_txs length Nat.add Nat.eqb map concat app].
    rewrite (flagged_has_flag _ _ _ _ Hh Hs). change (size_of []) with 0. rewrite Z.add_0_r. done.
  - cbn [map concat fst snd] in *. rewrite <- app_assoc in Hs.
    cbn [length Nat.add read_block_txs]. replace (length l + 1 =? 0)%nat with false
      by (symmetry; apply Nat.eqb_neq; lia). cbn [andb].
    destruct (sits_drop _ _ _ Hs) as (r & ->). rewrite <- app_assoc, Hr. cbn [mbind option_bind].
    apply sits_app in Hs as [_ Hs]. rewrite Hlen, (IH _ Hs), size_app, Z.add_assoc.
    by destruct (readMwebFlaggedTransaction _ _ _) as [[tx consumed]|].
Qed.

Lemma concat_size_ge (l : list (bytes * lib_tx)) :
  Forall lib_reads l -> Z.of_nat (length l) * 10 <= size_of (concat (map fst l)).
Proof.
  induction 1 as [|[s t] l (_ & _ & Hs) _ IH]; [done|]. cbn [map concat fst snd] in *.
  rewrite size_app. simpl length. lia.
Qed.

Lemma size_ser_mweb h : wf_mweb h -> 10 <= size_of (ser_mweb h).
Proof.
  intros [Hb _ _]. unfold ser_mweb, ser_body.
  pose proof (size_vector_pos ser_in (wt_ins (mt_base h))) as Ka.
  pose proof (size_vector_pos ser_out (wt_outs (mt_base h))) as Kb.
  revert Ka Kb. generalize (vector ser_in (wt_ins (mt_base h))), (vector ser_out (wt_outs (mt_base h))).
  intros a b Ha Hb'. rewrite !size_app, (wf_version _ Hb), (wf_locktime _ Hb).
  change (size_of [0; mweb_flag h]) with 2.
  pose proof (size_nonneg (ser_part h)).
  pose proof (size_nonneg (match wt_witness (mt_base h) with Some w => ser_witness w | None => [] end)).
  lia.
Qed.

Lemma read_transactions_hogex header l h extension :
  varuint_law -> size_of header = 80 -> Forall lib_reads l -> wf_mweb h ->
  fits (Z.of_nat (length l) + 1) ->
  let buf := ltc_block header l h extension in
  let o := 80 + size_of (compact_size (Z.of_nat (length l) + 1)) + size_of (concat (map fst l)) in
  sits buf o (ser_mweb h ++ extension)
  /\ readMwebTransactions buf 80
     = ('(tx, consumed) ← readMwebFlaggedTransaction buf o false;
        Some (map snd l ++ [tx], o + consumed, true)).
Proof.
  intros Hv H80 Hl Hh Hn buf o.
  assert (Hs : sits buf 80 (compact_size (Z.of_nat (length l) + 1) ++ concat (map fst l)
    ++ ser_mweb h ++ extension)).
  { exists header, []. by rewrite app_nil_r. }
  assert (Hn0 : 0 <= Z.of_nat (length l) + 1) by lia.
  pose proof (Hv _ _ _ _ Hn0 Hn Hs) as Hd.
  apply sits_app in Hs as [_ Hs]. pose proof (sits_bound _ _ _ Hs) as [_ Hb].
  pose proof Hs as Hs1. apply sits_app in Hs1 as [_ Hs1]. split; [exact Hs1|].
  unfold readMwebTransactions. rewrite Hd. cbn [mbind option_bind].
  pose proof (concat_size_ge l Hl). pose proof (size_ser_mweb h Hh).
  pose proof (size_nonneg extension). rewrite !size_app in Hb.
  rewrite (proj2 (Z.ltb_ge _ _)) by lia.
  replace (Z.to_nat (Z.of_nat (length l) + 1)) with (length l + 1)%nat by lia.
  by rewrite (read_block_txs_hogex l h buf _ extension).
Qed.

Lemma read_header_some buf :
  80 <= size_of buf -> exists v b n, read_header buf
    = Some (MwebBlock v (sub_bytes buf 4 32) (sub_bytes buf 36 32) (le_value (sub_bytes buf 68 4)) b n).
Proof.
  intros Hs. unfold read_header, read_int32, read_le.
  repeat (rewrite (proj2 (Z.leb_le _ _)) by lia; cbn [andb Z.leb fmap option_fmap option_map mbind option_bind Z.compare]).
  do 3 eexists. done.
Qed.
End MwebBlocks.

(** ** Properties *)

Section Properties.
Context `{BlockLib}.

Lemma ltc_size header l h extension :
  size_of header = 80 -> wf_mweb h -> 80 < size_of (ltc_block header l h extension).
Proof.
  intros H80 Hh. unfold ltc_block. rewrite !size_app, H80. pose proof (size_ser_mweb h Hh).
  pose proof (size_compact_pos (Z.of_nat (length l) + 1)).
  pose proof (size_nonneg (concat (map fst l))). pose proof (size_nonneg extension). lia.
Qed.

(** The 80 bytes of a header, by its fields. *)
Record header_fields := HeaderFields {
  hd_version : Z; hd_prevHash : bytes; hd_merkleRoot : bytes; hd_timestamp : Z; hd_bits : Z;
  hd_nonce : Z
}.

Definition ser_header (f : header_fields) : bytes :=
  le_bytes 4 (hd_version f mod 2 ^ 32) ++ hd_prevHash f ++ hd_merkleRoot f
  ++ le_bytes 4 (hd_timestamp f) ++ le_bytes 4 (hd_bits f) ++ le_bytes 4 (hd_nonce f).

(** A signed version, two hashes, and three unsigned numbers. *)
Record wf_header (f : header_fields) : Prop := {
  wf_hd_version : - 2 ^ 31 <= hd_version f < 2 ^ 31;
  wf_hd_prev : size_of (hd_prevHash f) = 32;
  wf_hd_root : size_of (hd_merkleRoot f) = 32;
  wf_hd_timestamp : 0 <= hd_timestamp f < 2 ^ 32;
  wf_hd_bits : 0 <= hd_bits f < 2 ^ 32;
  wf_hd_nonce : 0 <= hd_nonce f < 2 ^ 32
}.

Lemma size_le4 v : size_of (le_bytes 4 v) = 4.
Proof. unfold size_of. by rewrite length_le_bytes. Qed.

Lemma size_ser_header f : wf_header f -> size_of (ser_header f) = 80.
Proof. intros []. unfold ser_header. rewrite !size_app, !size_le4. lia. Qed.

Lemma sits_next k n buf o x y : sits buf o (x ++ y) -> size_of x = n -> o + n = k -> sits buf k y.
Proof. intros [_ Hs]%sits_app <- <-. exact Hs. Qed.

Lemma read_header_ser f buf x :
  wf_header f -> sits buf 0 (ser_header f ++ x) ->
  read_header buf = Some (MwebBlock (hd_version f) (hd_prevHash f) (hd_merkleRoot f)
    (hd_timestamp f) (hd_bits f) (hd_nonce f))
  /\ sub_bytes buf 36 32 = hd_merkleRoot f.
Proof.
  intros [Hv Hp Hr Ht Hb Hn] Hs. unfold read_header, read_int32, ser_header in *.
  rewrite <- !app_assoc in Hs.
  pose proof (sits_next 4 _ _ _ _ _ Hs (size_le4 _) eq_refl) as H4.
  pose proof (sits_next 36 _ _ _ _ _ H4 Hp eq_refl) as H36.
  pose proof (sits_next 68 _ _ _ _ _ H36 Hr eq_refl) as H68.
  pose proof (sits_next 72 _ _ _ _ _ H68 (size_le4 _) eq_refl) as H72.
  pose proof (sits_next 76 _ _ _ _ _ H72 (size_le4 _) eq_refl) as H76.
  rewrite (sits_read_n 4 _ _ _ _ Hs), (sits_read_n 4 _ _ _ _ H68), (sits_read_n 4 _ _ _ _ H72),
    (sits_read_n 4 _ _ _ _ H76), (sits_sub_n 32 _ _ _ _ H4), (sits_sub_n 32 _ _ _ _ H36)
    by (done || by rewrite size_le4).
  pose proof (Z.mod_pos_bound (hd_version f) (2 ^ 32)). split; [|done].
  cbn [fmap option_fmap option_map mbind option_bind].
  rewrite !le_value_bytes by (simpl Z.of_nat; lia). do 2 f_equal.
  destruct (Z.ltb_spec (hd_version f) 0).
  - replace (hd_version f mod 2 ^ 32) with (hd_version f + 2 ^ 32);
      [rewrite (proj2 (Z.ltb_ge _ _)); lia|].
    apply Z.mod_unique with (q := -1); lia.
  - rewrite Z.mod_small by lia. rewrite (proj2 (Z.ltb_lt _ _)); lia.
Qed.

(** C33: a Litecoin block whose last transaction is a HogEx decodes to every field of its
    header - the signed version, the previous hash, the merkle root, the time, the bits and
    the nonce as they were serialised - and to its transactions in order, the HogEx without
    its MWEB part, whatever extension block follows. *)
Theorem mweb_block_decodes f l h extension htx :
  varuint_law -> wf_header f -> Forall lib_reads l -> wf_mweb h ->
  fits (Z.of_nat (length l) + 1) -> mt_body h = None -> without_mweb h = Some htx ->
  calculateMerkleRoot (map snd l ++ [htx]) = hd_merkleRoot f ->
  blockFromBuffer WireMweb (ltc_block (ser_header f) l h extension)
  = inr (Mweb (MwebBlock (hd_version f) (hd_prevHash f) (hd_merkleRoot f) (hd_timestamp f)
           (hd_bits f) (hd_nonce f) (Some (map snd l ++ [htx]))
           (getWitnessCommit (map snd l ++ [htx])))).
Proof.
  intros Hv Hf Hl Hh Hn Hb Hw Hm. pose proof (size_ser_header f Hf) as H80.
  pose proof (ltc_size _ l h extension H80 Hh) as Hs.
  destruct (read_transactions_hogex _ l h extension Hv H80 Hl Hh Hn) as [Hsit Htx].
  rewrite (flagged_read h _ _ _ false Hh Hsit (or_introl Hb)), Hw in Htx. cbn [mbind option_bind] in Htx.
  unfold blockFromBuffer, mweb_from_buffer.
  destruct (read_header_ser f (ltc_block (ser_header f) l h extension)
    (compact_size (Z.of_nat (length l) + 1) ++ concat (map fst l) ++ ser_mweb h ++ extension))
    as [-> Hroot]; [done|exists [], []; by rewrite app_nil_r|].
  rewrite (proj2 (Z.eqb_neq _ _)) by lia. rewrite Htx. unfold assertBlockBodyIntact.
  rewrite length_app. rewrite (proj2 (Z.ltb_ge _ _)) by (simpl length; lia).
  rewrite andb_false_r, Hroot. by rewrite bool_decide_eq_true_2.
Qed.

(** Inside a block a last transaction with a non-null MWEB part is refused, whatever
    its bytes hold, as a transaction parse failure. *)
Theorem mweb_part_in_block_refused header l h extension :
  varuint_law -> size_of header = 80 -> Forall lib_reads l -> wf_mweb h ->
  fits (Z.of_nat (length l) + 1) -> mt_body h <> None ->
  blockFromBuffer WireMweb (ltc_block header l h extension) = inl TransactionParseError.
Proof.
  intros Hv H80 Hl Hh Hn Hb. pose proof (ltc_size header l h extension H80 Hh) as Hs.
  destruct (read_header_some (ltc_block header l h extension)) as (v & b & n & Hr); [lia|].
  destruct (read_transactions_hogex header l h extension Hv H80 Hl Hh Hn) as [Hsit Htx].
  rewrite (flagged_refused h _ _ _ Hh Hb Hsit) in Htx. cbn [mbind option_bind] in Htx.
  unfold blockFromBuffer, mweb_from_buffer. rewrite Hr, Htx.
  by rewrite (proj2 (Z.eqb_neq _ _)) by lia.
Qed.

(** Getrawtransaction's MWEB serialisation, with or without an MWEB part, reads as the
    transaction without it: built field by field when it has no transparent input, else
    re-read from the serialisation every node writes. *)
Theorem mweb_transaction_decodes m :
  wf_mweb m -> Forall is_byte (ser_mweb m) ->
  transactionFromHex WireMweb (hex_of (ser_mweb m))
  = match without_mweb m with Some tx => inr tx | None => inl TransactionParseError end.
Proof.
  intros Hm Hb. assert (Hs : sits (ser_mweb m) 0 (ser_mweb m ++ [])).
  { exists [], []. by rewrite !app_nil_r. }
  unfold transactionFromHex, whole_hex_text. rewrite from_hex_of by done.
  rewrite (flagged_has_flag _ _ _ _ Hm Hs), (flagged_read m _ _ _ true Hm Hs) by by right.
  pose proof (size_ser_mweb m Hm) as Hp.
  assert (is_empty (hex_of (ser_mweb m)) = false) as ->.
  { destruct (ser_mweb m) as [|x r]; [by unfold size_of in Hp|done]. }
  rewrite length_hex_of, Nat2Z.inj_mul, Z.mul_comm, Z.mod_mul by done. cbn [negb andb Z.eqb].
  assert (forallb is_hex (hex_of (ser_mweb m)) = true) as ->.
  { apply forallb_forall. intros c Hc. pose proof (hex_of_hex _ Hb) as Hh.
    rewrite Forall_forall in Hh. by apply Hh, list_elem_of_In. }
  cbn [negb andb]. destruct (without_mweb m) as [tx|]; [|done]. cbn [mbind option_bind].
  by rewrite Z.eqb_refl.
Qed.

(** The body of an accepted block. *)
Definition accepted_body (buffer : bytes) (b : decoded_block) : Prop :=
  match b with
  | Mweb b => exists txs, mb_transactions b = Some txs /\ txs <> []
                /\ calculateMerkleRoot txs = mb_merkleRoot b
  | Plain b => block_transactions b <> [] /\ block_byteLength b = size_of buffer
               /\ calculateMerkleRoot (block_transactions b) = block_merkleRoot b
  end.

Lemma intact_sound txs root len e ext :
  assertBlockBodyIntact txs root len e ext = true ->
  txs <> [] /\ (ext = false -> e = len) /\ calculateMerkleRoot txs = root.
Proof.
  unfold assertBlockBodyIntact. destruct (_ <? 1) eqn:E1; [done|]. destruct (_ && _) eqn:E2; [done|].
  intros E3. apply bool_decide_eq_true in E3. b2p.
  split; [by intros ->|]. split; [|done]. intros ->.
  destruct (e =? len) eqn:E; [by apply Z.eqb_eq|done].
Qed.

Lemma accepted_block fmt buffer b :
  blockFromBuffer fmt buffer = inr b -> size_of buffer <> 80 -> accepted_body buffer b.
Proof.
  intros Hd H80. apply Z.eqb_neq in H80.
  assert (Hp : plain_from_buffer buffer = inr b -> accepted_body buffer b).
  { unfold plain_from_buffer. destruct (block_fromBuffer buffer) as [p|]; [|done]. rewrite H80.
    destruct (assertBlockBodyIntact _ _ _ _ _) eqn:E; [|done]. intros [= <-].
    apply intact_sound in E as (E1 & E2 & E3). split; [done|]. split; [by apply E2|done]. }
  destruct fmt; [by apply Hp| |by apply Hp].
  unfold blockFromBuffer, mweb_from_buffer in Hd.
  destruct (read_header buffer) as [block|] eqn:Er; [|done]. rewrite H80 in Hd.
  destruct (readMwebTransactions buffer 80) as [[[txs e] ext]|]; [|done].
  destruct (assertBlockBodyIntact _ _ _ _ _) eqn:E; [|done]. injection Hd as <-.
  apply intact_sound in E as (E1 & _ & E3). unfold read_header in Er.
  destruct (read_int32 buffer 0); [|done]. destruct (read_le 4 buffer 68); [|done].
  destruct (read_le 4 buffer 72); [|done]. destruct (read_le 4 buffer 76); [|done].
  injection Er as <-. by exists txs.
Qed.
End Properties.

(** ** A small Litecoin block *)

Definition toy_hogex : mweb_tx := MwebTx toy_payment None.
Definition toy_pegin : mweb_tx := MwebTx toy_payment (Some [1; 77; 87]).

Lemma toy_mweb_ok body : (forall b, body = Some b -> exists x r, b = x :: r /\ x <> 0) ->
  wf_mweb (MwebTx toy_payment body).
Proof. intros Hb. split; [apply toy_payment_ok|by right|exact Hb]. Qed.

Lemma toy_hogex_ok : wf_mweb toy_hogex.
Proof. by apply toy_mweb_ok. Qed.

Lemma toy_pegin_ok : wf_mweb toy_pegin.
Proof. apply toy_mweb_ok. intros b [= <-]. by do 2 eexists. Qed.

Lemma toy_varuint : varuint_law.
Proof.
  intros v buf o x H1 H2 Hs. eapply readVarint_compact; [by apply fits_64|exact Hs].
Qed.

Definition toy_plain : list (bytes * @lib_tx toy_lib) := [(ser_tx toy_coinbase, ser_tx toy_coinbase)].

Lemma toy_plain_reads : Forall lib_reads toy_plain.
Proof.
  apply Forall_cons. split; [|by apply Forall_nil].
  split; [intros rest; apply (toy_tx_reads _ _ toy_coinbase_ok)|]. by split.
Qed.

(** Every field different, and a negative version. *)
Definition toy_fields : header_fields :=
  HeaderFields (-3) (replicate 32 17) (replicate 32 2) 1700000000 436469756 4000000007.

Lemma toy_fields_ok : wf_header toy_fields.
Proof. by split. Qed.

Abbreviation toy_ltc h :=
  (ltc_block (ser_header toy_fields) toy_plain h [1; 2; 3]).

Lemma mweb_block_decodes_witness :
  blockFromBuffer WireMweb (toy_ltc toy_hogex)
  = inr (Mweb (MwebBlock (-3) (replicate 32 17) (replicate 32 2) 1700000000 436469756 4000000007
           (Some [ser_tx toy_coinbase; ser_tx toy_payment]) None)).
Proof.
  apply (mweb_block_decodes toy_fields toy_plain toy_hogex [1; 2; 3]
    (ser_tx toy_payment)).
  - exact toy_varuint.
  - exact toy_fields_ok.
  - exact toy_plain_reads.
  - exact toy_hogex_ok.
  - done.
  - done.
  - by vm_compute.
  - by vm_compute.
Defined.

Lemma mweb_part_in_block_refused_witness :
  blockFromBuffer WireMweb (toy_ltc toy_pegin) = inl TransactionParseError.
Proof.
  apply mweb_part_in_block_refused.
  - exact toy_varuint.
  - done.
  - exact toy_plain_reads.
  - exact toy_pegin_ok.
  - done.
  - done.
Defined.

Lemma mweb_transaction_decodes_witness :
  transactionFromHex WireMweb (hex_of (ser_mweb toy_pegin)) = inr (ser_tx toy_payment).
Proof.
  rewrite (mweb_transaction_decodes toy_pegin toy_pegin_ok).
  - reflexivity.
  - by apply bytes_b_true.
Defined.
