(* ===== verification/Buffers.v ===== *)
(** * The buffer writer and reader

    The classes BufferWriter and BufferReader of src/src/chain/bufferutils.js, the patch of
    src/src/chain/apply_bufferutils_patch.js that puts them in the place of the stock ones of
    bitcoinjs-lib, and the check of payload_helpers.js that asks for it.

    A writer is its buffer and its offset; a throw is [None] and what it leaves in the buffer
    is not described.  Values other than those of writeUInt64 are integers.  varuint-bitcoin
    is a parameter: [varuint_decode] of [BlockLib], and [varuint_encode], which gives the
    buffer after the write and the width.

    What a writer puts into a buffer of the right size, and into no other, a reader gets
    back, item by item; 64-bit amounts without a ceiling below 2^64. *)
From S2P Require Import Prelude JsNum Wire AuxPow LibSample BlockDecoder.
#[local] Open Scope Z_scope.

(** ** Writing into a buffer *)

(** [b] copied over the bytes from the offset on. *)
Definition write_at (buf : bytes) (o : Z) (b : bytes) : bytes :=
  take (Z.to_nat o) buf ++ b ++ drop (Z.to_nat o + length b) buf.

(** [writeUInt8], [writeUInt32LE], [writeBigUInt64LE] of Buffer: a range error for the value
    or for the place. *)
Definition write_le (n : nat) (v : Z) (buf : bytes) (o : Z) : option (bytes * Z) :=
  if (0 <=? v) && (v <? 256 ^ Z.of_nat n) && (0 <=? o) && (o + Z.of_nat n <=? size_of buf)
  then Some (write_at buf o (le_bytes n v), o + Z.of_nat n) else None.

(** [writeInt32LE] *)
Definition write_int32 (v : Z) (buf : bytes) (o : Z) : option (bytes * Z) :=
  if (- 2 ^ 31 <=? v) && (v <? 2 ^ 31) then write_le 4 (v mod 2 ^ 32) buf o else None.

Definition uint32 (n : Z) : bool := (0 <=? n) && (n <? 2 ^ 32).

(** [BigInt(value)] of a number or a BigInt. *)
Definition BigInt (value : num + Z) : option Z :=
  match value with inl n => integer_of n | inr z => Some z end.

Record writer := Writer { w_buffer : bytes; w_offset : Z }.
Record reader := Reader { r_buffer : bytes; r_offset : Z }.

Section Classes.
Context {B : BlockLib}.
Context (varuint_encode : Z -> bytes -> Z -> option (bytes * Z)).

(** ** BufferWriter *)

Definition new_writer (buffer : bytes) (offset : Z) : option writer :=
  if uint32 offset then Some (Writer buffer offset) else None.

Definition withCapacity (size : Z) : option writer := new_writer (replicate (Z.to_nat size) 0) 0.

Definition moved (r : option (bytes * Z)) : option writer := '(b, o) ← r; Some (Writer b o).

Definition writeUInt8 (i : Z) (w : writer) : option writer := moved (write_le 1 i (w_buffer w) (w_offset w)).

Definition writeInt32 (i : Z) (w : writer) : option writer := moved (write_int32 i (w_buffer w) (w_offset w)).

Definition writeUInt32 (i : Z) (w : writer) : option writer := moved (write_le 4 i (w_buffer w) (w_offset w)).

Definition writeUInt64 (value : num + Z) (w : writer) : option writer :=
  v ← BigInt value; moved (write_le 8 v (w_buffer w) (w_offset w)).

Definition writeVarInt (i : Z) (w : writer) : option writer :=
  '(b, width) ← varuint_encode i (w_buffer w) (w_offset w); Some (Writer b (w_offset w + width)).

Definition writeSlice (slice : bytes) (w : writer) : option writer :=
  if size_of (w_buffer w) <? w_offset w + size_of slice then None
  else Some (Writer (write_at (w_buffer w) (w_offset w) slice) (w_offset w + size_of slice)).

Definition writeVarSlice (slice : bytes) (w : writer) : option writer :=
  writeVarInt (size_of slice) w ≫= writeSlice slice.

Fixpoint write_each (vector : list bytes) (w : writer) : option writer :=
  match vector with
  | [] => Some w
  | buf :: vector' => writeVarSlice buf w ≫= write_each vector'
  end.

Definition writeVector (vector : list bytes) (w : writer) : option writer :=
  writeVarInt (Z.of_nat (length vector)) w ≫= write_each vector.

Definition end_ (w : writer) : option bytes :=
  if size_of (w_buffer w) =? w_offset w then Some (w_buffer w) else None.

(** ** BufferReader *)

Definition new_reader (buffer : bytes) (offset : Z) : option reader :=
  if uint32 offset then Some (Reader buffer offset) else None.

(** A read of [n] bytes moves the offset. *)
Definition advance (n : Z) (v : option Z) (r : reader) : option (Z * reader) :=
  x ← v; Some (x, Reader (r_buffer r) (r_offset r + n)).

Definition readUInt8 (r : reader) : option (Z * reader) := advance 1 (read_le 1 (r_buffer r) (r_offset r)) r.

Definition readInt32 (r : reader) : option (Z * reader) := advance 4 (read_int32 (r_buffer r) (r_offset r)) r.

Definition readUInt32 (r : reader) : option (Z * reader) := advance 4 (read_le 4 (r_buffer r) (r_offset r)) r.

Definition readUInt64 (r : reader) : option (Z * reader) := advance 8 (read_le 8 (r_buffer r) (r_offset r)) r.

Definition readVarInt (r : reader) : option (Z * reader) :=
  '(vi, width) ← varuint_decode (r_buffer r) (r_offset r); Some (vi, Reader (r_buffer r) (r_offset r + width)).

Definition readSlice (n : Z) (r : reader) : option (bytes * reader) :=
  if size_of (r_buffer r) <? r_offset r + n then None
  else Some (sub_bytes (r_buffer r) (r_offset r) n, Reader (r_buffer r) (r_offset r + n)).

Definition readVarSlice (r : reader) : option (bytes * reader) :=
  '(n, r) ← readVarInt r; readSlice n r.

(** The loop of readVector: a slice takes at least a byte, so one unit of fuel per byte, and
    one more, is enough ([read_each_fuel]). *)
Fixpoint read_each (fuel : nat) (count : Z) (r : reader) : option (list bytes * reader) :=
  if count <=? 0 then Some ([], r)
  else match fuel with
       | O => None
       | S fuel =>
           '(x, r) ← readVarSlice r;
           '(l, r) ← read_each fuel (count - 1) r;
           Some (x :: l, r)
       end.

Definition readVector (r : reader) : option (list bytes * reader) :=
  '(count, r) ← readVarInt r; read_each (loop_fuel (r_buffer r)) count r.

(** ** The patch *)

(** What the patch reads and replaces of the module. *)
Record bufferutils := BufferUtils {
  bu_readUInt64LE : bytes -> Z -> option Z;
  bu_writeUInt64LE : num -> option bytes;
  bu_readUInt64 : reader -> option (Z * reader);
  bu_writeUInt64 : num + Z -> writer -> option writer
}.

(** 2^53, one more than the stock reader takes. *)
Definition probe_bytes : bytes := [0; 0; 0; 0; 0; 0; 32; 0].

Definition bigIntReaderActive (bu : bufferutils) : bool :=
  match bu_readUInt64 bu (Reader probe_bytes 0) with Some _ => true | None => false end.

Definition apply_patch (bu : bufferutils) : bufferutils :=
  if bigIntReaderActive bu then bu else BufferUtils readUInt64LE writeUInt64LE readUInt64 writeUInt64.

(** [None]: the module has no reader. *)
Definition bigIntBufferutilsActive (bu : option bufferutils) : bool :=
  match bu with Some bu => bigIntReaderActive bu | None => false end.

(** ** Items

    What a caller writes, its bytes on the wire, and the calls that write and read it. *)
Inductive item :=
  | U8 (v : Z) | I32 (v : Z) | U32 (v : Z) | U64 (v : Z)
  | VarInt (v : Z)
  | Slice (b : bytes)
  | VarSlice (b : bytes)
  | Vector (l : list bytes).

Definition ser_item (i : item) : bytes :=
  match i with
  | U8 v => le_bytes 1 v
  | I32 v => le_bytes 4 (v mod 2 ^ 32)
  | U32 v => le_bytes 4 v
  | U64 v => le_bytes 8 v
  | VarInt v => compact_size v
  | Slice b => b
  | VarSlice b => var_bytes b
  | Vector l => vector var_bytes l
  end.

Definition ser_items (l : list item) : bytes := concat (map ser_item l).

Definition ok_item (i : item) : Prop :=
  match i with
  | U8 v => 0 <= v < 2 ^ 8
  | I32 v => - 2 ^ 31 <= v < 2 ^ 31
  | U32 v => 0 <= v < 2 ^ 32
  | U64 v => 0 <= v < 2 ^ 64
  | VarInt v => 0 <= v /\ fits v
  | Slice _ => True
  | VarSlice b => ok_bytes b
  | Vector l => ok_vector ok_bytes l
  end.

Definition write_item (i : item) : writer -> option writer :=
  match i with
  | U8 v => writeUInt8 v
  | I32 v => writeInt32 v
  | U32 v => writeUInt32 v
  | U64 v => writeUInt64 (inr v)
  | VarInt v => writeVarInt v
  | Slice b => writeSlice b
  | VarSlice b => writeVarSlice b
  | Vector l => writeVector l
  end.

Fixpoint write_items (l : list item) (w : writer) : option writer :=
  match l with
  | [] => Some w
  | i :: l' => write_item i w ≫= write_items l'
  end.

Definition written (size : Z) (l : list item) : option bytes :=
  w ← withCapacity size; w ← write_items l w; end_ w.

(** The call that reads what [i] was written as; of a slice the reader knows the length. *)
Definition read_item (i : item) (r : reader) : option (item * reader) :=
  match i with
  | U8 _ => '(v, r) ← readUInt8 r; Some (U8 v, r)
  | I32 _ => '(v, r) ← readInt32 r; Some (I32 v, r)
  | U32 _ => '(v, r) ← readUInt32 r; Some (U32 v, r)
  | U64 _ => '(v, r) ← readUInt64 r; Some (U64 v, r)
  | VarInt _ => '(v, r) ← readVarInt r; Some (VarInt v, r)
  | Slice b => '(x, r) ← readSlice (size_of b) r; Some (Slice x, r)
  | VarSlice _ => '(x, r) ← readVarSlice r; Some (VarSlice x, r)
  | Vector _ => '(l, r) ← readVector r; Some (Vector l, r)
  end.

Fixpoint read_items (l : list item) (r : reader) : option (list item * reader) :=
  match l with
  | [] => Some ([], r)
  | i :: l' => '(x, r) ← read_item i r; '(xs, r) ← read_items l' r; Some (x :: xs, r)
  end.

(** ** The law of varuint-bitcoin

    Its encoder writes the CompactSize of a safe integer where there is room for it, and
    throws where there is none. *)
Definition encode_law : Prop :=
  forall v buf o, 0 <= v -> fits v -> 0 <= o <= size_of buf ->
    varuint_encode v buf o
    = if o + size_of (compact_size v) <=? size_of buf
      then Some (write_at buf o (compact_size v), size_of (compact_size v)) else None.

(** ** Writers and readers of some bytes *)

(** A call that writes [b] where there is room for it, and throws where there is none. *)
Class Puts (f : writer -> option writer) (b : bytes) : Prop :=
  puts : forall buf o, 0 <= o <= size_of buf ->
    f (Writer buf o) = if o + size_of b <=? size_of buf
                       then Some (Writer (write_at buf o b) (o + size_of b)) else None.

(** A call that reads [x] where [b] is. *)
Class Gets {A} (g : reader -> option (A * reader)) (b : bytes) (x : A) : Prop :=
  gets : forall buf o, sits buf o b -> g (Reader buf o) = Some (x, Reader buf (o + size_of b)).

Lemma size_write_at buf o b :
  0 <= o -> o + size_of b <= size_of buf -> size_of (write_at buf o b) = size_of buf.
Proof.
  intros Ho Hb. unfold write_at, size_of in *. rewrite !length_app, length_take, length_drop. lia.
Qed.

Lemma write_at_app buf o a b :
  0 <= o -> o + size_of (a ++ b) <= size_of buf ->
  write_at (write_at buf o a) (o + size_of a) b = write_at buf o (a ++ b).
Proof.
  intros Ho Hb. rewrite size_app in Hb. unfold write_at, size_of in *.
  replace (Z.to_nat (o + Z.of_nat (length a))) with (Z.to_nat o + length a)%nat by lia.
  rewrite (app_assoc (take _ _) a). rewrite take_app_length' by (rewrite length_app, length_take; lia).
  rewrite <- !app_assoc. do 3 f_equal.
  rewrite drop_app_ge by (rewrite length_take; lia). rewrite length_take, drop_app_ge by lia.
  rewrite drop_drop, length_app. f_equal. lia.
Qed.

#[export] Instance puts_nothing : Puts Some [].
Proof.
  intros buf o Ho. change (size_of []) with 0. rewrite Z.add_0_r, (proj2 (Z.leb_le _ _)) by lia.
  do 2 f_equal. unfold write_at. cbn. rewrite Nat.add_0_r. symmetry. apply take_drop.
Qed.

Lemma puts_then f g a b : Puts f a -> Puts g b -> Puts (fun w => f w ≫= g) (a ++ b).
Proof.
  intros Hf Hg buf o Ho. rewrite (Hf buf o Ho). pose proof (size_nonneg a). pose proof (size_nonneg b).
  rewrite (size_app a b). destruct (Z.leb_spec (o + size_of a) (size_of buf)) as [Ha|Ha]; cbn [mbind option_bind].
  - rewrite Hg by (rewrite size_write_at by lia; lia). rewrite size_write_at by lia. rewrite Z.add_assoc.
    destruct (Z.leb_spec (o + size_of a + size_of b) (size_of buf)) as [Hb|Hb]; [|done].
    by rewrite write_at_app by (rewrite ?size_app; lia).
  - by rewrite (proj2 (Z.leb_gt _ _)) by lia.
Qed.

Lemma gets_then {A C D} g (k : A -> reader -> option (C * reader)) (h : A -> C -> D) a b x y :
  Gets g a x -> Gets (k x) b y ->
  Gets (fun r => '(x, r) ← g r; '(y, r) ← k x r; Some (h x y, r)) (a ++ b) (h x y).
Proof.
  intros Hg Hk buf o Hs. apply sits_app in Hs as [H1 H2]. rewrite (Hg _ _ H1). cbn [mbind option_bind].
  rewrite (Hk _ _ H2). cbn. by rewrite size_app, Z.add_assoc.
Qed.

(** *** The calls *)

Lemma puts_le n v : 0 <= v < 256 ^ Z.of_nat n ->
  Puts (fun w => moved (write_le n v (w_buffer w) (w_offset w))) (le_bytes n v).
Proof.
  intros Hv buf o Ho. unfold write_le. cbn [w_buffer w_offset]. rewrite size_le_bytes.
  rewrite (proj2 (Z.leb_le _ _)), (proj2 (Z.ltb_lt _ _)), (proj2 (Z.leb_le 0 o)) by lia. cbn [andb].
  by destruct (o + Z.of_nat n <=? size_of buf).
Qed.

Lemma puts_int32 v : - 2 ^ 31 <= v < 2 ^ 31 -> Puts (writeInt32 v) (le_bytes 4 (v mod 2 ^ 32)).
Proof.
  intros Hv buf o Ho. unfold writeInt32, write_int32.
  rewrite (proj2 (Z.leb_le _ _)), (proj2 (Z.ltb_lt _ _)) by lia.
  apply puts_le; [|done]. by apply (Z.mod_pos_bound v (2 ^ 32)).
Qed.

Lemma puts_slice b : Puts (writeSlice b) b.
Proof.
  intros buf o Ho. unfold writeSlice. cbn [w_buffer w_offset].
  destruct (Z.leb_spec (o + size_of b) (size_of buf)).
  - by rewrite (proj2 (Z.ltb_ge _ _)) by lia.
  - by rewrite (proj2 (Z.ltb_lt _ _)) by lia.
Qed.

Section WithEncode.
Hypothesis Henc : encode_law.

Lemma puts_varint v : 0 <= v -> fits v -> Puts (writeVarInt v) (compact_size v).
Proof.
  intros Hv Hf buf o Ho. unfold writeVarInt. cbn [w_buffer w_offset]. rewrite (Henc v buf o Hv Hf Ho).
  by destruct (o + size_of (compact_size v) <=? size_of buf).
Qed.

Lemma puts_var_slice b : ok_bytes b -> Puts (writeVarSlice b) (var_bytes b).
Proof.
  intros Hb. apply (puts_then (writeVarInt (size_of b)) (writeSlice b)); [|apply puts_slice].
  apply puts_varint; [apply size_nonneg|done].
Qed.

Lemma puts_each l : Forall ok_bytes l -> Puts (write_each l) (concat (map var_bytes l)).
Proof.
  induction 1 as [|b l Hb _ IH]; [apply puts_nothing|].
  apply (puts_then (writeVarSlice b)); [by apply puts_var_slice|exact IH].
Qed.

Lemma puts_item i : ok_item i -> Puts (write_item i) (ser_item i).
Proof.
  destruct i as [v|v|v|v|v|b|b|l]; cbn; intros Hi.
  - by apply (puts_le 1).
  - by apply puts_int32.
  - by apply (puts_le 4).
  - exact (puts_le 8 v Hi).
  - destruct Hi. by apply puts_varint.
  - apply puts_slice.
  - by apply puts_var_slice.
  - destruct Hi as [Hn Hl]. apply (puts_then (writeVarInt _) (write_each l)); [|by apply puts_each].
    apply puts_varint; [lia|done].
Qed.

Lemma puts_items l : Forall ok_item l -> Puts (write_items l) (ser_items l).
Proof.
  induction 1 as [|i l Hi _ IH]; [apply puts_nothing|].
  apply (puts_then (write_item i)); [by apply puts_item|exact IH].
Qed.
End WithEncode.

Section WithDecode.
Hypothesis Hdec : varuint_law.

Lemma gets_le n v : 0 <= v < 256 ^ Z.of_nat n ->
  Gets (fun r => advance (Z.of_nat n) (read_le (Z.of_nat n) (r_buffer r) (r_offset r)) r) (le_bytes n v) v.
Proof.
  intros Hv buf o Hs. unfold advance. cbn [r_buffer r_offset].
  rewrite (sits_read (Z.of_nat n) _ _ _ Hs) by by rewrite size_le_bytes. cbn [mbind option_bind].
  by rewrite le_value_bytes, size_le_bytes.
Qed.

Lemma gets_int32 v : - 2 ^ 31 <= v < 2 ^ 31 -> Gets readInt32 (le_bytes 4 (v mod 2 ^ 32)) v.
Proof.
  intros Hv buf o Hs. unfold readInt32, advance, read_int32. cbn [r_buffer r_offset].
  rewrite (sits_read 4 _ _ _ Hs) by by rewrite size_le_bytes.
  rewrite le_value_bytes by apply (Z.mod_pos_bound v (2 ^ 32) eq_refl). cbn [fmap option_fmap option_map mbind option_bind].
  rewrite size_le_bytes. do 2 f_equal. destruct (Z.ltb_spec (v mod 2 ^ 32) (2 ^ 31)) as [Hlt|Hge].
  - destruct (decide (0 <= v)); [by apply Z.mod_small; lia|].
    rewrite <- (Z.mod_add v 1), Z.mod_small in Hlt by lia. lia.
  - destruct (decide (0 <= v)); [rewrite Z.mod_small in Hge by lia; lia|].
    rewrite <- (Z.mod_add v 1), Z.mod_small by lia. lia.
Qed.

Lemma gets_varint v : 0 <= v -> fits v -> Gets readVarInt (compact_size v) v.
Proof.
  intros Hv Hf buf o Hs. unfold readVarInt. cbn [r_buffer r_offset].
  rewrite (Hdec v buf o [] Hv Hf); [done|]. by rewrite app_nil_r.
Qed.

Lemma gets_slice b : Gets (readSlice (size_of b)) b b.
Proof.
  intros buf o Hs. unfold readSlice. cbn [r_buffer r_offset]. destruct (sits_bound _ _ _ Hs) as [_ H].
  by rewrite (proj2 (Z.ltb_ge _ _)), (sits_sub _ _ _ Hs) by lia.
Qed.

Lemma gets_var_slice b : ok_bytes b -> Gets readVarSlice (var_bytes b) b.
Proof.
  intros Hb buf o Hs. apply sits_app in Hs as [H1 H2]. unfold readVarSlice.
  rewrite (gets_varint _ (size_nonneg b) Hb _ _ H1). cbn [mbind option_bind].
  rewrite (gets_slice b _ _ H2). unfold var_bytes. by rewrite size_app, Z.add_assoc.
Qed.

Lemma gets_each l buf o fuel :
  Forall ok_bytes l -> sits buf o (concat (map var_bytes l)) -> (length l <= fuel)%nat ->
  read_each fuel (Z.of_nat (length l)) (Reader buf o)
  = Some (l, Reader buf (o + size_of (concat (map var_bytes l)))).
Proof.
  intros Hl. revert o fuel. induction Hl as [|b l Hb _ IH]; intros o fuel Hs Hf.
  { change (size_of (concat (map var_bytes []))) with 0. rewrite Z.add_0_r. by destruct fuel. }
  destruct fuel as [|fuel]; [cbn in Hf; lia|]. cbn [concat map] in *. apply sits_app in Hs as [H1 H2].
  cbn [read_each]. rewrite (proj2 (Z.leb_gt _ _)) by (cbn [length]; lia).
  rewrite (gets_var_slice b Hb _ _ H1). cbn [mbind option_bind].
  replace (Z.of_nat (length (b :: l)) - 1) with (Z.of_nat (length l)) by (cbn [length]; lia).
  rewrite IH; [|exact H2|cbn in Hf; lia]. cbn [mbind option_bind]. by rewrite size_app, Z.add_assoc.
Qed.

Lemma gets_vector l : ok_vector ok_bytes l -> Gets readVector (vector var_bytes l) l.
Proof.
  intros [Hn Hl] buf o Hs. apply sits_app in Hs as [H1 H2]. unfold readVector.
  rewrite (gets_varint _ (Nat2Z.is_nonneg _) Hn _ _ H1). cbn [mbind option_bind r_buffer].
  rewrite (gets_each l _ _ _ Hl H2) by exact (pieces_fuel var_bytes _ _ _ size_var_bytes_pos H2).
  unfold vector. by rewrite size_app, Z.add_assoc.
Qed.

Lemma gets_item i : ok_item i -> Gets (read_item i) (ser_item i) i.
Proof.
  destruct i as [v|v|v|v|v|b|b|l]; cbn [ok_item ser_item]; intros Hi buf o Hs; cbn [read_item].
  - by rewrite (gets_le 1 v Hi _ _ Hs : readUInt8 _ = _).
  - by rewrite (gets_int32 v Hi _ _ Hs).
  - by rewrite (gets_le 4 v Hi _ _ Hs : readUInt32 _ = _).
  - by rewrite (gets_le 8 v Hi _ _ Hs : readUInt64 _ = _).
  - destruct Hi as [H1 H2]. by rewrite (gets_varint v H1 H2 _ _ Hs).
  - by rewrite (gets_slice b _ _ Hs).
  - by rewrite (gets_var_slice b Hi _ _ Hs).
  - by rewrite (gets_vector l Hi _ _ Hs).
Qed.

Lemma gets_items l : Forall ok_item l -> Gets (read_items l) (ser_items l) l.
Proof.
  induction 1 as [|i l Hi _ IH].
  - intros buf o _. change (size_of (ser_items [])) with 0. by rewrite Z.add_0_r.
  - apply (gets_then (read_item i) (fun _ => read_items l) cons); [by apply gets_item|exact IH].
Qed.

(** A finished readVector keeps its result with any more fuel, and a failed one fails. *)
Lemma read_each_fuel count r f f' :
  (forall buf o v width, varuint_decode buf o = Some (v, width) -> 0 <= v /\ 0 < width) ->
  0 <= r_offset r -> size_of (r_buffer r) - r_offset r < Z.of_nat f -> (f <= f')%nat ->
  read_each f' count r = read_each f count r.
Proof.
  intros Hw. revert count r f'. induction f as [|f IH]; intros count r f' H0 Hf Hf'.
  - destruct f' as [|f']; [done|]. cbn. destruct (count <=? 0); [done|].
    unfold readVarSlice, readVarInt, readSlice.
    destruct (varuint_decode (r_buffer r) (r_offset r)) as [[v w]|] eqn:E; [|done]. cbn.
    destruct (Hw _ _ _ _ E). by rewrite (proj2 (Z.ltb_lt _ _)) by lia.
  - destruct f' as [|f']; [lia|]. cbn. destruct (count <=? 0); [done|].
    unfold readVarSlice, readVarInt, readSlice.
    destruct (varuint_decode (r_buffer r) (r_offset r)) as [[v w]|] eqn:E; [|done]. cbn.
    destruct (Hw _ _ _ _ E). destruct (Z.ltb_spec (size_of (r_buffer r)) (r_offset r + w + v)); [done|]. cbn.
    rewrite (IH (count - 1) _ f'); cbn; [done|lia..].
Qed.
End WithDecode.

(** ** Round trip *)

(** C34: What a BufferWriter writes a BufferReader reads back.  Items of every kind (bytes,
    32-bit integers with and without a sign, 64-bit amounts up to 2^64 - 1, CompactSizes,
    slices with and without their length, vectors) are written and [end] hands the buffer
    out exactly when its capacity is the size of their wire format, which it then holds;
    with any other capacity one of the calls throws.  Wherever that buffer lies in a larger
    one, a reader placed at its start gets the same items and stops at its end. *)
Theorem buffers_read_back items size :
  encode_law -> varuint_law -> Forall ok_item items -> 0 <= size ->
  match written size items with
  | Some buf =>
      size = size_of (ser_items items) /\ buf = ser_items items
      /\ forall pre post r, new_reader (pre ++ buf ++ post) (size_of pre) = Some r ->
           read_items items r = Some (items, Reader (pre ++ buf ++ post) (size_of pre + size))
  | None => size <> size_of (ser_items items)
  end.
Proof.
  intros Henc Hdec Hok Hn. unfold written, withCapacity, new_writer.
  set (zeros := replicate (Z.to_nat size) 0).
  assert (size_of zeros = size) as Hz by (unfold size_of, zeros; rewrite length_replicate; lia).
  change (uint32 0) with true. cbn [mbind option_bind].
  rewrite (puts_items Henc items Hok zeros 0) by lia. rewrite Hz, Z.add_0_l.
  destruct (Z.leb_spec (size_of (ser_items items)) size) as [Hle|Hgt]; [|cbn; lia].
  cbn [mbind option_bind]. unfold end_. cbn [w_buffer w_offset]. rewrite size_write_at by lia. rewrite Hz.
  destruct (Z.eqb_spec size (size_of (ser_items items))) as [He|Hne]; [|done].
  assert (write_at zeros 0 (ser_items items) = ser_items items) as Ew.
  { unfold write_at. cbn. rewrite drop_ge; [apply app_nil_r|]. unfold size_of in *. lia. }
  rewrite Ew. split_and!; [done|done|]. intros pre post r Hr. unfold new_reader in Hr.
  destruct (uint32 (size_of pre)); [|done]. injection Hr as <-. rewrite He.
  apply (gets_items Hdec items Hok). by exists pre, post.
Qed.

(** After the patch the module's 64-bit reader takes what the stock one refuses, and the
    check that the boot of a Dogecoin decoder makes passes; a second patch changes
    nothing. *)
Lemma patched_reader_active bu :
  bigIntBufferutilsActive (Some (apply_patch bu)) = true /\ apply_patch (apply_patch bu) = apply_patch bu.
Proof.
  assert (bigIntReaderActive (apply_patch bu) = true) as H
    by (unfold apply_patch; by destruct (bigIntReaderActive bu) eqn:E; [|vm_compute]).
  split; [exact H|]. unfold apply_patch at 1. by rewrite H.
Qed.
End Classes.

(** ** A run *)

Definition toy_encode (v : Z) (buf : bytes) (o : Z) : option (bytes * Z) :=
  let width := size_of (compact_size v) in
  if o + width <=? size_of buf then Some (write_at buf o (compact_size v), width) else None.

Definition sample_items : list item :=
  [U8 255; I32 (-5); U32 4294967295; U64 (2 ^ 63 + 1); VarInt 300; Slice [1; 2]; VarSlice [9];
   Vector [[1]; []; [2; 3]]].

Lemma buffers_read_back_witness :
  (written toy_encode 31 sample_items) = Some (ser_items sample_items)
  /\ (written toy_encode 32 sample_items) = None
  /\ forall r, new_reader (ser_items sample_items) 0 = Some r ->
       read_items sample_items r = Some (sample_items, Reader (ser_items sample_items) 31).
Proof.
  split_and!; [by vm_compute|by vm_compute|].
  assert (Forall ok_item sample_items) as Hok by (repeat constructor; by vm_compute).
  pose proof (buffers_read_back toy_encode sample_items 31 ltac:(done) toy_varuint Hok ltac:(done)) as H.
  destruct (written toy_encode 31 sample_items) as [buf|] eqn:E;
    [|by vm_compute in E].
  destruct H as (_ & -> & H). intros r Hr. specialize (H [] [] r). rewrite app_nil_r in H. by apply H.
Defined.
