(* ===== verification/BlockFetch.v ===== *)
(** * Fetching a block

    src/src/chain/blockchain_connector/block_queries.js, and fetchBlockHex of
    src/src/XChainDecoder/chain_integrity.js: the block as the node sends it, with its
    AuxPoW section cut out, or rebuilt from its parts. *)
From S2P Require Import Prelude JsNum Wire AuxPow Collapse Rpc LibSample.
#[local] Open Scope Z_scope.

(** ** block_queries.js *)

Section Queries.
Context `{Transport} `{BlockLib}.

Definition getNetworkInfo : R json := rpcCallWithTimeoutRetry ReqNetworkInfo.
Definition getBlockchainInfo : R json := rpcCallWithTimeoutRetry ReqBlockchainInfo.

(** [/^[0-9a-fA-F]{64}$/] *)
Definition BLOCK_HASH_HEX (s : jstr) : bool :=
  (length s =? 64)%nat && forallb is_hex_char s.

Definition getBlockHash (blockindex : jsval) : R jstr :=
  result ← rpcCallWithTimeoutRetry (ReqBlockHash (Number blockindex));
  match string_of result with
  | Some s =>
      if BLOCK_HASH_HEX s then mret (map lowercase s)
      else count_rpc_error;; rthrow plain_rpc_error
  | None => count_rpc_error;; rthrow plain_rpc_error
  end.

Definition getBlockHeader (blockhash : json) (hexFormat : bool) : R json :=
  rpcCallWithTimeoutRetry (ReqBlockHeader blockhash (negb hexFormat)).

Definition getBlock (blockhash : json) (hexFormat : bool) : R json :=
  rpcCallWithTimeoutRetry (ReqBlock blockhash (negb hexFormat)).

Definition getBlockVerbose (blockhash : json) : R json :=
  rpcCallWithTimeoutRetry (ReqBlock blockhash true).

Definition getRawMempool : R json := rpcCallWithTimeoutRetry ReqRawMempool.

(** The string, when it is whole hex. *)
Definition isWholeHex (value : json) : option jstr :=
  match string_of value with
  | Some s =>
      if negb (is_empty s) && (Z.of_nat (length s) mod 2 =? 0) && forallb is_hex_char s
      then Some s else None
  | None => None
  end.

(** A content fault is tagged; its message is the only other thing kept. *)
Definition auxpow_parse_error : rpc_error := RpcError undefined undefined undefined None true.

Definition getBlockWithoutAuxPow (blockhash : json) : R json :=
  header ← getBlockHeader blockhash true;
  block ← getBlock blockhash true;
  match isWholeHex header, isWholeHex block with
  | Some blockHeaderHex, Some blockHex =>
      match stripAuxPowFromBlockHex blockHeaderHex blockHex with
      | Some stripped => mret (jstring stripped)
      | None => rthrow auxpow_parse_error
      end
  | _, _ => count_rpc_error;; rthrow plain_rpc_error
  end.

(** The ids of a verbose block. *)
Definition tx_array (verboseBlock : json) : option (list json) :=
  if truthy verboseBlock
  then match get_opt verboseBlock (js "tx") with Arr l => Some l | _ => None end
  else None.

Fixpoint all_texts (l : list json) : option (list jstr) :=
  match l with
  | [] => Some []
  | v :: rest =>
      if truthy v then s ← string_of v; r ← all_texts rest; Some (s :: r) else None
  end.

Definition reassemble (blockhash : json) : R json :=
  header ← getBlockHeader blockhash true;
  match string_of header with
  | None => rthrow plain_rpc_error
  | Some h =>
      verboseBlock ← getBlockVerbose blockhash;
      match tx_array verboseBlock with
      | None => rthrow plain_rpc_error
      | Some ids =>
          txHexes ← getRawTransactions ids;
          match all_texts txHexes, encodeVarintHex (N.of_nat (length txHexes)) with
          | Some texts, Some count => mret (jstring (take 160 h ++ count ++ concat texts))
          | _, _ => rthrow plain_rpc_error
          end
      end
  end.

Definition getBlockReassembled (blockhash : json) : R json :=
  rcatch (reassemble blockhash)
    (fun err => rthrow (carryErrorIdentity plain_rpc_error (Some err))).

(** ** probeTxIndex

    [None] is inconclusive. *)
Definition probeTxIndex : R (option bool) :=
  rcatch
    (info ← getBlockchainInfo;
     let best := if truthy info then get_opt info (js "bestblockhash") else undefined in
     if negb (truthy info) || negb (truthy best) then mret None
     else if is_int (get_opt info (js "blocks")) 0 then mret None
     else
       block ← getBlockVerbose best;
       match tx_array block with
       | Some (coinbase :: _) =>
           txHex ← getRawTransaction coinbase; mret (Some (truthy txHex))
       | _ => mret None
       end)
    (fun _ => mret None).

(** ** fetchBlockHex *)

Definition AUXPOW_REASSEMBLE_AFTER : Z := 5.

(** Which of the three queries a height is fetched with. *)
Inductive fetch_path := PlainBlock | WithoutAuxPow | Reassembled.

Definition fetch_path_of (auxPow : bool) (auxPowParseErrorCount : Z) : fetch_path :=
  if negb auxPow then PlainBlock
  else if AUXPOW_REASSEMBLE_AFTER <=? auxPowParseErrorCount then Reassembled
  else WithoutAuxPow.

Definition fetchBlockHex (auxPow : bool) (auxPowParseErrorCount : Z) (blockHash : json)
  : R json :=
  match fetch_path_of auxPow auxPowParseErrorCount with
  | PlainBlock => getBlock blockHash true
  | Reassembled => getBlockReassembled blockHash
  | WithoutAuxPow => getBlockWithoutAuxPow blockHash
  end.
End Queries.

(** ** Facts *)

Lemma encodeVarintHex_compact n :
  n < 2 ^ 32 -> 0 <= n -> encodeVarintHex (Z.to_N n) = Some (hex_of (compact_size n)).
Proof.
  intros H1 H2. unfold encodeVarintHex, compact_size. rewrite Z2N.id by done.
  repeat case_match; b2p; done || lia.
Qed.

Lemma all_texts_hex txs :
  Forall (fun t : bytes => t <> []) txs -> all_texts (map (fun t => jstring (hex_of t)) txs)
  = Some (map hex_of txs).
Proof.
  induction 1 as [|t txs Ht _ IH]; [done|]. cbn [map all_texts].
  destruct t as [|x t]; [done|]. cbn [truthy jstring hex_of flat_map app is_empty negb string_of].
  by rewrite IH.
Qed.

Lemma concat_hex txs : concat (map hex_of txs) = hex_of (concat txs).
Proof. induction txs as [|t txs IH]; [done|]. simpl. by rewrite IH, hex_of_app. Qed.

Lemma isWholeHex_hex b : Forall is_byte b -> b <> [] -> isWholeHex (jstring (hex_of b)) = Some (hex_of b).
Proof.
  intros Hb Hne. unfold isWholeHex. cbn [jstring string_of].
  assert (is_empty (hex_of b) = false) as -> by by destruct b.
  rewrite length_hex_of, Nat2Z.inj_mul, Z.mul_comm, Z.mod_mul by done. cbn.
  assert (forallb is_hex_char (hex_of b) = true) as ->; [|done].
  apply forallb_forall. intros c Hc. pose proof (hex_of_hex b Hb) as Hh.
  rewrite Forall_forall in Hh. by apply Hh, list_elem_of_In.
Qed.

(** ** Stripping and reassembling agree *)

Section Agree.
Context `{Transport} `{BlockLib}.

(** The node answers a request, whenever and wherever it is asked. *)
Definition serves (data : request) (v : json) : Prop :=
  forall n i, exists status body,
    axios_post n i data = Answered status body /\ rpcResult body = inr v.

Definition serves_tx (txid v : json) : Prop :=
  forall n i, exists status body,
    axios_post n i (ReqRawTransaction txid) = Answered status body
    /\ rawTransactionResponse status body = inr v.

Lemma serves_call data v c : serves data v -> exists c', rpcCallWithTimeoutRetry data c = (inr v, c').
Proof.
  intros Hs. unfold rpcCallWithTimeoutRetry, RPC_TRIES. cbn [rpc_ladder].
  unfold mbind, R_bind, rcatch, rpcPost, lift_result.
  destruct (Hs (posts c) (activeEndpointIndex c)) as (st & body & -> & Hr).
  cbn [snd]. rewrite Hr. by eexists.
Qed.

Lemma serves_raw txid v c : serves_tx txid v -> exists c', getRawTransaction txid c = (inr v, c').
Proof.
  intros Hs. unfold getRawTransaction, RAW_TX_TRIES. cbn [raw_tx_ladder].
  unfold mbind, R_bind, rcatch, rpcPost, lift_result.
  destruct (Hs (posts c) (activeEndpointIndex c)) as (st & body & -> & Hr).
  cbn [fst snd]. rewrite Hr. by eexists.
Qed.

Lemma serves_raws ids vs c :
  Forall2 serves_tx ids vs -> exists c', getRawTransactions ids c = (inr vs, c').
Proof.
  intros Hs. revert c. induction Hs as [|txid v ids vs Hv _ IH]; intros c; [by eexists|].
  cbn [getRawTransactions]. unfold mbind, R_bind. destruct (serves_raw txid v c Hv) as (c1 & ->).
  destruct (IH c1) as (c2 & ->). by eexists.
Qed.

(** A merge-mined block on the node: its header, AuxPoW section and transactions, as the
    node's four calls answer them. *)
Record served_block (hash : json) (h : bytes) (a : aux_pow) (txs : list bytes) (ids : list json)
    : Prop := ServedBlock {
  sv_header : aux_header h;
  sv_aux : ok_aux a;
  sv_aux_bytes : Forall is_byte (ser_aux a);
  sv_tx_bytes : Forall is_byte (concat txs);
  sv_txs : Forall (fun t => t <> []) txs;
  sv_count : Z.of_nat (length txs) < 2 ^ 32;
  sv_getblockheader : exists headerHex,
    serves (ReqBlockHeader hash false) (jstring headerHex)
    /\ (headerHex = hex_of h \/ headerHex = hex_of (h ++ ser_aux a));
  sv_getblock : serves (ReqBlock hash false) (jstring (hex_of
    (h ++ ser_aux a ++ compact_size (Z.of_nat (length txs)) ++ concat txs)));
  sv_getblock_verbose : exists fields,
    serves (ReqBlock hash true) (Obj fields) /\ assoc (js "tx") fields = Arr ids;
  sv_getrawtransaction : Forall2 serves_tx ids (map (fun t => jstring (hex_of t)) txs)
}.

Definition pure_block (h : bytes) (txs : list bytes) : bytes :=
  h ++ compact_size (Z.of_nat (length txs)) ++ concat txs.

Lemma compact_size_bytes v : 0 <= v < 2 ^ 64 -> Forall is_byte (compact_size v).
Proof.
  intros Hv. unfold compact_size. repeat case_match; b2p; constructor; unfold is_byte; try lia;
    solve [by constructor|apply le_bytes_are_bytes].
Qed.

Lemma reassembled_block hash h a txs ids c :
  served_block hash h a txs ids ->
  exists c', getBlockReassembled hash c = (inr (jstring (hex_of (pure_block h txs))), c').
Proof.
  intros [Hh Ha Hab Htb Hne Hc (hx & Hhdr & Hhx) _ (fields & Hv & Htx) Hraw].
  unfold getBlockReassembled, rcatch, reassemble, mbind, R_bind.
  unfold getBlockHeader. cbn [negb]. destruct (serves_call _ _ c Hhdr) as (c1 & ->).
  cbn [jstring string_of]. unfold getBlockVerbose. destruct (serves_call _ _ c1 Hv) as (c2 & ->).
  unfold tx_array, get_opt. cbn [truthy get default from_option]. unfold id. rewrite Htx.
  destruct (serves_raws _ _ c2 Hraw) as (c3 & ->).
  rewrite all_texts_hex by done. rewrite length_map.
  replace (N.of_nat (length txs)) with (Z.to_N (Z.of_nat (length txs))) by lia.
  rewrite encodeVarintHex_compact by lia. exists c3. unfold mret, R_ret. do 3 f_equal.
  replace (take 160 hx) with (hex_of h).
  { by rewrite concat_hex, <- !hex_of_app. }
  change 160%nat with (2 * 80)%nat. pose proof (ah_size _ Hh) as Hs.
  destruct Hhx as [->| ->]; rewrite take_hex_of, <- Hs.
  - by rewrite firstn_all.
  - by rewrite take_app_length.
Qed.

Lemma stripped_block hash h a txs ids c :
  served_block hash h a txs ids -> whole_block (pure_block h txs) ->
  exists c', getBlockWithoutAuxPow hash c = (inr (jstring (hex_of (pure_block h txs))), c').
Proof.
  intros [Hh Ha Hab Htb Hne Hc (hx & Hhdr & Hhx) Hblk _ _] Hw.
  unfold getBlockWithoutAuxPow, mbind, R_bind, getBlockHeader, getBlock. cbn [negb].
  destruct (serves_call _ _ c Hhdr) as (c1 & ->).
  destruct (serves_call _ _ c1 Hblk) as (c2 & ->).
  assert (Hcb : Forall is_byte (compact_size (Z.of_nat (length txs))))
    by (apply compact_size_bytes; lia).
  assert (Hhb : Forall is_byte (h ++ ser_aux a)) by (apply Forall_app; split; [apply Hh|done]).
  assert (Hhn : forall x, h ++ x <> []) by (intros x; pose proof (ah_size _ Hh); by destruct h).
  assert (Ehx : isWholeHex (jstring hx) = Some hx).
  { destruct Hhx as [->| ->]; apply isWholeHex_hex; [apply Hh| |done|apply Hhn].
    rewrite <- (app_nil_r h). apply Hhn. }
  rewrite Ehx. rewrite isWholeHex_hex.
  2: { rewrite app_assoc. apply Forall_app. split; [done|]. by apply Forall_app. }
  2: apply Hhn.
  rewrite strip_aux; [|done|done|done|by apply Forall_app|].
  - rewrite assertWholeBlock_complete; [by eexists| |exact Hw].
    apply Forall_app. split; [apply Hh|by apply Forall_app].
  - pose proof (ah_size _ Hh). destruct Hhx as [->| ->]; rewrite length_hex_of, ?length_app; lia.
Qed.
End Agree.

(** C32: on a merge-mined block the node serves, the per-transaction reassembly the decoder
    falls back to gives, byte for byte, the block the strip gives, so two decoders that
    fetched it differently decode the same block. *)
Theorem reassembled_is_stripped `{Transport} `{BlockLib} hash h a txs ids c1 c2 :
  served_block hash h a txs ids -> whole_block (pure_block h txs) ->
  (getBlockReassembled hash c1).1 = inr (jstring (hex_of (pure_block h txs)))
  /\ (getBlockWithoutAuxPow hash c2).1 = inr (jstring (hex_of (pure_block h txs))).
Proof.
  intros Hs Hw. destruct (reassembled_block _ _ _ _ _ c1 Hs) as (c1' & ->).
  by destruct (stripped_block _ _ _ _ _ c2 Hs Hw) as (c2' & ->).
Qed.

Definition toy_result (v : json) : posted :=
  Answered (Prim (jint 200)) (Obj [(js "result", v)]).

(** A node that serves the toy block, under whatever hash. *)
#[local] Instance toy_node : Transport := {|
  axios_post _ _ data :=
    match data with
    | ReqBlockHeader _ false => toy_result (jstring (hex_of toy_header))
    | ReqBlock _ false => toy_result (jstring (hex_of
        (toy_header ++ ser_aux toy_aux ++ compact_size 2 ++ concat toy_block_txs)))
    | ReqBlock _ true => toy_result (Obj [(js "tx", Arr [jstring (js "a"); jstring (js "b")])])
    | ReqRawTransaction (Prim (JStr t)) =>
        toy_result (jstring (hex_of (ser_tx (if eqs t (js "a") then toy_coinbase else toy_payment))))
    | _ => toy_result jnull
    end;
  post_time _ := 0
|}.

Definition toy_connector : connector := Connector 1 3 0 0 0 0 0 0.

Lemma toy_served :
  served_block (jstring (js "h")) toy_header toy_aux toy_block_txs
    [jstring (js "a"); jstring (js "b")].
Proof.
  split; [exact toy_header_ok|exact toy_aux_ok|exact toy_aux_bytes|exact toy_txs_bytes|..].
  - by repeat constructor.
  - done.
  - exists (hex_of toy_header). split; [|by left]. intros n i. by do 2 eexists.
  - intros n i. by do 2 eexists.
  - exists [(js "tx", Arr [jstring (js "a"); jstring (js "b")])]. split; [|done].
    intros n i. by do 2 eexists.
  - repeat constructor; intros n i; do 2 eexists; split; by vm_compute.
Qed.

Lemma reassembled_is_stripped_witness :
  (getBlockReassembled (jstring (js "h")) toy_connector).1
    = inr (jstring (hex_of (pure_block toy_header toy_block_txs)))
  /\ (getBlockWithoutAuxPow (jstring (js "h")) toy_connector).1
    = inr (jstring (hex_of (pure_block toy_header toy_block_txs))).
Proof.
  apply (reassembled_is_stripped (jstring (js "h")) toy_header toy_aux toy_block_txs
    [jstring (js "a"); jstring (js "b")]); [exact toy_served|exact toy_block_whole].
Defined.
