(* ===== verification/Config.v ===== *)
(** * Configuration and shared records

    The fields of the decoder object the modelled methods read
    (src/src/XChainDecoder.js, initializeDecoderIdentity) and the values
    parseTransaction hands to the ingest path. *)
From Stdlib Require Import QArith.QArith_base QArith.Qreduction.
From S2P Require Import Prelude JsNum.
#[local] Open Scope Z_scope.

(** [this.*] as set once at construction. *)
Record decoder_config := DecoderConfig {
  consensusNetwork : jstr;
  coinTick : jstr;
  feeDestination : option jstr;
  expirationFeeDefaultDays : Z;
  startBlockIndex : Z;
  supportsSegwit : option bool   (* [this.network.supportsSegwit]; [None] is undefined *)
}.

Definition UNSET_FEE_DESTINATION : jstr := js "XXXXXXXXXXXXXXXXXXXXXXXXXXXXXXXXXX".

(** [decoder.feeDestination]: an empty or placeholder value disables capture. *)
Definition configured_fee_destination (configured : option jstr) : option jstr :=
  match configured with
  | Some a => if is_empty a || eqs a UNSET_FEE_DESTINATION then None else Some a
  | None => None
  end.

(** The part of the network key after its last '-'. *)
Definition network_suffix (network : jstr) : jstr := rev (before 45 (rev network)).

(** An output of a parse result. *)
Record output := Output {
  vout : Z;
  destinationAddress : option jstr;
  amount : Z
}.

Record parse_result := ParseResult {
  source : option jstr;
  sourcePubkey : option jstr;
  destination : option jstr;
  data : bytes;
  rawData : option bytes;
  compiledDataLength : Z;
  payloadCeiling : option Z;
  dispenseOutputs : list output;
  paymentOutputs : list output
}.

(** [Number(blockTime) + days * 86400] *)
Definition num_add_Z (n : num) (k : Z) : num :=
  match n with
  | Fin q => round_binary64 (Qred (Qplus q (Qz k)))
  | _ => n
  end.

Definition getDefaultExpiration (cfg : decoder_config) (blockTime : jsval) : num :=
  num_add_Z (Number blockTime) (expirationFeeDefaultDays cfg * 86400).

(** Header times are 32-bit and the default window is a few days, so the sum is
    an exact integer. *)
Lemma num_add_Z_small z k :
  0 <= z + k <= MAX_SAFE_INTEGER -> safe_integer (num_add_Z (numZ z) k) = Some (z + k).
Proof.
  intros H. unfold num_add_Z, numZ.
  replace (Qred (Qz z + Qz k)) with (Qz (z + k)).
  - apply round_binary64_small. lia.
  - unfold Qplus, Qz. simpl Qnum. simpl Qden. rewrite !Z.mul_1_r. symmetry.
    apply Qred_integral. simpl. lia.
Qed.

(** ** The sql_mode of a session

    assertStrictSqlMode of src/src/db/database_setup.js. *)

(** The mode is ASCII: the server spells its own flags. *)
Definition mode_flags (mode : jstr) : list jstr :=
  map (fun f => map uppercase (trim f)) (split_on 44 mode).

Definition strict_mode (mode : jstr) : bool :=
  let has f := existsb (eqs (js f)) (mode_flags mode) in
  (has "STRICT_TRANS_TABLES"%string || has "STRICT_ALL_TABLES"%string)
  && negb (has "NO_BACKSLASH_ESCAPES"%string).
