(* ===== verification/DispenserCommand.v ===== *)
(** * DISPENSER commands

    What the decoder reads off the wire of one DISPENSER command: the field
    offsets (src/src/protocol/oracle_fee_output.js), creates and edits
    (src/src/XChainDecoder/dispenser_registration.js), the chain and arity checks
    (src/src/XChainDecoder/dispenser_and_oracle_fees.js) and the grace floors
    (src/src/protocol/dispenser_cancel_grace.js). *)
From Stdlib Require Import QArith.QArith_base QArith.Qreduction.
From S2P Require Import Prelude JsNum Activation Expiration Batch Collapse Config.
#[local] Open Scope Z_scope.

(** ** Field offsets *)

Definition V0_GIVE_COIN_INDEX : nat := 2.
Definition V0_GET_COIN_INDEX : nat := 7.
Definition V0_GET_ADDRESS_INDEX : nat := 10.
Definition ORACLE_ADDRESS_INDEX : nat := 13.
Definition V0_EXPIRATION_INDEX : nat := 14.
Definition V0_REQUIRED_FIELD_COUNT : nat := 10.
Definition V2_EXPIRATION_INDEX : nat := 4.

Definition starts_with_caret (token : jstr) : bool :=
  match token with c :: _ => c =? caret | [] => false end.

Definition oracleAddressFromCreate (fields : list jstr) : option jstr :=
  match field fields ORACLE_ADDRESS_INDEX with
  | None => None
  | Some token =>
      if is_empty token then None
      else if starts_with_caret token then None
      else Some token
  end.

Definition isCompactedOracleAddress (fields : list jstr) : bool :=
  match field fields ORACLE_ADDRESS_INDEX with
  | None => false
  | Some token => negb (is_empty token) && starts_with_caret token
  end.

(** ** Command recognition *)

Definition dispenserCommandPrefixFor (cfg : decoder_config) (timestamp : jsval) : jstr :=
  if isBatchSubCommandCaptureActive (consensusNetwork cfg) timestamp
  then js "DISPENSER|" else js "DISPENSER".

Definition dispenserOpensForThisChain (cfg : decoder_config) (giveCoin getCoin : option jstr)
  : bool :=
  bool_decide (giveCoin = Some (coinTick cfg)) && bool_decide (getCoin = Some (coinTick cfg)).

Definition hasRequiredDispenserCreateFields (fields : list jstr) : bool :=
  (V0_REQUIRED_FIELD_COUNT <=? length fields)%nat.

Definition INDEX_ADDRESS_MAX_CHARS : nat := 120.

Definition is_surrogate (c : Z) : bool := (55296 <=? c) && (c <=? 57343).

Definition fitsIndexAddressColumn (value : jstr) : bool :=
  (length value <=? INDEX_ADDRESS_MAX_CHARS)%nat && negb (existsb is_surrogate value).

(** [parseInt(fields[1], 10)]; [parseInt(undefined)] is [NaN]. *)
Definition format_of (fields : list jstr) : num :=
  match field fields 1 with Some v => parse_int_str v | None => NaN end.

(** ** Creates

    The collected candidates and the [parseErrors] counter are threaded. *)

Abbreviation create_state := (list candidate * Z)%type.

Definition pushOperatingAddressCreate (getAddress : option jstr) (decodedDataSplit : list jstr)
    (expiration : Z) (pr_source : option jstr) (st : create_state) : create_state :=
  let '(candidates, parseErrors) := st in
  let skip := (candidates, parseErrors + 1) in
  let push operatingAddress :=
    (candidates ++ [{| cd_address := operatingAddress;
                       cd_sourceAddress := pr_source;
                       cd_oracleAddress := oracleAddressFromCreate decodedDataSplit;
                       cd_expiration := expiration |}], parseErrors) in
  match truthy getAddress with
  | Some a =>
      if starts_with_caret a then skip
      else if negb (fitsIndexAddressColumn a) then skip
      else push (Some a)
  | None => push pr_source
  end.

(** The expiration a v0 create asks for: the default window when the field is
    absent or empty. *)
Definition create_expiration (cfg : decoder_config) (timestamp : jsval) (token : option jstr)
  : option num :=
  match token with
  | None => Some (getDefaultExpiration cfg timestamp)
  | Some t =>
      if is_empty t then Some (getDefaultExpiration cfg timestamp)
      else numZ <$> normalizeDispenserExpiration t (consensusNetwork cfg) timestamp
                      (Number (JStr t))
  end.

Definition pushV0DispenserCreate (cfg : decoder_config) (timestamp : jsval)
    (decodedDataSplit : list jstr) (pr_source : option jstr) (st : create_state)
  : create_state :=
  let giveCoin := field decodedDataSplit V0_GIVE_COIN_INDEX in
  let getCoin := field decodedDataSplit V0_GET_COIN_INDEX in
  let getAddress := field decodedDataSplit V0_GET_ADDRESS_INDEX in
  let expirationToken := field decodedDataSplit V0_EXPIRATION_INDEX in
  let expiration := create_expiration cfg timestamp expirationToken in
  if negb (hasValidExpirationToken expirationToken expiration (consensusNetwork cfg) timestamp)
  then (st.1, st.2 + 1)
  else if dispenserOpensForThisChain cfg giveCoin getCoin then
    match expiration ≫= safe_integer with
    | Some e => pushOperatingAddressCreate getAddress decodedDataSplit e pr_source st
    | None => st
    end
  else st.

Definition collect_step (cfg : decoder_config) (timestamp : jsval)
    (dispenserCommandPrefix : jstr) (pr_source : option jstr) (st : create_state)
    (dispenserCommand : jstr) : create_state :=
  if negb (startsWith dispenserCommandPrefix dispenserCommand) then st
  else
    let decodedDataSplit := split_on pipe dispenserCommand in
    if num_is (format_of decodedDataSplit) 0
       && hasRequiredDispenserCreateFields decodedDataSplit
    then pushV0DispenserCreate cfg timestamp decodedDataSplit pr_source st
    else st.

Definition collectDispenserCreates (cfg : decoder_config) (timestamp : jsval)
    (commands : list jstr) (dispenserCommandPrefix : jstr) (pr_source : option jstr)
    (parseErrors : Z) : create_state :=
  foldl (collect_step cfg timestamp dispenserCommandPrefix pr_source) ([], parseErrors) commands.

(** ** Edits *)

(** [newExpiration > block.timestamp] *)
Definition after_block_time (newExpiration : Z) (timestamp : jsval) : bool :=
  match Number timestamp with
  | Fin t => Qgt (Qz newExpiration) t
  | Inf true => true
  | _ => false
  end.

(** [{ editSource, newExpiration }], or [None] when the command extends nothing. *)
Definition dispenserEditExtension (cfg : decoder_config) (timestamp : jsval)
    (dispenserCommand dispenserCommandPrefix : jstr) (pr_source : option jstr)
  : option (jstr * Z) :=
  if negb (startsWith dispenserCommandPrefix dispenserCommand) then None
  else
    let decodedDataSplit := split_on pipe dispenserCommand in
    let dispenserFormat := format_of decodedDataSplit in
    if num_is dispenserFormat 1 then None
    else if num_is dispenserFormat 2 then
      match truthy pr_source, truthy (field decodedDataSplit V2_EXPIRATION_INDEX) with
      | Some editSource, Some editExpirationToken =>
          match normalizeDispenserExpiration editExpirationToken (consensusNetwork cfg) timestamp
                  (Number (JStr editExpirationToken)) with
          | None => None
          | Some newExpiration =>
              if hasValidExpirationToken (Some editExpirationToken) (Some (numZ newExpiration))
                   (consensusNetwork cfg) timestamp
                 && after_block_time newExpiration timestamp
              then Some (editSource, newExpiration) else None
          end
      | _, _ => None
      end
    else None.

(** ** Grace floors *)

Definition DISPENSER_CANCEL_GRACE_SECONDS : Z := 3600.

(** [Math.min(block, parent)] minus the grace, as a number; [None] is [null]. *)
Definition cancelGraceFloor (network : jstr) (blockTime parentProtocolTime : jsval)
  : option num :=
  if negb (isDispenserCancelGraceActive network blockTime) then None
  else
    let block := Number blockTime in
    let anchor :=
      if isDispenserCancelGraceParentFloorActive network (JNum block) then
        match parentProtocolTime with
        | JNull | JUndefined => block
        | _ =>
            match block, Number parentProtocolTime with
            | Fin b, Fin p => Fin (if Qle_bool b p then b else p)
            | _, _ => block
            end
        end
      else block in
    Some (num_add_Z anchor (- DISPENSER_CANCEL_GRACE_SECONDS)).

Definition purgeGraceFloor (network : jstr) (blockTime : jsval) : option num :=
  if negb (isDispenserPurgeGraceActive network blockTime) then None
  else Some (num_add_Z (Number blockTime) (- DISPENSER_CANCEL_GRACE_SECONDS)).

(** ** Facts *)

Lemma hasValidExpirationToken_safe tok n net time :
  hasValidExpirationToken tok (Some n) net time = true ->
  exists e, safe_integer n = Some e /\ 0 <= e <= MAX_SAFE_INTEGER.
Proof.
  unfold hasValidExpirationToken. destruct (safe_integer n) as [e|] eqn:E; [|done].
  destruct (Z.ltb_spec e 0); [done|]. intros _. exists e. split; [done|].
  pose proof (safe_integer_bound _ _ E). lia.
Qed.

(** What a candidate may carry, whatever the payload said. *)
Definition operating_address_ok (pr_source : option jstr) (a : option jstr) : Prop :=
  a = pr_source
  \/ exists s, a = Some s /\ s <> [] /\ starts_with_caret s = false
               /\ fitsIndexAddressColumn s = true.

Definition candidate_ok (pr_source : option jstr) (c : candidate) : Prop :=
  0 <= cd_expiration c <= MAX_SAFE_INTEGER
  /\ operating_address_ok pr_source (cd_address c)
  /\ cd_sourceAddress c = pr_source
  /\ (forall o, cd_oracleAddress c = Some o -> o <> [] /\ starts_with_caret o = false).

Lemma oracleAddressFromCreate_ok fields o :
  oracleAddressFromCreate fields = Some o -> o <> [] /\ starts_with_caret o = false.
Proof.
  unfold oracleAddressFromCreate. destruct (field _ _) as [t|]; [|done].
  destruct t as [|x t]; [done|]. simpl. case_match eqn:E; [done|]. by intros [= <-].
Qed.

Lemma pushOperatingAddressCreate_ok ga fields e src st :
  0 <= e <= MAX_SAFE_INTEGER ->
  Forall (candidate_ok src) st.1 ->
  Forall (candidate_ok src) (pushOperatingAddressCreate ga fields e src st).1.
Proof.
  intros He Hst. destruct st as [cs pe]. unfold pushOperatingAddressCreate. simpl in *.
  assert (Hpush : forall a, operating_address_ok src a ->
    Forall (candidate_ok src) (cs ++ [Candidate a src (oracleAddressFromCreate fields) e])).
  { intros a Ha. apply Forall_app. split; [done|]. constructor; [|constructor].
    repeat split; simpl; try done; try lia; by eapply oracleAddressFromCreate_ok. }
  destruct (truthy ga) as [a|] eqn:Ha.
  - destruct (starts_with_caret a) eqn:E1; [done|].
    destruct (fitsIndexAddressColumn a) eqn:E2; simpl; [|done].
    apply Hpush. right. exists a. repeat split; try done.
    unfold truthy in Ha. destruct ga as [[|x g]|]; by simplify_eq/=.
  - apply Hpush. by left.
Qed.

Lemma collect_step_ok cfg ts prefix src st cmd :
  Forall (candidate_ok src) st.1 ->
  Forall (candidate_ok src) (collect_step cfg ts prefix src st cmd).1.
Proof.
  intros Hst. unfold collect_step. case_match; [done|]. case_match; [|done].
  unfold pushV0DispenserCreate.
  destruct (hasValidExpirationToken _ _ _ _) eqn:Hv; simpl; [|done].
  case_match; [|done].
  destruct (create_expiration _ _ _) as [n|]; [|done]. simpl.
  apply hasValidExpirationToken_safe in Hv as (e & -> & He).
  by apply pushOperatingAddressCreate_ok.
Qed.

(** *** The wire form of a create *)

Record v0_create := V0Create {
  cr_giveTick : jstr; cr_giveAmount : jstr; cr_giveOwnership : jstr; cr_giveEscrow : jstr;
  cr_getTick : jstr; cr_getAmount : jstr; cr_getAddress : jstr;
  cr_fiatCode : jstr; cr_fiatAmount : jstr; cr_oracleAddress : jstr;
  cr_expiration : jstr; cr_tail : list jstr
}.

Definition create_required (coin : jstr) (c : v0_create) : list jstr :=
  [js "DISPENSER"; js "0"; coin; cr_giveTick c; cr_giveAmount c; cr_giveOwnership c;
   cr_giveEscrow c; coin; cr_getTick c; cr_getAmount c].

Definition create_fields (coin : jstr) (c : v0_create) : list jstr :=
  create_required coin c
  ++ [cr_getAddress c; cr_fiatCode c; cr_fiatAmount c; cr_oracleAddress c; cr_expiration c]
  ++ cr_tail c.

Definition oracle_of (s : jstr) : option jstr :=
  if is_empty s then None else if starts_with_caret s then None else Some s.

Lemma join_starts w w' ws p :
  startsWith p (w ++ [pipe]) = true -> startsWith p (join_with pipe (w :: w' :: ws)) = true.
Proof.
  change (join_with pipe (w :: w' :: ws)) with (w ++ pipe :: join_with pipe (w' :: ws)).
  intros [r Hr]%startsWith_spec. apply startsWith_spec.
  exists (r ++ join_with pipe (w' :: ws)). rewrite app_assoc, <- Hr.
  by rewrite <- app_assoc.
Qed.

Lemma prefix_of_create cfg ts ws :
  startsWith (dispenserCommandPrefixFor cfg ts)
    (join_with pipe (js "DISPENSER" :: js "0" :: ws)) = true.
Proof.
  apply join_starts. unfold dispenserCommandPrefixFor. by case_match.
Qed.

(** One command whose fields are [js "DISPENSER" :: js "0" :: rest]. *)
Lemma collect_one cfg ts src pe rest :
  Forall (fun w => pipe ∉ w) rest ->
  (8 <= length rest)%nat ->
  collectDispenserCreates cfg ts [join_with pipe (js "DISPENSER" :: js "0" :: rest)]
    (dispenserCommandPrefixFor cfg ts) src pe
  = pushV0DispenserCreate cfg ts (js "DISPENSER" :: js "0" :: rest) src ([], pe).
Proof.
  intros Hp Hl. unfold collectDispenserCreates. cbn [foldl]. unfold collect_step.
  rewrite prefix_of_create. cbn [negb].
  rewrite split_join; [|done|].
  2:{ repeat constructor; try done; by apply (bool_decide_unpack _); vm_compute. }
  change (num_is (format_of (js "DISPENSER" :: js "0" :: rest)) 0) with true.
  unfold hasRequiredDispenserCreateFields.
  replace (V0_REQUIRED_FIELD_COUNT <=? _)%nat with true; [done|].
  symmetry. apply Nat.leb_le. simpl. unfold V0_REQUIRED_FIELD_COUNT. lia.
Qed.

Lemma dispenserOpens_self cfg :
  dispenserOpensForThisChain cfg (Some (coinTick cfg)) (Some (coinTick cfg)) = true.
Proof. unfold dispenserOpensForThisChain. by rewrite !bool_decide_true. Qed.

(** *** Grace floors on integer times *)

Lemma num_add_Z_int z k :
  0 <= z + k <= MAX_SAFE_INTEGER -> integer_of (num_add_Z (numZ z) k) = Some (z + k).
Proof.
  intros H. pose proof (num_add_Z_small z k H) as Hs. unfold safe_integer in Hs.
  destruct (integer_of _); [|done]. case_match; by simplify_eq.
Qed.

(** ** Properties *)

(** Whatever bytes the commands of a transaction hold, every registration
    candidate collected from them has a non-negative exactly-representable
    expiration, operates either on the transaction source or on a non-empty address
    that fits the address column and is not a compacted [^id] reference, and never
    records a compacted oracle. *)
Theorem collected_creates_storable cfg ts commands src pe :
  Forall (candidate_ok src)
    (collectDispenserCreates cfg ts commands (dispenserCommandPrefixFor cfg ts) src pe).1.
Proof.
  unfold collectDispenserCreates.
  assert (H : Forall (candidate_ok src) (([], pe) : create_state).1) by constructor.
  revert H. generalize (([], pe) : create_state).
  induction commands as [|cmd cmds IH]; intros st H; simpl; [done|].
  apply IH. by apply collect_step_ok.
Qed.

(** C37: a well-formed create round-trips: the command whose fields are laid out in the
    format's order, naming this chain's coin on both sides, registers one dispenser
    with exactly the operating address, oracle and expiration its fields spell, and
    no parse error. *)
Theorem create_wire_roundtrip cfg ts src pe c e :
  Forall (fun w => pipe ∉ w) (create_fields (coinTick cfg) c) ->
  starts_with_caret (cr_getAddress c) = false ->
  fitsIndexAddressColumn (cr_getAddress c) = true ->
  cr_expiration c <> [] ->
  acceptedExpiration (cr_expiration c) (consensusNetwork cfg) ts = Some e ->
  collectDispenserCreates cfg ts [join_with pipe (create_fields (coinTick cfg) c)]
    (dispenserCommandPrefixFor cfg ts) src pe
  = ([Candidate (match truthy (Some (cr_getAddress c)) with
                 | Some a => Some a | None => src end)
        src (oracle_of (cr_oracleAddress c)) e], pe).
Proof.
  intros Hp Hc Hf Hne He. unfold create_fields, create_required in *. cbn [app] in *.
  apply Forall_cons in Hp as [_ Hp]. apply Forall_cons in Hp as [_ Hp].
  rewrite collect_one by (done || simpl; lia).
  unfold pushV0DispenserCreate, field, V0_GIVE_COIN_INDEX, V0_GET_COIN_INDEX,
    V0_GET_ADDRESS_INDEX, V0_EXPIRATION_INDEX. cbn [lookup list_lookup].
  rewrite dispenserOpens_self. unfold create_expiration.
  assert (is_empty (cr_expiration c) = false) as -> by by destruct (cr_expiration c).
  unfold acceptedExpiration in He.
  destruct (normalizeDispenserExpiration _ _ _ _) as [z|]; [|done]. cbn [fmap option_fmap option_map].
  destruct (hasValidExpirationToken _ _ _ _) eqn:Hv; [|done].
  injection He as ->. cbn [negb mbind option_bind]. apply hasValidExpirationToken_safe in Hv as (e' & He' & Hb).
  assert (safe_integer (numZ e) = Some e) as ->.
  { rewrite safe_integer_numZ; [done|]. unfold safe_integer in He'.
    rewrite integer_of_Qz in He'. case_match; simplify_eq. lia. }
  unfold pushOperatingAddressCreate. cbn [truthy].
  destruct (is_empty (cr_getAddress c)) eqn:Hea; [done|].
  rewrite Hc, Hf. done.
Qed.

Lemma create_wire_roundtrip_witness :
  let cfg := DecoderConfig (js "mainnet") (js "BTC") None 30 0 None in
  let c := V0Create (js "TICK") (js "500") [] (js "2000") [] (js "0.01") (js "bc1qdelegate")
             [] [] (js "bc1qoracle") (js "1900000000") [] in
  collectDispenserCreates cfg (jint 1800000000)
    [js "DISPENSER|0|BTC|TICK|500||2000|BTC||0.01|bc1qdelegate|||bc1qoracle|1900000000"]
    (js "DISPENSER|") (Some (js "bc1qseller")) 0
  = ([Candidate (Some (js "bc1qdelegate")) (Some (js "bc1qseller")) (Some (js "bc1qoracle"))
        1900000000], 0).
Proof.
  intros cfg c.
  apply (create_wire_roundtrip cfg (jint 1800000000) (Some (js "bc1qseller")) 0 c 1900000000);
    first by (apply (bool_decide_unpack _); vm_compute).
  - by vm_compute.
  - by vm_compute.
  - done.
  - by vm_compute.
Defined.

(** The wallet's short form, ten fields and no optional tail, still registers: on the
    transaction source, with the default window after the block time, naming no
    oracle. *)
Lemma create_short_form cfg ts t src pe c :
  ts = jint t ->
  0 <= t + expirationFeeDefaultDays cfg * 86400 <= MAX_SAFE_INTEGER ->
  Forall (fun w => pipe ∉ w) (create_required (coinTick cfg) c) ->
  collectDispenserCreates cfg ts [join_with pipe (create_required (coinTick cfg) c)]
    (dispenserCommandPrefixFor cfg ts) src pe
  = ([Candidate src src None (t + expirationFeeDefaultDays cfg * 86400)], pe).
Proof.
  intros -> Hb Hp. unfold create_required in *.
  apply Forall_cons in Hp as [_ Hp]. apply Forall_cons in Hp as [_ Hp].
  rewrite collect_one by (done || simpl; lia).
  unfold pushV0DispenserCreate, field. cbn [lookup list_lookup V0_GIVE_COIN_INDEX
    V0_GET_COIN_INDEX V0_GET_ADDRESS_INDEX V0_EXPIRATION_INDEX].
  rewrite dispenserOpens_self. cbn [create_expiration]. unfold getDefaultExpiration.
  pose proof (num_add_Z_small t (expirationFeeDefaultDays cfg * 86400) Hb) as Hs.
  change (Number (jint t)) with (numZ t).
  unfold hasValidExpirationToken. rewrite Hs.
  destruct (Z.ltb_spec (t + expirationFeeDefaultDays cfg * 86400) 0); [lia|].
  cbn [negb]. cbn [mbind option_bind]. rewrite Hs. done.
Qed.

Lemma create_short_form_witness :
  let cfg := DecoderConfig (js "regtest") (js "BTC") None 30 0 None in
  collectDispenserCreates cfg (jint 1800000000)
    [js "DISPENSER|0|BTC|TICK|500||2000|BTC||0.01"]
    (js "DISPENSER|") (Some (js "bc1qseller")) 0
  = ([Candidate (Some (js "bc1qseller")) (Some (js "bc1qseller")) None 1802592000], 0).
Proof.
  intros cfg.
  apply (create_short_form cfg (jint 1800000000) 1800000000 (Some (js "bc1qseller")) 0
    (V0Create (js "TICK") (js "500") [] (js "2000") [] (js "0.01") [] [] [] [] [] [])).
  - done.
  - split; by vm_compute.
  - by (apply (bool_decide_unpack _); vm_compute).
Defined.

(** An edit extends only forward: the extension a command yields names the non-empty
    transaction source and an exact expiration strictly after the block time. *)
Theorem edit_extension_sound cfg ts cmd src editSource newExpiration :
  dispenserEditExtension cfg ts cmd (dispenserCommandPrefixFor cfg ts) src
    = Some (editSource, newExpiration) ->
  src = Some editSource /\ editSource <> []
  /\ 0 <= newExpiration <= MAX_SAFE_INTEGER
  /\ after_block_time newExpiration ts = true
  /\ acceptedExpiration (default [] (field (split_on pipe cmd) V2_EXPIRATION_INDEX))
       (consensusNetwork cfg) ts = Some newExpiration.
Proof.
  unfold dispenserEditExtension. case_match; [done|]. case_match; [done|].
  case_match; [|done]. destruct (truthy src) as [s|] eqn:Hs; [|done].
  destruct (truthy (field _ _)) as [t|] eqn:Ht; [|done].
  destruct (normalizeDispenserExpiration _ _ _ _) as [e|] eqn:Hn; [|done].
  destruct (hasValidExpirationToken _ _ _ _) eqn:Hv; [|done]. cbn [andb].
  destruct (after_block_time _ _) eqn:Ha; [|done]. intros [= <- <-].
  pose proof (hasValidExpirationToken_safe _ _ _ _ Hv) as (e' & He' & Hb).
  assert (e' = e) as ->.
  { unfold safe_integer in He'. rewrite integer_of_Qz in He'. case_match; by simplify_eq. }
  assert (Htr : forall o s', truthy o = Some s' -> o = Some s' /\ s' <> []).
  { intros [[|x r]|] s'; simpl; try done. by intros [= <-]. }
  apply Htr in Hs as [-> Hs]. apply Htr in Ht as [-> Ht].
  repeat split; try done; try lia. change (default [] (Some t)) with t.
  unfold acceptedExpiration. rewrite Hn. by rewrite Hv.
Qed.

Lemma edit_extension_sound_witness :
  let cfg := DecoderConfig (js "mainnet") (js "BTC") None 30 0 None in
  let cmd := js "DISPENSER|2|77||1900000000" in
  dispenserEditExtension cfg (jint 1800000000) cmd
      (dispenserCommandPrefixFor cfg (jint 1800000000)) (Some (js "bc1qseller"))
    = Some (js "bc1qseller", 1900000000)
  /\ after_block_time 1900000000 (jint 1800000000) = true.
Proof.
  intros cfg cmd. assert (H : dispenserEditExtension cfg (jint 1800000000) cmd
      (dispenserCommandPrefixFor cfg (jint 1800000000)) (Some (js "bc1qseller"))
    = Some (js "bc1qseller", 1900000000)) by by vm_compute.
  split; [exact H|].
  apply (edit_extension_sound cfg (jint 1800000000) cmd (Some (js "bc1qseller"))
    (js "bc1qseller") 1900000000 H).
Defined.
