(* ===== verification/Db.v ===== *)
(** * The database handle

    src/src/db/connection_lifecycle.js, addresses_and_events.js, transactions.js and
    blocks.js: the tables of src/src/sql, the transaction connection and its lock,
    and the statements of the block loop.

    MariaDB itself is outside src/.  What the code relies on is modelled as: a
    statement is atomic; ROLLBACK, and releasing or losing a connection without a
    COMMIT, restores the tables of the BEGIN; an equality on a text column compares
    collation keys ([Collation]).  Each call on a connection may fail: [faults] is
    the sequence of outcomes of the successive calls, and a failed call may still
    have reached the server ([fault_lands]).  An asynchronous function is a
    computation over the [world] that returns, throws, or waits forever on the
    transaction lock. *)
From S2P Require Import Prelude JsNum.
#[local] Open Scope Z_scope.

(** ** Tables *)

Record block_row := BlockRow {
  b_index : Z; b_time : option Z; b_hash_id : option Z; b_previous_id : option Z
}.

Record tx_row := TxRow {
  t_index : Z; t_hash_id : option Z; t_block : Z; t_source_id : option Z;
  t_destination_id : option Z; t_amount : option Z; t_fee : Z;
  t_data : option jstr; t_raw_data : option bytes
}.

Record output_row := OutputRow {
  o_tx_index : Z; o_vout : Z; o_destination_id : option Z; o_amount : jstr
}.

(** PRIMARY KEY (tx_index, address_id); [d_expired] is [None] for an open row. *)
Record dispenser_row := DispenserRow {
  d_tx_index : Z; d_address_id : Z; d_expiration : Z;
  d_oracle_id : option Z; d_source_id : option Z; d_expired : option Z
}.

Record undo_row := UndoRow {
  u_block : Z; u_tx_index : Z; u_address_id : Z;
  u_prior_expiration : Z; u_prior_expired : option Z
}.

Inductive event_row :=
  | ReorgEvent (block_index : Z) (block_hash : jstr)
  | ParseErrorEvent (block_index tx_position : Z) (tx_hash : option jstr) (error : jstr)
      (time : jsval)
  | HaltEvent (reason : jstr)
  | HaltClearedEvent (reason : option jstr).   (* [None]: a payload without a reason *)

Record tables := Tables {
  index_addresses : list (Z * jstr);
  index_transactions : list (Z * jstr);
  blocks : list block_row;
  transactions : list tx_row;
  transaction_outputs : list output_row;
  dispensers : list dispenser_row;
  dispenser_extension_undo : list undo_row;
  pubkeys : list (Z * jstr);
  events : list event_row
}.

(** The rows [src/src/sql] creates: the empty string under id 1. *)
Definition initial_tables : tables :=
  Tables [(1, [])] [(1, [])] [] [] [] [] [] [] [].

Definition with_addresses f t := Tables (f (index_addresses t)) (index_transactions t) (blocks t)
  (transactions t) (transaction_outputs t) (dispensers t) (dispenser_extension_undo t)
  (pubkeys t) (events t).
Definition with_hashes f t := Tables (index_addresses t) (f (index_transactions t)) (blocks t)
  (transactions t) (transaction_outputs t) (dispensers t) (dispenser_extension_undo t)
  (pubkeys t) (events t).
Definition with_blocks f t := Tables (index_addresses t) (index_transactions t) (f (blocks t))
  (transactions t) (transaction_outputs t) (dispensers t) (dispenser_extension_undo t)
  (pubkeys t) (events t).
Definition with_transactions f t := Tables (index_addresses t) (index_transactions t) (blocks t)
  (f (transactions t)) (transaction_outputs t) (dispensers t) (dispenser_extension_undo t)
  (pubkeys t) (events t).
Definition with_outputs f t := Tables (index_addresses t) (index_transactions t) (blocks t)
  (transactions t) (f (transaction_outputs t)) (dispensers t) (dispenser_extension_undo t)
  (pubkeys t) (events t).
Definition with_dispensers f t := Tables (index_addresses t) (index_transactions t) (blocks t)
  (transactions t) (transaction_outputs t) (f (dispensers t)) (dispenser_extension_undo t)
  (pubkeys t) (events t).
Definition with_undo f t := Tables (index_addresses t) (index_transactions t) (blocks t)
  (transactions t) (transaction_outputs t) (dispensers t) (f (dispenser_extension_undo t))
  (pubkeys t) (events t).
Definition with_pubkeys f t := Tables (index_addresses t) (index_transactions t) (blocks t)
  (transactions t) (transaction_outputs t) (dispensers t) (dispenser_extension_undo t)
  (f (pubkeys t)) (events t).
Definition with_events f t := Tables (index_addresses t) (index_transactions t) (blocks t)
  (transactions t) (transaction_outputs t) (dispensers t) (dispenser_extension_undo t)
  (pubkeys t) (f (events t)).

(** [utf8_unicode_ci]: two strings are equal when their keys are. *)
Class Collation := { collate : jstr -> jstr }.

(** ** Errors and the world *)

Record jserror := JsError {
  errno : option Z; dbLookupFailure : bool; rpcLookupFailure : bool; message : jstr
}.

Record fault := Fault { fault_error : jserror; fault_lands : bool }.

(** The monitoring counters of the decoder object ([this.parseErrors], ...). *)
Record decoder_stats := Stats {
  parseErrors : Z;
  rpcErrors : Z;
  quarantinedTxs : Z;
  lastQuarantinedBlock : option Z;
  lastQuarantinedTxHash : option jstr;
  dispenserPurgeFailures : Z
}.

Definition fresh_stats : decoder_stats := Stats 0 0 0 None None 0.

Record world := World {
  live : tables;                  (* what a statement reads and writes *)
  begun : option tables;          (* the tables at BEGIN, while a transaction is open *)
  transactionConnection : bool;   (* [this.transactionConnection != null] *)
  transactionLock : bool;         (* [this._transactionLock] *)
  next_address_id : Z;            (* AUTO_INCREMENT counters: not rolled back *)
  next_hash_id : Z;
  faults : list (option fault);   (* outcomes of the coming calls; none: all succeed *)
  stats : decoder_stats
}.

Definition with_live f w := World (f (live w)) (begun w) (transactionConnection w)
  (transactionLock w) (next_address_id w) (next_hash_id w) (faults w) (stats w).
Definition with_lock b w := World (live w) (begun w) (transactionConnection w) b
  (next_address_id w) (next_hash_id w) (faults w) (stats w).
Definition with_connection b w := World (live w) (begun w) b (transactionLock w)
  (next_address_id w) (next_hash_id w) (faults w) (stats w).
Definition with_faults fs w := World (live w) (begun w) (transactionConnection w)
  (transactionLock w) (next_address_id w) (next_hash_id w) fs (stats w).
Definition with_stats f w := World (live w) (begun w) (transactionConnection w)
  (transactionLock w) (next_address_id w) (next_hash_id w) (faults w) (f (stats w)).

Definition add_parse_errors (n : Z) (s : decoder_stats) : decoder_stats :=
  Stats (parseErrors s + n) (rpcErrors s) (quarantinedTxs s) (lastQuarantinedBlock s)
    (lastQuarantinedTxHash s) (dispenserPurgeFailures s).
Definition add_rpc_error (s : decoder_stats) : decoder_stats :=
  Stats (parseErrors s) (rpcErrors s + 1) (quarantinedTxs s) (lastQuarantinedBlock s)
    (lastQuarantinedTxHash s) (dispenserPurgeFailures s).
Definition add_quarantine (height : Z) (hash : option jstr) (s : decoder_stats) : decoder_stats :=
  Stats (parseErrors s) (rpcErrors s) (quarantinedTxs s + 1) (Some height) hash
    (dispenserPurgeFailures s).
Definition add_purge_failure (s : decoder_stats) : decoder_stats :=
  Stats (parseErrors s) (rpcErrors s) (quarantinedTxs s) (lastQuarantinedBlock s)
    (lastQuarantinedTxHash s) (dispenserPurgeFailures s + 1).

(** ** Asynchronous computations *)

Inductive res (A : Type) := Ret (a : A) | Throw (e : jserror) | Blocked.
Arguments Ret {A} a.
Arguments Throw {A} e.
Arguments Blocked {A}.

Definition M (A : Type) : Type := world -> res A * world.

#[export] Instance M_ret : MRet M := fun A a w => (Ret a, w).
#[export] Instance M_bind : MBind M := fun A B k m w =>
  match m w with
  | (Ret a, w') => k a w'
  | (Throw e, w') => (Throw e, w')
  | (Blocked, w') => (Blocked, w')
  end.

Definition throw {A} (e : jserror) : M A := fun w => (Throw e, w).
Definition state {A} (f : world -> A) : M A := fun w => (Ret (f w), w).
Definition modify (f : world -> world) : M unit := fun w => (Ret tt, f w).

(** [this.parseErrors++] and the like. *)
Definition count (f : decoder_stats -> decoder_stats) : M unit := modify (with_stats f).

Definition try_catch {A} (m : M A) (h : jserror -> M A) : M A := fun w =>
  match m w with
  | (Throw e, w') => h e w'
  | r => r
  end.

Definition finally {A} (m : M A) (f : M unit) : M A := fun w =>
  match m w with
  | (Blocked, w') => (Blocked, w')
  | (r, w') =>
      match f w' with
      | (Ret _, w'') => (r, w'')
      | (Throw e, w'') => (Throw e, w'')
      | (Blocked, w'') => (Blocked, w'')
      end
  end.

(** A call on a connection: it takes the next outcome, and a statement that is
    refused ([inl]) changes nothing.  An outcome the statement cannot have is read as
    success. *)
Definition query_with {A} (admissible : jserror -> bool)
    (stmt : world -> jserror + (A * world)) : M A := fun w =>
  let run w' := match stmt w' with
                | inl e => (Throw e, w')
                | inr (a, w'') => (Ret a, w'')
                end in
  match faults w with
  | [] => run w
  | None :: fs => run (with_faults fs w)
  | Some f :: fs =>
      let w' := with_faults fs w in
      if admissible (fault_error f)
      then (Throw (fault_error f), if fault_lands f then (run w').2 else w')
      else run w'
  end.

Definition query {A} (stmt : world -> jserror + (A * world)) : M A :=
  query_with (fun _ => true) stmt.

Definition DUPLICATE_KEY : Z := 1062.

Definition has_errno (n : Z) (err : jserror) : bool := bool_decide (errno err = Some n).

(** [update] stands for the statements that cannot meet a duplicate key: an UPDATE of
    columns outside every unique key, a DELETE, an INSERT IGNORE. *)
Definition select {A} (f : tables -> A) : M A := query (fun w => inr (f (live w), w)).
Definition update (f : tables -> tables) : M unit :=
  query_with (fun e => negb (has_errno DUPLICATE_KEY e)) (fun w => inr (tt, with_live f w)).

Definition sql_error (n : Z) : jserror := JsError (Some n) false false [].
Definition plain_error (m : jstr) : jserror := JsError None false false m.

(** An INSERT whose key exists, or whose row is refused, raises. *)
Definition insert (bad : tables -> option Z) (f : tables -> tables) : M unit :=
  query (fun w => match bad (live w) with
                  | Some n => inl (sql_error n)
                  | None => inr (tt, with_live f w)
                  end).

(** ** Connection lifecycle *)

Definition MAX_CONNECTION_ATTEMPTS : nat := 30.

Fixpoint connect (attempts : nat) : M unit :=
  match attempts with
  | O => throw (plain_error (js "Failed to get database connection"))
  | S n => try_catch (query (fun w => inr (tt, w))) (fun _ => connect n)
  end.

Definition getConnection : M unit :=
  c ← state transactionConnection;
  if (c : bool) then mret tt else connect MAX_CONNECTION_ATTEMPTS.

Definition acquireTransactionLock : M unit := fun w =>
  if transactionLock w then (Blocked, w) else (Ret tt, with_lock true w).

Definition releaseTransactionLock : M unit := modify (with_lock false).

(** The tables when an open transaction is undone. *)
Definition undo_transaction (w : world) : world :=
  World (default (live w) (begun w)) None (transactionConnection w) (transactionLock w)
    (next_address_id w) (next_hash_id w) (faults w) (stats w).

Definition begin_on_server (w : world) : world :=
  World (live w) (Some (live w)) (transactionConnection w) (transactionLock w)
    (next_address_id w) (next_hash_id w) (faults w) (stats w).

Definition commit_on_server (w : world) : world :=
  World (live w) None (transactionConnection w) (transactionLock w)
    (next_address_id w) (next_hash_id w) (faults w) (stats w).

(** A released connection keeps no transaction open; release errors are ignored. *)
Definition releaseTransactionConnectionQuietly : M unit :=
  c ← state transactionConnection;
  if (c : bool) then modify (fun w => with_connection false (undo_transaction w)) else mret tt.

Definition rollback : M unit := query (fun w => inr (tt, undo_transaction w)).

Definition discardStaleTransactionConnection : M unit :=
  try_catch rollback (fun _ => mret tt);; releaseTransactionConnectionQuietly.

Definition beginTransaction : M unit :=
  acquireTransactionLock;;
  try_catch
    (c ← state transactionConnection;
     (if (c : bool) then discardStaleTransactionConnection else mret tt);;
     getConnection;;
     modify (with_connection true);;
     query (fun w => inr (tt, begin_on_server w)))
    (fun err =>
       releaseTransactionConnectionQuietly;; releaseTransactionLock;; throw err).

Definition endTransaction : M unit :=
  finally
    (c ← state transactionConnection;
     if (c : bool) then rollback else mret tt)
    (releaseTransactionConnectionQuietly;; releaseTransactionLock).

Definition commitTransaction : M bool :=
  c ← state transactionConnection;
  if (c : bool) then
    try_catch
      (query (fun w => inr (tt, commit_on_server w));;
       query (fun w => inr (tt, w));; (* release *)
       modify (with_connection false);;
       releaseTransactionLock;;
       mret true)
      (fun _ => try_catch endTransaction (fun _ => mret tt);; mret false)
  else mret false.

(** [if (this.transactionConnection) await this.endTransaction()] *)
Definition rollback_open : M unit :=
  c ← state transactionConnection;
  if (c : bool) then endTransaction else mret tt.

(** ** Interned strings *)

Definition tag_lookup_failure (err : jserror) : jserror :=
  JsError (errno err) true (rpcLookupFailure err) (message err).

Definition rethrowInTransaction (err : jserror) : M unit :=
  c ← state transactionConnection;
  if (c : bool) then throw (tag_lookup_failure err) else mret tt.

Section Interning.
Context {Coll : Collation}.

Definition same_text (a b : jstr) : bool := eqs (collate a) (collate b).

(** [SELECT id ... WHERE text = ? LIMIT 1] *)
Fixpoint id_of (s : jstr) (rows : list (Z * jstr)) : option Z :=
  match rows with
  | [] => None
  | (id, t) :: rows' => if same_text t s then Some id else id_of s rows'
  end.

(** [INSERT IGNORE]: the counter moves even when the row exists. *)
Definition intern_address (s : jstr) (w : world) : world :=
  let w' := World (live w) (begun w) (transactionConnection w) (transactionLock w)
              (next_address_id w + 1) (next_hash_id w) (faults w) (stats w) in
  match id_of s (index_addresses (live w)) with
  | Some _ => w'
  | None => with_live (with_addresses (fun l => l ++ [(next_address_id w, s)])) w'
  end.

Definition intern_hash (s : jstr) (w : world) : world :=
  let w' := World (live w) (begun w) (transactionConnection w) (transactionLock w)
              (next_address_id w) (next_hash_id w + 1) (faults w) (stats w) in
  match id_of s (index_transactions (live w)) with
  | Some _ => w'
  | None => with_live (with_hashes (fun l => l ++ [(next_hash_id w, s)])) w'
  end.

Definition getAddressId (address : jstr) : M (option Z) :=
  getConnection;;
  try_catch (select (fun t => id_of address (index_addresses t)))
    (fun err => rethrowInTransaction err;; mret None).

Definition createAddress (address : option jstr) : M (option Z) :=
  match address with
  | None | Some [] => mret (Some 1)
  | Some a =>
      id ← getAddressId a;
      match (id : option Z) with
      | Some _ => mret id
      | None =>
          getConnection;;
          try_catch (query (fun w => inr (tt, intern_address a w))) rethrowInTransaction;;
          getAddressId a
      end
  end.

Definition getTransactionId (hash : jstr) : M (option Z) :=
  getConnection;;
  try_catch (select (fun t => id_of hash (index_transactions t)))
    (fun err => rethrowInTransaction err;; mret None).

Definition createTransaction (hash : option jstr) : M (option Z) :=
  match hash with
  | None | Some [] => mret (Some 1)
  | Some h =>
      id ← getTransactionId h;
      match (id : option Z) with
      | Some _ => mret id
      | None =>
          getConnection;;
          try_catch (query (fun w => inr (tt, intern_hash h w))) rethrowInTransaction;;
          getTransactionId h
      end
  end.
End Interning.
