(* ===== verification/DbRows.v ===== *)
(** * Row statements of the block loop

    src/src/db/blocks.js, transactions.js and addresses_and_events.js: the inserts and
    reads of blocks, transactions, outputs, pubkeys and events, the decimal rendering
    of an amount, and the removal of one block by a reorg. *)
From S2P Require Import Prelude JsNum Db.
#[local] Open Scope Z_scope.

(** ** Amounts *)

Definition SATOSHIS_DECIMALS : nat := 8.

Definition zeros (n : nat) : jstr := replicate n 48.

Definition bigIntSatoshiToDecimalsString (bigIntValue : Z) : jstr :=
  let negative := bigIntValue <? 0 in
  let strBigInt := dec_digits (Z.abs bigIntValue) in
  let bigIntLength := length strBigInt in
  let result :=
    if (bigIntLength <=? SATOSHIS_DECIMALS)%nat then
      js "0." ++ zeros (SATOSHIS_DECIMALS - bigIntLength) ++ strBigInt
    else
      let decimalSeparatorIndex := (bigIntLength - SATOSHIS_DECIMALS)%nat in
      take decimalSeparatorIndex strBigInt ++ dot :: drop decimalSeparatorIndex strBigInt in
  if negative then 45 :: result else result.

(** ** Results of an insert *)

Inductive insert_result := Inserted | NotInserted | Duplicated | PoisonRow.
#[export] Instance insert_result_eq_dec : EqDecision insert_result.
Proof. solve_decision. Defined.

Definition BAD_NULL : Z := 1048.

Definition DETERMINISTIC_WRITE_ERRNOS : list Z := [1366; 1406; 1264; 1265; 1292].

Definition deterministic_errno (err : jserror) : bool :=
  existsb (fun n => has_errno n err) DETERMINISTIC_WRITE_ERRNOS.

(** The catch block the inserts share: a duplicate key is reported, anything else
    rolls the block back. *)
Definition insert_failure (err : jserror) : M insert_result :=
  if has_errno DUPLICATE_KEY err then mret Duplicated
  else rollback_open;; mret NotInserted.

(** ** Pubkeys and events *)

Definition hasPubkey (addressId : Z) : M bool :=
  getConnection;;
  try_catch (select (fun t => existsb (fun r => r.1 =? addressId) (pubkeys t)))
    (fun err => rethrowInTransaction err;; mret false).

Definition insert_pubkey_row (addressId : Z) (pubkey : jstr) (t : tables) : tables :=
  if existsb (fun r => r.1 =? addressId) (pubkeys t) then t
  else with_pubkeys (fun l => l ++ [(addressId, pubkey)]) t.

Definition insertPubkey (addressId : Z) (pubkey : jstr) : M bool :=
  getConnection;;
  try_catch (update (insert_pubkey_row addressId pubkey);; mret true)
    (fun err =>
       (if deterministic_errno err then mret tt else rethrowInTransaction err);; mret false).

Definition insertEvent (event : event_row) : M insert_result :=
  getConnection;;
  try_catch (update (with_events (fun l => l ++ [event]));; mret Inserted) insert_failure.

Section Rows.
Context {Coll : Collation}.

(** ** Outputs *)

Definition output_conflict (r : output_row) (t : tables) : option Z :=
  if existsb (fun x => (o_tx_index x =? o_tx_index r) && (o_vout x =? o_vout r))
       (transaction_outputs t)
  then Some DUPLICATE_KEY else None.

Definition insertTransactionOutput (txIndex vout : Z) (destinationAddress : option jstr)
    (amount : Z) : M insert_result :=
  getConnection;;
  try_catch
    (destinationId ← createAddress destinationAddress;
     let r := OutputRow txIndex vout destinationId (bigIntSatoshiToDecimalsString amount) in
     insert (output_conflict r) (with_outputs (fun l => l ++ [r]));;
     mret Inserted)
    insert_failure.

(** ** Transactions *)

Record new_transaction := NewTransaction {
  n_index : Z; n_hash : option jstr; n_block_index : Z; n_source : option jstr;
  n_source_pubkey : option jstr; n_destination : option jstr; n_amount : option Z;
  n_fee : Z; n_data : option jstr; n_raw_data : option bytes
}.

Definition same_hash_id (a b : option Z) : bool :=
  match a, b with Some x, Some y => x =? y | _, _ => false end.

(** PRIMARY KEY (tx_index) and UNIQUE (tx_hash_id). *)
Definition transaction_conflict (r : tx_row) (t : tables) : option Z :=
  if existsb (fun x => (t_index x =? t_index r) || same_hash_id (t_hash_id x) (t_hash_id r))
       (transactions t)
  then Some DUPLICATE_KEY else None.

Definition insertTransactionRow (tx : new_transaction) : M unit :=
  txHashId ← createTransaction (n_hash tx);
  sourceId ← createAddress (n_source tx);
  destinationId ← createAddress (n_destination tx);
  (match n_source_pubkey tx, (sourceId : option Z) with
   | Some (c :: cs), Some id =>
       if id =? 1 then mret tt else insertPubkey id (c :: cs);; mret tt
   | _, _ => mret tt
   end);;
  let r := TxRow (n_index tx) txHashId (n_block_index tx) sourceId destinationId
             (n_amount tx) (n_fee tx) (n_data tx) (n_raw_data tx) in
  insert (transaction_conflict r) (with_transactions (fun l => l ++ [r])).

Definition insertTransaction (tx : new_transaction) : M insert_result :=
  getConnection;;
  try_catch (insertTransactionRow tx;; mret Inserted)
    (fun err =>
       if has_errno DUPLICATE_KEY err then mret Duplicated
       else rollback_open;;
            mret (if deterministic_errno err then PoisonRow else NotInserted)).

(** ** Blocks *)

Record new_block := NewBlock {
  nb_index : Z; nb_hash : option jstr; nb_time : option Z; nb_previous_hash : option jstr
}.

Definition block_conflict (r : block_row) (t : tables) : option Z :=
  if existsb (fun x => b_index x =? b_index r) (blocks t) then Some DUPLICATE_KEY else None.

Definition insertBlock (block : new_block) : M bool :=
  getConnection;;
  try_catch
    (blockHashId ← createTransaction (nb_hash block);
     previousBlockHashId ← createTransaction (nb_previous_hash block);
     let r := BlockRow (nb_index block) (nb_time block) blockHashId previousBlockHashId in
     insert (block_conflict r) (with_blocks (fun l => l ++ [r]));;
     mret true)
    (fun _ => rollback_open;; mret false).
End Rows.

(** ** Reads with retries *)

Definition MAX_ATTEMPTS : nat := 5.

Fixpoint read_retrying {A} (attempts : nat) (name : jstr) (f : tables -> A) : M A :=
  match attempts with
  | O => throw (plain_error name)
  | S n => getConnection;; try_catch (select f) (fun _ => read_retrying n name f)
  end.

(** [MAX(...)], or -1 on an empty table. *)
Definition max_of (l : list Z) : Z :=
  match l with [] => -1 | x :: l' => foldl Z.max x l' end.

Definition getLastBlockIndex : M Z :=
  read_retrying MAX_ATTEMPTS (js "getLastBlockIndex failed") (fun t => max_of (map b_index (blocks t))).

Definition getLastTxIndex : M Z :=
  read_retrying MAX_ATTEMPTS (js "getLastTxIndex failed")
    (fun t => max_of (map t_index (transactions t))).

Definition hash_by_id (id : option Z) (rows : list (Z * jstr)) : option jstr :=
  match id with
  | None => None
  | Some i => snd <$> find (fun r => r.1 =? i) rows
  end.

Record stored_block := StoredBlock {
  s_index : Z; s_time : option Z; s_hash : option jstr; s_previous_hash : option jstr
}.

Definition block_by_index (blockIndex : Z) (t : tables) : option stored_block :=
  match find (fun b => b_index b =? blockIndex) (blocks t) with
  | None => None
  | Some b => Some (StoredBlock (b_index b) (b_time b)
                      (hash_by_id (b_hash_id b) (index_transactions t))
                      (hash_by_id (b_previous_id b) (index_transactions t)))
  end.

Definition getBlockByIndex (blockIndex : Z) : M (option stored_block) :=
  read_retrying MAX_ATTEMPTS (js "getBlockByIndex failed") (block_by_index blockIndex).

(** ** Removing one block *)

(** The transactions of a block, by tx_index. *)
Definition tx_indexes_of (blockIndex : Z) (t : tables) : list Z :=
  map t_index (List.filter (fun r => t_block r =? blockIndex) (transactions t)).

Definition in_list (x : Z) (l : list Z) : bool := existsb (Z.eqb x) l.

Definition unexpire (blockIndex : Z) (d : dispenser_row) : dispenser_row :=
  match d_expired d with
  | Some h => if h =? blockIndex
              then DispenserRow (d_tx_index d) (d_address_id d) (d_expiration d)
                     (d_oracle_id d) (d_source_id d) None
              else d
  | None => d
  end.

Definition delete_outputs_of (blockIndex : Z) (t : tables) : tables :=
  let gone := tx_indexes_of blockIndex t in
  with_outputs (List.filter (fun o => negb (in_list (o_tx_index o) gone))) t.

Definition delete_dispensers_of (blockIndex : Z) (t : tables) : tables :=
  let gone := tx_indexes_of blockIndex t in
  with_dispensers (List.filter (fun d => negb (in_list (d_tx_index d) gone))) t.

Definition deleteBlockRows (blockIndex : Z) : M unit :=
  update (with_dispensers (map (unexpire blockIndex)));;
  update (delete_outputs_of blockIndex);;
  update (delete_dispensers_of blockIndex);;
  update (with_transactions (List.filter (fun r => negb (t_block r =? blockIndex))));;
  update (with_blocks (List.filter (fun b => negb (b_index b =? blockIndex)))).

Definition insertReorgEvent (blockIndex : Z) (reorgBlockHash : option jstr) : M unit :=
  match reorgBlockHash with
  | None => mret tt
  | Some h => update (with_events (fun l => l ++ [ReorgEvent blockIndex h]))
  end.

(** [u.tx_index = d.tx_index AND u.address_id = d.address_id], for the undo rows of
    one block: the key makes the row unique. *)
Definition undo_row_for (blockIndex : Z) (d : dispenser_row) (l : list undo_row)
  : option undo_row :=
  find (fun u => (u_block u =? blockIndex) && (u_tx_index u =? d_tx_index d)
                 && (u_address_id u =? d_address_id d)) l.

Definition restore_row (blockIndex : Z) (undo : list undo_row) (d : dispenser_row)
  : dispenser_row :=
  match undo_row_for blockIndex d undo with
  | None => d
  | Some u =>
      DispenserRow (d_tx_index d) (d_address_id d) (u_prior_expiration u) (d_oracle_id d)
        (d_source_id d)
        (match u_prior_expired u with
         | Some h => if h =? u_block u then None else Some h
         | None => None
         end)
  end.

Definition restoreDispenserExtensions (blockIndex : Z) : M unit :=
  update (fun t =>
    with_dispensers (map (restore_row blockIndex (dispenser_extension_undo t))) t);;
  update (with_undo (List.filter (fun u => negb (u_block u =? blockIndex)))).

Definition deleteBlockByIndex (blockIndex : Z) (reorgBlockHash : option jstr) : M bool :=
  beginTransaction;;
  getConnection;;
  try_catch
    (restoreDispenserExtensions blockIndex;;
     deleteBlockRows blockIndex;;
     insertReorgEvent blockIndex reorgBlockHash;;
     committed ← commitTransaction;
     if (committed : bool) then mret true
     else throw (plain_error (js "deleteBlockByIndex: commit failed")))
    (fun err => rollback_open;; throw err).

(** ** Facts *)

Lemma foldl_max_upper l x : x <= foldl Z.max x l /\ forall z, z ∈ l -> z <= foldl Z.max x l.
Proof.
  revert x. induction l as [|y l IH]; intros x; simpl; [split; [lia|set_solver]|].
  destruct (IH (Z.max x y)) as [H1 H2]. split; [lia|]. intros z Hz.
  apply elem_of_cons in Hz as [->|Hz]; [lia|by apply H2].
Qed.

Lemma max_of_upper l z : z ∈ l -> z <= max_of l.
Proof.
  destruct l as [|x l]; [set_solver|]. simpl. destruct (foldl_max_upper l x) as [H1 H2].
  intros Hz. apply elem_of_cons in Hz as [->|Hz]; auto.
Qed.
