(* ===== verification/Atomic.v ===== *)
(** * The block transaction as an invariant

    A small logic for code that runs inside the block transaction.
    [steps T I x m ends J] says that [m], started with a transaction open since the
    tables [T] and the current tables in [I], never waits on the lock, and either leaves
    that transaction open with the tables in [J], or leaves the handle idle with the
    tables back at [T]; the second exactly when [ends] holds of the result.  A throw
    leaves the transaction open with the tables in [E] ([Still E]), or the handle idle
    ([Undone]): the second for a computation that catches the failures of its
    statements, where the throws left are those of a failed ROLLBACK.  [txn] is the case
    of a kept invariant. *)
From S2P Require Import Prelude JsNum Db DbRows.
#[local] Open Scope Z_scope.

Definition idle (T : tables) (w : world) : Prop :=
  live w = T /\ begun w = None /\ transactionConnection w = false /\ transactionLock w = false.

Definition open_on (T : tables) (w : world) : Prop :=
  begun w = Some T /\ transactionConnection w = true /\ transactionLock w = true.

Definition within (T : tables) (I : tables -> Prop) (w : world) : Prop :=
  open_on T w /\ I (live w).

Inductive on_throw := Undone | Still (E : tables -> Prop).

Definition thrown (hard : bool) (I : tables -> Prop) : on_throw :=
  if hard then Undone else Still I.

Definition post {A} (T : tables) (x : on_throw) (ends : A -> bool) (J : A -> tables -> Prop)
    (r : res A * world) : Prop :=
  match r with
  | (Ret a, w) => if ends a then idle T w else within T (J a) w
  | (Throw _, w) => match x with Undone => idle T w | Still E => within T E w end
  | (Blocked, _) => False
  end.

Definition steps {A} (T : tables) (I : tables -> Prop) (x : on_throw) (m : M A)
    (ends : A -> bool) (J : A -> tables -> Prop) : Prop :=
  forall w, within T I w -> post T x ends J (m w).

Abbreviation txn T I hard m ends :=
  (steps T I (thrown hard I) m ends (fun _ => I)).
Abbreviation stays := (fun _ => false).

(** The writes an invariant on the tables admits. *)
Class Closed (I : tables -> Prop) (f : tables -> tables) : Prop := closed t : I t -> I (f t).

(** Interned strings, pubkeys and events may be added under any invariant considered. *)
Class Interning (I : tables -> Prop) : Prop := {
  interns_address r :: Closed I (with_addresses (fun l => l ++ [r]));
  interns_hash r :: Closed I (with_hashes (fun l => l ++ [r]));
  interns_pubkey i k :: Closed I (insert_pubkey_row i k);
  interns_event e :: Closed I (with_events (fun l => l ++ [e]))
}.

(** The id of an interned string: row 1 for none and for the empty one, else the id of a
    row whose text the collation cannot tell from it. *)
Definition names `{Collation} (rows : list (Z * jstr)) (id : option Z) (text : option jstr)
  : Prop :=
  match text with
  | None | Some [] => id = Some 1
  | Some s => exists i x, id = Some i /\ (i, x) ∈ rows /\ same_text x s = true
  end.

Lemma names_mono `{Collation} rows rows' id text :
  rows `prefix_of` rows' -> names rows id text -> names rows' id text.
Proof.
  intros [l ->]. destruct text as [[|c s]|]; simpl; [done| |done].
  intros (i & x & E & Hin & Hx). exists i, x. split_and!; [done| |done].
  apply elem_of_app. by left.
Qed.

Lemma id_of_names `{Collation} c s rows i :
  id_of (c :: s) rows = Some i -> names rows (Some i) (Some (c :: s)).
Proof.
  induction rows as [|[j x] rows IH]; [done|]. cbn [id_of]. destruct (same_text x (c :: s)) eqn:Ex.
  - intros [= <-]. exists j, x. by split_and!; [|left|].
  - intros (k & y & E & Hin & Hy)%IH. exists k, y. by split_and!; [|right|].
Qed.

Lemma id_of_interned `{Collation} s rows j : is_Some (id_of s (rows ++ [(j, s)])).
Proof.
  induction rows as [|[k x] rows IH]; simpl.
  - unfold same_text, eqs. by rewrite bool_decide_true.
  - destruct (same_text x s); [by eexists|exact IH].
Qed.

Definition ends_insert (r : insert_result) : bool :=
  match r with NotInserted | PoisonRow => true | _ => false end.

Section Rules.
Context {T : tables} {I : tables -> Prop}.

Lemma txn_ret {A} x (a : A) ends (J : A -> tables -> Prop) :
  ends a = false -> (forall t, I t -> J a t) -> steps T I x (mret a) ends J.
Proof. intros Ha HJ w [Hw Hi]. simpl. rewrite Ha. by split; [|apply HJ]. Qed.

Lemma txn_throw {A} e (ends : A -> bool) J : steps T I (thrown false I) (throw e) ends J.
Proof. intros w Hw. exact Hw. Qed.

(** Forget what a throw leaves. *)
Lemma txn_soft {A} (m : M A) ends J :
  steps T I (thrown false I) m ends J -> steps T I (Still (fun _ => True)) m ends J.
Proof.
  intros Hm w Hw. specialize (Hm w Hw). destruct (m w) as [[a|e|] w']; simpl in *; try done.
  by destruct Hm.
Qed.

Lemma steps_conseq {A} x (m : M A) ends (I' : tables -> Prop) J J' :
  steps T I' x m ends J' -> (forall t, I t -> I' t) -> (forall a t, J' a t -> J a t) ->
  steps T I x m ends J.
Proof.
  intros Hm HI HJ w [Hw Hi]. specialize (Hm w (conj Hw (HI _ Hi))).
  destruct (m w) as [[a|e|] w']; simpl in *; [|done|done].
  destruct (ends a); [done|]. destruct Hm as [Hw' Hj]. split; [done|by apply HJ].
Qed.

(** The tables reached so far get a name. *)
Lemma steps_named {A} x (m : M A) ends J :
  (forall B, I B -> steps T (fun t => t = B) x m ends J) -> steps T I x m ends J.
Proof. intros Hm w [Hw Hi]. by apply (Hm _ Hi w). Qed.

(** What is true of the result alone. *)
Lemma steps_pure {A} x (m : M A) ends (phi : Prop) J :
  (phi -> steps T I x m ends J) -> steps T (fun t => I t /\ phi) x m ends J.
Proof. intros Hm w [Hw [Hi Hp]]. by apply (Hm Hp w). Qed.

(** [m] may end the transaction; its continuation then only reports that. *)
Lemma txn_bind_ends {A B} x (m : M A) (k : A -> M B) e ends K J :
  steps T I x m e K ->
  (forall a, e a = false -> steps T (K a) x (k a) ends J) ->
  (forall a w, e a = true -> idle T w -> post T x ends J (k a w)) ->
  steps T I x (m ≫= k) ends J.
Proof.
  intros Hm Hk He w Hw. specialize (Hm w Hw). unfold mbind, M_bind.
  destruct (m w) as [[a|err|] w']; simpl in *; try done.
  destruct (e a) eqn:Ea; [by apply He|by apply Hk].
Qed.

Lemma steps_bind {A B} x (m : M A) (k : A -> M B) ends K J :
  steps T I x m stays K -> (forall a, steps T (K a) x (k a) ends J) ->
  steps T I x (m ≫= k) ends J.
Proof. intros Hm Hk. eapply txn_bind_ends; [exact Hm|auto|done]. Qed.

Lemma txn_bind {A B} x (m : M A) (k : A -> M B) ends J :
  steps T I x m stays (fun _ => I) -> (forall a, steps T I x (k a) ends J) ->
  steps T I x (m ≫= k) ends J.
Proof. apply steps_bind. Qed.

Lemma txn_state {A B} x (f : world -> A) (k : A -> M B) ends J :
  (forall a, steps T I x (k a) ends J) -> steps T I x (state f ≫= k) ends J.
Proof. intros Hk w Hw. by apply Hk. Qed.

(** The handler only ever runs with the transaction still open. *)
Lemma steps_try {A} x E (m : M A) h ends J :
  steps T I (Still E) m ends J -> (forall e, steps T E x (h e) ends J) ->
  steps T I x (try_catch m h) ends J.
Proof.
  intros Hm Hh w Hw. specialize (Hm w Hw). unfold try_catch.
  destruct (m w) as [[a|e|] w']; simpl in *; try done. by apply Hh.
Qed.

Lemma txn_try {A} x (m : M A) h ends J :
  steps T I (thrown false I) m ends J -> (forall e, steps T I x (h e) ends J) ->
  steps T I x (try_catch m h) ends J.
Proof. apply steps_try. Qed.

(** A call that fails may still have reached the server, so a throw leaves either
    invariant. *)
Lemma txn_query_with {A} adm (stmt : world -> jserror + (A * world))
    (E : tables -> Prop) J :
  (forall w a w', stmt w = inr (a, w') -> within T I w -> within T (J a) w') ->
  (forall t, I t -> E t) -> (forall a t, J a t -> E t) ->
  steps T I (Still E) (query_with adm stmt) stays J.
Proof.
  intros Hs HI HJ w Hw.
  assert (Hrun : forall v, within T I v ->
    post T (Still E) stays J match stmt v with
                      | inl e => (Throw e, v) | inr (a, v') => (Ret a, v') end).
  { intros v Hv. destruct (stmt v) as [e|[a v']] eqn:Es; simpl; [|by eapply Hs].
    destruct Hv. split; auto. }
  unfold query_with. destruct (faults w) as [|[f|] fs]; [by apply Hrun| |by apply Hrun].
  specialize (Hrun (with_faults fs w) Hw). destruct (adm _); [|exact Hrun].
  simpl. destruct (fault_lands f).
  - destruct (stmt (with_faults fs w)) as [e|[a v']]; simpl in *; [done|].
    destruct Hrun. split; [done|by eapply HJ].
  - destruct Hw. split; [done|by apply HI].
Qed.

Lemma txn_query {A} (stmt : world -> jserror + (A * world)) :
  (forall w a w', stmt w = inr (a, w') -> within T I w -> within T I w') ->
  txn T I false (query stmt) stays.
Proof. intros Hs. by apply txn_query_with. Qed.

(** What a read answers is what the tables hold. *)
Lemma steps_select {A} (f : tables -> A) :
  steps T I (thrown false I) (select f) stays (fun a t => I t /\ a = f t).
Proof. apply txn_query_with; [|done|by intros a t [Ht _]]. by intros w a w' [= <- <-] [Hw Hi]. Qed.

Lemma txn_select {A} (f : tables -> A) : txn T I false (select f) stays.
Proof. by apply txn_query; intros w a w' [= <- <-]. Qed.

Lemma steps_update f (J : tables -> Prop) :
  (forall t, I t -> J (f t)) ->
  steps T I (Still (fun _ => True)) (update f) stays (fun _ => J).
Proof.
  intros HJ. apply txn_query_with; [|done..]. intros w a w' [= <- <-] [Hw Hi].
  by split; [|apply HJ].
Qed.

Lemma txn_update f : Closed I f -> txn T I false (update f) stays.
Proof.
  intros HJ. apply txn_query_with; [|done..]. intros w a w' [= <- <-] [Hw Hi].
  by split; [|apply HJ].
Qed.

Lemma insert_runs bad f (J : tables -> Prop) w (u : unit) w' :
  (forall t, bad t = None -> I t -> J (f t)) ->
  match bad (live w) with Some n => inl (sql_error n) | None => inr (tt, with_live f w) end
    = inr (u, w') ->
  within T I w -> within T J w'.
Proof.
  intros HJ. destruct (bad (live w)) eqn:Eb; [done|]. intros [= <- <-] [Hw Hi].
  by split; [|apply HJ].
Qed.

Lemma steps_insert bad f (J : tables -> Prop) :
  (forall t, bad t = None -> I t -> J (f t)) ->
  steps T I (Still (fun _ => True)) (insert bad f) stays (fun _ => J).
Proof. intros HJ. apply txn_query_with; [|done..]. intros w u w'. by apply insert_runs. Qed.

Lemma txn_insert bad f :
  (forall t, bad t = None -> I t -> I (f t)) -> txn T I false (insert bad f) stays.
Proof. intros HJ. apply txn_query_with; [|done..]. intros w u w'. by apply insert_runs. Qed.

Lemma getConnection_open w : open_on T w -> getConnection w = (Ret tt, w).
Proof. intros (_ & Hc & _). unfold getConnection, state, mbind, M_bind. by rewrite Hc. Qed.

Lemma txn_getConnection x : steps T I x getConnection stays (fun _ => I).
Proof. intros w Hw. rewrite getConnection_open by apply Hw. exact Hw. Qed.

Lemma rollback_open_on w :
  open_on T w ->
  match rollback w with
  | (Ret _, w') => live w' = T /\ begun w' = None /\ transactionConnection w' = true
  | (Throw _, w') => (live w' = T /\ begun w' = None /\ transactionConnection w' = true)
                     \/ open_on T w'
  | (Blocked, _) => False
  end.
Proof.
  intros (Hb & Hc & Hl). unfold rollback, query, query_with.
  destruct (faults w) as [|[f|] fs]; simpl; rewrite ?Hb; simpl; try done.
  destruct (fault_lands f); simpl; rewrite ?Hb; [by left|]. by right.
Qed.

Lemma release_idle w :
  (live w = T /\ begun w = None /\ transactionConnection w = true) \/ open_on T w ->
  exists w', (releaseTransactionConnectionQuietly;; releaseTransactionLock) w = (Ret tt, w')
    /\ idle T w'.
Proof.
  intros H. unfold releaseTransactionConnectionQuietly, releaseTransactionLock, modify,
    state, mbind, M_bind.
  assert (transactionConnection w = true) as Hc by (destruct H as [(?&?&?)|(?&?&?)]; done).
  rewrite Hc. eexists. split; [done|]. unfold idle. simpl.
  destruct H as [(Hl & Hb & _)|(Hb & _ & _)]; rewrite Hb; simpl; auto.
Qed.

(** Ending the transaction leaves the handle idle, even when the ROLLBACK throws. *)
Lemma endTransaction_idle w :
  open_on T w ->
  match endTransaction w with (Blocked, _) => False | (_, w') => idle T w' end.
Proof.
  intros Hw. unfold endTransaction, finally, state, mbind at 1, M_bind at 1.
  rewrite (proj1 (proj2 Hw)). pose proof (rollback_open_on w Hw) as Hr.
  destruct (rollback w) as [[[]|e|] w1]; [| |done].
  - destruct (release_idle w1) as (w2 & -> & H2); [by left|]. exact H2.
  - destruct (release_idle w1) as (w2 & -> & H2); [|done].
    destruct Hr as [?|?]; [by left|by right].
Qed.

Lemma rollback_open_idle w :
  open_on T w ->
  match rollback_open w with (Blocked, _) => False | (_, w') => idle T w' end.
Proof.
  intros Hw. unfold rollback_open, state, mbind, M_bind.
  rewrite (proj1 (proj2 Hw)). by apply endTransaction_idle.
Qed.

Lemma txn_endTransaction : txn T I true endTransaction (fun _ => true).
Proof.
  intros w [Hw _]. pose proof (endTransaction_idle w Hw).
  by destruct (endTransaction w) as [[[]|e|] w'].
Qed.

Lemma txn_rollback_open : txn T I true rollback_open (fun _ => true).
Proof.
  intros w [Hw _]. pose proof (rollback_open_idle w Hw).
  by destruct (rollback_open w) as [[[]|e|] w'].
Qed.

(** Rolling back and reporting it. *)
Lemma txn_end_ret {A} (m : M unit) (a : A) ends J :
  txn T I true m (fun _ => true) -> ends a = true ->
  steps T I Undone (m;; mret a) ends J.
Proof.
  intros Hm Ha. eapply txn_bind_ends; [exact Hm|done|].
  intros [] w _ Hw. simpl. by rewrite Ha.
Qed.

(** The counters are not part of the transaction. *)
Lemma txn_count x f : steps T I x (count f) stays (fun _ => I).
Proof. intros w Hw. exact Hw. Qed.

(** The read loops never touch the transaction. *)
Lemma steps_read_retrying {A} n name (f : tables -> A) :
  steps T I (thrown false I) (read_retrying n name f) stays (fun a t => I t /\ a = f t).
Proof.
  induction n as [|n IH]; simpl; [apply txn_throw|].
  apply txn_bind; [apply txn_getConnection|]. intros _.
  apply txn_try; [apply steps_select|done].
Qed.

Lemma txn_read_retrying {A} n name (f : tables -> A) :
  txn T I false (read_retrying n name f) stays.
Proof. eapply steps_conseq; [apply steps_read_retrying|done|by intros a t [Ht _]]. Qed.

(** Inside the transaction a failed lookup is always thrown. *)
Lemma steps_rethrow err J : steps T I (thrown false I) (rethrowInTransaction err) stays J.
Proof.
  intros w [Hw Hi]. unfold rethrowInTransaction, state, mbind, M_bind.
  rewrite (proj1 (proj2 Hw)). by split.
Qed.

Lemma txn_rethrow err : txn T I false (rethrowInTransaction err) stays.
Proof. apply steps_rethrow. Qed.
End Rules.

Create HintDb txn.
#[export] Hint Resolve txn_throw txn_count txn_select txn_update txn_insert txn_getConnection
  txn_rethrow txn_read_retrying txn_rollback_open txn_endTransaction : txn.
#[export] Hint Extern 0 (Closed _ _) => apply _ : txn.

(** Decompose a computation along its syntax. *)
Ltac txn_step :=
  first
    [ done
    | solve [eauto with txn]
    | apply txn_ret; [(reflexivity || eassumption)|done]
    | apply txn_state; intros ?
    | apply txn_end_ret; [solve [eauto with txn]|reflexivity]
    | apply txn_try; [|intros ?]
    | apply txn_bind; [|intros ?]
    | case_match ].
Ltac txn_auto := repeat txn_step.

Section Operations.
Context {Coll : Collation} {T : tables} {I : tables -> Prop} {HI : Interning I}.

#[export] Instance names_interning_hash id s :
  Interning (fun t => I t /\ names (index_transactions t) id s).
Proof.
  split; intros; intros t [Ht Hn]; (split; [by apply closed|]); try done;
    [by eapply names_mono; [apply prefix_app_r|]|].
  unfold insert_pubkey_row. by case_match.
Qed.

#[export] Instance names_interning_address id s :
  Interning (fun t => I t /\ names (index_addresses t) id s).
Proof.
  split; intros; intros t [Ht Hn]; (split; [by apply closed|]); try done;
    [by eapply names_mono; [apply prefix_app_r|]|].
  unfold insert_pubkey_row. by case_match.
Qed.

Lemma steps_lookup (f : tables -> option Z) :
  steps T I (thrown false I)
    (getConnection;; try_catch (select f) (fun err => rethrowInTransaction err;; mret None)) stays
    (fun a t => I t /\ a = f t).
Proof.
  apply txn_bind; [apply txn_getConnection|intros _]. apply txn_try; [apply steps_select|].
  intros e. eapply (steps_bind _ _ _ _ (fun _ _ => False)); [apply steps_rethrow|].
  intros []. by intros w [_ []].
Qed.

Lemma txn_getAddressId a : txn T I false (getAddressId a) stays.
Proof. eapply steps_conseq; [apply (steps_lookup _)|done|by intros r t [Ht _]]. Qed.

Lemma intern_address_within s w :
  within T I w ->
  within T (fun t => I t /\ is_Some (id_of s (index_addresses t))) (intern_address s w).
Proof.
  unfold intern_address. intros [Hw Hi]. destruct (id_of _ _) eqn:E; (split; [done|]); simpl.
  - split; [done|]. by rewrite E.
  - split; [by apply interns_address|apply id_of_interned].
Qed.

Lemma intern_hash_within s w :
  within T I w ->
  within T (fun t => I t /\ is_Some (id_of s (index_transactions t))) (intern_hash s w).
Proof.
  unfold intern_hash. intros [Hw Hi]. destruct (id_of _ _) eqn:E; (split; [done|]); simpl.
  - split; [done|]. by rewrite E.
  - split; [by apply interns_hash|apply id_of_interned].
Qed.
End Operations.

(** Interning a non-empty string: the lookup, and on a miss the insert and the lookup. *)
Section Create.
Context {Coll : Collation} {T : tables} (g : tables -> list (Z * jstr)) (c : Z) (s : jstr).
Context (look : M (option Z)) (ins : M unit).
Context (looks : forall J : tables -> Prop, steps T J (thrown false J) look stays
                   (fun a t => J t /\ a = id_of (c :: s) (g t))).

Lemma steps_create (I : tables -> Prop) :
  steps T I (thrown false I) ins stays (fun _ t => I t /\ is_Some (id_of (c :: s) (g t))) ->
  steps T I (thrown false I)
    (id ← look;
     match (id : option Z) with
     | Some _ => mret id
     | None => getConnection;; try_catch ins rethrowInTransaction;; look
     end) stays (fun id t => I t /\ names (g t) id (Some (c :: s))).
Proof.
  intros Hins.
  assert (Hx : forall (J : tables -> Prop) (m : M (option Z)) K, (forall t, J t -> I t) ->
    steps T J (thrown false J) m stays K -> steps T J (thrown false I) m stays K).
  { intros J m K HJ Hm w Hw. specialize (Hm w Hw). destruct (m w) as [[a|e|] w']; simpl in *; try done.
    destruct Hm. split; [done|by apply HJ]. }
  eapply steps_bind; [apply looks|]. intros [i|].
  - apply txn_ret; [done|]. intros t [Ht E]. split; [done|]. by apply id_of_names.
  - eapply (steps_conseq _ _ _ I); [|by intros t [Ht _]|intros a t H; exact H].
    apply txn_bind; [apply txn_getConnection|intros _].
    eapply (steps_bind _ _ _ _ (fun _ t => I t /\ is_Some (id_of (c :: s) (g t)))).
    + apply txn_try; [exact Hins|]. intros e. apply steps_rethrow.
    + intros []. eapply steps_conseq; [apply (Hx (fun t => I t /\ is_Some (id_of (c :: s) (g t))))|done|].
      * by intros t [Ht _].
      * apply looks.
      * intros a t [[Ht [i Hi]] ->]. split; [done|]. rewrite Hi. by apply id_of_names.
Qed.
End Create.

Section Operations.
Context {Coll : Collation} {T : tables} {I : tables -> Prop} {HI : Interning I}.

Lemma steps_createAddress a :
  steps T I (thrown false I) (createAddress a) stays
    (fun id t => I t /\ names (index_addresses t) id a).
Proof.
  unfold createAddress. destruct a as [[|c a]|]; [by apply txn_ret| |by apply txn_ret].
  apply (steps_create index_addresses).
  - intros J. apply steps_lookup.
  - apply txn_query_with; [|done|by intros _ t [Ht _]].
    intros w u w' [= <- <-]. by apply intern_address_within.
Qed.

Lemma steps_createTransaction a :
  steps T I (thrown false I) (createTransaction a) stays
    (fun id t => I t /\ names (index_transactions t) id a).
Proof.
  unfold createTransaction. destruct a as [[|c a]|]; [by apply txn_ret| |by apply txn_ret].
  apply (steps_create index_transactions).
  - intros J. apply steps_lookup.
  - apply txn_query_with; [|done|by intros _ t [Ht _]].
    intros w u w' [= <- <-]. by apply intern_hash_within.
Qed.

Lemma txn_createAddress a : txn T I false (createAddress a) stays.
Proof. eapply steps_conseq; [apply steps_createAddress|done|by intros id t [Ht _]]. Qed.

Lemma txn_createTransaction a : txn T I false (createTransaction a) stays.
Proof. eapply steps_conseq; [apply steps_createTransaction|done|by intros id t [Ht _]]. Qed.

Lemma txn_hasPubkey id : txn T I false (hasPubkey id) stays.
Proof. unfold hasPubkey. txn_auto. Qed.

Lemma txn_insertPubkey id k : txn T I false (insertPubkey id k) stays.
Proof. unfold insertPubkey. txn_auto. Qed.

Lemma txn_insert_failure err : txn T I true (insert_failure err) ends_insert.
Proof. unfold insert_failure. txn_auto. Qed.

(** An update never reports a duplicate key, so anything but success has rolled back. *)
Lemma steps_update_insert f (J : tables -> Prop) :
  (forall t, I t -> J (f t)) ->
  steps T I Undone (try_catch (update f;; mret Inserted) insert_failure) ends_insert
    (fun r t => r = Inserted /\ J t).
Proof.
  intros HJ w Hw. unfold try_catch, mbind at 1, M_bind at 1.
  pose proof (steps_update (T := T) f J HJ w Hw) as Hu.
  assert (He : forall e w', update f w = (Throw e, w') -> has_errno DUPLICATE_KEY e = false).
  { intros e w'. unfold update, query_with. destruct (faults w) as [|[x|] fs]; [done| |done].
    destruct (negb _) eqn:En; [|done]. intros [= <- _]. by apply negb_true_iff. }
  destruct (update f w) as [[[]|e|] w'] eqn:E.
  - destruct Hu as [Hu Ht]. by split.
  - unfold insert_failure. rewrite (He e w' eq_refl).
    by eapply txn_end_ret; [apply (txn_rollback_open (I := fun _ => True))| |exact Hu].
  - done.
Qed.

Lemma steps_insertEvent e (J : tables -> Prop) :
  (forall t, I t -> J (with_events (fun l => l ++ [e]) t)) ->
  steps T I Undone (insertEvent e) ends_insert (fun r t => r = Inserted /\ J t).
Proof.
  intros HJ. unfold insertEvent. apply txn_bind; [apply txn_getConnection|intros _].
  by apply steps_update_insert.
Qed.

Lemma txn_insertEvent e : txn T I true (insertEvent e) ends_insert.
Proof.
  eapply steps_conseq; [apply (steps_insertEvent e I); intros t Ht; by apply interns_event|done|].
  by intros r t [_ Ht].
Qed.

(** What a throw may have left is unknown, but it is rolled back or reported. *)
Lemma steps_insert_failure err (J : tables -> Prop) :
  steps T (fun _ => True) Undone (insert_failure err) ends_insert
    (fun r => match r with Inserted => J | _ => fun _ => True end).
Proof.
  unfold insert_failure. case_match; [by apply txn_ret|].
  apply txn_end_ret; [apply txn_rollback_open|done].
Qed.

End Operations.

Section Rows.
Context {Coll : Collation} {T : tables} {I : tables -> Prop} {HI : Interning I}.

(** The outputs row, as the statement writes it. *)
Definition output_of (i v : Z) (d : option jstr) (a : Z) (t : tables) (r : output_row) : Prop :=
  o_tx_index r = i /\ o_vout r = v /\ names (index_addresses t) (o_destination_id r) d
  /\ o_amount r = bigIntSatoshiToDecimalsString a.

Lemma steps_insertTransactionOutput i v d a (J : tables -> Prop) :
  (forall t r, output_of i v d a t r -> I t -> J (with_outputs (fun l => l ++ [r]) t)) ->
  steps T I Undone (insertTransactionOutput i v d a) ends_insert
    (fun r => match r with Inserted => J | _ => fun _ => True end).
Proof.
  intros HJ. unfold insertTransactionOutput.
  apply txn_bind; [apply txn_getConnection|intros _].
  eapply steps_try; [|intros err; apply steps_insert_failure].
  eapply steps_bind; [apply txn_soft, steps_createAddress|intros id].
  eapply steps_bind; [apply steps_insert|intros []; by apply txn_ret].
  intros t _ [Ht Hn]. by apply HJ.
Qed.

(** The transactions row: the one write after which the block may own rows of its
    [tx_index]. *)
Record row_for (tx : new_transaction) (t : tables) (r : tx_row) : Prop := {
  row_index : t_index r = n_index tx;
  row_block : t_block r = n_block_index tx;
  row_hash : names (index_transactions t) (t_hash_id r) (n_hash tx);
  row_source : names (index_addresses t) (t_source_id r) (n_source tx);
  row_destination : names (index_addresses t) (t_destination_id r) (n_destination tx);
  row_data : t_data r = n_data tx;
  row_raw_data : t_raw_data r = n_raw_data tx
}.

Lemma steps_insertTransactionRow tx (J : tables -> Prop) :
  (forall t r, row_for tx t r -> transaction_conflict r t = None -> I t ->
     J (with_transactions (fun l => l ++ [r]) t)) ->
  steps T I (Still (fun _ => True)) (insertTransactionRow tx) stays (fun _ => J).
Proof.
  intros HJ. unfold insertTransactionRow.
  eapply steps_bind; [apply txn_soft, steps_createTransaction|intros h].
  eapply steps_bind; [apply txn_soft, steps_createAddress|intros s].
  eapply steps_bind; [apply txn_soft, steps_createAddress|intros d].
  apply txn_bind; [|intros _; apply steps_insert].
  - repeat case_match; try by apply txn_ret.
    apply txn_bind; [apply txn_soft, txn_insertPubkey|intros _]. by apply txn_ret.
  - intros t Hc [[[Ht Hh] Hs] Hd]. by apply HJ.
Qed.

Lemma steps_insertTransaction tx (J : tables -> Prop) :
  (forall t r, row_for tx t r -> transaction_conflict r t = None -> I t ->
     J (with_transactions (fun l => l ++ [r]) t)) ->
  steps T I Undone (insertTransaction tx) ends_insert
    (fun r => match r with Inserted => J | _ => fun _ => True end).
Proof.
  intros HJ. unfold insertTransaction. apply txn_bind; [apply txn_getConnection|intros _].
  eapply steps_try.
  - eapply steps_bind; [by apply steps_insertTransactionRow|intros []]. by apply txn_ret.
  - intros err. case_match; [by apply txn_ret|].
    apply txn_end_ret; [apply txn_rollback_open|]. by case_match.
Qed.

Lemma no_conflict_new r t : block_conflict r t = None -> b_index r ∉ map b_index (blocks t).
Proof.
  unfold block_conflict. destruct (existsb _ _) eqn:E; [done|]. intros _ (x & Ex & Hx)%list_elem_of_fmap.
  assert (H : existsb (fun y => b_index y =? b_index r) (blocks t) = true); [|congruence].
  apply existsb_exists. exists x. split; [by apply list_elem_of_In|by apply Z.eqb_eq].
Qed.

(** The blocks row, as the statement writes it. *)
Definition block_row_for (b : new_block) (t : tables) (r : block_row) : Prop :=
  b_index r = nb_index b /\ b_time r = nb_time b
  /\ names (index_transactions t) (b_hash_id r) (nb_hash b)
  /\ names (index_transactions t) (b_previous_id r) (nb_previous_hash b).

Lemma steps_insertBlock b (J : tables -> Prop) :
  (forall t r, block_row_for b t r -> b_index r ∉ map b_index (blocks t) -> I t ->
     J (with_blocks (fun l => l ++ [r]) t)) ->
  steps T I Undone (insertBlock b) negb (fun _ => J).
Proof.
  intros HJ. unfold insertBlock. apply txn_bind; [apply txn_getConnection|intros _].
  eapply steps_try.
  - eapply steps_bind; [apply txn_soft, steps_createTransaction|intros h].
    eapply steps_bind; [apply txn_soft, steps_createTransaction|intros p].
    eapply (steps_bind _ _ _ _ (fun _ => J)); [|intros []; by apply txn_ret]. apply steps_insert.
    intros t Hc [[Ht Hh] Hp]. apply HJ; [done|exact (no_conflict_new _ _ Hc)|done].
  - intros err. by apply txn_end_ret; [apply txn_rollback_open|].
Qed.
End Rows.

#[export] Hint Resolve txn_getAddressId txn_createAddress txn_createTransaction txn_hasPubkey
  txn_insertPubkey txn_insertEvent : txn.

(** ** Beginning and committing *)

Definition same_state (w w' : world) : Prop :=
  live w' = live w /\ begun w' = begun w
  /\ transactionConnection w' = transactionConnection w /\ transactionLock w' = transactionLock w.

(** Acquiring a pooled connection changes nothing but the pending outcomes. *)
Lemma connect_same n w :
  match connect n w with (Blocked, _) => False | (_, w') => same_state w w' end.
Proof.
  revert w. induction n as [|n IH]; intros w; simpl; [done|].
  unfold try_catch, query, query_with. destruct (faults w) as [|[f|] fs]; [done| |done].
  simpl. destruct (fault_lands f); apply (IH (with_faults fs w)).
Qed.

Section Boundaries.
Context {T : tables}.

Lemma idle_same w w' : idle T w -> same_state w w' -> idle T w'.
Proof. unfold idle. intros (?&?&?&?) (->&->&->&->). done. Qed.

(** The failure path of [beginTransaction] frees whatever it holds. *)
Lemma begin_failure e w :
  live w = T -> begun w = None \/ (begun w = Some T /\ transactionConnection w = true) ->
  exists w', (releaseTransactionConnectionQuietly;; releaseTransactionLock;;
              throw e : M unit) w = (Throw e, w') /\ idle T w'.
Proof.
  intros Hl Hb. unfold releaseTransactionConnectionQuietly, releaseTransactionLock, modify,
    state, mbind, M_bind, throw.
  destruct (transactionConnection w) eqn:Hc; eexists; (split; [done|]); unfold idle; simpl.
  - destruct Hb as [Hb|[Hb _]]; rewrite Hb; simpl; auto.
  - destruct Hb as [Hb|[_ ?]]; [auto|done].
Qed.

Lemma beginTransaction_spec w :
  idle T w ->
  match beginTransaction w with
  | (Ret _, w') => open_on T w' /\ live w' = T
  | (Throw _, w') => idle T w'
  | (Blocked, _) => False
  end.
Proof.
  intros (Hl & Hb & Hc & Hk). unfold beginTransaction, acquireTransactionLock.
  unfold mbind at 1, M_bind at 1. rewrite Hk. unfold try_catch.
  set (w1 := with_lock true w).
  unfold mbind at 1, M_bind at 1, state. change (transactionConnection w1) with
    (transactionConnection w). rewrite Hc.
  unfold mbind at 1, M_bind at 1, mret, M_ret.
  assert (Hg : getConnection w1 = connect MAX_CONNECTION_ATTEMPTS w1).
  { unfold getConnection, mbind, M_bind, state.
    change (transactionConnection w1) with (transactionConnection w). by rewrite Hc. }
  unfold mbind at 1, M_bind at 1. rewrite Hg.
  pose proof (connect_same MAX_CONNECTION_ATTEMPTS w1) as Hs.
  destruct (connect MAX_CONNECTION_ATTEMPTS w1) as [[[]|e|] w2]; [| |done];
    destruct Hs as (H1 & H2 & H3 & H4); simpl in H1, H2, H3, H4.
  - unfold mbind, M_bind, modify, query, query_with.
    change (faults (with_connection true w2)) with (faults w2).
    assert (Hopen : forall fs, open_on T (begin_on_server (with_faults fs (with_connection true w2)))).
    { intros fs. unfold open_on. simpl. by rewrite H1, Hl. }
    destruct (faults w2) as [|[f|] fs] eqn:Hf.
    + simpl. unfold open_on. simpl. by rewrite H1, Hl.
    + destruct (begin_failure (fault_error f)
        (if fault_lands f then begin_on_server (with_faults fs (with_connection true w2))
         else with_faults fs (with_connection true w2))) as (w3 & E & Hi).
      * destruct (fault_lands f); simpl; congruence.
      * destruct (fault_lands f); simpl; [right|left]; [split; [congruence|done]|congruence].
      * unfold mbind, M_bind in E. cbn [snd].
        destruct (fault_lands f); cbn in E |- *; by rewrite E.
    + simpl. split; [apply (Hopen fs)|congruence].
  - destruct (begin_failure e w2) as (w3 & E & Hi); [congruence|left; congruence|].
    unfold mbind, M_bind in E |- *. by rewrite E.
Qed.

(** A commit that reports failure may still have landed; nothing in between. *)
Lemma commitTransaction_spec w :
  open_on T w ->
  match commitTransaction w with
  | (Ret true, w') => idle (live w) w'
  | (Ret false, w') => idle T w' \/ idle (live w) w'
  | _ => False
  end.
Proof.
  intros Hw.
  assert (Hfail : forall C v, (C = T /\ open_on T v)
      \/ (live v = C /\ begun v = None /\ transactionConnection v = true) ->
    exists v', (try_catch endTransaction (fun _ => mret tt);; mret false : M bool) v
               = (Ret false, v') /\ idle C v').
  { intros C v Hv. unfold mbind, M_bind, try_catch. unfold endTransaction, finally.
    unfold mbind at 1, M_bind at 1, state.
    assert (transactionConnection v = true) as -> by (destruct Hv as [[_ (?&?&?)]|(?&?&?)]; done).
    assert (Hr : match rollback v with
      | (Blocked, _) => False
      | (_, v') => (live v' = C /\ begun v' = None /\ transactionConnection v' = true)
                   \/ (C = T /\ open_on T v') end).
    { destruct Hv as [[-> Hv]|(H1 & H2 & H3)].
      - pose proof (rollback_open_on v Hv) as Hr.
        destruct (rollback v) as [[[]|e|] v']; [by left| |done]. destruct Hr; auto.
      - unfold rollback, query, query_with. destruct (faults v) as [|[f|] fs]; simpl; rewrite ?H2; simpl.
        + by left.
        + destruct (fault_lands f); simpl; rewrite ?H2; by left.
        + by left. }
    assert (Hrel : forall v', (live v' = C /\ begun v' = None /\ transactionConnection v' = true)
                   \/ (C = T /\ open_on T v') ->
      exists v'', (releaseTransactionConnectionQuietly;; releaseTransactionLock) v'
                  = (Ret tt, v'') /\ idle C v'').
    { intros v' [Hv'|[-> Hv']]; apply release_idle; auto. }
    destruct (rollback v) as [[[]|e|] v']; [| |done];
      destruct (Hrel v' Hr) as (v'' & -> & Hi); by exists v''. }
  unfold commitTransaction, state. unfold mbind at 1, M_bind at 1.
  rewrite (proj1 (proj2 Hw)). unfold try_catch.
  unfold mbind at 1, M_bind at 1, query at 1, query_with at 1.
  assert (Hdone : forall v, live v = live w -> begun v = None -> transactionConnection v = true ->
    match (match (query (fun w => inr (tt, w));; modify (with_connection false);;
                  releaseTransactionLock;; mret true : M bool) v with
           | (Throw _, w') => (try_catch endTransaction (fun _ => mret tt);; mret false) w'
           | r => r end) with
    | (Ret true, w') => idle (live w) w'
    | (Ret false, w') => idle T w' \/ idle (live w) w'
    | _ => False
    end).
  { intros v H1 H2 H3. unfold mbind at 1, M_bind at 1, query, query_with.
    destruct (faults v) as [|[f|] fs]; simpl.
    - unfold idle. simpl. by rewrite H1, H2.
    - assert (transactionConnection (with_faults fs v) = true) by done.
      destruct (Hfail (live w) (with_faults fs v)) as (v' & E & Hi); [by right|].
      destruct (fault_lands f); simpl; rewrite E; by right.
    - unfold idle. simpl. by rewrite H1, H2. }
  destruct (faults w) as [|[f|] fs] eqn:Hf.
  - by apply Hdone; [..|apply Hw].
  - cbn [snd].
    destruct (Hfail (if fault_lands f then live w else T)
      (if fault_lands f then commit_on_server (with_faults fs w) else with_faults fs w))
      as (v' & E & Hi).
    { destruct (fault_lands f); [right|left]; [|by split]. by destruct Hw as (?&?&?). }
    unfold try_catch in E. destruct (fault_lands f); rewrite E; [by right|by left].
  - by apply Hdone; [..|apply Hw].
Qed.

(** [m] succeeds with exactly the write [f], or throws with the transaction open. *)
Definition computes (m : M unit) (f : tables -> tables) : Prop :=
  forall w, open_on T w ->
    match m w with
    | (Ret _, w') => open_on T w' /\ live w' = f (live w)
    | (Throw _, w') => open_on T w'
    | (Blocked, _) => False
    end.

Lemma computes_update f : computes (update f) f.
Proof.
  intros w Hw. unfold update, query_with.
  destruct (faults w) as [|[x|] fs]; simpl; [by split| |by split].
  destruct (negb _); [|by split]. destruct (fault_lands x); done.
Qed.

Lemma computes_ret : computes (mret tt) id.
Proof. intros w Hw. by split. Qed.

Lemma computes_seq m m' f g :
  computes m f -> computes m' g -> computes (m;; m') (fun t => g (f t)).
Proof.
  intros Hm Hm' w Hw. specialize (Hm w Hw). unfold mbind, M_bind.
  destruct (m w) as [[[]|e|] w1]; [|done|done]. destruct Hm as [Hw1 E].
  specialize (Hm' w1 Hw1). destruct (m' w1) as [[[]|e|] w2]; [|done|done].
  destruct Hm' as [Hw2 ->]. by rewrite E.
Qed.
End Boundaries.
