(* ===== verification/Idle.v ===== *)
(** * Outside the block transaction

    A logic for code that runs on single statements, with no transaction open:
    [brings P m F E] says that [m], started idle on tables in [P], never waits on the
    lock, returns [a] idle on tables in [F a], and throws idle on tables in [E].  [rests]
    is the case of a kept invariant. *)
From S2P Require Import Prelude JsNum Db DbRows Atomic.
#[local] Open Scope Z_scope.

Definition idle_in (P : tables -> Prop) (w : world) : Prop := exists t, P t /\ idle t w.

Definition brings {A} (P : tables -> Prop) (m : M A) (F : A -> tables -> Prop)
    (E : tables -> Prop) : Prop :=
  forall w, idle_in P w ->
    match m w with
    | (Ret a, w') => idle_in (F a) w'
    | (Throw _, w') => idle_in E w'
    | (Blocked, _) => False
    end.

Abbreviation rests P m := (brings P%function m (fun _ => P%function) P%function).

Lemma idle_in_impl (P Q : tables -> Prop) w :
  idle_in P w -> (forall t, P t -> Q t) -> idle_in Q w.
Proof. intros (t & Ht & Hi) H. exists t. auto. Qed.

Section Brings.
Context {P : tables -> Prop}.

Lemma brings_ret {A} (a : A) (F : A -> tables -> Prop) E :
  (forall t, P t -> F a t) -> brings P (mret a) F E.
Proof. intros H w Hw. by eapply idle_in_impl. Qed.

Lemma brings_throw {A} e (F : A -> tables -> Prop) (E : tables -> Prop) :
  (forall t, P t -> E t) -> brings P (throw e) F E.
Proof. intros H w Hw. by eapply idle_in_impl. Qed.

Lemma brings_conseq {A} (m : M A) (P' : tables -> Prop) F F' (E E' : tables -> Prop) :
  brings P' m F' E' -> (forall t, P t -> P' t) -> (forall a t, F' a t -> F a t) ->
  (forall t, E' t -> E t) -> brings P m F E.
Proof.
  intros Hm H1 H2 H3 w Hw. specialize (Hm w (idle_in_impl _ _ _ Hw H1)).
  destruct (m w) as [[a|e|] w']; [..|done]; (eapply idle_in_impl; [exact Hm|auto]).
Qed.

Lemma brings_weaken {A} (m : M A) (P' : tables -> Prop) F E :
  brings P' m F E -> (forall t, P t -> P' t) -> brings P m F E.
Proof. intros Hm H. by eapply brings_conseq. Qed.

Lemma brings_bind {A B} (m : M A) (k : A -> M B) K F E :
  brings P m K E -> (forall a, brings (K a) (k a) F E) -> brings P (m ≫= k) F E.
Proof.
  intros Hm Hk w Hw. specialize (Hm w Hw). unfold mbind, M_bind.
  destruct (m w) as [[a|e|] w']; [by apply Hk|done|done].
Qed.

Lemma brings_pass {A} (m : M A) F E : brings P m F E -> brings P (mret tt;; m) F E.
Proof. done. Qed.

Lemma brings_try {A} (m : M A) h F E E' :
  brings P m F E' -> (forall e, brings E' (h e) F E) -> brings P (try_catch m h) F E.
Proof.
  intros Hm Hh w Hw. specialize (Hm w Hw). unfold try_catch.
  destruct (m w) as [[a|e|] w']; [done|by apply Hh|done].
Qed.

(** A statement that leaves [Q] when it takes effect. *)
Lemma brings_query_with {A} adm (stmt : world -> jserror + (A * world)) F
    (E : tables -> Prop) :
  (forall w a w', stmt w = inr (a, w') -> idle_in P w -> idle_in (F a) w') ->
  (forall t, P t -> E t) -> (forall a t, F a t -> E t) ->
  brings P (query_with adm stmt) F E.
Proof.
  intros Hs HP HF w Hw.
  assert (HE : idle_in E w) by (by eapply idle_in_impl).
  assert (Hrun : forall fs, match stmt (with_faults fs w) with
    | inl _ => True | inr (a, w') => idle_in (F a) w' end).
  { intros fs. destruct (stmt _) as [e|[a w']] eqn:Es; [done|]. by eapply Hs. }
  unfold query_with. destruct (faults w) as [|[f|] fs] eqn:Ef.
  - destruct (stmt w) as [e|[a w']] eqn:Es; [done|]. by eapply Hs.
  - specialize (Hrun fs).
    destruct (stmt (with_faults fs w)) as [e|[a w']]; destruct (adm _), (fault_lands f);
      simpl; try done; by (eapply idle_in_impl; [exact Hrun|eauto]).
  - specialize (Hrun fs). by destruct (stmt _) as [e|[a w']].
Qed.

Lemma brings_select {A} (f : tables -> A) :
  brings P (select f) (fun a t => P t /\ a = f t) P.
Proof.
  apply brings_query_with; [|done|by intros a t [? _]].
  intros w a w' [= <- <-] (t & Ht & Hi). exists t. split; [|done].
  by destruct Hi as (-> & _).
Qed.

Lemma brings_update f (Q E : tables -> Prop) :
  (forall t, P t -> Q (f t)) -> (forall t, P t -> E t) -> (forall t, Q t -> E t) ->
  brings P (update f) (fun _ => Q) E.
Proof.
  intros Hf HP HQ. apply brings_query_with; [|done|by auto].
  intros w u w' [= <- <-] (t & Ht & Hi).
  exists (f t). split; [by apply Hf|]. destruct Hi as (<- & ?). done.
Qed.

Lemma rests_getConnection : rests P getConnection.
Proof.
  intros w (t & Ht & Hl & Hb & Hc & Hk). unfold getConnection, state, mbind, M_bind.
  rewrite Hc. pose proof (connect_same MAX_CONNECTION_ATTEMPTS w) as Hs.
  destruct (connect _ w) as [[[]|e|] w']; [..|done]; destruct Hs as (H1 & H2 & H3 & H4);
    (exists t; split; [done|]); unfold idle; repeat split; congruence.
Qed.

Lemma brings_read_retrying {A} n name (f : tables -> A) :
  brings P (read_retrying n name f) (fun a t => P t /\ a = f t) P.
Proof.
  induction n as [|n IH]; simpl; [by apply brings_throw|].
  apply (brings_bind _ _ (fun _ => P)); [apply rests_getConnection|intros _].
  apply (brings_try _ _ _ _ P); [apply brings_select|done].
Qed.

(** ** Kept invariants *)

Lemma rests_ret {A} (a : A) : rests P (mret a).
Proof. by apply brings_ret. Qed.

Lemma rests_throw {A} e : rests P (throw (A := A) e).
Proof. by apply brings_throw. Qed.

Lemma rests_count f : rests P (count f).
Proof. intros w Hw. exact Hw. Qed.

Lemma rests_bind {A B} (m : M A) (k : A -> M B) :
  rests P m -> (forall a, rests P (k a)) -> rests P (m ≫= k).
Proof. apply brings_bind. Qed.

Lemma rests_try {A} (m : M A) h :
  rests P m -> (forall e, rests P (h e)) -> rests P (try_catch m h).
Proof. apply brings_try. Qed.

Lemma rests_select {A} (f : tables -> A) : rests P (select f).
Proof. eapply brings_conseq; [apply brings_select|done|by intros a t [? _]|done]. Qed.

Lemma rests_update f : Closed P f -> rests P (update f).
Proof. intros Hf. by apply brings_update. Qed.

Lemma rests_rollback_open : rests P rollback_open.
Proof.
  intros w (t & Ht & Hi). unfold rollback_open, state, mbind, M_bind.
  pose proof Hi as (_ & _ & -> & _). exists t. by split.
Qed.

Lemma rests_read_retrying {A} n name (f : tables -> A) : rests P (read_retrying n name f).
Proof. eapply brings_conseq; [apply brings_read_retrying|done|by intros a t [? _]|done]. Qed.
End Brings.
