(* ===== verification/Dispensers.v ===== *)
(** * The dispensers table

    src/src/db/dispensers.js and dispenser_queries.js: registering a dispenser,
    extending the open rows of a source, the oracle addresses of a source, the set of
    addresses whose payments are captured, soft expiry and the purge. *)
From Stdlib Require Import QArith.QArith_base.
From S2P Require Import Prelude JsNum Activation Config Collapse DispenserCommand Db DbRows.
From S2P Require Import Atomic.
#[local] Open Scope Z_scope.

Section Dispensers.
Context {Coll : Collation}.

(** ** Registration *)

Record open_dispenser := OpenDispenser {
  od_txIndex : Z; od_address : option jstr; od_sourceAddress : option jstr;
  od_oracleAddress : option jstr; od_expiration : Z
}.

(** PRIMARY KEY (tx_index, address_id): not null, and unique. *)
Definition dispenser_conflict (txIndex : Z) (addressId : option Z) (t : tables) : option Z :=
  match addressId with
  | None => Some BAD_NULL
  | Some id =>
      if existsb (fun d => (d_tx_index d =? txIndex) && (d_address_id d =? id)) (dispensers t)
      then Some DUPLICATE_KEY else None
  end.

Definition insertDispenserRow (openDispenser : open_dispenser) : M unit :=
  let txIndex := od_txIndex openDispenser in
  addressId ← createAddress (od_address openDispenser);
  oracleAddressId ← (match truthy (od_oracleAddress openDispenser) with
                     | Some o => createAddress (Some o)
                     | None => mret None
                     end);
  sourceAddressId ← (match truthy (od_sourceAddress openDispenser) with
                     | Some s => if bool_decide (Some s = od_address openDispenser)
                                 then mret None else createAddress (Some s)
                     | None => mret None
                     end);
  insert (dispenser_conflict txIndex addressId)
    (with_dispensers (fun l => l ++ [DispenserRow txIndex (default 0 addressId)
       (od_expiration openDispenser) oracleAddressId sourceAddressId None])).

Definition insertDispenser (openDispenser : open_dispenser) : M insert_result :=
  getConnection;;
  try_catch (insertDispenserRow openDispenser;; mret Inserted) insert_failure.

(** ** Rows of a source

    [address_id = (SELECT id ...) OR source_address_id = (SELECT id ...)]: an
    unknown source has no id and matches no row. *)

Definition source_id_of (sourceAddress : jstr) (t : tables) : option Z :=
  id_of sourceAddress (index_addresses t).

Definition of_source (sid : option Z) (d : dispenser_row) : bool :=
  match sid with
  | None => false
  | Some i => (d_address_id d =? i)
              || match d_source_id d with Some s => s =? i | None => false end
  end.

Definition is_open (d : dispenser_row) : bool :=
  match d_expired d with None => true | Some _ => false end.

Definition open_or_expired_at (blockIndex : Z) (d : dispenser_row) : bool :=
  match d_expired d with None => true | Some h => h =? blockIndex end.

(** ** Extension *)

Definition extend_row (newExpiration blockIndex : Z) (d : dispenser_row) : dispenser_row :=
  DispenserRow (d_tx_index d) (d_address_id d) (Z.max (d_expiration d) newExpiration)
    (d_oracle_id d) (d_source_id d)
    (match d_expired d with
     | Some h => if h =? blockIndex then None else Some h
     | None => None
     end).

Definition extend_rows (sourceAddress : jstr) (newExpiration blockIndex : Z) (t : tables)
  : tables :=
  let sid := source_id_of sourceAddress t in
  with_dispensers (map (fun d =>
    if of_source sid d && open_or_expired_at blockIndex d
    then extend_row newExpiration blockIndex d else d)) t.

(** [true] or [false]: [false] after a rollback. *)
Definition ok_or_rollback (m : M unit) : M bool :=
  getConnection;;
  try_catch (m;; mret true) (fun _ => rollback_open;; mret false).

Definition extendOpenDispenserExpirationBySource (sourceAddress : jstr)
    (newExpiration blockIndex : Z) : M bool :=
  ok_or_rollback (update (extend_rows sourceAddress newExpiration blockIndex)).

(** [INSERT IGNORE ... SELECT]: a row already recorded for the block stays. *)
Definition has_undo (u : undo_row) (l : list undo_row) : bool :=
  existsb (fun x => (u_block x =? u_block u) && (u_tx_index x =? u_tx_index u)
                    && (u_address_id x =? u_address_id u)) l.

Definition add_undo (l : list undo_row) (u : undo_row) : list undo_row :=
  if has_undo u l then l else l ++ [u].

Definition undo_of (blockIndex : Z) (d : dispenser_row) : undo_row :=
  UndoRow blockIndex (d_tx_index d) (d_address_id d) (d_expiration d) (d_expired d).

Definition record_undo (sourceAddress : jstr) (blockIndex : Z) (t : tables) : tables :=
  let sid := source_id_of sourceAddress t in
  let rows := List.filter (fun d => of_source sid d && open_or_expired_at blockIndex d)
                (dispensers t) in
  with_undo (fun l => foldl add_undo l (map (undo_of blockIndex) rows)) t.

Definition recordDispenserExtensionUndo (sourceAddress : jstr) (blockIndex : Z) : M bool :=
  ok_or_rollback (update (record_undo sourceAddress blockIndex)).

(** ** Oracle addresses of a source *)

Definition address_by_id (id : option Z) (t : tables) : option jstr :=
  hash_by_id id (index_addresses t).

(** The rows the two queries join: open, of the source, naming an oracle. *)
Definition oracle_rows (sourceAddress : jstr) (t : tables) : list (dispenser_row * jstr) :=
  let sid := source_id_of sourceAddress t in
  omap (fun d => if of_source sid d && is_open d
                 then (fun a => (d, a)) <$> address_by_id (d_oracle_id d) t else None)
    (dispensers t).

(** [ORDER BY (address_id = source) DESC, tx_index DESC LIMIT 1] *)
Definition ranks_before (sid : option Z) (a b : dispenser_row) : bool :=
  let direct d := match sid with Some i => d_address_id d =? i | None => false end in
  match direct a, direct b with
  | true, false => true
  | false, true => false
  | _, _ => d_tx_index b <? d_tx_index a
  end.

Fixpoint top_ranked (sid : option Z) (best : option (dispenser_row * jstr))
    (l : list (dispenser_row * jstr)) : option (dispenser_row * jstr) :=
  match l with
  | [] => best
  | r :: l' =>
      top_ranked sid (match best with
                      | Some b => if ranks_before sid r.1 b.1 then Some r else best
                      | None => Some r
                      end) l'
  end.

(** [None] is [false], the fault; [Some None] is [null]. *)
Definition getOpenDispenserOracleAddressBySource (sourceAddress : jstr)
  : M (option (option jstr)) :=
  getConnection;;
  try_catch
    (r ← select (fun t =>
           truthy (snd <$> top_ranked (source_id_of sourceAddress t) None
                             (oracle_rows sourceAddress t)));
     mret (Some r))
    (fun _ => rollback_open;; mret None).

(** [SELECT DISTINCT ... ORDER BY address]: the collation identifies and orders. *)
Fixpoint key_le (a b : list Z) : bool :=
  match a, b with
  | [], _ => true
  | _ :: _, [] => false
  | x :: a', y :: b' => (x <? y) || ((x =? y) && key_le a' b')
  end.

Fixpoint insert_distinct (s : jstr) (l : list jstr) : list jstr :=
  match l with
  | [] => [s]
  | x :: l' => if same_text s x then l
               else if key_le (collate s) (collate x) then s :: l
               else x :: insert_distinct s l'
  end.

Definition distinct_sorted (l : list jstr) : list jstr := foldr insert_distinct [] l.

Definition getOpenDispenserOracleAddressesBySource (sourceAddress : jstr)
  : M (option (list jstr)) :=
  getConnection;;
  try_catch
    (r ← select (fun t =>
           omap (fun a => truthy (Some a))
             (distinct_sorted (map snd (oracle_rows sourceAddress t))));
     mret (Some r))
    (fun _ => rollback_open;; mret None).

(** ** The capture set *)

(** [floor] as [typeof floor === 'number' && Number.isFinite(floor)] reads it. *)
Definition active_floor (graceFloor : option num) : option Q :=
  match graceFloor with Some (Fin q) => Some q | _ => None end.

Definition block_time_of (h : option Z) (t : tables) : option Z :=
  match h with
  | None => None
  | Some i => find (fun b => b_index b =? i) (blocks t) ≫= b_time
  end.

Definition time_at_least (time : option Z) (q : Q) : bool :=
  match time with Some z => Qge (Qz z) q | None => false end.

(** The WHERE clause of the capture query. *)
Definition captured (graceFloor : option num) (t : tables) (d : dispenser_row) : bool :=
  match active_floor graceFloor with
  | None => is_open d
  | Some floor =>
      is_open d || time_at_least (block_time_of (d_expired d) t) floor
      || Qge (Qz (d_expiration d)) floor
  end.

Definition captured_addresses (graceFloor : option num) (t : tables) : gset jstr :=
  list_to_set (omap (fun d => address_by_id (Some (d_address_id d)) t)
                 (List.filter (captured graceFloor t) (dispensers t))).

(** [None] is [null], the fault. *)
Definition getAllOpenDispenserAddresses (graceFloor : option num) : M (option (gset jstr)) :=
  getConnection;;
  try_catch (r ← select (captured_addresses graceFloor); mret (Some r))
    (fun _ => mret None).

(** ** Expiry and purge *)

(** [expiration < ?]: [NULL] compares to nothing. *)
Definition expired_before (minExpiration : option Z) (d : dispenser_row) : bool :=
  match minExpiration with Some m => d_expiration d <? m | None => false end.

Definition expire_row (blockIndex : Z) (minExpiration : option Z) (d : dispenser_row)
  : dispenser_row :=
  if expired_before minExpiration d && is_open d
  then DispenserRow (d_tx_index d) (d_address_id d) (d_expiration d) (d_oracle_id d)
         (d_source_id d) (Some blockIndex)
  else d.

Definition expire_rows (blockIndex : Z) (minExpiration : option Z) : tables -> tables :=
  with_dispensers (map (expire_row blockIndex minExpiration)).

Definition deleteOpenDispensers (blockIndex : Z) (minExpiration : option Z)
  : M insert_result :=
  getConnection;;
  try_catch (update (expire_rows blockIndex minExpiration);; mret Inserted) insert_failure.

Definition time_below_or_null (time : option Z) (q : Q) : bool :=
  match time with Some z => negb (Qge (Qz z) q) | None => true end.

Definition purgeable (safeHeight : Z) (graceFloor : option num) (t : tables)
    (d : dispenser_row) : bool :=
  match d_expired d with
  | None => false
  | Some h =>
      (h <=? safeHeight)
      && match active_floor graceFloor with
         | None => true
         | Some floor => negb (Qge (Qz (d_expiration d)) floor)
                         && time_below_or_null (block_time_of (Some h) t) floor
         end
  end.

Definition purge_rows (safeHeight : Z) (graceFloor : option num) (t : tables) : tables :=
  with_dispensers (List.filter (fun d => negb (purgeable safeHeight graceFloor t d))) t.

Definition purgeExpiredDispensers (safeHeight : Z) (graceFloor : option num) : M bool :=
  if safeHeight <? 0 then mret true
  else
    ok_or_rollback
      (update (purge_rows safeHeight graceFloor);;
       update (with_undo (List.filter (fun u => negb (u_block u <=? safeHeight))))).

(** ** The transaction discipline *)

Section Discipline.
Context {T : tables} {I : tables -> Prop}.

Lemma txn_insertDispenser o `{!Interning I} :
  (forall d, d_tx_index d = od_txIndex o -> d_expired d = None ->
     Closed I (with_dispensers (fun l => l ++ [d]))) ->
  txn T I true (insertDispenser o) ends_insert.
Proof.
  intros HD. unfold insertDispenser. apply txn_bind; [apply txn_getConnection|intros _].
  apply txn_try; [|apply txn_insert_failure].
  apply txn_bind; [|intros _; by apply txn_ret].
  unfold insertDispenserRow. apply txn_bind; [apply txn_createAddress|intros a].
  apply txn_bind; [case_match; [apply txn_createAddress|by apply txn_ret]|intros b].
  apply txn_bind; [|intros c; apply txn_insert; intros t _; by apply HD].
  repeat case_match; first [apply txn_createAddress|by apply txn_ret].
Qed.

Lemma steps_ok_or_rollback m J :
  steps T I (Still (fun _ => True)) m stays (fun _ => J) ->
  steps T I Undone (ok_or_rollback m) negb (fun _ => J).
Proof.
  intros Hm. unfold ok_or_rollback. apply txn_bind; [apply txn_getConnection|intros _].
  eapply steps_try; [|intros _; by apply txn_end_ret; [apply txn_rollback_open|]].
  eapply steps_bind; [exact Hm|intros []]. by apply txn_ret.
Qed.

Lemma steps_extend s e b (J : tables -> Prop) :
  (forall t, I t -> J (extend_rows s e b t)) ->
  steps T I Undone (extendOpenDispenserExpirationBySource s e b) negb (fun _ => J).
Proof. intros HJ. by apply steps_ok_or_rollback, steps_update. Qed.

Lemma steps_recordUndo s b (J : tables -> Prop) :
  (forall t, I t -> J (record_undo s b t)) ->
  steps T I Undone (recordDispenserExtensionUndo s b) negb (fun _ => J).
Proof. intros HJ. by apply steps_ok_or_rollback, steps_update. Qed.

Lemma steps_deleteOpenDispensers b m (J : tables -> Prop) :
  (forall t, I t -> J (expire_rows b m t)) ->
  steps T I Undone (deleteOpenDispensers b m) (fun r => negb (bool_decide (r = Inserted)))
    (fun _ => J).
Proof.
  intros HJ. unfold deleteOpenDispensers. apply txn_bind; [apply txn_getConnection|intros _].
  intros w Hw. pose proof (steps_update_insert _ J HJ w Hw) as Hu.
  destruct (try_catch _ _ w) as [[[| | |]|e|] w']; simpl in *; try done; by destruct Hu as [? []].
Qed.

Definition ends_none {A} (r : option A) : bool := match r with None => true | _ => false end.

Lemma txn_oracleBySource s :
  txn T I true (getOpenDispenserOracleAddressBySource s) ends_none.
Proof.
  unfold getOpenDispenserOracleAddressBySource.
  apply txn_bind; [apply txn_getConnection|intros _].
  apply txn_try; [|intros _; by apply txn_end_ret; [apply txn_rollback_open|]].
  apply txn_bind; [apply txn_select|intros r]. by apply txn_ret.
Qed.

Lemma txn_oraclesBySource s :
  txn T I true (getOpenDispenserOracleAddressesBySource s) ends_none.
Proof.
  unfold getOpenDispenserOracleAddressesBySource.
  apply txn_bind; [apply txn_getConnection|intros _].
  apply txn_try; [|intros _; by apply txn_end_ret; [apply txn_rollback_open|]].
  apply txn_bind; [apply txn_select|intros r]. by apply txn_ret.
Qed.

(** The open addresses are read from the tables at hand. *)
Lemma steps_getAllOpen f :
  steps T I Undone (getAllOpenDispenserAddresses f) stays
    (fun r t => I t /\ forall s, r = Some s -> s = captured_addresses f t).
Proof.
  unfold getAllOpenDispenserAddresses.
  apply txn_bind; [apply txn_getConnection|intros _].
  apply txn_try; [|intros _; by apply txn_ret].
  eapply steps_bind; [apply steps_select|intros r]. apply txn_ret; [done|].
  intros t [Ht ->]. split; [done|]. by intros s [= <-].
Qed.
End Discipline.
End Dispensers.

#[export] Hint Resolve txn_oracleBySource txn_oraclesBySource : txn.
