(* ===== verification/DispenserReorg.v ===== *)
(** * Dispenser lifecycle and reorgs

    How the table operations of Dispensers.v fit together: an extension only ever
    widens the capture set, the purge only drops rows no later block can capture, and
    the removal of a block by a reorg (deleteBlockByIndex) is the exact inverse of
    everything a block may have done to the consensus tables. *)
From Stdlib Require Import QArith.QArith_base.
From S2P Require Import Prelude JsNum Activation Config Collapse DispenserCommand Db DbRows.
From S2P Require Import Atomic Dispensers.
#[local] Open Scope Z_scope.

(** ** The writes of one block

    Each constructor is one statement of the block loop, on the tables it writes. *)
Inductive block_write :=
  | WAddress (row : Z * jstr)
  | WHash (row : Z * jstr)
  | WPubkey (addressId : Z) (pubkey : jstr)
  | WEvent (e : event_row)
  | WBlock (previous : option Z) (hash : option Z) (time : option Z)
  | WTransaction (r : tx_row)
  | WOutput (r : output_row)
  | WRegister (d : dispenser_row)
  | WRecordUndo (sourceAddress : jstr)
  | WExtend (sourceAddress : jstr) (newExpiration : Z)
  | WExpire (minExpiration : option Z).

Section Writes.
Context {Coll : Collation} (b : Z).

Definition apply_write (s : block_write) (t : tables) : tables :=
  match s with
  | WAddress r => with_addresses (fun l => l ++ [r]) t
  | WHash r => with_hashes (fun l => l ++ [r]) t
  | WPubkey i k => insert_pubkey_row i k t
  | WEvent e => with_events (fun l => l ++ [e]) t
  | WBlock p h tm => with_blocks (fun l => l ++ [BlockRow b tm h p]) t
  | WTransaction r => with_transactions (fun l => l ++ [r]) t
  | WOutput r => with_outputs (fun l => l ++ [r]) t
  | WRegister d => with_dispensers (fun l => l ++ [d]) t
  | WRecordUndo s => record_undo s b t
  | WExtend s e => extend_rows s e b t
  | WExpire m => expire_rows b m t
  end.

(** What the code guarantees of each write: rows carry the block's height, the
    blocks row is the first of its height, and child rows a tx_index of a transaction this block already inserted.  An extension is
    preceded by its pre-image capture ([recorded]). *)
Definition recorded (s : jstr) (t : tables) : Prop :=
  forall d, d ∈ dispensers t ->
    of_source (source_id_of s t) d = true -> open_or_expired_at b d = true ->
    has_undo (undo_of b d) (dispenser_extension_undo t) = true.

Definition write_ok (s : block_write) (t : tables) : Prop :=
  match s with
  | WBlock _ _ _ => b ∉ map b_index (blocks t)
  | WTransaction r => t_block r = b /\ t_index r ∉ map t_index (transactions t)
  | WOutput r => o_tx_index r ∈ tx_indexes_of b t
  | WRegister d =>
      d_tx_index d ∈ tx_indexes_of b t /\ d_expired d = None
  | WExtend s _ => recorded s t
  | _ => True
  end.

Lemma has_undo_add u v l : has_undo u l = true -> has_undo u (add_undo l v) = true.
Proof.
  unfold add_undo. destruct (has_undo v l); [done|]. unfold has_undo.
  intros H. by rewrite existsb_app, H.
Qed.

Lemma has_undo_foldl us u l :
  has_undo u l = true \/ u ∈ us -> has_undo u (foldl add_undo l us) = true.
Proof.
  revert l. induction us as [|v us IH]; intros l H; simpl.
  { destruct H as [H|H]; [done|by apply not_elem_of_nil in H]. }
  apply IH. destruct H as [H|H]; [left; by apply has_undo_add|].
  apply elem_of_cons in H as [<-|H]; [left|by right].
  unfold add_undo. destruct (has_undo u l) eqn:E; [done|].
  unfold has_undo. rewrite existsb_app. simpl. rewrite !Z.eqb_refl. apply orb_true_r.
Qed.

Lemma record_undo_recorded s t : recorded s (record_undo s b t).
Proof.
  intros d Hd Hs Ho. cbn [record_undo with_undo dispenser_extension_undo].
  apply has_undo_foldl. right. apply list_elem_of_fmap. exists d. split; [done|].
  apply list_elem_of_In, filter_In. split; [by apply list_elem_of_In|].
  apply andb_true_intro. split; [exact Hs|exact Ho].
Qed.

(** The tables a block may leave, from the tables it started on. *)
Inductive block_writes (t : tables) : tables -> Prop :=
  | writes_none : block_writes t t
  | writes_step t' s : block_writes t t' -> write_ok s t' -> block_writes t (apply_write s t').

(** deleteBlockByIndex, on the tables. *)
Definition delete_block_tables (reorgBlockHash : option jstr) (t : tables) : tables :=
  let t1 := with_dispensers (map (restore_row b (dispenser_extension_undo t))) t in
  let t2 := with_undo (List.filter (fun u => negb (u_block u =? b))) t1 in
  let t3 := with_dispensers (map (unexpire b)) t2 in
  let t4 := delete_outputs_of b t3 in
  let t5 := delete_dispensers_of b t4 in
  let t6 := with_transactions (List.filter (fun r => negb (t_block r =? b))) t5 in
  let t7 := with_blocks (List.filter (fun x => negb (b_index x =? b))) t6 in
  match reorgBlockHash with
  | None => t7
  | Some h => with_events (fun l => l ++ [ReorgEvent b h]) t7
  end.

Definition key (d : dispenser_row) : Z * Z := (d_tx_index d, d_address_id d).

(** The tables before a block of height [b] is stored hold nothing of that height;
    the keys of the dispensers table are unique. *)
Definition before_block (t : tables) : Prop :=
  Forall (fun x => b_index x <> b) (blocks t)
  /\ Forall (fun r => t_block r <> b) (transactions t)
  /\ Forall (fun o => o_tx_index o ∈ map t_index (transactions t)) (transaction_outputs t)
  /\ Forall (fun d => d_tx_index d ∈ map t_index (transactions t) /\ d_expired d <> Some b)
       (dispensers t)
  /\ Forall (fun u => u_block u <> b) (dispenser_extension_undo t)
  /\ NoDup (map key (dispensers t)).

(** ** The relation an old row keeps with its original *)

Definition same_row (d0 d : dispenser_row) : Prop :=
  d_tx_index d = d_tx_index d0 /\ d_address_id d = d_address_id d0
  /\ d_oracle_id d = d_oracle_id d0 /\ d_source_id d = d_source_id d0.

Definition mark_ok (m0 m : option Z) : Prop := m = m0 \/ (m0 = None /\ m = Some b).

Definition tracks (undo : list undo_row) (d0 d : dispenser_row) : Prop :=
  same_row d0 d /\ mark_ok (d_expired d0) (d_expired d)
  /\ match undo_row_for b d undo with
     | None => d_expiration d = d_expiration d0
     | Some u => u_block u = b /\ u_prior_expiration u = d_expiration d0
                 /\ mark_ok (d_expired d0) (u_prior_expired u)
     end.

Lemma undo_row_for_key undo d d' :
  d_tx_index d = d_tx_index d' -> d_address_id d = d_address_id d' ->
  undo_row_for b d undo = undo_row_for b d' undo.
Proof. intros H1 H2. unfold undo_row_for. by rewrite H1, H2. Qed.

Lemma find_app {A} (f : A -> bool) l l' :
  find f (l ++ l') = match find f l with Some x => Some x | None => find f l' end.
Proof. induction l as [|x l IH]; simpl; [done|]. by destruct (f x). Qed.

Lemma has_undo_find d undo :
  has_undo (undo_of b d) undo = true <-> is_Some (undo_row_for b d undo).
Proof.
  unfold has_undo, undo_row_for. simpl. induction undo as [|u l IH]; simpl.
  { split; [done|]. by intros [? ?]. }
  destruct (_ && _ && _); simpl; [split; [by eexists|done]|done].
Qed.

Lemma undo_row_for_add d undo d' :
  undo_row_for b d (add_undo undo (undo_of b d'))
  = match undo_row_for b d undo with
    | Some u => Some u
    | None => if (d_tx_index d' =? d_tx_index d) && (d_address_id d' =? d_address_id d)
              then Some (undo_of b d') else None
    end.
Proof.
  unfold add_undo. destruct (has_undo (undo_of b d') undo) eqn:Hh.
  - destruct (undo_row_for b d undo) eqn:Hu; [done|].
    destruct (_ && _) eqn:E; [|done]. exfalso. b2p.
    apply has_undo_find in Hh as [u Hh].
    by rewrite (undo_row_for_key _ d' d), Hu in Hh.
  - unfold undo_row_for. rewrite find_app. destruct (find _ undo); [done|].
    simpl. by rewrite Z.eqb_refl.
Qed.

(** The undo row an old row ends up with after a whole batch of captures. *)
Lemma undo_row_for_batch d l undo :
  undo_row_for b d (foldl add_undo undo (map (undo_of b) l))
  = match undo_row_for b d undo with
    | Some u => Some u
    | None =>
        undo_of b <$> find (fun x => (d_tx_index x =? d_tx_index d)
                                     && (d_address_id x =? d_address_id d)) l
    end.
Proof.
  revert undo. induction l as [|d' l IH]; intros undo; simpl.
  { by destruct (undo_row_for b d undo). }
  rewrite IH, undo_row_for_add. destruct (undo_row_for b d undo); [done|].
  by destruct (_ && _).
Qed.

(** ** The shape a block leaves

    Old rows, each tracking its original, then rows of the block's own
    transactions. *)
Record block_shape (t t' : tables) : Prop := {
  shape_blocks : exists l, blocks t' = blocks t ++ l /\ Forall (fun x => b_index x = b) l;
  shape_txs : exists l, transactions t' = transactions t ++ l
              /\ Forall (fun r => t_block r = b) l
              /\ forall i, i ∈ map t_index l -> i ∉ map t_index (transactions t);
  shape_outputs : exists l, transaction_outputs t' = transaction_outputs t ++ l
              /\ Forall (fun o => o_tx_index o ∈ tx_indexes_of b t') l;
  shape_undo : exists l, dispenser_extension_undo t' = dispenser_extension_undo t ++ l
              /\ Forall (fun u => u_block u = b) l;
  shape_dispensers : exists olds news, dispensers t' = olds ++ news
              /\ Forall2 (tracks (dispenser_extension_undo t')) (dispensers t) olds
              /\ Forall (fun d => d_tx_index d ∈ tx_indexes_of b t') news
}.

Lemma tx_indexes_app t l :
  tx_indexes_of b (with_transactions (fun x => x ++ l) t)
  = tx_indexes_of b t ++ map t_index (List.filter (fun r => t_block r =? b) l).
Proof. unfold tx_indexes_of. simpl. by rewrite List.filter_app, map_app. Qed.

Lemma filter_none {A} (f : A -> bool) l :
  Forall (fun x => f x = false) l -> List.filter f l = [].
Proof. induction 1 as [|x l Hx _ IH]; simpl; [done|]. by rewrite Hx. Qed.

Lemma tx_indexes_new t t' :
  before_block t -> block_shape t t' ->
  forall i, i ∈ tx_indexes_of b t' -> i ∉ map t_index (transactions t).
Proof.
  intros (_ & Htx & _) Hs i. destruct (shape_txs _ _ Hs) as (l & E & Hl & Hf).
  unfold tx_indexes_of. rewrite E, List.filter_app, filter_none.
  - rewrite filter_all; [apply Hf|].
    eapply Forall_impl; [exact Hl|]. intros r ->. apply Z.eqb_refl.
  - eapply Forall_impl; [exact Htx|]. intros r Hr. by apply Z.eqb_neq.
Qed.

Lemma tracks_key undo t olds :
  Forall2 (tracks undo) t olds -> map key olds = map key t.
Proof.
  induction 1 as [|d0 d l l' Ht _ IH]; simpl; [done|].
  destruct Ht as ((H1 & H2 & _) & _). unfold key at 1 3. rewrite IH. by rewrite H1, H2.
Qed.

Definition key_is (d x : dispenser_row) : bool :=
  (d_tx_index x =? d_tx_index d) && (d_address_id x =? d_address_id d).

Lemma key_is_true d x : key_is d x = true <-> key x = key d.
Proof.
  unfold key_is, key. split.
  - intros H. b2p. congruence.
  - intros [= -> ->]. by rewrite !Z.eqb_refl.
Qed.

(** The only row under a key, among the selected ones. *)
Lemma find_selected f d olds news :
  NoDup (map key olds) -> d ∈ olds ->
  Forall (fun x => key x <> key d) news ->
  find (key_is d) (List.filter f (olds ++ news)) = if f d then Some d else None.
Proof.
  intros Hd Hin Hn. rewrite List.filter_app, find_app.
  assert (Hnone : forall l, Forall (fun x => key x <> key d) l ->
    find (key_is d) (List.filter f l) = None).
  { induction 1 as [|x l Hx _ IH]; simpl; [done|]. destruct (f x); [|done]. simpl.
    destruct (key_is d x) eqn:E; [|done]. by apply key_is_true in E. }
  rewrite (Hnone news) by done.
  assert (Hold : find (key_is d) (List.filter f olds) = if f d then Some d else None).
  { clear Hn. induction olds as [|x olds IH]; [by apply not_elem_of_nil in Hin|].
    simpl in Hd. apply NoDup_cons in Hd as [Hx Hd].
    apply elem_of_cons in Hin as [->|Hin]; simpl.
    - assert (Forall (fun y => key y <> key x) olds) as Ho.
      { apply Forall_forall. intros y Hy E. apply Hx. rewrite <- E.
        apply list_elem_of_fmap. by exists y. }
      destruct (f x) eqn:Hf; simpl; [|by apply Hnone].
      by rewrite (proj2 (key_is_true x x)).
    - rewrite <- IH by done. destruct (f x); [|done]. simpl.
      destruct (key_is d x) eqn:E; [|done]. exfalso. apply key_is_true in E. apply Hx.
      rewrite E. apply list_elem_of_fmap. by exists d. }
  rewrite Hold. by destruct (f d).
Qed.

(** ** Each write keeps the shape *)

Lemma undo_row_for_block d undo u : undo_row_for b d undo = Some u -> u_block u = b.
Proof. unfold undo_row_for. intros [_ H]%find_some. b2p. done. Qed.

Lemma foldl_add_undo_app undo l :
  Forall (fun u => u_block u = b) l ->
  exists l', foldl add_undo undo l = undo ++ l' /\ Forall (fun u => u_block u = b) l'.
Proof.
  revert undo. induction l as [|u l IH]; intros undo Hl; simpl.
  { exists []. by rewrite app_nil_r. }
  apply Forall_cons in Hl as [Hu Hl]. unfold add_undo at 2.
  destruct (has_undo u undo); [by apply IH|].
  destruct (IH (undo ++ [u]) Hl) as (l' & E & Hl'). exists (u :: l').
  split; [by rewrite E, <- app_assoc|by constructor].
Qed.

Lemma news_keys t t' news d :
  before_block t -> block_shape t t' ->
  Forall (fun x => d_tx_index x ∈ tx_indexes_of b t') news ->
  d_tx_index d ∈ map t_index (transactions t) ->
  Forall (fun x => key x <> key d) news.
Proof.
  intros Hb Hs Hn Hd. eapply Forall_impl; [exact Hn|]. intros x Hx [= E _].
  eapply tx_indexes_new; [exact Hb|exact Hs|exact Hx|]. by rewrite E.
Qed.

Lemma shape_record_undo t t' s :
  before_block t -> block_shape t t' -> block_shape t (record_undo s b t').
Proof.
  intros Hb Hs. pose proof Hb as (_ & _ & _ & Hd & _ & Hk).
  destruct (shape_undo _ _ Hs) as (lu & Eu & Hlu).
  destruct (shape_dispensers _ _ Hs) as (olds & news & Ed & Ht & Hn).
  set (f := fun d => of_source (source_id_of s t') d && open_or_expired_at b d).
  destruct (foldl_add_undo_app (dispenser_extension_undo t')
              (map (undo_of b) (List.filter f (dispensers t')))) as (l' & E & Hl').
  { apply Forall_map. by apply Forall_forall. }
  constructor; try apply Hs.
  - exists (lu ++ l'). cbn [record_undo with_undo dispenser_extension_undo].
    fold f. rewrite E, Eu, app_assoc. split; [done|]. by apply Forall_app.
  - exists olds, news. split; [done|]. split; [|done].
    cbn [record_undo with_undo dispenser_extension_undo]. fold f.
    assert (Hko : NoDup (map key olds)) by by rewrite (tracks_key _ _ _ Ht).
    eapply Forall2_impl; [apply (Forall2_with _ _ _ _ _ Ht Hd (Forall_self olds))|].
    intros d0 d ((Hrow & Hm & Hu) & [Hd0 _] & Hin). split; [done|]. split; [done|].
    rewrite undo_row_for_batch. destruct (undo_row_for b d _) as [u|]; [done|].
    change (find _ ?l) with (find (key_is d) l). rewrite Ed, find_selected; [|done|done|].
    + destruct (f d); simpl; [|done]. done.
    + eapply news_keys; [exact Hb|exact Hs|exact Hn|].
      destruct Hrow as (-> & _). done.
Qed.

Lemma shape_extend t t' s e :
  before_block t -> block_shape t t' -> recorded s t' ->
  block_shape t (extend_rows s e b t').
Proof.
  intros Hb Hs Hr. pose proof Hb as (_ & _ & _ & Hd & _ & Hk).
  destruct (shape_dispensers _ _ Hs) as (olds & news & Ed & Ht & Hn).
  set (g := fun d => if of_source (source_id_of s t') d && open_or_expired_at b d
                     then extend_row e b d else d).
  constructor; try apply Hs. exists (map g olds), (map g news).
  split; [cbn; fold g; by rewrite Ed, map_app|]. split.
  - apply Forall2_fmap_r. cbn [extend_rows with_dispensers dispenser_extension_undo].
    eapply Forall2_impl; [apply (Forall2_with _ _ _ _ _ Ht Hd (Forall_self olds))|].
    intros d0 d (Htr & [_ Hd0] & Hin). unfold compose, g.
    destruct (of_source (source_id_of s t') d && open_or_expired_at b d) eqn:E; [|done]. apply andb_prop in E as [E1 E2].
    destruct Htr as ((H1 & H2 & H3 & H4) & Hm & Hu). split; [done|].
    rewrite (undo_row_for_key _ (extend_row e b d) d) by done.
    assert (Hin' : d ∈ dispensers t') by (rewrite Ed; apply elem_of_app; by left).
    pose proof (Hr d Hin' E1 E2) as Hrec. apply has_undo_find in Hrec as [u Hrec].
    rewrite Hrec in Hu |- *. split; [|done]. cbn [extend_row d_expired].
    destruct Hm as [Hm|[-> Hm]]; rewrite Hm.
    + destruct (d_expired d0) as [h|]; [|by left].
      destruct (Z.eqb_spec h b) as [->|]; [done|by left].
    + rewrite Z.eqb_refl. by left.
  - apply Forall_fmap. eapply Forall_impl; [exact Hn|]. intros d Hx. unfold compose, g. simpl.
    by case_match.
Qed.

Lemma shape_expire t t' m :
  before_block t -> block_shape t t' -> block_shape t (expire_rows b m t').
Proof.
  intros Hb Hs.
  destruct (shape_dispensers _ _ Hs) as (olds & news & Ed & Ht & Hn).
  constructor; try apply Hs.
  exists (map (expire_row b m) olds), (map (expire_row b m) news).
  split; [cbn; by rewrite Ed, map_app|]. split.
  - apply Forall2_fmap_r. eapply Forall2_impl; [exact Ht|].
    intros d0 d (Hrow & Hm & Hu). unfold compose, expire_row. destruct (expired_before m d && is_open d) eqn:E; [|done].
    apply andb_prop in E as [_ E]. split; [done|].
    rewrite (undo_row_for_key _ (DispenserRow _ _ _ _ _ _) d) by done. split; [|done].
    right. split; [|done]. unfold is_open in E. destruct (d_expired d) eqn:E'; [done|].
    by destruct Hm as [<-|[? ?]].
  - apply Forall_fmap. eapply Forall_impl; [exact Hn|]. intros d Hx.
    unfold expire_row. simpl. by case_match.
Qed.

Lemma block_shape_writes t t' :
  before_block t -> block_writes t t' -> block_shape t t'.
Proof.
  intros Hb. induction 1 as [|t' s Hw IH Hok].
  { constructor.
    - exists []. by rewrite app_nil_r.
    - exists []. rewrite app_nil_r. split; [done|]. split; [done|].
      intros i Hi. by apply not_elem_of_nil in Hi.
    - exists []. by rewrite app_nil_r.
    - exists []. by rewrite app_nil_r.
    - exists (dispensers t), []. rewrite app_nil_r. split; [done|]. split; [|done].
      destruct Hb as (_ & _ & _ & _ & Hu & _).
      apply Forall2_same_length_lookup_2; [done|]. intros i x y Hx Hy. assert (x = y) as -> by congruence. clear Hx Hy.
      split; [done|]. split; [by left|].
      destruct (undo_row_for b y _) as [u|] eqn:E; [|done].
      exfalso. pose proof (undo_row_for_block _ _ _ E).
      unfold undo_row_for in E. apply find_some in E as [E _].
      rewrite Forall_forall in Hu. apply (Hu u); [by apply list_elem_of_In|done]. }
  destruct s; simpl in *.
  - constructor; apply IH.
  - constructor; apply IH.
  - unfold insert_pubkey_row. case_match; [done|]. constructor; apply IH.
  - constructor; apply IH.
  - constructor; try apply IH. destruct (shape_blocks _ _ IH) as (l & E & Hl).
    exists (l ++ [BlockRow b time hash previous]). simpl. rewrite E, app_assoc. split; [done|].
    apply Forall_app. split; [done|]. by constructor.
  - destruct Hok as [Hr Hf].
    assert (Hincl : forall i, i ∈ tx_indexes_of b t' ->
      i ∈ tx_indexes_of b (with_transactions (fun l => l ++ [r]) t')).
    { intros i Hi. rewrite tx_indexes_app. apply elem_of_app. by left. }
    constructor; try apply IH.
    + destruct (shape_txs _ _ IH) as (l & E & Hl & Hf'). exists (l ++ [r]). simpl.
      rewrite E, app_assoc. split; [done|]. split.
      * apply Forall_app. split; [done|]. by constructor.
      * intros i. rewrite map_app. intros [Hi|Hi]%elem_of_app; [by apply Hf'|].
        apply list_elem_of_singleton in Hi as ->. intros Hin. apply Hf.
        rewrite E, map_app. apply elem_of_app. by left.
    + destruct (shape_outputs _ _ IH) as (l & E & Hl). exists l. split; [done|].
      eapply Forall_impl; [exact Hl|]. intros o Ho. by apply Hincl.
    + destruct (shape_dispensers _ _ IH) as (olds & news & E & Ht & Hn).
      exists olds, news. split; [done|]. split; [done|].
      eapply Forall_impl; [exact Hn|]. intros o Ho. by apply Hincl.
  - constructor; try apply IH. destruct (shape_outputs _ _ IH) as (l & E & Hl).
    exists (l ++ [r]). simpl. rewrite E, app_assoc. split; [done|].
    apply Forall_app. split; [done|]. by constructor.
  - destruct Hok as [Hi _]. constructor; try apply IH.
    destruct (shape_dispensers _ _ IH) as (olds & news & E & Ht & Hn).
    exists olds, (news ++ [d]). simpl. rewrite E, app_assoc. split; [done|]. split; [done|].
    apply Forall_app. split; [done|]. by constructor.
  - by apply shape_record_undo.
  - by apply shape_extend.
  - by apply shape_expire.
Qed.

(** ** The inverse *)

Lemma restore_tracked undo d0 d :
  d_expired d0 <> Some b -> tracks undo d0 d -> unexpire b (restore_row b undo d) = d0.
Proof.
  intros Hd0 ((H1 & H2 & H3 & H4) & Hm & Hu). unfold restore_row.
  assert (Hrow : forall e m, m = d_expired d0 -> e = d_expiration d0 ->
    DispenserRow (d_tx_index d) (d_address_id d) e (d_oracle_id d) (d_source_id d) m = d0).
  { intros e m -> ->. rewrite H1, H2, H3, H4. by destruct d0. }
  destruct (undo_row_for b d undo) as [u|].
  - destruct Hu as (Hb & He & Hp). rewrite Hb.
    assert ((match u_prior_expired u with
             | Some h => if h =? b then None else Some h | None => None end)
            = d_expired d0) as ->.
    { destruct Hp as [->|[E ->]]; [|by rewrite E, Z.eqb_refl].
      destruct (d_expired d0) as [h|]; [|done].
      destruct (Z.eqb_spec h b) as [->|]; done. }
    rewrite Hrow by done. unfold unexpire. destruct (d_expired d0) as [h|]; [|done].
    destruct (Z.eqb_spec h b) as [->|]; done.
  - unfold unexpire. destruct Hm as [Hm|[Hm Hm']].
    + destruct (d_expired d) as [h|] eqn:E.
      * destruct (Z.eqb_spec h b) as [->|]; [by rewrite <- Hm in Hd0|].
        rewrite <- (Hrow _ _ Hm Hu) at 1. by rewrite <- E; destruct d.
      * rewrite <- (Hrow _ _ Hm Hu) at 1. by rewrite <- E; destruct d.
    + rewrite Hm', Z.eqb_refl. by apply Hrow.
Qed.

Lemma in_list_spec x l : in_list x l = true <-> x ∈ l.
Proof.
  unfold in_list. rewrite existsb_exists. setoid_rewrite <- list_elem_of_In.
  split; [intros (y & Hy & E); b2p; by subst|intros Hx; exists x; by rewrite Z.eqb_refl].
Qed.

Lemma filter_kept {A} (f : A -> bool) l l' :
  Forall (fun x => f x = true) l -> Forall (fun x => f x = false) l' ->
  List.filter f (l ++ l') = l.
Proof.
  intros Hl Hl'. rewrite List.filter_app, filter_all, filter_none by done. apply app_nil_r.
Qed.
End Writes.

(** ** Properties *)

Lemma delete_block_restores `{Collation} b hash t t' :
  before_block b t -> block_writes b t t' ->
  let r := delete_block_tables b hash t' in
  blocks r = blocks t /\ transactions r = transactions t
  /\ transaction_outputs r = transaction_outputs t
  /\ dispensers r = dispensers t
  /\ dispenser_extension_undo r = dispenser_extension_undo t.
Proof.
  intros Hb Hw. pose proof (block_shape_writes b t t' Hb Hw) as Hs.
  pose proof Hb as (Hbl & Htx & Hout & Hd & Hun & _). intros r.
  destruct (shape_blocks _ _ _ Hs) as (lb & Eb & Hlb).
  destruct (shape_txs _ _ _ Hs) as (lt & Et & Hlt & Hft).
  destruct (shape_outputs _ _ _ Hs) as (lo & Eo & Hlo).
  destruct (shape_undo _ _ _ Hs) as (lu & Eu & Hlu).
  destruct (shape_dispensers _ _ _ Hs) as (olds & news & Ed & Htr & Hn).
  assert (Hgone : forall i, i ∈ map t_index (transactions t) ->
    negb (in_list i (tx_indexes_of b t')) = true).
  { intros i Hi. destruct (in_list i _) eqn:E; [|done]. apply in_list_spec in E.
    exfalso. by eapply tx_indexes_new. }
  assert (Hstay : forall i, i ∈ tx_indexes_of b t' ->
    negb (in_list i (tx_indexes_of b t')) = false).
  { intros i Hi. apply in_list_spec in Hi. by rewrite Hi. }
  assert (Hblocks : List.filter (fun x => negb (b_index x =? b)) (blocks t') = blocks t).
  { rewrite Eb. apply filter_kept; (eapply Forall_impl; [eassumption|]).
    - intros x Hx. simpl. by rewrite (proj2 (Z.eqb_neq _ _) Hx).
    - intros x ->. by rewrite Z.eqb_refl. }
  assert (Htxs : List.filter (fun x => negb (t_block x =? b)) (transactions t') = transactions t).
  { rewrite Et. apply filter_kept; (eapply Forall_impl; [eassumption|]).
    - intros x Hx. simpl. by rewrite (proj2 (Z.eqb_neq _ _) Hx).
    - intros x ->. by rewrite Z.eqb_refl. }
  assert (Hundo : List.filter (fun x => negb (u_block x =? b)) (dispenser_extension_undo t')
                  = dispenser_extension_undo t).
  { rewrite Eu. apply filter_kept; (eapply Forall_impl; [eassumption|]).
    - intros x Hx. simpl. by rewrite (proj2 (Z.eqb_neq _ _) Hx).
    - intros x ->. by rewrite Z.eqb_refl. }
  assert (Houts : List.filter (fun o => negb (in_list (o_tx_index o) (tx_indexes_of b t')))
                    (transaction_outputs t') = transaction_outputs t).
  { rewrite Eo. apply filter_kept; (eapply Forall_impl; [eassumption|]); auto. }
  assert (Hdisp : List.filter (fun d => negb (in_list (d_tx_index d) (tx_indexes_of b t')))
    (map (unexpire b) (map (restore_row b (dispenser_extension_undo t')) (dispensers t')))
    = dispensers t).
  { assert (Htxi : forall d, d_tx_index (unexpire b (restore_row b (dispenser_extension_undo t') d))
                             = d_tx_index d).
    { intros d. unfold unexpire, restore_row. by repeat case_match. }
    rewrite Ed, !map_app, map_map.
    assert (map (fun x => unexpire b (restore_row b (dispenser_extension_undo t') x)) olds
            = dispensers t) as ->.
    { clear - Htr Hd. induction Htr as [|d0 d l l' Ht _ IH]; simpl; [done|].
      apply Forall_cons in Hd as [[_ Hd0] Hd]. rewrite IH by done.
      by rewrite (restore_tracked b _ d0 d). }
    apply filter_kept.
    - eapply Forall_impl; [exact Hd|]. intros d [Hi _]. by apply Hgone.
    - rewrite map_map. apply Forall_fmap. eapply Forall_impl; [exact Hn|]. intros d Hi.
      simpl. rewrite Htxi. by apply Hstay. }
  unfold r, delete_block_tables. destruct hash; simpl; auto.
Qed.

(** A reorg's deletion is the exact inverse of storing a block: whatever the block
    wrote (blocks, transactions, outputs, registrations, any number of expiration
    extensions and soft expiries, in any order the code can issue them), deleting the
    block restores the five consensus tables to what they were before it. *)
Theorem delete_block_undoes_block `{Collation} b hash t t' :
  before_block b t -> block_writes b t t' ->
  let r := delete_block_tables b hash t' in
  blocks r = blocks t /\ transactions r = transactions t
  /\ transaction_outputs r = transaction_outputs t
  /\ dispensers r = dispensers t
  /\ dispenser_extension_undo r = dispenser_extension_undo t.
Proof. apply delete_block_restores. Qed.

(** A binary collation, for concrete runs. *)
#[local] Instance byte_collation : Collation := {| collate := id |}.

Definition sample_tables : tables :=
  Tables [(1, []); (2, js "seller")] [(1, [])] [BlockRow 5 (Some 900) None None]
    [TxRow 10 None 5 (Some 2) (Some 1) None 0 None None] []
    [DispenserRow 10 2 1000 None None None] [] [] [].

Definition sample_writes : list block_write :=
  [WBlock None None (Some 1500); WTransaction (TxRow 11 None 6 (Some 2) (Some 1) None 0 None None);
   WRegister (DispenserRow 11 2 1200 None None None);
   WRecordUndo (js "seller"); WExtend (js "seller") 5000; WExpire (Some 9000)].

Definition sample_after : tables :=
  foldl (fun t s => apply_write 6 s t) sample_tables sample_writes.

Lemma delete_block_undoes_block_witness :
  before_block 6 sample_tables /\ block_writes 6 sample_tables sample_after
  /\ dispensers sample_after <> dispensers sample_tables
  /\ dispensers (delete_block_tables 6 None sample_after) = dispensers sample_tables.
Proof.
  assert (Hb : before_block 6 sample_tables).
  { unfold before_block. split_and!.
    - by constructor.
    - by constructor.
    - constructor.
    - constructor; [|constructor]. split; [by left|done].
    - constructor.
    - apply NoDup_singleton. }
  assert (Hw : block_writes 6 sample_tables sample_after).
  { unfold sample_after, sample_writes. cbn [foldl].
    repeat (apply writes_step); try apply writes_none; try done.
    - by apply (bool_decide_unpack _); vm_compute.
    - split; [done|]. by apply (bool_decide_unpack _); vm_compute.
    - split; [|done]. by apply (bool_decide_unpack _); vm_compute.
    - intros d Hd _ _. simpl in Hd.
      apply elem_of_cons in Hd as [->|Hd]; [by vm_compute|].
      apply list_elem_of_singleton in Hd as ->. by vm_compute. }
  split; [exact Hb|]. split; [exact Hw|]. split; [by vm_compute|].
  apply (delete_block_undoes_block 6 None sample_tables sample_after Hb Hw).
Defined.

Section Properties.
Context {Coll : Collation}.

Lemma captured_extend gf t e blk d :
  captured gf t d = true ->
  captured gf t (extend_row e blk d) = true.
Proof.
  unfold captured, extend_row, is_open. destruct (active_floor gf) as [q|]; simpl.
  - destruct (d_expired d) as [h|]; simpl; [|done].
    destruct (h =? blk); simpl; [done|].
    intros H. apply orb_prop in H as [H|H]; [by rewrite H|].
    apply orb_true_iff. right. unfold Qge in *. apply Qle_bool_iff. apply Qle_bool_iff in H.
    eapply Qle_trans; [exact H|]. unfold Qz, Qle. simpl. lia.
  - destruct (d_expired d) as [h|]; [done|]. done.
Qed.

(** An edit never closes anything: after the extension of a source's open rows every
    address whose payments were captured before is still captured, at every grace
    floor and whatever expiration the edit named. *)
Theorem extension_widens_capture gf s e blk t :
  captured_addresses gf t ⊆ captured_addresses gf (extend_rows s e blk t).
Proof.
  intros a. unfold captured_addresses. rewrite !elem_of_list_to_set, !list_elem_of_omap.
  intros (d & Hd & Ha). apply list_elem_of_In, filter_In in Hd as [Hd Hc].
  set (g := fun d => if of_source (source_id_of s t) d && open_or_expired_at blk d
                     then extend_row e blk d else d).
  exists (g d). split.
  - apply list_elem_of_In, filter_In. split; [apply (in_map g); exact Hd|].
    change (captured gf t (g d) = true). unfold g. case_match; [|done].
    by apply captured_extend.
  - unfold g. by case_match.
Qed.

(** The grace window only ever adds addresses to the set captured without it. *)
Lemma grace_widens_capture gf t :
  captured_addresses None t ⊆ captured_addresses gf t.
Proof.
  intros a. unfold captured_addresses. rewrite !elem_of_list_to_set, !list_elem_of_omap.
  intros (d & Hd & Ha). apply list_elem_of_In, filter_In in Hd as [Hd Hc].
  exists d. split; [|done]. apply list_elem_of_In, filter_In. split; [done|].
  unfold captured in *. simpl in Hc. destruct (active_floor gf); [|done]. by rewrite Hc.
Qed.

Lemma captured_not_purgeable safeHeight f f' t d :
  Qle f f' ->
  captured (Some (Fin f')) t d = true ->
  purgeable safeHeight (Some (Fin f)) t d = false.
Proof.
  intros Hf. unfold captured, purgeable, is_open. cbn [active_floor].
  destruct (d_expired d) as [h|]; [|done]. cbn [orb]. intros H.
  destruct (h <=? safeHeight); [|done]. cbn [andb].
  apply orb_prop in H as [H|H].
  - apply andb_false_intro2. unfold time_at_least in H. unfold time_below_or_null.
    destruct (block_time_of (Some h) t) as [z|]; [|done]. unfold Qge in *.
    apply negb_false_iff, Qle_bool_iff. apply Qle_bool_iff in H. by eapply Qle_trans.
  - apply andb_false_intro1. unfold Qge in *. apply negb_false_iff, Qle_bool_iff.
    apply Qle_bool_iff in H. by eapply Qle_trans.
Qed.

(** With the purge floor armed the purge never removes a row some later block could
    still capture: for every later floor, the capture set is the same with and
    without the purged rows. *)
Theorem purge_invisible_to_capture safeHeight f f' t :
  Qle f f' ->
  captured_addresses (Some (Fin f')) (purge_rows safeHeight (Some (Fin f)) t)
  = captured_addresses (Some (Fin f')) t.
Proof.
  intros Hf. unfold captured_addresses. f_equal. f_equal.
  cbn [purge_rows with_dispensers dispensers].
  change (captured (Some (Fin f')) (purge_rows safeHeight (Some (Fin f)) t))
    with (captured (Some (Fin f')) t).
  induction (dispensers t) as [|d l IH]; [done|].
  cbn [List.filter]. destruct (captured (Some (Fin f')) t d) eqn:Hc.
  - rewrite (captured_not_purgeable _ f f') by done. cbn [negb List.filter].
    by rewrite Hc, IH.
  - destruct (purgeable _ _ _ d); cbn [negb List.filter]; [done|]. by rewrite Hc.
Qed.

(** An edit that reaches past the block time keeps the dispenser open through the
    block's own soft expiry, even when an earlier expiry of the same block had already
    marked it. *)
Theorem extension_survives_block_end s e blk m t d :
  d ∈ dispensers t -> of_source (source_id_of s t) d = true ->
  open_or_expired_at blk d = true -> m <= e ->
  extend_row e blk d ∈ dispensers (expire_rows blk (Some m) (extend_rows s e blk t))
  /\ is_open (extend_row e blk d) = true.
Proof.
  intros Hd Hs Ho Hm. assert (Hopen : is_open (extend_row e blk d) = true).
  { unfold is_open, open_or_expired_at in *. simpl.
    destruct (d_expired d) as [h|]; [|done]. by rewrite Ho. }
  split; [|done]. cbn [expire_rows extend_rows with_dispensers dispensers].
  rewrite map_map. apply list_elem_of_In, in_map_iff. exists d.
  split; [|by apply list_elem_of_In]. rewrite Hs, Ho. cbn [andb].
  unfold expire_row, expired_before. simpl d_expiration.
  rewrite (proj2 (Z.ltb_ge _ _)); [done|]. lia.
Qed.

(** ** The deletion as the code runs it *)

Lemma M_bind_assoc3 {B} (m1 m2 m3 : M unit) (k : M B) w :
  (m1;; m2;; m3;; k) w = ((m1;; m2;; m3);; k) w.
Proof.
  unfold mbind, M_bind. destruct (m1 w) as [[[]|e|] w1]; [|done|done].
  by destruct (m2 w1) as [[[]|e|] w2].
Qed.

Lemma computes_deletion T b hash :
  computes (T := T)
    (restoreDispenserExtensions b;; deleteBlockRows b;; insertReorgEvent b hash)
    (delete_block_tables b hash).
Proof.
  intros w Hw.
  assert (Hr : computes (T := T) (restoreDispenserExtensions b)
    (fun t => with_undo (List.filter (fun u => negb (u_block u =? b)))
      (with_dispensers (map (restore_row b (dispenser_extension_undo t))) t))).
  { apply (computes_seq _ _ (fun t => with_dispensers
      (map (restore_row b (dispenser_extension_undo t))) t)); apply computes_update. }
  assert (Hd : computes (T := T) (deleteBlockRows b)
    (fun t => with_blocks (List.filter (fun x => negb (b_index x =? b)))
      (with_transactions (List.filter (fun r => negb (t_block r =? b)))
      (delete_dispensers_of b (delete_outputs_of b (with_dispensers (map (unexpire b)) t)))))).
  { exact (computes_seq _ _ _ _ (computes_update _) (computes_seq _ _ _ _ (computes_update _)
      (computes_seq _ _ _ _ (computes_update _) (computes_seq _ _ _ _ (computes_update _)
        (computes_update _))))). }
  assert (He : computes (T := T) (insertReorgEvent b hash)
    (fun t => match hash with
              | None => t
              | Some h => with_events (fun l => l ++ [ReorgEvent b h]) t end)).
  { unfold insertReorgEvent. destruct hash; [apply computes_update|apply computes_ret]. }
  pose proof (computes_seq _ _ _ _ Hr (computes_seq _ _ _ _ Hd He)) as H.
  specialize (H w Hw).
  destruct ((restoreDispenserExtensions b;; deleteBlockRows b;; insertReorgEvent b hash) w)
    as [[[]|e|] w']; [|done|done].
  destruct H as [Hw' ->]. split; [done|]. unfold delete_block_tables.
  destruct hash; done.
Qed.

Lemma deleteBlockByIndex_outcome T w b hash :
  idle T w ->
  match deleteBlockByIndex b hash w with
  | (Ret true, w') => idle (delete_block_tables b hash T) w'
  | (Throw _, w') => idle T w' \/ idle (delete_block_tables b hash T) w'
  | _ => False
  end.
Proof.
  intros Hw. unfold deleteBlockByIndex. pose proof (beginTransaction_spec w Hw) as Hb.
  unfold mbind at 1, M_bind at 1.
  destruct (beginTransaction w) as [[[]|e|] w1]; [|by left|done]. destruct Hb as [Hw1 Hl1].
  unfold mbind at 1, M_bind at 1. rewrite (getConnection_open w1 Hw1).
  assert (Hfail : forall C e v, open_on T v \/ idle T v \/ idle C v ->
    exists e' v', (rollback_open;; throw e : M bool) v = (Throw e', v')
      /\ (idle T v' \/ idle C v')).
  { intros C e v Hv. unfold mbind, M_bind, throw. destruct Hv as [Hv|Hv].
    - pose proof (rollback_open_idle v Hv) as Hr.
      destruct (rollback_open v) as [[[]|e'|] v']; [by exists e, v'; auto| |done].
      by exists e', v'; auto.
    - assert (transactionConnection v = false) as Hc by (destruct Hv as [(?&?&?&?)|(?&?&?&?)]; done).
      unfold rollback_open, state, mbind, M_bind. rewrite Hc. by exists e, v. }
  unfold try_catch.
  rewrite M_bind_assoc3.
  pose proof (computes_deletion T b hash w1 Hw1) as Hd. rewrite Hl1 in Hd.
  unfold mbind at 1, M_bind at 1.
  destruct ((restoreDispenserExtensions b;; deleteBlockRows b;; insertReorgEvent b hash) w1)
    as [[[]|e|] w2]; [| |done].
  - destruct Hd as [Hw2 Hl2]. pose proof (commitTransaction_spec w2 Hw2) as Hc.
    rewrite Hl2 in Hc. unfold mbind at 1, M_bind at 1.
    destruct (commitTransaction w2) as [[[]|e|] w3]; [done| |done|done].
    change (throw (A := bool) (plain_error (js "deleteBlockByIndex: commit failed")) w3)
      with (Throw (A := bool) (plain_error (js "deleteBlockByIndex: commit failed")), w3).
    cbn iota.
    destruct (Hfail (delete_block_tables b hash T)
      (plain_error (js "deleteBlockByIndex: commit failed")) w3) as (e' & w4 & -> & H4); auto.
  - destruct (Hfail (delete_block_tables b hash T) e w2) as (e' & w4 & -> & H4); auto.
Qed.

(** The deletion of a block is atomic and leaves no lock behind: from an idle handle,
    whatever calls fail, it returns [true] with the block deleted, or throws with
    either the original tables or (a commit whose acknowledgement was lost) the
    deleted ones, and the handle is idle again. *)
Theorem deleteBlockByIndex_atomic T w b hash :
  idle T w ->
  match deleteBlockByIndex b hash w with
  | (Ret true, w') => idle (delete_block_tables b hash T) w'
  | (Throw _, w') => idle T w' \/ idle (delete_block_tables b hash T) w'
  | _ => False
  end.
Proof. apply deleteBlockByIndex_outcome. Qed.
End Properties.

(** ** Concrete runs *)

Definition sample_world (fs : list (option fault)) : world :=
  World sample_after None false false 3 2 fs fresh_stats.

(** The third of the deletion's own statements fails: everything is undone. *)
Definition failing_deletion : list (option fault) :=
  [None; None; None; None; Some (Fault (sql_error 1205) true)].

Lemma deleteBlockByIndex_atomic_witness :
  idle sample_after (sample_world failing_deletion)
  /\ (deleteBlockByIndex 6 None (sample_world failing_deletion)).1 = Throw (sql_error 1205)
  /\ (idle sample_after (deleteBlockByIndex 6 None (sample_world failing_deletion)).2
      \/ idle (delete_block_tables 6 None sample_after)
              (deleteBlockByIndex 6 None (sample_world failing_deletion)).2).
Proof.
  assert (Hi : idle sample_after (sample_world failing_deletion)) by by vm_compute.
  split; [exact Hi|].
  pose proof (deleteBlockByIndex_atomic sample_after (sample_world failing_deletion) 6 None Hi) as H.
  assert (E : (deleteBlockByIndex 6 None (sample_world failing_deletion)).1
              = Throw (sql_error 1205)) by by vm_compute.
  destruct (deleteBlockByIndex 6 None (sample_world failing_deletion)) as [r w'].
  simpl in E. subst r. split; [done|exact H].
Defined.

Lemma purge_invisible_to_capture_witness :
  Qle (Qz 900) (Qz 1000)
  /\ captured_addresses (Some (Fin (Qz 1000)))
       (purge_rows 6 (Some (Fin (Qz 900))) sample_after)
     = captured_addresses (Some (Fin (Qz 1000))) sample_after.
Proof.
  assert (H : Qle (Qz 900) (Qz 1000)) by (unfold Qle; simpl; lia).
  split; [exact H|]. apply (purge_invisible_to_capture 6 (Qz 900) (Qz 1000) sample_after H).
Defined.

(** The block-start expiry of the legacy era has already marked the row. *)
Definition marked_row : dispenser_row := DispenserRow 10 2 1000 None None (Some 6).
Definition marked_tables : tables := with_dispensers (fun _ => [marked_row]) sample_tables.

Lemma extension_survives_block_end_witness :
  marked_row ∈ dispensers marked_tables
  /\ extend_row 5000 6 marked_row
     ∈ dispensers (expire_rows 6 (Some 1500) (extend_rows (js "seller") 5000 6 marked_tables))
  /\ is_open (extend_row 5000 6 marked_row) = true.
Proof.
  assert (H : marked_row ∈ dispensers marked_tables) by by left.
  split; [exact H|].
  apply (extension_survives_block_end (js "seller") 5000 6 1500 marked_tables marked_row H);
    [by vm_compute|by vm_compute|lia].
Defined.
