(* ===== verification/StorageGate.v ===== *)
(** * The storage gate

    src/src/XChainDecoder/payload_helpers.js (compiledPushSize,
    canonicalizeActionPayload) and dispenser_and_oracle_fees.js (hasStorableContent,
    buildStoredActionRecord): which ACTION string a transactions row stores.  The two
    TextDecoder instances of constants.js are modelled from the WHATWG UTF-8 decoder. *)
From S2P Require Import Prelude JsNum Activation Batch Config.
#[local] Open Scope Z_scope.

(** ** TextDecoder('utf-8') *)

(** The decoder's state: bytes still needed, the code point so far and the range the
    next byte must lie in. *)
Record utf8_state := Utf8State { u_need : nat; u_cp : Z; u_lower : Z; u_upper : Z }.

Definition utf8_idle : utf8_state := Utf8State 0 0 128 191.

Definition in_range (lo b hi : Z) : bool := (lo <=? b) && (b <=? hi).

(** A byte read in the idle state: what it emits ([None] is an error) and the next state. *)
Definition utf8_lead (b : Z) : list (option Z) * utf8_state :=
  if in_range 0 b 127 then ([Some b], utf8_idle)
  else if in_range 194 b 223 then ([], Utf8State 1 (b - 192) 128 191)
  else if in_range 224 b 239 then
    ([], Utf8State 2 (b - 224) (if b =? 224 then 160 else 128) (if b =? 237 then 159 else 191))
  else if in_range 240 b 244 then
    ([], Utf8State 3 (b - 240) (if b =? 240 then 144 else 128) (if b =? 244 then 143 else 191))
  else ([None], utf8_idle).

Definition utf8_step (st : utf8_state) (b : Z) : list (option Z) * utf8_state :=
  match u_need st with
  | O => utf8_lead b
  | S n =>
      if in_range (u_lower st) b (u_upper st) then
        let cp := u_cp st * 64 + (b - 128) in
        match n with
        | O => ([Some cp], utf8_idle)
        | S _ => ([], Utf8State n cp 128 191)
        end
      else let '(out, st') := utf8_lead b in (None :: out, st')
  end.

Fixpoint utf8_tokens (st : utf8_state) (l : bytes) : list (option Z) :=
  match l with
  | [] => match u_need st with O => [] | S _ => [None] end
  | b :: l' => let '(out, st') := utf8_step st b in out ++ utf8_tokens st' l'
  end.

Definition BOM : Z := 65279.
Definition REPLACEMENT : Z := 65533.

Definition strip_bom (l : list (option Z)) : list (option Z) :=
  match l with
  | Some c :: l' => if c =? BOM then l' else l
  | _ => l
  end.

(** UTF-16 code units of a code point. *)
Definition utf16 (cp : Z) : jstr :=
  if cp <? 65536 then [cp]
  else [55296 + (cp - 65536) / 1024; 56320 + (cp - 65536) mod 1024].

Definition text_tokens (l : bytes) : list (option Z) := strip_bom (utf8_tokens utf8_idle l).

Definition lenient_decode (l : bytes) : jstr :=
  flat_map (fun t => utf16 (default REPLACEMENT t)) (text_tokens l).

(** [None]: the fatal decoder throws. *)
Definition strict_decode (l : bytes) : option jstr :=
  if forallb (fun t => match t with Some _ => true | None => false end) (text_tokens l)
  then Some (lenient_decode l) else None.

(** ** Push sizes *)

Definition compiledPushSize (byteLength : Z) : Z :=
  if byteLength <=? 75 then byteLength + 1
  else if byteLength <=? 255 then byteLength + 2
  else byteLength + OP_RETURN_PUSH_OVERHEAD.

(** ** Canonical payloads *)

Definition VALID_ACTION_NAMES : list jstr :=
  map js [ "ADDRESS"; "AIRDROP"; "ANCHOR"; "ATTEST";
           "BATCH"; "BET"; "BROADCAST"; "CALLBACK"; "COINPAY"; "COLLECT";
           "DELEGATE"; "DEPLOY"; "DEPOSIT"; "DESTROY"; "DISPENSER";
           "DIVIDEND"; "EXECUTE"; "FILE"; "ISSUE"; "LINK"; "LIST"; "MESSAGE"; "MINT";
           "NODEPROOF"; "ORDER"; "PRICE"; "ROLLCALL"; "SEND"; "SLASH"; "SLEEP"; "STAKE";
           "SWAP";
           "SWEEP"; "UNSTAKE"; "VOTE"; "WITHDRAW";
           "XBRIDGE" ]%string.

Definition is_valid_action (name : jstr) : bool := existsb (eqs name) VALID_ACTION_NAMES.

Record canonical_payload := CanonicalPayload {
  buffer : bytes; rawActionName : jstr; actionName : jstr; isKnown : bool
}.

Definition canonicalizeActionPayload (payload : bytes) : canonical_payload :=
  let rawActionName := lenient_decode (before pipe payload) in
  let actionName := default rawActionName (assoc rawActionName ACTION_ALIASES) in
  let isKnown := is_valid_action actionName in
  let outBuffer :=
    if isKnown && negb (eqs actionName rawActionName)
    then actionName ++ from_char pipe payload else payload in
  CanonicalPayload outBuffer rawActionName actionName isKnown.

(** ** What is stored *)

Definition hasStorableContent (pr : option parse_result) : bool :=
  match pr with
  | None => false
  | Some r =>
      (negb (is_empty (data r)) && match source r with Some _ => true | None => false end)
      || negb (bool_decide (dispenseOutputs r = []))
  end.

Record stored_action := StoredAction {
  skip : bool; stored_data : jstr; stored_rawData : option bytes
}.

(** The record and the number of parse errors counted. *)
Definition buildStoredActionRecord (r : parse_result) : stored_action * Z :=
  let payload := data r in
  if is_empty payload then (StoredAction false [] (rawData r), 0)
  else
    let hasOutputs := match dispenseOutputs r, paymentOutputs r with
                      | [], [] => false | _, _ => true end in
    let ceiling := match payloadCeiling r with
                   | Some c => if c =? 0 then MAX_ACTION_DATA_LENGTH else c
                   | None => MAX_ACTION_DATA_LENGTH
                   end in
    if ceiling <? compiledDataLength r then (StoredAction (negb hasOutputs) [] None, 1)
    else
      let canonical := canonicalizeActionPayload payload in
      let '(decodedData, errors) :=
        match strict_decode (buffer canonical) with
        | Some d => (d, 0)
        | None => (lenient_decode (buffer canonical), 1)
        end in
      if negb (isKnown canonical) then (StoredAction (negb hasOutputs) [] None, errors + 1)
      else (StoredAction false decodedData (rawData r), errors).

(** ** Facts about the decoder *)

(** The range restrictions of the state exclude overlong forms: whatever is completed is
    at least 128. *)
Definition utf8_inv (st : utf8_state) : Prop :=
  128 <= u_lower st /\
  match u_need st with
  | O => True
  | 1%nat => 2 <= u_cp st
  | 2%nat => 0 <= u_cp st /\ 32 <= u_cp st * 64 + (u_lower st - 128)
  | 3%nat => 0 <= u_cp st /\ 16 <= u_cp st * 64 + (u_lower st - 128)
  | _ => False
  end.

Lemma utf8_idle_inv : utf8_inv utf8_idle.
Proof. unfold utf8_inv; simpl. lia. Qed.

Lemma in_range_spec lo b hi : in_range lo b hi = true <-> lo <= b <= hi.
Proof. unfold in_range. rewrite andb_true_iff, !Z.leb_le. done. Qed.

(** What a byte emits: itself when ASCII, or something at least 128. *)
Definition emits_ok (b : Z) (t : option Z) : Prop :=
  match t with
  | None => True
  | Some cp => (cp = b /\ 0 <= b <= 127) \/ 128 <= cp
  end.

Lemma utf8_lead_ok b :
  utf8_inv (utf8_lead b).2 /\ Forall (emits_ok b) (utf8_lead b).1.
Proof.
  unfold utf8_lead.
  destruct (in_range 0 b 127) eqn:E1; [|destruct (in_range 194 b 223) eqn:E2;
    [|destruct (in_range 224 b 239) eqn:E3; [|destruct (in_range 240 b 244) eqn:E4]]];
    rewrite ?in_range_spec in *; cbn [fst snd].
  - split; [apply utf8_idle_inv|]. constructor; [|constructor]. left. lia.
  - split; [|constructor]. unfold utf8_inv. simpl. lia.
  - split; [|constructor]. unfold utf8_inv. simpl.
    destruct (Z.eqb_spec b 224); lia.
  - split; [|constructor]. unfold utf8_inv. simpl.
    destruct (Z.eqb_spec b 240); lia.
  - split; [apply utf8_idle_inv|]. by repeat constructor.
Qed.

Lemma utf8_step_ok st b :
  utf8_inv st -> utf8_inv (utf8_step st b).2 /\ Forall (emits_ok b) (utf8_step st b).1.
Proof.
  intros [Hl Hn]. unfold utf8_step. destruct (u_need st) as [|n]; [apply utf8_lead_ok|].
  destruct (in_range _ b _) eqn:E.
  - rewrite in_range_spec in E. destruct n as [|[|[|n]]]; cbn [fst snd]; [| | |done].
    + split; [apply utf8_idle_inv|]. constructor; [|constructor]. right. lia.
    + split; [|constructor]. unfold utf8_inv. simpl. lia.
    + split; [|constructor]. unfold utf8_inv. simpl. lia.
  - pose proof (utf8_lead_ok b) as [H1 H2]. destruct (utf8_lead b) as [out st'].
    split; [done|]. by constructor.
Qed.

Lemma utf8_tokens_ascii_split st a c b :
  utf8_inv st -> 0 <= c <= 127 ->
  utf8_tokens st (a ++ c :: b)
  = utf8_tokens st a ++ Some c :: utf8_tokens utf8_idle b.
Proof.
  intros Hst Hc. revert st Hst. induction a as [|x a IH]; intros st Hst; simpl.
  - assert (Hl : utf8_lead c = ([Some c], utf8_idle)).
    { unfold utf8_lead. by rewrite (proj2 (in_range_spec 0 c 127)). }
    unfold utf8_step. destruct (u_need st) as [|n] eqn:E; [by rewrite Hl|].
    destruct (in_range _ _ _) eqn:Hr; [|by rewrite Hl].
    exfalso. rewrite in_range_spec in Hr. destruct Hst. lia.
  - pose proof (utf8_step_ok st x Hst) as [Hst' _].
    destruct (utf8_step st x) as [out st']. rewrite IH by done. by rewrite app_assoc.
Qed.

Lemma utf8_tokens_no_ascii st c l :
  utf8_inv st -> 0 <= c <= 127 -> c ∉ l -> Some c ∉ utf8_tokens st l.
Proof.
  intros Hst Hc. revert st Hst. induction l as [|x l IH]; intros st Hst Hn; simpl.
  - destruct (u_need st); [apply not_elem_of_nil|]. by intros ?%list_elem_of_singleton.
  - apply not_elem_of_cons in Hn as [Hx Hn].
    pose proof (utf8_step_ok st x Hst) as [Hst' Ho].
    destruct (utf8_step st x) as [out st']. rewrite elem_of_app. intros [Hin|Hin].
    + rewrite Forall_forall in Ho. specialize (Ho _ Hin). simpl in Ho. lia.
    + by apply (IH st').
Qed.

Lemma text_tokens_split a c b :
  0 <= c <= 127 ->
  text_tokens (a ++ c :: b) = text_tokens a ++ Some c :: utf8_tokens utf8_idle b.
Proof.
  intros Hc. unfold text_tokens. rewrite utf8_tokens_ascii_split by (done || apply utf8_idle_inv).
  destruct (utf8_tokens utf8_idle a) as [|[x|] l]; simpl; [|by case_match|done].
  destruct (Z.eqb_spec c BOM) as [->|]; [|done]. unfold BOM in Hc. lia.
Qed.

Lemma utf16_ascii c : 0 <= c <= 127 -> utf16 c = [c].
Proof. intros Hc. unfold utf16. by rewrite (proj2 (Z.ltb_lt _ _)) by lia. Qed.

Lemma lenient_decode_split a c b :
  0 <= c <= 127 -> exists r, lenient_decode (a ++ c :: b) = lenient_decode a ++ c :: r.
Proof.
  intros Hc. unfold lenient_decode. rewrite text_tokens_split by done.
  rewrite flat_map_app. simpl. rewrite utf16_ascii by done. by eexists.
Qed.

Lemma lenient_decode_no_ascii c l : 0 <= c <= 127 -> c ∉ l -> c ∉ lenient_decode l.
Proof.
  intros Hc Hl Hin. apply list_elem_of_In, in_flat_map in Hin as (t & Ht & Hin).
  apply list_elem_of_In in Ht. apply list_elem_of_In in Hin.
  assert (Ht' : t ∈ utf8_tokens utf8_idle l).
  { unfold text_tokens, strip_bom in Ht. case_match; [done|]. case_match; [|by subst].
    case_match; [by right|by subst]. }
  assert (t <> Some c) as Hne.
  { intros ->. by eapply utf8_tokens_no_ascii; [apply utf8_idle_inv| | |]. }
  assert (Hlow : forall cp, c ∈ utf16 cp -> c = cp).
  { intros cp. unfold utf16. destruct (cp <? 65536) eqn:E.
    - by intros ->%list_elem_of_singleton.
    - b2p. rewrite elem_of_cons, list_elem_of_singleton.
      pose proof (Z.div_pos (cp - 65536) 1024). pose proof (Z.mod_pos_bound (cp - 65536) 1024).
      lia. }
  apply Hlow in Hin. destruct t as [cp|]; simpl in Hin.
  - by subst.
  - unfold REPLACEMENT in Hin. lia.
Qed.

(** The name the gate looked up is the name of the decoded text. *)
Lemma before_pipe_decode l : before pipe (lenient_decode l) = lenient_decode (before pipe l).
Proof.
  assert (Hb : pipe ∉ lenient_decode (before pipe l)).
  { apply lenient_decode_no_ascii; [by vm_compute|apply before_no_char]. }
  pose proof (before_from_char pipe l) as E.
  destruct (from_char pipe l) as [|c r] eqn:Hf.
  - rewrite app_nil_r in E. rewrite <- E at 1. by apply before_id.
  - assert (c = pipe) as ->.
    { clear -Hf. induction l as [|x l IH]; simpl in Hf; [done|].
      destruct (Z.eqb_spec x pipe); [congruence|auto]. }
    rewrite <- E at 1.
    destruct (lenient_decode_split (before pipe l) pipe r) as [q ->]; [by vm_compute|].
    by apply before_app_char.
Qed.

Lemma valid_action_elem name : is_valid_action name = true <-> name ∈ VALID_ACTION_NAMES.
Proof.
  unfold is_valid_action. rewrite existsb_exists. setoid_rewrite <- list_elem_of_In.
  setoid_rewrite eqs_true. naive_solver.
Qed.

(** Every valid name decodes to itself and holds no separator. *)
Lemma valid_action_plain name :
  name ∈ VALID_ACTION_NAMES -> lenient_decode name = name /\ pipe ∉ name.
Proof.
  intros H. assert (Hall : Forall (fun n => lenient_decode n = n /\ pipe ∉ n) VALID_ACTION_NAMES)
    by (by apply (bool_decide_unpack _); vm_compute).
  rewrite Forall_forall in Hall. by apply Hall.
Qed.

Lemma canonical_name payload :
  isKnown (canonicalizeActionPayload payload) = true ->
  before pipe (lenient_decode (buffer (canonicalizeActionPayload payload)))
  = actionName (canonicalizeActionPayload payload)
  /\ actionName (canonicalizeActionPayload payload) ∈ VALID_ACTION_NAMES.
Proof.
  unfold canonicalizeActionPayload. cbn [isKnown buffer actionName].
  set (raw := lenient_decode (before pipe payload)).
  set (name := default raw (assoc raw ACTION_ALIASES)). intros Hk. rewrite Hk.
  apply valid_action_elem in Hk. split; [|done]. cbn [andb].
  destruct (eqs name raw) eqn:E; cbn [negb].
  - b2p. by rewrite before_pipe_decode, E.
  - rewrite before_pipe_decode. apply valid_action_plain in Hk as [Hd Hp].
    by rewrite before_app_from.
Qed.

(** ** Properties *)

(** C30: the storage gate stores only protocol actions, and drops no money: a non-empty
    stored ACTION has a canonical name of the allowlist (no alias survives) and came
    from a payload within its size ceiling, and a record is skipped only when the
    transaction carries no output to record. *)
Theorem storage_gate_sound r sk d raw n :
  buildStoredActionRecord r = (StoredAction sk d raw, n) ->
  (d <> [] -> sk = false
     /\ before pipe d ∈ VALID_ACTION_NAMES
     /\ assoc (before pipe d) ACTION_ALIASES = None
     /\ compiledDataLength r <= default MAX_ACTION_DATA_LENGTH (payloadCeiling r)
                                `max` (if bool_decide (payloadCeiling r = Some 0)
                                       then MAX_ACTION_DATA_LENGTH else 0))
  /\ (sk = true -> dispenseOutputs r = [] /\ paymentOutputs r = []).
Proof.
  unfold buildStoredActionRecord. intros H.
  assert (Hskip : negb (match dispenseOutputs r, paymentOutputs r with
                        | [], [] => false | _, _ => true end) = true ->
    dispenseOutputs r = [] /\ paymentOutputs r = []).
  { by destruct (dispenseOutputs r), (paymentOutputs r). }
  destruct (is_empty (data r)); [injection H as <- <- <- <-; split; [intros []; reflexivity|done]|].
  set (ceiling := match payloadCeiling r with Some _ => _ | None => _ end) in H.
  destruct (Z.ltb_spec ceiling (compiledDataLength r)) as [|Hle];
    [injection H as <- <- <- <-; split; [intros []; reflexivity|exact Hskip]|].
  assert (Hd : exists e, (match strict_decode (buffer (canonicalizeActionPayload (data r))) with
      | Some d => (d, 0)
      | None => (lenient_decode (buffer (canonicalizeActionPayload (data r))), 1) end)
      = (lenient_decode (buffer (canonicalizeActionPayload (data r))), e)).
  { unfold strict_decode. destruct (forallb _ _); by eexists. }
  destruct Hd as [e He]. rewrite He in H.
  destruct (isKnown _) eqn:Hk; cbn [negb] in H;
    [|injection H as <- <- <- <-; split; [intros []; reflexivity|exact Hskip]].
  destruct (canonical_name _ Hk) as [Hn Hv]. revert H Hn Hv.
  generalize (lenient_decode (buffer (canonicalizeActionPayload (data r)))) as txt.
  generalize (actionName (canonicalizeActionPayload (data r))) as name.
  intros name txt H Hn Hv. injection H as <- <- <- <-. split; [|done].
  intros _. split; [done|]. rewrite Hn. split; [done|]. split.
  - assert (Hall : Forall (fun n => assoc n ACTION_ALIASES = None) VALID_ACTION_NAMES)
      by (by apply (bool_decide_unpack _); vm_compute).
    rewrite Forall_forall in Hall. by apply Hall.
  - revert Hle. unfold ceiling. clear ceiling. destruct (payloadCeiling r) as [c|]; simpl; [|lia].
    destruct (Z.eqb_spec c 0) as [->|].
    + rewrite bool_decide_true by done. lia.
    + rewrite bool_decide_false by congruence. lia.
Qed.

Definition sample_result (d : bytes) : parse_result :=
  ParseResult (Some (js "src")) None None d None 20 (Some 8192) [] [].

Lemma storage_gate_sound_witness :
  buildStoredActionRecord (sample_result (js "MSG|0|hi"))
    = (StoredAction false (js "MESSAGE|0|hi") None, 0)
  /\ before pipe (js "MESSAGE|0|hi") ∈ VALID_ACTION_NAMES.
Proof.
  assert (H : buildStoredActionRecord (sample_result (js "MSG|0|hi"))
    = (StoredAction false (js "MESSAGE|0|hi") None, 0)) by by vm_compute.
  split; [exact H|]. apply (storage_gate_sound _ _ _ _ _ H). done.
Defined.

(** The allowlist has thirty-seven names. *)
Example allowlist_size : length VALID_ACTION_NAMES = 37%nat.
Proof. by vm_compute. Qed.
