(* ===== verification/Carrier.v ===== *)
(** * Carriers

    src/src/XChainDecoder/carrier_extraction.js, envelope_recognition.js (the witness
    grammar) and the script helpers of source_resolution.js: where in a transaction
    the bytes of an ACTION are, and which of its outputs are dispenses or payments.

    bitcoinjs-lib (script decompilation, output addresses, transaction parsing), the
    AES-128-CTR cipher and the node's getrawtransaction are not under src/: they are
    the members of [ChainLib]. *)
From S2P Require Import Prelude JsNum Activation Config StorageGate Db DbRows Atomic.
#[local] Open Scope Z_scope.

(** ** Transactions and the libraries *)

(** An element of a decompiled script. *)
Inductive chunk := COp (op : Z) | CData (b : bytes).
#[export] Instance chunk_eq_dec : EqDecision chunk.
Proof. solve_decision. Defined.

Inductive decompiled := Chunks (l : list chunk) | NullScript | DecompileThrows.

Record tx_input := TxInput {
  in_hash : bytes;                   (* the previous txid, as on the wire *)
  in_index : Z;
  in_script : bytes;
  in_witness : list bytes;
  in_standard : option bool          (* ["standard_input"], when the parser set it *)
}.

Record tx_output := TxOutput { out_script : bytes; out_value : Z }.

Record transaction := Transaction {
  tx_id : option jstr;               (* [getId()]; [None] when it throws *)
  ins : list tx_input;
  outs : list tx_output
}.

Class ChainLib := {
  script_decompile : bytes -> decompiled;
  fromOutputScript : bytes -> option jstr;           (* [None] when it throws *)
  aes128ctr : jstr -> jstr -> bytes -> bytes;        (* key, iv, data *)
  node_transaction : jstr -> option jstr;            (* getrawtransaction, as hex *)
  transactionFromHex : jstr -> option transaction    (* [None] when it throws *)
}.

Definition OP_0 : Z := 0.
Definition OP_IF : Z := 99.
Definition OP_ENDIF : Z := 104.
Definition OP_RETURN : Z := 106.
Definition OP_CHECKSIG : Z := 172.
Definition OP_CHECKMULTISIG : Z := 174.

Definition MAGIC_WORD_BUFFER : bytes := js "XCHN".
Definition P2SH_BUFFER : bytes := js "p2sh".
Definition P2WSH_BUFFER : bytes := js "p2wsh".
Definition FUNDING_VOUT_BASE : Z := 1000000.
Definition TAPROOT_LEAF_VERSION : Z := 192.
Definition TAPROOT_ANNEX_MARKER : Z := 80.
Definition COINBASE_PREV_TXID : jstr := replicate 64 48.

(** ** Small helpers *)

Definition hex_digit (d : Z) : Z := if d <? 10 then 48 + d else 87 + d.

Definition uint8ArrayToHex (b : bytes) : jstr :=
  flat_map (fun x => [hex_digit (x / 16); hex_digit (x mod 16)]) b.

Definition prev_txid (i : tx_input) : jstr := uint8ArrayToHex (rev (in_hash i)).

Definition byte_at (s : bytes) (i : nat) : Z := default (-1) (s !! i).

Definition isFutureSegwitScript (script : bytes) : bool :=
  let len := Z.of_nat (length script) in
  if (len <? 4) || (42 <? len) then false
  else
    let version := byte_at script 0 in
    if (version <? 82) || (96 <? version) then false
    else
      let pushLen := byte_at script 1 in
      (2 <=? pushLen) && (pushLen <=? 40) && (len =? pushLen + 2).

Inductive carrier_type := P2sh | P2wsh.

Definition revealCarrierType (script : bytes) : option carrier_type :=
  let isP2sh := (length script =? 23)%nat && (byte_at script 0 =? 169)
                && (byte_at script 1 =? 20) && (byte_at script 22 =? 135) in
  let isP2wsh := (length script =? 34)%nat && (byte_at script 0 =? 0)
                 && (byte_at script 1 =? 32) in
  if isP2sh then Some P2sh else if isP2wsh then Some P2wsh else None.

(** [chunk == n]: a Buffer is converted to a string and then to a number. *)
Definition loosely_equals (c : chunk) (n : Z) : bool :=
  match c with
  | COp op => op =? n
  | CData b => num_is (string_to_number (lenient_decode b)) n
  end.

(** [chunk === n] *)
Definition strictly_equals (c : chunk) (n : Z) : bool :=
  match c with COp op => op =? n | CData _ => false end.

Section Carrier.
Context {Lib : ChainLib}.

(** The address of an output script, when it has one. *)
Definition address_of_script (script : bytes) : option jstr :=
  if isFutureSegwitScript script then None else fromOutputScript script.

(** ** Outputs *)

Record output_lists := OutputLists { dispenses : list output; payments : list output }.

Definition captureOutputAddress (nextOutput : tx_output) (txOutputIndex : Z)
    (openDispenserAddresses : gset jstr) (acc : output_lists) : bool * output_lists :=
  match address_of_script (out_script nextOutput) with
  | Some (c :: a) =>
      let o := Output txOutputIndex (Some (c :: a)) (out_value nextOutput) in
      if bool_decide ((c :: a) ∈ openDispenserAddresses)
      then (true, OutputLists (dispenses acc ++ [o]) (payments acc))
      else (false, OutputLists (dispenses acc) (payments acc ++ [o]))
  | _ => (false, acc)
  end.

(** ** Chunk carriers *)

Definition chunk_failure {A} : M A :=
  count (add_parse_errors 1);; throw (plain_error (js "data extraction failed")).

(** The first element of the redeem script a buffer holds, when it is data. *)
Inductive redeem_data := NoData | RedeemThrows | Redeem (b : bytes).

Definition redeem_chunk (redeem : bytes) : redeem_data :=
  match script_decompile redeem with
  | DecompileThrows => RedeemThrows
  | Chunks (CData b :: _) => Redeem b
  | _ => NoData
  end.

Definition p2sh_chunk (i : tx_input) : redeem_data :=
  match script_decompile (in_script i) with
  | DecompileThrows => RedeemThrows
  | Chunks (_ :: _ :: CData redeem :: _) => redeem_chunk redeem
  | _ => NoData
  end.

Fixpoint readP2shChunks (inputs : list tx_input) (nextDataBuffer : bytes) : M bytes :=
  match inputs with
  | [] => mret nextDataBuffer
  | i :: rest =>
      match p2sh_chunk i with
      | RedeemThrows => chunk_failure
      | NoData => readP2shChunks rest nextDataBuffer
      | Redeem b => readP2shChunks rest (nextDataBuffer ++ b)
      end
  end.

Definition p2wsh_chunk (cfg : decoder_config) (i : tx_input) : redeem_data :=
  if bool_decide (supportsSegwit cfg = Some false) then NoData
  else match in_witness i with
       | _ :: _ :: redeem :: _ => redeem_chunk redeem
       | _ => NoData
       end.

Fixpoint readP2wshChunks (cfg : decoder_config) (inputs : list tx_input)
    (nextDataBuffer : bytes) : M bytes :=
  match inputs with
  | [] => mret nextDataBuffer
  | i :: rest =>
      match p2wsh_chunk cfg i with
      | RedeemThrows => chunk_failure
      | NoData => readP2wshChunks cfg rest nextDataBuffer
      | Redeem b => readP2wshChunks cfg rest (nextDataBuffer ++ b)
      end
  end.

(** ** OP_RETURN and MULTISIGN carriers *)

Definition removeObfuscation (data : chunk) (txid : jstr) : option bytes :=
  if (length txid <? 32)%nat then None
  else match data with
       | CData b => Some (aes128ctr (take 16 txid) (take 16 (drop 16 txid)) b)
       | COp _ => None
       end.

Record carrier := CarrierState {
  nextDataBuffer : bytes;
  otherCarrierRecognized : bool;
  p2shFundingTxId : option jstr
}.

Definition has_magic (b : bytes) : bool := eqs (take 4 b) MAGIC_WORD_BUFFER.

Definition readOpReturnCarrier (cfg : decoder_config) (t : transaction) (data : chunk)
    (firstInputTxId : jstr) (c : carrier) : M carrier :=
  match removeObfuscation data firstInputTxId with
  | None => mret c
  | Some plain =>
      if negb (has_magic plain) then mret c
      else
        let rest := drop 4 plain in
        if eqs rest P2SH_BUFFER then
          buf ← readP2shChunks (ins t) (nextDataBuffer c);
          mret (CarrierState buf true (Some firstInputTxId))
        else if eqs rest P2WSH_BUFFER then
          buf ← readP2wshChunks cfg (ins t) (nextDataBuffer c);
          mret (CarrierState buf true (Some firstInputTxId))
        else mret (CarrierState (nextDataBuffer c ++ rest) true (p2shFundingTxId c))
  end.

Definition readMultisignCarrier (key1 key2 : bytes) (firstInputTxId : jstr) (c : carrier)
  : carrier :=
  match removeObfuscation (CData (drop 1 key1 ++ drop 1 key2)) firstInputTxId with
  | None => c
  | Some plain =>
      if has_magic plain
      then CarrierState (nextDataBuffer c ++ drop 4 plain) true (p2shFundingTxId c)
      else c
  end.

(** The carrier one output contributes; the buffer starts empty at each output. *)
Definition read_carrier (cfg : decoder_config) (t : transaction) (script : list chunk)
    (firstInputTxId : jstr) (c : carrier) : M carrier :=
  match script with
  | [op; data] =>
      if loosely_equals op OP_RETURN then readOpReturnCarrier cfg t data firstInputTxId c
      else mret c
  | [_; key1; key2; _; _; op] =>
      if loosely_equals op OP_CHECKMULTISIG then
        match key1, key2 with
        | CData k1, CData k2 => mret (readMultisignCarrier k1 k2 firstInputTxId c)
        | _, _ => mret c
        end
      else mret c
  | _ => mret c
  end.

Record scan := Scan {
  dataBuffer : bytes;
  getSource : bool;
  scan_fundingTxId : option jstr;
  scan_otherCarrier : bool;
  scan_outputs : output_lists
}.

Fixpoint scanOutputs (cfg : decoder_config) (t : transaction) (open : gset jstr)
    (firstInputTxId : jstr) (outputs : list tx_output) (txOutputIndex : Z) (s : scan)
  : M scan :=
  match outputs with
  | [] => mret s
  | o :: rest =>
      match script_decompile (out_script o) with
      | DecompileThrows => throw (plain_error (js "script decompile failed"))
      | d =>
          let '(isDispense, lists) := captureOutputAddress o txOutputIndex open (scan_outputs s) in
          let start := CarrierState [] (scan_otherCarrier s) (scan_fundingTxId s) in
          c ← (match d with
               | Chunks script => read_carrier cfg t script firstInputTxId start
               | _ => mret start
               end);
          scanOutputs cfg t open firstInputTxId rest (txOutputIndex + 1)
            (Scan (dataBuffer s ++ nextDataBuffer c) (getSource s || isDispense)
               (p2shFundingTxId c) (otherCarrierRecognized c) lists)
      end
  end.

(** ** The payload *)

Record payload := Payload {
  pl_data : bytes; pl_rawData : option bytes; pl_getSource : bool; pl_compiledLength : Z
}.

(** The [parseErrors] increment of reportEmptyLeadingPush. *)
Definition reportEmptyLeadingPush (decompiledData : list chunk) (buf : bytes) : M unit :=
  match decompiledData with
  | c :: rest =>
      if strictly_equals c 0
         && ((0 <? length rest)%nat || (1 <? length buf)%nat)
      then count (add_parse_errors 1) else mret tt
  | [] => mret tt
  end.

Definition decompilePayload (envelopeCarrier : bool) (p : payload) : M payload :=
  if is_empty (pl_data p) then mret p
  else
    match script_decompile (pl_data p) with
    | DecompileThrows => throw (plain_error (js "payload decompile failed"))
    | NullScript | Chunks [] =>
        mret (Payload [] (pl_rawData p) (pl_getSource p) (pl_compiledLength p))
    | Chunks (COp op :: rest) =>
        reportEmptyLeadingPush (COp op :: rest) (pl_data p);;
        mret (Payload [] (pl_rawData p) (pl_getSource p) (pl_compiledLength p))
    | Chunks (CData action :: rest) =>
        let len := if envelopeCarrier then pl_compiledLength p
                   else compiledPushSize (Z.of_nat (length action)) in
        match rest with
        | [] => mret (Payload action (pl_rawData p) true len)
        | CData raw :: _ =>
            mret (Payload action (Some raw) true
                   (if envelopeCarrier then len
                    else len + compiledPushSize (Z.of_nat (length raw))))
        | COp _ :: _ => mret (Payload action None true len)
        end
    end.

(** ** The Taproot envelope *)

Definition envelopeScriptFromWitness (witness : list bytes) : option bytes :=
  match rev witness with
  | control :: script :: _ =>
      match control with
      | [] => None
      | first :: _ =>
          if first =? TAPROOT_ANNEX_MARKER then None
          else if negb (Z.land first 254 =? TAPROOT_LEAF_VERSION) then None
          else if (length control <? 33)%nat
                  || negb ((Z.of_nat (length control) - 33) mod 32 =? 0) then None
          else if (length script <? 8)%nat then None
          else Some script
      end
  | _ => None
  end.

(** The run of data pushes at the head of a script, and the rest. *)
Fixpoint take_data (l : list chunk) : list bytes * list chunk :=
  match l with
  | CData b :: l' => let '(bs, r) := take_data l' in (b :: bs, r)
  | _ => ([], l)
  end.

Definition envelopeShapeFromScript (script : bytes) : option bytes :=
  match script_decompile script with
  | Chunks l =>
      if (length l <? 8)%nat then None
      else match l with
           | COp op0 :: COp opIf :: CData magic :: CData [format] :: rest =>
               if negb ((op0 =? OP_0) && (opIf =? OP_IF) && eqs magic MAGIC_WORD_BUFFER
                        && (format =? 0)) then None
               else
                 let '(payloadPushes, after) := take_data rest in
                 match payloadPushes, after with
                 | [], _ => None
                 | _, [COp opEndif; CData key; COp opSig] =>
                     if (opEndif =? OP_ENDIF) && (length key =? 32)%nat
                        && (opSig =? OP_CHECKSIG)
                     then Some (concat payloadPushes) else None
                 | _, _ => None
                 end
           | _ => None
           end
  | _ => None
  end.

Definition detectEnvelopeWitness (witness : list bytes) : option bytes :=
  envelopeScriptFromWitness witness ≫= envelopeShapeFromScript.

(** ** The discipline: carriers never touch the database *)

Section Discipline.
Context {T : tables} {I : tables -> Prop}.

Lemma txn_chunk_failure {A} : txn T I false (@chunk_failure A) stays.
Proof. apply txn_bind; [apply txn_count|intros _; apply txn_throw]. Qed.

Lemma txn_readP2shChunks l b : txn T I false (readP2shChunks l b) stays.
Proof.
  revert b. induction l as [|i l IH]; intros b; simpl; [by apply txn_ret|].
  case_match; [done|apply txn_chunk_failure|done].
Qed.

Lemma txn_readP2wshChunks cfg l b : txn T I false (readP2wshChunks cfg l b) stays.
Proof.
  revert b. induction l as [|i l IH]; intros b; simpl; [by apply txn_ret|].
  case_match; [done|apply txn_chunk_failure|done].
Qed.

Lemma txn_read_carrier cfg t s id c : txn T I false (read_carrier cfg t s id c) stays.
Proof.
  unfold read_carrier, readOpReturnCarrier. repeat case_match; try (by apply txn_ret).
  - apply txn_bind; [apply txn_readP2shChunks|intros b; by apply txn_ret].
  - apply txn_bind; [apply txn_readP2wshChunks|intros b; by apply txn_ret].
Qed.

Lemma txn_scanOutputs cfg t open id l i s :
  txn T I false (scanOutputs cfg t open id l i s) stays.
Proof.
  revert i s. induction l as [|o l IH]; intros i s; cbn [scanOutputs]; [by apply txn_ret|].
  destruct (captureOutputAddress _ _ _ _) as [d lists].
  destruct (script_decompile _); [| |apply txn_throw].
  - apply txn_bind; [apply txn_read_carrier|intros c; apply IH].
  - apply txn_bind; [by apply txn_ret|intros c; apply IH].
Qed.

Lemma txn_decompilePayload e p : txn T I false (decompilePayload e p) stays.
Proof.
  unfold decompilePayload. repeat case_match; try (by apply txn_ret); try apply txn_throw.
  apply txn_bind; [|intros _; by apply txn_ret].
  unfold reportEmptyLeadingPush. case_match; [apply txn_count|by apply txn_ret].
Qed.
End Discipline.
End Carrier.
