(* ===== verification/Parse.v ===== *)
(** * Parsing a transaction

    src/src/XChainDecoder/transaction_parsing.js, source_resolution.js, the commit
    lookups of envelope_recognition.js and findFundingFeeOutputs
    (dispenser_and_oracle_fees.js): the parse result of one transaction.

    A node read is a call that may fail ([faults]); a read that fails, or answers
    nothing for a confirmed transaction, throws tagged [rpcLookupFailure], and a
    transaction that cannot be decoded throws untagged. *)
From S2P Require Import Prelude JsNum Activation Config StorageGate Db DbRows Atomic Carrier.
#[local] Open Scope Z_scope.

Section Parse.
Context {Coll : Collation} {Lib : ChainLib}.

(** ** Node reads *)

Definition tag_rpc_failure (err : jserror) : jserror :=
  JsError (errno err) (dbLookupFailure err) true (message err).

Definition call_node (txid : jstr) : M (option jstr) :=
  query (fun w => inr (node_transaction txid, w)).

Definition parse_hex (hex : jstr) : M transaction :=
  match transactionFromHex hex with
  | Some t => mret t
  | None => throw (plain_error (js "transaction decode failed"))
  end.

(** The fetch every lookup performs: read, tag a failure, decode outside the tag. *)
Definition fetchTransaction (txid : jstr) : M transaction :=
  hex ← try_catch
    (r ← call_node txid;
     match r with
     | Some (c :: h) => mret (c :: h)
     | _ => throw (plain_error (js "empty getrawtransaction result"))
     end)
    (fun err => count add_rpc_error;; throw (tag_rpc_failure err));
  parse_hex hex.

Definition fetchPrevoutTransaction (txId : jstr) : M transaction := fetchTransaction txId.
Definition fetchEnvelopeCommitTransaction (txId : jstr) : M transaction :=
  fetchTransaction txId.

(** The output the first input of [t] spends: walking back from a coinbase, or from
    a transaction without inputs, is a content error. *)
Definition fetchCommitFundingOutput (t : transaction) : M (option tx_output) :=
  match ins t with
  | [] => throw (plain_error (js "no input"))
  | i :: _ =>
      if eqs (prev_txid i) COINBASE_PREV_TXID
      then throw (plain_error (js "carrier output is paid by a coinbase"))
      else
        p ← fetchTransaction (prev_txid i);
        mret (if in_index i <? 0 then None else outs p !! Z.to_nat (in_index i))
  end.

Definition source_of_output (o : option tx_output) : option jstr :=
  o ≫= fun o => address_of_script (out_script o).

(** The source and the first-hop transaction ([capture.sourceTransaction]). *)
Definition getSourceFromOutput (cfg : decoder_config) (txId : jstr) (outputIndex : Z)
    (blockHeight : jsval) : M (option jstr * transaction) :=
  t ← fetchPrevoutTransaction txId;
  match (if outputIndex <? 0 then None else outs t !! Z.to_nat outputIndex) with
  | None => mret (None, t)
  | Some o =>
      let walk := match revealCarrierType (out_script o) with
                  | Some P2sh => true
                  | Some P2wsh => p2wshWalkbackEnabled (supportsSegwit cfg) (coinTick cfg)
                                    (consensusNetwork cfg) blockHeight
                  | None => false
                  end in
      if walk then
        o' ← fetchCommitFundingOutput t;
        mret (source_of_output o', t)
      else mret (source_of_output (Some o), t)
  end.

Definition getEnvelopeSourceFromCommit (commit : transaction) : M (option jstr) :=
  match ins commit with
  | [] => mret None
  | _ => o ← fetchCommitFundingOutput commit; mret (source_of_output o)
  end.

Definition pubkey_length (b : bytes) : bool :=
  (length b =? 33)%nat || (length b =? 65)%nat.

(** [None] inside the computation is [null]; decompiling may throw. *)
Definition extractPubkeyFromInput (i : tx_input) : M (option jstr) :=
  let from_script :=
    if is_empty (in_script i) then mret None
    else match script_decompile (in_script i) with
         | DecompileThrows => throw (plain_error (js "input decompile failed"))
         | Chunks l =>
             match rev l with
             | CData k :: _ :: _ =>
                 mret (if pubkey_length k then Some (uint8ArrayToHex k) else None)
             | _ => mret None
             end
         | NullScript => mret None
         end in
  match in_witness i with
  | _ :: k :: _ => if pubkey_length k then mret (Some (uint8ArrayToHex k)) else from_script
  | _ => from_script
  end.

(** ** Fees on the funding transaction *)

Fixpoint fee_outputs (feeAddress : jstr) (l : list tx_output) (vout : Z) : list output :=
  match l with
  | [] => []
  | o :: rest =>
      let tail := fee_outputs feeAddress rest (vout + 1) in
      match address_of_script (out_script o) with
      | Some (c :: a) =>
          if eqs (c :: a) feeAddress then Output vout (Some (c :: a)) (out_value o) :: tail
          else tail
      | _ => tail
      end
  end.

Definition findFundingFeeOutputs (cfg : decoder_config) (fundingTxId : jstr)
    (prefetchedFundingTx : option transaction) : M (list output) :=
  match feeDestination cfg with
  | None => mret []
  | Some dest =>
      if is_empty fundingTxId then mret []
      else
        t ← (match prefetchedFundingTx with
             | Some t => mret t
             | None => fetchTransaction fundingTxId
             end);
        mret (fee_outputs dest (outs t) 0)
  end.

Definition to_funding_domain (o : output) : output :=
  Output (FUNDING_VOUT_BASE + vout o) (destinationAddress o) (amount o).

Definition attributeFundingFees (cfg : decoder_config) (p2shFunding : option jstr)
    (firstInputTxId : jstr) (envelopeCommit sourceTransaction : option transaction)
    (paymentOutputs : list output) : M (list output) :=
  match p2shFunding with
  | None => mret paymentOutputs
  | Some txid =>
      let prefetched :=
        match envelopeCommit with
        | Some t => Some t
        | None => if eqs txid firstInputTxId then sourceTransaction else None
        end in
      fees ← findFundingFeeOutputs cfg txid prefetched;
      mret (paymentOutputs ++ map to_funding_domain fees)
  end.

(** ** Envelope arbitration *)

Record envelope_input := EnvelopeInput { env_index : Z; env_payload : bytes }.

Fixpoint envelope_inputs (l : list tx_input) (index : Z) : list envelope_input :=
  match l with
  | [] => []
  | i :: rest =>
      match detectEnvelopeWitness (in_witness i) with
      | Some p => EnvelopeInput index p :: envelope_inputs rest (index + 1)
      | None => envelope_inputs rest (index + 1)
      end
  end.

Record arbitration := Arbitration {
  arb_data : bytes; arb_funding : option jstr; arb_envelope : bool;
  arb_commit : option transaction
}.

Definition arbitrateEnvelope (cfg : decoder_config) (envelopeActive : bool)
    (envelopeInputs : list envelope_input) (blockHeight : jsval) (firstInputTxId : jstr)
    (otherCarrierRecognized : bool) (buf : bytes) (funding : option jstr) : M arbitration :=
  match envelopeInputs with
  | e :: more =>
      if negb envelopeActive then mret (Arbitration buf funding false None)
      else
        let otherCarrierPresent :=
          negb (is_empty buf) || bool_decide (funding <> None)
          || (envelopeCarrierRecognitionActiveAt (coinTick cfg) (consensusNetwork cfg) blockHeight
              && otherCarrierRecognized) in
        if negb (bool_decide (more = [])) || otherCarrierPresent || negb (env_index e =? 0)
        then count (add_parse_errors 1);; mret (Arbitration [] None false None)
        else
          commit ← fetchEnvelopeCommitTransaction firstInputTxId;
          mret (Arbitration (env_payload e) (Some firstInputTxId) true (Some commit))
  | [] => mret (Arbitration buf funding false None)
  end.

(** ** The steps of a parse

    [recordPubkey] is [db !== this.mempoolDb]. *)

Definition capturePubkey (recordPubkey : bool) (keyInput : option tx_input)
    (src : option jstr) : M (option jstr) :=
  match src, keyInput with
  | Some (c :: s), Some i =>
      pubkey ← extractPubkeyFromInput i;
      match pubkey with
      | Some (k :: ks) =>
          (if recordPubkey : bool then
             addressId ← getAddressId (c :: s);
             match (addressId : option Z) with
             | Some id =>
                 if id =? 0 then mret tt
                 else
                   known ← hasPubkey id;
                   if (known : bool) then mret tt else insertPubkey id (k :: ks);; mret tt
             | None => mret tt
             end
           else mret tt);;
          mret pubkey
      | _ => mret None
      end
  | _, _ => mret None
  end.

Definition resolveXChainTransaction (cfg : decoder_config) (t : transaction)
    (first : tx_input) (recordPubkey : bool) (blockHeight : jsval) (firstInputTxId : jstr)
    (s : scan) (arb : arbitration) : M parse_result :=
  p ← decompilePayload (arb_envelope arb)
        (Payload (arb_data arb) None (getSource s) (Z.of_nat (length (arb_data arb))));
  resolved ← (if pl_getSource p then
                if arb_envelope arb then
                  match arb_commit arb with
                  | Some commit =>
                      src ← getEnvelopeSourceFromCommit commit; mret (src, None)
                  | None => mret (None, None)
                  end
                else
                  r ← getSourceFromOutput cfg firstInputTxId (in_index first) blockHeight;
                  mret (r.1, Some r.2)
              else mret (None, None));
  let src := resolved.1 in
  let keyInput := if arb_envelope arb then arb_commit arb ≫= (fun c => head (ins c))
                  else Some first in
  pubkey ← capturePubkey recordPubkey keyInput src;
  pays ← attributeFundingFees cfg (arb_funding arb) firstInputTxId (arb_commit arb)
           resolved.2 (payments (scan_outputs s));
  mret {| source := src; sourcePubkey := pubkey; destination := None;
          data := pl_data p; rawData := pl_rawData p;
          compiledDataLength := pl_compiledLength p;
          payloadCeiling := Some (if arb_envelope arb then ENVELOPE_MAX_PAYLOAD
                                  else MAX_ACTION_DATA_LENGTH);
          dispenseOutputs := dispenses (scan_outputs s);
          paymentOutputs := pays |}.

Definition parseXChainTransaction (cfg : decoder_config) (t : transaction)
    (first : tx_input) (open : gset jstr) (recordPubkey : bool) (blockHeight : jsval)
    (firstInputTxId : jstr) : M parse_result :=
  let envelopeActive := envelopeActiveAt (coinTick cfg) (consensusNetwork cfg) blockHeight in
  let envelopes := if envelopeActive then envelope_inputs (ins t) 0 else [] in
  s ← scanOutputs cfg t open firstInputTxId (outs t) 0
        (Scan [] false None false (OutputLists [] []));
  arb ← arbitrateEnvelope cfg envelopeActive envelopes blockHeight firstInputTxId
          (scan_otherCarrier s) (dataBuffer s) (scan_fundingTxId s);
  resolveXChainTransaction cfg t first recordPubkey blockHeight firstInputTxId s arb.

(** [None] is [null]: no inputs, a coinbase, or a non-standard first input. *)
Definition parseTransaction (cfg : decoder_config) (t : transaction) (open : gset jstr)
    (recordPubkey : bool) (blockHeight : jsval) : M (option parse_result) :=
  match ins t with
  | [] => mret None
  | first :: _ =>
      match tx_id t with
      | None => throw (plain_error (js "getId failed"))
      | Some _ =>
          let firstInputTxId := prev_txid first in
          if negb (eqs firstInputTxId COINBASE_PREV_TXID)
             && default true (in_standard first)
          then
            r ← parseXChainTransaction cfg t first open recordPubkey blockHeight firstInputTxId;
            mret (Some r)
          else mret None
      end
  end.

(** ** The discipline: a parse never ends the block's transaction *)

Section Discipline.
Context {T : tables} {I : tables -> Prop} {HI : Interning I}.

Lemma txn_call_node txid : txn T I false (call_node txid) stays.
Proof. apply txn_query. by intros w a w' [= <- <-]. Qed.

Lemma txn_fetchTransaction txid : txn T I false (fetchTransaction txid) stays.
Proof.
  unfold fetchTransaction. apply txn_bind.
  - apply txn_try.
    + apply txn_bind; [apply txn_call_node|intros r]. repeat case_match; txn_auto.
    + intros e. apply txn_bind; [apply txn_count|intros _; apply txn_throw].
  - intros h. unfold parse_hex. case_match; [by apply txn_ret|apply txn_throw].
Qed.

Lemma txn_fetchCommitFundingOutput t : txn T I false (fetchCommitFundingOutput t) stays.
Proof.
  unfold fetchCommitFundingOutput. case_match; [apply txn_throw|].
  case_match; [apply txn_throw|].
  apply txn_bind; [apply txn_fetchTransaction|intros p; by apply txn_ret].
Qed.

Lemma txn_getSourceFromOutput cfg txId i h :
  txn T I false (getSourceFromOutput cfg txId i h) stays.
Proof.
  unfold getSourceFromOutput. apply txn_bind; [apply txn_fetchTransaction|intros t].
  destruct (if i <? 0 then None else _) as [o|]; [|by apply txn_ret].
  destruct (match revealCarrierType _ with Some _ => _ | None => _ end); [|by apply txn_ret].
  apply txn_bind; [apply txn_fetchCommitFundingOutput|intros x; by apply txn_ret].
Qed.

Lemma txn_getEnvelopeSource c : txn T I false (getEnvelopeSourceFromCommit c) stays.
Proof.
  unfold getEnvelopeSourceFromCommit. case_match; [by apply txn_ret|].
  apply txn_bind; [apply txn_fetchCommitFundingOutput|intros o; by apply txn_ret].
Qed.

Lemma txn_extractPubkey i : txn T I false (extractPubkeyFromInput i) stays.
Proof.
  unfold extractPubkeyFromInput.
  repeat case_match; (apply txn_throw || by apply txn_ret).
Qed.

Lemma txn_capturePubkey r k s : txn T I false (capturePubkey r k s) stays.
Proof.
  unfold capturePubkey. destruct s as [[|c s]|]; [by apply txn_ret| |by apply txn_ret].
  destruct k as [i|]; [|by apply txn_ret].
  apply txn_bind; [apply txn_extractPubkey|intros p].
  destruct p as [[|x p]|]; [by apply txn_ret| |by apply txn_ret].
  apply txn_bind; [|intros _; by apply txn_ret].
  destruct r; [|by apply txn_ret].
  apply txn_bind; [apply txn_getAddressId|intros [id|]]; [|by apply txn_ret].
  case_match; [by apply txn_ret|].
  apply txn_bind; [apply txn_hasPubkey|intros []]; [by apply txn_ret|].
  apply txn_bind; [apply txn_insertPubkey|intros _; by apply txn_ret].
Qed.

Lemma txn_attributeFundingFees cfg f id c s l :
  txn T I false (attributeFundingFees cfg f id c s l) stays.
Proof.
  unfold attributeFundingFees. case_match; [|by apply txn_ret].
  apply txn_bind; [|intros r; by apply txn_ret].
  unfold findFundingFeeOutputs. case_match; [|by apply txn_ret].
  case_match; [by apply txn_ret|]. apply txn_bind; [|intros x; by apply txn_ret].
  case_match; [by apply txn_ret|apply txn_fetchTransaction].
Qed.

Lemma txn_arbitrate cfg a e h id o b f :
  txn T I false (arbitrateEnvelope cfg a e h id o b f) stays.
Proof.
  unfold arbitrateEnvelope. repeat (case_match; try by apply txn_ret).
  - apply txn_bind; [apply txn_count|intros _; by apply txn_ret].
  - apply txn_bind; [apply txn_fetchTransaction|intros x; by apply txn_ret].
Qed.

Lemma txn_parseTransaction cfg t open r h :
  txn T I false (parseTransaction cfg t open r h) stays.
Proof.
  unfold parseTransaction. case_match; [by apply txn_ret|]. case_match; [|apply txn_throw].
  case_match; [|by apply txn_ret].
  apply txn_bind; [|intros x; by apply txn_ret].
  unfold parseXChainTransaction. apply txn_bind; [apply txn_scanOutputs|intros s].
  apply txn_bind; [apply txn_arbitrate|intros arb].
  unfold resolveXChainTransaction. apply txn_bind; [apply txn_decompilePayload|intros p].
  apply txn_bind.
  - case_match; [|by apply txn_ret]. case_match.
    + case_match; [|by apply txn_ret].
      apply txn_bind; [apply txn_getEnvelopeSource|intros x; by apply txn_ret].
    + apply txn_bind; [apply txn_getSourceFromOutput|intros x; by apply txn_ret].
  - intros src. apply txn_bind; [apply txn_capturePubkey|intros k].
    apply txn_bind; [apply txn_attributeFundingFees|intros pays]. by apply txn_ret.
Qed.
End Discipline.
End Parse.
