(* ===== verification/Sample.v ===== *)
(** * A concrete chain

    Concrete functions for the parameters of the model (a collation, the script and
    transaction libraries, the node), a configuration and transactions: what the witnesses
    evaluate. *)
From S2P Require Import Prelude JsNum Config Db DbRows Carrier.
#[local] Open Scope Z_scope.

(** Direct pushes and single-byte opcodes: enough script for the sample. *)
Fixpoint sample_chunks (fuel : nat) (s : bytes) : decompiled :=
  match fuel, s with
  | _, [] => Chunks []
  | O, _ => NullScript
  | S n, c :: rest =>
      if (1 <=? c) && (c <=? 75) then
        let k := Z.to_nat c in
        if (length rest <? k)%nat then NullScript
        else match sample_chunks n (drop k rest) with
             | Chunks l => Chunks (CData (take k rest) :: l)
             | d => d
             end
      else match sample_chunks n rest with
           | Chunks l => Chunks (COp c :: l)
           | d => d
           end
  end.

(** The address of a P2PKH script: its hash, in hex. *)
Definition sample_address (script : bytes) : option jstr :=
  match script with
  | 118 :: 169 :: 20 :: rest =>
      if (length rest =? 22)%nat then Some (uint8ArrayToHex (take 20 rest)) else None
  | _ => None
  end.

Definition p2pkh (k : Z) : bytes := [118; 169; 20] ++ replicate 20 k ++ [136; 172].
Definition sample_wallet (k : Z) : jstr := uint8ArrayToHex (replicate 20 k).

Definition sample_prev_tx : transaction :=
  Transaction (Some (js "previous")) [] [TxOutput (p2pkh 7) 5000].

#[export] Instance sample_lib : ChainLib := {
  script_decompile s := sample_chunks (length s) s;
  fromOutputScript := sample_address;
  aes128ctr _ _ b := b;
  node_transaction _ := Some (js "00");
  transactionFromHex h := if eqs h (js "00") then Some sample_prev_tx else None
}.

#[export] Instance sample_collation : Collation := { collate s := s }.

Definition push (b : bytes) : bytes := Z.of_nat (length b) :: b.

(** An OP_RETURN carrying an action. *)
Definition action_output (action : jstr) : tx_output :=
  TxOutput (OP_RETURN :: push (MAGIC_WORD_BUFFER ++ push action)) 0.

Definition sample_input : tx_input := TxInput (replicate 32 17) 0 [] [] None.

Definition coinpay_tx : transaction :=
  Transaction (Some (replicate 64 97)) [sample_input]
    [action_output (js "COINPAY|0|1"); TxOutput (p2pkh 9) 150000000].

Definition dispenser_tx : transaction :=
  Transaction (Some (replicate 64 98)) [sample_input]
    [action_output (js "DISPENSER|0|BTC|1|||X|BTC|1|1")].

Definition edit_tx : transaction :=
  Transaction (Some (replicate 64 101)) [sample_input]
    [action_output (js "DISPENSER|2|1|5|1800000000")].

Definition sample_config : decoder_config :=
  DecoderConfig (js "mainnet") (js "BTC") None 30 100 None.

Definition idle_world (t : tables) (fs : list (option fault)) : world :=
  World t None false false 2 2 fs fresh_stats.
