(* ===== verification/CarrierFacts.v ===== *)
(** * What a parse reads

    Properties of Carrier.v and Parse.v: the envelope grammar, the partition of a
    transaction's outputs, and the vouts of a parse result. *)
From S2P Require Import Prelude JsNum Activation Config StorageGate Db DbRows Atomic Carrier.
From S2P Require Import Parse Sample.
#[local] Open Scope Z_scope.

Section Envelope.
Context {Lib : ChainLib}.

(** The chunks of an envelope leaf script. *)
Definition envelope_chunks (pushes : list bytes) (key : bytes) : list chunk :=
  [COp OP_0; COp OP_IF; CData MAGIC_WORD_BUFFER; CData [0]] ++ map CData pushes
  ++ [COp OP_ENDIF; CData key; COp OP_CHECKSIG].

Lemma take_data_app pushes op rest :
  take_data (map CData pushes ++ COp op :: rest) = (pushes, COp op :: rest).
Proof. induction pushes as [|p l IH]; simpl; [done|]. by rewrite IH. Qed.

Lemma take_data_split l pushes after :
  take_data l = (pushes, after) -> l = map CData pushes ++ after.
Proof.
  revert pushes. induction l as [|[op|b] l IH]; intros pushes; simpl.
  - by intros [= <- <-].
  - by intros [= <- <-].
  - destruct (take_data l) as [bs r] eqn:E. intros [= <- <-]. simpl. f_equal. by apply IH.
Qed.

(** The envelope recogniser accepts exactly the envelope grammar: a leaf script is an
    envelope if and only if it is OP_0 OP_IF, the magic word, the version byte 0, one or
    more data pushes, OP_ENDIF, a 32-byte key and OP_CHECKSIG, and the payload is then
    the concatenation of those pushes, so an accepted script has one reading. *)
Theorem envelope_shape_iff script p :
  envelopeShapeFromScript script = Some p <->
  exists pushes key, script_decompile script = Chunks (envelope_chunks pushes key)
    /\ pushes <> [] /\ length key = 32%nat /\ p = concat pushes.
Proof.
  unfold envelopeShapeFromScript. split.
  - destruct (script_decompile script) as [l| |]; [|done|done].
    destruct (length l <? 8)%nat; [done|].
    destruct l as [|[op0|] [|[opIf|] [|[|magic] [|[|[|fmt [|]]] rest]]]]; try done.
    destruct (negb _) eqn:Hh; [done|]. b2p.
    destruct (take_data rest) as [pushes after] eqn:Et. apply take_data_split in Et as ->.
    destruct pushes as [|p0 pushes]; [done|].
    destruct after as [|[opE|] [|[|key] [|[opS|] [|]]]]; try done.
    case_match eqn:Hc; [|done]. intros [= <-]. b2p.
    exists (p0 :: pushes), key. subst. repeat split; try done.
    by match goal with H : (_ =? 32)%nat = true |- _ => apply Nat.eqb_eq in H end.
  - intros (pushes & key & -> & Hp & Hk & ->). unfold envelope_chunks. cbn [app].
    replace (length _ <? 8)%nat with false.
    2: { symmetry. apply Nat.ltb_ge. simpl. rewrite length_app, length_map. simpl.
         destruct pushes; [done|]. simpl. lia. }
    simpl negb. cbn iota. rewrite take_data_app. destruct pushes; [done|].
    by rewrite Hk.
Qed.
End Envelope.

(** ** What a computation returns *)

Definition returns {A} (m : M A) (P : A -> Prop) : Prop :=
  forall w a w', m w = (Ret a, w') -> P a.

Lemma returns_ret {A} (a : A) (P : A -> Prop) : P a -> returns (mret a) P.
Proof. by intros Ha w x w' [= <- <-]. Qed.

Lemma returns_throw {A} e (P : A -> Prop) : returns (throw e) P.
Proof. by intros w a w'. Qed.

Lemma returns_bind {A B} (m : M A) (k : A -> M B) (P : A -> Prop) Q :
  returns m P -> (forall a, P a -> returns (k a) Q) -> returns (m ≫= k) Q.
Proof.
  intros Hm Hk w b w'. unfold mbind, M_bind.
  destruct (m w) as [[a|e|] w1] eqn:E; [|done|done]. by apply Hk, (Hm w a w1).
Qed.

Lemma returns_any {A} (m : M A) : returns m (fun _ => True).
Proof. by intros w a w' _. Qed.

Lemma returns_after {A B} (m : M A) (k : A -> M B) Q :
  (forall a, returns (k a) Q) -> returns (m ≫= k) Q.
Proof. intros Hk. eapply returns_bind; [apply returns_any|auto]. Qed.

Lemma returns_try {A} (m : M A) h (P : A -> Prop) :
  returns m P -> (forall e, returns (h e) P) -> returns (try_catch m h) P.
Proof.
  intros Hm Hh w a w'. unfold try_catch. destruct (m w) as [[x|e|] w1] eqn:E.
  - intros [= <- <-]. by eapply Hm.
  - apply Hh.
  - done.
Qed.

Section Outputs.
Context {Coll : Collation} {Lib : ChainLib} (cfg : decoder_config).

(** The outputs of a transaction that pay an address. *)
Fixpoint addressed (index : Z) (l : list tx_output) : list output :=
  match l with
  | [] => []
  | o :: rest =>
      match address_of_script (out_script o) with
      | Some (c :: a) => Output index (Some (c :: a)) (out_value o) :: addressed (index + 1) rest
      | _ => addressed (index + 1) rest
      end
  end.

Definition pays (open : gset jstr) (o : output) : bool :=
  match destinationAddress o with Some a => bool_decide (a ∈ open) | None => false end.

Lemma captureOutputAddress_spec o index open acc :
  (captureOutputAddress o index open acc).2
  = OutputLists (dispenses acc ++ List.filter (pays open) (addressed index [o]))
      (payments acc ++ List.filter (fun x => negb (pays open x)) (addressed index [o])).
Proof.
  unfold captureOutputAddress. simpl. destruct (address_of_script _) as [[|c a]|].
  - destruct acc. simpl. by rewrite !app_nil_r.
  - unfold pays. simpl. destruct (bool_decide _); simpl; by rewrite app_nil_r.
  - destruct acc. simpl. by rewrite !app_nil_r.
Qed.

Lemma addressed_cons index o l :
  addressed index (o :: l) = addressed index [o] ++ addressed (index + 1) l.
Proof. simpl. by destruct (address_of_script _) as [[|c a]|]. Qed.

Lemma scan_partition t open id l index s :
  returns (scanOutputs cfg t open id l index s) (fun s' =>
    dispenses (scan_outputs s')
      = dispenses (scan_outputs s) ++ List.filter (pays open) (addressed index l)
    /\ payments (scan_outputs s')
      = payments (scan_outputs s)
        ++ List.filter (fun o => negb (pays open o)) (addressed index l)).
Proof.
  revert index s. induction l as [|o l IH]; intros index s.
  - apply returns_ret. simpl. by rewrite !app_nil_r.
  - rewrite addressed_cons, !List.filter_app, !app_assoc. cbn [scanOutputs].
    pose proof (captureOutputAddress_spec o index open (scan_outputs s)) as Hc.
    destruct (captureOutputAddress o index open (scan_outputs s)) as [isDispense lists].
    simpl in Hc. subst lists.
    destruct (script_decompile (out_script o)); [| |apply returns_throw];
      apply returns_after; intros c; apply (IH (index + 1) (Scan _ _ _ _ (OutputLists _ _))).
Qed.

(** An output is captured exactly once and by the open-dispenser set alone: whatever
    carriers a scan meets, the dispense outputs it returns are, in order, the outputs
    paying an address of the set and the payment outputs are all the others that pay an
    address, each under its own index and value. *)
Theorem scan_partitions_outputs t open id l index s :
  returns (scanOutputs cfg t open id l index s) (fun s' =>
    dispenses (scan_outputs s')
      = dispenses (scan_outputs s) ++ List.filter (pays open) (addressed index l)
    /\ payments (scan_outputs s')
      = payments (scan_outputs s)
        ++ List.filter (fun o => negb (pays open o)) (addressed index l)).
Proof. apply scan_partition. Qed.

Lemma addressed_vouts index l o :
  o ∈ addressed index l -> index <= vout o < index + Z.of_nat (length l).
Proof.
  revert index. induction l as [|x l IH]; intros index.
  { intros H. by apply not_elem_of_nil in H. }
  rewrite addressed_cons. intros H. apply elem_of_app in H as [H|H].
  - simpl in H. destruct (address_of_script _) as [[|c a]|]; try by apply not_elem_of_nil in H.
    apply elem_of_cons in H as [->|H]; [|by apply not_elem_of_nil in H]. simpl. lia.
  - specialize (IH _ H). simpl. lia.
Qed.

Lemma addressed_nodup index l : NoDup (map vout (addressed index l)).
Proof.
  revert index. induction l as [|x l IH]; intros index; [constructor|].
  simpl. destruct (address_of_script _) as [[|c a]|]; [apply IH| |apply IH].
  constructor; [|apply IH]. intros H. apply list_elem_of_fmap in H as (o & Ho & H).
  apply addressed_vouts in H. simpl in Ho. lia.
Qed.

Lemma fee_outputs_sublist feeAddress index l :
  map vout (fee_outputs feeAddress l index) `sublist_of` map vout (addressed index l).
Proof.
  revert index. induction l as [|x l IH]; intros index; simpl; [constructor|].
  destruct (address_of_script _) as [[|c a]|]; [apply IH| |apply IH].
  case_match; simpl; constructor; apply IH.
Qed.

Lemma findFundingFeeOutputs_vouts txid pre :
  returns (findFundingFeeOutputs cfg txid pre) (fun l =>
    NoDup (map vout l) /\ Forall (fun o => 0 <= vout o) l).
Proof.
  unfold findFundingFeeOutputs. destruct (feeDestination cfg) as [dest|].
  2: { apply returns_ret. split; constructor. }
  case_match; [apply returns_ret; split; constructor|].
  apply returns_after. intros t. apply returns_ret.
  pose proof (fee_outputs_sublist dest 0 (outs t)) as Hs. split.
  - eapply sublist_NoDup; [apply addressed_nodup|exact Hs].
  - apply Forall_forall. intros o Ho.
    assert (Hv : vout o ∈ map vout (addressed 0 (outs t))).
    { eapply elem_of_sublist; [|exact Hs]. by apply list_elem_of_fmap_2. }
    apply list_elem_of_fmap in Hv as (o' & -> & Ho'). apply addressed_vouts in Ho'. lia.
Qed.

(** The vouts of a list of outputs stay below the funding domain. *)
Definition real_vouts (l : list output) : Prop :=
  NoDup (map vout l) /\ Forall (fun o => 0 <= vout o < FUNDING_VOUT_BASE) l.

Lemma attributeFundingFees_vouts f id c s ds ps :
  real_vouts (ds ++ ps) ->
  returns (attributeFundingFees cfg f id c s ps) (fun l => NoDup (map vout (ds ++ l))).
Proof.
  intros [Hn Hb]. unfold attributeFundingFees. destruct f as [txid|]; [|by apply returns_ret].
  eapply returns_bind; [apply findFundingFeeOutputs_vouts|]. intros fees [Hf H0].
  apply returns_ret. rewrite app_assoc, map_app. apply NoDup_app. split_and!; [done| |].
  - intros v Hv Hv'. apply list_elem_of_fmap in Hv as (o & -> & Ho).
    rewrite Forall_forall in Hb, H0. specialize (Hb _ Ho).
    apply list_elem_of_fmap in Hv' as (o' & E & Ho').
    apply list_elem_of_fmap in Ho' as (o'' & -> & Ho'). specialize (H0 _ Ho').
    simpl in E. lia.
  - rewrite map_map. simpl.
    change (NoDup (map (fun o => FUNDING_VOUT_BASE + vout o) fees)).
    rewrite <- (map_map vout (Z.add FUNDING_VOUT_BASE)).
    apply NoDup_fmap_2; [|done]. intros a b. lia.
Qed.

Lemma partition_vouts open l :
  Z.of_nat (length l) <= FUNDING_VOUT_BASE ->
  real_vouts (List.filter (pays open) (addressed 0 l)
              ++ List.filter (fun o => negb (pays open o)) (addressed 0 l)).
Proof.
  intros Hl.
  assert (Hp : List.filter (pays open) (addressed 0 l)
    ++ List.filter (fun o => negb (pays open o)) (addressed 0 l) ≡ₚ addressed 0 l).
  { induction (addressed 0 l) as [|o r IH]; simpl; [done|].
    destruct (pays open o); simpl; [by constructor|].
    rewrite <- Permutation_middle. by constructor. }
  split.
  - rewrite Hp. apply addressed_nodup.
  - rewrite Hp. apply Forall_forall. intros o Ho. apply addressed_vouts in Ho. lia.
Qed.

Lemma resolve_vouts t first rp h id s arb :
  real_vouts (dispenses (scan_outputs s) ++ payments (scan_outputs s)) ->
  returns (resolveXChainTransaction cfg t first rp h id s arb) (fun r =>
    NoDup (map vout (dispenseOutputs r ++ paymentOutputs r))).
Proof.
  intros Hs. unfold resolveXChainTransaction.
  do 3 (apply returns_after; intros ?).
  eapply returns_bind; [by apply attributeFundingFees_vouts|].
  intros pays Hp. by apply returns_ret.
Qed.

(** The outputs of a parse result never collide: the dispense outputs, the payment
    outputs and the fee outputs read off the funding transaction all have distinct
    vouts (funding ones live above [FUNDING_VOUT_BASE]), so storing them never meets the
    (tx_index, vout) primary key, on any transaction of at most a million outputs. *)
Theorem parse_vouts_distinct t open rp h :
  Z.of_nat (length (outs t)) <= FUNDING_VOUT_BASE ->
  returns (parseTransaction cfg t open rp h) (fun r =>
    match r with
    | Some r => NoDup (map vout (dispenseOutputs r ++ paymentOutputs r))
    | None => True
    end).
Proof.
  intros Hl. unfold parseTransaction.
  destruct (ins t) as [|first l]; [by apply returns_ret|].
  destruct (tx_id t); [|apply returns_throw]. case_match; [|by apply returns_ret].
  eapply returns_bind with
    (P := fun r => NoDup (map vout (dispenseOutputs r ++ paymentOutputs r)));
    [|intros r Hr; by apply returns_ret].
  unfold parseXChainTransaction.
  eapply returns_bind; [apply scan_partition|]. intros s [E1 E2]. simpl in E1, E2.
  apply returns_after. intros arb. apply resolve_vouts. rewrite E1, E2.
  by apply partition_vouts.
Qed.
End Outputs.

Lemma parse_vouts_distinct_witness :
  Z.of_nat (length (outs coinpay_tx)) <= FUNDING_VOUT_BASE
  /\ (exists r w', parseTransaction sample_config coinpay_tx ∅ true (jint 100)
        (idle_world initial_tables []) = (Ret (Some r), w') /\ paymentOutputs r <> [])
  /\ returns (parseTransaction sample_config coinpay_tx ∅ true (jint 100)) (fun r =>
       match r with
       | Some r => NoDup (map vout (dispenseOutputs r ++ paymentOutputs r))
       | None => True
       end).
Proof.
  split; [done|]. split.
  - eexists _, _. split; [vm_compute; reflexivity|done].
  - by apply (parse_vouts_distinct sample_config coinpay_tx ∅ true (jint 100)).
Defined.

(** An envelope with one push, and a transaction scanned against an open address. *)
Example envelope_sample :
  envelopeShapeFromScript (OP_0 :: OP_IF :: push MAGIC_WORD_BUFFER ++ push [0] ++ push (js "A|1")
    ++ push (js "|2") ++ OP_ENDIF :: push (replicate 32 5) ++ [OP_CHECKSIG]) = Some (js "A|1|2").
Proof. by vm_compute. Qed.

(** The opcode test of the carrier scan also accepts data: a two-element output script
    that pushes the text "106" before its data is handled exactly as an OP_RETURN carrier
    is, because a decompiled push is compared with the opcode as a number; a strict
    comparison would tell them apart. *)
Theorem text_106_reads_as_op_return `{ChainLib} cfg t data id c :
  read_carrier cfg t [CData (js "106"); data] id c
  = read_carrier cfg t [COp OP_RETURN; data] id c
  /\ strictly_equals (CData (js "106")) OP_RETURN = false.
Proof. split; [|by vm_compute]. unfold read_carrier. by vm_compute loosely_equals. Qed.
