(* ===== verification/Ingest.v ===== *)
(** * Ingesting one transaction

    src/src/XChainDecoder/transaction_ingest.js, the registration and extension calls of
    dispenser_registration.js and the oracle-fee resolution of
    dispenser_and_oracle_fees.js: parsing with the retry-then-quarantine ladder, the
    transactions row, the captured outputs and the dispenser bookkeeping.

    The fields of [loop] and the open-address set are threaded; a result is a
    directive ('rollback', 'continue' or none). *)
From Stdlib Require Import QArith.QArith_base.
From S2P Require Import Prelude JsNum Activation Batch Collapse Config DispenserCommand Db.
From S2P Require Import DbRows Atomic Dispensers StorageGate Carrier Parse.
#[local] Open Scope Z_scope.

Inductive directive := Rollback | Continue | Proceed.
#[export] Instance directive_eq_dec : EqDecision directive.
Proof. solve_decision. Defined.

Definition is_rollback (d : directive) : bool := match d with Rollback => true | _ => false end.

(** ** The loop's state *)

Record loop_state := LoopState {
  lastProcessedTxIndex : Z;
  validTransactionsCount : Z;
  txParseRetryCounts : gmap jstr Z;
  insertQuarantineCounts : gmap jstr Z;
  insertQuarantine : gset jstr;
  parseQuarantine : gset jstr
}.

Definition colon : Z := 58.

Definition quarantineKey (nextBlockHeight : Z) (nextBlockHash : jstr) (txIndex : Z) : jstr :=
  dec_digits nextBlockHeight ++ colon :: nextBlockHash ++ colon :: dec_digits txIndex.

(** The running total after one more failed attempt. *)
Definition countAttempt (attempts : gmap jstr Z) (key : jstr) : Z * gmap jstr Z :=
  let attempt := default 0 (attempts !! key) + 1 in
  (attempt, <[key := attempt]> attempts).

Definition TX_PARSE_MAX_RETRIES : Z := 3.

Definition clearQuarantineState (loop : loop_state) : loop_state :=
  LoopState (lastProcessedTxIndex loop) (validTransactionsCount loop) ∅ ∅ ∅ ∅.

Definition with_parse_counts m l := LoopState (lastProcessedTxIndex l) (validTransactionsCount l)
  m (insertQuarantineCounts l) (insertQuarantine l) (parseQuarantine l).
Definition with_insert_counts m l := LoopState (lastProcessedTxIndex l) (validTransactionsCount l)
  (txParseRetryCounts l) m (insertQuarantine l) (parseQuarantine l).
Definition add_insert_quarantine k l := LoopState (lastProcessedTxIndex l)
  (validTransactionsCount l) (txParseRetryCounts l) (insertQuarantineCounts l)
  ({[k]} ∪ insertQuarantine l) (parseQuarantine l).
Definition add_parse_quarantine k l := LoopState (lastProcessedTxIndex l)
  (validTransactionsCount l) (txParseRetryCounts l) (insertQuarantineCounts l)
  (insertQuarantine l) ({[k]} ∪ parseQuarantine l).
Definition next_tx_index l := LoopState (lastProcessedTxIndex l + 1)
  (validTransactionsCount l + 1) (txParseRetryCounts l) (insertQuarantineCounts l)
  (insertQuarantine l) (parseQuarantine l).

Section Ingest.
Context {Coll : Collation} {Lib : ChainLib}.
Context (cfg : decoder_config).

(** ** Oracle-fee addresses of a transaction

    [None] is [false], the database fault; the block is then already rolled back. *)

Definition resolveOracleFeeAddresses (decodedData : jstr) (src : option jstr)
    (blockTime : jsval) : M (option (list jstr)) :=
  if negb (startsWith (js "DISPENSER|") decodedData) then mret (Some [])
  else if negb (isOracleFeeCaptureActive (consensusNetwork cfg) blockTime) then mret (Some [])
  else
    let fields := split_on pipe decodedData in
    if num_is (format_of fields) 0 then
      if isCompactedOracleAddress fields then
        count (add_parse_errors 1);; mret (Some [])
      else mret (Some (match oracleAddressFromCreate fields with
                       | Some a => [a] | None => [] end))
    else if num_is (format_of fields) 2 then
      match truthy src with
      | None => mret (Some [])
      | Some s =>
          if isOracleFeeSetCaptureActive (consensusNetwork cfg) blockTime then
            getOpenDispenserOracleAddressesBySource s
          else
            r ← getOpenDispenserOracleAddressBySource s;
            mret (match r with
                  | None => None
                  | Some None => Some []
                  | Some (Some a) => Some [a]
                  end)
      end
    else mret (Some []).

Definition oracle_cache_key (command : jstr) : jstr :=
  if startsWith (js "DISPENSER|2|") command then js "DISPENSER|2|" else command.

Fixpoint resolve_commands (commands : list jstr) (src : option jstr) (blockTime : jsval)
    (addresses : list jstr) (resolved : gset jstr) : M (option (list jstr)) :=
  match commands with
  | [] => mret (Some addresses)
  | c :: rest =>
      if negb (startsWith (js "DISPENSER|") c)
      then resolve_commands rest src blockTime addresses resolved
      else if bool_decide (oracle_cache_key c ∈ resolved)
      then resolve_commands rest src blockTime addresses resolved
      else
        r ← resolveOracleFeeAddresses c src blockTime;
        match r with
        | None => mret None
        | Some more =>
            resolve_commands rest src blockTime (addresses ++ more)
              ({[oracle_cache_key c]} ∪ resolved)
        end
  end.

Definition resolveOracleFeeAddressesForCommands (commands : list jstr) (src : option jstr)
    (blockTime : jsval) : M (option (list jstr)) :=
  resolve_commands commands src blockTime [] ∅.

(** ** Quarantine *)

Definition quarantine_message : jstr :=
  js "deterministic INSERT failure (quarantined after 3 block retries)".

Definition insertParseErrorEvent (time : jsval) (height txIndex : Z) (hash : option jstr)
    (error : jstr) : M directive :=
  r ← insertEvent (ParseErrorEvent height txIndex hash error time);
  mret (match r with NotInserted | PoisonRow => Rollback | _ => Continue end).

Definition skipQuarantinedTransaction (time : jsval) (height : Z) (t : transaction)
    (txIndex : Z) : M directive :=
  count (add_parse_errors 1);;
  d ← insertParseErrorEvent time height txIndex (tx_id t) quarantine_message;
  match d with
  | Rollback => mret Rollback
  | _ => count (add_quarantine height (tx_id t));; mret Continue
  end.

Definition handleParseFailure (loop : loop_state) (e : jserror) (time : jsval) (height : Z)
    (hash : option jstr) (txIndex : Z) (retryKey : jstr) : M (directive * loop_state) :=
  if dbLookupFailure e || rpcLookupFailure e then endTransaction;; mret (Rollback, loop)
  else if bool_decide (retryKey ∈ parseQuarantine loop) then
    d ← insertParseErrorEvent time height txIndex hash (message e);
    mret (d, loop)
  else
    let '(attempt, counts) := countAttempt (txParseRetryCounts loop) retryKey in
    let loop := with_parse_counts counts loop in
    if attempt <=? TX_PARSE_MAX_RETRIES then endTransaction;; mret (Rollback, loop)
    else
      count (add_parse_errors 1);;
      d ← insertParseErrorEvent time height txIndex hash (message e);
      match d with
      | Rollback => mret (Rollback, loop)
      | _ => count (add_quarantine height hash);;
             mret (Continue, add_parse_quarantine retryKey loop)
      end.

(** A parse result with its hash, or the directive of a failed parse. *)
Definition parsed : Type := (jstr * option parse_result) + (directive * loop_state).

Definition parseBlockTransaction (loop : loop_state) (time : jsval) (height : Z)
    (open : gset jstr) (t : transaction) (txIndex : Z) (retryKey : jstr) : M parsed :=
  try_catch
    (match tx_id t with
     | None => throw (plain_error (js "getId failed"))
     | Some id => r ← parseTransaction cfg t open true (jint height); mret (inl (id, r))
     end)
    (fun e => d ← handleParseFailure loop e time height (tx_id t) txIndex retryKey;
              mret (inr d)).

(** ** Persisting *)

Definition persist_row (loop : loop_state) (r : parse_result) (hash : jstr) (height : Z)
    (stored : stored_action) (retryKey : jstr) : M (directive * loop_state) :=
  res ← insertTransaction (NewTransaction (lastProcessedTxIndex loop) (Some hash) height
          (source r) (sourcePubkey r) (destination r) None 0
          (Some (stored_data stored)) (stored_rawData stored));
  match res with
  | PoisonRow =>
      let '(attempt, counts) := countAttempt (insertQuarantineCounts loop) retryKey in
      let loop := with_insert_counts counts loop in
      mret (Rollback, if TX_PARSE_MAX_RETRIES <? attempt
                      then add_insert_quarantine retryKey loop else loop)
  | NotInserted => mret (Rollback, loop)
  | Duplicated => endTransaction;; mret (Rollback, loop)
  | Inserted => mret (Proceed, loop)
  end.

Definition store_output (txIndex : Z) (o : output) : M directive :=
  res ← insertTransactionOutput txIndex (vout o) (destinationAddress o) (amount o);
  match res with
  | NotInserted | PoisonRow => mret Rollback
  | Duplicated => endTransaction;; mret Rollback
  | Inserted => mret Proceed
  end.

Fixpoint store_outputs (txIndex : Z) (l : list output) : M directive :=
  match l with
  | [] => mret Proceed
  | o :: rest =>
      d ← store_output txIndex o;
      match d with
      | Rollback => mret Rollback
      | _ => store_outputs txIndex rest
      end
  end.

(** Which payment outputs a transaction's commands make capturable. *)
Definition capture_output (isCoinpay : bool) (oracles : gset jstr) (o : output) : bool :=
  let isFeeOutput := match feeDestination cfg with
                     | Some f => negb (is_empty f) && bool_decide (destinationAddress o = Some f)
                     | None => false
                     end in
  let isOracleOutput := match truthy (destinationAddress o) with
                        | Some a => bool_decide (a ∈ oracles)
                        | None => false
                        end in
  isCoinpay || isFeeOutput || isOracleOutput.

Definition is_coinpay (commands : list jstr) : bool :=
  existsb (startsWith (js "COINPAY|")) commands.

(** [None] is 'rollback'. *)
Definition capturePaymentOutputs (loop : loop_state) (time : jsval) (r : parse_result)
    (decodedData : jstr) : M (option (list jstr)) :=
  let commands := captureCommands decodedData (consensusNetwork cfg) time in
  let isCoinpay := is_coinpay commands in
  oracleFeeAddresses ← resolveOracleFeeAddressesForCommands commands (source r) time;
  match oracleFeeAddresses with
  | None => mret None
  | Some addresses =>
      let oracles : gset jstr := list_to_set addresses in
      d ← store_outputs (lastProcessedTxIndex loop)
            (List.filter (capture_output isCoinpay oracles) (paymentOutputs r));
      mret (match d with Rollback => None | _ => Some commands end)
  end.

(** ** Dispensers *)

Definition registerDispenser (loop : loop_state) (reg : registration) (open : gset jstr)
  : M (directive * gset jstr) :=
  res ← insertDispenser (OpenDispenser (lastProcessedTxIndex loop) (Some (address reg))
          (sourceAddress reg) (oracleAddress reg) (expiration reg));
  match res with
  | NotInserted | PoisonRow => mret (Rollback, open)
  | _ => mret (Proceed, if is_empty (address reg) then open else {[address reg]} ∪ open)
  end.

Fixpoint register_all (loop : loop_state) (regs : list registration) (open : gset jstr)
  : M (directive * gset jstr) :=
  match regs with
  | [] => mret (Proceed, open)
  | reg :: rest =>
      d ← registerDispenser loop reg open;
      match d.1 with
      | Rollback => mret (Rollback, open)
      | _ => register_all loop rest d.2
      end
  end.

Definition extendEditedDispenser (extension : jstr * Z) (height : Z) : M directive :=
  ok ← recordDispenserExtensionUndo extension.1 height;
  if negb ok then mret Rollback
  else
    ok' ← extendOpenDispenserExpirationBySource extension.1 extension.2 height;
    mret (if negb ok' then Rollback else Proceed).

Fixpoint extend_all (commands : list jstr) (prefix : jstr) (src : option jstr)
    (time : jsval) (height : Z) : M directive :=
  match commands with
  | [] => mret Proceed
  | c :: rest =>
      match dispenserEditExtension cfg time c prefix src with
      | None => extend_all rest prefix src time height
      | Some ext =>
          d ← extendEditedDispenser ext height;
          match d with
          | Rollback => mret Rollback
          | _ => extend_all rest prefix src time height
          end
      end
  end.

(** [address => this.db.createAddress(address)]: a throw leaves the state it reached. *)
Definition address_lookup (a : jstr) (w : world) : option (option Z) * world :=
  match createAddress (Some a) w with
  | (Ret id, w') => (Some id, w')
  | (_, w') => (None, w')
  end.

Definition collapse_creates (candidates : list candidate) (time : jsval)
  : M (option (list registration)) := fun w =>
  let '(r, w') := collapseDispenserRegistrations candidates (consensusNetwork cfg) time
                    (Some address_lookup) w in
  (Ret r, w').

Definition persist_dispensers (loop : loop_state) (time : jsval) (height : Z)
    (open : gset jstr) (r : parse_result) (commands : list jstr)
  : M (directive * gset jstr) :=
  let prefix := dispenserCommandPrefixFor cfg time in
  let '(candidates, errors) := collectDispenserCreates cfg time commands prefix (source r) 0 in
  count (add_parse_errors errors);;
  regs ← collapse_creates candidates time;
  match regs with
  | None => endTransaction;; mret (Rollback, open)
  | Some regs =>
      d ← register_all loop regs open;
      match d.1 with
      | Rollback => mret (Rollback, open)
      | _ => e ← extend_all commands prefix (source r) time height; mret (e, d.2)
      end
  end.

(** The result of one transaction. *)
Definition outcome : Type := (directive * loop_state * gset jstr)%type.

Definition persistTransaction (loop : loop_state) (time : jsval) (height : Z)
    (open : gset jstr) (r : parse_result) (hash : jstr) (stored : stored_action)
    (retryKey : jstr) : M outcome :=
  row ← persist_row loop r hash height stored retryKey;
  match row.1 with
  | Rollback => mret (Rollback, row.2, open)
  | _ =>
      d ← store_outputs (lastProcessedTxIndex loop) (dispenseOutputs r);
      match d with
      | Rollback => mret (Rollback, row.2, open)
      | _ =>
          commands ← capturePaymentOutputs loop time r (stored_data stored);
          match commands with
          | None => mret (Rollback, row.2, open)
          | Some commands =>
              p ← persist_dispensers loop time height open r commands;
              mret (p.1, row.2, p.2)
          end
      end
  end.

Definition ingest_parsed (loop : loop_state) (time : jsval) (height : Z) (open : gset jstr)
    (hash : jstr) (pr : option parse_result) (retryKey : jstr) : M outcome :=
  match pr with
  | None => mret (Proceed, loop, open)
  | Some r =>
      if hasStorableContent pr then
        let loop := next_tx_index loop in
        let '(stored, errors) := buildStoredActionRecord r in
        count (add_parse_errors errors);;
        if skip stored then mret (Continue, loop, open)
        else persistTransaction loop time height open r hash stored retryKey
      else
        (if negb (is_empty (data r)) && bool_decide (source r = None)
         then count (add_parse_errors 1) else mret tt);;
        mret (Proceed, loop, open)
  end.

Definition ingestTransaction (loop : loop_state) (time : jsval) (height : Z)
    (open : gset jstr) (t : transaction) (txIndex : Z) (blockHash : jstr) : M outcome :=
  let retryKey := quarantineKey height blockHash txIndex in
  if bool_decide (retryKey ∈ insertQuarantine loop) then
    d ← skipQuarantinedTransaction time height t txIndex;
    mret (d, loop, open)
  else
    p ← parseBlockTransaction loop time height open t txIndex retryKey;
    match (p : parsed) with
    | inr d => mret (d, open)
    | inl (hash, pr) => ingest_parsed loop time height open hash pr retryKey
    end.
End Ingest.
