(* ===== verification/IngestAtomic.v ===== *)
(** * Ingest is atomic, and stores what was parsed

    Every path of Ingest.v against the transaction discipline of Atomic.v: a 'rollback'
    directive means the block's transaction has been undone and the handle is idle, any
    other directive that it is still open, over tables that hold exactly what the
    transaction's parse asks for ([tx_ingested]). *)
From S2P Require Import Prelude JsNum Activation Batch Collapse Config DispenserCommand Db.
From S2P Require Import DbRows Atomic Dispensers DispenserReorg StorageGate Carrier Parse.
From S2P Require Import CarrierFacts Ingest.
#[local] Open Scope Z_scope.

(** ** The invariants of a block being stored *)

Section Stored.
Context {Coll : Collation} (h : Z) (T : tables).

(** The tables reached from [T] by writes of block [h]. *)
Definition storing (t : tables) : Prop := block_writes h T t.

Lemma storing_write s t : storing t -> write_ok h s t -> storing (apply_write h s t).
Proof. intros Ht Hs. by apply writes_step. Qed.

#[export] Instance storing_interning : Interning storing.
Proof.
  split.
  - intros r t Ht. by apply (storing_write (WAddress r)).
  - intros r t Ht. by apply (storing_write (WHash r)).
  - intros i k t Ht. by apply (storing_write (WPubkey i k)).
  - intros e t Ht. by apply (storing_write (WEvent e)).
Qed.

#[export] Instance storing_expire m : Closed storing (expire_rows h m).
Proof. intros t Ht. by apply (storing_write (WExpire m)). Qed.

(** The same, with the transactions and outputs known. *)
Record owning (X : list tx_row) (O : list output_row) (t : tables) : Prop := {
  own_writes : storing t;
  own_txs : transactions t = X;
  own_outputs : transaction_outputs t = O
}.

Lemma owning_closed X O (f : tables -> tables) :
  (forall t, owning X O t -> storing (f t)) ->
  (forall t, transactions (f t) = transactions t) ->
  (forall t, transaction_outputs (f t) = transaction_outputs t) -> Closed (owning X O) f.
Proof. intros Hf Hx Ho t Ht. split; [by apply Hf|rewrite Hx|rewrite Ho]; by destruct Ht. Qed.

#[export] Instance owning_interning X O : Interning (owning X O).
Proof.
  split; intros; apply owning_closed; try done; try (intros t [Ht _ _]; by apply closed);
    intros t; unfold insert_pubkey_row; by case_match.
Qed.

(** Nothing but interned strings, pubkeys and events. *)
Record interned (t : tables) : Prop := {
  in_writes : storing t;
  in_blocks : blocks t = blocks T;
  in_txs : transactions t = transactions T;
  in_outputs : transaction_outputs t = transaction_outputs T;
  in_dispensers : dispensers t = dispensers T;
  in_undo : dispenser_extension_undo t = dispenser_extension_undo T
}.

#[export] Instance interned_interning : Interning interned.
Proof.
  split; intros; intros t [Ht ? ? ? ? ?]; (split; [by apply closed|..]); try done;
    unfold insert_pubkey_row; by case_match.
Qed.

Lemma owning_interned t :
  interned t -> owning (transactions T) (transaction_outputs T) t.
Proof. by intros [Ht _ Hx Ho _ _]. Qed.

Lemma interned_refl : interned T.
Proof. split; [constructor|done..]. Qed.

(** Output and dispenser rows belong to a transaction the block has inserted. *)
Lemma owning_output X O r t :
  o_tx_index r ∈ tx_indexes_of h t -> owning X O t ->
  owning X (O ++ [r]) (with_outputs (fun l => l ++ [r]) t).
Proof.
  intros Hi [Ht Hx Ho]. split; [by apply (storing_write (WOutput r))|done|]. simpl. by rewrite Ho.
Qed.

Lemma owning_register X O d t :
  d_tx_index d ∈ tx_indexes_of h t -> d_expired d = None -> owning X O t ->
  owning X O (with_dispensers (fun l => l ++ [d]) t).
Proof. intros Hi He [Ht Hx Ho]. split; [by apply (storing_write (WRegister d))|done|done]. Qed.

Lemma owning_insert X O r t :
  t_block r = h -> transaction_conflict r t = None -> owning X O t ->
  owning (X ++ [r]) O (with_transactions (fun l => l ++ [r]) t).
Proof.
  intros Hb Hc [Ht Hx Ho]. split; [|by simpl; rewrite Hx|done].
  apply (storing_write (WTransaction r)); [done|]. split; [done|].
  unfold transaction_conflict in Hc. destruct (existsb _ _) eqn:E; [done|].
  intros (x & Ex & Hin)%list_elem_of_fmap. apply not_true_iff_false in E. apply E, existsb_exists.
  exists x. split; [by apply list_elem_of_In|]. by rewrite Ex, Z.eqb_refl.
Qed.

(** The pre-image capture is what lets the extension be undone. *)
Lemma owning_undo X O s t :
  owning X O t -> owning X O (record_undo s h t) /\ recorded h s (record_undo s h t).
Proof.
  intros [Ht Hx Ho]. split; [|apply record_undo_recorded].
  by split; [apply (storing_write (WRecordUndo s))|..].
Qed.

Lemma owning_extend X O s e t :
  owning X O t -> recorded h s t -> owning X O (extend_rows s e h t).
Proof. intros [Ht Hx Ho] Hr. by split; [apply (storing_write (WExtend s e))|..]. Qed.
End Stored.

(** ** What the rows of a block rest on *)

Lemma block_writes_trans `{Collation} h T B t :
  block_writes h T B -> block_writes h B t -> block_writes h T t.
Proof. intros HB. induction 1; [done|]. by econstructor. Qed.

(** The indexes of strings only grow, so an id keeps naming its string. *)
Lemma block_writes_index `{Collation} h B t :
  block_writes h B t ->
  index_transactions B `prefix_of` index_transactions t
  /\ index_addresses B `prefix_of` index_addresses t.
Proof.
  induction 1 as [|t' s Ht [IH1 IH2] Hok]; [by split|].
  destruct s; try exact (conj IH1 IH2); simpl.
  - split; [exact IH1|]. etrans; [exact IH2|apply prefix_app_r, reflexivity].
  - split; [|exact IH2]. etrans; [exact IH1|apply prefix_app_r, reflexivity].
  - unfold insert_pubkey_row. by case_match.
Qed.

Lemma row_for_mono `{Collation} h tx B t r :
  block_writes h B t -> row_for tx B r -> row_for tx t r.
Proof.
  intros [Hh Ha]%block_writes_index []. split; try done; by eapply names_mono.
Qed.

Lemma output_of_mono `{Collation} h i v d a B t r :
  block_writes h B t -> output_of i v d a B r -> output_of i v d a t r.
Proof.
  intros [_ Ha]%block_writes_index (Hi & Hv & Hn & Hm). split_and!; try done. by eapply names_mono.
Qed.

(** ** What ingesting does

    [tx_ingested time i tx n open B n' open' t]: the transaction at position [i] of the
    block, ingested over the tables [B] with [n] the last index given and the addresses
    [open] open, leaves the tables [t], the index [n'] and the addresses [open'].  Either it
    has nothing to store by its parse, run over those very tables, or its one row carries
    its hash and what the parse found, under the next index, followed by the outputs its
    parse reports, or it is set aside by one PARSE_ERROR event. *)
Section Spec.
Context {Coll : Collation} {Lib : ChainLib} (cfg : decoder_config) (h : Z) (time : jsval).

(** [m], run over the tables [B], came to [r]. *)
Definition ran {A} (m : M A) (B : tables) (r : res A) : Prop :=
  exists w w', live w = B /\ m w = (r, w').

Definition parse_of (tx : transaction) (open : gset jstr) : M (option parse_result) :=
  parseTransaction cfg tx open true (jint h).

(** The transaction has no id, or its parse failed on its content, with this message. *)
Definition unparsed (tx : transaction) (open : gset jstr) (B : tables) (m : jstr) : Prop :=
  exists e, message e = m /\ dbLookupFailure e || rpcLookupFailure e = false
    /\ (tx_id tx = None \/ ran (parse_of tx open) B (Throw e)).

(** The payment outputs captured, given the oracles that earn a fee. *)
Definition captured_outputs (r : parse_result) (oracles : gset jstr) : list output :=
  let commands := captureCommands (stored_data (buildStoredActionRecord r).1)
                    (consensusNetwork cfg) time in
  List.filter (capture_output cfg (is_coinpay commands) oracles) (paymentOutputs r).

(** The row of a parsed transaction. *)
Definition parsed_row (n : Z) (id : jstr) (r : parse_result) : new_transaction :=
  let stored := (buildStoredActionRecord r).1 in
  NewTransaction n (Some id) h (source r) (sourcePubkey r) (destination r) None 0
    (Some (stored_data stored)) (stored_rawData stored).

(** Outputs stored for the transaction of index [i], and nothing else. *)
Definition outputs_stored (i : Z) (l : list output) (B t : tables) : Prop :=
  block_writes h B t /\ transactions t = transactions B
  /\ exists rows, transaction_outputs t = transaction_outputs B ++ rows
       /\ Forall2 (fun o r => output_of i (vout o) (destinationAddress o) (amount o) t r) l rows.

(** The hash of the block, and the positions set aside because the server refused their row. *)
Context (hash : jstr) (aside : jstr -> Prop).

(** The one PARSE_ERROR row of a transaction that is not stored. *)
Definition parse_error_row (i : Z) (tx : transaction) (m : jstr) (t : tables) : tables :=
  with_events (fun l => l ++ [ParseErrorEvent h i (tx_id tx) m time]) t.

Inductive tx_ingested (i : Z) (tx : transaction) (n : Z) (open : gset jstr) (B : tables)
    : Z -> gset jstr -> tables -> Prop :=
  | tx_set_aside t :
      aside (quarantineKey h hash i) -> interned h B t ->
      tx_ingested i tx n open B n open (parse_error_row i tx quarantine_message t)
  | tx_unparsed m t :
      unparsed tx open B m -> interned h B t ->
      tx_ingested i tx n open B n open (parse_error_row i tx m t)
  | tx_nothing r t :
      ran (parse_of tx open) B (Ret r) -> hasStorableContent r = false -> interned h B t ->
      tx_ingested i tx n open B n open t
  | tx_skipped r t :
      ran (parse_of tx open) B (Ret (Some r)) -> hasStorableContent (Some r) = true ->
      skip (buildStoredActionRecord r).1 = true -> interned h B t ->
      tx_ingested i tx n open B (n + 1) open t
  | tx_stored id r row oracles B' open' t :
      tx_id tx = Some id -> ran (parse_of tx open) B (Ret (Some r)) ->
      hasStorableContent (Some r) = true -> skip (buildStoredActionRecord r).1 = false ->
      owning h B (transactions B ++ [row]) (transaction_outputs B) B' ->
      row_for (parsed_row (n + 1) id r) t row ->
      outputs_stored (n + 1) (dispenseOutputs r ++ captured_outputs r oracles) B' t ->
      open ⊆ open' ->
      tx_ingested i tx n open B (n + 1) open' t.

(** The transactions of the block in order, none left out. *)
Inductive ingested : Z -> list transaction -> Z -> gset jstr -> tables -> tables -> Prop :=
  | ingested_none i n open B : ingested i [] n open B B
  | ingested_next i tx l n open B n' open' B' t :
      tx_ingested i tx n open B n' open' B' -> ingested (i + 1) l n' open' B' t ->
      ingested i (tx :: l) n open B t.

Lemma tx_ingested_writes i tx n open B n' open' t :
  tx_ingested i tx n open B n' open' t -> block_writes h B t.
Proof.
  intros [t' _ [Hw _ _ _ _ _]|m t' _ [Hw _ _ _ _ _]|r t' _ _ [Hw _ _ _ _ _]|r t' _ _ _ [Hw _ _ _ _ _]
         |id r row oracles B' open2 t' _ _ _ _ [Hw _ _] _ [Ho _] _]; try done.
  1, 2: by apply (writes_step _ _ _ (WEvent (ParseErrorEvent h i (tx_id tx) _ time))).
  - by eapply block_writes_trans.
Qed.

Lemma ingested_writes i l n open B t : ingested i l n open B t -> block_writes h B t.
Proof.
  induction 1 as [|i tx l n open B n' open' B' t Htx _ IH]; [constructor|].
  eapply block_writes_trans; [by eapply tx_ingested_writes|exact IH].
Qed.

Lemma outputs_stored_app i l l' B B' t :
  outputs_stored i l B B' -> outputs_stored i l' B' t -> outputs_stored i (l ++ l') B t.
Proof.
  intros (Hw & Hx & rows & Ho & Hr) (Hw' & Hx' & rows' & Ho' & Hr').
  split; [by eapply block_writes_trans|]. split; [congruence|]. exists (rows ++ rows').
  split; [by rewrite Ho', Ho, app_assoc|]. apply Forall2_app; [|done].
  eapply Forall2_impl; [exact Hr|]. intros o r. by apply (output_of_mono h).
Qed.

Lemma outputs_stored_none i B : outputs_stored i [] B B.
Proof. split; [constructor|]. split; [done|]. exists []. by rewrite app_nil_r. Qed.
End Spec.

(** More positions may be set aside. *)
Lemma ingested_mono {Coll : Collation} {Lib : ChainLib} cfg h time hash (aside aside' : jstr -> Prop)
    i l n open B t :
  (forall k, aside k -> aside' k) ->
  ingested cfg h time hash aside i l n open B t -> ingested cfg h time hash aside' i l n open B t.
Proof.
  intros Ha. induction 1 as [|i tx l n open B n' open' B' t Htx _ IH]; [constructor|].
  eapply ingested_next; [|exact IH]. destruct Htx.
  - by apply tx_set_aside; [apply Ha|].
  - by apply tx_unparsed.
  - by eapply tx_nothing.
  - by eapply tx_skipped.
  - by eapply tx_stored.
Qed.

(** A computation ends where it ends, with what it is known to return. *)
Lemma steps_returns {Coll : Collation} {A} T I x (m : M A) ends J (P : A -> Prop) :
  steps T I x m ends J -> returns m (fun a => ends a = false -> P a) ->
  steps T I x m ends (fun a t => J a t /\ P a).
Proof.
  intros Hm HP w Hw. specialize (Hm w Hw). specialize (HP w).
  destruct (m w) as [[a|e|] w']; simpl in *; [|done..].
  destruct (ends a) eqn:Ea; [done|]. destruct Hm as [H1 H2]. split; [done|]. split; [done|].
  by eapply HP.
Qed.

Section Generic.
Context {Coll : Collation} {Lib : ChainLib} {T : tables} {I : tables -> Prop}.
Context (cfg : decoder_config).

(** An insert whose failures become a rollback directive. *)
Lemma txn_after_insert {B} (m : M insert_result) (k : insert_result -> M B) ends K J :
  steps T I Undone m ends_insert K ->
  steps T (K Inserted) Undone (k Inserted) ends J ->
  steps T (K Duplicated) Undone (k Duplicated) ends J ->
  (forall r w, ends_insert r = true -> idle T w -> post T Undone ends J (k r w)) ->
  steps T I Undone (m ≫= k) ends J.
Proof.
  intros Hm Hi Hd He. eapply txn_bind_ends; [exact Hm| |exact He].
  intros [| | |] Hr; (done || (simpl in Hr; discriminate)).
Qed.

(** A step that answers a directive, then code that only runs when it goes on. *)
Lemma txn_directive {A B} (f : A -> directive) (m : M A) (k : A -> M B) ends K J :
  steps T I Undone m (fun a => is_rollback (f a)) K ->
  (forall a, is_rollback (f a) = false -> steps T (K a) Undone (k a) ends J) ->
  (forall a w, is_rollback (f a) = true -> idle T w -> post T Undone ends J (k a w)) ->
  steps T I Undone (m ≫= k) ends J.
Proof. intros. by eapply txn_bind_ends. Qed.

Lemma txn_resolveOracle d s time :
  txn T I true (resolveOracleFeeAddresses cfg d s time) ends_none.
Proof.
  unfold resolveOracleFeeAddresses. repeat (case_match; try by apply txn_ret).
  - apply txn_bind; [apply txn_count|intros _; by apply txn_ret].
  - apply txn_oraclesBySource.
  - eapply txn_bind_ends; [apply txn_oracleBySource| |].
    + intros [[a|]|] Hr; by apply txn_ret.
    + by intros [[a|]|] w Hr Hw.
Qed.

Lemma txn_resolve_commands l s time acc seen :
  txn T I true (resolve_commands cfg l s time acc seen) ends_none.
Proof.
  revert acc seen. induction l as [|c l IH]; intros acc seen; simpl; [by apply txn_ret|].
  destruct (negb _); [apply IH|]. destruct (bool_decide _); [apply IH|].
  eapply txn_bind_ends; [apply txn_resolveOracle| |].
  - intros [r|] Hr; [apply IH|done].
  - by intros [r|] w Hr Hw.
Qed.

Context {HI : Interning I}.

Lemma steps_parseErrorEvent time h i hash e (J : tables -> Prop) :
  (forall t, I t -> J (with_events (fun l => l ++ [ParseErrorEvent h i hash e time]) t)) ->
  steps T I Undone (insertParseErrorEvent time h i hash e) is_rollback (fun _ => J).
Proof.
  intros HJ. unfold insertParseErrorEvent.
  eapply txn_after_insert; [by apply steps_insertEvent| | |].
  - apply txn_ret; [done|]. by intros t [_ Ht].
  - by intros w [_ [? _]].
  - by intros [| | |] w Hr Hw.
Qed.

Lemma steps_skipQuarantined time h t i (J : tables -> Prop) :
  (forall B, I B ->
     J (with_events (fun l => l ++ [ParseErrorEvent h i (tx_id t) quarantine_message time]) B)) ->
  steps T I Undone (skipQuarantinedTransaction time h t i) is_rollback (fun _ => J).
Proof.
  intros HJ. unfold skipQuarantinedTransaction. apply txn_bind; [apply txn_count|intros _].
  eapply (txn_directive id _ _ _ (fun _ => J)); [by apply steps_parseErrorEvent| |].
  - intros [| |] Hr; [done| |];
      (eapply (steps_bind _ _ _ _ (fun _ => J)); [apply txn_count|intros _; by apply txn_ret]).
  - by intros [| |] w Hr Hw.
Qed.

Lemma txn_end_pair {A B} (a : A) (b : B) ends J :
  ends (a, b) = true -> steps T I Undone (endTransaction;; mret (a, b)) ends J.
Proof. intros. apply txn_end_ret; [apply txn_endTransaction|done]. Qed.

(** A parse failure the block survives was one of content, and is recorded. *)
Lemma steps_handleParseFailure loop e time h hash i k (J : tables -> Prop) :
  (dbLookupFailure e || rpcLookupFailure e = false -> forall t, I t ->
     J (with_events (fun l => l ++ [ParseErrorEvent h i hash (message e) time]) t)) ->
  steps T I Undone (handleParseFailure loop e time h hash i k) (fun r => is_rollback r.1)
    (fun r t => J t /\ lastProcessedTxIndex r.2 = lastProcessedTxIndex loop).
Proof.
  intros HJ. unfold handleParseFailure. destruct (_ || _); [by apply txn_end_pair|].
  specialize (HJ eq_refl). case_match.
  { eapply (txn_directive id _ _ _ (fun _ => J)); [by apply steps_parseErrorEvent| |].
    - intros d Hd. by apply txn_ret.
    - intros d w Hd Hw. simpl. unfold id in Hd. by rewrite Hd. }
  destruct (countAttempt _ _) as [a c]. case_match; [by apply txn_end_pair|].
  apply txn_bind; [apply txn_count|intros _].
  eapply (txn_directive id _ _ _ (fun _ => J)); [by apply steps_parseErrorEvent| |].
  - intros [| |] Hr; [done| |];
      (eapply (steps_bind _ _ _ _ (fun _ => J)); [apply txn_count|intros _; by apply txn_ret]).
  - by intros [| |] w Hr Hw.
Qed.

Definition ends_parsed (p : parsed) : bool :=
  match p with inl _ => false | inr d => is_rollback d.1 end.

Lemma txn_collapse cs time : txn T I true (collapse_creates cfg cs time) stays.
Proof.
  intros w Hw. unfold collapse_creates.
  pose proof (collapse_state_invariant (within T I) address_lookup cs (consensusNetwork cfg)
    time w) as H.
  destruct (collapseDispenserRegistrations _ _ _ _ w) as [r w']. apply H; [|done].
  intros a v Hv. unfold address_lookup. pose proof (txn_createAddress (Some a) v Hv) as Hc.
  destruct (createAddress (Some a) v) as [[id|e|] v']; by simpl in *.
Qed.
End Generic.

(** ** Storing one transaction of the block *)

Section Storing.
Context {Coll : Collation} {Lib : ChainLib} {h : Z} {T B : tables}.
Context (cfg : decoder_config) (hash : jstr) (aside : jstr -> Prop).

#[local] Abbreviation at_B := (fun t : tables => t = B).

Lemma interned_from t : t = B -> interned h B t.
Proof. intros ->. apply interned_refl. Qed.

Lemma ran_value {A} (m : M A) x e K :
  steps T at_B x m e K -> steps T at_B x m e (fun a t => K a t /\ ran m B (Ret a)).
Proof.
  intros Hm w Hw. specialize (Hm w Hw). destruct Hw as [_ Hw].
  destruct (m w) as [[a|err|] w'] eqn:E; simpl in *; [|done|done].
  destruct (e a); [done|]. destruct Hm as [Hm Hk]. split; [done|]. split; [done|]. by exists w, w'.
Qed.

(** A handler knows which computation threw what. *)
Lemma steps_try_ran {A} x E (m : M A) f ends J :
  steps T at_B (Still E) m ends J ->
  (forall e, ran m B (Throw e) -> steps T E x (f e) ends J) ->
  steps T at_B x (try_catch m f) ends J.
Proof.
  intros Hm Hf w Hw. specialize (Hm w Hw). unfold try_catch. destruct Hw as [_ Hw].
  destruct (m w) as [[a|e|] w'] eqn:Em; simpl in *; [done| |done].
  apply Hf; [by exists w, w'|done].
Qed.

Lemma steps_parseBlock loop time open tx i k :
  steps T at_B Undone (parseBlockTransaction cfg loop time h open tx i k) ends_parsed
    (fun p t =>
       match p with
       | inl (id, r) => tx_id tx = Some id /\ ran (parse_of cfg h tx open) B (Ret r)
                        /\ interned h B t
       | inr d => tx_ingested cfg h time hash aside i tx (lastProcessedTxIndex loop) open B
                    (lastProcessedTxIndex d.2) open t
       end).
Proof.
  unfold parseBlockTransaction. apply (steps_try_ran _ (interned h B)).
  - destruct (tx_id tx) as [id|] eqn:Eid; [|intros w [Hw Hl]; split; [done|by apply interned_from]].
    eapply steps_bind.
    + apply ran_value. eapply steps_conseq; [apply txn_parseTransaction|apply interned_from|].
      intros r t Ht. exact Ht.
    + intros r. apply txn_ret; [done|]. by intros t [Ht Hr].
  - intros e He. eapply (txn_directive fst).
    + apply (steps_handleParseFailure _ _ _ _ _ _ _ (tx_ingested cfg h time hash aside i tx
        (lastProcessedTxIndex loop) open B (lastProcessedTxIndex loop) open)).
      intros Hc t Ht. apply tx_unparsed; [|done]. exists e. split_and!; [done..|].
      destruct (tx_id tx) as [id|]; [right|by left].
      destruct He as (w & w' & Hw & Ew). exists w, w'. split; [done|].
      unfold mbind, M_bind in Ew. unfold parse_of.
      by destruct (parseTransaction _ _ _ _ _ w) as [[r|e'|] v]; simplify_eq.
    + intros d Hd. apply txn_ret; [done|]. by intros t [Ht ->].
    + intros d w Hd Hw. simpl. by rewrite Hd.
Qed.

Lemma steps_persist_row loop r id k :
  let row := parsed_row h (lastProcessedTxIndex loop) id r in
  steps T (interned h B) Undone
    (persist_row loop r id h (buildStoredActionRecord r).1 k) (fun d => is_rollback d.1)
    (fun d t => lastProcessedTxIndex d.2 = lastProcessedTxIndex loop
       /\ exists x, row_for row t x
            /\ owning h B (transactions B ++ [x]) (transaction_outputs B) t).
Proof.
  intros row. unfold persist_row. eapply txn_after_insert.
  - apply (steps_insertTransaction _ (fun t => exists x, row_for row t x
      /\ owning h B (transactions B ++ [x]) (transaction_outputs B) t)).
    intros t x Hx Hc Ht. exists x. split; [by destruct Hx|].
    apply owning_insert; [apply (row_block _ _ _ Hx)|done|]. by apply owning_interned.
  - by apply txn_ret.
  - by apply txn_end_pair.
  - by intros [| | |] w Hr Hw.
Qed.
End Storing.

(** ** After the row *)

Section Owned.
Context {Coll : Collation} {Lib : ChainLib} {h : Z} {T : tables}.
Context (cfg : decoder_config).

Lemma owning_refl B : owning h B (transactions B) (transaction_outputs B) B.
Proof. split; [constructor|done..]. Qed.

Lemma own_indexes B O t : owning h B (transactions B) O t -> tx_indexes_of h t = tx_indexes_of h B.
Proof. intros [_ Hx _]. unfold tx_indexes_of. by rewrite Hx. Qed.

Lemma steps_store_output B i o :
  i ∈ tx_indexes_of h B ->
  steps T (fun t => t = B) Undone (store_output i o) is_rollback (fun _ => outputs_stored h i [o] B).
Proof.
  intros Hi. unfold store_output. eapply txn_after_insert.
  - eapply steps_conseq; [apply (steps_insertTransactionOutput (I := owning h B (transactions B)
      (transaction_outputs B)) _ _ _ _ (outputs_stored h i [o] B))| |intros a t H; exact H].
    + intros t r Hr Ht.
      destruct (owning_output h B (transactions B) (transaction_outputs B) r t) as [Hw Hx Ho]; [|exact Ht|].
      { destruct Hr as [-> _]. by rewrite (own_indexes _ _ _ Ht). }
      split; [exact Hw|]. split; [exact Hx|]. exists [r]. split; [exact Ho|].
      by constructor; [destruct Hr|constructor].
    + intros t ->. apply owning_refl.
  - by apply txn_ret.
  - apply txn_end_ret; [apply txn_endTransaction|done].
  - by intros [| | |] w Hr Hw.
Qed.

Lemma steps_store_outputs B i l :
  i ∈ tx_indexes_of h B ->
  steps T (fun t => t = B) Undone (store_outputs i l) is_rollback (fun _ => outputs_stored h i l B).
Proof.
  revert B. induction l as [|o l IH]; intros B Hi; simpl.
  { apply txn_ret; [done|]. intros t ->. apply outputs_stored_none. }
  eapply (txn_directive id); [by apply steps_store_output| |by intros [| |] w Hr Hw].
  intros d Hd.
  assert (Hl : steps T (outputs_stored h i [o] B) Undone (store_outputs i l) is_rollback
    (fun _ => outputs_stored h i (o :: l) B)).
  { apply steps_named. intros B' HB. eapply steps_conseq; [apply (IH B')|done|].
    - destruct HB as (_ & Hx & _). unfold tx_indexes_of. by rewrite Hx.
    - intros e t Ht. by apply (outputs_stored_app _ _ [o] l B B'). }
  by destruct d.
Qed.

Lemma steps_capturePayments B loop time r :
  lastProcessedTxIndex loop ∈ tx_indexes_of h B ->
  steps T (fun t => t = B) Undone
    (capturePaymentOutputs cfg loop time r (stored_data (buildStoredActionRecord r).1)) ends_none
    (fun _ t => exists oracles,
       outputs_stored h (lastProcessedTxIndex loop) (captured_outputs cfg time r oracles) B t).
Proof.
  intros Hi. unfold capturePaymentOutputs. eapply txn_bind_ends; [apply txn_resolve_commands| |].
  - intros [addrs|] Hr; [|done].
    eapply (txn_directive id); [by apply steps_store_outputs| |by intros [| |] w Hd Hw].
    intros d Hd. assert (Hk : forall (x : option (list jstr)), ends_none x = false ->
      steps T (outputs_stored h (lastProcessedTxIndex loop)
        (captured_outputs cfg time r (list_to_set addrs)) B) Undone (mret x) ends_none
      (fun _ t => exists oracles, outputs_stored h (lastProcessedTxIndex loop)
        (captured_outputs cfg time r oracles) B t)).
    { intros x Hx. apply txn_ret; [done|]. intros t Ht. by eexists. }
    by destruct d; [done|apply Hk..].
  - by intros [addrs|] w Hr Hw.
Qed.

(** Registering and extending dispensers leaves transactions and outputs as they are. *)
Section Dispensers.
Context {B : tables} {i : Z} (Hi : i ∈ tx_indexes_of h B).

#[local] Abbreviation Own := (owning h B (transactions B) (transaction_outputs B)).

Lemma txn_register_all loop regs open :
  lastProcessedTxIndex loop = i ->
  steps T Own Undone (register_all loop regs open) (fun r => is_rollback r.1)
    (fun r t => Own t /\ open ⊆ r.2).
Proof.
  intros El. revert open. induction regs as [|reg regs IH]; intros open; simpl; [by apply txn_ret|].
  apply (txn_directive fst _ _ _ (fun r t => Own t /\ open ⊆ r.2)).
  - unfold registerDispenser. eapply txn_after_insert.
    + apply txn_insertDispenser; [apply _|]. intros d Hd He t Ht.
      apply owning_register; [|done|done]. rewrite Hd, (own_indexes _ _ _ Ht). simpl. by rewrite El.
    + apply txn_ret; [done|]. intros t Ht. split; [done|]. simpl. case_match; set_solver.
    + apply txn_ret; [done|]. intros t Ht. split; [done|]. simpl. case_match; set_solver.
    + by intros [| | |] w Hr Hw.
  - intros [d o] Hr. apply steps_pure. intros Ho. cbn [fst snd] in *.
    assert (Hn : steps T Own Undone (register_all loop regs o) (fun r => is_rollback r.1)
      (fun r t => Own t /\ open ⊆ r.2)).
    { eapply steps_conseq; [apply IH|done|]. intros a t [Ht Ha]. split; [done|]. by etrans. }
    by destruct d.
  - by intros [[| |] o] w Hr Hw.
Qed.

Lemma txn_extend_all l prefix s time :
  txn T Own true (extend_all cfg l prefix s time h) is_rollback.
Proof.
  induction l as [|c l IH]; simpl; [by apply txn_ret|].
  destruct (dispenserEditExtension _ _ _ _ _) as [j|]; [|done].
  apply (txn_directive id _ _ _ (fun _ => Own)).
  - unfold extendEditedDispenser. eapply txn_bind_ends.
    + apply (steps_recordUndo _ _ (fun t => Own t /\ recorded h j.1 t)).
      intros t. apply owning_undo.
    + intros ok Hok. apply negb_false_iff in Hok as ->. cbn [negb].
      eapply txn_bind_ends.
      * apply (steps_extend _ _ _ Own). intros t [Ht Hu]. by apply owning_extend.
      * intros ok' Hok'. rewrite Hok'. by apply txn_ret.
      * intros ok' w Hok' Hw. rewrite Hok'. done.
    + intros ok w Hok Hw. rewrite Hok. done.
  - intros [| |] Hr; [done|apply IH|apply IH].
  - by intros [| |] w Hr Hw.
Qed.

Lemma steps_persist_dispensers loop time open r cs :
  lastProcessedTxIndex loop = i ->
  steps T Own Undone (persist_dispensers cfg loop time h open r cs) (fun d => is_rollback d.1)
    (fun d t => Own t /\ open ⊆ d.2).
Proof.
  intros El. unfold persist_dispensers.
  destruct (collectDispenserCreates _ _ _ _ _ _) as [cands errs].
  apply txn_bind; [apply txn_count|intros _].
  apply txn_bind; [apply txn_collapse, _|intros [regs|]];
    [|by apply (txn_end_pair Rollback open)].
  eapply (txn_directive fst); [by apply txn_register_all| |].
  - intros [d o] Hd. apply steps_pure. intros Ho. cbn [fst snd] in *.
    assert (He : steps T Own Undone
      (e ← extend_all cfg cs (dispenserCommandPrefixFor cfg time) (source r) time h; mret (e, o))
      (fun d => is_rollback d.1) (fun d t => Own t /\ open ⊆ d.2)).
    { eapply (txn_directive id); [apply txn_extend_all| |].
      - intros e He. by apply txn_ret.
      - intros e w He Hw. simpl. unfold id in He. by rewrite He. }
    by destruct d.
  - by intros [[| |] o] w Hd Hw.
Qed.
End Dispensers.
End Owned.

Section AfterRow.
Context {Coll : Collation} {Lib : ChainLib} (cfg : decoder_config).

(** What follows the row carries its loop state on. *)
Lemma after_row_loop time h open r st (row : directive * loop_state) loop :
  returns
    (match row.1 with
     | Rollback => mret (Rollback, row.2, open)
     | _ =>
         d ← store_outputs (lastProcessedTxIndex loop) (dispenseOutputs r);
         match d with
         | Rollback => mret (Rollback, row.2, open)
         | _ =>
             commands ← capturePaymentOutputs cfg loop time r (stored_data st);
             match commands with
             | None => mret (Rollback, row.2, open)
             | Some commands =>
                 p ← persist_dispensers cfg loop time h open r commands; mret (p.1, row.2, p.2)
             end
         end
     end : M outcome) (fun o => o.1.2 = row.2).
Proof.
  assert (Hc : returns (commands ← capturePaymentOutputs cfg loop time r (stored_data st);
      match commands with
      | None => mret (Rollback, row.2, open)
      | Some commands =>
          p ← persist_dispensers cfg loop time h open r commands; mret (p.1, row.2, p.2)
      end) (fun o : outcome => o.1.2 = row.2)).
  { apply returns_after. intros [cs|]; [|by apply returns_ret].
    apply returns_after. intros p. by apply returns_ret. }
  destruct row.1; [by apply returns_ret| |]; apply returns_after; intros d;
    by destruct d; [apply returns_ret| |].
Qed.
End AfterRow.

(** ** The whole transaction *)

Section Ingested.
Context {Coll : Collation} {Lib : ChainLib} {h : Z} {T B : tables}.
Context (cfg : decoder_config) (time : jsval) (hash : jstr) (aside : jstr -> Prop).

Definition ends_outcome (o : outcome) : bool := is_rollback o.1.1.

(** What follows the row [x] of the parse result [r], over the tables [B1] it is in. *)
Definition followed (n : Z) (open : gset jstr) (r : parse_result) (B1 : tables)
    (o : outcome) (t : tables) : Prop :=
  lastProcessedTxIndex o.1.2 = n /\ open ⊆ o.2
  /\ exists oracles, outputs_stored h n (dispenseOutputs r ++ captured_outputs cfg time r oracles) B1 t.

Lemma steps_dispensers_last B1 B2 loop l' n open r cs l :
  lastProcessedTxIndex loop = n -> lastProcessedTxIndex l' = n -> n ∈ tx_indexes_of h B1 ->
  outputs_stored h n (dispenseOutputs r ++ captured_outputs cfg time r l) B1 B2 ->
  steps T (fun t => t = B2) Undone
    (p ← persist_dispensers cfg loop time h open r cs; mret (p.1, l', p.2)) ends_outcome
    (followed n open r B1).
Proof.
  intros Hl Hl' Hi Hs.
  assert (Hi2 : n ∈ tx_indexes_of h B2).
  { destruct Hs as (_ & Hx & _). unfold tx_indexes_of. by rewrite Hx. }
  eapply (txn_directive fst).
  - eapply steps_conseq; [by apply (steps_persist_dispensers (B := B2) cfg Hi2)| |].
    + intros t ->. apply owning_refl.
    + intros d t H. exact H.
  - intros p Hp. apply txn_ret; [done|]. intros t [[Hw Hx Ho] Hopen]. split; [done|]. split; [done|].
    exists l. eapply (outputs_stored_app _ _ _ []) in Hs; [rewrite app_nil_r in Hs; exact Hs|].
    split; [exact Hw|]. split; [done|]. exists []. by rewrite app_nil_r.
  - intros p w Hp Hw. simpl. unfold ends_outcome. simpl. by rewrite Hp.
Qed.

Lemma steps_after_row B1 loop l' n open r :
  lastProcessedTxIndex loop = n -> lastProcessedTxIndex l' = n -> n ∈ tx_indexes_of h B1 ->
  steps T (fun t => t = B1) Undone
    (d ← store_outputs (lastProcessedTxIndex loop) (dispenseOutputs r);
     match d with
     | Rollback => mret (Rollback, l', open)
     | _ =>
         commands ← capturePaymentOutputs cfg loop time r
                      (stored_data (buildStoredActionRecord r).1);
         match commands with
         | None => mret (Rollback, l', open)
         | Some commands =>
             p ← persist_dispensers cfg loop time h open r commands;
             mret (p.1, l', p.2)
         end
     end) ends_outcome (followed n open r B1).
Proof.
  intros El Hl Hi. rewrite El.
  eapply (txn_directive id); [by apply (steps_store_outputs (h := h))| |by intros [| |] w Hs Hw].
  intros d Hd. assert (Htail : steps T (outputs_stored h n (dispenseOutputs r) B1) Undone
    (commands ← capturePaymentOutputs cfg loop time r (stored_data (buildStoredActionRecord r).1);
     match commands with
     | None => mret (Rollback, l', open)
     | Some commands =>
         p ← persist_dispensers cfg loop time h open r commands; mret (p.1, l', p.2)
     end) ends_outcome (followed n open r B1)); [|by destruct d].
  apply steps_named. intros B2 HB.
  assert (Hi2 : n ∈ tx_indexes_of h B2).
  { destruct HB as (_ & Hx & _). unfold tx_indexes_of. by rewrite Hx. }
  eapply txn_bind_ends; [apply (steps_capturePayments (h := h)); by rewrite El| |by intros [cs|] w Hc Hw].
  intros [cs|] Hc; [|done]. rewrite El. apply steps_named. intros B3 [l H3].
  apply (steps_dispensers_last _ _ _ _ _ _ _ _ l); try done. by eapply outputs_stored_app.
Qed.

Lemma steps_persistTransaction loop open tx id r k :
  tx_id tx = Some id -> ran (parse_of cfg h tx open) B (Ret (Some r)) ->
  hasStorableContent (Some r) = true -> skip (buildStoredActionRecord r).1 = false ->
  forall i, steps T (interned h B) Undone
    (persistTransaction cfg (next_tx_index loop) time h open r id
       (buildStoredActionRecord r).1 k) ends_outcome
    (fun o => tx_ingested cfg h time hash aside i tx (lastProcessedTxIndex loop) open B
                (lastProcessedTxIndex o.1.2) o.2).
Proof.
  intros Hid Hr Hc Hs i. unfold persistTransaction.
  eapply (txn_directive fst); [apply steps_persist_row| |by intros [[| |] l'] w Hd Hw].
  intros [d l'] Hd. cbn [fst snd] in Hd |- *. apply steps_named. intros B1 (Hl & x & Hx & HB1).
  set (n := lastProcessedTxIndex (next_tx_index loop)) in *.
  assert (Hi : n ∈ tx_indexes_of h B1).
  { destruct HB1 as [_ Ex _]. unfold tx_indexes_of. rewrite Ex, List.filter_app, map_app. simpl.
    rewrite (row_block _ _ _ Hx), Z.eqb_refl. apply elem_of_app. right. simpl.
    rewrite (row_index _ _ _ Hx). by left. }
  eapply (steps_conseq _ _ _ (fun t => t = B1) _ (followed n open r B1)); [|done|].
  { destruct d; [done|by apply steps_after_row..]. }
  intros o t (Hn & Ho & l & Hout). rewrite Hn.
  apply (tx_stored _ _ _ _ _ _ _ _ _ _ id r x l B1); try done.
  eapply row_for_mono; [apply Hout|exact Hx].
Qed.

Lemma handleParseFailure_aside loop e i id k :
  returns (handleParseFailure loop e time h id i k)
    (fun d => insertQuarantine d.2 = insertQuarantine loop).
Proof.
  unfold handleParseFailure. destruct (_ || _); [apply returns_after; intros u; by apply returns_ret|].
  case_match; [apply returns_after; intros d; by apply returns_ret|].
  destruct (countAttempt _ _) as [a c]. case_match; apply returns_after; intros u; [by apply returns_ret|].
  apply returns_after. intros [| |]; [by apply returns_ret|..];
    apply returns_after; intros v; by apply returns_ret.
Qed.

Lemma persist_row_aside loop r id st k :
  returns (persist_row (next_tx_index loop) r id h st k)
    (fun d => is_rollback d.1 = false -> insertQuarantine d.2 = insertQuarantine loop).
Proof.
  unfold persist_row. apply returns_after. intros [| | |]; try by apply returns_ret.
  - apply returns_after. intros u. by apply returns_ret.
Qed.

Lemma steps_ingest_parsed loop open tx id pr k i :
  tx_id tx = Some id -> ran (parse_of cfg h tx open) B (Ret pr) ->
  steps T (interned h B) Undone (ingest_parsed cfg loop time h open id pr k) ends_outcome
    (fun o => tx_ingested cfg h time hash aside i tx (lastProcessedTxIndex loop) open B
                (lastProcessedTxIndex o.1.2) o.2).
Proof.
  intros Hid Hr. unfold ingest_parsed. destruct pr as [r|].
  2: { apply txn_ret; [done|]. intros t Ht. by eapply tx_nothing. }
  destruct (hasStorableContent _) eqn:Hc.
  - destruct (buildStoredActionRecord r) as [st errs] eqn:Es.
    replace st with (buildStoredActionRecord r).1 by by rewrite Es.
    apply txn_bind; [apply txn_count|intros _].
    destruct (skip _) eqn:Ek; [|by apply steps_persistTransaction].
    apply txn_ret; [done|]. intros t Ht. by eapply tx_skipped.
  - apply txn_bind.
    + destruct (_ && _); [apply txn_count|by apply txn_ret].
    + intros _. apply txn_ret; [done|]. intros t Ht. by eapply tx_nothing.
Qed.

(** The positions set aside for their rows stay the same, but for a rollback. *)
Lemma ingest_aside_kept loop open tx i :
  returns (ingestTransaction cfg loop time h open tx i hash)
    (fun o => ends_outcome o = false -> insertQuarantine o.1.2 = insertQuarantine loop).
Proof.
  unfold ingestTransaction. case_bool_decide.
  { apply returns_after. intros d. by apply returns_ret. }
  eapply (returns_bind _ _ (fun p : parsed => match p with
    | inl _ => True | inr d => insertQuarantine d.2 = insertQuarantine loop end)).
  { unfold parseBlockTransaction. apply returns_try.
    - destruct (tx_id tx); [|apply returns_throw]. apply returns_after. intros r. by apply returns_ret.
    - intros e. eapply returns_bind; [apply handleParseFailure_aside|]. intros d Hd. by apply returns_ret. }
  intros [[id [r|]]|d] Hp; [|by apply returns_ret|by apply returns_ret]. unfold ingest_parsed.
  destruct (hasStorableContent _); [|apply returns_after; intros u; by apply returns_ret].
  destruct (buildStoredActionRecord r) as [st errs]. apply returns_after. intros u.
  destruct (skip st); [by apply returns_ret|]. eapply returns_bind; [apply persist_row_aside|].
  intros [d l'] Hd w o w' Ho. pose proof (after_row_loop _ _ _ _ _ _ (d, l') _ _ _ _ Ho) as E.
  intros He. rewrite E. apply Hd. cbn [fst snd] in *. destruct d; [|done..].
  injection Ho as <- _. done.
Qed.

Lemma steps_ingestTransaction loop open tx i :
  (forall k, k ∈ insertQuarantine loop -> aside k) ->
  steps T (fun t => t = B) Undone (ingestTransaction cfg loop time h open tx i hash) ends_outcome
    (fun o t => tx_ingested cfg h time hash aside i tx (lastProcessedTxIndex loop) open B
                  (lastProcessedTxIndex o.1.2) o.2 t
                /\ insertQuarantine o.1.2 = insertQuarantine loop).
Proof.
  intros Haside. apply steps_returns; [|apply ingest_aside_kept].
  unfold ingestTransaction. case_bool_decide as Hk.
  - eapply (txn_directive id); [apply steps_skipQuarantined| |].
    + intros t ->. apply (tx_set_aside cfg h time hash aside i tx (lastProcessedTxIndex loop) open B);
        [by apply Haside|apply interned_refl].
    + intros d Hd. by apply txn_ret.
    + intros d w Hd Hw. simpl. unfold ends_outcome. simpl. unfold id in Hd. by rewrite Hd.
  - eapply txn_bind_ends; [apply (steps_parseBlock cfg hash aside)| |].
    + intros [[id pr]|[d l]] Hp; [|by apply txn_ret].
      intros w [Hw (Hid & Hr & Ht)]. by apply (steps_ingest_parsed loop open tx id pr _ i Hid Hr w).
    + intros [[id pr]|[d l]] w Hp Hw; [done|]. simpl. unfold ends_outcome. simpl in *.
      by rewrite Hp.
Qed.
End Ingested.
