(* ===== verification/IngestFacts.v ===== *)
(** * Quarantine and amounts

    Properties of Ingest.v and of the amount rendering of DbRows.v: the decimal string
    of an amount, the quarantine keys, and the retry-then-quarantine ladder. *)
From S2P Require Import Prelude JsNum Activation Expiration Batch Collapse Config.
From S2P Require Import DispenserCommand Db DbRows Atomic Dispensers DispenserReorg StorageGate.
From S2P Require Import Carrier Parse Sample CarrierFacts Ingest IngestAtomic.
#[local] Open Scope Z_scope.

(** ** Amounts *)

Definition digits_only (s : jstr) : Prop := Forall (fun c => is_digit c = true) s.

(** An amount is rendered exactly: the stored string is an optional minus sign, a
    non-empty integer part, a point and exactly eight decimals, all digits, and the digits
    around the point spell the number of satoshis, so no amount loses a unit. *)
Theorem satoshi_string_value n :
  exists int frac,
    bigIntSatoshiToDecimalsString n
      = (if n <? 0 then [45] else []) ++ int ++ dot :: frac
    /\ int <> [] /\ length frac = SATOSHIS_DECIMALS /\ digits_only int /\ digits_only frac
    /\ digits_value 0 int * 10 ^ 8 + digits_value 0 frac = Z.abs n.
Proof.
  destruct (dec_digits_spec (Z.abs n)) as [Hv Hd]; [lia|].
  unfold bigIntSatoshiToDecimalsString. set (s := dec_digits (Z.abs n)) in *.
  assert (Hsign : forall r : jstr, (if n <? 0 then 45 :: r else r) = (if n <? 0 then [45] else []) ++ r).
  { intros r. by destruct (n <? 0). }
  rewrite Hsign. destruct (length s <=? SATOSHIS_DECIMALS)%nat eqn:Hl.
  - apply Nat.leb_le in Hl. exists [48], (zeros (SATOSHIS_DECIMALS - length s) ++ s).
    split; [done|]. split; [done|]. split_and!.
    + unfold zeros. rewrite length_app, length_replicate. lia.
    + by repeat constructor.
    + apply Forall_app. split; [|done]. by apply Forall_replicate.
    + rewrite digits_value_app. unfold zeros.
      rewrite (digits_value_zeros (replicate _ 48)); [|].
      * rewrite Hv. simpl. lia.
      * induction (SATOSHIS_DECIMALS - length s)%nat; simpl; [done|done].
  - apply Nat.leb_gt in Hl. set (k := (length s - SATOSHIS_DECIMALS)%nat).
    exists (take k s), (drop k s). split; [done|].
    assert (Hk : length (drop k s) = SATOSHIS_DECIMALS) by (rewrite length_drop; unfold k; lia).
    split_and!.
    + intros E. apply (f_equal length) in E. rewrite length_take in E. unfold k in E. simpl in E. lia.
    + done.
    + by apply Forall_take.
    + by apply Forall_drop.
    + rewrite <- (take_drop k s) in Hv. rewrite digits_value_split, Hk in Hv. exact Hv.
Qed.

(** ** Quarantine keys *)

Lemma digits_no_colon n : 0 <= n -> colon ∉ dec_digits n.
Proof.
  intros Hn Hin. destruct (dec_digits_spec n Hn) as [_ Hd]. rewrite Forall_forall in Hd.
  specialize (Hd _ Hin). by vm_compute in Hd.
Qed.

Lemma dec_digits_inj a b : 0 <= a -> 0 <= b -> dec_digits a = dec_digits b -> a = b.
Proof.
  intros Ha Hb E. destruct (dec_digits_spec a Ha) as [Va _].
  destruct (dec_digits_spec b Hb) as [Vb _]. congruence.
Qed.

Lemma split_quarantineKey h hash i :
  0 <= h -> colon ∉ hash -> 0 <= i ->
  split_on colon (quarantineKey h hash i) = [dec_digits h; hash; dec_digits i].
Proof.
  intros Hh Hx Hi. unfold quarantineKey.
  rewrite split_on_app by by apply digits_no_colon.
  rewrite split_on_app by done. by rewrite split_on_id by by apply digits_no_colon.
Qed.

(** A quarantine key names one position of one block: two positions with the same key
    are the same height, the same block hash and the same index, so a retry count never
    leaks to another transaction or to the other side of a reorg. *)
Theorem quarantineKey_injective h h' hash hash' i i' :
  0 <= h -> 0 <= h' -> 0 <= i -> 0 <= i' -> colon ∉ hash -> colon ∉ hash' ->
  quarantineKey h hash i = quarantineKey h' hash' i' -> h = h' /\ hash = hash' /\ i = i'.
Proof.
  intros Hh Hh' Hi Hi' Hx Hx' E. apply (f_equal (split_on colon)) in E.
  rewrite !split_quarantineKey in E by done. injection E as E1 E2 E3.
  split; [by apply dec_digits_inj|]. split; [done|]. by apply dec_digits_inj.
Qed.

Lemma quarantineKey_injective_witness :
  colon ∉ js "ab12" /\ quarantineKey 7 (js "ab12") 3 = js "7:ab12:3"
  /\ (quarantineKey 7 (js "ab12") 3 = quarantineKey 7 (js "ab12") 3 ->
      7 = 7 /\ js "ab12" = js "ab12" /\ 3 = 3).
Proof.
  assert (Hc : colon ∉ js "ab12") by (apply (bool_decide_unpack _); by vm_compute).
  split; [exact Hc|]. split; [by vm_compute|].
  apply (quarantineKey_injective 7 7 (js "ab12") (js "ab12") 3 3); done || exact Hc.
Defined.

(** ** The parse ladder *)

(** A world whose coming calls all succeed, with the block's transaction open. *)
Definition healthy (T : tables) (w : world) : Prop := open_on T w /\ faults w = [].

Definition attempts_of (loop : loop_state) (key : jstr) : Z :=
  default 0 (txParseRetryCounts loop !! key).

Lemma endTransaction_healthy T w :
  healthy T w -> exists w', endTransaction w = (Ret tt, w') /\ idle T w' /\ stats w' = stats w.
Proof.
  intros [(Hb & Hc & Hl) Hf]. destruct w as [lv bg c l n1 n2 fs st]. simpl in *. subst.
  by eexists.
Qed.

Lemma insertEvent_healthy T w e :
  healthy T w ->
  exists w', insertEvent e w = (Ret Inserted, w') /\ healthy T w'
    /\ live w' = with_events (fun l => l ++ [e]) (live w).
Proof.
  intros [(Hb & Hc & Hl) Hf]. destruct w as [lv bg c l n1 n2 fs st]. simpl in *. subst.
  by eexists.
Qed.

Section Ladder.
Context (e : jserror) (time : jsval) (h : Z) (hash : option jstr) (i : Z) (k : jstr).
Context (Hcontent : dbLookupFailure e || rpcLookupFailure e = false).

Abbreviation fails loop := (handleParseFailure loop e time h hash i k).

(** One more failed attempt before the ladder is used up. *)
Lemma ladder_retry T loop w :
  healthy T w -> k ∉ parseQuarantine loop -> attempts_of loop k < TX_PARSE_MAX_RETRIES ->
  exists w', fails loop w
      = (Ret (Rollback, with_parse_counts
           (<[k := attempts_of loop k + 1]> (txParseRetryCounts loop)) loop), w')
    /\ idle T w'.
Proof.
  intros Hw Hk Ha. unfold handleParseFailure. rewrite Hcontent, bool_decide_false by done.
  unfold countAttempt. fold (attempts_of loop k).
  rewrite (proj2 (Z.leb_le (attempts_of loop k + 1) _)) by (unfold TX_PARSE_MAX_RETRIES in *; lia).
  destruct (endTransaction_healthy T w Hw) as (w' & E & Hi & _). exists w'.
  unfold mbind, M_bind. by rewrite E.
Qed.

(** The attempt that ends it: the failure is recorded and the block goes on. *)
Lemma ladder_record T loop w :
  healthy T w -> k ∉ parseQuarantine loop -> TX_PARSE_MAX_RETRIES <= attempts_of loop k ->
  exists w', fails loop w
      = (Ret (Continue, add_parse_quarantine k (with_parse_counts
           (<[k := attempts_of loop k + 1]> (txParseRetryCounts loop)) loop)), w')
    /\ healthy T w'
    /\ live w' = with_events (fun l => l ++ [ParseErrorEvent h i hash (message e) time]) (live w).
Proof.
  intros Hw Hk Ha. unfold handleParseFailure. rewrite Hcontent, bool_decide_false by done.
  unfold countAttempt. fold (attempts_of loop k).
  rewrite (proj2 (Z.leb_gt (attempts_of loop k + 1) _)) by lia.
  set (w1 := with_stats (add_parse_errors 1) w).
  destruct (insertEvent_healthy T w1 (ParseErrorEvent h i hash (message e) time))
    as (w2 & E & Hh & El); [exact Hw|].
  exists (with_stats (add_quarantine h hash) w2).
  unfold insertParseErrorEvent, mbind, M_bind. unfold count, modify at 1. fold w1.
  by rewrite E.
Qed.

(** Once quarantined, recorded at once. *)
Lemma ladder_again T loop w :
  healthy T w -> k ∈ parseQuarantine loop ->
  exists w', fails loop w = (Ret (Continue, loop), w') /\ healthy T w'
    /\ live w' = with_events (fun l => l ++ [ParseErrorEvent h i hash (message e) time]) (live w).
Proof.
  intros Hw Hk. unfold handleParseFailure. rewrite Hcontent, bool_decide_true by done.
  destruct (insertEvent_healthy T w (ParseErrorEvent h i hash (message e) time))
    as (w2 & E & Hh & El); [exact Hw|].
  exists w2. unfold insertParseErrorEvent, mbind, M_bind. by rewrite E.
Qed.

(** The results of successive failing passes, each in a block transaction of its own, the
    loop's state carried from one to the next: the directive, and the world it leaves. *)
Fixpoint ladder (ws : list world) (loop : loop_state) : list (directive * world) :=
  match ws with
  | [] => []
  | w :: rest =>
      match fails loop w with
      | (Ret (d, loop'), w') => (d, w') :: ladder rest loop'
      | _ => []
      end
  end.

(** The block is rolled back: nothing is left of it. *)
Definition retried (T : tables) (r : directive * world) : Prop := r.1 = Rollback /\ idle T r.2.

(** The block goes on over its tables with one more row, the PARSE_ERROR of the failure. *)
Definition set_aside (T : tables) (w : world) (r : directive * world) : Prop :=
  r.1 = Continue /\ open_on T r.2
  /\ live r.2 = with_events (fun l => l ++ [ParseErrorEvent h i hash (message e) time]) (live w).

Lemma ladder_quarantined T ws loop :
  Forall (healthy T) ws -> k ∈ parseQuarantine loop -> Forall2 (set_aside T) ws (ladder ws loop).
Proof.
  intros Hws. revert loop. induction Hws as [|w ws Hw _ IH]; intros loop Hk; [constructor|].
  destruct (ladder_again T loop w Hw Hk) as (w' & E & [Ho _] & El). simpl. rewrite E.
  constructor; [done|by apply IH].
Qed.

Lemma ladder_steps T n : forall ws loop,
  Forall (healthy T) ws -> k ∉ parseQuarantine loop ->
  attempts_of loop k = TX_PARSE_MAX_RETRIES - Z.of_nat n -> (n <= 3)%nat ->
  Forall (retried T) (take n (ladder ws loop))
  /\ Forall2 (set_aside T) (drop n ws) (drop n (ladder ws loop))
  /\ length (ladder ws loop) = length ws.
Proof.
  induction n as [|n IH]; intros ws loop Hws Hk Ha Hn.
  - assert (H : Forall2 (set_aside T) ws (ladder ws loop)).
    { destruct Hws as [|w ws Hw Hws]; [constructor|].
      destruct (ladder_record T loop w) as (w' & E & [Ho _] & El); [done|done|lia|].
      simpl. rewrite E. constructor; [done|]. apply ladder_quarantined; [done|]. simpl. set_solver. }
    rewrite !drop_0, take_0. split; [constructor|]. split; [exact H|].
    by rewrite (Forall2_length _ _ _ H).
  - destruct Hws as [|w ws Hw Hws]; [by split_and!|].
    destruct (ladder_retry T loop w) as (w' & E & Hi); [done|done|lia|].
    simpl. rewrite E. simpl.
    destruct (IH ws (with_parse_counts (<[k := attempts_of loop k + 1]> (txParseRetryCounts loop)) loop))
      as (H1 & H2 & H3); [done|done| |lia|].
    { unfold attempts_of at 1. simpl. rewrite lookup_insert. case_decide; [|done]. simpl. lia. }
    split_and!; [by constructor|exact H2|by rewrite H3].
Qed.
End Ladder.

(** C36: a transaction that can never be parsed blocks its block for exactly three passes.
    A content failure rolls the block back on its first three attempts, leaving the tables
    of before the block; on the fourth and every later one the block goes on, and its
    tables gain exactly one row, the PARSE_ERROR event with the height, the position, the
    hash, the message of the failure and the block's time. *)
Theorem quarantine_ladder_terminates e time h hash i k T ws loop :
  dbLookupFailure e || rpcLookupFailure e = false ->
  k ∉ parseQuarantine loop -> txParseRetryCounts loop !! k = None ->
  Forall (healthy T) ws ->
  let passes := ladder e time h hash i k ws loop in
  length passes = length ws
  /\ Forall (retried T) (take 3 passes)
  /\ Forall2 (set_aside e time h hash i T) (drop 3 ws) (drop 3 passes).
Proof.
  intros He Hk Hn Hws. destruct (ladder_steps e time h hash i k He T 3 ws loop)
    as (H1 & H2 & H3); [done|done| |lia|by split_and!]. unfold attempts_of. by rewrite Hn.
Qed.

Definition open_world (t : tables) : world := World t (Some t) true true 2 2 [] fresh_stats.

Lemma quarantine_ladder_terminates_witness :
  let passes := ladder (plain_error (js "bad")) JNull 100 None 0 (js "100:ab:0")
    (replicate 5 (open_world initial_tables)) (LoopState 0 0 ∅ ∅ ∅ ∅) in
  map fst passes = [Rollback; Rollback; Rollback; Continue; Continue]
  /\ map (fun r => length (events (live r.2))) passes = [0; 0; 0; 1; 1]%nat
  /\ length passes = 5%nat
  /\ Forall (retried initial_tables) (take 3 passes)
  /\ Forall2 (set_aside (plain_error (js "bad")) JNull 100 None 0 initial_tables)
       (drop 3 (replicate 5 (open_world initial_tables))) (drop 3 passes).
Proof.
  intros passes. split; [reflexivity|]. split; [reflexivity|].
  apply (quarantine_ladder_terminates (plain_error (js "bad")) JNull 100 None 0 (js "100:ab:0")
    initial_tables (replicate 5 (open_world initial_tables)) (LoopState 0 0 ∅ ∅ ∅ ∅)).
  - reflexivity.
  - apply (bool_decide_unpack _). by vm_compute.
  - reflexivity.
  - by repeat constructor.
Defined.

(** An outage is never quarantined: a parse that failed on a database or node lookup
    rolls the block back whatever its retry count, and leaves every counter and every
    quarantine set as it was. *)
Theorem lookup_failure_never_quarantines loop e time h hash i k :
  dbLookupFailure e || rpcLookupFailure e = true ->
  returns (handleParseFailure loop e time h hash i k) (fun r => r = (Rollback, loop)).
Proof.
  intros He. unfold handleParseFailure. rewrite He. apply returns_after. intros _.
  by apply returns_ret.
Qed.

Lemma lookup_failure_never_quarantines_witness :
  (handleParseFailure (LoopState 0 0 ∅ ∅ ∅ ∅) (tag_rpc_failure (plain_error [])) JNull 1 None 0
     (js "k") (open_world initial_tables)).1 = Ret (Rollback, LoopState 0 0 ∅ ∅ ∅ ∅)
  /\ returns (handleParseFailure (LoopState 0 0 ∅ ∅ ∅ ∅) (tag_rpc_failure (plain_error [])) JNull
       1 None 0 (js "k")) (fun r => r = (Rollback, LoopState 0 0 ∅ ∅ ∅ ∅)).
Proof. split; [reflexivity|]. by apply lookup_failure_never_quarantines. Defined.

(** ** Quarantine is earned

    What counts as a failure is read off the run itself, not off the loop's counters: the
    parse of the position threw for its content, or the row of a parsed transaction was
    refused by the server as one it can never hold. *)
Section Earned.
Context {Coll : Collation} {Lib : ChainLib} (cfg : decoder_config).

(** One call of [ingestTransaction], in the world it meets. *)
Record ingest_call := IngestCall {
  c_time : jsval; c_height : Z; c_open : gset jstr; c_tx : transaction; c_index : Z;
  c_hash : jstr; c_world : world
}.

Definition key_of (c : ingest_call) : jstr := quarantineKey (c_height c) (c_hash c) (c_index c).

Definition ingests (loop : loop_state) (c : ingest_call) : res outcome * world :=
  ingestTransaction cfg loop (c_time c) (c_height c) (c_open c) (c_tx c) (c_index c) (c_hash c)
    (c_world c).

Definition parses (c : ingest_call) : res (option parse_result) * world :=
  parse_of cfg (c_height c) (c_tx c) (c_open c) (c_world c).

Definition content_failure (e : jserror) : bool := negb (dbLookupFailure e || rpcLookupFailure e).

Definition parse_failed (c : ingest_call) : bool :=
  match tx_id (c_tx c) with
  | None => true
  | Some _ => match parses c with (Throw e, _) => content_failure e | _ => false end
  end.

(** The row of the parsed transaction, sent after the parse, is refused for its values. *)
Definition insert_failed (loop : loop_state) (c : ingest_call) : bool :=
  match tx_id (c_tx c), parses c with
  | Some id, (Ret (Some r), w) =>
      let '(stored, errors) := buildStoredActionRecord r in
      hasStorableContent (Some r) && negb (skip stored)
      && match insertTransaction (parsed_row (c_height c) (lastProcessedTxIndex loop + 1) id r)
                 (with_stats (add_parse_errors errors) w) with
         | (Ret PoisonRow, _) => true
         | _ => false
         end
  | _, _ => false
  end.

(** The loop between two commits of a block, and over them: calls that return hand their
    loop state on, a commit empties the counters and sets.  A throw ends the loop, and the
    run with it. *)
Inductive ingest_run : loop_state -> list (loop_state * ingest_call) -> loop_state -> Prop :=
  | run_start loop : ingest_run loop [] loop
  | run_call loop l loop1 c o w :
      ingest_run loop l loop1 -> ingests loop1 c = (Ret o, w) ->
      ingest_run loop (l ++ [(loop1, c)]) o.1.2
  | run_commit loop l loop1 :
      ingest_run loop l loop1 -> ingest_run loop l (clearQuarantineState loop1).

Definition failures (failed : loop_state * ingest_call -> bool) (k : jstr)
    (l : list (loop_state * ingest_call)) : Z :=
  Z.of_nat (length (List.filter (fun x => failed x && eqs (key_of x.2) k) l)).

Definition parse_failures := failures (fun x => parse_failed x.2).
Definition insert_failures := failures (fun x => insert_failed x.1 x.2).

(** ** One ladder *)

Definition count_of (counts : gmap jstr Z) (k : jstr) : Z := default 0 (counts !! k).

(** A ladder of counters and its quarantine set after one call for [key]. *)
Definition climbs (key : jstr) (failed : bool) (counts counts' : gmap jstr Z) (q q' : gset jstr)
  : Prop := forall k,
  count_of counts' k <= count_of counts k + (if failed && eqs key k then 1 else 0)
  /\ (k ∈ q' -> k ∈ q \/ TX_PARSE_MAX_RETRIES < count_of counts' k).

Lemma climbs_refl key f counts q : climbs key f counts counts q q.
Proof. intros k. split; [case_match; lia|by left]. Qed.

Lemma climbs_count key counts q a c :
  countAttempt counts key = (a, c) ->
  climbs key true counts c q q
  /\ (TX_PARSE_MAX_RETRIES < a -> climbs key true counts c q ({[key]} ∪ q)).
Proof.
  unfold countAttempt. intros [= <- <-].
  assert (Hc : forall k, count_of (<[key := default 0 (counts !! key) + 1]> counts) k
    <= count_of counts k + (if true && eqs key k then 1 else 0)).
  { intros k. unfold count_of. rewrite lookup_insert. cbn [andb]. case_decide as E.
    - subst k. rewrite (proj2 (eqs_true _ _) eq_refl). simpl. lia.
    - case_match; lia. }
  split; [by intros k; split; [apply Hc|left]|]. intros Ha k. split; [apply Hc|].
  intros [->%elem_of_singleton|Hk]%elem_of_union; [right|by left].
  unfold count_of. by rewrite lookup_insert, decide_True.
Qed.

(** Both ladders after one call. *)
Definition climbed (key : jstr) (p i : bool) (l l' : loop_state) : Prop :=
  climbs key p (txParseRetryCounts l) (txParseRetryCounts l') (parseQuarantine l) (parseQuarantine l')
  /\ climbs key i (insertQuarantineCounts l) (insertQuarantineCounts l') (insertQuarantine l)
       (insertQuarantine l').

Lemma climbed_refl key p i l : climbed key p i l l.
Proof. split; apply climbs_refl. Qed.

Lemma handleParseFailure_climbs loop e time h hash i k :
  returns (handleParseFailure loop e time h hash i k)
    (fun r => climbed k (content_failure e) false loop r.2).
Proof.
  unfold handleParseFailure, content_failure. destruct (_ || _); cbn [negb].
  { apply returns_after. intros _. apply returns_ret, climbed_refl. }
  case_match; [apply returns_after; intros d; apply returns_ret, climbed_refl|].
  destruct (countAttempt (txParseRetryCounts loop) k) as [a c] eqn:Ec.
  destruct (climbs_count _ _ (parseQuarantine loop) _ _ Ec) as [Hc Hq].
  assert (H1 : climbed k true false loop (with_parse_counts c loop)) by (split; [exact Hc|apply climbs_refl]).
  destruct (Z.leb_spec a TX_PARSE_MAX_RETRIES) as [Hle|Hgt].
  { apply returns_after. intros _. by apply returns_ret. }
  apply returns_after. intros _. apply returns_after. intros d.
  destruct d; [by apply returns_ret| |]; apply returns_after; intros _; apply returns_ret;
    (split; [by apply Hq|apply climbs_refl]).
Qed.

(** The row's ladder moves exactly when the insert answers PoisonRow. *)
Lemma persist_row_climbs loop r hash h st k w :
  let row := NewTransaction (lastProcessedTxIndex loop) (Some hash) h (source r) (sourcePubkey r)
    (destination r) None 0 (Some (stored_data st)) (stored_rawData st) in
  match persist_row loop r hash h st k w with
  | (Ret d, _) =>
      climbed k false (match insertTransaction row w with (Ret PoisonRow, _) => true | _ => false end)
        loop d.2
  | _ => True
  end.
Proof.
  intros row. unfold persist_row. fold row. unfold mbind, M_bind.
  destruct (insertTransaction row w) as [[[| | |]|e|] w1]; try done.
  - apply climbed_refl.
  - apply climbed_refl.
  - unfold mbind, M_bind. destruct (endTransaction w1) as [[[]|e|] w2]; try done. apply climbed_refl.
  - destruct (countAttempt (insertQuarantineCounts loop) k) as [a c] eqn:Ec.
    destruct (climbs_count _ _ (insertQuarantine loop) _ _ Ec) as [Hc Hq].
    simpl. destruct (Z.ltb_spec TX_PARSE_MAX_RETRIES a); (split; [apply climbs_refl|]); [by apply Hq|exact Hc].
Qed.

Lemma caught_climbs loop e time h hash i k :
  returns (d ← handleParseFailure loop e time h hash i k; mret (inr d) : M parsed)
    (fun p => exists d, p = inr d /\ climbed k (content_failure e) false loop d.2).
Proof.
  eapply returns_bind; [apply handleParseFailure_climbs|]. intros d Hd. apply returns_ret. by exists d.
Qed.

Lemma parseBlock_climbs loop c p v :
  parseBlockTransaction cfg loop (c_time c) (c_height c) (c_open c) (c_tx c) (c_index c) (key_of c)
    (c_world c) = (Ret p, v) ->
  match p with
  | inl (id, pr) => tx_id (c_tx c) = Some id /\ parses c = (Ret pr, v)
  | inr d => climbed (key_of c) (parse_failed c) false loop d.2 /\ insert_failed loop c = false
  end.
Proof.
  unfold parseBlockTransaction, try_catch, parse_failed, insert_failed, parses, parse_of.
  destruct (tx_id (c_tx c)) as [id|].
  - unfold mbind at 1, M_bind at 1.
    destruct (parseTransaction _ _ _ _ _ (c_world c)) as [[pr|e|] w]; [|intros H|done].
    + by intros [= <- <-].
    + by destruct (caught_climbs _ _ _ _ _ _ _ _ _ _ H) as (d & -> & Hd).
  - intros H. by destruct (caught_climbs _ _ _ _ _ _ _ _ _ _ H) as (d & -> & Hd).
Qed.

Lemma ingest_parsed_climbs loop c id pr v o w :
  tx_id (c_tx c) = Some id -> parses c = (Ret pr, v) ->
  ingest_parsed cfg loop (c_time c) (c_height c) (c_open c) id pr (key_of c) v = (Ret o, w) ->
  climbed (key_of c) false (insert_failed loop c) loop o.1.2.
Proof.
  intros Hid Hp. unfold insert_failed, ingest_parsed. rewrite Hid, Hp. destruct pr as [r|].
  2: { intros [= <- <-]. apply climbed_refl. }
  destruct (buildStoredActionRecord r) as [st errs] eqn:Es.
  destruct (hasStorableContent (Some r)).
  2: { intros H. assert (E : o.1.2 = loop); [|rewrite E; apply climbed_refl].
       revert H. apply (returns_after _ _ (fun o : outcome => o.1.2 = loop)). intros u. by apply returns_ret. }
  unfold mbind at 1, M_bind at 1, count, modify. cbn [andb].
  destruct (skip st); cbn [negb andb].
  { intros [= <- <-]. split; apply climbs_refl. }
  unfold persistTransaction. unfold mbind at 1, M_bind at 1.
  pose proof (persist_row_climbs (next_tx_index loop) r id (c_height c) st (key_of c)
    (with_stats (add_parse_errors errs) v)) as Hrow.
  unfold parsed_row. rewrite Es. cbn [fst] in *.
  destruct (persist_row _ _ _ _ _ _ _) as [[row|e|] v']; [|done|done].
  intros H. by rewrite (after_row_loop _ _ _ _ _ st row _ _ _ _ H).
Qed.

Lemma ingests_climbs loop c o w :
  ingests loop c = (Ret o, w) ->
  climbed (key_of c) (parse_failed c) (insert_failed loop c) loop o.1.2.
Proof.
  unfold ingests, ingestTransaction. fold (key_of c). case_bool_decide as Hk.
  { intros H. assert (E : o.1.2 = loop); [|rewrite E; apply climbed_refl].
    revert H. apply (returns_after _ _ (fun o : outcome => o.1.2 = loop)). intros d. by apply returns_ret. }
  unfold mbind, M_bind.
  destruct (parseBlockTransaction _ _ _ _ _ _ _ _ _) as [[p|e|] v] eqn:Ep; [|done|done].
  apply parseBlock_climbs in Ep. destruct p as [[id pr]|d].
  - destruct Ep as [Hid Hp]. intros H. unfold parse_failed. rewrite Hid, Hp.
    by eapply ingest_parsed_climbs.
  - destruct Ep as [Hd ->]. by intros [= <- <-].
Qed.

(** ** Refused rows *)

(** Some call at this position had its row refused for its values. *)
Definition refused (k : jstr) : Prop := exists loop c, key_of c = k /\ insert_failed loop c = true.

(** Only such positions are counted or set aside for their rows. *)
Definition refusals (loop : loop_state) : Prop := forall k,
  0 < count_of (insertQuarantineCounts loop) k \/ k ∈ insertQuarantine loop -> refused k.

Lemma refusals_none loop :
  insertQuarantineCounts loop = ∅ -> insertQuarantine loop = ∅ -> refusals loop.
Proof. intros E1 E2 k. rewrite E1, E2. intros [Hk|Hk]; [done|set_solver]. Qed.

Lemma refusals_ingest loop time h open tx i hash :
  refusals loop -> returns (ingestTransaction cfg loop time h open tx i hash) (fun o => refusals o.1.2).
Proof.
  intros Hl w o w' H. set (c := IngestCall time h open tx i hash w).
  destruct (ingests_climbs loop c o w' H) as [_ Hi].
  assert (Hc : forall k, 0 < count_of (insertQuarantineCounts o.1.2) k -> refused k).
  { intros k Hk. destruct (Hi k) as [H1 _].
    destruct (insert_failed loop c && eqs (key_of c) k) eqn:E; [|apply Hl; left; lia].
    apply andb_true_iff in E as [E1 E2%eqs_true]. by exists loop, c. }
  intros k [Hk|Hk]; [by apply Hc|]. destruct (proj2 (Hi k) Hk) as [Hq|Hq]; [apply Hl; by right|].
  apply Hc. unfold TX_PARSE_MAX_RETRIES in Hq. lia.
Qed.

(** ** The run *)

Definition fresh_loop (loop : loop_state) : Prop :=
  txParseRetryCounts loop = ∅ /\ insertQuarantineCounts loop = ∅
  /\ parseQuarantine loop = ∅ /\ insertQuarantine loop = ∅.

(** One ladder of a run: no more is counted than failed, and what is set aside has failed
    too often. *)
Definition within_failures (counts : gmap jstr Z) (q : gset jstr) (n : jstr -> Z) : Prop :=
  forall k, count_of counts k <= n k /\ (k ∈ q -> TX_PARSE_MAX_RETRIES < n k).

Lemma within_none n : (forall k, 0 <= n k) -> within_failures ∅ ∅ n.
Proof. intros Hn k. split; [apply Hn|]. by intros Hk%elem_of_empty. Qed.

Lemma failures_nonneg f k l : 0 <= failures f k l.
Proof. unfold failures. lia. Qed.

Lemma within_climbs f l x counts counts' q q' :
  climbs (key_of x.2) (f x) counts counts' q q' ->
  within_failures counts q (fun k => failures f k l) ->
  within_failures counts' q' (fun k => failures f k (l ++ [x])).
Proof.
  intros Hc Hw k. destruct (Hc k) as [H1 H2], (Hw k) as [H3 H4].
  assert (E : failures f k (l ++ [x])
    = failures f k l + (if f x && eqs (key_of x.2) k then 1 else 0)).
  { unfold failures. rewrite List.filter_app, length_app. simpl. case_match; simpl; lia. }
  rewrite E. split; [lia|]. intros [Hk|Hk]%H2; [specialize (H4 Hk); case_match; lia|lia].
Qed.

Lemma run_within loop0 l loop :
  fresh_loop loop0 -> ingest_run loop0 l loop ->
  within_failures (txParseRetryCounts loop) (parseQuarantine loop) (fun k => parse_failures k l)
  /\ within_failures (insertQuarantineCounts loop) (insertQuarantine loop)
       (fun k => insert_failures k l).
Proof.
  intros (F1 & F2 & F3 & F4). induction 1 as [loop|loop l loop1 c o w _ IH Hc|loop l loop1 _ IH].
  - rewrite F1, F2, F3, F4. split; apply within_none; intros k; apply failures_nonneg.
  - destruct (ingests_climbs _ _ _ _ Hc) as [Hp Hi], (IH F1 F2 F3 F4) as [H1 H2].
    split; by eapply (within_climbs _ _ (loop1, c)).
  - split; apply within_none; intros k; apply failures_nonneg.
Qed.

(** C38: quarantine is earned.  Over any sequence of ingests and commits from empty
    counters, whatever fails in each, a position is in a quarantine set only if more than
    [TX_PARSE_MAX_RETRIES] calls for that very position (its height, block hash and index)
    failed: for the parse quarantine, calls whose parse threw for the content of the
    transaction, never for a lookup on the database or the node; for the insert quarantine,
    calls whose row the server refused for its values.  (A throw that leaves an ingest ends
    the loop, so a sequence ends there.) *)
Theorem ingest_quarantine_earned loop0 calls loop k :
  fresh_loop loop0 -> ingest_run loop0 calls loop ->
  (k ∈ parseQuarantine loop -> TX_PARSE_MAX_RETRIES < parse_failures k calls)
  /\ (k ∈ insertQuarantine loop -> TX_PARSE_MAX_RETRIES < insert_failures k calls).
Proof. intros Hf [H1 H2]%run_within; [|done]. split; [apply H1|apply H2]. Qed.
End Earned.

(** A transaction whose id cannot be taken never parses. *)
Definition idless_tx : transaction := Transaction None (ins coinpay_tx) (outs coinpay_tx).

Definition idless_call : ingest_call :=
  IngestCall (jint 1700000000) 100 ∅ idless_tx 0 (js "ab") (open_world initial_tables).

Fixpoint idless_loop (n : nat) : loop_state :=
  match n with
  | O => LoopState (-1) 0 ∅ ∅ ∅ ∅
  | S n' => match ingests sample_config (idless_loop n') idless_call with
            | (Ret o, _) => o.1.2
            | _ => idless_loop n'
            end
  end.

Definition idless_calls : list (loop_state * ingest_call) :=
  map (fun n => (idless_loop n, idless_call)) [0; 1; 2; 3]%nat.

Lemma ingest_quarantine_earned_witness :
  let k := js "100:ab:0" in
  fresh_loop (idless_loop 0)
  /\ ingest_run sample_config (idless_loop 0) idless_calls (idless_loop 4)
  /\ k ∈ parseQuarantine (idless_loop 4)
  /\ parse_failures sample_config k idless_calls = 4
  /\ (k ∈ parseQuarantine (idless_loop 4) ->
       TX_PARSE_MAX_RETRIES < parse_failures sample_config k idless_calls)
  /\ (k ∈ insertQuarantine (idless_loop 4) ->
       TX_PARSE_MAX_RETRIES < insert_failures sample_config k idless_calls).
Proof.
  intros k. assert (Hf : fresh_loop (idless_loop 0)) by done.
  assert (Hr : ingest_run sample_config (idless_loop 0) idless_calls (idless_loop 4)).
  { assert (Hstep : forall l n, ingest_run sample_config (idless_loop 0) l (idless_loop n) ->
      match ingests sample_config (idless_loop n) idless_call with (Ret _, _) => true | _ => false end
        = true ->
      ingest_run sample_config (idless_loop 0) (l ++ [(idless_loop n, idless_call)])
        (idless_loop (S n))).
    { intros l n H Hret. replace (idless_loop (S n)) with
        (match ingests sample_config (idless_loop n) idless_call with
         | (Ret o, _) => o.1.2 | _ => idless_loop n end) by done.
      destruct (ingests _ (idless_loop n) _) as [[o|e|] w] eqn:E; [|done|done].
      by apply (run_call _ _ _ _ _ _ w). }
    apply (Hstep [_; _; _] 3%nat); [|by vm_compute]. apply (Hstep [_; _] 2%nat); [|by vm_compute].
    apply (Hstep [_] 1%nat); [|by vm_compute]. apply (Hstep [] 0%nat); [|by vm_compute].
    constructor. }
  split; [exact Hf|]. split; [exact Hr|].
  split; [apply (bool_decide_unpack _); by vm_compute|]. split; [by vm_compute|].
  exact (ingest_quarantine_earned sample_config (idless_loop 0) idless_calls (idless_loop 4) k Hf Hr).
Defined.
