(* ===== verification/BlockStore.v ===== *)
(** * Storing a block

    src/src/XChainDecoder/block_store.js, and the reset of sync_loop.js that follows a
    rollback: the block's protocol time, the blocks row, the expiries at either end of the
    block, the ingestion of its transactions in order, and the commit.

    A throw that leaves [storeBlock] escapes the parse loop and ends it, so the loop's
    fields are only described on return.  Log lines, sleeps and the wall-clock stamps
    they use are left out. *)
From Stdlib Require Import QArith.QArith_base QArith.Qround.
From S2P Require Import Prelude JsNum Activation ProtocolTime Config DispenserCommand Db DbRows.
From S2P Require Import Atomic Dispensers DispenserReorg Collapse Carrier Parse Ingest.
From S2P Require Import IngestAtomic.
#[local] Open Scope Z_scope.

(** A decoded block: header time and transactions; a header alone decodes to a block whose
    [transactions] is undefined. *)
Record block := Block { timestamp : Z; block_transactions : option (list transaction) }.

(** The fields of [loop] that blocks advance. *)
Record batch := Batch {
  loop : loop_state;
  blocksQuantity : Z;
  lastProcessedBlockIndex : Z;
  blocksCount : Z;
  transactionsCount : Z;
  outputCount : Z
}.

Definition with_loop l b := Batch l (blocksQuantity b) (lastProcessedBlockIndex b)
  (blocksCount b) (transactionsCount b) (outputCount b).
Definition add_outputs n b := Batch (loop b) (blocksQuantity b) (lastProcessedBlockIndex b)
  (blocksCount b) (transactionsCount b) (outputCount b + n).
Definition add_transactions n b := Batch (loop b) (blocksQuantity b) (lastProcessedBlockIndex b)
  (blocksCount b) (transactionsCount b + n) (outputCount b).
Definition add_block b := Batch (loop b) (blocksQuantity b) (lastProcessedBlockIndex b)
  (blocksCount b + 1) (transactionsCount b) (outputCount b).
Definition advance_to height b := Batch (loop b) (blocksQuantity b + 1) height
  (blocksCount b) (transactionsCount b) (outputCount b).

Definition DB_TRANSACTION_BLOCKS_QUANTITY : Z := 1.
Definition DISPENSER_EXPIRE_SAFE_DEPTH : Z := 126.
Definition LTC_TESTNET_DISPENSER_EXPIRE_SAFE_DEPTH : Z := 5006.

Definition resolveDispenserExpireSafeDepth (coin network : jstr) : Z :=
  if eqs (map uppercase coin) (js "LTC") && eqs (map lowercase network) (js "testnet")
  then LTC_TESTNET_DISPENSER_EXPIRE_SAFE_DEPTH else DISPENSER_EXPIRE_SAFE_DEPTH.

(** A number bound to an integer comparison [column < ?]; [null] compares to nothing. *)
Definition sql_bound (v : jsval) : option Z :=
  match v with JNum (Fin q) => Some (Qceiling q) | _ => None end.

(** A number stored in an integer column. *)
Definition sql_integer (n : num) : option Z :=
  match n with Fin q => Some (Qfloor q) | _ => None end.

Definition js_time (t : option Z) : jsval := match t with Some z => jint z | None => JNull end.

Section BlockStore.
Context {Coll : Collation} {Lib : ChainLib}.
Context (cfg : decoder_config) (blockchainInfoLastBlock : Z).

(** ** The block's clock *)

(** Newest first; [None] when a lookup failed. *)
Fixpoint fetch_times (span : nat) (height : Z) (times : list jsval)
  : M (option (list jsval)) :=
  match span with
  | O => mret (Some times)
  | S n =>
      if height <? 0 then mret (Some times)
      else
        r ← try_catch (b ← getBlockByIndex height; mret (Some b)) (fun _ => mret None);
        match (r : option (option stored_block)) with
        | None => mret None
        | Some None => mret (Some times)
        | Some (Some b) => fetch_times n (height - 1) (times ++ [js_time (s_time b)])
        end
  end.

Definition fetchBlockTimes (nextBlockHeight : Z) (span : nat) : M (option (list jsval)) :=
  fetch_times span (nextBlockHeight - 1) [].

(** The context and [parentProtocolTime]; [None] after a rollback. *)
Definition resolveBlockTimeContext (blk : block) (nextBlockHeight : Z)
  : M (option (BlockTimeContext * jsval)) :=
  let net := consensusNetwork cfg in
  let mtpActive := isProtocolTimeMtpActive net in
  let parentFloorActive := isDispenserCancelGraceParentFloorActive net
                             (jint (timestamp blk)) in
  let parentSpan := if parentFloorActive then 1%nat else 0%nat in
  let historySpan := if mtpActive then (MEDIAN_TIME_SPAN + parentSpan)%nat else parentSpan in
  times ← (match historySpan with
           | O => mret (Some [])
           | _ => fetchBlockTimes nextBlockHeight historySpan
           end);
  match (times : option (list jsval)) with
  | None => endTransaction;; mret None
  | Some previousBlockTimes =>
      let current := createBlockTimeContext net (jint (timestamp blk))
                       (take MEDIAN_TIME_SPAN previousBlockTimes) in
      let parentProtocolTime := match previousBlockTimes with
                                | [] => JNull
                                | t :: rest => protocolTime net t rest
                                end in
      mret (Some (current, parentProtocolTime))
  end.

(** ** The steps of one block *)

Definition insertBlockRecord (ctx : BlockTimeContext) (nextBlockHeight : Z)
    (nextBlockHash previousBlockHash : jstr) : M bool :=
  insertBlock (NewBlock nextBlockHeight (Some nextBlockHash)
                 (sql_integer (rawBlockTime ctx)) (Some previousBlockHash)).

Definition expireDispensers (time : jsval) (nextBlockHeight : Z) : M directive :=
  r ← deleteOpenDispensers nextBlockHeight (sql_bound time);
  mret (if bool_decide (r = Inserted) then Proceed else Rollback).

Definition expireDispensersAtBlockStart (time : jsval) (nextBlockHeight : Z)
    (expireAtEnd : bool) : M directive :=
  if expireAtEnd then mret Proceed else expireDispensers time nextBlockHeight.

Definition loadOpenDispenserAddresses (time : jsval) (parentProtocolTime : jsval)
  : M (option (gset jstr)) :=
  open ← getAllOpenDispenserAddresses
           (cancelGraceFloor (consensusNetwork cfg) time parentProtocolTime);
  match (open : option (gset jstr)) with
  | None => endTransaction;; mret None
  | Some s => mret (Some s)
  end.

Fixpoint ingest_all (b : batch) (time : jsval) (height : Z) (hash : jstr) (open : gset jstr)
    (txIndex : Z) (l : list transaction) : M (directive * batch) :=
  match l with
  | [] => mret (Proceed, b)
  | t :: rest =>
      o ← ingestTransaction cfg (loop b) time height open t txIndex hash;
      let '(d, lp, open) := (o : outcome) in
      let b := with_loop lp b in
      match d with
      | Rollback => mret (Rollback, b)
      | Continue => ingest_all b time height hash open (txIndex + 1) rest
      | Proceed => ingest_all (add_outputs (Z.of_nat (length (outs t))) b) time height hash
                     open (txIndex + 1) rest
      end
  end.

(** ** The commit *)

Definition reset_batch (lastBlock lastTx : Z) (b : batch) : batch :=
  let l := loop b in
  Batch (LoopState lastTx 0 (txParseRetryCounts l) (insertQuarantineCounts l)
           (insertQuarantine l) (parseQuarantine l))
    0 (Z.max lastBlock (startBlockIndex cfg - 1)) 0 0 0.

(** The cursors re-read from the tables, the counters back at zero: what a failed
    commit does at once, and the parse loop after a 'rollback'. *)
Definition resetAfterRollback (b : batch) : M batch :=
  lastBlock ← getLastBlockIndex;
  lastTx ← getLastTxIndex;
  mret (reset_batch lastBlock lastTx b).

Definition retryFailedCommit (b : batch) : M (directive * batch) :=
  b' ← resetAfterRollback b; mret (Continue, b').

Definition purgeExpiredAfterCommit (nextBlockHeight : Z) (time : jsval) : M unit :=
  let safeDepth := resolveDispenserExpireSafeDepth (coinTick cfg) (consensusNetwork cfg) in
  let safeHeight := nextBlockHeight - safeDepth in
  purged ← purgeExpiredDispensers safeHeight (purgeGraceFloor (consensusNetwork cfg) time);
  if (purged : bool) then mret tt else count add_purge_failure.

Definition committed_batch (b : batch) : batch :=
  let l := clearQuarantineState (loop b) in
  Batch (LoopState (lastProcessedTxIndex l) 0 (txParseRetryCounts l)
           (insertQuarantineCounts l) (insertQuarantine l) (parseQuarantine l))
    (-1) (lastProcessedBlockIndex b) 0 0 0.

Definition commitBlockBatch (b : batch) (nextBlockHeight : Z) (time : jsval)
  : M (directive * batch) :=
  committed ← commitTransaction;
  if negb committed then retryFailedCommit b
  else
    purgeExpiredAfterCommit nextBlockHeight time;;
    mret (Proceed, committed_batch b).

Definition finish_commit (b : batch) (height : Z) (time : jsval) : M (directive * batch) :=
  if (blocksQuantity b =? DB_TRANSACTION_BLOCKS_QUANTITY - 1)
     || (height =? blockchainInfoLastBlock)
  then
    c ← commitBlockBatch b height time;
    mret (match c.1 with
          | Continue => c
          | _ => (Proceed, advance_to height c.2)
          end)
  else mret (Proceed, advance_to height b).

Definition finishBlock (b : batch) (blk : block) (time : jsval) (height : Z) (hash : jstr)
    (open : gset jstr) (expireAtEnd : bool) : M (directive * batch) :=
  let b := add_block b in
  match block_transactions blk with
  | None => throw (plain_error (js "TypeError: transactions is undefined"))
  | Some transactions =>
      r ← ingest_all b time height hash open 0 transactions;
      match r.1 with
      | Rollback => mret r
      | _ =>
          let b := add_transactions (Z.of_nat (length transactions)) r.2 in
          d ← (if expireAtEnd then expireDispensers time height else mret Proceed);
          match d with
          | Rollback => mret (Rollback, b)
          | _ => finish_commit b height time
          end
      end
  end.

Definition store_in_transaction (b : batch) (blk : block) (nextBlockHeight : Z)
    (nextBlockHash previousBlockHash : jstr) : M (directive * batch) :=
  ctx ← resolveBlockTimeContext blk nextBlockHeight;
  match (ctx : option (BlockTimeContext * jsval)) with
  | None => mret (Rollback, b)
  | Some (blockTimeContext, parentProtocolTime) =>
      inserted ← insertBlockRecord blockTimeContext nextBlockHeight nextBlockHash
                   previousBlockHash;
      if negb inserted then mret (Rollback, b)
      else
        let time := protocolBlockTime blockTimeContext in
        let expireAtEnd := isDispenserExpiryRealignActive (consensusNetwork cfg) time in
        d ← expireDispensersAtBlockStart time nextBlockHeight expireAtEnd;
        match d with
        | Rollback => mret (Rollback, b)
        | _ =>
            open ← loadOpenDispenserAddresses time parentProtocolTime;
            match open with
            | None => mret (Rollback, b)
            | Some addresses =>
                finishBlock b blk time nextBlockHeight nextBlockHash addresses expireAtEnd
            end
        end
  end.

Definition storeBlock (b : batch) (blk : block) (nextBlockHeight : Z)
    (nextBlockHash previousBlockHash : jstr) : M (directive * batch) :=
  (if blocksQuantity b =? 0 then beginTransaction else mret tt);;
  store_in_transaction b blk nextBlockHeight nextBlockHash previousBlockHash.
End BlockStore.
