(* ===== verification/BlockAtomic.v ===== *)
(** * Storing a block is atomic, and can be undone

    BlockStore.v against Atomic.v and DispenserReorg.v: [storeBlock] refines the abstract
    step "nothing, or all the writes of one block", whatever calls fail, and a reorg's
    deletion takes the stored block back out. *)
From Stdlib Require Import QArith.QArith_base QArith.Qround.
From S2P Require Import Idle.
From S2P Require Import Prelude JsNum Activation ProtocolTime Config DispenserCommand Db DbRows.
From S2P Require Import Atomic Dispensers DispenserReorg Collapse Carrier Parse Ingest.
From S2P Require Import CarrierFacts IngestAtomic IngestFacts BlockStore Sample.
#[local] Open Scope Z_scope.

(** ** The purge *)

(** The purge that follows a commit. *)
Inductive purges (safeHeight : Z) (graceFloor : option num) (t : tables) : tables -> Prop :=
  | purges_none : purges safeHeight graceFloor t t
  | purges_rows t' : purges safeHeight graceFloor t t' ->
      purges safeHeight graceFloor t (purge_rows safeHeight graceFloor t')
  | purges_undo t' : purges safeHeight graceFloor t t' ->
      purges safeHeight graceFloor t
        (with_undo (List.filter (fun u => negb (u_block u <=? safeHeight))) t').

Lemma rests_purge t s g : rests (purges s g t) (purgeExpiredDispensers s g).
Proof.
  unfold purgeExpiredDispensers. case_match; [apply rests_ret|].
  unfold ok_or_rollback. apply rests_bind; [apply rests_getConnection|intros _].
  apply rests_try.
  - apply rests_bind; [|intros _; apply rests_ret].
    apply rests_bind; [|intros _]; apply rests_update; intros t' Ht'; by constructor.
  - intros _. apply rests_bind; [apply rests_rollback_open|intros _; apply rests_ret].
Qed.

(** ** Inside the block transaction *)

(** Code that leaves the transaction after [m]. *)
Lemma steps_then {A B} T I (m : M A) (k : A -> M B) e K (F : res B * world -> Prop) :
  steps T I Undone m e K ->
  (forall a w, e a = false -> within T (K a) w -> F (k a w)) ->
  (forall a w, e a = true -> idle T w -> F (k a w)) ->
  (forall err w, idle T w -> F (Throw err, w)) ->
  forall w, within T I w -> F ((m ≫= k) w).
Proof.
  intros Hm Hk He Ht w Hw. specialize (Hm w Hw). unfold mbind, M_bind.
  destruct (m w) as [[a|err|] w']; simpl in *; [|by apply Ht|done].
  destruct (e a) eqn:Ea; [by apply He|by apply Hk].
Qed.

(** The writes of a block add at most its own row to the blocks table. *)
Lemma block_writes_blocks `{Collation} h B t :
  block_writes h B t ->
  blocks t = blocks B
  \/ h ∉ map b_index (blocks B) /\ exists r, blocks t = blocks B ++ [r] /\ b_index r = h.
Proof.
  induction 1 as [|t' s Ht IH Hok]; [by left|]. destruct s; simpl; try exact IH.
  - unfold insert_pubkey_row. by case_match.
  - simpl in Hok. right. destruct IH as [E|(_ & r & E & Hr)].
    + rewrite E in *. split; [done|]. by eexists.
    + exfalso. apply Hok. rewrite E, map_app, <- Hr. apply elem_of_app. right. by constructor.
Qed.

Lemma block_writes_same `{Collation} h B t :
  block_writes h B t -> h ∈ map b_index (blocks B) -> blocks t = blocks B.
Proof. intros [E|[Hn _]]%block_writes_blocks Hh; [done|by destruct (Hn Hh)]. Qed.

Lemma block_writes_before `{Collation} h B t :
  block_writes h B t -> h ∉ map b_index (blocks t) -> blocks t = blocks B.
Proof.
  intros [E|(_ & r & E & Hr)]%block_writes_blocks Hh; [done|]. destruct Hh.
  rewrite E, map_app, <- Hr. apply elem_of_app. right. by constructor.
Qed.

Section StoreBlock.
Context {Coll : Collation} {Lib : ChainLib} (cfg : decoder_config) (tip : Z).

(** The times of the stored blocks from a height down, newest first, up to a gap. *)
Fixpoint previous_times (span : nat) (height : Z) (t : tables) : list jsval :=
  match span with
  | O => []
  | S n =>
      if height <? 0 then []
      else match block_by_index height t with
           | None => []
           | Some b => js_time (s_time b) :: previous_times n (height - 1) t
           end
  end.

(** The lookups' failures are values, so nothing is thrown. *)
Lemma steps_fetch_times {T B} span height times :
  steps T (fun t => t = B) Undone (fetch_times span height times) stays
    (fun r t => t = B /\ forall l, r = Some l -> l = times ++ previous_times span height B).
Proof.
  revert height times. induction span as [|n IH]; intros height times; simpl.
  { apply txn_ret; [done|]. intros t ->. split; [done|]. intros l [= <-]. by rewrite app_nil_r. }
  destruct (height <? 0).
  { apply txn_ret; [done|]. intros t ->. split; [done|]. intros l [= <-]. by rewrite app_nil_r. }
  eapply (steps_bind _ _ _ _ (fun r t => t = B /\ forall b, r = Some b -> b = block_by_index height B)).
  - apply txn_try; [|intros e; by apply txn_ret].
    eapply steps_bind; [apply steps_read_retrying|]. intros b. apply txn_ret; [done|].
    intros t [-> ->]. split; [done|]. by intros b' [= <-].
  - intros [[b|]|]; apply steps_pure; intros Hb.
    + rewrite <- (Hb _ eq_refl). eapply steps_conseq; [apply IH|done|].
      intros r t [Ht Hr]. split; [done|]. intros l El. by rewrite (Hr l El), <- app_assoc.
    + rewrite <- (Hb _ eq_refl). apply txn_ret; [done|]. intros t ->. split; [done|].
      intros l [= <-]. by rewrite app_nil_r.
    + apply txn_ret; [done|]. by intros t ->.
Qed.

(** The block's clock, over the tables it is stored on: its context, and the protocol time
    of its parent. *)
Definition block_clock (blk : block) (h : Z) (T : tables) : BlockTimeContext * jsval :=
  let net := consensusNetwork cfg in
  let parent :=
    if isDispenserCancelGraceParentFloorActive net (jint (timestamp blk)) then 1%nat else 0%nat in
  let span := if isProtocolTimeMtpActive net then (MEDIAN_TIME_SPAN + parent)%nat else parent in
  let times := previous_times span (h - 1) T in
  (createBlockTimeContext net (jint (timestamp blk)) (take MEDIAN_TIME_SPAN times),
   match times with [] => JNull | t :: rest => protocolTime net t rest end).

(** The header time reaches the context as it is. *)
Lemma block_clock_time blk h T :
  sql_integer (rawBlockTime (block_clock blk h T).1) = Some (timestamp blk).
Proof. simpl. f_equal. apply Z.div_1_r. Qed.

Lemma steps_resolveBlockTimeContext {T} blk h :
  steps T (fun t => t = T) Undone (resolveBlockTimeContext cfg blk h) ends_none
    (fun c t => t = T /\ forall x, c = Some x -> x = block_clock blk h T).
Proof.
  unfold resolveBlockTimeContext, block_clock. cbn zeta.
  set (span := if isProtocolTimeMtpActive _ then _ else _).
  eapply (steps_bind _ _ _ _ (fun r t => t = T /\ forall l, r = Some l -> l = previous_times span (h - 1) T)).
  - destruct span as [|n]; [|exact (steps_fetch_times (S n) (h - 1) [])].
    apply txn_ret; [done|]. intros t ->. split; [done|]. by intros l [= <-].
  - intros [times|]; [|by apply txn_end_ret; [apply txn_endTransaction|]].
    apply steps_pure. intros Hl. rewrite <- (Hl times eq_refl).
    apply txn_ret; [done|]. intros t ->. split; [done|]. by intros x [= <-].
Qed.

Lemma steps_expireDispensers {T I} time h (J : tables -> Prop) :
  (forall t, I t -> J (expire_rows h (sql_bound time) t)) ->
  steps T I Undone (expireDispensers time h) is_rollback (fun _ => J).
Proof.
  intros HJ. unfold expireDispensers.
  eapply txn_bind_ends; [by apply (steps_deleteOpenDispensers h (sql_bound time) J)| |].
  - intros r Hr. apply negb_false_iff in Hr. rewrite Hr. by apply txn_ret.
  - intros r w Hr Hw. apply negb_true_iff in Hr. by rewrite Hr.
Qed.

(** The expiry, where the block does it at this end. *)
Definition expired_if (here : bool) (time : jsval) (h : Z) (t : tables) : tables :=
  if here then expire_rows h (sql_bound time) t else t.

Lemma steps_expire_if {T I} (here : bool) time h (J : tables -> Prop) :
  (forall t, I t -> J (expired_if here time h t)) ->
  steps T I Undone (if here then expireDispensers time h else mret Proceed) is_rollback
    (fun _ => J).
Proof. intros HJ. destruct here; [by apply steps_expireDispensers|by apply txn_ret]. Qed.

Lemma steps_at_start {T} atEnd time h B :
  steps T (fun t => t = B) Undone (expireDispensersAtBlockStart time h atEnd) is_rollback
    (fun _ t => t = expired_if (negb atEnd) time h B).
Proof.
  unfold expireDispensersAtBlockStart.
  destruct atEnd; [apply txn_ret; [done|]|apply steps_expireDispensers]; by intros t ->.
Qed.

Lemma steps_loadOpen {T I} time p :
  steps T I Undone (loadOpenDispenserAddresses cfg time p) ends_none
    (fun r t => I t /\ forall s, r = Some s ->
       s = captured_addresses (cancelGraceFloor (consensusNetwork cfg) time p) t).
Proof.
  unfold loadOpenDispenserAddresses. eapply steps_bind; [apply steps_getAllOpen|].
  intros [s|]; [by apply txn_ret|]. by apply txn_end_ret; [apply txn_endTransaction|].
Qed.

Definition ends_batch (r : directive * batch) : bool := is_rollback r.1.

Lemma steps_ingest_all {T h B} b time hash open i l aside :
  (forall k, k ∈ insertQuarantine (loop b) -> aside k) ->
  steps T (fun t => t = B) Undone (ingest_all cfg b time h hash open i l) ends_batch
    (fun r t => ingested cfg h time hash aside i l (lastProcessedTxIndex (loop b)) open B t
                /\ blocksQuantity r.2 = blocksQuantity b).
Proof.
  revert B b open i. induction l as [|t l IH]; intros B b open i Ha; simpl.
  { apply txn_ret; [done|]. intros t ->. split; [constructor|done]. }
  eapply txn_bind_ends; [by apply (steps_ingestTransaction cfg time hash aside)| |].
  - intros [[d lp] o] Hd. cbn [fst snd] in *. apply steps_named. intros B1 [H1 Hq1].
    assert (Hk : forall b1, loop b1 = lp -> blocksQuantity b1 = blocksQuantity b ->
      steps T (fun t => t = B1) Undone (ingest_all cfg b1 time h hash o (i + 1) l) ends_batch
        (fun r t' => ingested cfg h time hash aside i (t :: l) (lastProcessedTxIndex (loop b)) open B t'
                     /\ blocksQuantity r.2 = blocksQuantity b)).
    { intros b1 <- E2. eapply steps_conseq; [apply (IH B1); by rewrite Hq1|done|]. intros r t' [Ht Hq].
      split; [by eapply ingested_next|congruence]. }
    destruct d; [done|by apply Hk..].
  - by intros [[[| |] lp] o] w Hd Hw.
Qed.

(** ** The block, recorded *)

(** The blocks row is the first write of the block: its height, the header's time, the hash
    the node gave it and the hash its header names. *)
Definition headed (h : Z) (hash prev : jstr) (blk : block) (T t : tables) : Prop :=
  block_writes h T t /\ transactions t = transactions T
  /\ transaction_outputs t = transaction_outputs T
  /\ exists r, blocks t = blocks T ++ [r] /\ b_index r = h /\ b_time r = Some (timestamp blk)
       /\ names (index_transactions t) (b_hash_id r) (Some hash)
       /\ names (index_transactions t) (b_previous_id r) (Some prev).

(** The whole block: the row, the expiry where the protocol time puts it, and in between the
    transactions in order, over the addresses open then, numbered on from [n]; only a
    position of [aside] is set aside without a parse. *)
Definition recorded_block (n : Z) (aside : jstr -> Prop) (h : Z) (hash prev : jstr) (blk : block)
    (T t : tables) : Prop :=
  exists txs T1 B,
    let clock := block_clock blk h T in
    let time := protocolBlockTime clock.1 in
    let floor := cancelGraceFloor (consensusNetwork cfg) time clock.2 in
    let atEnd := isDispenserExpiryRealignActive (consensusNetwork cfg) time in
    let B0 := expired_if (negb atEnd) time h T1 in
    headed h hash prev blk T T1
    /\ block_transactions blk = Some txs
    /\ ingested cfg h time hash aside 0 txs n (captured_addresses floor B0) B0 B
    /\ t = expired_if atEnd time h B.

Lemma expired_if_writes here time h T t :
  block_writes h T t -> block_writes h T (expired_if here time h t).
Proof. intros Ht. destruct here; [by apply (writes_step _ _ _ (WExpire (sql_bound time)))|done]. Qed.

(** All of it are writes of this height, and the row stays as it was entered. *)
Lemma recorded_block_writes n aside h hash prev blk T t :
  recorded_block n aside h hash prev blk T t ->
  block_writes h T t
  /\ exists r, blocks t = blocks T ++ [r] /\ b_index r = h /\ b_time r = Some (timestamp blk)
       /\ names (index_transactions t) (b_hash_id r) (Some hash)
       /\ names (index_transactions t) (b_previous_id r) (Some prev).
Proof.
  intros (txs & T1 & B & (Hw & _ & _ & r & Hr & Hi & Ht & Hn & Hp) & _ & Hl & ->).
  match goal with |- block_writes _ _ ?t /\ _ => assert (H1 : block_writes h T1 t) end.
  { apply expired_if_writes. eapply block_writes_trans; [|by eapply ingested_writes].
    apply expired_if_writes. constructor. }
  split; [by eapply block_writes_trans|]. exists r. destruct (block_writes_index _ _ _ H1) as [Hx _].
  rewrite (block_writes_same _ _ _ H1).
  - split_and!; try done; by eapply names_mono.
  - rewrite Hr, map_app, <- Hi. apply elem_of_app. right. by left.
Qed.

Lemma steps_insertBlockRecord {T} blk h hash prev :
  steps T (interned h T) Undone (insertBlockRecord (block_clock blk h T).1 h hash prev) negb
    (fun _ => headed h hash prev blk T).
Proof.
  pose proof (block_clock_time blk h T) as Ht. set (ctx := (block_clock blk h T).1) in *. unfold insertBlockRecord. apply steps_insertBlock.
  intros t r (Hi & Htm & Hh & Hp) Hn [Hw Hb Hx Ho _ _]. cbn [nb_index nb_time nb_hash nb_previous_hash] in *.
  destruct r as [ri rt rh rp]. cbn in *. subst ri rt.
  split; [by apply (storing_write h T (WBlock rp rh (sql_integer (rawBlockTime ctx))))|].
  split; [exact Hx|]. split; [exact Ho|]. eexists. rewrite <- Hb. by rewrite <- Ht.
Qed.

(** ** The commit *)

(** The tables after the block [t] of height [h] is committed and purged. *)
Definition purged_after (h : Z) (time : jsval) (t : tables) : tables -> Prop :=
  purges (h - resolveDispenserExpireSafeDepth (coinTick cfg) (consensusNetwork cfg))
    (purgeGraceFloor (consensusNetwork cfg) time) t.

(** The cursor as it is re-read from the tables. *)
Definition cursor_at (t : tables) (b : batch) : Prop :=
  lastProcessedBlockIndex b = Z.max (max_of (map b_index (blocks t))) (startBlockIndex cfg - 1).

(** Committing the tables [t] over the tables [T]: an unacknowledged commit goes on to
    the next pass with either. *)
Definition commit_outcome (h : Z) (time : jsval) (T t : tables)
    (r : res (directive * batch) * world) : Prop :=
  match r with
  | (Ret (Rollback, _), _) => False
  | (Ret (Continue, b), w) =>
      idle_in (fun t' => (t' = T \/ t' = t) /\ cursor_at t' b) w /\ blocksQuantity b = 0
  | (Ret (Proceed, b), w) =>
      idle_in (purged_after h time t) w /\ blocksQuantity b = 0
      /\ lastProcessedBlockIndex b = h
  | (Throw _, w) => idle_in (fun t' => t' = T \/ purged_after h time t t') w
  | (Blocked, _) => False
  end.

Lemma brings_reset P b :
  brings P (resetAfterRollback cfg b)
    (fun b' t => (P t /\ cursor_at t b') /\ blocksQuantity b' = 0) P.
Proof.
  eapply brings_bind; [apply brings_read_retrying|intros lastBlock].
  eapply brings_bind.
  { eapply brings_conseq; [apply brings_read_retrying|intros t H; exact H|
      intros a t H; exact H|by intros t [Ht _]]. }
  intros lastTx. apply brings_ret. by intros t [[Ht ->] _].
Qed.

Lemma rests_purgeExpired h time t :
  rests (purged_after h time t) (purgeExpiredAfterCommit cfg h time).
Proof.
  apply rests_bind; [apply rests_purge|].
  intros []; [apply rests_ret|apply rests_count].
Qed.

Lemma finish_commit_spec b h time T w :
  open_on T w -> blocksQuantity b = 0 ->
  commit_outcome h time T (live w) (finish_commit cfg tip b h time w).
Proof.
  intros Hw Hq. unfold finish_commit. rewrite Hq.
  change (0 =? DB_TRANSACTION_BLOCKS_QUANTITY - 1) with true. cbn [orb].
  unfold commitBlockBatch. pose proof (commitTransaction_spec w Hw) as Hc.
  unfold mbind, M_bind. destruct (commitTransaction w) as [[[]|e|] w1]; [| |done|done];
    cbn [negb].
  - pose proof (rests_purgeExpired h time (live w) w1) as Hp.
    destruct (purgeExpiredAfterCommit cfg h time w1) as [[[]|e|] w2].
    + split; [|done]. apply Hp. exists (live w). by split; [constructor|].
    + destruct Hp as (t & Ht & Hi); [exists (live w); by split; [constructor|]|].
      exists t. split; [by right|done].
    + apply Hp. exists (live w). by split; [constructor|].
  - assert (Hi : idle_in (fun t' => t' = T \/ t' = live w) w1).
    { destruct Hc as [Hc|Hc]; [exists T|exists (live w)]; auto. }
    unfold retryFailedCommit, mbind, M_bind.
    pose proof (brings_reset _ b w1 Hi) as Hr.
    destruct (resetAfterRollback cfg b w1) as [[b'|e|] w2]; [| |done].
    + destruct Hr as (t & [Ht Hz] & Hr). split; [by exists t|done].
    + destruct Hr as (t & [->| ->] & Ht); [exists T|exists (live w)]; (split; [|done]);
        [by left|right; constructor].
Qed.

(** ** The whole block *)

(** [t] is the block stored over [T], and possibly purged. *)
Definition stored_block_tables (n : Z) (aside : jstr -> Prop) (h : Z) (hash prev : jstr)
    (blk : block) (T t : tables) : Prop :=
  exists t0, recorded_block n aside h hash prev blk T t0
    /\ purged_after h (protocolBlockTime (block_clock blk h T).1) t0 t.

Lemma stored_block_mono n (aside aside' : jstr -> Prop) h hash prev blk T t :
  (forall k, aside k -> aside' k) ->
  stored_block_tables n aside h hash prev blk T t -> stored_block_tables n aside' h hash prev blk T t.
Proof.
  intros Ha (t0 & (txs & T1 & B & H1 & H2 & H3 & H4) & Hp). exists t0. split; [|exact Hp].
  exists txs, T1, B. split_and!; [done..| |done]. by eapply ingested_mono.
Qed.

Section From.
Context (b0 : batch).

(** Stored by a loop in the state [b0]. *)
#[local] Abbreviation recorded_here := (recorded_block (lastProcessedTxIndex (loop b0))
  (fun k => k ∈ insertQuarantine (loop b0))).
#[local] Abbreviation stored_here := (stored_block_tables (lastProcessedTxIndex (loop b0))
  (fun k => k ∈ insertQuarantine (loop b0))).

Definition block_outcome (h : Z) (hash prev : jstr) (blk : block) (T : tables)
    (r : res (directive * batch) * world) : Prop :=
  match r with
  | (Ret (Rollback, _), w) => idle T w
  | (Ret (Continue, b), w) =>
      idle_in (fun t => (t = T \/ recorded_here h hash prev blk T t) /\ cursor_at t b) w
      /\ blocksQuantity b = 0
  | (Ret (Proceed, b), w) =>
      idle_in (stored_here h hash prev blk T) w /\ blocksQuantity b = 0
      /\ lastProcessedBlockIndex b = h
  | (Throw _, w) =>
      idle_in (fun t => t = T \/ stored_here h hash prev blk T t) w
      \/ block_transactions blk = None /\ open_on T w
  | (Blocked, _) => False
  end.

Lemma commit_block_outcome h hash prev blk T t r :
  recorded_here h hash prev blk T t ->
  commit_outcome h (protocolBlockTime (block_clock blk h T).1) T t r -> block_outcome h hash prev blk T r.
Proof.
  intros Ht. destruct r as [[[[| |] b]|e|] w]; simpl; [done| | | |done].
  - intros [(x & [[->| ->] Hb] & Hx) Hq]; (split; [|done]); eexists; (split; [|exact Hx]); auto.
  - intros [(x & Hx & Hi) Hq]. split; [|done]. exists x. split; [|done]. by exists t.
  - intros (x & [->|Hx] & Hi); left; [exists T; auto|]. exists x. split; [|done]. right.
    by exists t.
Qed.

Lemma block_outcome_idle h hash prev blk T err w : idle T w -> block_outcome h hash prev blk T (Throw err, w).
Proof. intros Hw. left. exists T. auto. Qed.

Lemma finishBlock_spec blk h hash prev T T1 w :
  let clock := block_clock blk h T in
  let time := protocolBlockTime clock.1 in
  let floor := cancelGraceFloor (consensusNetwork cfg) time clock.2 in
  let atEnd := isDispenserExpiryRealignActive (consensusNetwork cfg) time in
  let B0 := expired_if (negb atEnd) time h T1 in
  headed h hash prev blk T T1 -> within T (fun t => t = B0) w -> blocksQuantity b0 = 0 ->
  block_outcome h hash prev blk T
    (finishBlock cfg tip b0 blk time h hash (captured_addresses floor B0) atEnd w).
Proof.
  intros clock time floor atEnd B0 HT1 Hw Hq. unfold finishBlock.
  destruct (block_transactions blk) as [txs|] eqn:Etx; [|by right; split; [|apply Hw]].
  revert w Hw.
  eapply steps_then; [by apply (steps_ingest_all (add_block b0) _ _ _ _ _ (fun k => k ∈ insertQuarantine (loop b0)))| | |apply block_outcome_idle].
  2: by intros [[| |] b'] v He Hv.
  intros [d b'] w Hd [Hw [Hing Hb']]. cbn [fst snd] in *.
  assert (Hrest : block_outcome h hash prev blk T
    ((d ← (if atEnd then expireDispensers time h else mret Proceed);
      match d with
      | Rollback => mret (Rollback, add_transactions (Z.of_nat (length txs)) b')
      | _ => finish_commit cfg tip (add_transactions (Z.of_nat (length txs)) b') h time
      end) w)); [|by destruct d].
  eapply steps_then; [| | |apply block_outcome_idle|exact (conj Hw Hing)].
  - apply (steps_expire_if atEnd time h (recorded_here h hash prev blk T)).
    intros t Ht. by exists txs, T1, t.
  - intros e v He [Hv Hrec].
    assert (Hc : block_outcome h hash prev blk T (finish_commit cfg tip
      (add_transactions (Z.of_nat (length txs)) b') h time v)).
    { eapply commit_block_outcome; [exact Hrec|]. apply finish_commit_spec; [done|].
      simpl. by rewrite Hb'. }
    by destruct e.
  - by intros [| |] v He Hv.
Qed.

Lemma store_in_transaction_spec blk h hash prev T w :
  within T (fun t => t = T) w -> blocksQuantity b0 = 0 ->
  block_outcome h hash prev blk T (store_in_transaction cfg tip b0 blk h hash prev w).
Proof.
  intros Hw Hq. revert w Hw. unfold store_in_transaction.
  eapply steps_then; [apply steps_resolveBlockTimeContext| | |apply block_outcome_idle].
  2: by intros [c|] w Hc Hw.
  intros [[ctx parent]|] w Hc [Hw [Hl Hctx]]; [|done]. specialize (Hctx _ eq_refl).
  set (clock := block_clock blk h T) in Hctx.
  replace ctx with clock.1 by by rewrite <- Hctx. replace parent with clock.2 by by rewrite <- Hctx.
  eapply steps_then; [by apply steps_insertBlockRecord| | |apply block_outcome_idle|
    by split; [|apply interned_from]].
  2: { intros ok v Hok Hv. apply negb_true_iff in Hok. by rewrite Hok. }
  clear w Hw Hl Hc ctx parent Hctx. intros ok w Hok [Hw HT1]. apply negb_false_iff in Hok as ->. cbn [negb].
  set (time := protocolBlockTime clock.1).
  set (atEnd := isDispenserExpiryRealignActive (consensusNetwork cfg) time).
  assert (Hlive : within T (fun t => t = live w) w) by by split.
  revert HT1 Hlive. generalize (live w) as T1. clear Hw. intros T1 HT1.
  set (B0 := expired_if (negb atEnd) time h T1). revert w.
  eapply steps_then; [| | |apply block_outcome_idle].
  - eapply (steps_at_start atEnd time h T1).
  - intros d w Hd Hw.
    assert (Hopen : block_outcome h hash prev blk T
      ((open ← loadOpenDispenserAddresses cfg time clock.2;
        match open with
        | None => mret (Rollback, b0)
        | Some addresses => finishBlock cfg tip b0 blk time h hash addresses atEnd
        end) w)); [|by destruct d].
    eapply steps_then; [apply steps_loadOpen| | |apply block_outcome_idle|exact Hw].
    + intros [s|] v He [Hv [Ht Hs]]; [|done]. rewrite (Hs s eq_refl), Ht.
      by apply finishBlock_spec.
    + by intros [s|] v He Hv.
  - by intros [| |] w Hd Hw.
Qed.

Lemma storeBlock_outcome blk h hash prev T w :
  idle T w -> blocksQuantity b0 = 0 ->
  block_outcome h hash prev blk T (storeBlock cfg tip b0 blk h hash prev w).
Proof.
  intros Hw Hq. unfold storeBlock. rewrite Hq, Z.eqb_refl.
  pose proof (beginTransaction_spec w Hw) as Hb. unfold mbind at 1, M_bind at 1.
  destruct (beginTransaction w) as [[[]|e|] w1]; [|by apply block_outcome_idle|done].
  destruct Hb as [Hw1 Hl]. apply store_in_transaction_spec; [|done].
  split; [done|exact Hl].
Qed.
End From.

(** *** The loop it hands on *)

#[local] Abbreviation refusing := (fun r : directive * batch => refusals cfg (loop r.2)).

Lemma ingest_all_refusals l b time h hash open i :
  refusals cfg (loop b) -> returns (ingest_all cfg b time h hash open i l) refusing.
Proof.
  revert b open i. induction l as [|t l IH]; intros b open i Hb; simpl; [by apply returns_ret|].
  eapply returns_bind; [by apply refusals_ingest|]. intros [[d lp] o] Ho. cbn [fst snd] in Ho.
  destruct d; [by apply returns_ret|by apply IH..].
Qed.

Lemma reset_refusals b : refusals cfg (loop b) ->
  returns (resetAfterRollback cfg b) (fun b' => refusals cfg (loop b')).
Proof. intros Hb. do 2 (apply returns_after; intros ?). by apply returns_ret. Qed.

Lemma finish_commit_refusals b h time :
  refusals cfg (loop b) -> returns (finish_commit cfg tip b h time) refusing.
Proof.
  intros Hb. unfold finish_commit. case_match; [|by apply returns_ret].
  eapply (returns_bind _ _ refusing); [|intros [d b'] Hb'; apply returns_ret; by destruct d].
  unfold commitBlockBatch. apply returns_after. intros [|]; cbn [negb].
  - apply returns_after. intros u. apply returns_ret. by apply refusals_none.
  - eapply returns_bind; [by apply reset_refusals|]. intros b' Hb'. by apply returns_ret.
Qed.

Lemma storeBlock_refusals b blk h hash prev :
  refusals cfg (loop b) -> returns (storeBlock cfg tip b blk h hash prev) refusing.
Proof.
  intros Hb. unfold storeBlock, store_in_transaction. apply returns_after. intros u.
  apply returns_after. intros [[ctx p]|]; [|by apply returns_ret].
  apply returns_after. intros [|]; [|by apply returns_ret]. cbn [negb].
  assert (Hf : forall s atEnd, returns (finishBlock cfg tip b blk (protocolBlockTime ctx) h hash s atEnd) refusing).
  { intros s atEnd. unfold finishBlock. destruct (block_transactions blk) as [txs|]; [|apply returns_throw].
    eapply returns_bind; [by apply (ingest_all_refusals txs (add_block b))|]. intros [d b'] Hb'.
    assert (Hr : returns (d ← (if atEnd then expireDispensers (protocolBlockTime ctx) h else mret Proceed);
      match d with
      | Rollback => mret (Rollback, add_transactions (Z.of_nat (length txs)) b')
      | _ => finish_commit cfg tip (add_transactions (Z.of_nat (length txs)) b') h (protocolBlockTime ctx)
      end) refusing).
    { apply returns_after. intros [| |]; [by apply returns_ret|by apply finish_commit_refusals..]. }
    destruct d; [by apply returns_ret|exact Hr..]. }
  apply returns_after. intros d.
  assert (Ho : returns (open ← loadOpenDispenserAddresses cfg (protocolBlockTime ctx) p;
    match open with
    | None => mret (Rollback, b)
    | Some s => finishBlock cfg tip b blk (protocolBlockTime ctx) h hash s
                  (isDispenserExpiryRealignActive (consensusNetwork cfg) (protocolBlockTime ctx))
    end) refusing).
  { apply returns_after. intros [s|]; [apply Hf|by apply returns_ret]. }
  destruct d; [by apply returns_ret|exact Ho..].
Qed.

(** C1: storing a block is all or nothing, whatever calls on the database, the node or
    the commit itself fail and wherever its parse goes: from an idle handle it never
    waits on its own lock and leaves the handle idle (a throw on a block decoded from a
    bare header excepted, which leaves the transaction open over the old tables); a
    'rollback' or a throw leaves the tables as they were (or, for a throw, committed), a
    'continue' leaves them before or after the block, with the cursor re-read from them, and
    on success they are the block recorded over the old ones, followed only by the purge:
    one blocks row at the end of the table with its height, the header's time and the ids of
    its own hash and of the previous one, then its transactions in order, numbered on from
    the index of the loop: each stored as parsed, or found to hold nothing, or recorded by
    one PARSE_ERROR event where its parse failed on its content or the loop had quarantined
    its position. *)
Theorem storeBlock_atomic b blk h hash prev T w :
  idle T w -> blocksQuantity b = 0 ->
  block_outcome b h hash prev blk T (storeBlock cfg tip b blk h hash prev w).
Proof. apply storeBlock_outcome. Qed.
End StoreBlock.

(** ** Storing, then undoing *)

Section Reversible.
Context {Coll : Collation} {Lib : ChainLib} (cfg : decoder_config) (tip : Z).

(** What a purge below height [h] leaves for the deletion of block [h]. *)
Record purge_shape (h : Z) (t t' : tables) : Prop := {
  ps_blocks : blocks t' = blocks t;
  ps_txs : transactions t' = transactions t;
  ps_outputs : transaction_outputs t' = transaction_outputs t;
  ps_dispensers : dispensers t' `sublist_of` dispensers t;
  ps_undo d : undo_row_for h d (dispenser_extension_undo t')
              = undo_row_for h d (dispenser_extension_undo t)
}.

Lemma sublist_filter {A} (f : A -> bool) l : List.filter f l `sublist_of` l.
Proof. induction l as [|x l IH]; simpl; [done|]. destruct (f x); by constructor. Qed.

Lemma sublist_filter_mono {A} (f : A -> bool) l l' :
  l `sublist_of` l' -> List.filter f l `sublist_of` List.filter f l'.
Proof.
  induction 1 as [|x l l' _ IH|x l l' _ IH]; simpl; [done| |];
    destruct (f x); by try constructor.
Qed.

Lemma sublist_map_mono {A B} (f : A -> B) l l' :
  l `sublist_of` l' -> map f l `sublist_of` map f l'.
Proof. induction 1; simpl; by constructor. Qed.

Lemma undo_row_for_purge h s d l :
  s < h ->
  undo_row_for h d (List.filter (fun u => negb (u_block u <=? s)) l) = undo_row_for h d l.
Proof.
  intros Hs. unfold undo_row_for. induction l as [|u l IH]; simpl; [done|].
  destruct (u_block u <=? s) eqn:E; simpl; [|by rewrite IH].
  rewrite IH. apply Z.leb_le in E.
  replace (u_block u =? h) with false by (symmetry; apply Z.eqb_neq; lia). done.
Qed.

Lemma purges_shape h s g t t' : s < h -> purges s g t t' -> purge_shape h t t'.
Proof.
  intros Hs. induction 1 as [|t' _ IH|t' _ IH]; [done| |]; destruct IH as [? ? ? Hd Hu].
  - split; [done..| |done]. etrans; [apply sublist_filter|exact Hd].
  - split; [done..|]. intros d. cbn [with_undo dispenser_extension_undo].
    by rewrite undo_row_for_purge.
Qed.

Lemma safe_depth_positive coin net : 0 < resolveDispenserExpireSafeDepth coin net.
Proof. unfold resolveDispenserExpireSafeDepth. by case_match. Qed.

(** The deletion reads the purged tables the way it reads the stored ones. *)
Lemma delete_purged h hash t t' :
  purge_shape h t t' ->
  let r := delete_block_tables h hash t in let r' := delete_block_tables h hash t' in
  blocks r' = blocks r /\ transactions r' = transactions r
  /\ transaction_outputs r' = transaction_outputs r
  /\ dispensers r' `sublist_of` dispensers r.
Proof.
  intros [Hb Ht Ho Hd Hu] r r'. unfold r, r', delete_block_tables.
  assert (Hr : map (restore_row h (dispenser_extension_undo t')) (dispensers t')
               = map (restore_row h (dispenser_extension_undo t)) (dispensers t')).
  { apply map_ext. intros d. unfold restore_row. by rewrite Hu. }
  assert (Hi : tx_indexes_of h t' = tx_indexes_of h t) by (unfold tx_indexes_of; by rewrite Ht).
  assert (Hs : List.filter (fun d => negb (in_list (d_tx_index d) (tx_indexes_of h t)))
      (map (unexpire h) (map (restore_row h (dispenser_extension_undo t)) (dispensers t')))
    `sublist_of` List.filter (fun d => negb (in_list (d_tx_index d) (tx_indexes_of h t)))
      (map (unexpire h) (map (restore_row h (dispenser_extension_undo t)) (dispensers t)))).
  { by apply sublist_filter_mono, sublist_map_mono, sublist_map_mono. }
  unfold tx_indexes_of in Hi, Hs.
  destruct hash; cbn; unfold tx_indexes_of; cbn; rewrite Hr, Hb, Ht, Ho; by repeat split.
Qed.

(** What a reorg at height [h] leaves of the tables [T] the block was stored on. *)
Definition undone (T t : tables) : Prop :=
  blocks t = blocks T /\ transactions t = transactions T
  /\ transaction_outputs t = transaction_outputs T
  /\ dispensers t `sublist_of` dispensers T.

Lemma delete_stored_block n aside h hash prev blk reorgHash T t :
  before_block h T -> stored_block_tables cfg n aside h hash prev blk T t ->
  undone T (delete_block_tables h reorgHash t).
Proof.
  intros Hb (t0 & [Hw _]%recorded_block_writes & Hp).
  apply (purges_shape h) in Hp;
    [|pose proof (safe_depth_positive (coinTick cfg) (consensusNetwork cfg)); lia].
  destruct (delete_purged h reorgHash t0 t Hp) as (H1 & H2 & H3 & H4).
  destruct (delete_block_restores h reorgHash T t0 Hb Hw) as (E1 & E2 & E3 & E4 & _).
  unfold undone. rewrite H1, H2, H3, <- E1, <- E2, <- E3, <- E4. done.
Qed.

(** C5: a stored block can be taken back, end to end: after [storeBlock] succeeds on
    tables that hold nothing of its height, a [deleteBlockByIndex] of that height that
    returns [true] leaves blocks, transactions and outputs exactly as they were, every
    dispenser row that remains with its original expiration and mark (only rows the
    purge dropped are missing), and the handle idle. *)
Theorem stored_block_reversible b blk h hash prev reorgHash T w :
  idle T w -> before_block h T -> blocksQuantity b = 0 ->
  match storeBlock cfg tip b blk h hash prev w with
  | (Ret (Proceed, _), w1) =>
      match deleteBlockByIndex h reorgHash w1 with
      | (Ret true, w2) => idle_in (undone T) w2
      | (Throw _, w2) => idle_in (fun t =>
          stored_block_tables cfg (lastProcessedTxIndex (loop b))
            (fun k => k ∈ insertQuarantine (loop b)) h hash prev blk T t
          \/ undone T t) w2
      | _ => False
      end
  | _ => True
  end.
Proof.
  intros Hw Hb Hq. pose proof (storeBlock_outcome cfg tip b blk h hash prev T w Hw Hq) as Hs.
  destruct (storeBlock cfg tip b blk h hash prev w) as [[[[| |] b']|e|] w1]; try done.
  destruct Hs as [(t & Ht & Hi) _].
  pose proof (deleteBlockByIndex_outcome t w1 h reorgHash Hi) as Hd.
  destruct (deleteBlockByIndex h reorgHash w1) as [[[]|e|] w2]; [|done| |done].
  - eexists. split; [|exact Hd]. by eapply delete_stored_block.
  - destruct Hd as [Hd|Hd]; eexists; (split; [|exact Hd]); [by left|right].
    by eapply delete_stored_block.
Qed.
End Reversible.

(** ** The sample block *)

Definition sample_block : block := Block 1700000000 (Some [coinpay_tx; dispenser_tx; edit_tx]).

Definition sample_loop : loop_state := LoopState (-1) 0 ∅ ∅ ∅ ∅.
Definition sample_batch : batch := Batch sample_loop 0 99 0 0 0.

Definition sample_hash : jstr := replicate 64 99.
Definition sample_prev_hash : jstr := replicate 64 100.

(** The tenth call is refused: a lock-wait timeout inside the block transaction. *)
Definition sample_faults : list (option fault) :=
  replicate 9 None ++ [Some (Fault (sql_error 1205) false)].

Definition sample_run (fs : list (option fault)) : res (directive * batch) * world :=
  storeBlock sample_config 200 sample_batch sample_block 100 sample_hash sample_prev_hash
    (idle_world initial_tables fs).

Definition directive_of {A} (r : res (directive * A) * world) : option directive :=
  match r with (Ret (d, _), _) => Some d | _ => None end.

Lemma storeBlock_atomic_witness :
  directive_of (sample_run []) = Some Proceed
  /\ directive_of (sample_run sample_faults) = Some Rollback
  /\ block_outcome sample_config sample_batch 100 sample_hash sample_prev_hash sample_block initial_tables (sample_run [])
  /\ block_outcome sample_config sample_batch 100 sample_hash sample_prev_hash sample_block initial_tables (sample_run sample_faults).
Proof.
  split; [by vm_compute|]. split; [by vm_compute|].
  split; by apply (storeBlock_atomic sample_config 200 sample_batch sample_block 100
    sample_hash sample_prev_hash initial_tables).
Defined.

Lemma stored_block_reversible_witness :
  idle initial_tables (idle_world initial_tables []) /\ before_block 100 initial_tables
  /\ length (dispensers (live (sample_run []).2)) = 1%nat
  /\ match sample_run [] with
     | (Ret (Proceed, _), w1) =>
         match deleteBlockByIndex 100 None w1 with
         | (Ret true, w2) => idle_in (undone initial_tables) w2
         | (Throw _, w2) => idle_in (fun t =>
             stored_block_tables sample_config (-1) (fun k => k ∈ (∅ : gset jstr)) 100 sample_hash
               sample_prev_hash sample_block
               initial_tables t
             \/ undone initial_tables t) w2
         | _ => False
         end
     | _ => True
     end.
Proof.
  assert (Hb : before_block 100 initial_tables).
  { by repeat split; constructor. }
  split; [done|]. split; [exact Hb|]. split; [by vm_compute|].
  apply (stored_block_reversible sample_config 200 sample_batch sample_block 100 sample_hash
    sample_prev_hash None initial_tables (idle_world initial_tables [])); done.
Defined.

Lemma connect_exhausted n t err fs n1 n2 st :
  connect n (World t None false false n1 n2 (replicate n (Some (Fault err false)) ++ fs) st)
  = (Throw (plain_error (js "Failed to get database connection")),
     World t None false false n1 n2 fs st).
Proof.
  induction n as [|n IH]; [done|]. cbn [connect replicate app]. unfold try_catch, query, query_with.
  cbn. apply IH.
Qed.

(** A purge that cannot get a connection is not counted but thrown: when the pool
    refuses thirty times after a successful commit, purgeExpiredAfterCommit throws with
    the tables and the failure count as they were, and the throw leaves [storeBlock],
    because the acquisition is outside the guard that turns its failures into a count. *)
Theorem purge_throws_without_connection cfg h time t err n1 n2 fs st :
  resolveDispenserExpireSafeDepth (coinTick cfg) (consensusNetwork cfg) <= h ->
  purgeExpiredAfterCommit cfg h time
    (World t None false false n1 n2
       (replicate MAX_CONNECTION_ATTEMPTS (Some (Fault err false)) ++ fs) st)
  = (Throw (plain_error (js "Failed to get database connection")),
     World t None false false n1 n2 fs st).
Proof.
  intros Hh. unfold purgeExpiredAfterCommit, purgeExpiredDispensers.
  rewrite (proj2 (Z.ltb_ge _ _)) by lia.
  unfold ok_or_rollback, mbind, M_bind, getConnection, state, mbind, M_bind.
  cbn [transactionConnection]. by rewrite connect_exhausted.
Qed.

Lemma purge_throws_without_connection_witness :
  resolveDispenserExpireSafeDepth (coinTick sample_config) (consensusNetwork sample_config) <= 1000
  /\ (purgeExpiredAfterCommit sample_config 1000 (jint 1700000000)
       (World initial_tables None false false 2 2
          (replicate MAX_CONNECTION_ATTEMPTS (Some (Fault (plain_error []) false)) ++ [])
          fresh_stats)).1
     = Throw (plain_error (js "Failed to get database connection")).
Proof.
  split; [by vm_compute|].
  rewrite (purge_throws_without_connection sample_config 1000 (jint 1700000000) initial_tables
    (plain_error []) 2 2 [] fresh_stats); [reflexivity|by vm_compute].
Defined.
