(* ===== verification/Halt.v ===== *)
(** * The durable halt

    src/src/db/reorg_halt.js, and the database part of src/src/XChainDecoder/reorg_halt.js:
    the REORG_HALT and REORG_HALT_CLEARED rows of the events table, the newest of which
    decides, and the count of rolled-back heights above the stored tip.

    A row's id is its position in the table: rows of these codes are only ever appended.
    The [at] stamps of the payloads are wall-clock times and are left out. *)
From S2P Require Import Prelude JsNum Db DbRows Atomic Idle.
#[local] Open Scope Z_scope.

(** ** The newest row *)

Definition is_halt_row (e : event_row) : bool :=
  match e with HaltEvent _ | HaltClearedEvent _ => true | _ => false end.

(** [ORDER BY id DESC LIMIT 1] *)
Fixpoint newest_halt (id : Z) (l : list event_row) (best : option (Z * event_row))
  : option (Z * event_row) :=
  match l with
  | [] => best
  | e :: l' => newest_halt (id + 1) l' (if is_halt_row e then Some (id, e) else best)
  end.

Definition isAuditedClear (reason : option jstr) : bool :=
  match reason with Some r => (8 <=? length (trim r))%nat | None => false end.

Definition UNAUDITED_CLEAR_REASON : jstr :=
  js "unreadable or unaudited REORG_HALT_CLEARED row, treated as a live halt".

Record halt_state := HaltState {
  halted : bool; halt_id : option Z; halt_reason : option jstr;
  cleared_reason : option jstr; unaudited_clear : bool
}.

Definition truthy_text (r : option jstr) : option jstr :=
  match r with Some [] => None | _ => r end.

Definition state_of_events (l : list event_row) : halt_state :=
  match newest_halt 1 l None with
  | None => HaltState false None None None false
  | Some (id, HaltClearedEvent reason) =>
      if isAuditedClear reason then HaltState false None None (truthy_text reason) false
      else HaltState true (Some id) (Some UNAUDITED_CLEAR_REASON) None true
  | Some (id, HaltEvent reason) => HaltState true (Some id) (truthy_text (Some reason)) None false
  | Some (id, _) => HaltState true (Some id) None None false
  end.

Definition readReorgHaltState : M halt_state :=
  getConnection;; select (fun t => state_of_events (events t)).

Definition isReorgHalted : M bool :=
  s ← readReorgHaltState; mret (halted s).

(** ** Marking and clearing *)

Definition insert_true (r : insert_result) : bool := bool_decide (r = Inserted).
Definition insert_false (r : insert_result) : bool := bool_decide (r = NotInserted).

Definition markReorgHalted (reason : jstr) : M bool :=
  live ← readReorgHaltState;
  if halted live && negb (unaudited_clear live) then mret true
  else
    written ← insertEvent (HaltEvent reason);
    if insert_false written then mret false
    else try_catch isReorgHalted (fun _ => mret false).

Inductive clear_result :=
  | ClearDone (cleared : bool)
  | AlreadyClear
  | Superseded (liveHaltId : option Z).

(** [others] is what other sessions do between two of its statements. *)
Definition clearReorgHalt_among (others : nat -> M unit) (reason : jstr)
    (expectedHaltId : option Z) : M clear_result :=
  if (length (trim reason) <? 8)%nat
  then throw (plain_error (js "clearReorgHalt: a reason of at least 8 characters is required"))
  else
    state ← readReorgHaltState;
    if negb (halted state) then mret AlreadyClear
    else if match halt_id state, expectedHaltId with
            | None, _ => true
            | Some id, Some e => negb (id =? e)
            | Some _, None => false
            end
    then mret (Superseded (halt_id state))
    else
      others 0%nat;;
      written ← insertEvent (HaltClearedEvent (Some (trim reason)));
      if negb (insert_true written) then mret (ClearDone false)
      else
        others 1%nat;;
        after ← readReorgHaltState;
        mret (ClearDone (negb (halted after))).

Definition clearReorgHalt : jstr -> option Z -> M clear_result :=
  clearReorgHalt_among (fun _ => mret tt).

(** ** The depth already rolled back *)

Definition MARKER_SCAN_LIMIT : nat := Z.to_nat 10000.

(** The heights of the REORG rows, newest first. *)
Definition reorg_heights (l : list event_row) : list Z :=
  omap (fun e => match e with ReorgEvent h _ => Some h | _ => None end) (rev l).

Definition heights_above (tip : Z) (scanLimit : nat) (l : list event_row) : gset Z :=
  list_to_set (List.filter (fun h => tip <? h) (take scanLimit (reorg_heights l))).

Definition countReorgDeletesAboveTip : M Z :=
  tip ← getLastBlockIndex;
  getConnection;;
  select (fun t => Z.of_nat (size (heights_above tip MARKER_SCAN_LIMIT (events t)))).

(** [undefined] does not arise: the database handle has the count. *)
Definition readRolledBackAboveTip : M (option Z) :=
  try_catch (count ← countReorgDeletesAboveTip; mret (Some count)) (fun _ => mret None).

(** The write of haltReorg: two attempts, each a fresh statement. *)
Definition persistReorgHalt (reason : jstr) : M bool :=
  let attempt := try_catch (markReorgHalted reason) (fun _ => mret false) in
  first ← attempt;
  if (first : bool) then mret true else attempt.

(** ** Which row decides *)

Definition live_halt (t : tables) : Prop := halted (state_of_events (events t)) = true.

Lemma newest_halt_snoc id l e best :
  newest_halt id (l ++ [e]) best
  = if is_halt_row e then Some (id + Z.of_nat (length l), e) else newest_halt id l best.
Proof.
  revert id best. induction l as [|x l IH]; intros id best; simpl.
  - rewrite Z.add_0_r. by destruct (is_halt_row e).
  - rewrite IH. by replace (id + 1 + Z.of_nat (length l))
      with (id + Z.of_nat (S (length l))) by lia.
Qed.

Lemma state_snoc_other l e :
  is_halt_row e = false -> state_of_events (l ++ [e]) = state_of_events l.
Proof. intros He. unfold state_of_events. by rewrite newest_halt_snoc, He. Qed.

Lemma halted_snoc l e :
  halted (state_of_events (l ++ [e]))
  = match e with
    | HaltEvent _ => true
    | HaltClearedEvent reason => negb (isAuditedClear reason)
    | _ => halted (state_of_events l)
    end.
Proof.
  destruct e as [| | |reason]; try by rewrite state_snoc_other.
  - unfold state_of_events. by rewrite newest_halt_snoc.
  - unfold state_of_events. rewrite newest_halt_snoc. simpl. by destruct (isAuditedClear reason).
Qed.

Lemma live_halt_keeps e t :
  match e with HaltClearedEvent _ => False | _ => True end ->
  live_halt t -> live_halt (with_events (fun l => l ++ [e]) t).
Proof.
  unfold live_halt. cbn [with_events events]. rewrite halted_snoc. by destruct e.
Qed.

Lemma live_halt_after reason t : live_halt (with_events (fun l => l ++ [HaltEvent reason]) t).
Proof. unfold live_halt. cbn [with_events events]. by rewrite halted_snoc. Qed.

(** A halt once raised is only ever lifted by a clear that carries its reason. *)
Lemma lifted_by_audit l l' :
  halted (state_of_events l) = true -> halted (state_of_events (l ++ l')) = false ->
  exists reason, HaltClearedEvent reason ∈ l' /\ isAuditedClear reason = true.
Proof.
  intros Hl. induction l' as [|e l' IH] using rev_ind.
  { rewrite app_nil_r, Hl. done. }
  rewrite app_assoc, halted_snoc. intros H.
  destruct e as [| | |reason]; try done;
    [destruct (IH H) as (r & Hr & Ha); exists r; by rewrite elem_of_app; auto..|].
  exists reason. split; [by apply elem_of_app; right; left|]. by destruct (isAuditedClear reason).
Qed.

(** ** The operations on the tables *)

Section Operations.
Context {P : tables -> Prop}.

Lemma brings_readReorgHaltState :
  brings P readReorgHaltState (fun s t => P t /\ s = state_of_events (events t)) P.
Proof.
  apply (brings_bind _ _ (fun _ => P)); [apply rests_getConnection|intros _].
  apply brings_select.
Qed.

Lemma brings_isReorgHalted :
  brings P isReorgHalted (fun b t => P t /\ b = halted (state_of_events (events t))) P.
Proof.
  eapply brings_bind; [apply brings_readReorgHaltState|intros s].
  by apply brings_ret; intros t [Ht ->].
Qed.

(** An insert whose call failed may still have reached the server. *)
Lemma brings_insertEvent e (Q : tables -> Prop) :
  (forall t, P t -> Q (with_events (fun l => l ++ [e]) t)) ->
  brings P (insertEvent e)
    (fun r t => match r with Inserted => Q t | _ => P t \/ Q t end)
    (fun t => P t \/ Q t).
Proof.
  intros HQ. unfold insertEvent.
  apply (brings_bind _ _ (fun _ => P)).
  { eapply brings_conseq; [apply (rests_getConnection (P := P))|auto..]. }
  intros _. eapply brings_try.
  - apply (brings_bind _ _ (fun _ => Q)); [apply brings_update with (E := fun t => P t \/ Q t); auto|].
    intros _. by apply brings_ret.
  - intros err. unfold insert_failure. destruct (has_errno _ _); [by apply brings_ret|].
    apply (brings_bind _ _ (fun _ t => P t \/ Q t)); [apply rests_rollback_open|intros _].
    by apply brings_ret.
Qed.
End Operations.

Lemma brings_markReorgHalted (P : tables -> Prop) reason :
  (forall t, P t -> P (with_events (fun l => l ++ [HaltEvent reason]) t)) ->
  brings P (markReorgHalted reason) (fun b t => P t /\ (b = true -> live_halt t)) P.
Proof.
  intros HP. unfold markReorgHalted.
  eapply brings_bind; [apply brings_readReorgHaltState|intros live].
  destruct (halted live && _) eqn:El.
  { apply brings_ret. intros t [Ht ->]. split; [done|]. intros _. by b2p. }
  eapply brings_bind.
  { eapply brings_conseq; [apply (brings_insertEvent (P := P) _ P HP)|by intros t [? _]|
      intros r t H; exact H|by intros t [?|?]]. }
  intros r. destruct (insert_false r).
  { apply brings_ret. intros t H. split; [|done]. by destruct r; try destruct H. }
  eapply brings_try with (E' := P); [|by intros e; apply brings_ret].
  eapply brings_conseq; [apply (brings_isReorgHalted (P := P))| | |done].
  - intros t H. by destruct r; try destruct H.
  - intros b t [Ht ->]. split; [done|]. done.
Qed.

Lemma brings_persistReorgHalt (P : tables -> Prop) reason :
  (forall t, P t -> P (with_events (fun l => l ++ [HaltEvent reason]) t)) ->
  brings P (persistReorgHalt reason) (fun b t => P t /\ (b = true -> live_halt t)) P.
Proof.
  intros HP. unfold persistReorgHalt.
  assert (Ha : brings P (try_catch (markReorgHalted reason) (fun _ => mret false))
                 (fun b t => P t /\ (b = true -> live_halt t)) P).
  { eapply brings_try; [by apply brings_markReorgHalted|]. intros e. by apply brings_ret. }
  eapply brings_bind; [exact Ha|]. intros [].
  - apply brings_ret. intros t [Ht H]. split; [done|]. by auto.
  - eapply brings_conseq; [exact Ha|by intros t [? _]|done|done].
Qed.

Lemma brings_clearReorgHalt (T : tables) reason pin :
  let cleared := with_events (fun l => l ++ [HaltClearedEvent (Some (trim reason))]) T in
  brings (eq T) (clearReorgHalt reason pin)
    (fun r t => match r with
                | ClearDone true =>
                    live_halt T /\ (pin = None \/ pin = halt_id (state_of_events (events T)))
                    /\ t = cleared /\ ~ live_halt t
                | ClearDone false => t = T \/ t = cleared
                | AlreadyClear => ~ live_halt T /\ t = T
                | Superseded id => t = T /\ id = halt_id (state_of_events (events T))
                end)
    (fun t => t = T \/ t = cleared).
Proof.
  intros cleared. unfold clearReorgHalt, clearReorgHalt_among.
  destruct (_ <? _)%nat; [apply brings_throw; auto|].
  eapply brings_bind; [eapply brings_conseq; [apply brings_readReorgHaltState|done| |]|];
    [intros s t H; exact H|by intros t <-; left|].
  intros s. destruct (negb (halted s)) eqn:Eh.
  { apply brings_ret. intros t [<- ->]. split; [|done]. unfold live_halt. by destruct (halted _). }
  destruct (match halt_id s with None => _ | _ => _ end) eqn:Ep.
  { apply brings_ret. by intros t [<- ->]. }
  apply brings_pass.
  eapply brings_bind.
  { eapply brings_conseq; [apply (brings_insertEvent (P := fun t => t = T /\ s = state_of_events (events T))
      _ (fun t => t = cleared /\ s = state_of_events (events T)))|..].
    - by intros t [-> ->].
    - by intros t [<- ->].
    - intros r t H. exact H.
    - intros t [[-> _]|[-> _]]; auto. }
  intros r. destruct (negb (insert_true r)) eqn:Er.
  { apply brings_ret. intros t H. destruct r; simpl in Er; [done|..];
      destruct H as [[-> _]|[-> _]]; auto. }
  apply brings_pass.
  eapply brings_bind.
  { eapply brings_conseq; [apply (brings_readReorgHaltState (P := fun t => t = cleared /\ s = state_of_events (events T)))
      |intros t H; by destruct r|intros s' t H; exact H|intros t [-> _]; auto]. }
  intros after. apply brings_ret. intros t [[-> ->] ->].
  destruct (negb (halted (state_of_events (events cleared)))) eqn:Ea; [|by auto].
  repeat split.
  - unfold live_halt. by destruct (halted (state_of_events (events T))).
  - destruct (halt_id (state_of_events (events T))) as [id|], pin as [e|]; try done; [|by left].
    right. f_equal. b2p. done.
  - unfold live_halt. by destruct (halted (state_of_events (events cleared))).
Qed.
