(* ===== verification/Node.v ===== *)
(** * The coin node

    src/src/protocol/chain_identity.js, the two node predicates of
    src/src/XChainDecoder/payload_helpers.js, and verifyChainGenesis and
    settleNodeReading of src/src/XChainDecoder/chain_integrity.js.

    The node is outside src/: [node k] is what it would answer to the [k]-th question
    asked of it, and nothing relates one answer to the next.  The clock is asked the
    same way.  Block counts are integers. *)
From Stdlib Require Import QArith.QArith_base.
From S2P Require Import Prelude JsNum Config Collapse Db DbRows.
#[local] Open Scope Z_scope.
#[local] Open Scope update_scope.

(** ** Answers *)

Inductive hash_answer :=
  | HashThrows
  | HashNull
  | HashOther                      (* anything but a string or [null] *)
  | HashIs (hash : jstr).

Inductive header_answer :=
  | HeaderThrows (notFound : bool) (* [rpcCode === -5 || code === -5] *)
  | NoHeader                       (* not an object *)
  | Header (confirmations : option Z).  (* [None]: not an integer *)

Record chain_info := ChainInfo {
  info_blocks : option Z;                   (* [None]: not a number *)
  info_verificationprogress : option num;
  info_initialblockdownload : jsval;
  info_chain : option jstr                  (* [None]: not a string *)
}.

Inductive info_answer := InfoThrows | NoInfo | Info (info : chain_info).

Record node_view := NodeView {
  getBlockHash : Z -> hash_answer;
  getBlockHeader : option jstr -> header_answer;
  getBlockchainInfo : info_answer;
  clock : Z
}.

(** ** Identity of the endpoint *)

Definition CHAIN_TO_NETWORK : list (jstr * jstr) :=
  [(js "main", js "mainnet"); (js "test", js "testnet"); (js "testnet3", js "testnet");
   (js "testnet4", js "testnet"); (js "regtest", js "regtest"); (js "signet", js "signet")].

(** What an object literal inherits: a lookup of these names finds a value, which is no
    network. *)
Definition inherited_names : list jstr :=
  map js ["constructor"; "__defineGetter__"; "__defineSetter__"; "hasOwnProperty";
          "__lookupGetter__"; "__lookupSetter__"; "isPrototypeOf"; "propertyIsEnumerable";
          "toString"; "valueOf"; "__proto__"; "toLocaleString"]%string.

Inductive mapped := Unmapped | Network (name : jstr) | InheritedValue.

Definition mapped_network (reportedChain : jstr) : mapped :=
  match find (fun e => eqs e.1 reportedChain) CHAIN_TO_NETWORK with
  | Some e => Network e.2
  | None => if existsb (eqs reportedChain) inherited_names then InheritedValue else Unmapped
  end.

(** [true]: a mismatch is reported. *)
Definition chainTierMismatch (consensusNetwork : jstr) (reportedChain : option jstr) : bool :=
  match reportedChain with
  | None | Some [] => false
  | Some c =>
      match mapped_network c with
      | Unmapped => false
      | Network name => negb (eqs name consensusNetwork)
      | InheritedValue => true
      end
  end.

Definition chainFieldMissing (reportedChain : option jstr) : bool :=
  match reportedChain with None | Some [] => true | _ => false end.

(** The pin is hexadecimal, so ASCII case is all [toLowerCase] can equate. *)
Definition chainGenesisMismatch (pinnedHash reportedHash : option jstr) : bool :=
  match pinnedHash, reportedHash with
  | None, _ | Some [], _ | _, None | _, Some [] => false
  | Some p, Some r => negb (eqs (map lowercase p) (map lowercase r))
  end.

Definition chainGenesisUnpinned (pinnedHash : option jstr) : bool :=
  match pinnedHash with None | Some [] => true | _ => false end.

(** ** State of the node *)

Definition nodeStillCatchingUp (info : chain_info) : bool :=
  match info_initialblockdownload info with JBool true => true | _ => false end.

Definition blockchainInfoWellFormed (info : chain_info) : bool :=
  match info_blocks info, info_verificationprogress info with
  | Some _, Some _ => true
  | _, _ => false
  end.

Definition MIN_VERIFICATION_PROGRESS_TO_PARSE : num := round_binary64 (99 # 100).

Definition below_parse_threshold (info : chain_info) : bool :=
  match info_verificationprogress info with
  | Some p => num_lt p MIN_VERIFICATION_PROGRESS_TO_PARSE
  | None => false
  end.

(** ** Computations that question the node

    A computation over the database and the node, with the fields of the decoder the
    reorg verification keeps.  [OutOfFuel] is a loop cut off while it still runs. *)

(** Why the node does not prove that it reorged away from a block; the messages of
    reorged_away_proof.js, by case. *)
Inductive unproven_why := NoUsableHeader | NotKnown | NotRead | OnActiveChain | NoCount.
Inductive proof := Proven | Unproven (why : unproven_why).

Record fork_proof := ForkProof { proof_key : jstr; proof_at : Z; proof_result : proof }.

(** Why a halted walk stopped above the fork point; the messages of halted_walk.js, by
    case. *)
Inductive halt_stop :=
  | StopTipUnread
  | StopStoredUnread (height : Z)
  | StopHashUnread (height : Z)
  | StopHashesDisagree (height : Z)
  | StopNoForkPoint (storedTip lowest : Z)
  | StopNodeBehind (tip above : Z)
  | StopUnproven (height : Z) (why : unproven_why)
  | StopUndeleted (height : Z).

Record rstate := RState {
  world_of : world;
  tick : nat;                                (* questions asked so far *)
  forkProofCache : option fork_proof;
  chainGenesisCheckedAt : Z;
  reorgHalted : bool;
  reorgHaltReason : option jstr;
  reorgHaltMarkerPersisted : option bool;
  reorgHaltCheckedAt : Z;                    (* 0: never probed *)
  reorgCount : Z;
  lastReorgDepth : Z;
  blocksDeleted : list (Z * option jstr);    (* of the current verifyReorg *)
  haltError : option jstr;                   (* [walk.haltError], by its message *)
  haltStop : option halt_stop                (* [walk.haltStop] *)
}.

Inductive refusal := UnprovenFork | SameChain | Unread | NodeBehind.

Inductive rerror :=
  | Failure (e : jserror)
  | HaltError (message : jstr)                                   (* [reorgHalt] *)
  | WaitError (height : Z) (hash : option jstr) (class : refusal).  (* [reorgWait] *)

Inductive rres (A : Type) := RRet (a : A) | RThrow (e : rerror) | RBlocked | OutOfFuel.
Arguments RRet {A} a.
Arguments RThrow {A} e.
Arguments RBlocked {A}.
Arguments OutOfFuel {A}.

Definition W (A : Type) : Type := rstate -> rres A * rstate.

#[export] Instance W_ret : MRet W := fun A a s => (RRet a, s).
#[export] Instance W_bind : MBind W := fun A B k m s =>
  match m s with
  | (RRet a, s') => k a s'
  | (RThrow e, s') => (RThrow e, s')
  | (RBlocked, s') => (RBlocked, s')
  | (OutOfFuel, s') => (OutOfFuel, s')
  end.

Definition raise {A} (e : rerror) : W A := fun s => (RThrow e, s).
Definition gets {A} (f : rstate -> A) : W A := fun s => (RRet (f s), s).
Definition puts (f : rstate -> rstate) : W unit := fun s => (RRet tt, f s).
Definition out_of_fuel {A} : W A := fun s => (OutOfFuel, s).

Definition catching {A} (m : W A) (h : rerror -> W A) : W A := fun s =>
  match m s with
  | (RThrow e, s') => h e s'
  | r => r
  end.

#[export] Instance eta_rstate : Eta rstate := fun s => RState (world_of s) (tick s)
  (forkProofCache s) (chainGenesisCheckedAt s) (reorgHalted s) (reorgHaltReason s)
  (reorgHaltMarkerPersisted s) (reorgHaltCheckedAt s) (reorgCount s) (lastReorgDepth s)
  (blocksDeleted s) (haltError s) (haltStop s).

Definition with_world w (s : rstate) := s <| world_of := w |>.
Definition with_tick k (s : rstate) := s <| tick := k |>.
Definition with_cache c (s : rstate) := s <| forkProofCache := c |>.
Definition with_genesis_checked t (s : rstate) := s <| chainGenesisCheckedAt := t |>.
(** A halt, and when it was last known. *)
Definition with_halted reason now (s : rstate) :=
  s <| reorgHalted := true |> <| reorgHaltReason := reason |> <| reorgHaltCheckedAt := now |>.
Definition with_marker m (s : rstate) := s <| reorgHaltMarkerPersisted := m |>.
Definition with_reorg_stats n d (s : rstate) :=
  s <| reorgCount := n |> <| lastReorgDepth := d |>.
Definition with_deleted l (s : rstate) := s <| blocksDeleted := l |>.
Definition with_walk error stop (s : rstate) :=
  s <| haltError := error |> <| haltStop := stop |>.

(** A call on the database handle. *)
Definition db {A} (m : M A) : W A := fun s =>
  match m (world_of s) with
  | (Ret a, w) => (RRet a, with_world w s)
  | (Throw e, w) => (RThrow (Failure e), with_world w s)
  | (Blocked, w) => (RBlocked, with_world w s)
  end.

(** Two readings in a row have to agree; [None] is an unreadable one. *)
Definition TIP_SETTLE_MAX_READS : nat := 5.

Section Settle.
Context {M : Type -> Type} `{MRet M, MBind M} {A : Type} `{!EqDecision A}.

Fixpoint settle (reads : nat) (previous : A) (readOnce : M (option A)) : M (option A) :=
  match reads with
  | O => mret None
  | S n =>
      next ← readOnce;
      match (next : option A) with
      | None => mret None
      | Some x =>
          if bool_decide (x = previous) then mret (Some x) else settle n x readOnce
      end
  end.

Definition settleNodeReading (first : A) (readOnce : M (option A)) : M (option A) :=
  settle TIP_SETTLE_MAX_READS first readOnce.
End Settle.

Section Node.
Context (node : nat -> node_view).

Definition ask {A} (f : node_view -> A) : W A := fun s =>
  (RRet (f (node (tick s))), with_tick (S (tick s)) s).

(** [true]: the endpoint is proven to be another chain. *)
Definition verifyChainGenesis (chainGenesisHash : option jstr) : W bool :=
  if chainGenesisUnpinned chainGenesisHash then mret false
  else
    reported ← ask (fun v => getBlockHash v 0);
    match (reported : hash_answer) with
    | HashThrows | HashNull | HashOther | HashIs [] => mret false
    | HashIs r =>
        let mismatch := chainGenesisMismatch chainGenesisHash (Some r) in
        (if mismatch then mret tt
         else now ← ask clock; puts (with_genesis_checked now));;
        mret mismatch
    end.
End Node.
