(* ===== verification/ReorgWalk.v ===== *)
(** * The walk back to the fork point

    src/src/XChainDecoder/reorg_verification.js and its three helpers under
    reorg_verification/, with haltReorg of reorg_halt.js.

    The blocks rolled back in the run, [walk.haltError] and [walk.haltStop] are fields of
    the state, reset on entry.  The walk loops as long as the node or the database keeps
    failing, so it takes fuel: one unit per pass.  Log lines, sleeps and the wall-clock
    stamp of a raised halt (reorgHaltAt, which only the health answer shows) are left out. *)
From S2P Require Import Prelude JsNum Config Db DbRows Halt Node.
#[local] Open Scope Z_scope.

(** The fields of the decoder the reorg verification reads. *)
Record reorg_config := ReorgConfig {
  base_config : decoder_config;
  chainGenesisHash : option jstr;
  dispenserExpireSafeDepth : Z
}.

(** ** Messages *)

Definition text_or_null (s : option jstr) : jstr := default (js "null") s.

Definition RESET_RECOVERY : jstr :=
  js "`xchain-node reset xchain-decoder <chain> <network> --with-indexer --yes`".

Definition SAFE_DEPTH_HALT_RECOVERY : jstr :=
  js "Once the halt marker is durable the rollback goes on down to the fork point only where the node confirms the fork point with two agreeing readings, reports confirmations -1 for every deleted stored block, and the whole rollback fits two safe-depth windows, and the decoder parks. Recovery: "
  ++ RESET_RECOVERY
  ++ js " (a full re-decode of this decoder and its indexer). clear-reorg-halt refuses this halt whenever it left rolled-back blocks above the stored tip: it needs that range re-parsed, and a halted decoder never re-parses it.".

Definition depth_halt_message (safeDepth lastBlockIndex priorDepth deleted : Z) : jstr :=
  js "verifyReorg: reorg depth exceeds the dispenser safe-depth window (DISPENSER_EXPIRE_SAFE_DEPTH="
  ++ dec safeDepth ++ js "). Already rolled back " ++ dec (priorDepth + deleted)
  ++ js " blocks (" ++ dec deleted ++ js " in this run, resumed from " ++ dec priorDepth
  ++ js " already deleted above the tip); soft-expired dispenser rows for block height "
  ++ dec lastBlockIndex
  ++ js " and below may already have been hard-purged, so this database can no longer match a from-scratch sync. Aborting. "
  ++ SAFE_DEPTH_HALT_RECOVERY.

Definition gap_halt_message (safeDepth nodeTip : Z) (boundary_hash : jstr)
    (aboveTip alreadyRolledBack : Z) : jstr :=
  js "verifyReorg: the node reports confirmations -1 for stored block " ++ dec nodeTip
  ++ js " (" ++ boundary_hash
  ++ js "), proving the stored chain forked at or below the node tip, but the rollback above it needs more than "
  ++ dec aboveTip ++ js " block(s)"
  ++ (if 0 <? alreadyRolledBack
      then js " with " ++ dec alreadyRolledBack ++ js " block(s) already rolled back" else [])
  ++ js ", which exceeds the dispenser safe-depth window (DISPENSER_EXPIRE_SAFE_DEPTH="
  ++ dec safeDepth ++ js "). Halting before rolling back past the window. "
  ++ SAFE_DEPTH_HALT_RECOVERY.

Definition refuse_halted_message (safeDepth : Z) : jstr :=
  js "verifyReorg: decoder is HALTED from a prior over-deep reorg abort. Refusing to roll back further: a restart must not silently resume a rollback past the dispenser safe-depth window (DISPENSER_EXPIRE_SAFE_DEPTH="
  ++ dec safeDepth
  ++ js "), which would permanently lose money-bearing dispenser state. Recovery: "
  ++ RESET_RECOVERY
  ++ js " while rolled-back blocks sit above the stored tip, which a halted decoder never re-parses; `xchain-node clear-reorg-halt <chain> <network> --reason "
  ++ [34] ++ js "..." ++ [34] ++ js "` clears it only when it reads none there.".

(** ** Proof that the node reorged away from a block *)

Definition UNPROVEN_RECHECK_MS : Z := 60000.

Definition proof_of_header (a : header_answer) : proof :=
  match a with
  | HeaderThrows true => Unproven NotKnown
  | HeaderThrows false => Unproven NotRead
  | NoHeader => Unproven NoUsableHeader
  | Header (Some c) => if c =? -1 then Proven
                       else Unproven (if 0 <=? c then OnActiveChain else NoCount)
  | Header None => Unproven NoCount
  end.

Definition fork_key (nodeTip : option Z) (hash : option jstr) : jstr :=
  text_or_null (dec <$> nodeTip) ++ js ":" ++ text_or_null hash.

Definition refusal_of (why : unproven_why) : refusal :=
  match why with
  | NotKnown => UnprovenFork
  | OnActiveChain => SameChain
  | _ => Unread
  end.

Section Reorg.
Context (node : nat -> node_view) (rc : reorg_config).

Definition proveReorgedAway (hash : option jstr) : W proof :=
  a ← ask node (fun v => getBlockHeader v hash); mret (proof_of_header a).

Definition cached_proof (key : jstr) (now : Z) (cache : option fork_proof) : option proof :=
  match cache with
  | Some c => if eqs (proof_key c) key && (proof_at c <=? now)
                 && (now - proof_at c <? UNPROVEN_RECHECK_MS)
              then Some (proof_result c) else None
  | None => None
  end.

Definition proveForkReorgedAway (hash : option jstr) (nodeTip : option Z) : W proof :=
  let key := fork_key nodeTip hash in
  now ← ask node clock;
  cache ← gets forkProofCache;
  match cached_proof key now cache with
  | Some p => mret p
  | None =>
      result ← proveReorgedAway hash;
      puts (with_cache (match (result : proof) with
                        | Proven => None
                        | Unproven _ => Some (ForkProof key now result)
                        end));;
      mret result
  end.

(** ** Halts and refusals *)

Definition safeDepthFor : Z :=
  if dispenserExpireSafeDepth rc =? 0 then 126 else dispenserExpireSafeDepth rc.

Definition haltReorg (reason : jstr) : W unit :=
  now ← ask node clock;
  puts (with_halted (Some reason) now);;
  persisted ← db (persistReorgHalt reason);
  puts (with_marker (Some persisted)).

Definition refuseHaltedRollback : W bool :=
  reason ← gets reorgHaltReason;
  now ← ask node clock;
  puts (with_halted reason now);;
  raise (HaltError (refuse_halted_message safeDepthFor)).

(** The count is an integer by construction, so only a throw is a failed reading. *)
Fixpoint read_prior_depth (attempts : nat) : W (option Z) :=
  match attempts with
  | O => mret None
  | S n =>
      catching (depth ← db countReorgDeletesAboveTip; mret (Some depth))
        (fun _ => read_prior_depth n)
  end.

Definition readPriorRollbackDepth : W Z :=
  depth ← read_prior_depth 3;
  match (depth : option Z) with
  | Some d => mret d
  | None => raise (Failure (plain_error
      (js "verifyReorg: the prior rollback depth could not be read")))
  end.

Definition deletedCount : W Z := gets (fun s => Z.of_nat (length (blocksDeleted s))).

Definition raiseSafeDepthHalt (msg : jstr) : W unit :=
  haltReorg msg;;
  persisted ← gets reorgHaltMarkerPersisted;
  match (persisted : option bool) with
  | Some true =>
      stop ← gets haltStop;
      puts (with_walk (Some msg) stop)
  | _ => raise (HaltError msg)
  end.

Definition assertWithinSafeDepth (lastBlockIndex priorDepth : Z) : W unit :=
  halt ← gets haltError;
  match (halt : option jstr) with
  | Some _ => mret tt
  | None =>
      deleted ← deletedCount;
      if safeDepthFor <=? priorDepth + deleted
      then raiseSafeDepthHalt (depth_halt_message safeDepthFor lastBlockIndex priorDepth deleted)
      else mret tt
  end.

Definition requireReorgProof (block_index : Z) (block_hash : option jstr) (nodeTip : option Z)
  : W unit :=
  p ← proveForkReorgedAway block_hash nodeTip;
  match (p : proof) with
  | Proven => mret tt
  | Unproven why => raise (WaitError block_index block_hash (refusal_of why))
  end.

Definition raiseAboveTipWait {A} (block_index : Z) (block_hash : option jstr) (class : refusal)
  : W A := raise (WaitError block_index block_hash class).

Definition requireAboveTipForkProof (block_index : Z) (block_hash : option jstr) (nodeTip : Z)
  : W jstr :=
  boundary ← catching (db (getBlockByIndex nodeTip))
               (fun _ => raiseAboveTipWait block_index block_hash Unread);
  match (boundary ≫= s_hash : option jstr) with
  | None | Some [] => raiseAboveTipWait block_index block_hash Unread
  | Some boundary_hash =>
      nodeHash ← ask node (fun v => getBlockHash v nodeTip);
      match (nodeHash : hash_answer) with
      | HashThrows | HashNull | HashOther | HashIs [] =>
          raiseAboveTipWait block_index block_hash Unread
      | HashIs h =>
          if eqs boundary_hash h then raiseAboveTipWait block_index block_hash NodeBehind
          else
            requireReorgProof nodeTip (Some boundary_hash) (Some nodeTip);;
            mret boundary_hash
      end
  end.

Definition refuseOrHaltDeepGap (block_index : Z) (block_hash : option jstr) (nodeTip : Z)
    (priorDepth : Z) : W unit :=
  boundary_hash ← requireAboveTipForkProof block_index block_hash nodeTip;
  let aboveTip := block_index - nodeTip in
  deleted ← deletedCount;
  let alreadyRolledBack := priorDepth + deleted in
  let floor := alreadyRolledBack + aboveTip + 1 in
  if floor <=? safeDepthFor then mret tt
  else raiseSafeDepthHalt
         (gap_halt_message safeDepthFor nodeTip boundary_hash aboveTip alreadyRolledBack).

(** ** Deleting one block *)

Definition push_deleted (block_index : Z) (block_hash : option jstr) (s : rstate) : rstate :=
  with_deleted (blocksDeleted s ++ [(block_index, block_hash)]) s.

Definition DELETE_ATTEMPTS : Z := 10.

(** The try of both delete branches: the retry count to go on with. *)
Definition deleteOrCount (block_index : Z) (block_hash : option jstr) (retryCount : Z)
    (failure : jstr) : W Z :=
  catching
    (db (deleteBlockByIndex block_index block_hash);;
     puts (push_deleted block_index block_hash);;
     mret 0)
    (fun _ =>
       if DELETE_ATTEMPTS <=? retryCount + 1 then
         haltReorg failure;;
         raise (Failure (plain_error
           (js "verifyReorg: deleteBlockByIndex failed after 10 attempts, aborting")))
       else mret (retryCount + 1)).

Definition deleteAboveTipBlock (lastBlockIndex : Z) (lastBlock : stored_block) (nodeTip : Z)
    (priorDepth retryCount : Z) : W Z :=
  refuseOrHaltDeepGap lastBlockIndex (s_hash lastBlock) nodeTip priorDepth;;
  halt ← gets haltError;
  match (halt : option jstr) with
  | Some _ => mret retryCount
  | None =>
      requireReorgProof lastBlockIndex (s_hash lastBlock) (Some nodeTip);;
      assertWithinSafeDepth lastBlockIndex priorDepth;;
      halt' ← gets haltError;
      match (halt' : option jstr) with
      | Some _ => mret retryCount
      | None =>
          deleteOrCount lastBlockIndex (s_hash lastBlock) retryCount
            (js "verifyReorg: deleteBlockByIndex failed after 10 attempts (above-tip branch)")
      end
  end.

Definition deleteForkedBlock (lastBlockIndex : Z) (lastBlock : stored_block)
    (nodeTip : option Z) (priorDepth retryCount : Z) : W Z :=
  requireReorgProof lastBlockIndex (s_hash lastBlock) nodeTip;;
  assertWithinSafeDepth lastBlockIndex priorDepth;;
  halt ← gets haltError;
  match (halt : option jstr) with
  | Some _ => mret retryCount
  | None =>
      deleteOrCount lastBlockIndex (s_hash lastBlock) retryCount
        (js "verifyReorg: deleteBlockByIndex failed after 10 attempts (hash-compare branch)")
  end.

(** ** The node tip in mid-walk *)

Definition nodeTipStillCatchingUp (info : chain_info) : bool :=
  nodeStillCatchingUp info || below_parse_threshold info.

Definition readReorgTip (nodeTip : option Z) : W (option Z) :=
  a ← ask node getBlockchainInfo;
  match (a : info_answer) with
  | InfoThrows | NoInfo => mret nodeTip
  | Info info =>
      if negb (blockchainInfoWellFormed info) then mret nodeTip
      else if chainTierMismatch (consensusNetwork (base_config rc)) (info_chain info)
      then mret nodeTip
      else
        mismatch ← verifyChainGenesis node (chainGenesisHash rc);
        if (mismatch : bool) then mret nodeTip
        else if nodeTipStillCatchingUp info then mret nodeTip
        else mret (info_blocks info)
  end.

Definition refreshReorgTip (nodeTip : option Z) : W (option Z) :=
  tip ← readReorgTip nodeTip;
  if bool_decide (tip = nodeTip) then mret tip
  else match (tip : option Z), nodeTip with
       | Some t, Some n =>
           if n <=? t then mret tip
           else
             settled ← settleNodeReading t (readReorgTip nodeTip);
             mret (match (settled : option Z) with None => nodeTip | Some x => Some x end)
       | Some t, None =>
           settled ← settleNodeReading t (readReorgTip nodeTip);
           mret settled
       | None, _ => mret nodeTip
       end.

(** ** The halted walk *)

Definition readNodeBlockHash (height : Z) : W (option jstr) :=
  a ← ask node (fun v => getBlockHash v height);
  mret (match (a : hash_answer) with
        | HashIs (c :: h) => Some (c :: h)
        | _ => None
        end).

Fixpoint deleteHaltedBlock (attempts : nat) (block_index : Z) (block_hash : option jstr)
  : W bool :=
  match attempts with
  | O => mret false
  | S n =>
      catching
        (db (deleteBlockByIndex block_index block_hash);;
         puts (push_deleted block_index block_hash);;
         mret true)
        (fun _ => deleteHaltedBlock n block_index block_hash)
  end.

Inductive halted_reading :=
  | Stopped (stop : halt_stop)
  | ForkFound (storedTip : Z) (doomed : list (Z * jstr)) (forkPoint : Z).

Definition above_tip (height : Z) (tip : option Z) : bool :=
  match tip with Some t => t <? height | None => false end.

(** [count] heights down from [height]. *)
Fixpoint read_down (count : nat) (height storedTip lowest : Z) (tip : option Z)
    (doomed : list (Z * jstr)) : W halted_reading :=
  match count with
  | O => mret (Stopped (StopNoForkPoint storedTip lowest))
  | S n =>
      stored ← catching (db (getBlockByIndex height)) (fun _ => mret None);
      match ((stored : option stored_block) ≫= s_hash : option jstr) with
      | None => mret (Stopped (StopStoredUnread height))
      | Some hash =>
          if above_tip height tip
          then read_down n (height - 1) storedTip lowest tip (doomed ++ [(height, hash)])
          else
            first ← readNodeBlockHash height;
            match (first : option jstr) with
            | None => mret (Stopped (StopHashUnread height))
            | Some f =>
                second ← readNodeBlockHash height;
                match (second : option jstr) with
                | None => mret (Stopped (StopHashUnread height))
                | Some s =>
                    if negb (eqs f s) then mret (Stopped (StopHashesDisagree height))
                    else if eqs f hash then mret (ForkFound storedTip doomed height)
                    else read_down n (height - 1) storedTip lowest tip
                           (doomed ++ [(height, hash)])
                end
            end
      end
  end.

Definition readHaltedWalk (tip : option Z) (budget : Z) : W halted_reading :=
  t ← catching (t ← db getLastBlockIndex; mret (Some t)) (fun _ => mret None);
  match (t : option Z) with
  | None => mret (Stopped StopTipUnread)
  | Some storedTip =>
      let lowest := Z.max (startBlockIndex (base_config rc)) (storedTip - budget) in
      read_down (Z.to_nat (storedTip - lowest + 1)) storedTip storedTip lowest tip []
  end.

Fixpoint deleteProvenBlocks (doomed : list (Z * jstr)) : W (option halt_stop) :=
  match doomed with
  | [] => mret None
  | (block_index, block_hash) :: rest =>
      p ← proveReorgedAway (Some block_hash);
      match (p : proof) with
      | Unproven why => mret (Some (StopUnproven block_index why))
      | Proven =>
          gone ← deleteHaltedBlock 10 block_index (Some block_hash);
          if (gone : bool) then deleteProvenBlocks rest
          else mret (Some (StopUndeleted block_index))
      end
  end.

Definition set_stop (stop : option halt_stop) : W unit :=
  puts (fun s => with_walk (haltError s) stop s).

Definition finishHaltedWalk (nodeTip : option Z) (priorDepth : Z) : W unit :=
  set_stop None;;
  deleted ← deletedCount;
  read ← readHaltedWalk nodeTip (2 * safeDepthFor - (priorDepth + deleted));
  match (read : halted_reading) with
  | Stopped stop => set_stop (Some stop)
  | ForkFound storedTip doomed forkPoint =>
      match nodeTip with
      | Some tip =>
          if (forkPoint =? tip) && (tip <? storedTip)
          then set_stop (Some (StopNodeBehind tip (storedTip - tip)))
          else stop ← deleteProvenBlocks doomed; set_stop stop
      | None => stop ← deleteProvenBlocks doomed; set_stop stop
      end
  end.

(** ** The walk *)

(** [None]: a read failed, the pass is repeated. *)
Definition readLastStoredBlock : W (option (Z * option stored_block)) :=
  catching
    (lastBlockIndex ← db getLastBlockIndex;
     lastBlock ← db (getBlockByIndex lastBlockIndex);
     mret (Some (lastBlockIndex, lastBlock)))
    (fun _ => mret None).

Inductive walk_next := Again (nodeTip : option Z) (retryCount : Z) | Finished.

(** [lastBlock.block_hash !== blockHashFromNode] *)
Definition same_hash (stored : option jstr) (answer : hash_answer) : bool :=
  match stored, answer with
  | Some h, HashIs h' => eqs h h'
  | None, HashNull => true
  | _, _ => false
  end.

Definition checkStoredBlock (lastBlockIndex : Z) (lastBlock : stored_block)
    (nodeTip : option Z) (priorDepth retryCount : Z) : W walk_next :=
  a ← ask node (fun v => getBlockHash v lastBlockIndex);
  match (a : hash_answer) with
  | HashThrows =>
      tip ← refreshReorgTip nodeTip;
      mret (Again tip retryCount)
  | _ =>
      if same_hash (s_hash lastBlock) a then mret Finished
      else
        r ← deleteForkedBlock lastBlockIndex lastBlock nodeTip priorDepth retryCount;
        mret (Again nodeTip r)
  end.

(** One pass of [while (thereAreDifferences)]. *)
Definition walk_pass (nodeTip : option Z) (priorDepth retryCount : Z) : W walk_next :=
  halt ← gets haltError;
  match (halt : option jstr) with
  | Some _ => finishHaltedWalk nodeTip priorDepth;; mret Finished
  | None =>
      stored ← readLastStoredBlock;
      match (stored : option (Z * option stored_block)) with
      | None => mret (Again nodeTip retryCount)
      | Some (_, None) => mret Finished
      | Some (lastBlockIndex, Some lastBlock) =>
          if lastBlockIndex <? startBlockIndex (base_config rc) then mret Finished
          else match nodeTip with
               | Some tip =>
                   if tip <? lastBlockIndex then
                     r ← deleteAboveTipBlock lastBlockIndex lastBlock tip priorDepth retryCount;
                     mret (Again nodeTip r)
                   else checkStoredBlock lastBlockIndex lastBlock nodeTip priorDepth retryCount
               | None =>
                   checkStoredBlock lastBlockIndex lastBlock nodeTip priorDepth retryCount
               end
      end
  end.

Fixpoint walkReorg (fuel : nat) (nodeTip : option Z) (priorDepth retryCount : Z) : W unit :=
  match fuel with
  | O => out_of_fuel
  | S n =>
      next ← walk_pass nodeTip priorDepth retryCount;
      match (next : walk_next) with
      | Again tip r => walkReorg n tip priorDepth r
      | Finished => mret tt
      end
  end.

Definition finishReorgRun : W unit :=
  halt ← gets haltError;
  match (halt : option jstr) with
  | Some msg => raise (HaltError msg)
  | None =>
      deleted ← deletedCount;
      if 0 <? deleted
      then puts (fun s => with_reorg_stats (reorgCount s + 1) deleted s)
      else mret tt
  end.

Definition verifyReorg (fuel : nat) (nodeTip : option Z) : W bool :=
  puts (fun s => with_walk None None (with_deleted [] s));;
  live ← db isReorgHalted;
  if (live : bool) then refuseHaltedRollback
  else
    priorDepth ← readPriorRollbackDepth;
    walkReorg fuel nodeTip priorDepth 0;;
    finishReorgRun;;
    mret true.
End Reorg.
