(* ===== verification/Identity.v ===== *)
(** * The identity of a decoder

    src/src/chain/crypto_networks.js, src/src/protocol/fee_destination.js, the constructor
    of src/src/chain/XChainBlockDecoder.js, initializeDecoderIdentity of
    src/src/XChainDecoder.js, and the reads of the environment in src/src/api.js that choose
    them: how a network key and the coin registry become the fields the rest of the
    development takes as given.

    On mainnet and testnet every field of a decoder that decides how bytes are read, where
    the history begins and which outputs are captured is a field of the hashed subset. *)
From S2P Require Import Prelude JsNum Json CoinData Coins CoinsFacts BlockDecoder Config.
From S2P Require Import Dispensers BlockStore ReorgWalk.
#[local] Open Scope Z_scope.
#[local] Open Scope coin_scope.

Definition dash : Z := 45.

(** [s.slice(0, s.lastIndexOf('-'))] and what follows that dash. *)
Definition split_last_dash (s : jstr) : option (jstr * jstr) :=
  let suffix := network_suffix s in
  if existsb (Z.eqb dash) s then Some (take (length s - length suffix - 1) s, suffix) else None.

(** ** Networks *)

Section Networks.
Variable files : list (jstr * plain).
Variable h : host.

(** The key is [process.env.NETWORK], which may be absent. *)
Definition parseNetworkName (networkName : option jstr) : option (jstr * jstr) :=
  '(name, net) ← split_last_dash (default (js "undefined") networkName);
  let tick := own (FULL_NAME_TO_TICK files) name in
  if truthy tick && existsb (eqs net) NETWORKS then Some (key_of tick, net) else None.

Definition with_network {A} (networkName : option jstr) (k : jstr * jstr -> Res A) : Res A :=
  match parseNetworkName networkName with Some p => k p | None => inl TypeError end.

Definition getBitcoinJsNetwork (networkName : option jstr) : Res (option plain) :=
  with_network networkName (fun p => cfg ← getCoinConfig files h p.1 p.2; (Some cfg).["net"]).

Definition getCoinTick (networkName : option jstr) : Res jstr :=
  with_network networkName (fun p => inr p.1).

Definition or_null (v : option plain) : option plain := if truthy v then v else Some PNull.

Definition getChainGenesisHash (networkName : option jstr) : Res (option plain) :=
  with_network networkName (fun p =>
    cfg ← getCoinConfig files h p.1 p.2; v ← (Some cfg).["chainGenesisHash"]; inr (or_null v)).

Definition getFirstBlock (networkName : option jstr) : Res (option plain) :=
  match parseNetworkName networkName with
  | Some p => cfg ← getCoinConfig files h p.1 p.2; (Some cfg).["firstBlock"]
  | None => inr (Some (PInt 0))
  end.

Definition getExpirationFeeDefaultDays (networkName : option jstr) : Res (option plain) :=
  with_network networkName (fun p =>
    cfg ← getCoinConfig files h p.1 p.2;
    fees ← (Some cfg).["legacyFees"]; fees.["EXPIRATION_FEE_DEFAULT_DAYS"]).

(** ** The fee destination *)

(** The two groups of [/^([a-z]+)-(mainnet|testnet|regtest)$/]. *)
Definition fee_network (networkName : jstr) : option (jstr * jstr) :=
  let coin := before dash networkName in
  match from_char dash networkName with
  | _ :: net =>
      if negb (is_empty coin) && forallb (fun c => (97 <=? c) && (c <=? 122)) coin
         && existsb (eqs net) NETWORKS
      then Some (coin, net) else None
  | [] => None
  end.

(** The registry's value; whatever it throws is caught. *)
Definition registry_fee (m : jstr * jstr) : option plain :=
  let read :=
    coin ← getCoinConfigByFullName files h m.1 m.2;
    addresses ← (Some coin).["addresses"]; addresses.["FEE_DESTINATION"] in
  match read with inr v => if truthy v then v else None | inl _ => None end.

(** [envOverride] is the bare FEE_DESTINATION of the environment; [None] is null. *)
Definition resolveFeeDestination (networkName : option jstr) (envOverride : option jstr) : option plain :=
  let m := fee_network (default [] networkName) in
  let pinned := m ≫= registry_fee in
  match envOverride with
  | Some (c :: s) =>
      match m, pinned with Some _, Some p => Some p | _, _ => Some (PStr (c :: s)) end
  | _ => pinned
  end.

(** ** The block decoder *)

Definition wire_format_of (text : option plain) : option wire_format :=
  if is_text text (js "default") then Some WireDefault
  else if is_text text (js "mweb") then Some WireMweb
  else if is_text text (js "auxpow") then Some WireAuxpow
  else None.

Definition declared_wire_format (coin : jstr) : option plain :=
  let tick := own (FULL_NAME_TO_TICK files) coin in
  if truthy tick then mjoin (lookup_key (key_of tick) (WIRE_FORMAT files)) else None.

(** The constructor; [networkName.split] of undefined throws. *)
Definition newBlockDecoder (networkName : option jstr) : Res wire_format :=
  match networkName with
  | None => inl TypeError
  | Some name =>
      let coin := before dash name in
      match wire_format_of (declared_wire_format coin) with
      | Some w => inr w
      | None => inl (NoWireFormat coin name)
      end
  end.

(** ** The decoder *)

Record identity := NewIdentity {
  id_network : option plain;
  id_coinTick : jstr;
  id_consensusNetwork : jstr;
  id_dispenserExpireSafeDepth : Z;
  id_feeDestination : option plain;
  id_startBlockIndex : option plain;
  id_chainGenesisHash : option plain;
  id_expirationFeeDefaultDays : option plain;
  id_wireFormat : wire_format
}.

Definition fee_field (feeDestination : option plain) : option plain :=
  match feeDestination with
  | Some (PStr a) => PStr <$> configured_fee_destination (Some a)
  | _ => if truthy feeDestination then feeDestination else None
  end.

Definition initializeDecoderIdentity (network : option jstr) (feeDestination : option plain) : Res identity :=
  net ← getBitcoinJsNetwork network;
  coinTick ← getCoinTick network;
  let consensusNetwork := network_suffix (default (js "undefined") network) in
  let depth := resolveDispenserExpireSafeDepth coinTick consensusNetwork in
  startBlockIndex ← getFirstBlock network;
  chainGenesisHash ← getChainGenesisHash network;
  days ← getExpirationFeeDefaultDays network;
  wireFormat ← newBlockDecoder network;
  inr (NewIdentity net coinTick consensusNetwork depth (fee_field feeDestination) startBlockIndex
         chainGenesisHash days wireFormat).

(** [config.X || null] *)
Definition env_or_null (name : String.string) : option jstr :=
  match env h (js name) with Some [] | None => None | v => v end.

Definition FEE_DESTINATION : option plain :=
  resolveFeeDestination (env h (js "NETWORK")) (env_or_null "FEE_DESTINATION").

(** The decoder startApi constructs. *)
Definition api_decoder : Res identity := initializeDecoderIdentity (env h (js "NETWORK")) FEE_DESTINATION.
End Networks.

(** [verifyBundledConsensusPin], the first step of [start()]. *)
Definition verifyBundledConsensusPin (files : list (jstr * plain)) (pins : option plain) (d : identity) :
    Res pin_check :=
  verifyConsensusPin files pins (id_consensusNetwork d).

(** ** The identity as the other components take it *)

Definition as_int (v : option plain) : option Z := match v with Some (PInt z) => Some z | _ => None end.
Definition as_text (v : option plain) : option jstr := match v with Some (PStr s) => Some s | _ => None end.

Definition supports_segwit (network : option plain) : option bool :=
  match network with
  | Some (PObj fs) => match own fs (js "supportsSegwit") with Some (PBool b) => Some b | _ => None end
  | _ => None
  end.

(** [None]: a field has another type than the decoder's methods expect. *)
Definition config_of_identity (d : identity) : option (reorg_config * wire_format) :=
  start ← as_int (id_startBlockIndex d);
  days ← as_int (id_expirationFeeDefaultDays d);
  Some (ReorgConfig
          (DecoderConfig (id_consensusNetwork d) (id_coinTick d) (as_text (id_feeDestination d)) days start
             (supports_segwit (id_network d)))
          (as_text (id_chainGenesisHash d)) (id_dispenserExpireSafeDepth d), id_wireFormat d).

(** "<fullname>-<network>" *)
Definition network_key (tick network : jstr) : jstr :=
  key_of (own match own COIN_FILES tick with Some (PObj fs) => fs | _ => [] end (js "fullName"))
  ++ js "-" ++ network.

Definition pinned_field (tick network : jstr) (k : String.string) : option plain :=
  mjoin (lookup_key (js k) (subset_of COIN_FILES tick network)).

Definition member_of (v : option plain) (k : String.string) : option plain :=
  match v with Some (PObj fs) => own fs (js k) | _ => None end.

(** The identity a registry and a key determine, and the fee destination apart. *)
Lemma identity_frozen files h h' key fee :
  (forall p, parseNetworkName files key = Some p -> p.2 <> REGTEST) ->
  initializeDecoderIdentity files h key fee = initializeDecoderIdentity files h' key fee.
Proof.
  intros Hp. unfold initializeDecoderIdentity, getBitcoinJsNetwork, getFirstBlock, getChainGenesisHash,
    getExpirationFeeDefaultDays, getCoinTick, with_network.
  destruct (parseNetworkName files key) as [[tick net]|] eqn:E; [|done]. cbn [fst snd].
  rewrite (getCoinConfig_frozen files h h') by exact (Hp _ eq_refl). done.
Qed.

Lemma registry_fee_frozen files h h' m :
  m.2 <> REGTEST -> registry_fee files h m = registry_fee files h' m.
Proof.
  intros Hn. unfold registry_fee, getCoinConfigByFullName. destruct (truthy _); [|done].
  by rewrite (getCoinConfig_frozen files h h').
Qed.

Definition bare : host := Host (fun _ => None) (fun _ => Missing).

Lemma fee_bundled files h key override m p :
  fee_network key = Some m -> m.2 <> REGTEST -> registry_fee files bare m = Some p ->
  resolveFeeDestination files h (Some key) override = Some p.
Proof.
  intros Hm Hn Hp. unfold resolveFeeDestination. change (default [] (Some key)) with key.
  rewrite Hm. cbn [mbind option_bind].
  rewrite (registry_fee_frozen files h bare), Hp by done. by destruct override as [[|? ?]|].
Qed.

(** C22: What a decoder reads blocks with comes from the consensus subset a pin hashes: on
    mainnet and testnet, for every coin of the registry and whatever else the environment
    holds (a bare FEE_DESTINATION, the registry's override, the genesis and full-node
    variables, a sidecar file), startApi constructs a decoder whose network object, start
    height, default expiration window, wire format and fee destination are the fields of
    that subset, under the coin's own ticker, and of the types the other components take.
    On testnet, whose pins are set, the check of its boot runs and passes; on mainnet, whose
    pin is null, the check is skipped and nothing is verified. *)
Theorem decoder_reads_pinned_config h tick network :
  tick ∈ ALLOWED_COINS COIN_FILES ->
  network = js "mainnet" \/ network = js "testnet" ->
  env h (js "NETWORK") = Some (network_key tick network) ->
  exists d, api_decoder COIN_FILES h = inr d
  /\ id_coinTick d = tick /\ id_consensusNetwork d = network
  /\ id_network d = pinned_field tick network "net"
  /\ id_startBlockIndex d = pinned_field tick network "firstBlock"
  /\ id_expirationFeeDefaultDays d
     = member_of (pinned_field tick network "legacyFees") "EXPIRATION_FEE_DEFAULT_DAYS"
  /\ wire_format_of (pinned_field tick network "wireFormat") = Some (id_wireFormat d)
  /\ id_feeDestination d = member_of (pinned_field tick network "addresses") "FEE_DESTINATION"
  /\ verifyBundledConsensusPin COIN_FILES (Some CONSENSUS_CONFIG_PIN) d
     = inr (PinCheck true (eqs network (js "mainnet")))
  /\ is_Some (config_of_identity d).
Proof.
  intros Ht Hnet Henv. unfold api_decoder, FEE_DESTINATION. rewrite Henv.
  unfold ALLOWED_COINS, COIN_FILES in Ht. cbn [map fst] in Ht. rewrite !elem_of_cons, elem_of_nil in Ht.
  destruct Hnet as [-> | ->], Ht as [-> | [-> | [-> | []]]];
    (erewrite fee_bundled; [|by vm_compute|by apply eqs_false|by vm_compute]);
    (rewrite (identity_frozen _ h bare); [|intros p Hp; vm_compute in Hp; by injection Hp as <-]);
    eexists; (split; [vm_compute; reflexivity|]); split_and!; (by vm_compute) || (vm_compute; by eexists).
Qed.

Lemma decoder_reads_pinned_config_witness :
  let h := Host (fun k => if eqs k (js "NETWORK") then Some (js "litecoin-testnet")
                          else Some (js "mfeesX6rLE6V3WPg9tsbL2fHNS7E4rDAim"))
             (fun _ => Unreadable) in
  exists d, api_decoder COIN_FILES h = inr d
  /\ id_startBlockIndex d = Some (PInt 4862500) /\ id_wireFormat d = WireMweb.
Proof.
  intros h.
  destruct (decoder_reads_pinned_config h (js "LTC") (js "testnet")) as (d & Hd & _ & _ & _ & Hs & _ & Hw & _).
  - apply (bool_decide_unpack _). by vm_compute.
  - by right.
  - by vm_compute.
  - exists d. split; [exact Hd|]. split; [rewrite Hs; by vm_compute|].
    change (wire_format_of (pinned_field (js "LTC") (js "testnet") "wireFormat")) with (Some WireMweb) in Hw.
    by injection Hw.
Defined.
