(* ===== verification/ReorgSpec.v ===== *)
(** * What a reorg may do

    An abstract specification of a rollback, [rollback]: a sequence of deletions, each of
    a block that is the highest one left, for which the node answered confirmations -1,
    with halt rows in between; a Hoare logic for computations over the database and the
    node; and the invariant the walk keeps. *)
From S2P Require Import Prelude JsNum Config Db DbRows Atomic Idle Dispensers DispenserReorg.
From S2P Require Import Halt Node ReorgWalk.
#[local] Open Scope Z_scope.

(** ** Hoare logic

    [triple P m F E]: from a state in [P], [m] never waits on the lock, returns [a] in
    [F a], and throws or runs out of fuel in [E]. *)
Definition triple {A} (P : rstate -> Prop) (m : W A) (F : A -> rstate -> Prop)
    (E : rstate -> Prop) : Prop :=
  forall s, P s ->
    match m s with
    | (RRet a, s') => F a s'
    | (RThrow _, s') | (OutOfFuel, s') => E s'
    | (RBlocked, _) => False
    end.

Section Rules.
Context {P : rstate -> Prop}.

Lemma triple_ret {A} (a : A) (F : A -> rstate -> Prop) E :
  (forall s, P s -> F a s) -> triple P (mret a) F E.
Proof. intros H s. apply H. Qed.

Lemma triple_raise {A} e (F : A -> rstate -> Prop) (E : rstate -> Prop) :
  (forall s, P s -> E s) -> triple P (raise e) F E.
Proof. intros H s. apply H. Qed.

Lemma triple_conseq {A} (m : W A) (P' : rstate -> Prop) F F' (E E' : rstate -> Prop) :
  triple P' m F' E' -> (forall s, P s -> P' s) -> (forall a s, F' a s -> F a s) ->
  (forall s, E' s -> E s) -> triple P m F E.
Proof.
  intros Hm H1 H2 H3 s Hs. specialize (Hm s (H1 s Hs)).
  destruct (m s) as [[a|e| |] s']; auto.
Qed.

Lemma triple_bind {A B} (m : W A) (k : A -> W B) K F E :
  triple P m K E -> (forall a, triple (K a) (k a) F E) -> triple P (m ≫= k) F E.
Proof.
  intros Hm Hk s Hs. specialize (Hm s Hs). unfold mbind, W_bind.
  destruct (m s) as [[a|e| |] s']; [by apply Hk|done..].
Qed.

Lemma triple_catching {A} (m : W A) h F E E' :
  triple P m F E' -> (forall s, E' s -> E s) -> (forall e, triple E' (h e) F E) ->
  triple P (catching m h) F E.
Proof.
  intros Hm He Hh s Hs. specialize (Hm s Hs). unfold catching.
  destruct (m s) as [[a|e| |] s']; [done|by apply Hh|done|by apply He].
Qed.

Lemma triple_gets {A} (f : rstate -> A) E : triple P (gets f) (fun a s => P s /\ a = f s) E.
Proof. by intros s Hs. Qed.

Lemma triple_puts f (Q : rstate -> Prop) E :
  (forall s, P s -> Q (f s)) -> triple P (puts f) (fun _ => Q) E.
Proof. intros H s. apply H. Qed.
End Rules.

(** ** The abstract rollback *)

Section Rollback.
Context (node : nat -> node_view) (startIndex : Z) (T0 : tables).

(** The node was heard to have reorged away from the block of this hash. *)
Definition proved (hash : option jstr) : Prop :=
  exists k, getBlockHeader (node k) hash = Header (Some (-1)).

Definition stored (b : Z) (hash : option jstr) : Prop :=
  exists x, block_by_index b T0 = Some x /\ s_hash x = hash.

Definition bounded (c : Z) (t : tables) : Prop := Forall (fun x => b_index x <= c) (blocks t).

Inductive rollback : tables -> Prop :=
  | rollback_start : rollback T0
  | rollback_delete t b hash :
      rollback t -> startIndex <= b -> stored b hash -> proved hash -> bounded b t ->
      rollback (delete_block_tables b hash t)
  | rollback_halt t reason :
      rollback t -> rollback (with_events (fun l => l ++ [HaltEvent reason]) t).

Lemma deleted_blocks b hash t :
  blocks (delete_block_tables b hash t)
  = List.filter (fun x => negb (b_index x =? b)) (blocks t).
Proof. by destruct hash. Qed.

Lemma deleted_hashes b hash t :
  index_transactions (delete_block_tables b hash t) = index_transactions t.
Proof. by destruct hash. Qed.

Lemma deleted_events b hash t :
  events (delete_block_tables b hash t)
  = events t ++ match hash with Some h => [ReorgEvent b h] | None => [] end.
Proof. destruct hash; simpl; [done|by rewrite app_nil_r]. Qed.

Lemma rollback_hashes t : rollback t -> index_transactions t = index_transactions T0.
Proof. induction 1; [done| |done]. by rewrite deleted_hashes. Qed.

Lemma bounded_delete b hash t : bounded b t -> bounded (b - 1) (delete_block_tables b hash t).
Proof.
  unfold bounded. rewrite deleted_blocks. intros H. apply Forall_forall. intros x Hx.
  apply list_elem_of_In, filter_In in Hx as [Hx Hb]. rewrite Forall_forall in H.
  specialize (H x (proj2 (list_elem_of_In _ _) Hx)). b2p. lia.
Qed.

Lemma find_filter {A} (f g : A -> bool) l x :
  find f (List.filter g l) = Some x -> (forall y, f y = true -> g y = true) ->
  find f l = Some x.
Proof.
  intros H Hg. induction l as [|y l IH]; simpl in *; [done|].
  destruct (f y) eqn:Hf; [rewrite (Hg y Hf) in H; simpl in H; by rewrite Hf in H|].
  destruct (g y); simpl in H; [rewrite Hf in H|]; auto.
Qed.

(** What a later read finds is what was stored when the rollback started. *)
Lemma rollback_stored t b x : rollback t -> block_by_index b t = Some x -> block_by_index b T0 = Some x.
Proof.
  intros Hr. revert b x. induction Hr as [|t d hash Hr IH Hs Hst Hp Hb|t r Hr IH]; [done| |done].
  intros b x H. apply IH. unfold block_by_index in *. rewrite deleted_blocks, deleted_hashes in H.
  destruct (find _ (List.filter _ _)) as [y|] eqn:E; [|done].
  destruct (decide (b = d)) as [->|Hne].
  - apply find_some in E as [Hin He]. apply filter_In in Hin as [_ Hn]. b2p. lia.
  - erewrite find_filter; [exact H|exact E|]. simpl. intros z Hz. b2p. subst.
    apply negb_true_iff, Z.eqb_neq. congruence.
Qed.

(** What a rollback leaves: the blocks below some height, every block at or above it
    proved off the node's chain, and the events that were there, with new ones. *)
Definition top_removed (t : tables) : Prop :=
  exists c, blocks t = List.filter (fun x => b_index x <? c) (blocks T0)
            /\ (forall b hash, c <= b -> stored b hash -> startIndex <= b /\ proved hash).

Lemma bounded_exists l : exists c, Forall (fun x => b_index x < c) l.
Proof.
  induction l as [|x l (c & IH)]; [exists 0; constructor|].
  exists (Z.max c (b_index x + 1)). constructor; [lia|].
  eapply Forall_impl; [exact IH|]. simpl. lia.
Qed.

Lemma stored_in b hash :
  stored b hash -> exists x, x ∈ blocks T0 /\ b_index x = b.
Proof.
  intros (x & H & _). unfold block_by_index in H. destruct (find _ _) as [y|] eqn:E; [|done].
  apply find_some in E as [Hin He]. b2p. exists y. by rewrite list_elem_of_In.
Qed.

(** Removing the highest row moves the cut down. *)
Lemma delete_top_filter l c b t :
  bounded b t -> blocks t = List.filter (fun x => b_index x <? c) l ->
  List.filter (fun x => negb (b_index x =? b)) (blocks t)
  = List.filter (fun x => b_index x <? Z.min c b) l.
Proof.
  unfold bounded. intros Hb E. rewrite E in *. clear E.
  induction l as [|x l IH]; simpl in *; [done|].
  destruct (b_index x <? c) eqn:E; simpl.
  - apply Forall_cons in Hb as [Hx Hb]. rewrite IH by done.
    destruct (b_index x =? b) eqn:Eb; simpl; b2p.
    + by destruct (b_index x <? Z.min c b) eqn:?; b2p; [lia|].
    + by destruct (b_index x <? Z.min c b) eqn:?; b2p; [|lia].
  - rewrite IH by done. by destruct (b_index x <? Z.min c b) eqn:?; b2p; [lia|].
Qed.

Lemma stored_below c b b' t hash :
  bounded b t -> blocks t = List.filter (fun x => b_index x <? c) (blocks T0) ->
  stored b' hash -> b' < c -> b' <= b.
Proof.
  unfold bounded. intros Hb E (x & Hx & <-)%stored_in Hlt. rewrite E, Forall_forall in Hb.
  apply Hb, list_elem_of_In, filter_In. split; [by apply list_elem_of_In|]. by apply Z.ltb_lt.
Qed.

Lemma all_below : exists c, blocks T0 = List.filter (fun x => b_index x <? c) (blocks T0)
  /\ forall b hash, c <= b -> ~ stored b hash.
Proof.
  destruct (bounded_exists (blocks T0)) as (c & Hc). exists c. split.
  - symmetry. apply filter_all. eapply Forall_impl; [exact Hc|]. intros x Hx. by apply Z.ltb_lt.
  - intros b hash Hle (x & Hx & He)%stored_in. rewrite Forall_forall in Hc.
    specialize (Hc x Hx). lia.
Qed.

Lemma stored_functional b hash hash' : stored b hash -> stored b hash' -> hash = hash'.
Proof. intros (x & Hx & <-) (x' & Hx' & <-). congruence. Qed.

Lemma rollback_top t : rollback t -> top_removed t.
Proof.
  induction 1 as [|t b hash Hr (c & IH & Hc) Hs Hst Hp Hb|t r Hr IH]; [|clear Hr|exact IH].
  - destruct all_below as (c & Hc & Hn). exists c. split; [done|]. intros b hash Hle Hst.
    by destruct (Hn b hash Hle).
  - exists (Z.min c b). rewrite deleted_blocks. split; [by apply delete_top_filter|].
    intros b' hash' Hle Hst'. destruct (decide (c <= b')) as [Hcb|Hcb]; [by eapply Hc|].
    assert (b' <= b) by (eapply stored_below; [done..|lia]).
    assert (b' = b) as -> by lia. by rewrite (stored_functional _ _ _ Hst' Hst).
Qed.

(** ** The depth a restart reads back *)

Lemma reorg_heights_snoc l e :
  reorg_heights (l ++ [e])
  = match e with ReorgEvent h _ => h :: reorg_heights l | _ => reorg_heights l end.
Proof. unfold reorg_heights. rewrite rev_unit. by destruct e. Qed.

(** The marked heights are those marked before and those of the blocks removed. *)
Lemma rollback_marks t :
  (forall b hash, stored b hash -> hash <> None) -> rollback t ->
  exists c, blocks t = List.filter (fun x => b_index x <? c) (blocks T0)
    /\ forall h, h ∈ reorg_heights (events t)
       <-> h ∈ reorg_heights (events T0) \/ (c <= h /\ exists hash, stored h hash).
Proof.
  intros Hh. induction 1 as [|t b hash Hr (c & IH & Hm) Hs Hst Hp Hb|t r Hr (c & IH & Hm)].
  - destruct all_below as (c & Hc & Hn). exists c. split; [done|]. intros h.
    split; [by left|]. intros [H|(H & hash & Hst)]; [done|]. by destruct (Hn _ _ H Hst).
  - exists (Z.min c b). rewrite deleted_blocks. split; [by apply delete_top_filter|].
    intros h. destruct hash as [k|]; [|by destruct (Hh _ _ Hst)].
    rewrite deleted_events, reorg_heights_snoc, elem_of_cons, Hm. split.
    + intros [->|[H|[H1 H2]]]; [right; split; [lia|by eexists]|by left|].
      right. split; [lia|done].
    + intros [H|(H & hash & Hst')]; [by auto|].
      destruct (decide (c <= h)); [by right; right; split; [|exists hash]|]. left.
      assert (h <= b) by (eapply stored_below; [done..|lia]). lia.
  - exists c. split; [done|]. intros h. cbn [with_events events]. by rewrite reorg_heights_snoc.
Qed.
End Rollback.

(** ** Assertions on the state of a walk

    An assertion is about the tables the handle is idle on, [walk.haltError], the number
    of blocks recorded as deleted in the run, and whether the halt marker is known to be
    durable; every assertion says that no proof is cached. *)
Record ghost := Ghost { g_halt : option jstr; g_count : Z; g_marker : option bool }.

Definition deleted_count (s : rstate) : Z := Z.of_nat (length (blocksDeleted s)).

Definition ghost_of (s : rstate) : ghost :=
  Ghost (haltError s) (deleted_count s) (reorgHaltMarkerPersisted s).

Definition no_cached_proof (s : rstate) : Prop :=
  match forkProofCache s with Some c => proof_result c <> Proven | None => True end.

Definition On (Q : ghost -> tables -> Prop) (s : rstate) : Prop :=
  idle_in (Q (ghost_of s)) (world_of s) /\ no_cached_proof s.

Lemma On_impl (Q Q' : ghost -> tables -> Prop) s :
  On Q s -> (forall g t, Q g t -> Q' g t) -> On Q' s.
Proof. intros [Hi Hc] H. split; [|done]. eapply idle_in_impl; [exact Hi|auto]. Qed.

Lemma triple_pure {A} (phi : Prop) Q (m : W A) F E :
  (phi -> triple (On Q) m F E) -> triple (On (fun g t => Q g t /\ phi)) m F E.
Proof.
  intros H s [(t & [Ht Hp] & Hi) Hc]. apply (H Hp s). split; [by exists t|done].
Qed.

Lemma triple_db {A} (m : M A) (Q : ghost -> tables -> Prop) F (E : ghost -> tables -> Prop) :
  (forall g, brings (Q g) m (F g) (E g)) ->
  triple (On Q) (db m) (fun a => On (fun g => F g a)) (On E).
Proof.
  intros H s [Hi Hc]. specialize (H _ _ Hi). unfold db.
  destruct (m (world_of s)) as [[a|e|] w]; by try split.
Qed.

Lemma triple_haltError Q E :
  triple (On Q) (gets haltError) (fun h => On (fun g t => Q g t /\ g_halt g = h)) E.
Proof. intros s [Hi Hc]. split; [|done]. by eapply idle_in_impl. Qed.

Lemma triple_deletedCount Q E :
  triple (On Q) deletedCount (fun n => On (fun g t => Q g t /\ g_count g = n)) E.
Proof. intros s [Hi Hc]. split; [|done]. by eapply idle_in_impl. Qed.

Section Walk.
Context (node : nat -> node_view) (rc : reorg_config) (T0 : tables).

Abbreviation proved := (proved node).
Abbreviation stored := (stored T0).
Abbreviation start := (startBlockIndex (base_config rc)).
Abbreviation rollback := (rollback node start T0).
Abbreviation safeDepth := (safeDepthFor rc).

Lemma triple_ask {A} (f : node_view -> A) Q E :
  triple (On Q) (ask node f) (fun a => On (fun g t => Q g t /\ exists k, a = f (node k))) E.
Proof.
  intros s [Hi Hc]. split; [|done]. eapply idle_in_impl; [exact Hi|].
  intros t Ht. split; [exact Ht|by exists (tick s)].
Qed.

Lemma triple_proveReorgedAway hash Q E :
  triple (On Q) (proveReorgedAway node hash)
    (fun p => On (fun g t => Q g t /\ (p = Proven -> proved hash))) E.
Proof.
  eapply triple_bind; [apply triple_ask|]. intros a. apply triple_ret. intros s Hs.
  eapply On_impl; [exact Hs|]. intros g t [Ht (k & ->)]. split; [exact Ht|].
  intros Hp. exists k. destruct (getBlockHeader (node k) hash) as [[]| |[c|]] eqn:E1;
    simpl in Hp; try done. by destruct (Z.eqb_spec c (-1)) as [->|]; [|case_match].
Qed.

Lemma triple_proveForkReorgedAway hash nodeTip Q E :
  triple (On Q) (proveForkReorgedAway node hash nodeTip)
    (fun p => On (fun g t => Q g t /\ (p = Proven -> proved hash))) E.
Proof.
  eapply triple_bind; [apply triple_ask|]. intros now. apply triple_pure. intros _.
  eapply (triple_bind _ _ (fun cache s => On Q s /\ cache = forkProofCache s)).
  { intros s Hs. by split. }
  intros cache. destruct (cached_proof _ now cache) as [p|] eqn:Ec.
  - apply triple_ret. intros s [Hs ->]. eapply On_impl; [exact Hs|]. intros g t Ht.
    split; [exact Ht|]. intros ->. exfalso. destruct Hs as [_ Hc]. unfold no_cached_proof in Hc.
    unfold cached_proof in Ec. destruct (forkProofCache s) as [c|]; [|done].
    destruct (_ && _); [|done]. by injection Ec.
  - eapply triple_bind; [|intros p].
    { eapply triple_conseq; [apply triple_proveReorgedAway with (E := E)|by intros s [Hs _]| |done].
      intros p s Hs. exact Hs. }
    eapply triple_bind with (K := fun _ => On (fun g t => Q g t /\ (p = Proven -> proved hash)));
      [|intros []; by apply triple_ret].
    apply triple_puts. intros s [Hi Hc]. split; [exact Hi|]. by destruct p.
Qed.

Lemma triple_requireReorgProof b hash nodeTip Q (E : rstate -> Prop) :
  (forall s, On Q s -> E s) ->
  triple (On Q) (requireReorgProof node b hash nodeTip)
    (fun _ => On (fun g t => Q g t /\ proved hash)) E.
Proof.
  intros HE. eapply triple_bind; [apply triple_proveForkReorgedAway|]. intros [|why].
  - apply triple_ret. intros s Hs. eapply On_impl; [exact Hs|]. intros g t [Ht Hp]. by auto.
  - apply triple_raise. intros s Hs. apply HE. eapply On_impl; [exact Hs|]. by intros g t [Ht _].
Qed.

(** ** The invariant *)

Definition depth_above (t : tables) : Z :=
  Z.of_nat (size (heights_above (max_of (map b_index (blocks t))) MARKER_SCAN_LIMIT (events t))).

Abbreviation prior := (depth_above T0).

Definition under_ceiling (n : Z) (t : tables) : Prop :=
  n = 0 \/ prior + n <= safeDepth \/ (live_halt t /\ prior + n <= 2 * safeDepth).

Definition tables_inv (c : Z) (g : ghost) (t : tables) : Prop :=
  rollback t /\ bounded c t /\ (is_Some (g_halt g) -> live_halt t)
  /\ under_ceiling (g_count g) t.

Definition Inv (c : Z) (R : option jstr -> Z -> tables -> Prop) : rstate -> Prop :=
  On (fun g t => tables_inv c g t /\ R (g_halt g) (g_count g) t).

Definition any (_ : option jstr) (_ : Z) (_ : tables) : Prop := True.

Definition Safe (s : rstate) : Prop := exists c, Inv c any s.

Lemma Inv_impl c (R R' : option jstr -> Z -> tables -> Prop) s :
  Inv c R s -> (forall h n t, tables_inv c (Ghost h n (g_marker (ghost_of s))) t -> R h n t -> R' h n t) ->
  Inv c R' s.
Proof.
  intros [(t & [Ht HR] & Hi) Hc] H. split; [|done]. exists t. split; [|done].
  split; [done|]. by apply H.
Qed.

Lemma Inv_any c R s : Inv c R s -> Inv c any s.
Proof. intros H. by eapply Inv_impl. Qed.

Lemma Inv_safe c R s : Inv c R s -> Safe s.
Proof. intros H. exists c. by eapply Inv_any. Qed.

Lemma tables_inv_halt c g t reason :
  tables_inv c g t -> tables_inv c g (with_events (fun l => l ++ [HaltEvent reason]) t).
Proof.
  intros (H1 & H2 & H3 & H4). split; [by apply rollback_halt|]. split; [done|].
  pose proof (live_halt_after reason t) as Hl. split; [done|].
  destruct H4 as [H4|[H4|[_ H4]]]; [by left|by right; left|]. right. by right.
Qed.

Lemma Inv_read {A} c R (m : M A) (f : tables -> A) :
  (forall P, brings P m (fun a t => P t /\ a = f t) P) ->
  triple (Inv c R) (db m) (fun a => Inv c (fun h n t => R h n t /\ a = f t)) (Inv c R).
Proof.
  intros Hm. eapply triple_conseq; [apply triple_db; intros g; apply Hm|done| |done].
  intros a s Hs. eapply On_impl; [exact Hs|]. by intros g t [[H1 H2] H3].
Qed.

Lemma Inv_haltError c R E :
  triple (Inv c R) (gets haltError) (fun h => Inv c (fun h' n t => R h' n t /\ h' = h)) E.
Proof.
  eapply triple_conseq; [apply triple_haltError|done| |by intros s H; exact H].
  intros h s Hs. eapply On_impl; [exact Hs|]. by intros g t [[H1 H2] H3].
Qed.

Lemma Inv_deletedCount c R E :
  triple (Inv c R) deletedCount (fun k => Inv c (fun h n t => R h n t /\ n = k)) E.
Proof.
  eapply triple_conseq; [apply triple_deletedCount|done| |by intros s H; exact H].
  intros h s Hs. eapply On_impl; [exact Hs|]. by intros g t [[H1 H2] H3].
Qed.
End Walk.

(** ** Contiguous tables *)

Lemma filter_seqZ lo n c :
  List.filter (fun h => h <? c) (seqZ lo n) = seqZ lo (Z.max 0 (Z.min n (c - lo))).
Proof.
  destruct (Z.le_gt_cases n 0) as [Hn|Hn].
  { by rewrite !seqZ_nil by lia. }
  revert lo. pattern n. apply natlike_ind; [| |lia]; clear n Hn.
  - intros lo. by rewrite !seqZ_nil by lia.
  - intros n Hn IH lo. rewrite seqZ_cons, Z.pred_succ by lia. simpl.
    rewrite IH. destruct (lo <? c) eqn:E; b2p.
    + rewrite (seqZ_cons lo) by lia. f_equal. f_equal; lia.
    + by rewrite !seqZ_nil by lia.
Qed.

Lemma map_filter_index c l :
  map b_index (List.filter (fun x => b_index x <? c) l)
  = List.filter (fun h => h <? c) (map b_index l).
Proof. induction l as [|x l IH]; simpl; [done|]. destruct (_ <? c); simpl; by rewrite IH. Qed.

Lemma max_of_seqZ lo n : 0 < n -> max_of (seqZ lo n) = lo + n - 1.
Proof.
  intros Hn. rewrite seqZ_cons by lia. simpl.
  assert (H : forall m x, lo <= x -> foldl Z.max x (seqZ (x + 1) m) = Z.max x (x + m)).
  { intros m. destruct (Z.le_gt_cases m 0) as [Hm|Hm].
    { intros x _. rewrite seqZ_nil by lia. simpl. lia. }
    pattern m. apply natlike_ind; [| |lia]; clear m Hm.
    - intros x _. rewrite seqZ_nil by lia. simpl. lia.
    - intros m Hm IH x Hx. rewrite seqZ_cons, Z.pred_succ by lia. simpl.
      replace (Z.max x (x + 1)) with (x + 1) by lia.
      replace (Z.succ (x + 1)) with (x + 1 + 1) by lia. rewrite IH by lia. lia. }
  replace (Z.succ lo) with (lo + 1) by lia. rewrite H by lia. lia.
Qed.

(** The blocks table holds consecutive heights, each with its hash. *)
Definition contiguous (T : tables) : Prop :=
  (exists lo n, map b_index (blocks T) = seqZ lo n)
  /\ forall b hash, stored T b hash -> hash <> None.

Lemma elem_heights_above tip limit l h :
  (length (reorg_heights l) <= limit)%nat ->
  h ∈ heights_above tip limit l <-> tip < h /\ h ∈ reorg_heights l.
Proof.
  intros Hl. unfold heights_above. rewrite take_ge by done.
  rewrite elem_of_list_to_set, list_elem_of_In, filter_In, <- list_elem_of_In.
  rewrite Z.ltb_lt. tauto.
Qed.

Lemma stored_iff_index T h :
  (exists hash, stored T h hash) <-> h ∈ map b_index (blocks T).
Proof.
  split.
  - intros (hash & (x & Hx & <-)%stored_in). by apply list_elem_of_fmap_2.
  - intros (x & -> & Hx)%list_elem_of_fmap. unfold stored, block_by_index.
    destruct (find _ _) as [y|] eqn:E; [by repeat eexists|].
    apply list_elem_of_In in Hx. pose proof (find_none _ _ E x Hx) as H. simpl in H.
    by rewrite Z.eqb_refl in H.
Qed.

Section Depth.
Context (node : nat -> node_view) (startIndex : Z) (T : tables).

Definition missing (t : tables) : Z := Z.of_nat (length (blocks T)) - Z.of_nat (length (blocks t)).

Lemma rollback_marks_grow t :
  rollback node startIndex T t ->
  (length (reorg_heights (events T)) <= length (reorg_heights (events t)))%nat.
Proof.
  induction 1 as [|t b hash Hr IH _ _ _ _|t r Hr IH]; [done| |].
  - rewrite deleted_events. destruct hash; [|by rewrite app_nil_r].
    rewrite reorg_heights_snoc. simpl. lia.
  - cbn [with_events events]. by rewrite reorg_heights_snoc.
Qed.

(** As long as a block is left and the scan reaches every marker, the depth read back is
    the depth there was and the blocks missing since. *)
Lemma rollback_depth t :
  contiguous T -> rollback node startIndex T t -> blocks t <> [] ->
  (length (reorg_heights (events t)) <= MARKER_SCAN_LIMIT)%nat ->
  depth_above t = depth_above T + missing t.
Proof.
  intros [(lo & n & HT) Hh] Hr Hne Hlim.
  pose proof (Nat.le_trans _ _ _ (rollback_marks_grow t Hr) Hlim) as HlimT.
  destruct (rollback_marks _ _ _ t Hh Hr) as (c & Hb & Hm).
  assert (Et : map b_index (blocks t) = seqZ lo (Z.max 0 (Z.min n (c - lo)))).
  { by rewrite Hb, map_filter_index, HT, filter_seqZ. }
  set (k := Z.min n (c - lo)).
  assert (Hk : 0 < k).
  { destruct (Z.le_gt_cases k 0); [|done]. fold k in Et. rewrite Z.max_l, seqZ_nil in Et by lia.
    by destruct (blocks t). }
  fold k in Et. rewrite Z.max_r in Et by lia.
  assert (HlT : Z.of_nat (length (blocks T)) = n).
  { rewrite <- (length_map b_index), HT, length_seqZ. lia. }
  assert (Hlt : Z.of_nat (length (blocks t)) = k).
  { rewrite <- (length_map b_index), Et, length_seqZ. lia. }
  unfold depth_above, missing. rewrite Et, HT, HlT, Hlt, !max_of_seqZ by lia.
  assert (E : heights_above (lo + k - 1) MARKER_SCAN_LIMIT (events t)
    = heights_above (lo + n - 1) MARKER_SCAN_LIMIT (events T)
      ∪ list_to_set (seqZ (lo + k) (n - k))).
  { apply set_eq. intros h. rewrite elem_of_union, !elem_heights_above by done.
    rewrite elem_of_list_to_set, elem_of_seqZ, Hm, stored_iff_index, HT, elem_of_seqZ.
    destruct (decide (lo + n - 1 < h)); intuition lia. }
  rewrite E, size_union.
  - rewrite size_list_to_set by apply NoDup_seqZ. rewrite length_seqZ. lia.
  - intros h H1 H2. apply elem_heights_above in H1 as [H1 _]; [|done].
    apply elem_of_list_to_set, elem_of_seqZ in H2. lia.
Qed.
End Depth.
