(* ===== verification/ReorgFacts.v ===== *)
(** * The walk back refines the abstract rollback

    verifyReorg, whatever the node answers and whichever database calls fail: it only
    deletes blocks from the top that the node proved it reorged away from, its depth stays
    under the ceiling, and it returns at the fork point. *)
From S2P Require Import Prelude JsNum Config Db DbRows Atomic Idle Dispensers DispenserReorg.
From S2P Require Import Halt Node ReorgWalk ReorgSpec.
#[local] Open Scope Z_scope.

Section Walk.
Context (node : nat -> node_view) (rc : reorg_config) (T0 : tables).

Abbreviation proved := (proved node).
Abbreviation stored := (stored T0).
Abbreviation start := (startBlockIndex (base_config rc)).
Abbreviation rollback := (rollback node start T0).
Abbreviation safeDepth := (safeDepthFor rc).
Abbreviation prior := (depth_above T0).
Abbreviation Inv := (Inv node rc T0).
Abbreviation Safe := (Safe node rc T0).
Abbreviation tables_inv := (tables_inv node rc T0).

#[local] Hint Resolve Inv_safe Inv_any : core.

(** ** Halts *)

Lemma triple_answer {A} (f : node_view -> A) Q E :
  triple (On Q) (ask node f) (fun _ => On Q) E.
Proof.
  eapply triple_conseq; [apply triple_ask|done| |by intros s H; exact H].
  intros a s Hs. eapply On_impl; [exact Hs|]. by intros g t [Ht _].
Qed.

Lemma triple_haltReorg c R reason :
  triple (Inv c R) (haltReorg node reason)
    (fun _ => On (fun g t => (tables_inv c g t /\ exists t', R (g_halt g) (g_count g) t')
                             /\ (g_marker g = Some true -> live_halt t)))
    Safe.
Proof.
  apply (triple_bind _ _ (fun _ => Inv c R)); [apply triple_answer|intros now].
  apply (triple_bind _ _ (fun _ => Inv c R)); [by apply triple_puts|intros []].
  set (Q := fun g t => tables_inv c g t /\ exists t', R (g_halt g) (g_count g) t').
  eapply triple_bind with (K := fun b => On (fun g t => Q g t /\ (b = true -> live_halt t))).
  - eapply triple_conseq with (P' := On Q) (E' := On Q); [|..].
    + apply triple_db. intros g. apply brings_persistReorgHalt. intros t [Ht Hr].
      split; [by apply tables_inv_halt|done].
    + intros s Hs. eapply On_impl; [exact Hs|]. intros g t [Ht HR]. split; [done|by exists t].
    + done.
    + intros s Hs. exists c. eapply On_impl; [exact Hs|]. by intros g t [Ht _].
  - intros b. apply triple_puts. intros s [(t & [HQ Hb] & Hi) Hc]. split; [|done].
    exists t. split; [|done]. split; [done|]. simpl. intros [= ->]. by apply Hb.
Qed.

Lemma triple_raiseSafeDepthHalt c R msg :
  triple (Inv c R) (raiseSafeDepthHalt node msg)
    (fun _ => Inv c (fun h n _ => is_Some h /\ exists h' t', R h' n t')) Safe.
Proof.
  eapply triple_bind; [apply triple_haltReorg|intros []].
  eapply (triple_bind _ _ (fun p s => On (fun g t =>
    (tables_inv c g t /\ exists t', R (g_halt g) (g_count g) t')
    /\ (g_marker g = Some true -> live_halt t)) s /\ p = reorgHaltMarkerPersisted s)).
  { intros s Hs. by split. }
  intros p. destruct p as [[]|].
  2,3: apply triple_raise; intros s [Hs _]; exists c; eapply On_impl; [exact Hs|];
    by intros g t [[Ht _] _].
  eapply (triple_bind _ _ (fun _ s => _)); [intros s Hs; exact Hs|intros stop].
  apply triple_puts. intros s [[(t & [[Ht (t' & HR)] Hl] & Hi) Hc] Hp]. split; [|done].
  exists t. split; [|done]. split; [|split; [done|eauto]].
  destruct Ht as (H1 & H2 & H3 & H4). repeat split; try done. intros _. by apply Hl.
Qed.

(** The ceiling is checked before every delete. *)
Lemma triple_assertWithinSafeDepth c b R :
  triple (Inv c R) (assertWithinSafeDepth node rc b prior)
    (fun _ => Inv c (fun h n _ => h = None -> prior + n < safeDepth)) Safe.
Proof.
  eapply triple_bind; [apply Inv_haltError|intros [m|]].
  { apply triple_ret. intros s Hs. eapply Inv_impl; [exact Hs|]. by intros h n t _ [_ ->]. }
  eapply triple_bind; [apply Inv_deletedCount|intros n].
  destruct (safeDepth <=? prior + n) eqn:El.
  - eapply triple_conseq; [apply triple_raiseSafeDepthHalt|by intros s H; exact H| |done].
    intros [] s Hs. eapply Inv_impl; [exact Hs|]. by intros h k t _ [[? ->] _].
  - apply triple_ret. intros s Hs. eapply Inv_impl; [exact Hs|]. intros h k t _ [_ ->] _.
    b2p. lia.
Qed.

(** ** Above the node's tip *)

Lemma triple_requireReorgProof_inv c R b hash nodeTip :
  triple (Inv c R) (requireReorgProof node b hash nodeTip)
    (fun _ => Inv c (fun h n t => R h n t /\ proved hash)) Safe.
Proof.
  eapply triple_conseq; [apply triple_requireReorgProof with (E := Safe); eauto|done| |done].
  intros [] s Hs. eapply On_impl; [exact Hs|]. by intros g t [[H1 H2] H3].
Qed.

Lemma triple_getBlockByIndex c R b :
  triple (Inv c R) (db (getBlockByIndex b))
    (fun x => Inv c (fun h n t => R h n t /\ x = block_by_index b t)) (Inv c R).
Proof. apply Inv_read. intros P. apply brings_read_retrying. Qed.

Lemma triple_requireAboveTipForkProof c R b hash nodeTip :
  triple (Inv c R) (requireAboveTipForkProof node b hash nodeTip) (fun _ => Inv c any) Safe.
Proof.
  eapply triple_bind.
  { eapply triple_catching; [apply triple_getBlockByIndex|by eauto|].
    intros e. apply triple_raise. by eauto. }
  intros boundary. destruct (boundary ≫= s_hash) as [[|x h]|];
    [by apply triple_raise; eauto| |by apply triple_raise; eauto].
  eapply triple_bind with (K := fun _ => Inv c any).
  { eapply triple_conseq; [apply triple_ask with (E := Safe)|by intros s H; exact H| |done].
    intros a s Hs. eapply On_impl; [exact Hs|]. by intros g t [[H1 H2] H3]. }
  intros [| | |[|y h']]; try (apply triple_raise; by eauto).
  case_match; [by apply triple_raise; eauto|].
  eapply triple_bind; [apply triple_requireReorgProof_inv|intros []].
  apply triple_ret. eauto.
Qed.

Lemma triple_refuseOrHaltDeepGap c R b hash nodeTip :
  triple (Inv c R) (refuseOrHaltDeepGap node rc b hash nodeTip prior) (fun _ => Inv c any) Safe.
Proof.
  eapply triple_bind; [apply triple_requireAboveTipForkProof|intros h].
  eapply triple_bind; [apply Inv_deletedCount|intros n].
  cbn zeta. case_match; [by apply triple_ret; eauto|].
  eapply triple_conseq; [apply triple_raiseSafeDepthHalt|by intros s Hs; exact Hs| |done].
  intros [] s Hs. eauto.
Qed.

(** ** Deleting a block *)

Lemma under_ceiling_delete n t hash b :
  under_ceiling rc T0 n t -> under_ceiling rc T0 n (delete_block_tables b hash t).
Proof.
  unfold under_ceiling, live_halt. rewrite deleted_events.
  destruct hash; [rewrite halted_snoc|by rewrite app_nil_r]. done.
Qed.

Lemma live_halt_delete b hash t : live_halt t -> live_halt (delete_block_tables b hash t).
Proof.
  unfold live_halt. rewrite deleted_events.
  destruct hash; [by rewrite halted_snoc|by rewrite app_nil_r].
Qed.

Lemma tables_inv_delete b hash g t :
  start <= b -> stored b hash -> proved hash ->
  tables_inv b g t -> tables_inv (b - 1) g (delete_block_tables b hash t).
Proof.
  intros Hs Hst Hp (H1 & H2 & H3 & H4). split; [by apply rollback_delete|].
  split; [by apply bounded_delete|]. split; [|by apply under_ceiling_delete].
  intros H. by apply live_halt_delete, H3.
Qed.

Lemma bounded_weaken c c' t : c <= c' -> bounded c t -> bounded c' t.
Proof. intros H Hb. eapply Forall_impl; [exact Hb|]. simpl. lia. Qed.

Lemma tables_inv_weaken c c' g t : c <= c' -> tables_inv c g t -> tables_inv c' g t.
Proof. intros H (H1 & H2 & H3). split; [done|]. split; [by eapply bounded_weaken|done]. Qed.

(** A delete that reports success took effect; one that throws may have. *)
Lemma triple_deleteBlock b hash (R : option jstr -> Z -> Prop) :
  start <= b -> stored b hash -> proved hash ->
  triple (Inv b (fun h n _ => R h n)) (db (deleteBlockByIndex b hash))
    (fun _ => Inv (b - 1) (fun h n _ => R h n)) (Inv b (fun h n _ => R h n)).
Proof.
  intros Hs Hst Hp. eapply triple_conseq; [|intros s H; exact H|intros a s H; exact H|intros s H; exact H].
  unfold Inv. apply triple_db. intros g w (t & [Ht HR] & Hi).
  pose proof (deleteBlockByIndex_outcome t w b hash Hi) as H.
  assert (Hd : tables_inv (b - 1) g (delete_block_tables b hash t)) by by apply tables_inv_delete.
  destruct (deleteBlockByIndex b hash w) as [[[]|e|] w']; try done.
  - by eexists; split; [split; [exact Hd|]|].
  - destruct H as [H|H]; [by exists t|]. exists (delete_block_tables b hash t).
    split; [|done]. split; [|done]. eapply tables_inv_weaken; [|exact Hd]. lia.
Qed.

Lemma Inv_push c R b hash s :
  Inv c R s ->
  (forall g t, tables_inv c g t -> R (g_halt g) (g_count g) t ->
     under_ceiling rc T0 (g_count g + 1) t) ->
  Inv c (fun h n _ => exists t', R h (n - 1) t') (push_deleted b hash s).
Proof.
  intros [(t & [Ht HR] & Hi) Hc] Hu. specialize (Hu _ t Ht HR). split; [|done].
  assert (En : g_count (ghost_of (push_deleted b hash s)) = g_count (ghost_of s) + 1).
  { simpl. unfold deleted_count. simpl. rewrite length_app. simpl. lia. }
  destruct Ht as (H1 & H2 & H3 & H4). exists t. split; [|done]. split.
  - split; [done|]. split; [done|]. split; [done|]. by rewrite En.
  - rewrite En. exists t. by rewrite Z.add_simpl_r.
Qed.

Lemma triple_deleteOrCount b hash retryCount failure :
  start <= b -> stored b hash -> proved hash ->
  triple (Inv b (fun h n _ => h = None /\ prior + n < safeDepth))
    (deleteOrCount node b hash retryCount failure) (fun _ => Inv b any) Safe.
Proof.
  intros Hs Hst Hp. set (R := fun (h : option jstr) n => h = None /\ prior + n < safeDepth).
  eapply (triple_catching _ _ _ _ (Inv b (fun h n _ => R h n))); [|eauto|].
  - apply (triple_bind _ _ (fun _ => Inv (b - 1) (fun h n _ => R h n)));
      [by apply triple_deleteBlock|intros _].
    eapply (triple_bind _ _ (fun _ => Inv b any)); [|intros []; by apply triple_ret].
    apply triple_puts. intros s Hi.
    assert (Hw : Inv b (fun h n _ => R h n) s).
    { eapply On_impl; [exact Hi|]. intros g t [Ht HR]. split; [|done].
      eapply tables_inv_weaken; [|exact Ht]. lia. }
    eapply Inv_any, Inv_push; [exact Hw|]. intros g t _ [_ Hn]. right. left. lia.
  - intros e. case_match; [|by apply triple_ret; eauto].
    eapply triple_bind; [apply triple_haltReorg|intros []].
    apply triple_raise. intros s H1. exists b. eapply On_impl; [exact H1|].
    by intros g t [[Ht _] _].
Qed.

(** The check, then the delete, common to both branches. *)
Lemma triple_checked_delete b hash c (R : option jstr -> Z -> tables -> Prop) nodeTip
    retryCount failure :
  start <= b -> stored b hash -> c = b ->
  triple (Inv c R)
    (requireReorgProof node b hash nodeTip;;
     assertWithinSafeDepth node rc b prior;;
     halt ← gets haltError;
     match (halt : option jstr) with
     | Some _ => mret retryCount
     | None => deleteOrCount node b hash retryCount failure
     end) (fun _ => Inv b any) Safe.
Proof.
  intros Hs Hst ->. eapply triple_bind; [apply triple_requireReorgProof_inv|intros []].
  eapply (triple_bind _ _ (fun _ => On (fun g t =>
    (tables_inv b g t /\ (g_halt g = None -> prior + g_count g < safeDepth)) /\ proved hash))).
  { intros s Hi. pose proof Hi as [(t & (_ & _ & Hp) & _) _].
    pose proof (triple_assertWithinSafeDepth b b _ s Hi) as H.
    destruct (assertWithinSafeDepth node rc b prior s) as [[[]|e| |] s']; try done.
    eapply On_impl; [exact H|]. by intros g t' [H1 H2]. }
  intros []. apply triple_pure. intros Hp.
  eapply triple_bind; [apply (Inv_haltError _ _ _ b (fun h n _ => h = None -> prior + n < safeDepth))|].
  intros [m|]; [by apply triple_ret; eauto|].
  eapply triple_conseq; [by apply triple_deleteOrCount| |by intros x s H; exact H|done].
  intros s Hi. eapply Inv_impl; [exact Hi|]. intros h n t _ [H1 H2]. by auto.
Qed.

Lemma triple_deleteForkedBlock b x R nodeTip retryCount :
  start <= b -> stored b (s_hash x) ->
  triple (Inv b R) (deleteForkedBlock node rc b x nodeTip prior retryCount)
    (fun _ => Inv b any) Safe.
Proof. intros Hs Hst. by apply triple_checked_delete. Qed.

Lemma triple_deleteAboveTipBlock b x R nodeTip retryCount :
  start <= b -> stored b (s_hash x) ->
  triple (Inv b R) (deleteAboveTipBlock node rc b x nodeTip prior retryCount)
    (fun _ => Inv b any) Safe.
Proof.
  intros Hs Hst. eapply triple_bind; [apply triple_refuseOrHaltDeepGap|intros []].
  eapply triple_bind; [apply Inv_haltError|intros [m|]]; [by apply triple_ret; eauto|].
  by apply triple_checked_delete.
Qed.

(** ** Reading the node's tip *)

Lemma triple_readReorgTip nodeTip Q E : triple (On Q) (readReorgTip node rc nodeTip) (fun _ => On Q) E.
Proof.
  eapply triple_bind; [apply triple_answer|]. intros [| |info]; try by apply triple_ret.
  case_match; [by apply triple_ret|]. case_match; [by apply triple_ret|].
  eapply (triple_bind _ _ (fun _ => On Q)).
  - unfold verifyChainGenesis. case_match; [by apply triple_ret|].
    eapply triple_bind; [apply triple_answer|]. intros [| | |[|x h]]; try by apply triple_ret.
    cbn zeta. eapply (triple_bind _ _ (fun _ => On Q)); [|intros []; by apply triple_ret].
    case_match; [by apply triple_ret|]. eapply triple_bind; [apply triple_answer|].
    intros now. by apply triple_puts.
  - intros mismatch. case_match; [by apply triple_ret|]. by case_match; apply triple_ret.
Qed.

Lemma triple_settle {A} `{!EqDecision A} n (x : A) m Q E :
  triple (On Q) m (fun _ => On Q) E -> triple (On Q) (settle n x m) (fun _ => On Q) E.
Proof.
  intros Hm. revert x. induction n as [|n IH]; intros x; simpl; [by apply triple_ret|].
  eapply triple_bind; [exact Hm|]. intros [y|]; [|by apply triple_ret].
  case_match; [by apply triple_ret|apply IH].
Qed.

Lemma triple_refreshReorgTip nodeTip Q E :
  triple (On Q) (refreshReorgTip node rc nodeTip) (fun _ => On Q) E.
Proof.
  eapply triple_bind; [apply triple_readReorgTip|intros tip].
  case_match; [by apply triple_ret|]. destruct tip as [t|]; [|by apply triple_ret].
  destruct nodeTip as [n|]; [case_match; [by apply triple_ret|]|];
    (eapply triple_bind; [apply triple_settle, triple_readReorgTip|]);
    intros settled; by apply triple_ret.
Qed.

(** ** The halted walk *)

(** Blocks to delete, from [top] down. *)
Fixpoint descending (top : Z) (doomed : list (Z * jstr)) : Prop :=
  match doomed with
  | [] => True
  | (b, hash) :: rest =>
      b = top /\ start <= b /\ stored b (Some hash) /\ descending (top - 1) rest
  end.

Lemma descending_snoc top doomed b hash :
  descending top doomed -> b = top - Z.of_nat (length doomed) -> start <= b ->
  stored b (Some hash) -> descending top (doomed ++ [(b, hash)]).
Proof.
  revert top. induction doomed as [|[b' h'] rest IH]; intros top Hd Hb Hs Hst; simpl in *.
  - repeat split; [lia|done..].
  - destruct Hd as (-> & H1 & H2 & H3). repeat split; [done|done|]. apply IH; [done|lia|done..].
Qed.

Definition on_halted_walk (n : Z) (h : option jstr) (k : Z) (_ : tables) : Prop :=
  is_Some h /\ k = n.

Lemma triple_readNodeBlockHash Q E b :
  triple (On Q) (readNodeBlockHash node b) (fun _ => On Q) E.
Proof. eapply triple_bind; [apply triple_answer|]. intros a. by apply triple_ret. Qed.

Definition reading_ok (n top lowest : Z) (r : halted_reading) (s : rstate) : Prop :=
  Inv top (on_halted_walk n) s
  /\ match r with
     | Stopped _ => True
     | ForkFound top' doomed _ =>
         top' = top /\ descending top doomed /\ Z.of_nat (length doomed) <= top - lowest
     end.

Lemma triple_read_down count height top lowest tip doomed n :
  start <= lowest -> descending top doomed -> height = top - Z.of_nat (length doomed) ->
  (0 < Z.of_nat count -> Z.of_nat count = height - lowest + 1) ->
  triple (Inv top (on_halted_walk n)) (read_down node count height top lowest tip doomed)
    (reading_ok n top lowest) Safe.
Proof.
  intros Hl. revert height doomed. induction count as [|m IH]; intros height doomed Hd Hh Hc; simpl.
  { by apply triple_ret. }
  assert (Hle : lowest <= height) by lia.
  eapply (triple_bind _ _ (fun x => Inv top (fun h k t => on_halted_walk n h k t
    /\ forall y, x = Some y -> block_by_index height t = Some y))).
  { eapply triple_catching with (E' := Inv top (on_halted_walk n)); [|by eauto|].
    - eapply triple_conseq; [apply triple_getBlockByIndex|done| |done].
      intros x s Hs. eapply Inv_impl; [exact Hs|]. intros h k t _ [Hk ->]. by split.
    - intros e. apply triple_ret. intros s Hs. eapply Inv_impl; [exact Hs|]. by intros h k t _ Hk. }
  intros x. destruct (x ≫= s_hash) as [hash|] eqn:Ex.
  2: { apply triple_ret. intros s Hs. split; [|done]. eapply Inv_impl; [exact Hs|].
       by intros h k t _ [Hk _]. }
  destruct x as [y|]; [|done]. simpl in Ex.
  apply (triple_conseq _ (On (fun g t => (tables_inv top g t /\ on_halted_walk n (g_halt g) (g_count g) t)
    /\ stored height (Some hash))) _ (reading_ok n top lowest) _ Safe); [|..|done|done].
  2: { intros s Hs. eapply On_impl; [exact Hs|]. intros g t [Ht [Hk Hx]]. split; [done|].
       exists y. split; [|done]. eapply rollback_stored; [apply Ht|by apply Hx]. }
  apply triple_pure. intros Hst.
  assert (Hnext : descending top (doomed ++ [(height, hash)])).
  { apply descending_snoc; [done..|lia|done]. }
  assert (Hrec : triple (Inv top (on_halted_walk n))
    (read_down node m (height - 1) top lowest tip (doomed ++ [(height, hash)]))
    (reading_ok n top lowest) Safe).
  { apply IH; [done|rewrite length_app; simpl; lia|lia]. }
  destruct (above_tip height tip); [exact Hrec|].
  eapply triple_bind; [apply triple_readNodeBlockHash|]. intros [f|]; [|by apply triple_ret].
  eapply triple_bind; [apply triple_readNodeBlockHash|]. intros [s|]; [|by apply triple_ret].
  case_match; [by apply triple_ret|]. case_match; [|exact Hrec].
  apply triple_ret. intros s' Hs'. split; [exact Hs'|]. split; [done|]. split; [done|]. lia.
Qed.

Lemma triple_deleteHaltedBlock m b hash n :
  start <= b -> stored b hash -> proved hash -> prior + n + 1 <= 2 * safeDepth ->
  triple (Inv b (on_halted_walk n)) (deleteHaltedBlock m b hash)
    (fun gone => if gone : bool then Inv (b - 1) (on_halted_walk (n + 1))
                 else Inv b (on_halted_walk n)) Safe.
Proof.
  intros Hs Hst Hp Hn. set (R := fun (h : option jstr) k => is_Some h /\ k = n).
  induction m as [|m IH]; simpl; [by apply triple_ret|].
  eapply triple_catching with (E' := Inv b (on_halted_walk n)); [|by eauto|by intros e].
  apply (triple_bind _ _ (fun _ => Inv (b - 1) (fun h n _ => R h n)));
    [by apply (triple_deleteBlock b hash R)|intros _].
  eapply (triple_bind _ _ (fun _ => Inv (b - 1) (on_halted_walk (n + 1))));
    [|intros []; by apply triple_ret].
  apply triple_puts. intros s Hi. eapply Inv_impl; [eapply Inv_push; [exact Hi|]|].
  - intros g t (_ & _ & Hl & _) [Hh Hk]. right. right. split; [by apply Hl|lia].
  - intros h k t _ (t' & Hh & Hk). split; [done|]. lia.
Qed.

Lemma triple_deleteProvenBlocks top doomed n :
  descending top doomed -> prior + n + Z.of_nat (length doomed) <= 2 * safeDepth ->
  triple (Inv top (on_halted_walk n)) (deleteProvenBlocks node doomed)
    (fun _ s => exists c, Inv c (fun h _ _ => is_Some h) s) Safe.
Proof.
  revert top n. induction doomed as [|[b hash] rest IH]; intros top n Hd Hn; simpl.
  { apply triple_ret. intros s Hs. exists top. eapply Inv_impl; [exact Hs|].
    by intros h k t _ [Hh _]. }
  destruct Hd as (-> & Hs & Hst & Hd). simpl in Hn.
  eapply triple_bind; [apply triple_proveReorgedAway|intros [|why]].
  - apply triple_pure. intros Hp. specialize (Hp eq_refl).
    eapply triple_bind; [apply (triple_deleteHaltedBlock 10 top (Some hash) n); [done..|lia]|].
    intros [|].
    + apply IH; [done|lia].
    + apply triple_ret. intros s Hi. exists top. eapply Inv_impl; [exact Hi|].
      by intros h k t _ [Hh _].
  - apply triple_ret. intros s Hi. exists top. eapply On_impl; [exact Hi|].
    by intros g t [[Ht [Hh _]] _].
Qed.

Lemma triple_set_stop c R stop E :
  triple (Inv c R) (set_stop stop) (fun _ => Inv c R) E.
Proof. by apply triple_puts. Qed.

Lemma triple_finishHaltedWalk c nodeTip :
  triple (Inv c (fun h _ _ => is_Some h)) (finishHaltedWalk node rc nodeTip prior)
    (fun _ s => exists c, Inv c (fun h _ _ => is_Some h) s) Safe.
Proof.
  set (F := fun (_ : unit) s => exists c, Inv c (fun h _ _ => is_Some h) s).
  assert (Hstop : forall stop, triple (fun s => exists c, Inv c (fun h _ _ => is_Some h) s)
    (set_stop stop) F Safe).
  { intros stop. apply triple_puts. intros s (c' & H). by exists c'. }
  eapply triple_bind; [apply triple_set_stop|intros []].
  eapply triple_bind; [apply Inv_deletedCount|intros n].
  set (budget := 2 * safeDepth - (prior + n)).
  eapply (triple_bind _ _ (fun r s => match r with
    | Stopped _ => exists c, Inv c (fun h _ _ => is_Some h) s
    | ForkFound top doomed _ => Inv top (on_halted_walk n) s
        /\ descending top doomed /\ Z.of_nat (length doomed) <= budget end)).
  - eapply (triple_bind _ _ (fun top s => match top with
      | None => exists c, Inv c (fun h _ _ => is_Some h) s
      | Some top => Inv top (on_halted_walk n) s end)).
    + eapply triple_catching with (E' := Inv c (on_halted_walk n)); [|by eauto|].
      * eapply triple_bind; [apply Inv_read; intros P; apply brings_read_retrying|].
        intros top. apply triple_ret. intros s [(t & [(H1 & H2 & H3) [Hw ->]] & Hi) Hc].
        split; [|done]. exists t. split; [|done]. split; [|done]. split; [done|].
        split; [|done]. clear. unfold bounded. apply Forall_forall. intros x Hx.
        apply max_of_upper. apply list_elem_of_fmap. by exists x.
      * intros e. apply triple_ret. intros s Hs. exists c. eapply Inv_impl; [exact Hs|].
        by intros h k t _ [Hh _].
    + intros [top|]; [|by apply triple_ret]. cbn zeta.
      set (lowest := Z.max start (top - budget)).
      eapply triple_conseq; [apply (triple_read_down _ top top lowest _ [] n)|done| |done];
        [lia|done|simpl; lia|lia|].
      intros [stop|top' doomed fp] s [Hi H].
      * exists top. eapply Inv_impl; [exact Hi|]. by intros h k t _ [Hh _].
      * destruct H as (-> & Hd & Hlen). split; [done|]. split; [done|]. lia.
  - intros [stop|top doomed fp]; [apply Hstop|].
    assert (Hgo : triple (fun s => Inv top (on_halted_walk n) s /\ descending top doomed
      /\ Z.of_nat (length doomed) <= budget)
      (stop ← deleteProvenBlocks node doomed; set_stop stop) F Safe).
    { intros s (Hi & Hd & Hl). revert s Hi. eapply triple_bind; [|exact Hstop].
      apply triple_deleteProvenBlocks; [done|lia]. }
    destruct nodeTip as [tip|]; [|exact Hgo]. case_match; [|exact Hgo].
    eapply triple_conseq; [apply Hstop| |done|done].
    intros s (Hi & _). exists top. eapply Inv_impl; [exact Hi|]. by intros h k t _ [Hh _].
Qed.

(** ** The walk *)

Definition stored_tip (t : tables) : Z := max_of (map b_index (blocks t)).

(** The stored tip is a block the node was heard to hold at its height, or the walk ran
    out of blocks. *)
Definition at_fork_point (t : tables) : Prop :=
  match block_by_index (stored_tip t) t with
  | None => True
  | Some x => stored_tip t < start
              \/ exists k, same_hash (s_hash x) (getBlockHash (node k) (stored_tip t)) = true
  end.

Definition is_tip (i : Z) (x : stored_block) (_ : option jstr) (_ : Z) (t : tables) : Prop :=
  i = stored_tip t /\ block_by_index i t = Some x.

Lemma bounded_tip t : bounded (stored_tip t) t.
Proof.
  apply Forall_forall. intros x Hx. apply max_of_upper, list_elem_of_fmap. by exists x.
Qed.

Lemma triple_readLastStoredBlock c :
  triple (Inv c any) readLastStoredBlock
    (fun r s => match r with
                | None => Inv c any s
                | Some (_, None) => Inv c (fun _ _ t => block_by_index (stored_tip t) t = None) s
                | Some (i, Some x) => Inv i (is_tip i x) s
                end) Safe.
Proof.
  eapply triple_catching with (E' := Inv c any); [|by eauto|].
  2: { intros e. by apply triple_ret. }
  eapply triple_bind; [apply Inv_read; intros P; apply brings_read_retrying|intros i].
  eapply triple_bind.
  { eapply triple_conseq; [apply triple_getBlockByIndex|by intros s H; exact H| |by eauto].
    intros x s H. exact H. }
  intros [x|]; apply triple_ret; intros s [(t & [Ht [[_ ->] Hx]] & Hi) Hc]; split; try done;
    exists t; (split; [|done]); (split; [|done]); [|done].
  destruct Ht as (H1 & _ & H2). split; [done|]. split; [apply bounded_tip|done].
Qed.

Lemma Inv_tip i x s :
  Inv i (is_tip i x) s -> stored i (s_hash x).
Proof.
  intros [(t & [(Hr & _) [_ Hx]] & _) _]. exists x. split; [|done]. by eapply rollback_stored.
Qed.

Lemma triple_with_tip {A} i x (m : W A) F E :
  (stored i (s_hash x) -> triple (Inv i (is_tip i x)) m F E) ->
  triple (Inv i (is_tip i x)) m F E.
Proof. intros H s Hs. by apply H; [eapply Inv_tip|]. Qed.

Definition pass_ok (next : walk_next) (s : rstate) : Prop :=
  match next with
  | Again _ _ => Safe s
  | Finished => exists c, Inv c (fun h _ t => h = None -> at_fork_point t) s
  end.

Lemma triple_checkStoredBlock i x nodeTip retryCount :
  start <= i ->
  triple (Inv i (is_tip i x)) (checkStoredBlock node rc i x nodeTip prior retryCount) pass_ok Safe.
Proof.
  intros Hs. apply triple_with_tip. intros Hst.
  eapply triple_bind with (K := fun a => Inv i (fun h n t => is_tip i x h n t
    /\ exists k, a = getBlockHash (node k) i)).
  { eapply triple_conseq; [apply triple_ask with (E := Safe)|done| |done].
    intros a s H. eapply On_impl; [exact H|]. by intros g t [[H1 H2] H3]. }
  assert (Hcmp : forall a, triple (Inv i (fun h n t => is_tip i x h n t
      /\ exists k, a = getBlockHash (node k) i))
    (if same_hash (s_hash x) a then mret Finished
     else r ← deleteForkedBlock node rc i x nodeTip prior retryCount; mret (Again nodeTip r))
    pass_ok Safe).
  { intros a. destruct (same_hash _ a) eqn:Ea.
    - apply triple_ret. intros s H. exists i. eapply Inv_impl; [exact H|].
      intros h n t _ [[-> Hx] (k & ->)] _. unfold at_fork_point. rewrite Hx. right. by exists k.
    - eapply triple_bind; [by apply triple_deleteForkedBlock|]. intros r. apply triple_ret.
      intros s H. by eapply Inv_safe. }
  intros [| | |h]; [|apply Hcmp..].
  eapply triple_bind; [apply triple_refreshReorgTip|]. intros tip. apply triple_ret.
  intros s H. exists i. eapply On_impl; [exact H|]. by intros g t [Ht _].
Qed.

Lemma triple_walk_pass nodeTip retryCount :
  triple Safe (walk_pass node rc nodeTip prior retryCount) pass_ok Safe.
Proof.
  intros s (c & Hs). revert s Hs.
  eapply triple_bind; [apply Inv_haltError|intros [m|]].
  - eapply triple_bind.
    + eapply triple_conseq; [apply (triple_finishHaltedWalk c)| |intros a s H; exact H|done].
      intros s H. eapply Inv_impl; [exact H|]. by intros h n t _ [_ ->].
    + intros []. apply triple_ret. intros s (c' & H). exists c'. eapply Inv_impl; [exact H|].
      intros h n t _ [m' Hm] ->. done.
  - eapply triple_bind.
    { eapply triple_conseq; [apply (triple_readLastStoredBlock c)|by eauto|
        intros r s H; exact H|done]. }
    intros [[i [x|]]|].
    + destruct (i <? start) eqn:Ei.
      * apply triple_ret. intros s H. exists i. eapply Inv_impl; [exact H|].
        intros h n t _ [-> Hx] _. unfold at_fork_point. rewrite Hx. left. b2p. lia.
      * b2p. destruct nodeTip as [tip|]; [|by apply triple_checkStoredBlock].
        destruct (tip <? i); [|by apply triple_checkStoredBlock].
        apply triple_with_tip. intros Hst.
        eapply triple_bind; [by apply triple_deleteAboveTipBlock|]. intros r.
        apply triple_ret. intros s H. by eapply Inv_safe.
    + apply triple_ret. intros s H. exists c. eapply Inv_impl; [exact H|].
      intros h n t _ E _. unfold at_fork_point. by rewrite E.
    + apply triple_ret. intros s H. by eapply Inv_safe.
Qed.

Lemma triple_walkReorg fuel nodeTip retryCount :
  triple Safe (walkReorg node rc fuel nodeTip prior retryCount)
    (fun _ s => exists c, Inv c (fun h _ t => h = None -> at_fork_point t) s) Safe.
Proof.
  revert nodeTip retryCount. induction fuel as [|n IH]; intros nodeTip retryCount; simpl.
  { by intros s Hs. }
  eapply triple_bind; [apply triple_walk_pass|]. intros [tip r|]; [apply IH|by apply triple_ret].
Qed.

Lemma triple_finishReorgRun :
  triple (fun s => exists c, Inv c (fun h _ t => h = None -> at_fork_point t) s) finishReorgRun
    (fun _ s => exists c, Inv c (fun h _ t => h = None /\ at_fork_point t) s) Safe.
Proof.
  intros s (c & Hs). revert s Hs.
  eapply triple_bind; [apply Inv_haltError|intros [m|]]; [by apply triple_raise; eauto|].
  eapply triple_bind; [apply Inv_deletedCount|intros n].
  assert (Hend : forall s, Inv c (fun h k t => ((h = None -> at_fork_point t) /\ h = None) /\ k = n) s ->
    Inv c (fun h _ t => h = None /\ at_fork_point t) s).
  { intros s H. eapply Inv_impl; [exact H|]. intros h k t _ [[H1 H2] _]. auto. }
  destruct (0 <? n).
  - apply triple_puts. intros s H. exists c. by apply Hend.
  - apply triple_ret. intros s H. exists c. by apply Hend.
Qed.

Lemma brings_countReorgDeletesAboveTip P :
  brings P countReorgDeletesAboveTip (fun n t => P t /\ n = depth_above t) P.
Proof.
  eapply brings_bind; [apply brings_read_retrying|intros tip].
  apply (brings_bind _ _ (fun _ t => P t /\ tip = max_of (map b_index (blocks t)))).
  { eapply brings_conseq; [apply rests_getConnection|intros t Ht; exact Ht|done|by intros t [? _]]. }
  intros _. eapply brings_conseq; [apply brings_select|intros t Ht; exact Ht| |by intros t [? _]].
  by intros n t [[Ht ->] ->].
Qed.

Lemma triple_readPriorRollbackDepth c :
  triple (Inv c (fun _ _ t => t = T0)) readPriorRollbackDepth
    (fun n s => Inv c any s /\ n = prior) Safe.
Proof.
  eapply (triple_bind _ _ (fun r s => Inv c (fun _ _ t => t = T0) s
    /\ match r with Some n => n = prior | None => True end)).
  - generalize 3%nat. intros m. induction m as [|m IH]; simpl; [by apply triple_ret|].
    eapply triple_catching with (E' := Inv c (fun _ _ t => t = T0)); [|by eauto|by intros e].
    eapply triple_bind; [apply Inv_read; intros P; apply brings_countReorgDeletesAboveTip|].
    intros n. apply triple_ret. intros s H. split.
    + eapply Inv_impl; [exact H|]. by intros h k t _ [? _].
    + by destruct H as [(t & [_ [-> ->]] & _) _].
  - intros [n|].
    + apply triple_ret. intros s [H ->]. split; [by eauto|done].
    + apply triple_raise. intros s [H _]. by eauto.
Qed.

Lemma triple_verifyReorg fuel nodeTip :
  triple (fun s => idle T0 (world_of s) /\ no_cached_proof s) (verifyReorg node rc fuel nodeTip)
    (fun _ s => exists c, Inv c (fun h _ t => h = None /\ at_fork_point t) s) Safe.
Proof.
  destruct (bounded_exists (blocks T0)) as (c & Hc).
  apply (triple_bind _ _ (fun _ => Inv c (fun _ _ t => t = T0))).
  { apply triple_puts. intros s [Hi Hn]. split; [|done]. exists T0. split; [|done].
    split; [|done]. split; [apply rollback_start|]. split.
    - eapply Forall_impl; [exact Hc|]. simpl. lia.
    - split; [by intros [? ?]|by left]. }
  intros []. eapply triple_bind.
  { eapply triple_conseq; [apply Inv_read; intros P; apply (brings_isReorgHalted (P := P))|done|
      intros b s H; exact H|by eauto]. }
  intros [|].
  - eapply (triple_bind _ _ (fun _ => Safe)); [intros s H; by eapply Inv_safe|intros reason].
    eapply (triple_bind _ _ (fun _ => Safe)); [by intros s Hs; exact Hs|intros now].
    eapply (triple_bind _ _ (fun _ => Safe)); [by apply triple_puts|intros []].
    by apply triple_raise.
  - eapply triple_bind.
    { eapply triple_conseq; [apply (triple_readPriorRollbackDepth c)| |
        intros n s H; exact H|done].
      intros s H. eapply Inv_impl; [exact H|]. by intros h n t _ [-> _]. }
    intros n s [Hs ->]. assert (H : Safe s) by eauto. revert s Hs H.
    enough (H : triple Safe (walkReorg node rc fuel nodeTip prior 0;; finishReorgRun;; mret true)
      (fun _ s => exists c, Inv c (fun h _ t => h = None /\ at_fork_point t) s) Safe)
      by (intros s _; apply H).
    eapply triple_bind; [apply triple_walkReorg|intros []].
    eapply triple_bind; [apply triple_finishReorgRun|intros []]. by apply triple_ret.
Qed.
End Walk.
