(* ===== verification/ReorgSafety.v ===== *)
(** * Properties of the reorg verification

    What verifyReorg may do to the database, whatever the node answers and whichever
    database calls fail; what a halt stops, and what lifts it; the depth a restart reads
    back. *)
From S2P Require Import Prelude JsNum Config Db DbRows Atomic Idle Dispensers DispenserReorg.
From S2P Require Import Halt Node ReorgWalk ReorgSpec ReorgFacts Sample.
#[local] Open Scope Z_scope.

(** ** A concrete fork

    Blocks 100 to 103 are stored; the node left the stored chain at 102. *)
Definition block_name (z : Z) : jstr := js "stored " ++ dec z.

Definition forked_tables : tables :=
  Tables [(1, [])] (map (fun z => (z, block_name z)) (seqZ 99 5))
    (map (fun z => BlockRow z (Some z) (Some z) (Some (z - 1))) (seqZ 100 4))
    [] [] [] [] [] [].

Definition forked_view : node_view := NodeView
  (fun z => HashIs (if z <=? 101 then block_name z else js "other " ++ dec z))
  (fun h => match h with
            | Some h => if eqs h (block_name 102) || eqs h (block_name 103)
                        then Header (Some (-1)) else Header (Some 7)
            | None => HeaderThrows true
            end)
  NoInfo 0.

Definition forked_node (_ : nat) : node_view := forked_view.

Definition sample_reorg_config (depth : Z) : reorg_config := ReorgConfig sample_config None depth.

Definition fresh_rstate (t : tables) (fs : list (option fault)) : rstate :=
  RState (idle_world t fs) 0 None 0 false None None 0 0 0 [] None None.

Section Safety.
Context (node : nat -> node_view) (rc : reorg_config).

Abbreviation start := (startBlockIndex (base_config rc)).

Lemma verifyReorg_safe fuel nodeTip T s :
  idle T (world_of s) -> no_cached_proof s ->
  match verifyReorg node rc fuel nodeTip s with
  | (RRet _, s') => exists c, Inv node rc T c (fun h _ t => h = None /\ at_fork_point node rc t) s'
  | (RBlocked, _) => False
  | (_, s') => Safe node rc T s'
  end.
Proof.
  intros Hi Hc. pose proof (triple_verifyReorg node rc T fuel nodeTip s (conj Hi Hc)) as H.
  by destruct (verifyReorg node rc fuel nodeTip s) as [[a|e| |] s'].
Qed.

(** Every outcome keeps the invariant. *)
Lemma verifyReorg_inv fuel nodeTip T s :
  idle T (world_of s) -> no_cached_proof s ->
  (verifyReorg node rc fuel nodeTip s).1 <> RBlocked
  /\ exists t c, idle t (world_of (verifyReorg node rc fuel nodeTip s).2)
     /\ tables_inv node rc T c (ghost_of (verifyReorg node rc fuel nodeTip s).2) t.
Proof.
  intros Hi Hc. pose proof (verifyReorg_safe fuel nodeTip T s Hi Hc) as H.
  destruct (verifyReorg node rc fuel nodeTip s) as [[a|e| |] s']; [| |done|];
    destruct H as (c & (t & [Ht _] & Hw) & _); (split; [done|by exists t, c]).
Qed.

(** C6: whatever the node answers and whichever database calls fail, verifyReorg never
    waits on the handle's own lock and leaves no transaction open, and what it does to
    the tables is a rollback: every block it removed lies at or above some height and at
    or above the start height, no block below it is touched, and the node was asked for
    each of them by its stored hash and answered confirmations -1. *)
Theorem verifyReorg_deletes_only_proven fuel nodeTip T s :
  idle T (world_of s) -> no_cached_proof s ->
  match verifyReorg node rc fuel nodeTip s with
  | (RBlocked, _) => False
  | (_, s') => exists t, idle t (world_of s') /\ rollback node start T t
                         /\ top_removed node start T t
  end.
Proof.
  intros Hi Hc. destruct (verifyReorg_inv fuel nodeTip T s Hi Hc) as (Hb & t & c & Ht & Hr & _).
  destruct (verifyReorg node rc fuel nodeTip s) as [[a|e| |] s']; [..|done|];
    (exists t; split; [exact Ht|]; split; [exact Hr|by eapply rollback_top]).
Qed.

(** C9: the blocks verifyReorg counts as deleted, with the depth already rolled back that
    it found in the tables, stay within one safe-depth window; within two, and only with
    a live halt row in the tables, when the halted walk goes on to the fork point. *)
Theorem verifyReorg_depth_ceiling fuel nodeTip T s :
  idle T (world_of s) -> no_cached_proof s ->
  let s' := (verifyReorg node rc fuel nodeTip s).2 in
  let depth := depth_above T + deleted_count s' in
  exists t, idle t (world_of s')
    /\ (deleted_count s' = 0 \/ depth <= safeDepthFor rc
        \/ (live_halt t /\ depth <= 2 * safeDepthFor rc)).
Proof.
  intros Hi Hc s' depth.
  destruct (verifyReorg_inv fuel nodeTip T s Hi Hc) as (_ & t & c & Ht & _ & _ & _ & Hu).
  by exists t.
Qed.

(** When verifyReorg returns, no halt is pending, and the highest block left is below
    the start height or one the node was heard to hold at its height. *)
Theorem verifyReorg_returns_at_fork fuel nodeTip T s b :
  idle T (world_of s) -> no_cached_proof s ->
  (verifyReorg node rc fuel nodeTip s).1 = RRet b ->
  exists t, idle t (world_of (verifyReorg node rc fuel nodeTip s).2)
    /\ haltError (verifyReorg node rc fuel nodeTip s).2 = None /\ at_fork_point node rc t.
Proof.
  intros Hi Hc E. pose proof (verifyReorg_safe fuel nodeTip T s Hi Hc) as H.
  destruct (verifyReorg node rc fuel nodeTip s) as [[a|e| |] s']; try done.
  destruct H as (c & (t & (_ & Hh & Hf) & Hw) & _). by exists t.
Qed.

(** While a halt row is live verifyReorg deletes nothing and never returns: it throws
    and leaves the tables as they were, whatever the node answers and whichever database
    calls fail. *)
Theorem verifyReorg_refuses_when_halted fuel nodeTip T s :
  idle T (world_of s) -> live_halt T ->
  match verifyReorg node rc fuel nodeTip s with
  | (RThrow _, s') => idle T (world_of s')
  | _ => False
  end.
Proof.
  intros Hi Hl. unfold verifyReorg, db, puts, mbind, W_bind. simpl.
  pose proof (brings_isReorgHalted (P := eq T) (world_of s) (ex_intro _ T (conj eq_refl Hi))) as H.
  destruct (isReorgHalted (world_of s)) as [[b|e|] w]; [| |done].
  - destruct H as (t & [<- ->] & Hw). by rewrite Hl.
  - by destruct H as (t & <- & Hw).
Qed.

(** C10: a restart reads back the depth of an interrupted rollback from the markers the
    deletions committed: on a contiguous table with a block left, and while the scan
    reaches every marker, it is the depth there was before plus the number of blocks
    missing, even for deletions whose acknowledgement was lost. *)
Theorem restart_depth_exact fuel nodeTip T s :
  idle T (world_of s) -> no_cached_proof s -> contiguous T ->
  exists t, idle t (world_of (verifyReorg node rc fuel nodeTip s).2)
    /\ (blocks t <> [] -> (length (reorg_heights (events t)) <= MARKER_SCAN_LIMIT)%nat ->
        depth_above t = depth_above T + missing T t).
Proof.
  intros Hi Hc Hcont. destruct (verifyReorg_inv fuel nodeTip T s Hi Hc) as (_ & t & c & Ht & Hr & _).
  exists t. split; [exact Ht|]. intros Hne Hlim. by eapply rollback_depth.
Qed.
End Safety.

(** ** Halts *)

Definition cleared_tables (reason : jstr) (T : tables) : tables :=
  with_events (fun l => l ++ [HaltClearedEvent (Some (trim reason))]) T.

(** An operator's clear lifts a live halt only when it names the row that is live; it
    then appends its audit row and the halt reads as lifted.  Otherwise the tables keep
    every row, and a clear reported as not done leaves at most that one audit row. *)
Theorem clear_lifts_only_the_named_halt T w reason pin :
  idle T w ->
  match clearReorgHalt reason (Some pin) w with
  | (Ret (ClearDone true), w') =>
      live_halt T /\ halt_id (state_of_events (events T)) = Some pin
      /\ idle (cleared_tables reason T) w' /\ ~ live_halt (cleared_tables reason T)
  | (Ret AlreadyClear, w') => ~ live_halt T /\ idle T w'
  | (Ret (Superseded id), w') => id = halt_id (state_of_events (events T)) /\ idle T w'
  | (Ret (ClearDone false), w') | (Throw _, w') =>
      idle T w' \/ idle (cleared_tables reason T) w'
  | (Blocked, _) => False
  end.
Proof.
  intros Hi. pose proof (brings_clearReorgHalt T reason (Some pin) w (ex_intro _ T (conj eq_refl Hi))) as H.
  destruct (clearReorgHalt reason (Some pin) w) as [[[[|]| |id]|e|] w'];
    [..|done]; destruct H as (t & H & Hw).
  - destruct H as (H1 & [H2|H2] & -> & H3); [done|]. by rewrite <- H2.
  - destruct H as [->| ->]; auto.
  - by destruct H as [H ->].
  - by destruct H as [-> H].
  - destruct H as [->| ->]; auto.
Qed.

(** Rows only ever being appended, a live halt stays live until a clear row whose
    payload carries an audit reason of at least eight characters. *)
Theorem halt_lifted_only_by_audit l l' :
  halted (state_of_events l) = true -> halted (state_of_events (l ++ l')) = false ->
  exists reason, HaltClearedEvent reason ∈ l' /\ isAuditedClear reason = true.
Proof. apply lifted_by_audit. Qed.

(** A deletion that took effect but whose COMMIT was not acknowledged is not counted,
    so a walk goes past the ceiling: with a window of one block, and one lost
    acknowledgement, verifyReorg returns with two blocks rolled back and no halt. *)
Theorem lost_commit_passes_ceiling :
  exists fs, let r := verifyReorg forked_node (sample_reorg_config 1) 20 None
                        (fresh_rstate forked_tables fs) in
  r.1 = RRet true /\ deleted_count r.2 = 1
  /\ missing forked_tables (live (world_of r.2)) = 2
  /\ halted (state_of_events (events (live (world_of r.2)))) = false.
Proof.
  exists (replicate 20 None ++ [Some (Fault (plain_error (js "socket closed")) true)]).
  by vm_compute.
Qed.

(** ** Concrete runs *)

Lemma fresh_idle t fs : idle t (world_of (fresh_rstate t fs)).
Proof. done. Qed.

Definition halted_tables : tables :=
  with_events (fun l => l ++ [HaltEvent (js "too deep")]) forked_tables.

Abbreviation sample_walk :=
  (verifyReorg forked_node (sample_reorg_config 126) 20 None (fresh_rstate forked_tables [])).

Lemma verifyReorg_deletes_only_proven_witness :
  idle forked_tables (world_of (fresh_rstate forked_tables []))
  /\ map b_index (blocks (live (world_of sample_walk.2))) = [100; 101]
  /\ top_removed forked_node 100 forked_tables (live (world_of sample_walk.2)).
Proof.
  split; [done|]. split; [by vm_compute|].
  pose proof (verifyReorg_deletes_only_proven forked_node (sample_reorg_config 126) 20 None
    forked_tables (fresh_rstate forked_tables []) (fresh_idle _ _) I) as H.
  assert (E : sample_walk.1 = RRet true) by by vm_compute.
  destruct (verifyReorg _ _ _ _ _) as [r s']. simpl in E. subst r.
  destruct H as (t & Hi & _ & H). simpl. by destruct Hi as (-> & _).
Defined.

Lemma verifyReorg_depth_ceiling_witness :
  idle forked_tables (world_of (fresh_rstate forked_tables []))
  /\ deleted_count (verifyReorg forked_node (sample_reorg_config 1) 20 None
                      (fresh_rstate forked_tables [])).2 = 2
  /\ exists t, idle t (world_of (verifyReorg forked_node (sample_reorg_config 1) 20 None
                      (fresh_rstate forked_tables [])).2) /\ live_halt t.
Proof.
  split; [done|]. assert (E : deleted_count (verifyReorg forked_node (sample_reorg_config 1) 20
    None (fresh_rstate forked_tables [])).2 = 2) by by vm_compute.
  split; [exact E|].
  destruct (verifyReorg_depth_ceiling forked_node (sample_reorg_config 1) 20 None forked_tables
    (fresh_rstate forked_tables []) (fresh_idle _ _) I) as (t & Hi & H).
  exists t. split; [exact Hi|]. rewrite E in H.
  assert (Hd : depth_above forked_tables = 0) by by vm_compute. rewrite Hd in H.
  change (safeDepthFor (sample_reorg_config 1)) with 1 in H.
  destruct H as [H|[H|[H _]]]; [lia|lia|exact H].
Defined.

Lemma verifyReorg_returns_at_fork_witness :
  sample_walk.1 = RRet true
  /\ exists t, idle t (world_of sample_walk.2)
               /\ at_fork_point forked_node (sample_reorg_config 126) t.
Proof.
  assert (E : sample_walk.1 = RRet true) by by vm_compute. split; [exact E|].
  destruct (verifyReorg_returns_at_fork forked_node (sample_reorg_config 126) 20 None forked_tables
    (fresh_rstate forked_tables []) true (fresh_idle _ _) I E) as (t & Hi & _ & H).
  exists t. split; [exact Hi|exact H].
Defined.

Lemma verifyReorg_refuses_when_halted_witness :
  live_halt halted_tables
  /\ match verifyReorg forked_node (sample_reorg_config 126) 20 None
             (fresh_rstate halted_tables []) with
     | (RThrow _, s') => idle halted_tables (world_of s')
     | _ => False
     end.
Proof.
  assert (H : live_halt halted_tables) by by vm_compute. split; [exact H|].
  exact (verifyReorg_refuses_when_halted forked_node (sample_reorg_config 126) 20 None
    halted_tables (fresh_rstate halted_tables []) (fresh_idle _ _) H).
Defined.

Lemma forked_contiguous : contiguous forked_tables.
Proof.
  split; [by exists 100, 4|]. intros b hash (x & Hx & <-).
  assert (Hb : b ∈ map b_index (blocks forked_tables)).
  { apply stored_iff_index. by exists (s_hash x), x. }
  change (map b_index (blocks forked_tables)) with [100; 101; 102; 103] in Hb.
  repeat (apply elem_of_cons in Hb as [->|Hb]; [by injection Hx as <-|]).
  by apply not_elem_of_nil in Hb.
Qed.

Lemma restart_depth_exact_witness :
  contiguous forked_tables
  /\ exists t, idle t (world_of sample_walk.2) /\ depth_above t = 0 + 2.
Proof.
  split; [exact forked_contiguous|].
  destruct (restart_depth_exact forked_node (sample_reorg_config 126) 20 None forked_tables
    (fresh_rstate forked_tables []) (fresh_idle _ _) I forked_contiguous) as (t & Hi & H).
  exists t. split; [exact Hi|].
  assert (Hm : missing forked_tables (live (world_of sample_walk.2)) = 2
    /\ blocks (live (world_of sample_walk.2)) <> []
    /\ (length (reorg_heights (events (live (world_of sample_walk.2)))) <= 2)%nat)
    by (split; [by vm_compute|split; [by vm_compute|apply Nat.leb_le; by vm_compute]]).
  destruct Hi as (Ht & _). rewrite Ht in Hm.
  destruct Hm as (Hm & Hne & Hlen). rewrite H, Hm; [by vm_compute|exact Hne|].
  unfold MARKER_SCAN_LIMIT. lia.
Defined.

Lemma clear_lifts_only_the_named_halt_witness :
  idle halted_tables (idle_world halted_tables [])
  /\ (clearReorgHalt (js "chain re-parsed") (Some 1) (idle_world halted_tables [])).1
     = Ret (ClearDone true)
  /\ ~ live_halt (cleared_tables (js "chain re-parsed") halted_tables).
Proof.
  assert (Hi : idle halted_tables (idle_world halted_tables [])) by done. split; [exact Hi|].
  pose proof (clear_lifts_only_the_named_halt halted_tables _ (js "chain re-parsed") 1 Hi) as H.
  assert (E : (clearReorgHalt (js "chain re-parsed") (Some 1) (idle_world halted_tables [])).1
    = Ret (ClearDone true)) by by vm_compute.
  split; [exact E|]. destruct (clearReorgHalt _ _ _) as [r w']. simpl in E. subst r. apply H.
Defined.

Lemma halt_lifted_only_by_audit_witness :
  halted (state_of_events (events halted_tables)) = true
  /\ exists reason, HaltClearedEvent reason ∈ [HaltClearedEvent (Some (js "chain re-parsed"))]
                    /\ isAuditedClear reason = true.
Proof.
  split; [by vm_compute|].
  apply (halt_lifted_only_by_audit (events halted_tables)); by vm_compute.
Defined.
