(* ===== verification/ReorgProgress.v ===== *)
(** * The walk reaches the fork point

    Against a node that answers, and a database that does not fail, verifyReorg deletes
    exactly the stored blocks above the fork point and returns. *)
From S2P Require Import Prelude JsNum Config Db DbRows Atomic Idle Dispensers DispenserReorg.
From S2P Require Import Halt Node ReorgWalk ReorgSpec ReorgFacts Sample ReorgSafety.
#[local] Open Scope Z_scope.

Section Progress.
Context (node : nat -> node_view) (rc : reorg_config) (T0 : tables).
Context (lo n : Z) (contiguous_blocks : map b_index (blocks T0) = seqZ lo n).

Abbreviation start := (startBlockIndex (base_config rc)).

(** The tables once every block from [c] up is gone. *)
Definition cut_at (c : Z) (t : tables) : Prop :=
  index_transactions t = index_transactions T0
  /\ blocks t = List.filter (fun x => b_index x <? c) (blocks T0).

Lemma cut_start : cut_at (lo + n) T0.
Proof.
  split; [done|]. symmetry. apply filter_all. apply Forall_forall. intros x Hx.
  apply Z.ltb_lt. assert (H : b_index x ∈ seqZ lo n).
  { rewrite <- contiguous_blocks. by apply list_elem_of_fmap_2. }
  apply elem_of_seqZ in H. lia.
Qed.

Lemma cut_tip c t : cut_at c t -> lo < c <= lo + n -> stored_tip t = c - 1.
Proof.
  intros [_ E] Hc. unfold stored_tip.
  rewrite E, map_filter_index, contiguous_blocks, filter_seqZ, max_of_seqZ; lia.
Qed.

Lemma find_below c z l :
  z < c -> find (fun x => b_index x =? z) (List.filter (fun x => b_index x <? c) l)
           = find (fun x => b_index x =? z) l.
Proof.
  intros Hz. induction l as [|x l IH]; simpl; [done|].
  destruct (b_index x <? c) eqn:E; simpl; destruct (b_index x =? z) eqn:Ez; try done.
  b2p. lia.
Qed.

Lemma cut_read c t z : cut_at c t -> z < c -> block_by_index z t = block_by_index z T0.
Proof.
  intros [Eh E] Hz. unfold block_by_index. by rewrite E, Eh, find_below.
Qed.

Lemma cut_delete c t hash :
  cut_at (c + 1) t -> cut_at c (delete_block_tables c hash t).
Proof.
  intros [Eh E]. split; [by rewrite deleted_hashes|]. rewrite deleted_blocks.
  rewrite (delete_top_filter (blocks T0) (c + 1) c t); [by rewrite Z.min_r by lia| |done].
  unfold bounded. rewrite E. apply Forall_forall. intros x Hx.
  apply list_elem_of_In, filter_In in Hx as [_ Hx]. b2p. lia.
Qed.

(** ** One pass *)

(** A database that does not fail, and no answer cached. *)
Definition calm (t : tables) (ids : Z * Z) (st : decoder_stats) (k : nat)
    (s : rstate) (deleted : list (Z * option jstr)) : rstate :=
  RState (World t None false false ids.1 ids.2 [] st) k None (chainGenesisCheckedAt s)
    (reorgHalted s) (reorgHaltReason s) (reorgHaltMarkerPersisted s)
    (reorgHaltCheckedAt s) (reorgCount s) (lastReorgDepth s) deleted None None.

Definition reaches (tip : Z) (nodeTip : option Z) : Prop :=
  match nodeTip with Some t => tip <= t | None => True end.

Section Pass.
Context (nodeTip : option Z) (prior : Z) (ids : Z * Z) (st : decoder_stats) (s : rstate).

Lemma pass_checks t k deleted x r :
  block_by_index (stored_tip t) t = Some x -> start <= stored_tip t ->
  reaches (stored_tip t) nodeTip ->
  walk_pass node rc nodeTip prior r (calm t ids st k s deleted)
  = checkStoredBlock node rc (stored_tip t) x nodeTip prior r (calm t ids st k s deleted).
Proof.
  intros Hx Hs Hr. unfold walk_pass, gets, mbind, W_bind.
  change (haltError (calm t ids st k s deleted)) with (@None jstr). cbn beta iota.
  assert (E : readLastStoredBlock (calm t ids st k s deleted)
    = (RRet (Some (stored_tip t, block_by_index (stored_tip t) t)), calm t ids st k s deleted))
    by reflexivity.
  rewrite Hx in E. rewrite E. cbn beta iota.
  replace (stored_tip t <? start) with false by (symmetry; apply Z.ltb_ge; lia).
  destruct nodeTip as [m|]; [|done]. simpl in Hr.
  by replace (m <? stored_tip t) with false by (symmetry; apply Z.ltb_ge; lia).
Qed.

Lemma pass_stops t k deleted x r h :
  block_by_index (stored_tip t) t = Some x -> s_hash x = Some h ->
  start <= stored_tip t -> reaches (stored_tip t) nodeTip ->
  (forall k, getBlockHash (node k) (stored_tip t) = HashIs h) ->
  walk_pass node rc nodeTip prior r (calm t ids st k s deleted)
  = (RRet Finished, calm t ids st (S k) s deleted).
Proof.
  intros Hx Hh Hs Hr Hn. erewrite pass_checks by done.
  unfold checkStoredBlock, ask, mbind, W_bind. rewrite Hn, Hh. simpl. by rewrite eqs_refl.
Qed.

Lemma pass_deletes t k deleted x r h c :
  block_by_index (stored_tip t) t = Some x -> s_hash x = Some h ->
  start <= stored_tip t -> reaches (stored_tip t) nodeTip ->
  (forall k, getBlockHash (node k) (stored_tip t) = HashIs c) -> h <> c ->
  (forall k, getBlockHeader (node k) (Some h) = Header (Some (-1))) ->
  prior + Z.of_nat (length deleted) < safeDepthFor rc ->
  walk_pass node rc nodeTip prior r (calm t ids st k s deleted)
  = (RRet (Again nodeTip 0),
     calm (delete_block_tables (stored_tip t) (Some h) t) ids st (S (S (S k))) s
       (deleted ++ [(stored_tip t, Some h)])).
Proof.
  intros Hx Hh Hs Hr Hn Hne Hv Hd. erewrite pass_checks by done.
  unfold checkStoredBlock, deleteForkedBlock, requireReorgProof, proveForkReorgedAway,
    proveReorgedAway, assertWithinSafeDepth, deletedCount, ask, gets, puts.
  unfold mbind, W_bind. rewrite Hn, Hh.
  replace (same_hash (Some h) (HashIs c)) with false
    by (symmetry; by apply eqs_false).
  cbn -[deleteOrCount]. rewrite Hv. cbn -[deleteOrCount].
  replace (safeDepthFor rc <=? _) with false by (symmetry; apply Z.leb_gt; lia).
  reflexivity.
Qed.
End Pass.

(** ** The whole walk

    The node holds the stored block at [f], answers another hash at every stored height
    above it, and knows each of those stored blocks as reorged away. *)
Record fork_seen (f : Z) (name chain : Z -> jstr) : Prop := {
  fork_range : lo <= f < lo + n;
  fork_start : start <= f;
  fork_stored z : f <= z < lo + n ->
    exists x, block_by_index z T0 = Some x /\ s_hash x = Some (name z);
  fork_answers z k : f <= z < lo + n -> getBlockHash (node k) z = HashIs (chain z);
  fork_agrees : name f = chain f;
  fork_differs z : f < z < lo + n -> name z <> chain z;
  fork_proved z k : f < z < lo + n -> getBlockHeader (node k) (Some (name z)) = Header (Some (-1))
}.

Lemma walk_reaches f name chain nodeTip prior ids st s d :
  fork_seen f name chain -> reaches (lo + n - 1) nodeTip ->
  forall fuel t k deleted r,
  cut_at (f + 1 + Z.of_nat d) t -> f + Z.of_nat d < lo + n ->
  prior + Z.of_nat (length deleted) + Z.of_nat d <= safeDepthFor rc -> (d < fuel)%nat ->
  exists t' k' deleted',
    walkReorg node rc fuel nodeTip prior r (calm t ids st k s deleted)
    = (RRet tt, calm t' ids st k' s deleted')
    /\ cut_at (f + 1) t' /\ length deleted' = (length deleted + d)%nat.
Proof.
  intros Hf Hr. pose proof (fork_range _ _ _ Hf) as Hrange. pose proof (fork_start _ _ _ Hf) as Hstart.
  induction d as [|d IH]; intros fuel t k deleted r Hcut Hle Hdepth Hfuel;
    (destruct fuel as [|fuel]; [lia|]); simpl walkReorg; unfold mbind at 1, W_bind at 1;
    pose proof (cut_tip _ _ Hcut ltac:(lia)) as Htip;
    (destruct (fork_stored _ _ _ Hf (stored_tip t)) as (x & Hx & Hh); [lia|]);
    rewrite <- (cut_read _ _ (stored_tip t) Hcut) in Hx by lia;
    (assert (Hreach : reaches (stored_tip t) nodeTip) by (destruct nodeTip; simpl in *; [lia|done])).
  - assert (E : stored_tip t = f) by lia. erewrite (pass_stops nodeTip prior ids st s t k deleted x r);
      [|done|exact Hh|lia|done|].
    + exists t, (S k), deleted. split; [done|]. split; [|lia].
      by replace (f + 1) with (f + 1 + Z.of_nat 0) by lia.
    + intros k'. rewrite (fork_answers _ _ _ Hf) by lia. by rewrite E, (fork_agrees _ _ _ Hf).
  - erewrite (pass_deletes nodeTip prior ids st s t k deleted x r); [|done|exact Hh|lia|done| | | |lia].
    + destruct (IH fuel (delete_block_tables (stored_tip t) (Some (name (stored_tip t))) t)
        (S (S (S k))) (deleted ++ [(stored_tip t, Some (name (stored_tip t)))]) 0)
        as (t' & k' & deleted' & E & Hc & Hl); [..|by rewrite length_app in Hl; simpl in Hl;
          exists t', k', deleted'; split; [exact E|split; [done|lia]]].
      * replace (f + 1 + Z.of_nat d) with (stored_tip t) by lia. apply cut_delete.
        by replace (stored_tip t + 1) with (f + 1 + Z.of_nat (S d)) by lia.
      * lia.
      * rewrite length_app. simpl. lia.
      * lia.
    + intros k'. by apply (fork_answers _ _ _ Hf); lia.
    + apply (fork_differs _ _ _ Hf). lia.
    + intros k'. apply (fork_proved _ _ _ Hf). lia.
Qed.
End Progress.

(** C8: against a node that answers and a database that does not fail, verifyReorg deletes
    exactly the stored blocks above the fork point, counts each of them, and returns,
    whenever the rollback fits the safe-depth window; one pass of the loop per block and
    one more are enough. *)
Theorem verifyReorg_reaches_fork node rc T lo n f name chain nodeTip ids st s fuel :
  world_of s = World T None false false ids.1 ids.2 [] st -> forkProofCache s = None ->
  ~ live_halt T ->
  map b_index (blocks T) = seqZ lo n -> fork_seen node rc T lo n f name chain ->
  reaches (lo + n - 1) nodeTip ->
  depth_above T + (lo + n - 1 - f) <= safeDepthFor rc ->
  lo + n - 1 - f < Z.of_nat fuel ->
  exists s' t,
    verifyReorg node rc fuel nodeTip s = (RRet true, s')
    /\ idle t (world_of s') /\ blocks t = List.filter (fun x => b_index x <? f + 1) (blocks T)
    /\ deleted_count s' = lo + n - 1 - f.
Proof.
  intros Hw Hc Hl Hcont Hf Hr Hd Hfuel. pose proof (fork_range _ _ _ _ _ _ _ _ Hf) as Hrange.
  set (d := Z.to_nat (lo + n - 1 - f)).
  destruct (walk_reaches node rc T lo n Hcont f name chain nodeTip (depth_above T) ids st s d Hf Hr
    fuel T (tick s) [] 0) as (t' & k' & deleted & E & [_ Hcut] & Hlen); [|lia|simpl; lia|lia|].
  { replace (f + 1 + Z.of_nat d) with (lo + n) by lia. by apply cut_start. }
  assert (Es : verifyReorg node rc fuel nodeTip s
    = (walkReorg node rc fuel nodeTip (depth_above T) 0;; finishReorgRun;; mret true)
        (calm T ids st (tick s) s [])).
  { destruct s as [w k c g rh rr rm rc' ct ld bd he hs]. simpl in Hw, Hc. subst w c.
    unfold verifyReorg at 1. unfold mbind at 1, W_bind at 1. cbn [puts].
    unfold mbind at 1, W_bind at 1.
    assert (H1 : db isReorgHalted (calm T ids st k (RState
        (World T None false false ids.1 ids.2 [] st) k None g rh rr rm rc' ct ld bd he hs) [])
      = (RRet (halted (state_of_events (events T))), calm T ids st k (RState
        (World T None false false ids.1 ids.2 [] st) k None g rh rr rm rc' ct ld bd he hs) []))
      by reflexivity.
    change (with_walk None None (with_deleted [] _)) with (calm T ids st k (RState
        (World T None false false ids.1 ids.2 [] st) k None g rh rr rm rc' ct ld bd he hs) []).
    rewrite H1. unfold live_halt in Hl. destruct (halted _); [done|]. reflexivity. }
  rewrite Es. unfold mbind at 1, W_bind at 1. rewrite E.
  unfold finishReorgRun, deletedCount, gets, mbind, W_bind. cbn -[Z.of_nat].
  simpl in Hlen. destruct (0 <? Z.of_nat (length deleted)); (eexists _, t'; split; [reflexivity|]);
    (split; [done|]; split; [exact Hcut|]); unfold deleted_count; simpl; lia.
Qed.

Definition forked_chain (z : Z) : jstr := if z <=? 101 then block_name z else js "other " ++ dec z.

Lemma forked_seen :
  fork_seen forked_node (sample_reorg_config 126) forked_tables 100 4 101 block_name forked_chain.
Proof.
  assert (Hz : forall z, 101 <= z < 104 -> z = 101 \/ z = 102 \/ z = 103) by lia.
  constructor.
  - lia.
  - by vm_compute.
  - intros z H. destruct (Hz z H) as [->|[->| ->]]; by eexists.
  - done.
  - done.
  - intros z H. destruct (Hz z) as [->|[->| ->]]; [lia|lia|by vm_compute..].
  - intros z k H. destruct (Hz z) as [->|[->| ->]]; [lia|lia|by vm_compute..].
Qed.

Lemma verifyReorg_reaches_fork_witness :
  depth_above forked_tables + (100 + 4 - 1 - 101) <= safeDepthFor (sample_reorg_config 126)
  /\ exists s' t,
    verifyReorg forked_node (sample_reorg_config 126) 3 None (fresh_rstate forked_tables [])
    = (RRet true, s') /\ idle t (world_of s')
    /\ blocks t = List.filter (fun x => b_index x <? 101 + 1) (blocks forked_tables).
Proof.
  assert (Hd : depth_above forked_tables + (100 + 4 - 1 - 101)
    <= safeDepthFor (sample_reorg_config 126)) by (apply Z.leb_le; by vm_compute).
  split; [exact Hd|].
  destruct (verifyReorg_reaches_fork forked_node (sample_reorg_config 126) forked_tables 100 4 101
    block_name forked_chain None (2, 2) fresh_stats (fresh_rstate forked_tables []) 3)
    as (s' & t & H1 & H2 & H3 & _);
    [reflexivity|reflexivity|by vm_compute|reflexivity|exact forked_seen|exact I|exact Hd|lia|].
  exists s', t. split; [exact H1|]. split; [exact H2|exact H3].
Defined.
