(* ===== verification/LoopState.v ===== *)
(** * The state of the parse loop

    The fields of [loop] (src/src/XChainDecoder/startup.js, readLoopCursors and
    initialLoopLatches) and of the decoder object (src/src/XChainDecoder.js) the parse loop
    keeps between blocks, and computations over them.

    [loop.lastProcessedBlockIndex] and [this.lastProcessedBlockIndex] are always assigned
    together and are one field.  Left out: the log-only latch startTimeStamp, reorgHaltAt
    and reorgHaltClearedAt (texts of wall-clock times, never read back), and the
    in-flight probe, which only joins probes that run at the same time. *)
From S2P Require Import Prelude JsNum Config Db DbRows Ingest BlockStore Halt Node ReorgWalk.
#[local] Open Scope Z_scope.
#[local] Open Scope update_scope.

#[export] Instance eta_loop_state : Eta loop_state := fun l => LoopState
  (lastProcessedTxIndex l) (validTransactionsCount l) (txParseRetryCounts l)
  (insertQuarantineCounts l) (insertQuarantine l) (parseQuarantine l).

#[export] Instance eta_batch : Eta batch := fun b => Batch (loop b) (blocksQuantity b)
  (lastProcessedBlockIndex b) (blocksCount b) (transactionsCount b) (outputCount b).

#[export] Instance refusal_eq_dec : EqDecision refusal.
Proof. solve_decision. Defined.

(** ** The fields of [loop] other than the block counters *)
Record latches := Latches {
  lastBlockchainInfo : option chain_info;
  lastBlockchainInfoRefreshAt : Z;
  tipHashCheckedAt : Z;
  nodeSyncedProblem : bool;
  nodeCatchingUpProblem : bool;
  tipBelowStoredTipRefused : option refusal;        (* [None] is [false] *)
  wrongChainProblem : bool;
  wrongGenesisProblem : bool;
  chainFieldMissingLogged : bool
}.

#[export] Instance eta_latches : Eta latches := fun l => Latches (lastBlockchainInfo l)
  (lastBlockchainInfoRefreshAt l) (tipHashCheckedAt l) (nodeSyncedProblem l)
  (nodeCatchingUpProblem l) (tipBelowStoredTipRefused l) (wrongChainProblem l)
  (wrongGenesisProblem l) (chainFieldMissingLogged l).

Definition initialLoopLatches : latches := Latches None 0 0 false false None false false false.

(** ** The halt park *)
Record park := Park {
  reorgHaltParked : bool;
  reorgHaltParkedAt : option Z;
  reorgHaltParkedHeight : option Z;
  reorgHaltParkUnread : bool;
  unreadParkProbeAt : Z;
  reorgHaltProbeFailed : option bool;               (* [None]: never probed *)
  reorgHaltParkCheckDue : bool;
  reorgHaltClearedReason : option jstr
}.

#[export] Instance eta_park : Eta park := fun p => Park (reorgHaltParked p)
  (reorgHaltParkedAt p) (reorgHaltParkedHeight p) (reorgHaltParkUnread p)
  (unreadParkProbeAt p) (reorgHaltProbeFailed p) (reorgHaltParkCheckDue p)
  (reorgHaltClearedReason p).

Definition fresh_park : park := Park false None None false 0 None false None.

(** ** The waits published on the health surfaces *)
Record catching_up := CatchingUp { node_height : Z; stored_height : Z; catching_since : Z }.

Record reorg_wait := ReorgWait {
  wait_height : Z; wait_hash : option jstr; wait_class : refusal; wait_since : Z
}.

(** ** The other fields of the decoder *)
Record progress := Progress {
  blockchainInfoLastBlock : Z;
  blockchainInfoLastRefreshAt : Z;                  (* 0: never fetched *)
  synced : bool;
  mempoolInterval : bool;                           (* the timer is set *)
  nodeCatchingUp : option catching_up;
  reorgWait : option reorg_wait;
  fetchErrorHeight : option Z;
  fetchErrorCount : Z;
  auxPowParseErrorCount : Z;
  lastAdvanceAt : Z;
  lastLadderStepAt : Z;
  lastPollAt : Z;
  nodeHeightStaleLogged : bool;
  stopFlag : bool
}.

#[export] Instance eta_progress : Eta progress := fun p => Progress
  (blockchainInfoLastBlock p) (blockchainInfoLastRefreshAt p) (synced p) (mempoolInterval p)
  (nodeCatchingUp p) (reorgWait p) (fetchErrorHeight p) (fetchErrorCount p)
  (auxPowParseErrorCount p) (lastAdvanceAt p) (lastLadderStepAt p) (lastPollAt p)
  (nodeHeightStaleLogged p) (stopFlag p).

(** initializeDecoderProgress, initializeDecoderReorg and initializeDecoderHaltState. *)
Definition fresh_progress : progress :=
  Progress (-1) 0 false false None None None 0 0 0 0 0 false false.

(** ** The whole state, and computations over it *)
Record lstate := LState {
  reorg_of : rstate;        (* the database, the questions asked, the reorg fields *)
  batch_of : batch;
  latches_of : latches;
  park_of : park;
  progress_of : progress
}.

#[export] Instance eta_lstate : Eta lstate := fun s =>
  LState (reorg_of s) (batch_of s) (latches_of s) (park_of s) (progress_of s).

Abbreviation cursor s := (lastProcessedBlockIndex (batch_of s)).
Abbreviation parked s := (reorgHaltParked (park_of s)).
Abbreviation nodeTip s := (blockchainInfoLastBlock (progress_of s)).

Definition L (A : Type) : Type := lstate -> rres A * lstate.

#[export] Instance L_ret : MRet L := fun A a s => (RRet a, s).
#[export] Instance L_bind : MBind L := fun A B k m s =>
  match m s with
  | (RRet a, s') => k a s'
  | (RThrow e, s') => (RThrow e, s')
  | (RBlocked, s') => (RBlocked, s')
  | (OutOfFuel, s') => (OutOfFuel, s')
  end.

Definition lraise {A} (e : rerror) : L A := fun s => (RThrow e, s).

Definition ltry {A} (m : L A) (h : rerror -> L A) : L A := fun s =>
  match m s with
  | (RThrow e, s') => h e s'
  | r => r
  end.

(** A computation over the database and the node. *)
Definition lift {A} (m : W A) : L A := fun s =>
  let '(r, rs) := m (reorg_of s) in (r, s <| reorg_of := rs |>).

Definition ldb {A} (m : M A) : L A := lift (db m).

Definition lgets {A} (f : lstate -> A) : L A := fun s => (RRet (f s), s).

Definition on_reorg (f : rstate -> rstate) : L unit := fun s =>
  (RRet tt, s <| reorg_of ::= f |>).
Definition on_batch (f : batch -> batch) : L unit := fun s =>
  (RRet tt, s <| batch_of ::= f |>).
Definition on_latches (f : latches -> latches) : L unit := fun s =>
  (RRet tt, s <| latches_of ::= f |>).
Definition on_park (f : park -> park) : L unit := fun s =>
  (RRet tt, s <| park_of ::= f |>).
Definition on_progress (f : progress -> progress) : L unit := fun s =>
  (RRet tt, s <| progress_of ::= f |>).

(** ** Cursors *)

Definition set_cursor (height : Z) : L unit :=
  on_batch (fun b => b <| lastProcessedBlockIndex := height |>).

Definition set_tx_index (i : Z) : L unit :=
  on_batch (fun b => b <| loop ::= fun l => l <| lastProcessedTxIndex := i |> |>).

Definition resetBatchCounters (b : batch) : batch :=
  b <| blocksQuantity := 0 |> <| blocksCount := 0 |> <| transactionsCount := 0 |>
    <| outputCount := 0 |> <| loop ::= fun l => l <| validTransactionsCount := 0 |> |>.

(** What rollBackDetectedReorg and reconcileOrphanBlocks reset. *)
Definition reset_after_reorg (b : batch) : batch :=
  b <| blocksQuantity := 0 |> <| transactionsCount := 0 |> <| outputCount := 0 |>
    <| loop ::= fun l => l <| validTransactionsCount := 0 |> |>.

Section Cursors.
Context (cfg : decoder_config).

(** The cursors re-read from the tables. *)
Definition reread_cursors : L unit :=
  last ← ldb getLastBlockIndex;
  set_cursor (Z.max last (startBlockIndex cfg - 1));;
  tx ← ldb getLastTxIndex;
  set_tx_index tx.
End Cursors.

(** The answers of the node and the clock. *)
Definition lask {A} (node : nat -> node_view) (f : node_view -> A) : L A := lift (ask node f).
