(* ===== verification/HaltPark.v ===== *)
(** * The halt park

    The halt probe and the park of src/src/XChainDecoder/chain_integrity.js, and the steps
    of src/src/XChainDecoder/sync_loop.js that enter and leave it.

    A refusal to roll back parks the loop instead of ending the process: nothing is fetched,
    deleted or inserted until the durable marker reads as cleared.  Log lines are left out,
    with the [resetOnly] flag, which chooses their wording: no refusal the walk throws sets
    it, so parkOrRethrow always asks for the depth before it parks. *)
From S2P Require Import Prelude JsNum Config Db DbRows Ingest BlockStore Halt Node ReorgWalk.
From S2P Require Import LoopState.
#[local] Open Scope Z_scope.
#[local] Open Scope update_scope.

Definition REORG_HALT_PROBE_INTERVAL_MS : Z := 60000.
Definition UNREAD_PARK_REPROBE_MS : Z := 5000.

(** ** The status *)

Record halt_status := HaltStatus {
  st_halted : bool;
  st_reason : option jstr;
  st_parked : bool;
  st_parked_at : option Z;
  st_parked_height : option Z;
  st_cleared_reason : option jstr;
  st_checked_at : option Z;
  st_marker_persisted : option bool
}.

(** [x || null] of a time. *)
Definition nonzero (t : Z) : option Z := if t =? 0 then None else Some t.

Definition getReorgHaltStatus (s : lstate) : halt_status :=
  HaltStatus (reorgHalted (reorg_of s)) (truthy_text (reorgHaltReason (reorg_of s))) (parked s)
    (reorgHaltParkedAt (park_of s)) (reorgHaltParkedHeight (park_of s))
    (truthy_text (reorgHaltClearedReason (park_of s)))
    (nonzero (reorgHaltCheckedAt (reorg_of s))) (reorgHaltMarkerPersisted (reorg_of s)).

(** ** The probe *)

(** A halt this process raised and could not record. *)
Definition unrecorded_halt (s : rstate) : bool :=
  reorgHalted s && bool_decide (reorgHaltMarkerPersisted s = Some false).

(** What a real read of the marker sets. *)
Definition adopt_marker (marker : halt_state) (now : Z) (s : rstate) : rstate :=
  s <| reorgHalted := halted marker |> <| reorgHaltReason := truthy_text (halt_reason marker) |>
    <| reorgHaltCheckedAt := now |>
    <| reorgHaltMarkerPersisted ::= fun p => if halted marker then Some true else p |>.

Definition probe (now : Z) : L halt_status :=
  marker ← ltry (m ← ldb readReorgHaltState; mret (Some m)) (fun _ => mret None);
  match (marker : option halt_state) with
  | None =>
      on_park (fun p => p <| reorgHaltProbeFailed := Some true |>);;
      lgets getReorgHaltStatus
  | Some m =>
      on_park (fun p => p <| reorgHaltProbeFailed := Some false |>);;
      keep ← lgets (fun s => unrecorded_halt (reorg_of s) && negb (halted m));
      if (keep : bool) then
        on_reorg (fun s => s <| reorgHaltCheckedAt := now |>);;
        lgets getReorgHaltStatus
      else
        wasHalted ← lgets (fun s => reorgHalted (reorg_of s));
        on_reorg (adopt_marker m now);;
        on_park (fun p => p <| reorgHaltClearedReason := truthy_text (cleared_reason m) |>
                            <| reorgHaltParkCheckDue ::= fun due =>
                                 due || (halted m && negb wasHalted) |>);;
        lgets getReorgHaltStatus
  end.

Definition checkReorgHalt (force : bool) (now : Z) : L halt_status :=
  checked ← lgets (fun s => reorgHaltCheckedAt (reorg_of s));
  if negb force && (0 <? checked) && (now - checked <? REORG_HALT_PROBE_INTERVAL_MS)
  then lgets getReorgHaltStatus
  else probe now.

Section Park.
Context (node : nat -> node_view) (cfg : decoder_config).

(** ** Entering the park *)

Definition parkOnReorgHalt (blockHeight : Z) (unread : bool) : L unit :=
  already ← lgets (fun s => parked s);
  if (already : bool) then mret tt
  else
    now ← lask node clock;
    on_park (fun p =>
      p <| reorgHaltParked := true |> <| reorgHaltParkedAt := Some now |>
        <| reorgHaltParkedHeight := if 0 <=? blockHeight then Some blockHeight else None |>
        <| reorgHaltParkUnread := unread |>).

(** [true]: it parked. *)
Definition parkOnRolledBackHalt : L bool :=
  already ← lgets (fun s => parked s);
  if (already : bool) then mret false
  else
    failed ← lgets (fun s => reorgHaltProbeFailed (park_of s));
    height ← lgets (fun s => cursor s);
    if bool_decide (failed = Some true) then parkOnReorgHalt height true;; mret true
    else
      live ← lgets (fun s => reorgHalted (reorg_of s));
      if negb live then mret false
      else
        rolledBack ← ldb readRolledBackAboveTip;
        if bool_decide (rolledBack = Some 0) then mret false
        else parkOnReorgHalt height false;; mret true.

(** ** Leaving the park *)

Definition unpark (p : park) : park :=
  p <| reorgHaltParked := false |> <| reorgHaltParkedAt := None |>
    <| reorgHaltParkedHeight := None |>.

Definition resumeFromUnreadPark : L bool :=
  now ← lask node clock;
  last ← lgets (fun s => unreadParkProbeAt (park_of s));
  if (0 <? last) && (now - last <? UNREAD_PARK_REPROBE_MS) then mret false
  else
    on_park (fun p => p <| unreadParkProbeAt := now |>);;
    status ← checkReorgHalt true now;
    failed ← lgets (fun s => reorgHaltProbeFailed (park_of s));
    if negb (bool_decide (failed = Some false)) then mret false
    else
      on_park (fun p => (unpark p) <| unreadParkProbeAt := 0 |> <| reorgHaltParkUnread := false |>);;
      if st_halted status then again ← parkOnRolledBackHalt; mret (negb again)
      else mret true.

(** [true]: the loop may parse. *)
Definition resumeFromReorgHaltPark : L bool :=
  held ← lgets (fun s => parked s);
  if negb held then mret true
  else
    unread ← lgets (fun s => reorgHaltParkUnread (park_of s));
    if (unread : bool) then resumeFromUnreadPark
    else
      persisted ← lgets (fun s => reorgHaltMarkerPersisted (reorg_of s));
      if bool_decide (persisted = Some false) then mret false
      else
        now ← lask node clock;
        status ← checkReorgHalt false now;
        if st_halted status then mret false
        else on_park unpark;; mret true.

(** ** The steps of the loop *)

Definition setReorgWait (height : Z) (hash : option jstr) (class : refusal) : L unit :=
  now ← lask node clock;
  on_progress (fun p =>
    let since := match reorgWait p with
                 | Some w => if (wait_height w =? height)
                                && bool_decide (wait_hash w = truthy_text hash)
                                && bool_decide (wait_class w = class)
                             then wait_since w else now
                 | None => now
                 end in
    p <| reorgWait := Some (ReorgWait height (truthy_text hash) class since) |>).

(** A wait is published, a halt parks, anything else goes on. *)
Definition parkOrRethrow (err : rerror) : L unit :=
  match err with
  | WaitError height hash class =>
      setReorgWait height hash class;;
      on_latches (fun l => l <| tipBelowStoredTipRefused := Some class |>)
  | HaltError _ =>
      ltry (reread_cursors cfg;; on_batch resetBatchCounters) (fun _ => mret tt);;
      ldb readRolledBackAboveTip;;
      height ← lgets (fun s => cursor s);
      parkOnReorgHalt height false
  | Failure e => lraise (Failure e)
  end.

Definition leaveReorgHaltPark : L unit :=
  resumed ← resumeFromReorgHaltPark;
  if negb resumed then mret tt
  else
    reread_cursors cfg;;
    on_batch resetBatchCounters;;
    on_latches (fun l => l <| lastBlockchainInfo := None |>).

(** [true]: the loop must not parse in this pass. *)
Definition reorgHaltHoldsLoop : L bool :=
  due ← lgets (fun s => reorgHaltParkCheckDue (park_of s));
  (if (due : bool) then
     on_park (fun p => p <| reorgHaltParkCheckDue := false |>);;
     parkOnRolledBackHalt;; mret tt
   else mret tt);;
  held ← lgets (fun s => parked s);
  if negb held then mret false else leaveReorgHaltPark;; mret true.

(** A reconcile that ended well: no wait is published any more. *)
Definition clear_wait : L unit :=
  on_progress (fun p => p <| reorgWait := None |>);;
  on_latches (fun l => l <| tipBelowStoredTipRefused := None |>).
End Park.
