(* ===== verification/TipRefresh.v ===== *)
(** * The node's tip

    src/src/XChainDecoder/tip_refresh.js: the gates a tip reading passes before its height
    is used, and the reconcile of a node tip below the stored one.

    [true] stands for 'continue': the pass ends here.  Log lines and sleeps are left out. *)
From S2P Require Import Prelude JsNum Config Db DbRows Ingest BlockStore Halt Node ReorgWalk.
From S2P Require Import LoopState HaltPark.
#[local] Open Scope Z_scope.
#[local] Open Scope update_scope.

Definition BLOCKCHAIN_INFO_REFRESH_MS : Z := 30000.

Section TipRefresh.
Context (node : nat -> node_view) (rc : reorg_config) (fuel : nat).

Abbreviation cfg := (base_config rc).

Definition set_info (i : option chain_info) : L unit :=
  on_latches (fun l => l <| lastBlockchainInfo := i |>).

(** ** The gates *)

Definition refuseForeignTier (info : chain_info) : L bool :=
  if chainTierMismatch (consensusNetwork cfg) (info_chain info) then
    on_latches (fun l => l <| wrongChainProblem := true |> <| lastBlockchainInfo := None |>);;
    mret true
  else on_latches (fun l => l <| wrongChainProblem := false |>);; mret false.

Definition noteMissingChainField (info : chain_info) : L unit :=
  on_latches (fun l => if chainFieldMissing (info_chain info)
                       then l <| chainFieldMissingLogged := true |> else l).

Definition refuseForeignGenesis : L bool :=
  mismatch ← lift (verifyChainGenesis node (chainGenesisHash rc));
  if (mismatch : bool) then
    on_latches (fun l => l <| wrongGenesisProblem := true |> <| lastBlockchainInfo := None |>);;
    mret true
  else on_latches (fun l => l <| wrongGenesisProblem := false |>);; mret false.

(** At most once in [BLOCKCHAIN_INFO_REFRESH_MS], when a hash is pinned. *)
Definition genesisDue : L bool :=
  if chainGenesisUnpinned (chainGenesisHash rc) then mret false
  else
    now ← lask node clock;
    checked ← lgets (fun s => chainGenesisCheckedAt (reorg_of s));
    mret (BLOCKCHAIN_INFO_REFRESH_MS <=? now - checked).

Definition refuseUnsyncedNode (info : chain_info) : L bool :=
  if below_parse_threshold info then
    on_latches (fun l => l <| lastBlockchainInfo := None |> <| nodeSyncedProblem := true |>);;
    mret true
  else on_latches (fun l => l <| nodeSyncedProblem := false |>);; mret false.

Definition acceptTip (blocks : Z) : L unit :=
  on_progress (fun p => p <| blockchainInfoLastBlock := blocks |>);;
  now ← lask node clock;
  on_latches (fun l => l <| lastBlockchainInfoRefreshAt := now |>);;
  on_progress (fun p => p <| blockchainInfoLastRefreshAt := now |>).

(** A call that throws leaves the previous reply. *)
Definition fetchChainTip : L bool :=
  a ← lask node getBlockchainInfo;
  match (a : info_answer) with
  | InfoThrows => mret true
  | NoInfo => set_info None;; mret true
  | Info info =>
      match info_blocks info with
      | None => set_info None;; mret true
      | Some blocks =>
          if negb (blockchainInfoWellFormed info) then set_info None;; mret true
          else
            set_info (Some info);;
            foreign ← refuseForeignTier info;
            if (foreign : bool) then mret true
            else
              noteMissingChainField info;;
              due ← genesisDue;
              refused ← (if (due : bool) then refuseForeignGenesis else mret false);
              if (refused : bool) then mret true
              else
                unsynced ← refuseUnsyncedNode info;
                if (unsynced : bool) then mret true
                else acceptTip blocks;; mret false
      end
  end.

(** ** A tip below the stored one *)

(** One more reading; [None] is one that a gate refuses. *)
Definition rereadTip : L (option Z) :=
  refused ← fetchChainTip;
  if (refused : bool) then mret None
  else
    info ← lgets (fun s => lastBlockchainInfo (latches_of s));
    if match (info : option chain_info) with Some i => nodeStillCatchingUp i | None => false end
    then mret None
    else tip ← lgets (fun s => nodeTip s); mret (Some tip).

(** [true]: two readings agree on a tip below [lastProcessed]. *)
Definition settleTipBelow (lastProcessed : Z) : L bool :=
  first ← lgets (fun s => nodeTip s);
  settled ← settleNodeReading first rereadTip;
  mret (match (settled : option Z) with Some t => t <? lastProcessed | None => false end).

(** The decoder rolls back against its current tip. *)
Definition reconcile : L bool :=
  tip ← lgets (fun s => nodeTip s);
  lift (verifyReorg node rc fuel (Some tip)).

(** The two catches of verifyReorg differ in the log line alone: each refusal that carries
    [tipBelowStoredTip] carries [reorgWait]. *)
Definition reconcileOrphanBlocks (lastProcessed : Z) : L unit :=
  settled ← settleTipBelow lastProcessed;
  if negb settled then mret tt
  else
    ldb endTransaction;;
    done ← ltry (reconcile;; mret true) (fun err => parkOrRethrow node cfg err;; mret false);
    if negb done then mret tt
    else
      clear_wait;;
      reread_cursors cfg;;
      on_batch reset_after_reorg.

Definition reconcileTipRegression (lastProcessed : Z) (info : option chain_info) : L unit :=
  if lastProcessed =? startBlockIndex cfg - 1 then mret tt
  else if match info with Some i => nodeStillCatchingUp i | None => false end then
    tip ← lgets (fun s => nodeTip s);
    now ← lask node clock;
    on_progress (fun p =>
      let since := match nodeCatchingUp p with Some w => catching_since w | None => now end in
      p <| nodeCatchingUp := Some (CatchingUp tip lastProcessed since) |>);;
    on_latches (fun l => l <| nodeCatchingUpProblem := true |>)
  else
    on_latches (fun l => l <| nodeCatchingUpProblem := false |>);;
    on_progress (fun p => p <| nodeCatchingUp := None |>);;
    reconcileOrphanBlocks lastProcessed.

Definition refreshChainTip (lastProcessed : Z) : L bool :=
  refused ← fetchChainTip;
  if (refused : bool) then mret true
  else
    tip ← lgets (fun s => nodeTip s);
    on_progress (fun p => if lastProcessed <=? tip then p <| nodeCatchingUp := None |> else p);;
    if tip <? lastProcessed then
      info ← lgets (fun s => lastBlockchainInfo (latches_of s));
      reconcileTipRegression lastProcessed info;;
      mret true
    else mret false.
End TipRefresh.
