(* ===== verification/SyncStatus.v ===== *)
(** * Health predicates

    src/src/XChainDecoder/sync_status.js: what the health surfaces read off the decoder.  A
    predicate that reads the clock takes the reading, [now]; the two thresholds of
    isStalled and isPollSilent are configured (constants.js) and are parameters. *)
From S2P Require Import Prelude JsNum Config Db BlockStore Halt Node LoopState TipRefresh.
#[local] Open Scope Z_scope.
#[local] Open Scope update_scope.

(** ** Durations *)

Definition two_digits (n : Z) : jstr := if n <? 10 then 48 :: dec_digits n else dec_digits n.

(** Of a whole number of milliseconds, not negative. *)
Definition millisecondsToTimeString (ms : Z) : jstr :=
  dec_digits (ms / (1000 * 60 * 60 * 24) mod 365) ++ js "d"
  ++ two_digits (ms / (1000 * 60 * 60) mod 24) ++ js "h"
  ++ two_digits (ms / (1000 * 60) mod 60) ++ js "m"
  ++ two_digits (ms / 1000 mod 60) ++ js "." ++ dec_digits (ms mod 1000 / 100) ++ js "s".

(** ** Staleness *)

Definition isNodeHeightStale (now : Z) (p : progress) : bool :=
  (0 <? blockchainInfoLastRefreshAt p)
  && (2 * BLOCKCHAIN_INFO_REFRESH_MS <? now - blockchainInfoLastRefreshAt p).

(** The age in milliseconds; the source divides by 1000. *)
Definition nodeTipAge (now : Z) (p : progress) : option Z :=
  if 0 <? blockchainInfoLastRefreshAt p then Some (now - blockchainInfoLastRefreshAt p) else None.

Definition noteNodeTipStaleTransition (now : Z) (p : progress) : progress :=
  p <| nodeHeightStaleLogged := isNodeHeightStale now p |>.

Definition isSynced (now : Z) (p : progress) : bool := negb (isNodeHeightStale now p) && synced p.

(** ** The verdicts the container's health check acts on *)

Section Verdicts.
Context (STALL_ALERT_MS STALL_FETCH_ATTEMPTS POLL_SILENT_MS : Z).

Definition isStalled (now : Z) (s : lstate) : bool :=
  let p := progress_of s in
  if lastAdvanceAt p =? 0 then false
  else if parked s then false
  else if bool_decide (is_Some (reorgWait p)) then false
  else if (blockchainInfoLastBlock p <? 0) || (cursor s <? 0) then false
  else if blockchainInfoLastBlock p - cursor s <=? 1 then false
  else if isNodeHeightStale now p then false
  else if STALL_FETCH_ATTEMPTS <=? fetchErrorCount p then true
  else STALL_ALERT_MS <? now - Z.max (lastAdvanceAt p) (lastLadderStepAt p).

Definition isPollSilent (now : Z) (s : lstate) : bool :=
  if lastPollAt (progress_of s) =? 0 then false
  else POLL_SILENT_MS <? now - lastPollAt (progress_of s).
End Verdicts.

(** ** The published status *)

Record sync_status := SyncStatus {
  last_processed_block : Z;
  ss_node_height : Z;
  lag : Z;
  reorg_count : Z;
  last_reorg_depth : Z;
  node_height_stale : bool
}.

(** [None]: nothing processed yet, every field unknown. *)
Definition getSyncStatus (now : Z) (s : lstate) : option sync_status :=
  if cursor s =? -1 then None
  else Some (SyncStatus (cursor s) (nodeTip s) (nodeTip s - cursor s)
               (reorgCount (reorg_of s)) (lastReorgDepth (reorg_of s))
               (isNodeHeightStale now (progress_of s))).

Definition stop (p : progress) : progress := p <| stopFlag := true |>.
