(* ===== verification/MainLoop.v ===== *)
(** * The parse loop

    src/src/XChainDecoder/block_ingest.js, the steps of sync_loop.js around the tip, and the
    boot and the loop of startup.js: one pass of [while (true)] is [loop_pass].

    What the connector answers is a function of the question: the hashes, headers and tip in
    [node], the block texts in [source].  [getBlockHash] of the connector returns a text or
    throws (BlockFetch.v), so the other answers stand for a throw.  The block is decoded by
    BlockDecoder.v; how bitcoinjs-lib shows a transaction is the parameter [LibView].

    Left out: log lines, sleeps, and updateMempool, which works on its own database
    handle. *)
From S2P Require Import Prelude JsNum Wire BlockDecoder BlockFetch Config Db DbRows.
From S2P Require Import Carrier Parse Ingest BlockStore Halt Node ReorgWalk LoopState HaltPark.
From S2P Require Import TipRefresh SyncStatus.
#[local] Open Scope Z_scope.
#[local] Open Scope update_scope.

Definition SYNCED_THRESHOLD : Z := 3.

(** ** The block the decoder hands to the loop *)

Class LibView `{BlockLib} := {
  view_tx : lib_tx -> transaction;
  block_prevHash : lib_block -> bytes;
  block_timestamp : lib_block -> Z
}.

Section Decode.
Context `{LibView}.

(** The text of [prevHash] and the block; [None] is a throw.  Of 80 bytes, a header
    alone, [transactions] is undefined. *)
Definition decode_block (wireFormat : wire_format) (hex : jstr) : option (jstr * block) :=
  match blockFromHex wireFormat hex with
  | inl _ => None
  | inr d =>
      let '(prevHash, time, txs) :=
        match d with
        | Mweb b => (mb_prevHash b, mb_timestamp b, mb_transactions b)
        | Plain b => (block_prevHash b, block_timestamp b,
                      if size_of (from_hex hex) =? 80 then None
                      else Some (Wire.block_transactions b))
        end in
      Some (uint8ArrayToHex (rev prevHash), Block time (map view_tx <$> txs))
  end.
End Decode.

Inductive fetch_answer := FetchThrows (auxPowParseFailure : bool) | Fetched (hex : jstr).

Section MainLoop.
Context {Coll : Collation} {Lib : ChainLib} `{LibView}.
Context (node : nat -> node_view) (source : nat -> fetch_path -> jstr -> fetch_answer).
Context (rc : reorg_config) (wireFormat : wire_format) (fuel : nat).

Abbreviation cfg := (base_config rc).
Abbreviation start := (startBlockIndex cfg).

Definition auxPow : bool := match wireFormat with WireAuxpow => true | _ => false end.

(** ** block_ingest.js *)

Definition fetchBlock (path : fetch_path) (hash : jstr) : L fetch_answer :=
  lift (fun s => (RRet (source (tick s) path hash), with_tick (S (tick s)) s)).

Definition note_fetch_height (height : Z) (p : progress) : progress :=
  if bool_decide (fetchErrorHeight p = Some height) then p
  else p <| fetchErrorHeight := Some height |> <| fetchErrorCount := 0 |>
         <| auxPowParseErrorCount := 0 |>.

(** The catch: the count of failures, and of the faults of the block's own bytes. *)
Definition fetch_failed (content : bool) : L unit :=
  on_progress (fun p => p <| fetchErrorCount ::= fun n => n + 1 |>
    <| auxPowParseErrorCount ::= fun n => if content then n + 1 else n |>);;
  errors ← lgets (fun s => fetchErrorCount (progress_of s));
  if errors =? 5 then ldb (count (add_parse_errors 1)) else mret tt.

(** The hash and the text; [None] is 'continue'. *)
Definition fetchNextBlock (height : Z) : L (option (jstr * jstr)) :=
  on_progress (note_fetch_height height);;
  a ← lask node (fun v => Node.getBlockHash v height);
  match (a : hash_answer) with
  | HashIs hash =>
      faults ← lgets (fun s => auxPowParseErrorCount (progress_of s));
      fetched ← fetchBlock (fetch_path_of auxPow faults) hash;
      match (fetched : fetch_answer) with
      | Fetched hex =>
          on_progress (fun p => p <| fetchErrorCount := 0 |> <| auxPowParseErrorCount := 0 |>);;
          mret (Some (hash, hex))
      | FetchThrows content => fetch_failed content;; mret None
      end
  | HashThrows | HashNull | HashOther => fetch_failed false;; mret None
  end.

Definition retryUndecodableBlock : L directive :=
  ldb (count (add_parse_errors 1));;
  ldb endTransaction;;
  reread_cursors cfg;;
  on_batch (fun b => b <| blocksQuantity := 0 |>);;
  mret Continue.

Definition rollBackDetectedReorg : L directive :=
  ldb endTransaction;;
  done ← ltry (reconcile node rc fuel;; mret true)
           (fun err => parkOrRethrow node cfg err;; mret false);
  if negb done then mret Continue
  else
    clear_wait;;
    reread_cursors cfg;;
    on_batch reset_after_reorg;;
    mret Continue.

(** [Proceed]: the block extends the stored one below it. *)
Definition detectReorgAtBlock (height : Z) (previousBlockHash : jstr) : L directive :=
  previous ← ltry (ldb (getBlockByIndex (height - 1))) (fun _ => mret None);
  match (previous : option stored_block) with
  | None => mret Continue
  | Some x =>
      if bool_decide (s_hash x = Some previousBlockHash) then mret Proceed
      else rollBackDetectedReorg
  end.

(** Too far behind to serve the mempool. *)
Definition leave_synced (behind : bool) (p : progress) : progress :=
  if behind then p <| synced := false |> <| mempoolInterval := false |> else p.

Definition store_next (blk : block) (height : Z) (hash previousHash : jstr) : L directive :=
  tip ← lgets (fun s => nodeTip s);
  b ← lgets batch_of;
  r ← ldb (storeBlock cfg tip b blk height hash previousHash);
  on_batch (fun _ => r.2);;
  match (r : directive * batch).1 with
  | Proceed =>
      now ← lask node clock;
      on_progress (fun p => p <| lastAdvanceAt := now |>);;
      mret Proceed
  | d => mret d
  end.

Definition ingestNextBlock : L directive :=
  behind ← lgets (fun s => SYNCED_THRESHOLD <? nodeTip s - cursor s);
  on_progress (leave_synced behind);;
  last ← lgets (fun s => cursor s);
  let height := last + 1 in
  fetched ← fetchNextBlock height;
  match (fetched : option (jstr * jstr)) with
  | None => mret Continue
  | Some (hash, hex) =>
      match decode_block wireFormat hex with
      | None => retryUndecodableBlock
      | Some (previousHash, blk) =>
          d ← (if start <? height then detectReorgAtBlock height previousHash else mret Proceed);
          match (d : directive) with
          | Proceed => clear_wait;; store_next blk height hash previousHash
          | _ => mret Continue
          end
      end
  end.

(** ** sync_loop.js, at the tip *)

Definition hash_text (a : hash_answer) : option jstr :=
  match a with HashIs (c :: h) => Some (c :: h) | _ => None end.

Definition readNodeHash (height : Z) : L (option jstr) :=
  a ← lask node (fun v => Node.getBlockHash v height); mret (hash_text a).

(** Two readings agree on a hash that is not the stored one. *)
Definition equalHeightSwapHolds (height : Z) (nodeHash : jstr) (storedHash : option jstr)
  : L bool :=
  settled ← settleNodeReading nodeHash (readNodeHash height);
  mret (match (settled : option jstr) with
        | Some h => negb (bool_decide (storedHash = Some h))
        | None => false
        end).

(** The two detection reads; [None] is a falsy or failed one. *)
Definition detection_reads (height : Z) : L (option jstr * option stored_block) :=
  a ← lask node (fun v => Node.getBlockHash v height);
  match (a : hash_answer) with
  | HashThrows => mret (None, None)
  | _ =>
      stored ← ltry (ldb (getBlockByIndex height)) (fun _ => mret None);
      mret (hash_text a, stored)
  end.

Definition reconcile_swap : L unit :=
  ldb endTransaction;;
  done ← ltry (reconcile node rc fuel;; mret true)
           (fun err => parkOrRethrow node cfg err;; mret false);
  if negb done then mret tt
  else clear_wait;; reread_cursors cfg;; on_batch resetBatchCounters.

Definition reconcileEqualHeightTip : L unit :=
  on_latches (fun l => l <| tipHashCheckedAt := lastBlockchainInfoRefreshAt l |>);;
  height ← lgets (fun s => cursor s);
  reads ← detection_reads height;
  match (reads : option jstr * option stored_block) with
  | (Some nodeHash, Some stored) =>
      if bool_decide (s_hash stored = Some nodeHash) then clear_wait
      else
        swapped ← equalHeightSwapHolds height nodeHash (s_hash stored);
        if (swapped : bool) then reconcile_swap else mret tt
  | _ => mret tt
  end.

Definition waitAtTip : L unit :=
  on_progress (fun p => p <| synced := true |> <| mempoolInterval := true |>);;
  due ← lgets (fun s => (tipHashCheckedAt (latches_of s) <? lastBlockchainInfoRefreshAt (latches_of s))
                        && (start <=? cursor s));
  if (due : bool) then reconcileEqualHeightTip else mret tt.

(** ** startup.js *)

(** The condition reads the clock only when the first two do not decide. *)
Definition refreshDue : L bool :=
  now_due ← lgets (fun s => negb (bool_decide (is_Some (lastBlockchainInfo (latches_of s))))
                            || (nodeTip s <=? cursor s));
  if (now_due : bool) then mret true
  else
    now ← lask node clock;
    at_ ← lgets (fun s => lastBlockchainInfoRefreshAt (latches_of s));
    mret (BLOCKCHAIN_INFO_REFRESH_MS <=? now - at_).

Definition parse_step : L unit :=
  at_tip ← lgets (fun s => cursor s =? nodeTip s);
  if (at_tip : bool) then waitAtTip
  else
    d ← ingestNextBlock;
    match (d : directive) with
    | Rollback => b ← lgets batch_of; b' ← ldb (resetAfterRollback cfg b); on_batch (fun _ => b')
    | _ => mret tt
    end.

(** One pass; [false] when the loop stops. *)
Definition loop_pass : L bool :=
  polled ← lask node clock;
  on_progress (fun p => p <| lastPollAt := polled |>);;
  stopped ← lgets (fun s => stopFlag (progress_of s));
  if (stopped : bool) then
    on_progress (fun p => p <| mempoolInterval := false |>);; mret false
  else
    held ← reorgHaltHoldsLoop node cfg;
    if (held : bool) then mret true
    else
      now ← lask node clock;
      on_progress (noteNodeTipStaleTransition now);;
      due ← refreshDue;
      last ← lgets (fun s => cursor s);
      ended ← (if (due : bool) then refreshChainTip node rc fuel last else mret false);
      if (ended : bool) then mret true else parse_step;; mret true.

(** [passes] passes, or until the loop stops. *)
Fixpoint run_loop (passes : nat) : L unit :=
  match passes with
  | O => mret tt
  | S n => more ← loop_pass; if (more : bool) then run_loop n else mret tt
  end.

(** The cursors, counters and latches at boot. *)
Definition readLoopCursors : L unit :=
  last ← ldb getLastBlockIndex;
  tx ← ldb getLastTxIndex;
  now ← lask node clock;
  on_progress (fun p => p <| lastAdvanceAt := now |> <| lastLadderStepAt := 0 |>
                          <| blockchainInfoLastBlock := -1 |>);;
  on_batch (fun _ => Batch (LoopState tx 0 ∅ ∅ ∅ ∅) 0 (Z.max last (start - 1)) 0 0 0);;
  on_latches (fun _ => initialLoopLatches).

(** From the genesis check to the first pass; the schema is prepared outside the model. *)
Definition bootDecoder : L unit :=
  foreign ← lift (verifyChainGenesis node (chainGenesisHash rc));
  if (foreign : bool) then lraise (Failure (plain_error (js "Refusing to start")))
  else
    now ← lask node clock;
    checkReorgHalt true now;;
    readLoopCursors;;
    on_park (fun p => p <| reorgHaltParkCheckDue := false |>);;
    parkOnRolledBackHalt node;;
    mret tt.
End MainLoop.
