(* ===== verification/LoopSpec.v ===== *)
(** * What the parse loop may do

    An abstract specification of the loop, [chain_step]: store the block the node serves for
    the next height on top of the stored tip its header names, or roll back; a Hoare logic
    for computations of the loop, over assertions on the tables the handle is idle on and on
    the loop's own fields; and the invariant of a pass. *)
From S2P Require Import Prelude JsNum Wire BlockDecoder BlockFetch Config Db DbRows.
From S2P Require Import Atomic Idle Dispensers DispenserReorg Carrier Parse Ingest IngestFacts.
From S2P Require Import BlockStore.
From S2P Require Import BlockAtomic Halt Node ReorgWalk ReorgSpec ReorgFacts LoopState HaltPark.
From S2P Require Import TipRefresh SyncStatus MainLoop.
#[local] Open Scope Z_scope.
#[local] Open Scope update_scope.

(** ** The abstract loop *)

Section Spec.
Context {Coll : Collation} {Lib : ChainLib} `{LibView}.
Context (node : nat -> node_view) (source : nat -> fetch_path -> jstr -> fetch_answer).
Context (rc : reorg_config) (wireFormat : wire_format).

Abbreviation cfg := (base_config rc).
Abbreviation start := (startBlockIndex cfg).

(** Where the cursor belongs. *)
Definition clamp (t : tables) : Z := Z.max (stored_tip t) (start - 1).

(** The node named [hash] at this height and served the block under that name. *)
Definition served (h : Z) (hash prev : jstr) (blk : block) : Prop :=
  (exists k, Node.getBlockHash (node k) h = HashIs hash)
  /\ exists k path hex, source k path hash = Fetched hex
                        /\ decode_block wireFormat hex = Some (prev, blk).

(** The stored block below bears the hash the header names. *)
Definition extends (t : tables) (h : Z) (prev : jstr) : Prop :=
  start < h -> exists x, block_by_index (h - 1) t = Some x /\ s_hash x = Some prev.

(** The block is stored with its transactions numbered on from some index; one is set aside
    without a parse only where the server refused its row before. *)
Inductive chain_step (T T' : tables) : Prop :=
  | step_store n hash prev blk :
      served (clamp T + 1) hash prev blk -> extends T (clamp T + 1) prev ->
      stored_block_tables cfg n (refused cfg) (clamp T + 1) hash prev blk T T' -> chain_step T T'
  | step_rollback : rollback node start T T' -> chain_step T T'.

(** The stored heights, without gap or repetition, from the start height on. *)
Definition chain_at (t : tables) : Prop := exists n, 0 <= n /\ map b_index (blocks t) = seqZ start n.

Context (start_height : 0 <= start).

Lemma chain_clamp t n : 0 <= n -> map b_index (blocks t) = seqZ start n -> clamp t = start + n - 1.
Proof.
  intros Hn E. unfold clamp, stored_tip. rewrite E. destruct (decide (n = 0)) as [->|Hne].
  - rewrite seqZ_nil by lia. simpl. lia.
  - rewrite max_of_seqZ by lia. lia.
Qed.

Lemma chain_at_rollback T t : chain_at T -> rollback node start T t -> chain_at t /\ clamp t <= clamp T.
Proof.
  intros (n & Hn & E) (c & Hb & _)%rollback_top.
  assert (Et : map b_index (blocks t) = seqZ start (Z.max 0 (Z.min n (c - start)))).
  { by rewrite Hb, map_filter_index, E, filter_seqZ. }
  split; [by exists (Z.max 0 (Z.min n (c - start))); split; [lia|]|].
  rewrite (chain_clamp t (Z.max 0 (Z.min n (c - start)))), (chain_clamp T n) by (done || lia). lia.
Qed.

Lemma purges_blocks s g t t' : purges s g t t' -> blocks t' = blocks t.
Proof. by induction 1. Qed.

Lemma chain_at_stored n aside hash prev blk T t :
  chain_at T -> stored_block_tables cfg n aside (clamp T + 1) hash prev blk T t ->
  chain_at t /\ clamp t = clamp T + 1.
Proof.
  intros (m & Hn & E) (t0 & [_ (r & Hr & Hi & _)]%recorded_block_writes & Hp%purges_blocks).
  rewrite (chain_clamp T m) in * by done.
  assert (Et : map b_index (blocks t) = seqZ start (m + 1)).
  { rewrite Hp, Hr, map_app, E, seqZ_app by lia. f_equal. cbn [map]. rewrite Hi, seqZ_cons by lia.
    rewrite seqZ_nil by lia. f_equal. lia. }
  split; [by exists (m + 1); split; [lia|]|]. rewrite (chain_clamp t (m + 1)) by (done || lia). lia.
Qed.

Lemma chain_step_at T T' : chain_step T T' -> chain_at T -> chain_at T'.
Proof.
  intros [n hash prev blk _ _ Hs|Hr] Ht; [by eapply chain_at_stored|by eapply chain_at_rollback].
Qed.

Lemma chain_run_at T T' : rtc chain_step T T' -> chain_at T -> chain_at T'.
Proof. induction 1 as [|T T1 T2 Hs _ IH]; [done|]. intros Ht. by eapply IH, chain_step_at. Qed.

(** A block above the clamped tip is not stored. *)
Lemma chain_above t h : chain_at t -> clamp t < h -> block_by_index h t = None.
Proof.
  intros (n & Hn & E) Hh. rewrite (chain_clamp t n) in Hh by done.
  destruct (block_by_index h t) as [x|] eqn:Ex; [|done].
  assert (Hin : h ∈ map b_index (blocks t)) by (apply stored_iff_index; by exists (s_hash x), x).
  rewrite E, elem_of_seqZ in Hin. lia.
Qed.
End Spec.

(** ** Hoare logic

    [ltriple P m F E]: from a state in [P], [m] never waits on the lock, returns [a] in
    [F a], and throws or runs out of fuel in [E]. *)
Definition ltriple {A} (P : lstate -> Prop) (m : L A) (F : A -> lstate -> Prop)
    (E : lstate -> Prop) : Prop :=
  forall s, P s ->
    match m s with
    | (RRet a, s') => F a s'
    | (RThrow _, s') | (OutOfFuel, s') => E s'
    | (RBlocked, _) => False
    end.

(** What assertions speak of besides the tables: everything but the world and the number of
    questions asked. *)
Record view := View {
  v_batch : batch;
  v_latches : latches;
  v_park : park;
  v_progress : progress;
  v_halted : bool;
  v_persisted : option bool;
  v_checked : Z
}.

#[export] Instance eta_view : Eta view := fun v => View (v_batch v) (v_latches v) (v_park v)
  (v_progress v) (v_halted v) (v_persisted v) (v_checked v).

Definition view_of (s : lstate) : view :=
  View (batch_of s) (latches_of s) (park_of s) (progress_of s) (reorgHalted (reorg_of s))
    (reorgHaltMarkerPersisted (reorg_of s)) (reorgHaltCheckedAt (reorg_of s)).

Definition assertion := tables -> view -> Prop.

Definition Lon (Q : assertion) (s : lstate) : Prop :=
  idle_in (fun t => Q t (view_of s)) (world_of (reorg_of s)) /\ no_cached_proof (reorg_of s).

Lemma Lon_impl (Q Q' : assertion) s :
  Lon Q s -> (forall t v, Q t v -> Q' t v) -> Lon Q' s.
Proof. intros [Hi Hc] H. split; [|done]. eapply idle_in_impl; [exact Hi|auto]. Qed.

Section Rules.
Context {P : lstate -> Prop}.

Lemma ltriple_ret {A} (a : A) (F : A -> lstate -> Prop) E :
  (forall s, P s -> F a s) -> ltriple P (mret a) F E.
Proof. intros H s. apply H. Qed.

Lemma ltriple_raise {A} e (F : A -> lstate -> Prop) (E : lstate -> Prop) :
  (forall s, P s -> E s) -> ltriple P (lraise e) F E.
Proof. intros H s. apply H. Qed.

Lemma ltriple_conseq {A} (m : L A) (P' : lstate -> Prop) F F' (E E' : lstate -> Prop) :
  ltriple P' m F' E' -> (forall s, P s -> P' s) -> (forall a s, F' a s -> F a s) ->
  (forall s, E' s -> E s) -> ltriple P m F E.
Proof.
  intros Hm H1 H2 H3 s Hs. specialize (Hm s (H1 s Hs)).
  destruct (m s) as [[a|e| |] s']; auto.
Qed.

Lemma ltriple_bind {A B} (m : L A) (k : A -> L B) K F E :
  ltriple P m K E -> (forall a, ltriple (K a) (k a) F E) -> ltriple P (m ≫= k) F E.
Proof.
  intros Hm Hk s Hs. specialize (Hm s Hs). unfold mbind, L_bind.
  destruct (m s) as [[a|e| |] s']; [by apply Hk|done..].
Qed.

Lemma ltriple_try {A} (m : L A) h F E E' :
  ltriple P m F E' -> (forall s, E' s -> E s) -> (forall e, ltriple E' (h e) F E) ->
  ltriple P (ltry m h) F E.
Proof.
  intros Hm He Hh s Hs. specialize (Hm s Hs). unfold ltry.
  destruct (m s) as [[a|e| |] s']; [done|by apply Hh|done|by apply He].
Qed.
End Rules.

Section Assertions.
Context {Q : assertion} {E : lstate -> Prop}.

(** A field read is known from then on. *)
Lemma ltriple_gets {A} (f : lstate -> A) (g : view -> A) :
  (forall s, f s = g (view_of s)) ->
  ltriple (Lon Q) (lgets f) (fun a => Lon (fun t v => Q t v /\ a = g v)) E.
Proof. intros Hf s [(t & Ht & Hi) Hc]. split; [|done]. exists t. by rewrite Hf. Qed.

Lemma ltriple_forget {A} (f : lstate -> A) : ltriple (Lon Q) (lgets f) (fun _ => Lon Q) E.
Proof. by intros s Hs. Qed.

Lemma ltriple_ask {A} node (f : node_view -> A) :
  ltriple (Lon Q) (lask node f) (fun a => Lon (fun t v => Q t v /\ exists k, a = f (node k))) E.
Proof.
  intros s [(t & Ht & Hi) Hc]. split; [|done]. exists t. split; [|done]. split; [done|].
  by exists (tick (reorg_of s)).
Qed.

Lemma ltriple_answer {A} node (f : node_view -> A) :
  ltriple (Lon Q) (lask node f) (fun _ => Lon Q) E.
Proof. by intros s Hs. Qed.

Lemma ltriple_progress f (Q' : assertion) :
  (forall t v, Q t v -> Q' t (v <| v_progress ::= f |>)) ->
  ltriple (Lon Q) (on_progress f) (fun _ => Lon Q') E.
Proof. intros H s [(t & Ht & Hi) Hc]. split; [|done]. exists t. split; [|done]. by apply H in Ht. Qed.

Lemma ltriple_latches f (Q' : assertion) :
  (forall t v, Q t v -> Q' t (v <| v_latches ::= f |>)) ->
  ltriple (Lon Q) (on_latches f) (fun _ => Lon Q') E.
Proof. intros H s [(t & Ht & Hi) Hc]. split; [|done]. exists t. split; [|done]. by apply H in Ht. Qed.

Lemma ltriple_park f (Q' : assertion) :
  (forall t v, Q t v -> Q' t (v <| v_park ::= f |>)) ->
  ltriple (Lon Q) (on_park f) (fun _ => Lon Q') E.
Proof. intros H s [(t & Ht & Hi) Hc]. split; [|done]. exists t. split; [|done]. by apply H in Ht. Qed.

Lemma ltriple_batch f (Q' : assertion) :
  (forall t v, Q t v -> Q' t (v <| v_batch ::= f |>)) ->
  ltriple (Lon Q) (on_batch f) (fun _ => Lon Q') E.
Proof. intros H s [(t & Ht & Hi) Hc]. split; [|done]. exists t. split; [|done]. by apply H in Ht. Qed.

(** A call on the database handle. *)
Lemma ltriple_ldb {A} (m : M A) (F : A -> assertion) (X : assertion) :
  (forall v, brings (fun t => Q t v) m (fun a t => F a t v) (fun t => X t v)) ->
  ltriple (Lon Q) (ldb m) (fun a => Lon (F a)) (Lon X).
Proof.
  intros H s [Hi Hc]. specialize (H (view_of s) _ Hi). unfold ldb, lift, db.
  destruct (m (world_of (reorg_of s))) as [[a|e|] w]; by try split.
Qed.

(** A call does not run out of fuel, so a caught one always returns. *)
Lemma ltriple_try_ldb {A} (m : M A) h (F : A -> assertion) (X : assertion) :
  (forall v, brings (fun t => Q t v) m (fun a t => F a t v) (fun t => X t v)) ->
  (forall e, ltriple (Lon X) (h e) (fun a => Lon (F a)) E) ->
  ltriple (Lon Q) (ltry (ldb m) h) (fun a => Lon (F a)) E.
Proof.
  intros H Hh s [Hi Hc]. specialize (H (view_of s) _ Hi). unfold ltry, ldb, lift, db.
  destruct (m (world_of (reorg_of s))) as [[a|e|] w]; [by split|by apply Hh|done].
Qed.

Lemma ltriple_try_map {A B} (m : M A) (f : A -> B) h (F : B -> assertion) (X : assertion) :
  (forall v, brings (fun t => Q t v) m (fun a t => F (f a) t v) (fun t => X t v)) ->
  (forall e, ltriple (Lon X) (h e) (fun b => Lon (F b)) E) ->
  ltriple (Lon Q) (ltry (a ← ldb m; mret (f a)) h) (fun b => Lon (F b)) E.
Proof.
  intros H Hh s [Hi Hc]. specialize (H (view_of s) _ Hi). unfold ltry, mbind, L_bind, ldb, lift, db.
  destruct (m (world_of (reorg_of s))) as [[a|e|] w]; [by split|by apply Hh|done].
Qed.

(** A call that cannot throw. *)
Lemma ltriple_sure {A} (m : M A) (F : A -> assertion) :
  (forall v, brings (fun t => Q t v) m (fun a t => F a t v) (fun _ => False)) ->
  ltriple (Lon Q) (ldb m) (fun a => Lon (F a)) E.
Proof.
  intros H s [Hi Hc]. specialize (H (view_of s) _ Hi). unfold ldb, lift, db.
  destruct (m (world_of (reorg_of s))) as [[a|e|] w]; [by split| |done].
  by destruct H as (t & [] & _).
Qed.

Lemma ltriple_rests {A} (m : M A) :
  (forall P, rests P m) -> ltriple (Lon Q) (ldb m) (fun _ => Lon Q) (Lon Q).
Proof. intros H. apply ltriple_ldb. intros v. apply H. Qed.

Lemma ltriple_pure {A} (phi : Prop) (m : L A) F :
  (phi -> ltriple (Lon Q) m F E) -> ltriple (Lon (fun t v => Q t v /\ phi)) m F E.
Proof.
  intros H s [(t & [Ht Hp] & Hi) Hc]. apply (H Hp s). split; [by exists t|done].
Qed.

(** The tables at hand get a name. *)
Lemma ltriple_named {A} (m : L A) F :
  (forall T V, Q T V -> ltriple (Lon (fun t v => t = T /\ v = V)) m F E) ->
  ltriple (Lon Q) m F E.
Proof.
  intros H s [(t & Ht & Hi) Hc]. apply (H t (view_of s) Ht s). split; [|done]. by exists t.
Qed.

Lemma ltriple_weaken {A} (m : L A) (Q' : assertion) F :
  ltriple (Lon Q') m F E -> (forall t v, Q t v -> Q' t v) -> ltriple (Lon Q) m F E.
Proof.
  intros Hm H. eapply ltriple_conseq; [exact Hm| |done|done]. intros s Hs. by eapply Lon_impl.
Qed.
End Assertions.

(** A computation that keeps an assertion, whatever ends it. *)
Abbreviation lkeeps Q m := (ltriple (Lon Q) m (fun _ => Lon Q) (Lon Q)).
