(* ===== verification/LoopFacts.v ===== *)
(** * The parse loop refines the abstract loop

    Every function of HaltPark.v, TipRefresh.v and MainLoop.v against LoopSpec.v: whatever
    the node answers and whichever database calls fail, it keeps the invariant of a pass. *)
From S2P Require Import Prelude JsNum Wire BlockDecoder BlockFetch Config Db DbRows.
From S2P Require Import Atomic Idle Dispensers DispenserReorg Carrier Parse CarrierFacts Ingest.
From S2P Require Import IngestFacts BlockStore.
From S2P Require Import BlockAtomic Halt Node ReorgWalk ReorgSpec ReorgFacts ReorgSafety.
From S2P Require Import LoopState HaltPark TipRefresh SyncStatus MainLoop LoopSpec.
#[local] Open Scope Z_scope.
#[local] Open Scope update_scope.

(** ** Keeping an assertion *)

Create HintDb lkeep discriminated.

(** An assertion on the tables and the block counters. *)
Definition of_batch (R : tables -> batch -> Prop) : assertion := fun t v => R t (v_batch v).

Section Keeps.
Context {Q : assertion}.

Lemma lk_ret {A} (a : A) : lkeeps Q (mret a).
Proof. by apply ltriple_ret. Qed.

Lemma lk_raise {A} e : lkeeps Q (lraise e : L A).
Proof. by apply ltriple_raise. Qed.

Lemma lk_bind {A B} (m : L A) (k : A -> L B) :
  lkeeps Q m -> (forall a, lkeeps Q (k a)) -> lkeeps Q (m ≫= k).
Proof. apply ltriple_bind. Qed.

Lemma lk_try {A} (m : L A) h :
  lkeeps Q m -> (forall e, lkeeps Q (h e)) -> lkeeps Q (ltry m h).
Proof. intros Hm Hh. by eapply ltriple_try. Qed.

Lemma lk_settle {A} `{!EqDecision A} n (x : A) (m : L (option A)) :
  lkeeps Q m -> lkeeps Q (settle n x m).
Proof.
  intros Hm. revert x. induction n as [|n IH]; intros x; simpl; [apply lk_ret|].
  apply lk_bind; [exact Hm|]. intros [y|]; [|apply lk_ret].
  case_match; [apply lk_ret|apply IH].
Qed.

(** The one write of the genesis check is its time. *)
Lemma lk_verifyChainGenesis node pin E :
  ltriple (Lon Q) (lift (verifyChainGenesis node pin)) (fun _ => Lon Q) E.
Proof.
  intros s Hs. unfold lift, verifyChainGenesis. destruct (chainGenesisUnpinned pin); [exact Hs|].
  unfold mbind, W_bind, ask. cbn [fst snd].
  destruct (getBlockHash _ 0) as [| | |[|c h]]; try exact Hs.
  cbn zeta. by destruct (chainGenesisMismatch _ _).
Qed.

Lemma lk_reorg f :
  (forall s, world_of (f s) = world_of s /\ forkProofCache (f s) = forkProofCache s) ->
  (forall t v h p c, Q t v ->
     Q t (v <| v_halted := h |> <| v_persisted := p |> <| v_checked := c |>)) ->
  lkeeps Q (on_reorg f).
Proof.
  intros Hf HQ s [(t & Ht & Hi) Hc]. destruct (Hf (reorg_of s)) as [H1 H2]. split.
  - exists t. simpl. rewrite H1. split; [|done].
    apply (HQ _ _ (reorgHalted (f (reorg_of s))) (reorgHaltMarkerPersisted (f (reorg_of s)))
      (reorgHaltCheckedAt (f (reorg_of s)))) in Ht. exact Ht.
  - unfold no_cached_proof. simpl. by rewrite H2.
Qed.
End Keeps.

#[export] Hint Resolve lk_ret lk_raise lk_settle lk_verifyChainGenesis ltriple_forget
  ltriple_answer : lkeep.

(** Follow the structure of the computation, unfolding nothing. *)
Ltac lkeep_step :=
  lazymatch goal with
  | |- forall _, _ => intro
  | |- ltriple _ (_ ≫= _) _ _ => apply lk_bind
  | |- ltriple _ (ltry _ _) _ _ => apply lk_try
  | |- ltriple _ (match ?x with _ => _ end) _ _ => destruct x
  end.
Ltac lkeep := repeat first [solve [auto with lkeep] | lkeep_step].

Lemma rests_endTransaction P : rests P endTransaction.
Proof.
  intros w (t & Ht & Hl & Hb & Hc & Hk). unfold endTransaction, finally, state.
  unfold mbind, M_bind. rewrite Hc.
  unfold releaseTransactionConnectionQuietly, releaseTransactionLock, modify, state, mbind, M_bind.
  simpl. rewrite Hc. simpl. exists t. split; [done|]. by unfold idle.
Qed.

Lemma rests_readRolledBack P : rests P readRolledBackAboveTip.
Proof.
  unfold readRolledBackAboveTip. apply rests_try; [|intros e; apply rests_ret].
  apply rests_bind; [|intros n; apply rests_ret].
  eapply brings_conseq; [apply (brings_countReorgDeletesAboveTip P)|done|by intros a t [? _]|done].
Qed.

Lemma rests_readReorgHaltState P : rests P readReorgHaltState.
Proof.
  eapply brings_conseq; [apply (brings_readReorgHaltState (P := P))|done|by intros a t [? _]|done].
Qed.

Section OfBatch.
Context {R : tables -> batch -> Prop}.

Lemma lk_progress f : lkeeps (of_batch R) (on_progress f).
Proof. by apply ltriple_progress. Qed.

Lemma lk_latches f : lkeeps (of_batch R) (on_latches f).
Proof. by apply ltriple_latches. Qed.

Lemma lk_park f : lkeeps (of_batch R) (on_park f).
Proof. by apply ltriple_park. Qed.

Lemma lk_halts f :
  (forall s, world_of (f s) = world_of s /\ forkProofCache (f s) = forkProofCache s) ->
  lkeeps (of_batch R) (on_reorg f).
Proof. intros Hf. by apply lk_reorg. Qed.

Lemma lk_rests {A} (m : M A) : (forall P, rests P m) -> lkeeps (of_batch R) (ldb m).
Proof. apply ltriple_rests. Qed.

Lemma lk_on_batch f :
  (forall t b, R t b -> R t (f b)) -> lkeeps (of_batch R) (on_batch f).
Proof. intros Hf. apply ltriple_batch. intros t v Hv. by apply Hf. Qed.

#[local] Hint Resolve lk_progress lk_latches lk_park : lkeep.

(** ** The halt park *)

Lemma lk_probe now : lkeeps (of_batch R) (probe now).
Proof.
  unfold probe. lkeep; try (by apply lk_halts). by apply lk_rests, rests_readReorgHaltState.
Qed.

Lemma lk_checkReorgHalt force now : lkeeps (of_batch R) (checkReorgHalt force now).
Proof. unfold checkReorgHalt. lkeep. apply lk_probe. Qed.

Lemma lk_parkOnReorgHalt node h unread : lkeeps (of_batch R) (parkOnReorgHalt node h unread).
Proof. unfold parkOnReorgHalt. lkeep. Qed.

#[local] Hint Resolve lk_checkReorgHalt lk_parkOnReorgHalt : lkeep.

Lemma lk_parkOnRolledBackHalt node : lkeeps (of_batch R) (parkOnRolledBackHalt node).
Proof. unfold parkOnRolledBackHalt. lkeep. apply lk_rests, rests_readRolledBack. Qed.

#[local] Hint Resolve lk_parkOnRolledBackHalt : lkeep.

Lemma lk_resumeFromReorgHaltPark node : lkeeps (of_batch R) (resumeFromReorgHaltPark node).
Proof. unfold resumeFromReorgHaltPark, resumeFromUnreadPark. lkeep. Qed.

Lemma lk_setReorgWait node h hash c : lkeeps (of_batch R) (setReorgWait node h hash c).
Proof. unfold setReorgWait. lkeep. Qed.

Lemma lk_clear_wait : lkeeps (of_batch R) clear_wait.
Proof. unfold clear_wait. lkeep. Qed.

(** ** The tip *)

Lemma lk_fetchChainTip node rc : lkeeps (of_batch R) (fetchChainTip node rc).
Proof.
  unfold fetchChainTip, set_info, refuseForeignTier, noteMissingChainField, genesisDue,
    refuseForeignGenesis, refuseUnsyncedNode, acceptTip. lkeep.
Qed.

Lemma lk_settleTipBelow node rc n : lkeeps (of_batch R) (settleTipBelow node rc n).
Proof.
  unfold settleTipBelow, settleNodeReading, rereadTip. apply lk_bind; [apply ltriple_forget|].
  intros first. apply lk_bind; [|intros settled; apply lk_ret]. apply lk_settle.
  apply lk_bind; [apply lk_fetchChainTip|]. lkeep.
Qed.
End OfBatch.

#[export] Hint Resolve lk_progress lk_latches lk_park lk_checkReorgHalt lk_parkOnReorgHalt
  lk_parkOnRolledBackHalt lk_resumeFromReorgHaltPark lk_setReorgWait lk_clear_wait
  lk_fetchChainTip lk_settleTipBelow : lkeep.

(** ** The refinement *)

Section Refine.
Context {Coll : Collation} {Lib : ChainLib} `{LibView}.
Context (node : nat -> node_view) (source : nat -> fetch_path -> jstr -> fetch_answer).
Context (rc : reorg_config) (wireFormat : wire_format) (fuel : nat).
Context (start_height : 0 <= startBlockIndex (base_config rc)) (T0 : tables).

Abbreviation cfg := (base_config rc).
Abbreviation start := (startBlockIndex cfg).
Abbreviation chain_step := (chain_step node source rc wireFormat).
Abbreviation clamp := (clamp rc).
Abbreviation chain_at := (chain_at rc).
Abbreviation served := (served node source wireFormat).

(** Tables the abstract loop reaches. *)
Definition reached (t : tables) : Prop := rtc chain_step T0 t /\ chain_at t.

(** Between two passes: no block is half stored, and the cursor is not below the stored
    tip.  It may be above: see LoopSafety.v. *)
Definition between_passes (t : tables) (b : batch) : Prop :=
  reached t /\ refusals cfg (loop b) /\ blocksQuantity b = 0 /\ clamp t <= lastProcessedBlockIndex b.

Abbreviation Run := (of_batch between_passes).

Definition Reached : assertion := fun t _ => reached t.

(** After a block that was taken back. *)
Definition Undone : assertion := of_batch (fun t b => reached t /\ refusals cfg (loop b)).

(** What the loop leaves when it throws: a transaction is open only after a block decoded
    from a bare header. *)
Definition Ended (s : lstate) : Prop :=
  Lon Reached s \/ exists t, reached t /\ open_on t (world_of (reorg_of s)).

Lemma Run_ended s : Lon Run s -> Ended s.
Proof. intros Hs. left. eapply Lon_impl; [exact Hs|]. by intros t v [Ht _]. Qed.

(** What a call is known to return, where it returns. *)
Lemma brings_returns {A} P (m : M A) F X (G : A -> Prop) :
  brings P m F X -> returns m G -> brings P m (fun a t => F a t /\ G a) X.
Proof.
  intros Hm HG w Hw. specialize (Hm w Hw). specialize (HG w).
  destruct (m w) as [[a|e|] w']; [|done..]. destruct Hm as (t & Ht & Hi). exists t.
  split; [|done]. split; [done|]. by eapply HG.
Qed.

Lemma reached_step t t' : reached t -> chain_step t t' -> reached t'.
Proof.
  intros [Hr Hc] Hs. split; [by eapply rtc_r|]. by eapply chain_step_at.
Qed.

(** ** Cursors *)

Lemma lk_reread : lkeeps Run (reread_cursors cfg).
Proof.
  unfold reread_cursors.
  eapply (ltriple_bind _ _ (fun last => Lon (fun t v => Run t v /\ last = stored_tip t))).
  { apply ltriple_ldb. intros v. apply brings_read_retrying. }
  intros last. eapply (ltriple_bind _ _ (fun _ => Lon Run)).
  { apply ltriple_batch. intros t v [(Ht & Hl & Hq & _) ->]. split_and!; [done..|].
    simpl. unfold LoopSpec.clamp. lia. }
  intros []. apply lk_bind; [apply lk_rests; intros P; apply rests_read_retrying|].
  intros tx. by apply lk_on_batch.
Qed.

Lemma lk_reset_counters : lkeeps Run (on_batch resetBatchCounters).
Proof. apply lk_on_batch. by intros t b (Ht & Hl & _ & Hc). Qed.

Lemma lk_reset_after_reorg : lkeeps Run (on_batch reset_after_reorg).
Proof. apply lk_on_batch. by intros t b (Ht & Hl & _ & Hc). Qed.

#[local] Hint Resolve lk_reread lk_reset_counters lk_reset_after_reorg : lkeep.

(** ** Rolling back *)

Lemma lk_reconcile : lkeeps Run (reconcile node rc fuel).
Proof.
  unfold reconcile. apply lk_bind; [apply ltriple_forget|]. intros tip.
  apply ltriple_named. intros T V (HT & Hl & Hq & Hc) s [(t & [-> Hv] & Hi) Hp].
  assert (Hroll : forall s', ReorgSpec.Safe node rc T s' ->
    Lon Run (s <| reorg_of := s' |>)).
  { intros s' (c & [(t & [(Hr & _) _] & Hi') Hp']). split; [|exact Hp'].
    exists t. split; [|exact Hi'].
    destruct (chain_at_rollback node rc start_height T t) as [_ Hle]; [apply HT|exact Hr|].
    subst V. split; [|split; [exact Hl|split; [exact Hq|]]].
    - eapply reached_step; [exact HT|]. by apply step_rollback.
    - change (clamp t <= cursor s). simpl in Hc. lia. }
  pose proof (verifyReorg_safe node rc fuel (Some tip) T (reorg_of s) Hi Hp) as Hs.
  unfold lift. destruct (verifyReorg node rc fuel (Some tip) (reorg_of s)) as [[a|e| |] s'];
    [|by apply Hroll|done|by apply Hroll].
  destruct Hs as (c & Hs). apply Hroll. exists c. by eapply Inv_any.
Qed.

Lemma lk_parkOrRethrow err : lkeeps Run (parkOrRethrow node cfg err).
Proof.
  destruct err as [e|m|h hash c]; cbn [parkOrRethrow]; lkeep.
  by apply lk_rests, rests_readRolledBack.
Qed.

Lemma lk_end : lkeeps Run (ldb endTransaction).
Proof. apply lk_rests, rests_endTransaction. Qed.

#[local] Hint Resolve lk_reconcile lk_parkOrRethrow lk_end : lkeep.

Lemma lk_reorgHaltHoldsLoop : lkeeps Run (reorgHaltHoldsLoop node cfg).
Proof. unfold reorgHaltHoldsLoop, leaveReorgHaltPark. lkeep. Qed.

Lemma lk_refreshChainTip last : lkeeps Run (refreshChainTip node rc fuel last).
Proof. unfold refreshChainTip, reconcileTipRegression, reconcileOrphanBlocks. lkeep. Qed.

Lemma lk_readNodeHash h : lkeeps Run (readNodeHash node h).
Proof. unfold readNodeHash. lkeep. Qed.

Lemma lk_getBlockByIndex h : lkeeps Run (ldb (getBlockByIndex h)).
Proof. apply lk_rests. intros P. apply rests_read_retrying. Qed.

#[local] Hint Resolve lk_readNodeHash lk_getBlockByIndex : lkeep.

Lemma lk_waitAtTip : lkeeps Run (waitAtTip node rc fuel).
Proof.
  unfold waitAtTip, reconcileEqualHeightTip, detection_reads, reconcile_swap,
    equalHeightSwapHolds, settleNodeReading. lkeep.
Qed.

Lemma rollBack_continues :
  ltriple (Lon Run) (rollBackDetectedReorg node rc fuel)
    (fun d s => d = Continue /\ Lon Run s) (Lon Run).
Proof.
  assert (Hret : ltriple (Lon Run) (mret Continue) (fun d s => d = Continue /\ Lon Run s) (Lon Run)).
  { by apply ltriple_ret. }
  unfold rollBackDetectedReorg. eapply ltriple_bind; [apply lk_end|intros []].
  eapply (ltriple_bind _ _ (fun _ => Lon Run)); [lkeep|intros [|]]; [|exact Hret].
  eapply ltriple_bind; [apply lk_clear_wait|intros []].
  eapply ltriple_bind; [apply lk_reread|intros []].
  by eapply ltriple_bind; [apply lk_reset_after_reorg|intros []].
Qed.

Lemma lk_retryUndecodableBlock : lkeeps Run (retryUndecodableBlock rc).
Proof.
  unfold retryUndecodableBlock. lkeep.
  apply lk_rests. intros P. apply rests_count.
Qed.

(** ** Storing the next block *)

Lemma fetched_served (R : tables -> batch -> Prop) height :
  ltriple (Lon (of_batch R)) (fetchNextBlock node source wireFormat height)
    (fun r => Lon (fun t v => of_batch R t v /\ forall hash hex, r = Some (hash, hex) ->
       (exists k, Node.getBlockHash (node k) height = HashIs hash)
       /\ exists k path, source k path hash = Fetched hex)) (Lon (of_batch R)).
Proof.
  set (Q := of_batch R).
  assert (Hfail : forall content (G : jstr -> jstr -> Prop), ltriple (Lon Q) (fetch_failed content;; mret None)
    (fun r : option (jstr * jstr) => Lon (fun t v => Q t v /\ forall hash hex, r = Some (hash, hex) ->
       G hash hex)) (Lon Q)).
  { intros content G. eapply ltriple_bind with (K := fun _ => Lon Q).
    - unfold fetch_failed, Q. lkeep. apply lk_rests. intros P. apply rests_count.
    - intros []. apply ltriple_ret. intros s Hs. by eapply Lon_impl. }
  unfold fetchNextBlock. eapply ltriple_bind with (K := fun _ => Lon Q); [apply lk_progress|].
  intros []. eapply ltriple_bind; [apply ltriple_ask|]. intros a. apply ltriple_pure.
  intros (k & ->). destruct (Node.getBlockHash (node k) height) as [| | |hash] eqn:Eh;
    [by apply Hfail..|].
  eapply ltriple_bind with (K := fun _ => Lon Q); [apply ltriple_forget|]. intros faults.
  eapply ltriple_bind with (K := fun r => Lon (fun t v => Q t v /\ exists k path,
    source k path hash = r)).
  { intros s Hs. split; [|by apply Hs]. destruct Hs as [(t & Ht & Hi) _]. exists t.
    split; [|exact Hi]. split; [exact Ht|]. by do 2 eexists. }
  intros fetched. apply ltriple_pure. intros (k' & path & Hf).
  destruct fetched as [content|hex]; [by apply Hfail|].
  eapply ltriple_bind with (K := fun _ => Lon Q); [apply lk_progress|]. intros [].
  apply ltriple_ret. intros s Hs. eapply Lon_impl; [exact Hs|]. intros t v Hr.
  split; [exact Hr|]. intros hash' hex' [= <- <-]. split; [by exists k|by exists k', path].
Qed.

Lemma detect_extends (G : batch -> Prop) height prev :
  ltriple (Lon (of_batch (fun t b => between_passes t b /\ G b)))
    (detectReorgAtBlock node rc fuel height prev)
    (fun d => Lon (of_batch (fun t b => between_passes t b /\ (d = Proceed -> G b /\
       exists x, block_by_index (height - 1) t = Some x /\ s_hash x = Some prev)))) (Lon Run).
Proof.
  set (GQ := of_batch (fun t b => between_passes t b /\ G b)).
  assert (Hrun : forall s, Lon GQ s -> Lon Run s).
  { intros s Hs. eapply Lon_impl; [exact Hs|]. by intros t v [? _]. }
  unfold detectReorgAtBlock.
  eapply ltriple_bind with (K := fun r => Lon (fun t v => GQ t v /\ forall x,
    r = Some x -> block_by_index (height - 1) t = Some x)).
  { eapply ltriple_try with (E' := Lon GQ); [|exact Hrun|].
    - eapply ltriple_conseq; [eapply (ltriple_ldb (Q := GQ)); intros v;
        apply brings_read_retrying|done| |done].
      intros r s Hs. eapply Lon_impl; [exact Hs|]. intros t v [Hr ->]. by split.
    - intros e. apply ltriple_ret. intros s Hs. by eapply Lon_impl. }
  intros [x|].
  2: { apply ltriple_ret. intros s Hs. eapply Lon_impl; [exact Hs|]. by intros t v [[? _] _]. }
  case_bool_decide as Ex.
  - apply ltriple_ret. intros s Hs. eapply Lon_impl; [exact Hs|]. intros t v [[Hr HG] Hx].
    split; [exact Hr|]. intros _. split; [exact HG|]. exists x. by rewrite (Hx x).
  - eapply ltriple_conseq; [apply rollBack_continues| | |done].
    + intros s Hs. eapply Lon_impl; [exact Hs|]. by intros t v [[? _] _].
    + intros d s [-> Hs]. by eapply Lon_impl.
Qed.

(** The cursor of a block that may be stored is the stored tip. *)
Lemma cursor_exact t v height prev :
  Run t v -> height = lastProcessedBlockIndex (v_batch v) + 1 ->
  extends rc t height prev -> height = clamp t + 1.
Proof.
  intros ((_ & Hc) & _ & _ & Hle) Hh Hx. destruct (decide (start < height)) as [Hs|Hs].
  - destruct (Hx Hs) as (x & Hb & _).
    destruct (decide (clamp t < height - 1)) as [Hlt|]; [|lia].
    by rewrite (chain_above rc start_height t (height - 1) Hc Hlt) in Hb.
  - unfold LoopSpec.clamp in *. lia.
Qed.

Definition after_store (d : directive) : lstate -> Prop :=
  match d with Rollback => Lon Undone | _ => Lon Run end.

Lemma store_refines blk height hash prev :
  served height hash prev blk ->
  ltriple (Lon (fun t v => Run t v /\ extends rc t height prev
                           /\ height = lastProcessedBlockIndex (v_batch v) + 1))
    (store_next node rc blk height hash prev) after_store Ended.
Proof.
  intros Hserved. apply ltriple_named. intros T V (HR & Hx & Hh).
  pose proof (cursor_exact _ _ _ _ HR Hh Hx) as Hheight. destruct HR as ((Hreach & Hc) & Hl & Hq & _).
  unfold store_next. eapply ltriple_bind; [apply ltriple_forget|]. intros tip.
  eapply ltriple_bind with (K := fun b => Lon (fun t v => (t = T /\ v = V) /\ b = v_batch v));
    [by apply ltriple_gets|]. intros b.
  intros s [(t & [[-> Hv] Hb] & Hi) Hp]. subst V.
  pose proof (storeBlock_outcome cfg tip b blk height hash prev T (world_of (reorg_of s)) Hi) as Ho.
  specialize (Ho ltac:(rewrite Hb; exact Hq)).
  rewrite <- Hb in Hl. pose proof (storeBlock_refusals cfg tip b blk height hash prev Hl) as Hnext.
  set (n := lastProcessedTxIndex (loop b)) in Ho.
  assert (Hstep : forall t, stored_block_tables cfg n (fun k => k ∈ insertQuarantine (loop b)) height
      hash prev blk T t -> reached t /\ clamp t = height).
  { intros t Ht. rewrite Hheight in *.
    destruct (chain_at_stored rc start_height _ _ hash prev blk T t Hc Ht) as [Hc' Hcl]. split; [|exact Hcl].
    split; [|exact Hc']. eapply rtc_r; [exact Hreach|].
    apply (step_store _ _ _ _ _ _ n hash prev blk); [done..|].
    eapply stored_block_mono; [|exact Ht]. intros k Hk. apply Hl. by right. }
  assert (Hrec : forall t, recorded_block cfg n (fun k => k ∈ insertQuarantine (loop b)) height hash prev blk T t ->
      stored_block_tables cfg n (fun k => k ∈ insertQuarantine (loop b)) height hash prev blk T t).
  { intros t Ht. exists t. split; [exact Ht|apply purges_none]. }
  specialize (Hnext (world_of (reorg_of s))).
  unfold ldb, lift, db, mbind, L_bind.
  destruct (storeBlock cfg tip b blk height hash prev (world_of (reorg_of s))) as [[[d b']|e|] w];
    [| |done].
  - specialize (Hnext _ _ eq_refl). destruct d; simpl in Ho |- *.
    + split; [|exact Hp]. exists T. by split; [split; [split|]|].
    + destruct Ho as ((t & [Ht Hcur] & Hw) & Hq'). split; [|exact Hp]. exists t.
      split; [|exact Hw]. split; [|split; [exact Hnext|split; [exact Hq'|]]].
      * destruct Ht as [->|Ht]; [by split|by apply Hstep, Hrec].
      * simpl. unfold cursor_at in Hcur. rewrite Hcur. done.
    + destruct Ho as ((t & Ht & Hw) & Hq' & Hlast). destruct (Hstep t Ht) as [Hr Hcl].
      split; [|exact Hp]. exists t. split; [|exact Hw]. split_and!; [exact Hr|exact Hnext|exact Hq'|].
      simpl. lia.
  - destruct Ho as [(t & Ht & Hw)|[_ Hw]]; [left|right; by exists T].
    split; [|exact Hp]. exists t. split; [|exact Hw].
    destruct Ht as [->|Ht]; [by split|by apply Hstep].
Qed.

Lemma ingest_refines :
  ltriple (Lon Run) (ingestNextBlock node source rc wireFormat fuel) after_store Ended.
Proof.
  assert (Hcont : ltriple (Lon Run) (mret Continue) after_store Ended) by by apply ltriple_ret.
  assert (Hrun : forall A (m : L A) F E, ltriple (Lon Run) m F (Lon Run) ->
    (forall s, Ended s -> E s) -> ltriple (Lon Run) m F E).
  { intros A m F E Hm HE. eapply ltriple_conseq; [exact Hm|done|done|]. intros s Hs.
    by apply HE, Run_ended. }
  unfold ingestNextBlock. eapply ltriple_bind; [apply ltriple_forget|intros behind].
  eapply ltriple_bind; [apply Hrun; [apply lk_progress|done]|intros []].
  eapply ltriple_bind; [by apply (ltriple_gets _ (fun v => lastProcessedBlockIndex (v_batch v)))|].
  intros last. cbn zeta. set (height := last + 1).
  set (G := fun b => height = lastProcessedBlockIndex b + 1).
  eapply (ltriple_weaken _ (of_batch (fun t b => between_passes t b /\ G b))).
  2: { intros t v [Hr ->]. split; [exact Hr|]. done. }
  eapply ltriple_bind.
  { eapply ltriple_conseq; [apply fetched_served|done|intros r s Hs; exact Hs|].
    intros s Hs. apply Run_ended. eapply Lon_impl; [exact Hs|]. by intros t v [? _]. }
  intros fetched. apply ltriple_pure. intros Hf.
  assert (Hdrop : forall s, Lon (of_batch (fun t b => between_passes t b /\ G b)) s -> Lon Run s).
  { intros s Hs. eapply Lon_impl; [exact Hs|]. by intros t v [? _]. }
  destruct fetched as [[hash hex]|]; [|by apply ltriple_ret].
  destruct (Hf hash hex eq_refl) as [Hh (k & path & Hhex)].
  destruct (decode_block wireFormat hex) as [[prev blk]|] eqn:Ed.
  2: { eapply ltriple_conseq; [apply lk_retryUndecodableBlock|exact Hdrop| |apply Run_ended].
       intros d s Hs. destruct d; [|exact Hs..]. apply Lon_impl with (Q := Run); [exact Hs|]. by intros t v (Hr & Hl & _). }
  eapply ltriple_bind with (K := fun d => Lon (of_batch (fun t b => between_passes t b /\
    (d = Proceed -> G b /\ extends rc t height prev)))).
  { destruct (start <? height) eqn:Es.
    - eapply ltriple_conseq; [apply detect_extends|done| |apply Run_ended].
      intros d s Hs. eapply Lon_impl; [exact Hs|]. intros t v [Hr Hx]. split; [exact Hr|].
      intros Hd. destruct (Hx Hd) as [HG (x & Hx1 & Hx2)]. split; [exact HG|]. intros _. by exists x.
    - apply ltriple_ret. intros s Hs. eapply Lon_impl; [exact Hs|]. intros t v [Hr HG].
      split; [exact Hr|]. intros _. split; [exact HG|]. intros Hlt. apply Z.ltb_ge in Es. lia. }
  intros d. destruct d.
  1,2: apply ltriple_ret; intros s Hs; eapply Lon_impl; [exact Hs|]; by intros t v [? _].
  eapply ltriple_bind.
  { eapply ltriple_conseq; [eapply lk_clear_wait|intros s Hs; exact Hs|intros u s Hs; exact Hs|].
    intros s Hs. apply Run_ended. eapply Lon_impl; [exact Hs|]. by intros t v [? _]. }
  intros [].
  eapply ltriple_weaken; [apply (store_refines blk height hash prev)|].
  - split; [exact Hh|]. by exists k, path, hex.
  - intros t v [Hr Hx]. destruct (Hx eq_refl) as [HG Hext]. by split; [|split].
Qed.

Lemma parse_step_refines :
  ltriple (Lon Run) (parse_step node source rc wireFormat fuel) (fun _ => Lon Run) Ended.
Proof.
  assert (Hkeep : forall A (m : L A), lkeeps Run m -> ltriple (Lon Run) m (fun _ => Lon Run) Ended).
  { intros A m Hm. eapply ltriple_conseq; [exact Hm|done|done|apply Run_ended]. }
  unfold parse_step. eapply ltriple_bind; [apply ltriple_forget|intros at_tip].
  destruct at_tip; [by apply Hkeep, lk_waitAtTip|].
  eapply ltriple_bind; [apply ingest_refines|]. intros [| |].
  2,3: by apply ltriple_ret.
  eapply (ltriple_bind _ _ (fun b => Lon (fun t v => Undone t v /\ b = v_batch v)));
    [by apply (ltriple_gets _ v_batch)|intros b].
  eapply ltriple_weaken with (Q' := fun t v => Reached t v /\ refusals cfg (loop b));
    [|by intros t v [[Ht Hl] ->]].
  apply ltriple_pure. intros Hl.
  eapply ltriple_bind.
  { eapply ltriple_conseq; [apply (ltriple_ldb (Q := Reached) _
      (fun b' t v => ((Reached t v /\ cursor_at cfg t b') /\ blocksQuantity b' = 0)
                     /\ refusals cfg (loop b')) Reached);
      intros v; apply brings_returns; [apply brings_reset|by apply reset_refusals]|done
      |intros b' s Hs; exact Hs|by left]. }
  intros b'. apply ltriple_batch. intros t v [[[Hr Hb] Hq] Hl']. split_and!; [exact Hr|exact Hl'|exact Hq|].
  simpl. rewrite Hb. done.
Qed.

Lemma loop_pass_refines :
  ltriple (Lon Run) (loop_pass node source rc wireFormat fuel) (fun _ => Lon Run) Ended.
Proof.
  assert (Hkeep : forall A (m : L A), lkeeps Run m -> ltriple (Lon Run) m (fun _ => Lon Run) Ended).
  { intros A m Hm. eapply ltriple_conseq; [exact Hm|done|done|apply Run_ended]. }
  unfold loop_pass. eapply ltriple_bind; [apply ltriple_answer|intros polled].
  eapply ltriple_bind; [apply Hkeep, lk_progress|intros []].
  eapply ltriple_bind; [apply ltriple_forget|intros stopped].
  destruct stopped.
  { eapply ltriple_bind; [apply Hkeep, lk_progress|intros []]. by apply ltriple_ret. }
  eapply ltriple_bind; [apply Hkeep, lk_reorgHaltHoldsLoop|intros [|]]; [by apply ltriple_ret|].
  eapply ltriple_bind; [apply ltriple_answer|intros now].
  eapply ltriple_bind; [apply Hkeep, lk_progress|intros []].
  eapply ltriple_bind; [apply Hkeep; unfold refreshDue; lkeep|intros due].
  eapply ltriple_bind; [apply ltriple_forget|intros last].
  eapply ltriple_bind.
  { apply Hkeep. destruct due; [apply lk_refreshChainTip|apply lk_ret]. }
  intros [|]; [by apply ltriple_ret|].
  eapply ltriple_bind; [apply parse_step_refines|intros []]. by apply ltriple_ret.
Qed.

Lemma run_loop_refines passes :
  ltriple (Lon Run) (run_loop node source rc wireFormat fuel passes) (fun _ => Lon Run) Ended.
Proof.
  induction passes as [|n IH]; simpl; [by apply ltriple_ret|].
  eapply ltriple_bind; [apply loop_pass_refines|intros [|]]; [exact IH|by apply ltriple_ret].
Qed.

(** Boot, from a handle idle on any tables that are a chain. *)
Lemma boot_refines :
  ltriple (fun s => idle T0 (world_of (reorg_of s)) /\ no_cached_proof (reorg_of s) /\ chain_at T0)
    (bootDecoder node rc) (fun _ => Lon Run) (Lon Reached).
Proof.
  eapply (ltriple_conseq _ (Lon Reached) _ (fun _ => Lon Run) _ (Lon Reached));
    [|intros s (Hi & Hp & Hc)|done|done].
  2: { split; [|exact Hp]. exists T0. by split; [split|]. }
  set (Q := of_batch (fun t _ => reached t)).
  change (Lon Reached) with (Lon Q).
  unfold bootDecoder. eapply ltriple_bind; [apply lk_verifyChainGenesis|intros [|]].
  { by apply ltriple_raise. }
  eapply ltriple_bind; [apply ltriple_answer|intros now].
  eapply ltriple_bind; [apply lk_checkReorgHalt|intros status].
  eapply (ltriple_bind _ _ (fun _ => Lon Run)).
  { unfold readLoopCursors.
    eapply (ltriple_bind _ _ (fun last => Lon (of_batch (fun t _ => reached t /\ last = stored_tip t)))).
    { apply (ltriple_ldb (Q := Q)). intros v. apply brings_read_retrying. }
    intros last. set (Q' := of_batch (fun t _ => reached t /\ last = stored_tip t)).
    assert (Hkeep : forall A (m : L A), lkeeps Q' m -> ltriple (Lon Q') m (fun _ => Lon Q') (Lon Q)).
    { intros A m Hm. eapply ltriple_conseq; [exact Hm|done|done|]. intros s Hs.
      eapply Lon_impl; [exact Hs|]. by intros t v [? _]. }
    eapply ltriple_bind; [apply Hkeep, lk_rests; intros P; apply rests_read_retrying|intros tx].
    eapply ltriple_bind; [apply ltriple_answer|intros now'].
    eapply ltriple_bind; [apply Hkeep, lk_progress|intros []].
    eapply (ltriple_bind _ _ (fun _ => Lon Run)).
    { apply ltriple_batch. intros t v [Hr ->]. split_and!; [exact Hr|by apply refusals_none|done|].
      simpl. unfold LoopSpec.clamp. lia. }
    intros []. by apply ltriple_latches. }
  intros []. eapply (ltriple_conseq _ (Lon Run) _ (fun _ => Lon Run) _ (Lon Run)); [|done|done|].
  2: { intros s Hs. eapply (Lon_impl Run); [exact Hs|]. intros t v [Ht _]. exact Ht. }
  lkeep.
Qed.
End Refine.
