(* ===== verification/LoopSafety.v ===== *)
(** * Properties of the parse loop

    What the loop may do to the database over any number of passes, whatever the node
    answers and whichever database calls fail; what a halt stops for good; and the wait that
    leaves the cursor above the stored tip. *)
From S2P Require Import Prelude JsNum Wire BlockDecoder BlockFetch LibSample Config Db DbRows.
From S2P Require Import Atomic Idle Dispensers DispenserReorg Carrier Parse Ingest BlockStore.
From S2P Require Import BlockAtomic Halt Node ReorgWalk ReorgSpec ReorgFacts Sample ReorgSafety.
From S2P Require Import LoopState HaltPark TipRefresh SyncStatus MainLoop LoopSpec LoopFacts.
#[local] Open Scope Z_scope.
#[local] Open Scope update_scope.

(** ** The refinement *)

Section Refinement.
Context {Coll : Collation} {Lib : ChainLib} `{LibView}.
Context (node : nat -> node_view) (source : nat -> fetch_path -> jstr -> fetch_answer).
Context (rc : reorg_config) (wireFormat : wire_format) (fuel : nat).

Abbreviation start := (startBlockIndex (base_config rc)).
Abbreviation chain_step := (chain_step node source rc wireFormat).
Abbreviation chain_at := (chain_at rc).

Definition boot_and_run (passes : nat) : L unit :=
  bootDecoder node rc;; run_loop node source rc wireFormat fuel passes.

Lemma boot_and_run_refines passes T :
  0 <= start ->
  ltriple (fun s => idle T (world_of (reorg_of s)) /\ no_cached_proof (reorg_of s) /\ chain_at T)
    (boot_and_run passes) (fun _ => Lon (of_batch (between_passes node source rc wireFormat T)))
    (Ended node source rc wireFormat T).
Proof.
  intros Hs. eapply ltriple_bind.
  - eapply ltriple_conseq; [apply (boot_refines node source rc wireFormat T)|by intros s H1|
      intros u s H1; exact H1|]. intros s H1. by left.
  - intros []. by apply run_loop_refines.
Qed.

End Refinement.

(** ** A condemned database *)

(** A live halt, and rolled-back heights above the stored tip. *)
Definition condemned (t : tables) : Prop := live_halt t /\ depth_above t <> 0.

Section Condemned.
Context (node : nat -> node_view) (T : tables) (condemned_T : condemned T).

(** Parked, and in a way only a read of the marker as clear could end. *)
Definition Frozen : assertion := fun t v =>
  t = T /\ reorgHaltParked (v_park v) = true
  /\ (reorgHaltParkUnread (v_park v) = true \/ v_halted v = true).

Definition Untouched : assertion := fun t _ => t = T.

Lemma frozen_untouched s : Lon Frozen s -> Lon Untouched s.
Proof. intros Hs. eapply Lon_impl; [exact Hs|]. by intros t v [Ht _]. Qed.

(** What a probe leaves alone. *)
Definition still (p u : bool) : assertion := fun t v =>
  t = T /\ reorgHaltParked (v_park v) = p /\ reorgHaltParkUnread (v_park v) = u.

Lemma still_untouched p u s : Lon (still p u) s -> Lon Untouched s.
Proof. intros Hs. eapply Lon_impl; [exact Hs|]. by intros t v [Ht _]. Qed.

Section Parked.
Context {E : lstate -> Prop}.

(** A real read of the marker finds the halt; a failed one leaves what was known. *)
Lemma probe_condemned now p u (known : bool) :
  ltriple (Lon (fun t v => still p u t v /\ (known = true -> v_halted v = true))) (probe now)
    (fun st => Lon (fun t v => still p u t v /\ st_halted st = v_halted v
       /\ (known = true -> v_halted v = true)
       /\ (reorgHaltProbeFailed (v_park v) = Some true
           \/ reorgHaltProbeFailed (v_park v) = Some false /\ v_halted v = true)))
    E.
Proof.
  destruct condemned_T as [Hlive _]. unfold probe.
  set (Q := fun t v => still p u t v /\ (known = true -> v_halted v = true)).
  set (Read := fun t v => Q t v /\ (reorgHaltProbeFailed (v_park v) = Some true
    \/ reorgHaltProbeFailed (v_park v) = Some false /\ v_halted v = true)).
  assert (Hstatus : ltriple (Lon Read) (lgets getReorgHaltStatus)
    (fun st => Lon (fun t v => still p u t v /\ st_halted st = v_halted v
       /\ (known = true -> v_halted v = true)
       /\ (reorgHaltProbeFailed (v_park v) = Some true
           \/ reorgHaltProbeFailed (v_park v) = Some false /\ v_halted v = true)))
    E).
  { intros s [(t & [[Ht Hk] Hf] & Hi) Hp]. split; [|exact Hp]. exists t. by split. }
  eapply (ltriple_bind _ _ (fun m => Lon (fun t v => Q t v /\ forall x, m = Some x -> halted x = true))).
  { apply (ltriple_try_map _ _ _ (fun m t v => Q t v /\ forall x, m = Some x -> halted x = true) Q).
    - intros v. eapply (brings_conseq _ (fun t => Q t v)); [apply brings_readReorgHaltState|done| |done].
      intros m t [Ht ->]. split; [exact Ht|]. intros x [= <-]. destruct Ht as [[-> _] _]. exact Hlive.
    - intros e. apply ltriple_ret. intros s Hs. by eapply Lon_impl. }
  intros [m|].
  2: { eapply (ltriple_bind _ _ (fun _ => Lon Read)); [|intros []; exact Hstatus].
       apply ltriple_park. intros t v [[Ht Hk] _]. split; [by split|]. by left. }
  apply ltriple_pure. intros Hm. specialize (Hm m eq_refl).
  eapply (ltriple_bind _ _ (fun _ => Lon (fun t v => Q t v /\ reorgHaltProbeFailed (v_park v) = Some false))).
  { apply ltriple_park. by intros t v [Ht Hk]. }
  intros []. eapply ltriple_bind.
  { apply (ltriple_gets _ (fun _ => false)). intros s. by rewrite Hm, andb_false_r. }
  intros keep. apply ltriple_pure. intros ->.
  eapply ltriple_bind; [apply ltriple_forget|intros wasHalted].
  eapply (ltriple_bind _ _ (fun _ => Lon (fun t v => (still p u t v /\ v_halted v = true)
    /\ reorgHaltProbeFailed (v_park v) = Some false))).
  { intros s [(t & [[Ht Hk] Hf] & Hi) Hp]. split; [|exact Hp]. exists t. split; [|exact Hi].
    split; [|exact Hf]. split; [exact Ht|exact Hm]. }
  intros []. eapply (ltriple_bind _ _ (fun _ => Lon Read)); [|intros []; exact Hstatus].
  apply ltriple_park. intros t v [[Ht Hv] Hf]. split; [by split|]. by right.
Qed.

(** ** It stays parked *)

Definition Closed_park (f : park -> park) : Prop := forall p,
  reorgHaltParked (f p) = reorgHaltParked p /\ reorgHaltParkUnread (f p) = reorgHaltParkUnread p.

Lemma frozen_park f : Closed_park f -> ltriple (Lon Frozen) (on_park f) (fun _ => Lon Frozen) E.
Proof.
  intros Hf. apply ltriple_park. intros t v (-> & Hp & Hu). destruct (Hf (v_park v)) as [H1 H2].
  split; [done|]. simpl. rewrite H1, H2. by split.
Qed.

Lemma frozen_progress f : ltriple (Lon Frozen) (on_progress f) (fun _ => Lon Frozen) E.
Proof. by apply ltriple_progress. Qed.

Lemma parked_read :
  ltriple (Lon Frozen) (lgets (fun s => parked s)) (fun b => Lon (fun t v => Frozen t v /\ b = true)) E.
Proof.
  intros s [(t & (-> & Hp & Hu) & Hi) Hc]. split; [|exact Hc]. exists T. by split.
Qed.

(** Entering the park, whatever it was entered for. *)
Lemma park_frozen h unread :
  ltriple (Lon (fun t v => t = T /\ reorgHaltParked (v_park v) = false
                           /\ (unread = true \/ v_halted v = true)))
    (parkOnReorgHalt node h unread) (fun _ => Lon Frozen) E.
Proof.
  unfold parkOnReorgHalt.
  eapply ltriple_bind; [by apply (ltriple_gets _ (fun v => reorgHaltParked (v_park v)))|].
  intros [|].
  { eapply ltriple_weaken; [apply (ltriple_pure (Q := Frozen) False); done|].
    intros t v [(_ & Hp & _) Hq]. congruence. }
  eapply ltriple_bind; [apply ltriple_answer|intros now]. apply ltriple_park.
  intros t v [(-> & _ & Hu) _]. split; [done|]. by split.
Qed.

(** The check that follows a read which found the halt, or which failed. *)
Lemma check_frozen :
  ltriple (Lon (fun t v => t = T /\ reorgHaltParked (v_park v) = false
      /\ (reorgHaltProbeFailed (v_park v) = Some true
          \/ reorgHaltProbeFailed (v_park v) = Some false /\ v_halted v = true)))
    (parkOnRolledBackHalt node) (fun b => Lon (fun t v => Frozen t v /\ b = true)) E.
Proof.
  destruct condemned_T as [_ Hdepth].
  assert (Hpark : forall h unread, ltriple
    (Lon (fun t v => t = T /\ reorgHaltParked (v_park v) = false
                     /\ (unread = true \/ v_halted v = true)))
    (parkOnReorgHalt node h unread;; mret true)
    (fun b => Lon (fun t v => Frozen t v /\ b = true)) E).
  { intros h unread. eapply ltriple_bind; [apply park_frozen|intros []]. apply ltriple_ret.
    intros s Hs. by eapply Lon_impl. }
  unfold parkOnRolledBackHalt.
  eapply ltriple_bind; [by apply (ltriple_gets _ (fun v => reorgHaltParked (v_park v)))|].
  intros [|].
  { eapply ltriple_weaken; [apply (ltriple_pure (Q := Frozen) False); done|].
    intros t v [(_ & Hp & _) Hq]. congruence. }
  eapply ltriple_bind; [by apply (ltriple_gets _ (fun v => reorgHaltProbeFailed (v_park v)))|].
  intros failed. eapply ltriple_bind; [apply ltriple_forget|intros height].
  case_bool_decide as Ef.
  { eapply ltriple_weaken; [apply Hpark|]. intros t v [[(-> & Hp & _) _] _]. split; [done|].
    split; [exact Hp|by left]. }
  set (Q := fun t v => t = T /\ reorgHaltParked (v_park v) = false /\ v_halted v = true).
  apply (ltriple_weaken _ Q).
  2: { intros t v [[(-> & Hp & Hr) _] Hf]. split; [done|]. split; [exact Hp|].
       destruct Hr as [Hr|[_ Hr]]; [by rewrite Hr in Hf|exact Hr]. }
  eapply ltriple_bind.
  { apply (ltriple_gets _ v_halted). done. }
  intros live. destruct live; cbn [negb].
  2: { eapply ltriple_weaken; [apply (ltriple_pure (Q := Frozen) False); done|].
       intros t v [(_ & _ & Hl) Hq]. congruence. }
  apply (ltriple_weaken _ Q); [|by intros t v [Hq _]].
  eapply (ltriple_bind _ _ (fun r => Lon (fun t v => Q t v /\ r <> Some 0))).
  { apply (ltriple_sure _ (fun r t v => Q t v /\ r <> Some 0)). intros v.
    apply (brings_try _ _ _ _ (fun t => Q t v)).
    - eapply (brings_bind _ _ (fun n t => Q t v /\ n = depth_above t)).
      + apply (brings_countReorgDeletesAboveTip (fun t => Q t v)).
      + intros n. apply brings_ret. intros t [Ht ->]. split; [exact Ht|]. intros [= E0].
        destruct Ht as [-> _]. by destruct Hdepth.
    - intros e. by apply brings_ret. }
  intros r. apply ltriple_pure. intros Hr. case_bool_decide; [done|].
  eapply ltriple_weaken; [apply Hpark|]. intros t v (-> & Hp & Hl). split; [done|].
  split; [exact Hp|by right].
Qed.

(** A forced read of an unread marker either fails, or finds the halt and parks again. *)
Lemma resume_unread_frozen :
  ltriple (Lon (fun t v => Frozen t v /\ reorgHaltParkUnread (v_park v) = true))
    (resumeFromUnreadPark node) (fun b => Lon (fun t v => Frozen t v /\ b = false)) E.
Proof.
  assert (Hstay : forall m : L bool, m = mret false -> ltriple (Lon Frozen) m
    (fun b => Lon (fun t v => Frozen t v /\ b = false)) E).
  { intros m ->. apply ltriple_ret. intros s Hs. by eapply Lon_impl. }
  set (U := fun t v => still true true t v /\ (false = true -> v_halted v = true)).
  apply (ltriple_weaken _ U).
  { unfold resumeFromUnreadPark. eapply ltriple_bind; [apply ltriple_answer|intros now].
    eapply ltriple_bind; [apply ltriple_forget|intros last].
    destruct (_ && _).
    { eapply ltriple_weaken; [by apply Hstay|]. intros t v [(-> & Hp & Hu) _]. by repeat split; auto. }
    eapply (ltriple_bind _ _ (fun _ => Lon U)).
    { apply ltriple_park. by intros t v [(-> & Hp & Hu) _]. }
    intros []. eapply ltriple_bind; [apply probe_condemned|intros status].
    eapply ltriple_bind; [by apply (ltriple_gets _ (fun v => reorgHaltProbeFailed (v_park v)))|].
    intros failed. case_bool_decide as Ef; cbn [negb].
    2: { eapply ltriple_weaken; [by apply Hstay|]. intros t v [[(-> & Hp & Hu) _] _].
         by repeat split; auto. }
    subst failed. eapply (ltriple_bind _ _ (fun _ => Lon (fun t v =>
      (t = T /\ reorgHaltParked (v_park v) = false
       /\ (reorgHaltProbeFailed (v_park v) = Some true
           \/ reorgHaltProbeFailed (v_park v) = Some false /\ v_halted v = true))
      /\ st_halted status = true))).
    { apply ltriple_park. intros t v [[(-> & Hp & Hu) (Hst & _ & Hf)] Ef].
      destruct Hf as [Hf|[Hf Hl]]; [by rewrite Hf in Ef|].
      split; [|by rewrite Hst]. split; [done|]. split; [done|]. right. by split. }
    intros []. apply ltriple_pure. intros ->.
    eapply ltriple_bind; [apply check_frozen|]. intros again. apply ltriple_ret.
    intros s Hs. eapply Lon_impl; [exact Hs|]. by intros t v [Hf ->]. }
  intros t v [(-> & Hp & _) Hu]. split; [by repeat split|done].
Qed.

Lemma resume_frozen :
  ltriple (Lon Frozen) (resumeFromReorgHaltPark node)
    (fun b => Lon (fun t v => Frozen t v /\ b = false)) E.
Proof.
  unfold resumeFromReorgHaltPark. eapply ltriple_bind; [apply parked_read|intros held].
  apply ltriple_pure. intros ->. cbn [negb].
  eapply ltriple_bind; [by apply (ltriple_gets _ (fun v => reorgHaltParkUnread (v_park v)))|].
  intros [|].
  { eapply ltriple_weaken; [apply resume_unread_frozen|]. intros t v [Hf Hq]. by split. }
  set (K := fun t v => still true false t v /\ (true = true -> v_halted v = true)).
  apply (ltriple_weaken _ K).
  2: { intros t v [(-> & Hp & Hu) Hq]. split; [by repeat split|]. intros _.
       destruct Hu as [Hu|Hu]; [congruence|exact Hu]. }
  assert (Hstay : ltriple (Lon K) (mret false)
    (fun b => Lon (fun t v => Frozen t v /\ b = false)) E).
  { apply ltriple_ret. intros s Hs. eapply Lon_impl; [exact Hs|].
    intros t v [(-> & Hp & Hu) Hl]. by repeat split; auto. }
  eapply ltriple_bind; [apply ltriple_forget|intros persisted].
  case_bool_decide; [exact Hstay|].
  eapply ltriple_bind; [apply ltriple_answer|intros now].
  eapply (ltriple_bind _ _ (fun st => Lon (fun t v => K t v /\ st_halted st = true))).
  { unfold checkReorgHalt. eapply ltriple_bind; [apply ltriple_forget|intros checked].
    destruct (negb false && _ && _).
    - intros s [(t & [Hs Hl] & Hi) Hc]. split; [|exact Hc]. exists t. split; [|exact Hi].
      split; [by split|]. by apply Hl.
    - eapply ltriple_conseq; [apply probe_condemned|done| |done].
      intros st s Hs. eapply Lon_impl; [exact Hs|]. intros t v (Hst & Eq & Hl & _).
      split; [by split|]. rewrite Eq. by apply Hl. }
  intros status. apply ltriple_pure. intros ->. exact Hstay.
Qed.

Lemma holds_frozen cfg :
  ltriple (Lon Frozen) (reorgHaltHoldsLoop node cfg)
    (fun b => Lon (fun t v => Frozen t v /\ b = true)) E.
Proof.
  unfold reorgHaltHoldsLoop. eapply ltriple_bind; [apply ltriple_forget|intros due].
  eapply (ltriple_bind _ _ (fun _ => Lon Frozen)).
  { destruct due; [|by apply ltriple_ret].
    eapply ltriple_bind; [by apply frozen_park|intros []].
    unfold parkOnRolledBackHalt. eapply (ltriple_bind _ _ (fun _ => Lon Frozen));
      [|intros again; by apply ltriple_ret].
    eapply ltriple_bind; [apply parked_read|intros held]. apply ltriple_pure. intros ->.
    by apply ltriple_ret. }
  intros []. eapply ltriple_bind; [apply parked_read|intros held]. apply ltriple_pure. intros ->.
  cbn [negb]. eapply (ltriple_bind _ _ (fun _ => Lon Frozen)).
  { unfold leaveReorgHaltPark. eapply ltriple_bind; [apply resume_frozen|intros resumed].
    apply ltriple_pure. intros ->. by apply ltriple_ret. }
  intros []. apply ltriple_ret. intros s Hs. by eapply Lon_impl.
Qed.

End Parked.

Section Loop.
Context {Coll : Collation} {Lib : ChainLib} `{LibView}.
Context (source : nat -> fetch_path -> jstr -> fetch_answer) (rc : reorg_config).
Context (wireFormat : wire_format) (fuel : nat).

(** A parked loop does not throw either. *)
Lemma run_frozen passes :
  ltriple (Lon Frozen) (run_loop node source rc wireFormat fuel passes)
    (fun _ => Lon Frozen) (fun _ => False).
Proof.
  induction passes as [|n IH]; cbn [run_loop]; [by apply ltriple_ret|].
  eapply (ltriple_bind _ _ (fun _ => Lon Frozen)).
  2: { intros [|]; [exact IH|by apply ltriple_ret]. }
  unfold loop_pass. eapply ltriple_bind; [apply ltriple_answer|intros polled].
  eapply ltriple_bind; [apply frozen_progress|intros []].
  eapply ltriple_bind; [apply ltriple_forget|intros stopped]. destruct stopped.
  { eapply ltriple_bind; [apply frozen_progress|intros []]. by apply ltriple_ret. }
  eapply ltriple_bind; [apply holds_frozen|intros held]. apply ltriple_pure. intros ->.
  by apply ltriple_ret.
Qed.

Lemma boot_frozen :
  ltriple (Lon (fun t v => t = T /\ reorgHaltParked (v_park v) = false))
    (bootDecoder node rc) (fun _ => Lon Frozen) (Lon Untouched).
Proof.
  set (Free := fun t v => still false false t v \/ still false true t v).
  apply (ltriple_weaken _ Free).
  2: { intros t v [-> Hp]. unfold Free, still. destruct (reorgHaltParkUnread (v_park v)) eqn:Eu; auto. }
  assert (Hfree : forall s, Lon Free s -> Lon Untouched s).
  { intros s Hs. eapply Lon_impl; [exact Hs|]. intros t v [[Ht _]|[Ht _]]; exact Ht. }
  unfold bootDecoder. eapply ltriple_bind.
  { eapply ltriple_conseq; [apply (lk_verifyChainGenesis (Q := Free))|done|
      intros u s Hs; exact Hs|exact Hfree]. }
  intros [|]; [by apply ltriple_raise|].
  eapply ltriple_bind; [apply ltriple_answer|intros now].
  set (Read := fun t v => t = T /\ reorgHaltParked (v_park v) = false
    /\ (reorgHaltProbeFailed (v_park v) = Some true
        \/ reorgHaltProbeFailed (v_park v) = Some false /\ v_halted v = true)).
  eapply (ltriple_bind _ _ (fun _ => Lon Read)).
  { unfold checkReorgHalt. eapply ltriple_bind; [apply ltriple_forget|intros checked]. cbn [negb andb].
    apply ltriple_named. intros T' V HV.
    assert (Hu : exists u, still false u T' V) by (destruct HV; by eexists).
    destruct Hu as [u Hu].
    eapply ltriple_conseq; [apply (probe_condemned now false u false)| | |done].
    - intros s Hs. eapply Lon_impl; [exact Hs|]. by intros t v [-> ->].
    - intros st s Hs. eapply Lon_impl; [exact Hs|]. intros t v ((-> & Hp & _) & _ & _ & Hf).
      by repeat split. }
  intros status.
  assert (Hread : forall s, Lon Read s -> Lon Untouched s).
  { intros s Hs. eapply Lon_impl; [exact Hs|]. by intros t v [Ht _]. }
  assert (Hrest : forall A (m : M A), (forall P, rests P m) ->
    ltriple (Lon Read) (ldb m) (fun _ => Lon Read) (Lon Untouched)).
  { intros A m Hm. eapply ltriple_conseq; [apply (ltriple_rests (Q := Read) m Hm)|done|done|exact Hread]. }
  eapply (ltriple_bind _ _ (fun _ => Lon Read)).
  { unfold readLoopCursors.
    eapply ltriple_bind; [apply Hrest; intros P; apply rests_read_retrying|intros last].
    eapply ltriple_bind; [apply Hrest; intros P; apply rests_read_retrying|intros tx].
    eapply ltriple_bind; [apply ltriple_answer|intros now'].
    eapply (ltriple_bind _ _ (fun _ => Lon Read)); [by apply ltriple_progress|intros []].
    eapply (ltriple_bind _ _ (fun _ => Lon Read)); [by apply ltriple_batch|intros []].
    by apply ltriple_latches. }
  intros []. eapply (ltriple_bind _ _ (fun _ => Lon Read)); [by apply ltriple_park|intros []].
  eapply ltriple_bind; [apply check_frozen|intros b]. apply ltriple_ret.
  intros s Hs. eapply Lon_impl; [exact Hs|]. by intros t v [Hf _].
Qed.
End Loop.
End Condemned.

(** C3: a database condemned by a live halt that left rolled-back heights above its tip is
    never touched again, whatever the node answers and whichever database calls fail, the
    reads of the marker and of the count among them: the boot parks the decoder or throws,
    and then every number of passes returns, still parked, over the same tables. *)
Theorem condemned_never_parsed {Coll : Collation} {Lib : ChainLib} `{LibView} node source rc
    wireFormat fuel passes T s :
  condemned T -> idle T (world_of (reorg_of s)) -> no_cached_proof (reorg_of s) ->
  parked s = false ->
  match bootDecoder node rc s with
  | (RRet _, s') =>
      exists s'', run_loop node source rc wireFormat fuel passes s' = (RRet tt, s'')
                  /\ idle T (world_of (reorg_of s'')) /\ parked s'' = true
  | (RBlocked, _) => False
  | (_, s') => idle T (world_of (reorg_of s'))
  end.
Proof.
  intros HT Hi Hc Hp.
  assert (Hs : Lon (fun t v => t = T /\ reorgHaltParked (v_park v) = false) s).
  { split; [|exact Hc]. by exists T. }
  pose proof (boot_frozen node T HT rc s Hs) as Hb.
  destruct (bootDecoder node rc s) as [[u|e| |] s'] eqn:Eb; [| |done|].
  - pose proof (run_frozen node T HT source rc wireFormat fuel passes s' Hb) as Hr.
    destruct (run_loop node source rc wireFormat fuel passes s') as [[[]|e| |] s''];
      [|done..].
    destruct Hr as [(t & (-> & Hq & _) & Hw) _]. by exists s''.
  - by destruct Hb as [(t & -> & Hw) _].
  - by destruct Hb as [(t & -> & Hw) _].
Qed.
