(* ===== verification/LoopRuns.v ===== *)
(** * The wait that leaves the cursor above the stored tip

    parkOrRethrow publishes a wait without reading the cursors again, so a rollback that
    deleted blocks before it came to an unproven one leaves the cursor at a height no longer
    stored.  From there the loop asks for the block above the hole for ever. *)
From S2P Require Import Prelude JsNum Wire BlockDecoder BlockFetch LibSample Config Db DbRows.
From S2P Require Import Atomic Idle Dispensers DispenserReorg Carrier Parse Ingest BlockStore.
From S2P Require Import BlockAtomic Halt Node ReorgWalk ReorgSpec ReorgFacts Sample ReorgSafety.
From S2P Require Import LoopState HaltPark TipRefresh SyncStatus MainLoop LoopSpec LoopFacts.
From S2P Require Import LoopSafety.
#[local] Open Scope Z_scope.
#[local] Open Scope update_scope.

(** The cursor stands at a height that is not stored, and nothing but a wait is published. *)
Definition stranded (T : tables) (c : Z) (s : lstate) : Prop :=
  cursor s = c /\ block_by_index c T = None /\ parked s = false
  /\ reorgHaltParkCheckDue (park_of s) = false /\ is_Some (reorgWait (progress_of s)).

Section Stranded.
Context {Coll : Collation} {Lib : ChainLib} `{LibView}.
Context (node : nat -> node_view) (source : nat -> fetch_path -> jstr -> fetch_answer).
Context (rc : reorg_config) (wireFormat : wire_format) (fuel : nat).
Context (T : tables) (c : Z).

Abbreviation start := (startBlockIndex (base_config rc)).

Context (above_start : start <= c).
Context (tips_above : forall k info tip,
  getBlockchainInfo (node k) = Info info -> info_blocks info = Some tip -> c < tip).
Context (decodes : forall k path hash hex,
  source k path hash = Fetched hex -> decode_block wireFormat hex <> None).

(** [stranded] as an assertion, with what else a step needs of the view. *)
Definition Stuck (G : view -> Prop) : assertion := fun t v =>
  t = T /\ lastProcessedBlockIndex (v_batch v) = c /\ block_by_index c T = None
  /\ reorgHaltParked (v_park v) = false /\ reorgHaltParkCheckDue (v_park v) = false
  /\ is_Some (reorgWait (v_progress v)) /\ G v.

Abbreviation Wait := (Stuck (fun _ => True)).
Abbreviation tip_of v := (blockchainInfoLastBlock (v_progress v)).
(** The node's tip, as last read, is above the cursor. *)
Abbreviation Behind := (Stuck (fun v => c < tip_of v)).
Abbreviation never := (fun _ : lstate => False).
Abbreviation sticks P m := (ltriple (Lon P) m (fun _ => Lon P) never).

Definition keeps_wait (f : progress -> progress) : Prop := forall p,
  reorgWait (f p) = reorgWait p /\ blockchainInfoLastBlock (f p) = blockchainInfoLastBlock p.

Lemma stuck_progress f (G : view -> Prop) :
  keeps_wait f -> (forall v, G v -> G (v <| v_progress ::= f |>)) ->
  sticks (Stuck G) (on_progress f).
Proof.
  intros Hf HG. apply ltriple_progress. intros t v (-> & Hc & Hb & Hp & Hd & Hw & Hv).
  destruct (Hf (v_progress v)) as [E1 E2]. repeat split; try done; [|by apply HG].
  simpl. by rewrite E1.
Qed.

Lemma wait_progress f : keeps_wait f -> sticks Wait (on_progress f).
Proof. intros Hf. by apply stuck_progress. Qed.

Lemma behind_progress f : keeps_wait f -> sticks Behind (on_progress f).
Proof.
  intros Hf. apply stuck_progress; [exact Hf|]. intros v Hv. simpl.
  destruct (Hf (v_progress v)) as [_ ->]. exact Hv.
Qed.

Lemma wait_latches f : sticks Wait (on_latches f).
Proof. by apply ltriple_latches. Qed.

(** ** The tip *)

(** A refusal ends the pass; an accepted tip is above the cursor. *)
Definition gated (b : bool) : lstate -> Prop := Lon (Stuck (fun v => b = false -> c < tip_of v)).

Lemma gated_true {A} (m : L A) :
  sticks Wait m -> ltriple (Lon Wait) (m;; mret true) gated never.
Proof.
  intros Hm. eapply ltriple_bind; [exact Hm|intros a]. apply ltriple_ret. intros s Hs.
  eapply Lon_impl; [exact Hs|]. intros t v (? & ? & ? & ? & ? & ? & _). by repeat split.
Qed.

Lemma gated_done : ltriple (Lon Wait) (mret true) gated never.
Proof.
  apply ltriple_ret. intros s Hs.
  eapply Lon_impl; [exact Hs|]. intros t v (? & ? & ? & ? & ? & ? & _). by repeat split.
Qed.

Lemma wait_gate (b : bool) f g :
  sticks Wait (if b then on_latches f;; mret true else on_latches g;; mret false).
Proof. destruct b; (eapply ltriple_bind; [apply wait_latches|intros []]; by apply ltriple_ret). Qed.

Lemma fetched_tip : ltriple (Lon Wait) (fetchChainTip node rc) gated never.
Proof.
  unfold fetchChainTip. eapply ltriple_bind; [apply ltriple_ask|intros a].
  apply ltriple_pure. intros (k & ->).
  destruct (getBlockchainInfo (node k)) as [| |info] eqn:Ei; [apply gated_done| |].
  { by apply gated_true, wait_latches. }
  destruct (info_blocks info) as [tip|] eqn:Et; [|by apply gated_true, wait_latches].
  pose proof (tips_above k info tip Ei Et) as Htip.
  destruct (blockchainInfoWellFormed info); cbn [negb]; [|by apply gated_true, wait_latches].
  eapply ltriple_bind; [apply wait_latches|intros []].
  eapply ltriple_bind; [apply wait_gate|intros [|]]; [apply gated_done|].
  eapply ltriple_bind; [apply wait_latches|intros []].
  eapply (ltriple_bind _ _ (fun _ => Lon Wait)).
  { unfold genesisDue. destruct (chainGenesisUnpinned _); [by apply ltriple_ret|].
    eapply ltriple_bind; [apply ltriple_answer|intros now].
    eapply ltriple_bind; [apply ltriple_forget|intros checked]. by apply ltriple_ret. }
  intros due. eapply (ltriple_bind _ _ (fun _ => Lon Wait)).
  { destruct due; [|by apply ltriple_ret]. unfold refuseForeignGenesis.
    eapply ltriple_bind; [apply lk_verifyChainGenesis|intros mismatch]. apply wait_gate. }
  intros [|]; [apply gated_done|]. eapply ltriple_bind; [apply wait_gate|intros [|]];
    [apply gated_done|]. unfold acceptTip.
  eapply (ltriple_bind _ _ (fun _ => Lon Behind)).
  2: { intros u. apply ltriple_ret. intros s Hs. eapply Lon_impl; [exact Hs|].
       intros t v (? & ? & ? & ? & ? & ? & ?). by repeat split. }
  eapply (ltriple_bind _ _ (fun _ => Lon Behind)).
  { apply ltriple_progress. intros t v (-> & ? & ? & ? & ? & ? & _). by repeat split. }
  intros []. eapply ltriple_bind; [apply ltriple_answer|intros now].
  eapply (ltriple_bind _ _ (fun _ => Lon Behind)); [by apply ltriple_latches|intros []].
  by apply behind_progress.
Qed.

Lemma refreshed_tip : ltriple (Lon Wait) (refreshChainTip node rc fuel c) gated never.
Proof.
  unfold refreshChainTip. eapply ltriple_bind; [apply fetched_tip|intros refused].
  unfold gated at 1. destruct refused.
  { eapply ltriple_weaken; [apply gated_done|].
    intros t v (? & ? & ? & ? & ? & ? & _). by repeat split. }
  apply (ltriple_weaken _ Behind).
  2: { intros t v (? & ? & ? & ? & ? & ? & Hg). by repeat split; auto. }
  eapply ltriple_bind; [apply (ltriple_gets _ (fun v => tip_of v)); done|intros tip].
  apply (ltriple_weaken _ (fun t v => Behind t v /\ c < tip)).
  2: { intros t v [Hv ->]. split; [exact Hv|]. apply Hv. }
  apply ltriple_pure. intros Htip.
  eapply (ltriple_bind _ _ (fun _ => Lon Behind)).
  { apply behind_progress. intros p. by destruct (_ <=? _). }
  intros []. replace (tip <? c) with false by (symmetry; apply Z.ltb_ge; lia).
  apply ltriple_ret. intros s Hs. eapply Lon_impl; [exact Hs|].
  intros t v (? & ? & ? & ? & ? & ? & ?). by repeat split.
Qed.

(** ** The block above the hole *)

Lemma behind_fetch :
  ltriple (Lon Behind) (fetchNextBlock node source wireFormat (c + 1))
    (fun r => Lon (fun t v => Behind t v /\ forall hash hex, r = Some (hash, hex) ->
       decode_block wireFormat hex <> None)) never.
Proof.
  assert (Hfail : forall content, ltriple (Lon Behind) (fetch_failed content;; mret None)
    (fun r : option (jstr * jstr) => Lon (fun t v => Behind t v /\ forall hash hex,
       r = Some (hash, hex) -> decode_block wireFormat hex <> None)) never).
  { intros content. eapply (ltriple_bind _ _ (fun _ => Lon Behind)).
    - unfold fetch_failed. eapply ltriple_bind; [by apply behind_progress|intros []].
      eapply ltriple_bind; [apply ltriple_forget|intros errors].
      destruct (errors =? 5); [|by apply ltriple_ret].
      apply (ltriple_sure _ (fun _ => Behind)). intros v w Hw. exact Hw.
    - intros u. apply ltriple_ret. intros s Hs. by eapply Lon_impl. }
  unfold fetchNextBlock. eapply ltriple_bind.
  { apply behind_progress. intros p. unfold note_fetch_height. by case_bool_decide. }
  intros []. eapply ltriple_bind; [apply ltriple_answer|intros [| | |hash]]; [by apply Hfail..|].
  eapply ltriple_bind; [apply ltriple_forget|intros faults].
  eapply (ltriple_bind _ _ (fun r => Lon (fun t v => Behind t v /\ exists k path,
    source k path hash = r))).
  { intros s [(t & Ht & Hi) Hc]. split; [|exact Hc]. exists t. split; [|exact Hi].
    split; [exact Ht|]. by do 2 eexists. }
  intros fetched. apply ltriple_pure. intros (k & path & Hf).
  destruct fetched as [content|hex]; [by apply Hfail|].
  eapply ltriple_bind; [by apply behind_progress|intros []].
  apply ltriple_ret. intros s Hs. eapply Lon_impl; [exact Hs|]. intros t v Hv.
  split; [exact Hv|]. intros hash' hex' [= <- <-]. by eapply decodes.
Qed.

Lemma behind_detect prev :
  ltriple (Lon Behind) (detectReorgAtBlock node rc fuel (c + 1) prev)
    (fun d => Lon (fun t v => Behind t v /\ d = Continue)) never.
Proof.
  unfold detectReorgAtBlock. replace (c + 1 - 1) with c by lia.
  eapply (ltriple_bind _ _ (fun r => Lon (fun t v => Behind t v /\ r = None))).
  { apply (ltriple_try_ldb _ _ (fun r t v => Behind t v /\ r = None) Behind).
    - intros v. eapply brings_conseq; [apply (brings_read_retrying (P := fun t => Behind t v))|done|
        |done].
      intros r t [Ht ->]. split; [exact Ht|]. destruct Ht as (-> & _ & Hb & _). exact Hb.
    - intros e. apply ltriple_ret. intros s Hs. by eapply Lon_impl. }
  intros previous. apply ltriple_pure. intros ->. apply ltriple_ret. intros s Hs.
  by eapply Lon_impl.
Qed.

Lemma behind_ingest :
  ltriple (Lon Behind) (ingestNextBlock node source rc wireFormat fuel)
    (fun d => Lon (fun t v => Behind t v /\ d = Continue)) never.
Proof.
  assert (Hcont : ltriple (Lon Behind) (mret Continue)
    (fun d => Lon (fun t v => Behind t v /\ d = Continue)) never).
  { apply ltriple_ret. intros s Hs. by eapply Lon_impl. }
  unfold ingestNextBlock. eapply ltriple_bind; [apply ltriple_forget|intros behind].
  eapply ltriple_bind.
  { apply behind_progress. intros p. unfold leave_synced. by destruct behind. }
  intros []. eapply ltriple_bind;
    [by apply (ltriple_gets _ (fun v => lastProcessedBlockIndex (v_batch v)))|intros last].
  apply (ltriple_weaken _ (fun t v => Behind t v /\ last = c)).
  2: { intros t v [Hv ->]. split; [exact Hv|]. apply Hv. }
  apply ltriple_pure. intros ->. cbn zeta.
  eapply ltriple_bind; [apply behind_fetch|intros fetched]. apply ltriple_pure. intros Hd.
  destruct fetched as [[hash hex]|]; [|exact Hcont]. specialize (Hd hash hex eq_refl).
  destruct (decode_block wireFormat hex) as [[prev blk]|]; [|done].
  replace (start <? c + 1) with true by (symmetry; apply Z.ltb_lt; lia).
  eapply ltriple_bind; [apply behind_detect|intros d]. by apply ltriple_pure; intros ->.
Qed.

(** ** A pass, and every number of them *)

Lemma wait_holds :
  ltriple (Lon Wait) (reorgHaltHoldsLoop node (base_config rc))
    (fun b => Lon (fun t v => Wait t v /\ b = false)) never.
Proof.
  unfold reorgHaltHoldsLoop.
  eapply ltriple_bind; [by apply (ltriple_gets _ (fun v => reorgHaltParkCheckDue (v_park v)))|].
  intros due. apply (ltriple_weaken _ (fun t v => Wait t v /\ due = false)).
  2: { intros t v [Hv ->]. split; [exact Hv|]. apply Hv. }
  apply ltriple_pure. intros ->. eapply (ltriple_bind _ _ (fun _ => Lon Wait));
    [by apply ltriple_ret|intros []].
  eapply ltriple_bind; [by apply (ltriple_gets _ (fun v => reorgHaltParked (v_park v)))|].
  intros held. apply (ltriple_weaken _ (fun t v => Wait t v /\ held = false)).
  2: { intros t v [Hv ->]. split; [exact Hv|]. apply Hv. }
  apply ltriple_pure. intros ->. apply ltriple_ret. intros s Hs. by eapply Lon_impl.
Qed.

(** Not due: the last tip read is above the cursor. *)
Lemma wait_due :
  ltriple (Lon Wait) (refreshDue node)
    (fun due => Lon (Stuck (fun v => due = false -> c < tip_of v))) never.
Proof.
  unfold refreshDue. set (f := fun v => negb (bool_decide (is_Some (lastBlockchainInfo (v_latches v))))
    || (tip_of v <=? lastProcessedBlockIndex (v_batch v))).
  eapply ltriple_bind; [by apply (ltriple_gets _ f)|intros [|]].
  { apply ltriple_ret. intros s Hs. eapply Lon_impl; [exact Hs|].
    intros t v [(? & ? & ? & ? & ? & ? & _) _]. by repeat split. }
  apply (ltriple_weaken _ Behind).
  2: { intros t v [(? & Hc & ? & ? & ? & ? & _) Hf]. repeat split; try done.
       symmetry in Hf. apply orb_false_iff in Hf as [_ Hf]. apply Z.leb_gt in Hf. lia. }
  eapply ltriple_bind; [apply ltriple_answer|intros now].
  eapply ltriple_bind; [apply ltriple_forget|intros at_]. apply ltriple_ret. intros s Hs.
  eapply Lon_impl; [exact Hs|]. intros t v (? & ? & ? & ? & ? & ? & ?). by repeat split.
Qed.

Lemma behind_step : ltriple (Lon Behind) (parse_step node source rc wireFormat fuel)
  (fun _ => Lon Wait) never.
Proof.
  assert (Hweak : forall s, Lon Behind s -> Lon Wait s).
  { intros s Hs. eapply Lon_impl; [exact Hs|].
    intros t v (? & ? & ? & ? & ? & ? & _). by repeat split. }
  unfold parse_step.
  eapply ltriple_bind; [by apply (ltriple_gets _ (fun v => lastProcessedBlockIndex (v_batch v) =? tip_of v))|].
  intros at_tip. apply (ltriple_weaken _ (fun t v => Behind t v /\ at_tip = false)).
  2: { intros t v [Hv ->]. split; [exact Hv|]. destruct Hv as (_ & -> & _ & _ & _ & _ & Hlt).
       apply Z.eqb_neq. lia. }
  apply ltriple_pure. intros ->.
  eapply ltriple_bind; [apply behind_ingest|intros d]. apply ltriple_pure. intros ->.
  by apply ltriple_ret.
Qed.

Lemma wait_pass : sticks Wait (loop_pass node source rc wireFormat fuel).
Proof.
  unfold loop_pass. eapply ltriple_bind; [apply ltriple_answer|intros polled].
  eapply ltriple_bind; [by apply wait_progress|intros []].
  eapply ltriple_bind; [apply ltriple_forget|intros [|]].
  { eapply ltriple_bind; [by apply wait_progress|intros []]. by apply ltriple_ret. }
  eapply ltriple_bind; [apply wait_holds|intros held]. apply ltriple_pure. intros ->.
  eapply ltriple_bind; [apply ltriple_answer|intros now].
  eapply ltriple_bind; [by apply wait_progress|intros []].
  eapply ltriple_bind; [apply wait_due|intros due].
  set (D := Stuck (fun v => due = false -> c < tip_of v)).
  eapply ltriple_bind; [by apply (ltriple_gets (Q := D) _ (fun v => lastProcessedBlockIndex (v_batch v)))|].
  intros last. apply (ltriple_weaken _ (fun t v => D t v /\ last = c)).
  2: { intros t v [Hv ->]. split; [exact Hv|]. apply Hv. }
  apply ltriple_pure. intros ->. eapply (ltriple_bind _ _ gated).
  { destruct due.
    - eapply ltriple_weaken; [apply refreshed_tip|].
      intros t v (? & ? & ? & ? & ? & ? & _). by repeat split.
    - apply ltriple_ret. intros s Hs. exact Hs. }
  intros [|]; unfold gated.
  - apply ltriple_ret. intros s Hs. eapply Lon_impl; [exact Hs|].
    intros t v (? & ? & ? & ? & ? & ? & _). by repeat split.
  - apply (ltriple_weaken _ Behind).
    2: { intros t v (? & ? & ? & ? & ? & ? & Hg). by repeat split; auto. }
    eapply ltriple_bind; [apply behind_step|intros []]. by apply ltriple_ret.
Qed.

Lemma wait_run passes : sticks Wait (run_loop node source rc wireFormat fuel passes).
Proof.
  induction passes as [|n IH]; cbn [run_loop]; [by apply ltriple_ret|].
  eapply ltriple_bind; [apply wait_pass|intros [|]]; [exact IH|by apply ltriple_ret].
Qed.
End Stranded.

(** C7: the wait is for ever.  While the cursor stands at a height that is not stored, the
    node's tip is above it and every block text decodes, no number of passes stores, deletes
    or writes a row or moves the cursor, whichever database calls fail; and the wait keeps
    the stall verdict, which would restart the process and read the cursor again, off. *)
Theorem stale_cursor_wedges {Coll : Collation} {Lib : ChainLib} `{LibView} node source rc
    wireFormat fuel passes T c s :
  startBlockIndex (base_config rc) <= c ->
  (forall k info tip, getBlockchainInfo (node k) = Info info -> info_blocks info = Some tip ->
     c < tip) ->
  (forall k path hash hex, source k path hash = Fetched hex ->
     decode_block wireFormat hex <> None) ->
  idle T (world_of (reorg_of s)) -> no_cached_proof (reorg_of s) -> stranded T c s ->
  exists s', run_loop node source rc wireFormat fuel passes s = (RRet tt, s')
    /\ idle T (world_of (reorg_of s')) /\ stranded T c s'
    /\ forall alert attempts now, isStalled alert attempts now s' = false.
Proof.
  intros Hc Ht Hd Hi Hp (Ec & Hb & Hk & Hu & Hw).
  assert (Hs : Lon (Stuck T c (fun _ => True)) s).
  { split; [|exact Hp]. exists T. by split_and!. }
  pose proof (wait_run node source rc wireFormat fuel T c Hc Ht Hd passes s Hs) as Hr.
  destruct (run_loop node source rc wireFormat fuel passes s) as [[[]|e| |] s']; [|done..].
  destruct Hr as [(t & (-> & Ec' & _ & Hk' & Hu' & Hw' & _) & Hi') _]. simpl in *.
  exists s'. split; [done|]. split; [exact Hi'|]. split; [by split_and!|].
  intros alert attempts now. unfold isStalled. destruct (_ =? 0); [done|].
  rewrite Hk'. by rewrite bool_decide_true by exact Hw'.
Qed.

(** ** Concrete runs *)

(** A transaction is shown without inputs or outputs. *)
#[export] Instance toy_view : LibView := {
  view_tx b := Transaction (Some (replicate 64 (Z.of_nat (length b)))) [] [];
  block_prevHash := toy_prev;
  block_timestamp := toy_time
}.

Definition toy_hex : jstr := hex_of (toy_header ++ compact_size 2 ++ concat toy_block_txs).

Definition toy_source (_ : nat) (_ : fetch_path) (_ : jstr) : fetch_answer := Fetched toy_hex.

Definition tip_info (tip : Z) : info_answer :=
  Info (ChainInfo (Some tip) (Some (numZ 1)) JNull None).

Definition fresh_lstate (t : tables) : lstate :=
  LState (fresh_rstate t []) (Batch (LoopState 0 0 ∅ ∅ ∅ ∅) 0 (-1) 0 0 0) initialLoopLatches
    fresh_park fresh_progress.

(** The toy header names this block as the one below it. *)
Definition toy_parent : jstr := uint8ArrayToHex (replicate 32 17).

Definition toy_node (_ : nat) : node_view := NodeView
  (fun z => HashIs (if z =? 100 then toy_parent else block_name z))
  (fun _ => HeaderThrows true) (tip_info 101) 1000.

(** The node proves block 103 reorged away and cannot be read on block 102. *)
Definition half_proven_node (_ : nat) : node_view := NodeView
  (fun z => HashIs (if z <=? 101 then block_name z else js "other " ++ dec z))
  (fun h => match h with
            | Some h => if eqs h (block_name 103) then Header (Some (-1)) else HeaderThrows false
            | None => HeaderThrows true
            end)
  (tip_info 104) 1000.

Abbreviation toy_boot passes := (boot_and_run toy_node toy_source (sample_reorg_config 126)
  WireDefault 20 passes (fresh_lstate initial_tables)).
Abbreviation half_boot := (boot_and_run half_proven_node toy_source (sample_reorg_config 126)
  WireDefault 20 1 (fresh_lstate forked_tables)).
(** What the half-proven rollback leaves. *)
Abbreviation torn_tables := (live (world_of (reorg_of half_boot.2))).


(** One pass from a boot on four stored blocks: block 103 is deleted, the proof for 102
    cannot be read, and the cursor stays at 103. *)
Lemma stale_cursor_wedges_witness :
  map b_index (blocks torn_tables) = [100; 101; 102] /\ stranded torn_tables 103 half_boot.2
  /\ forall passes, exists s',
       run_loop half_proven_node toy_source (sample_reorg_config 126) WireDefault 20 passes
         half_boot.2 = (RRet tt, s')
       /\ idle torn_tables (world_of (reorg_of s')) /\ stranded torn_tables 103 s'
       /\ forall alert attempts now, isStalled alert attempts now s' = false.
Proof.
  assert (Hs : stranded torn_tables 103 half_boot.2).
  { split_and!; try by vm_compute. by eexists; vm_compute. }
  split; [by vm_compute|]. split; [exact Hs|]. intros passes.
  apply (stale_cursor_wedges half_proven_node toy_source (sample_reorg_config 126) WireDefault 20
    passes torn_tables 103 half_boot.2); [done| | | |by vm_compute|exact Hs].
  - by intros k info tip [= <-] [= <-].
  - intros k path hash hex [= <-]. by vm_compute.
  - split_and!; by vm_compute.
Defined.

(** The tables a walk cut short by the depth ceiling leaves. *)
Abbreviation cut_short := (live (world_of (verifyReorg forked_node (sample_reorg_config 1) 20 None
  (fresh_rstate forked_tables [])).2)).

Lemma condemned_never_parsed_witness :
  map b_index (blocks cut_short) = [100; 101]
  /\ match bootDecoder toy_node (sample_reorg_config 126) (fresh_lstate cut_short) with
     | (RRet _, s') => exists s'',
         run_loop toy_node toy_source (sample_reorg_config 126) WireDefault 20 50 s' = (RRet tt, s'')
         /\ idle cut_short (world_of (reorg_of s'')) /\ parked s'' = true
     | (RBlocked, _) => False
     | (_, s') => idle cut_short (world_of (reorg_of s'))
     end.
Proof.
  split; [by vm_compute|]. assert (Hc : condemned cut_short) by by split; vm_compute.
  exact (condemned_never_parsed toy_node toy_source (sample_reorg_config 126) WireDefault 20 50
    cut_short (fresh_lstate cut_short) Hc (fresh_idle _ _) I eq_refl).
Defined.
