(* ===== verification/ClearHalt.v ===== *)
(** * The audited clear of a halt

    src/src/clear_reorg_halt.js: the operator command that lifts a REORG_HALT marker, with
    the three reads it makes (src/src/db/dispenser_queries.js, src/src/db/database_setup.js).

    The decoder keeps running while the command does, so the command is modelled with what
    other sessions do between two of its calls ([others]).  SQL's LIKE and the session's
    sql_mode are the server's and are parameters.  The printed texts are left out, and
    [main], which opens the handle and exits. *)
From S2P Require Import Prelude JsNum Activation Batch Collapse Config StorageGate.
From S2P Require Import DispenserCommand.
From S2P Require Import Db DbRows Atomic Idle Halt ReorgSpec ReorgFacts Sample.
#[local] Open Scope Z_scope.

(** ** Arguments *)

Record clear_args := ClearArgs {
  arg_reason : option jstr; arg_force : bool; arg_dryRun : bool; arg_help : bool;
  arg_bad : option jstr
}.

Fixpoint parse_args (argv : list jstr) (out : clear_args) : clear_args :=
  let bad m := ClearArgs (arg_reason out) (arg_force out) (arg_dryRun out) (arg_help out) (Some m) in
  match argv with
  | [] => out
  | a :: rest =>
      if eqs a (js "--reason") || eqs a (js "-r") then
        match rest with
        | [] => bad (a ++ js " requires a text argument")
        | v :: rest' =>
            if startsWith (js "-") v then bad (a ++ js " requires a text argument")
            else parse_args rest' (ClearArgs (Some v) (arg_force out) (arg_dryRun out) (arg_help out)
                                     (arg_bad out))
        end
      else if startsWith (js "--reason=") a then
        parse_args rest (ClearArgs (Some (drop (length (js "--reason=")) a)) (arg_force out)
                           (arg_dryRun out) (arg_help out) (arg_bad out))
      else if eqs a (js "--force") then
        parse_args rest (ClearArgs (arg_reason out) true (arg_dryRun out) (arg_help out) (arg_bad out))
      else if eqs a (js "--dry-run") then
        parse_args rest (ClearArgs (arg_reason out) (arg_force out) true (arg_help out) (arg_bad out))
      else if eqs a (js "--help") || eqs a (js "-h") then
        parse_args rest (ClearArgs (arg_reason out) (arg_force out) (arg_dryRun out) true (arg_bad out))
      else bad (js "unknown argument " ++ a)
  end.

Definition parseArgs (argv : list jstr) : clear_args :=
  parse_args argv (ClearArgs None false false false None).

Inductive EXIT := OK | FAILED | USAGE | NOT_RESYNCED | DISPENSER_STATE | HALT_SUPERSEDED.

(** ** The server's part *)

Class Server := {
  like : jstr -> jstr -> bool;       (* [like pattern text] *)
  session_mode : jstr                (* @@SESSION.sql_mode *)
}.

Section Tool.
Context {Srv : Server}.

(** ** The reads *)

Definition countDispensers : M Z :=
  getConnection;; select (fun t => Z.of_nat (length (dispensers t))).

Definition DISPENSER_PATTERNS : list jstr :=
  map js ["DISPENSER|%"; "%|DISPENSER|%"; "%;DISPENSER|%"]%string.

Definition is_dispenser_text (data : option jstr) : bool :=
  match data with
  | Some d => existsb (fun p => like p d) DISPENSER_PATTERNS
  | None => false
  end.

Definition hasDispenserTransactions : M bool :=
  getConnection;; select (fun t => existsb (fun r => is_dispenser_text (t_data r)) (transactions t)).

Definition assertStrictSqlMode : M unit :=
  getConnection;;
  mode ← query (fun w => inr (session_mode, w));
  if strict_mode mode then mret tt
  else throw (plain_error (js "the decoder session runs a lax sql_mode")).

Definition refuseLaxSqlMode : M bool :=
  try_catch (assertStrictSqlMode;; mret false) (fun _ => mret true).

(** ** The command *)

Section Command.
Context (others : nat -> M unit).

(** [inr]: an exit code; [inl]: whether the dispenser state is clean. *)
Definition checkClearPreconditions (force : bool) : M (bool + EXIT) :=
  deletesAboveTip ← countReorgDeletesAboveTip;
  if negb (deletesAboveTip =? 0) then mret (inr NOT_RESYNCED)
  else
    others 2%nat;;
    n ← countDispensers;
    others 3%nat;;
    dispenserTxs ← hasDispenserTransactions;
    let dispenserClean := (n =? 0) && negb dispenserTxs in
    if negb dispenserClean && negb force then mret (inr DISPENSER_STATE)
    else mret (inl dispenserClean).

Definition clear_outcome (r : clear_result) : EXIT :=
  match r with
  | AlreadyClear => OK
  | Superseded _ => HALT_SUPERSEDED
  | ClearDone cleared => if cleared then OK else FAILED
  end.

Definition run (argv : list jstr) : M EXIT :=
  let args := parseArgs argv in
  if arg_help args then mret OK
  else if bool_decide (is_Some (arg_bad args)) then mret USAGE
  else
    let reason := trim (default [] (arg_reason args)) in
    if negb (arg_dryRun args) && (length reason <? 8)%nat then mret USAGE
    else
      others 0%nat;;
      marker ← readReorgHaltState;
      if negb (halted marker) then mret OK
      else if bool_decide (halt_id marker = None) then mret FAILED
      else
        others 1%nat;;
        preconditions ← checkClearPreconditions (arg_force args);
        match (preconditions : bool + EXIT) with
        | inr code => mret code
        | inl _ =>
            others 4%nat;;
            lax ← refuseLaxSqlMode;
            if (lax : bool) then mret FAILED
            else if arg_dryRun args then mret OK
            else
              others 5%nat;;
              result ← clearReorgHalt_among (fun n => others (6 + n)%nat) reason (halt_id marker);
              mret (clear_outcome result)
        end.
End Command.

(** ** What the command may leave *)

Definition is_clear (e : event_row) : bool :=
  match e with HaltClearedEvent _ => true | _ => false end.

(** What other sessions do to the tables: anything, but the events table only grows, and
    they clear no halt. *)
Definition appends (T T' : tables) : Prop :=
  exists l, events T' = events T ++ l /\ Forall (fun e => is_clear e = false) l.

Lemma appends_refl T : appends T T.
Proof. exists []. by rewrite app_nil_r. Qed.

Lemma appends_trans T1 T2 T3 : appends T1 T2 -> appends T2 T3 -> appends T1 T3.
Proof.
  intros (l & E & Hl) (l' & E' & Hl'). exists (l ++ l'). rewrite E', E, app_assoc.
  split; [done|]. by apply Forall_app.
Qed.

Definition others_append (others : nat -> M unit) : Prop := forall n P,
  brings P (others n) (fun _ t => exists t0, P t0 /\ appends t0 t) (fun _ => False).

Definition lift_row (reason : jstr) (t : tables) : tables :=
  with_events (fun l => l ++ [HaltClearedEvent (Some (trim reason))]) t.

(** The same halt [h] stood from the first read [t0] to the clear's own [t4], and in between
    no rolled-back height was missing ([t1]) and no dispenser was lost ([t2], [t3]), unless
    the operator forced it. *)
Definition audited (args : clear_args) (T t4 : tables) : Prop :=
  exists t0 t1 t2 t3 h,
    appends T t0 /\ appends t0 t1 /\ appends t1 t2 /\ appends t2 t3 /\ appends t3 t4
    /\ halted h = true /\ Forall (fun t => state_of_events (events t) = h) [t0; t1; t2; t3; t4]
    /\ depth_above t1 = 0
    /\ (arg_force args = true
        \/ dispensers t2 = []
           /\ forall r, r ∈ transactions t3 -> is_dispenser_text (t_data r) = false).

(** One row lifts the halt, after an audit of it. *)
Definition lifted (args : clear_args) (T t : tables) : Prop :=
  let reason := trim (default [] (arg_reason args)) in
  exists t4 t5,
    audited args T t4 /\ appends t4 t5 /\ appends (lift_row reason t5) t
    /\ arg_dryRun args = false /\ (8 <= length reason)%nat /\ strict_mode session_mode = true.

(** ** A halt that keeps its id is the same halt *)

Lemma newest_halt_app id l l' best :
  newest_halt id (l ++ l') best = newest_halt (id + Z.of_nat (length l)) l' (newest_halt id l best).
Proof.
  revert id best. induction l as [|e l IH]; intros id best; simpl.
  - by rewrite Z.add_0_r.
  - rewrite IH. f_equal. lia.
Qed.

Lemma newest_halt_from id l best :
  newest_halt id l best = best
  \/ exists i e, newest_halt id l best = Some (i, e) /\ id <= i < id + Z.of_nat (length l).
Proof.
  induction l as [|e l IH] using rev_ind; [by left|]. rewrite newest_halt_snoc, length_app. simpl.
  destruct (is_halt_row e); [right; do 2 eexists; split; [done|lia]|].
  destruct IH as [IH|(i & e' & E & Hi)]; [by left|right; exists i, e'; split; [done|lia]].
Qed.

Lemma halt_id_newest l i :
  halt_id (state_of_events l) = Some i -> exists e, newest_halt 1 l None = Some (i, e).
Proof.
  unfold state_of_events. destruct (newest_halt 1 l None) as [[j e]|]; [|done].
  destruct e; simpl; try destruct (isAuditedClear _); intros [= <-]; by eexists.
Qed.

Lemma same_halt_between t0 t t4 id :
  appends t0 t -> appends t t4 -> halt_id (state_of_events (events t0)) = Some id ->
  halt_id (state_of_events (events t4)) = Some id ->
  state_of_events (events t) = state_of_events (events t0).
Proof.
  intros (l & E & _) (l' & E' & _) (e0 & E0)%halt_id_newest (e4 & E4)%halt_id_newest.
  rewrite E', E, !newest_halt_app, E0 in E4.
  assert (Hi : id < 1 + Z.of_nat (length (events t0))).
  { destruct (newest_halt_from 1 (events t0) None) as [En|(i & e & En & Hi)]; rewrite E0 in En;
      [done|injection En as -> _; lia]. }
  set (base := 1 + Z.of_nat (length (events t0))) in *.
  assert (Hm : newest_halt base l (Some (id, e0)) = Some (id, e0)).
  { destruct (newest_halt_from base l (Some (id, e0))) as [Em|(j & e' & Em & Hj)]; [exact Em|exfalso].
    rewrite Em, length_app in E4.
    destruct (newest_halt_from (1 + Z.of_nat (length (events t0) + length l)) l' (Some (j, e')))
      as [E5|(k & e5 & E5 & Hk)]; rewrite E5 in E4; injection E4 as ? ?; subst; lia. }
  unfold state_of_events. rewrite E, newest_halt_app, E0. fold base. by rewrite Hm.
Qed.

(** ** The command leaves nothing else *)

Definition After (P : tables -> Prop) (t : tables) : Prop := exists t0, P t0 /\ appends t0 t.

Lemma After_now (P : tables -> Prop) t : P t -> After P t.
Proof. intros H. exists t. split; [done|apply appends_refl]. Qed.

Lemma After_after P t : After (After P) t -> After P t.
Proof. intros (t1 & (t0 & H & H1) & H2). exists t0. split; [done|by eapply appends_trans]. Qed.

#[local] Hint Resolve After_now After_after appends_refl : core.

Section Facts.
Context (others : nat -> M unit) (others_ok : others_append others).

Lemma brings_others {A} (P : tables -> Prop) n (m : M A) F E :
  brings (After P) m F E -> brings P (others n;; m) F E.
Proof.
  intros Hm. apply (brings_bind _ _ (fun _ => After P)); [|by intros _].
  eapply brings_conseq; [apply others_ok|done|done|done].
Qed.

Lemma brings_read {A} (P E : tables -> Prop) (f : tables -> A) :
  (forall t, P t -> E t) -> brings P (getConnection;; select f) (fun a t => P t /\ a = f t) E.
Proof.
  intros HE. apply (brings_conseq _ P _ (fun a t => P t /\ a = f t) _ P); [|done|done|exact HE].
  apply (brings_bind _ _ (fun _ => P)); [apply rests_getConnection|intros _; apply brings_select].
Qed.

(** What the checks saw. *)
Definition checked (force : bool) (P : tables -> Prop) (t : tables) : Prop :=
  exists t1 t2 t3, P t1 /\ appends t1 t2 /\ appends t2 t3 /\ appends t3 t /\ depth_above t1 = 0
    /\ (force = true
        \/ dispensers t2 = []
           /\ forall r, r ∈ transactions t3 -> is_dispenser_text (t_data r) = false).

Lemma clean_checks n probe t2 t3 force :
  n = Z.of_nat (length (dispensers t2)) ->
  probe = existsb (fun r => is_dispenser_text (t_data r)) (transactions t3) ->
  negb ((n =? 0) && negb probe) && negb force = false ->
  force = true \/ dispensers t2 = []
                   /\ forall r, r ∈ transactions t3 -> is_dispenser_text (t_data r) = false.
Proof.
  intros -> -> Hc. destruct force; [by left|right]. rewrite andb_true_r in Hc.
  apply negb_false_iff, andb_true_iff in Hc as [Hn Hp]. split.
  - apply Z.eqb_eq in Hn. destruct (dispensers t2); [done|simpl in Hn; lia].
  - intros r Hr. apply negb_true_iff in Hp. apply not_true_iff_false. intros Hd.
    apply not_true_iff_false in Hp. apply Hp, existsb_exists. exists r.
    split; [by apply list_elem_of_In|exact Hd].
Qed.

Lemma brings_checks P force :
  brings P (checkClearPreconditions others force)
    (fun r t => match r with
                | inr code => After P t /\ code <> OK /\ code <> FAILED
                | inl _ => checked force P t
                end) (After P).
Proof.
  unfold checkClearPreconditions.
  eapply (brings_bind _ _ (fun n t => P t /\ n = depth_above t)).
  { eapply brings_conseq; [apply (brings_countReorgDeletesAboveTip P)|done|done|auto]. }
  intros n. destruct (Z.eqb_spec n 0) as [->|]; cbn [negb].
  2: { apply brings_ret. intros t [Ht _]. by auto. }
  set (P1 := fun t => P t /\ 0 = depth_above t). apply brings_others.
  eapply (brings_bind _ _ (fun n t => After P1 t /\ n = Z.of_nat (length (dispensers t)))).
  { apply brings_read. intros t (t0 & [H0 _] & Ha). by exists t0. }
  intros n. apply brings_others.
  eapply brings_bind; [apply (brings_read _ (After P))|].
  { intros t (t1 & ((t0 & [H0 _] & Ha) & _) & Hb). exists t0. split; [done|by eapply appends_trans]. }
  intros probe. cbn zeta.
  destruct (negb ((n =? 0) && negb probe) && negb force) eqn:Ec; apply brings_ret.
  - intros t [(t2 & [(t1 & [H1 _] & Ha) _] & Hb) _]. split; [|done]. exists t1.
    split; [done|by eapply appends_trans].
  - intros t [(t2 & [(t1 & [H1 Hd] & Ha) Hn] & Hb) Hp]. exists t1, t2, t.
    split_and!; try done. by eapply clean_checks.
Qed.

Lemma rests_refuseLaxSqlMode P :
  brings P refuseLaxSqlMode (fun b t => P t /\ (b = false -> strict_mode session_mode = true)) P.
Proof.
  unfold refuseLaxSqlMode. apply (brings_try _ _ _ _ P); [|intros e; by apply brings_ret].
  apply (brings_bind _ _ (fun _ t => P t /\ strict_mode session_mode = true)).
  2: { intros _. apply brings_ret. by intros t [Ht Hs]. }
  unfold assertStrictSqlMode. apply (brings_bind _ _ (fun _ => P)); [apply rests_getConnection|].
  intros _. apply (brings_bind _ _ (fun m t => P t /\ m = session_mode)).
  { apply brings_query_with; [|done|by intros a t [? _]]. intros w a w' [= <- <-] (t & Ht & Hi).
    by exists t. }
  intros m. destruct (strict_mode m) eqn:Em; [apply brings_ret|apply brings_throw].
  - intros t [Ht <-]. by rewrite Em.
  - by intros t [Ht _].
Qed.

(** The clear writes at most one row, over the halt it was pinned to. *)
Definition cleared_over (P : tables -> Prop) (reason : jstr) (pin : option Z) (t : tables) : Prop :=
  exists t4 t5, P t4 /\ live_halt t4 /\ (pin = None \/ pin = halt_id (state_of_events (events t4)))
    /\ appends t4 t5 /\ appends (lift_row reason t5) t.

Lemma brings_clear_among (P : tables -> Prop) reason pin base :
  brings P (clearReorgHalt_among (fun n => others (base + n)%nat) reason pin)
    (fun r t => match r with
                | ClearDone _ => After P t \/ cleared_over P reason pin t
                | AlreadyClear | Superseded _ => P t
                end) (fun t => After P t \/ cleared_over P reason pin t).
Proof.
  unfold clearReorgHalt_among. destruct (_ <? _)%nat; [apply brings_throw; auto|].
  eapply brings_bind; [eapply brings_conseq; [apply (brings_readReorgHaltState (P := P))|done|
    intros s t H; exact H|auto]|]. intros s.
  destruct (negb (halted s)) eqn:Eh; [apply brings_ret; by intros t [? _]|].
  destruct (match halt_id s with None => _ | _ => _ end) eqn:Ep;
    [apply brings_ret; by intros t [? _]|].
  set (P4 := fun t => P t /\ live_halt t
                     /\ (pin = None \/ pin = halt_id (state_of_events (events t)))).
  apply (brings_weaken _ P4).
  2: { intros t [Ht ->]. split; [exact Ht|]. split.
       - unfold live_halt. by destruct (halted (state_of_events (events t))).
       - destruct (halt_id (state_of_events (events t))) as [id|], pin as [e|]; try done;
           [|by left]. right. b2p. by f_equal. }
  assert (H4 : forall t, After P4 t -> After P t).
  { intros t (t4 & [H _] & Ha). by exists t4. }
  apply brings_others. eapply brings_bind.
  { eapply brings_conseq; [apply (brings_insertEvent (P := After P4) _
      (fun t => exists t5, After P4 t5 /\ t = lift_row reason t5))|done|intros r t H; exact H|].
    - intros t Ht. by exists t.
    - intros t [Ht|(t5 & (t4 & [H (Hl & Hp)] & Ha) & ->)]; [by auto|]. right. exists t4, t5.
      by split_and!. }
  assert (Hdone : forall t, (exists t5, After P4 t5 /\ appends (lift_row reason t5) t) ->
    cleared_over P reason pin t).
  { intros t (t5 & (t4 & [H (Hl & Hp)] & Ha) & Hr). by exists t4, t5. }
  intros r. destruct (negb (insert_true r)) eqn:Er.
  { apply brings_ret. intros t H. destruct r; simpl in Er; [done|..];
      (destruct H as [H|(t5 & H & ->)]; [by auto|right; apply Hdone; by exists t5]). }
  apply brings_others.
  set (P6 := fun t => exists t5, After P4 t5 /\ appends (lift_row reason t5) t).
  eapply (brings_conseq _ P6 _ (fun r t => P6 t /\ exists b, r = ClearDone b) _ P6).
  - eapply brings_bind; [apply (brings_readReorgHaltState (P := P6))|intros after].
    apply brings_ret. intros t [Ht _]. split; [exact Ht|by eexists].
  - intros t (t5 & H & Ha). destruct r; simpl in Er; try done.
    destruct H as (t6 & H & ->). by exists t6.
  - intros r' t [Ht (b & ->)]. right. by apply Hdone.
  - intros t Ht. right. by apply Hdone.
Qed.

Lemma brings_run argv T :
  let args := parseArgs argv in
  brings (eq T) (run others argv)
    (fun code t => (appends T t \/ lifted args T t)
                   /\ (code <> OK -> code <> FAILED -> appends T t))
    (fun t => appends T t \/ lifted args T t).
Proof.
  intros args. unfold run. fold args. destruct (arg_help args); [apply brings_ret; intros t <-; auto|].
  case_bool_decide; [apply brings_ret; intros t <-; auto|].
  set (reason := trim (default [] (arg_reason args))).
  destruct (negb (arg_dryRun args) && (length reason <? 8)%nat) eqn:Er;
    [apply brings_ret; intros t <-; auto|].
  assert (H0 : forall t, After (eq T) t -> appends T t) by (by intros t (t0 & -> & Ha)).
  apply brings_others. eapply brings_bind.
  { eapply brings_conseq; [apply (brings_readReorgHaltState (P := After (eq T)))|done|
      intros m t Hm; exact Hm|auto]. }
  intros m. destruct (negb (halted m)) eqn:Eh; [apply brings_ret; intros t [Ht _]; auto|].
  case_bool_decide as Ei; [apply brings_ret; intros t [Ht _]; auto|].
  set (P0 := fun t => After (eq T) t /\ m = state_of_events (events t)).
  assert (HP0 : forall t, After P0 t -> appends T t).
  { intros t (t0 & [(t' & <- & H1) _] & H2). by eapply appends_trans. }
  apply brings_others. eapply brings_bind.
  { eapply brings_conseq; [apply (brings_checks (After P0))|done|intros r t Hr; exact Hr|].
    intros t Ht%After_after. auto. }
  intros [clean|code].
  2: { apply brings_ret. intros t [Ht%After_after _]. auto. }
  set (P3 := checked (arg_force args) (After P0)).
  assert (HP3 : forall t, After P3 t -> appends T t).
  { intros t (t0 & (t1 & t2 & t3 & H1 & H2 & H3 & H4 & _) & H5). apply HP0, After_after.
    exists t1. split; [exact H1|]. eauto using appends_trans. }
  apply brings_others. eapply brings_bind.
  { eapply brings_conseq; [apply (rests_refuseLaxSqlMode (After P3))|done|
      intros b t Hb; exact Hb|auto]. }
  intros [|]; [apply brings_ret; intros t [Ht _]; auto|].
  destruct (arg_dryRun args) eqn:Ed; [apply brings_ret; intros t [Ht _]; auto|].
  set (P5 := fun t => After P3 t /\ strict_mode session_mode = true).
  apply (brings_weaken _ P5); [|by intros t [? ?]; split; auto].
  apply brings_others.
  assert (HP5 : forall t, After (After P5) t -> appends T t).
  { intros t (t0 & [H1 _] & H2)%After_after. apply HP3, After_after. by exists t0. }
  assert (Hl : forall t, cleared_over (After P5) reason (halt_id m) t -> lifted args T t).
  { intros t (t4 & t5 & (t' & [(tc & Hc & Ha) Hs] & Hb) & Hlive & Hpin & H5 & H6).
    destruct Hc as (t1 & t2 & t3 & (t0 & [(T' & <- & H0') Hm] & H1) & H2 & H3 & H4 & Hd & Hf).
    exists t4, t5. split; [|split_and!; try done].
    - destruct (halt_id m) as [id|] eqn:Eid; [|done]. destruct Hpin as [|Hpin]; [done|].
      assert (H34 : appends t3 t4) by eauto using appends_trans.
      assert (Hsame : forall t, appends t0 t -> appends t t4 -> state_of_events (events t) = m).
      { intros tx Ht1 Ht2. rewrite Hm in Eid |- *. by eapply same_halt_between. }
      exists t0, t1, t2, t3, m. split_and!; try done; [by destruct (halted m)|].
      repeat constructor; apply Hsame; eauto using appends_trans.
    - simpl in Er. by apply Nat.ltb_ge in Er. }
  eapply brings_bind.
  { eapply brings_conseq; [apply (brings_clear_among (After P5) reason (halt_id m) 6)|done|
      intros r t Hr; exact Hr|]. intros t [Ht|Ht]; auto. }
  intros r. apply brings_ret. intros t Ht. destruct r as [b| |id]; simpl in *.
  - split; [destruct Ht as [Ht|Ht]; auto|]. by destruct b.
  - split; [|done]. left. apply HP5. auto.
  - assert (appends T t) by (apply HP5; auto). auto.
Qed.
End Facts.

(** ** What the probe sees *)

Definition percent : Z := 37.
Definition underscore : Z := 95.

Definition backslash : Z := 92.

(** LIKE on a pattern whose only wildcards are the [%] at its ends, the rest of it holding
    neither wildcard nor the escape character. *)
Definition like_literal : Prop := forall p a s,
  percent ∉ p /\ underscore ∉ p /\ backslash ∉ p ->
  like (p ++ [percent]) (p ++ s) = true /\ like (percent :: p ++ [percent]) (a ++ p ++ s) = true.

Lemma dispenser_text d :
  like_literal ->
  (exists s, d = js "DISPENSER|" ++ s) \/ (exists a s, d = a ++ js "|DISPENSER|" ++ s)
    \/ (exists a s, d = a ++ js ";DISPENSER|" ++ s) ->
  is_dispenser_text (Some d) = true.
Proof.
  intros Hl Hd. unfold is_dispenser_text. apply existsb_exists.
  destruct Hd as [(s & ->)|[(a & s & ->)|(a & s & ->)]].
  - exists (js "DISPENSER|%"). split; [by left|]. apply (Hl (js "DISPENSER|") [] s).
    by split_and!; apply (bool_decide_unpack _); vm_compute.
  - exists (js "%|DISPENSER|%"). split; [by right; left|]. apply (Hl (js "|DISPENSER|") a s).
    by split_and!; apply (bool_decide_unpack _); vm_compute.
  - exists (js "%;DISPENSER|%"). split; [by right; right; left|]. apply (Hl (js ";DISPENSER|") a s).
    by split_and!; apply (bool_decide_unpack _); vm_compute.
Qed.

(** A part of a text split on [';'] stands at its front or after a [';']. *)
Lemma split_part c s w :
  w ∈ split_on c s -> (exists r, s = w ++ r) \/ (exists a r, s = a ++ c :: w ++ r).
Proof.
  intros Hw. rewrite <- (join_split c s). revert Hw. generalize (split_on c s). intros l.
  induction l as [|x l IH]; intros Hw; [by apply not_elem_of_nil in Hw|].
  destruct l as [|y l].
  { apply elem_of_cons in Hw as [->|Hw]; [|by apply not_elem_of_nil in Hw]. left. exists [].
    by rewrite app_nil_r. }
  change (join_with c (x :: y :: l)) with (x ++ c :: join_with c (y :: l)).
  apply elem_of_cons in Hw as [->|Hw]; [left; by eexists|]. right.
  destruct (IH Hw) as [(r & ->)|(a & r & ->)].
  - by exists x, r.
  - exists (x ++ c :: a), r. by rewrite <- app_assoc.
Qed.

Lemma collected_from cfg time commands p src e :
  (collectDispenserCreates cfg time commands p src e).1 <> [] ->
  exists c, c ∈ commands /\ startsWith p c = true /\ pipe ∈ c.
Proof.
  unfold collectDispenserCreates. induction commands as [|c l IH] using rev_ind; [done|].
  rewrite foldl_snoc. set (st := foldl _ _ _) in *. unfold collect_step.
  destruct (startsWith p c) eqn:Ep; cbn [negb].
  2: { intros H. destruct (IH H) as (c' & ? & ?). exists c'. split; [apply elem_of_app; by left|done]. }
  destruct (num_is (format_of (split_on pipe c)) 0 && _) eqn:Ef.
  2: { intros H. destruct (IH H) as (c' & ? & ?). exists c'. split; [apply elem_of_app; by left|done]. }
  intros _. exists c. split; [apply elem_of_app; right; by left|]. split; [done|].
  destruct (decide (pipe ∈ c)) as [|Hn]; [done|]. by rewrite (split_on_id pipe c Hn) in Ef.
Qed.

(** The text of a sub-command stands in its BATCH after a ['|'] or a [';']. *)
Lemma batched_text d subs w :
  batchSubCommands d = Some subs -> w ∈ subs ->
  (exists a r, d = a ++ pipe :: w ++ r) \/ (exists a r, d = a ++ semicolon :: w ++ r).
Proof.
  intros [(r & -> & ->)|(-> & _)]%batchSubCommands_some Hw; [|by apply not_elem_of_nil in Hw].
  destruct (split_part semicolon r w Hw) as [(t & ->)|(a & t & ->)].
  - left. by exists (js "BATCH|0"), t.
  - right. exists (js "BATCH|0|" ++ a), t. by rewrite <- app_assoc.
Qed.

(** An alias expands to no DISPENSER. *)
Lemma expanded_dispenser w :
  startsWith (js "DISPENSER|") (expandSubCommandAlias w ACTION_ALIASES) = true ->
  startsWith (js "DISPENSER|") w = true.
Proof.
  destruct (decide (subCommandActionName w = [])) as [E|Hn].
  { unfold expandSubCommandAlias. by rewrite E. }
  rewrite (expand_sub_command_parts w Hn). unfold subCommandActionName in *.
  destruct (expand_alias_cases (before pipe w) Hn) as [[_ ->]|Ha]; [by rewrite before_from_char|].
  revert Ha. generalize (expandAliasName (before pipe w) ACTION_ALIASES). intros v Ha Hs. exfalso.
  refine (alias_values_forall (fun v => startsWith (js "DISPENSER|") (v ++ from_char pipe w) = true
    -> False) _ _ _ Ha Hs). repeat constructor; done.
Qed.

(** A stored text names a protocol action (StorageGate.v), so below the capture gate too
    its command is a DISPENSER with fields. *)
Lemma legacy_dispenser d :
  before pipe d ∈ VALID_ACTION_NAMES -> startsWith (js "DISPENSER") d = true -> pipe ∈ d ->
  startsWith (js "DISPENSER|") d = true.
Proof.
  intros Hv (r & ->)%startsWith_spec Hp.
  destruct r as [|c r]; [exfalso; revert Hp; by apply (bool_decide_unpack _); vm_compute|].
  destruct (Z.eq_dec c pipe) as [->|Hc]; [done|exfalso].
  assert (Hb : before pipe (js "DISPENSER" ++ c :: r) = js "DISPENSER" ++ c :: before pipe r).
  { simpl. destruct (Z.eqb_spec c pipe); done. }
  rewrite Hb in Hv. assert (Hall : Forall (fun n => startsWith (js "DISPENSER") n = true ->
    length n = 9%nat) VALID_ACTION_NAMES) by (repeat constructor; done).
  rewrite Forall_forall in Hall. specialize (Hall _ Hv (startsWith_app _ _)).
  rewrite length_app in Hall. simpl in Hall. lia.
Qed.

Lemma create_is_dispenser_text cfg d time src e :
  like_literal -> before pipe d ∈ VALID_ACTION_NAMES ->
  (collectDispenserCreates cfg time (captureCommands d (consensusNetwork cfg) time)
     (dispenserCommandPrefixFor cfg time) src e).1 <> [] ->
  is_dispenser_text (Some d) = true.
Proof.
  intros Hl Hv (c & Hin & Hs & Hp)%collected_from. apply (dispenser_text d Hl).
  unfold captureCommands, dispenserCommandPrefixFor in *.
  destruct (isBatchSubCommandCaptureActive (consensusNetwork cfg) time); cbn [negb] in Hin.
  - destruct (batchSubCommands d) as [subs|] eqn:Eb.
    + destruct (hasProvablyRejectedBatch _ _ _ _); [by apply not_elem_of_nil in Hin|].
      apply list_elem_of_fmap in Hin as (w & -> & Hw). apply expanded_dispenser in Hs.
      apply startsWith_spec in Hs as (r & ->). right.
      destruct (batched_text d subs _ Eb Hw) as [(a & t & ->)|(a & t & ->)].
      * left. exists a, (r ++ t). by rewrite <- (app_assoc (js "DISPENSER|") r t).
      * right. exists a, (r ++ t). by rewrite <- (app_assoc (js "DISPENSER|") r t).
    + apply list_elem_of_singleton in Hin as ->. left. by apply startsWith_spec in Hs as (r & ->); exists r.
  - apply list_elem_of_singleton in Hin as ->. left.
    apply (legacy_dispenser d Hv Hs) in Hp. by apply startsWith_spec in Hp as (r & ->); exists r.
Qed.

(** *** The command over a database that holds such a text *)

(** A stored transaction has this text. *)
Definition holds_text (d : jstr) (t : tables) : Prop :=
  exists r, r ∈ transactions t /\ t_data r = Some d.

(** The text is still there, and no halt has been cleared since [T]. *)
Definition uncleared (d : jstr) (T t : tables) : Prop := holds_text d t /\ appends T t.

(** Other sessions leave the text there, and clear no halt. *)
Definition others_keep (d : jstr) (T : tables) (others : nat -> M unit) : Prop :=
  forall n, brings (uncleared d T) (others n) (fun _ => uncleared d T) (fun _ => False).

Section Kept.
Context (d : jstr) (T : tables) (others : nat -> M unit).
Context (seen : is_dispenser_text (Some d) = true) (kept : others_keep d T others).

#[local] Abbreviation Kept := (uncleared d T).

Lemma brings_kept {A} n (m : M A) F E : brings Kept m F E -> brings Kept (others n;; m) F E.
Proof.
  intros Hm. apply (brings_bind _ _ (fun _ => Kept)); [|by intros _].
  eapply brings_conseq; [apply kept|done|done|done].
Qed.

Lemma probe_finds t :
  Kept t -> existsb (fun r => is_dispenser_text (t_data r)) (transactions t) = true.
Proof.
  intros [(r & Hr & Hd) _]. apply existsb_exists. exists r. split; [by apply list_elem_of_In|].
  by rewrite Hd.
Qed.

Lemma brings_checks_refused :
  brings Kept (checkClearPreconditions others false)
    (fun r t => Kept t /\ exists code, r = inr code) Kept.
Proof.
  unfold checkClearPreconditions. eapply (brings_bind _ _ (fun _ => Kept)).
  { eapply brings_conseq; [apply (brings_countReorgDeletesAboveTip Kept)|done|by intros n t [Ht _]|done]. }
  intros n. destruct (negb _); [apply brings_ret; intros t Ht; by split; [|eexists]|].
  apply brings_kept. eapply (brings_bind _ _ (fun _ => Kept)).
  { eapply brings_conseq; [by apply (brings_read Kept Kept)|done|by intros k t [Ht _]|done]. }
  intros k. apply brings_kept. eapply (brings_bind _ _ (fun b t => Kept t /\ b = true)).
  { eapply brings_conseq; [by apply (brings_read Kept Kept)|done| |done].
    intros b t [Ht ->]. split; [done|by apply probe_finds]. }
  intros b. cbn zeta. intros w (t & [Ht ->] & Hi). rewrite andb_false_r. cbn [negb andb].
  exists t. split; [by split; [|eexists]|exact Hi].
Qed.

Lemma brings_run_refused argv :
  arg_force (parseArgs argv) = false -> brings Kept (run others argv) (fun _ => Kept) Kept.
Proof.
  intros Hf. unfold run. cbn zeta. rewrite Hf.
  repeat (case_match; [by apply brings_ret|]).
  apply brings_kept. eapply (brings_bind _ _ (fun _ => Kept)).
  { eapply brings_conseq; [apply (brings_readReorgHaltState (P := Kept))|done|by intros m t [Ht _]|done]. }
  intros m. repeat (case_match; [by apply brings_ret|]). apply brings_kept.
  eapply brings_bind; [apply brings_checks_refused|]. intros r w (t & [Ht [code ->]] & Hi).
  by exists t.
Qed.
End Kept.
End Tool.

(** ** Properties *)

(** C11: the operator's clear, whatever other sessions do between its calls (they may change
    any table and append events, but clear no halt) and whichever calls fail: it either adds
    no clearing row, or exactly one, with a reason of at least eight characters, after it
    saw, while one and the same live halt stood, that no rolled-back height is missing above
    the tip and, unless forced, that the database holds no dispenser and no stored
    transaction with a DISPENSER text.  A dry run and every refusal clear nothing. *)
Theorem clear_only_audited {Srv : Server} others argv T w :
  others_append others -> idle T w ->
  match run others argv w with
  | (Ret code, w') =>
      exists t, idle t w' /\ (appends T t \/ lifted (parseArgs argv) T t)
                /\ (code <> OK -> code <> FAILED -> appends T t)
  | (Throw _, w') => exists t, idle t w' /\ (appends T t \/ lifted (parseArgs argv) T t)
  | (Blocked, _) => False
  end.
Proof.
  intros Ho Hi. pose proof (brings_run others Ho argv T w (ex_intro _ T (conj eq_refl Hi))) as H.
  destruct (run others argv w) as [[code|e|] w']; [| |done].
  - destruct H as (t & [H1 H2] & Ht). by exists t.
  - destruct H as (t & H & Ht). by exists t.
Qed.

(** C12: a database that holds the text of an action that registers a dispenser is not
    cleared without [--force].  Whenever the commands of a stored action, BATCH or not, at
    any block time and on any network, register one, its text matches one of the three LIKE
    patterns of the probe; so while a transaction with that text is stored, every run of the
    command without [--force], whichever calls fail and whatever other sessions do that
    leave that text stored, ends without a clearing row. *)
Theorem probe_sees_every_create {Srv : Server} others argv cfg d time src e T w :
  like_literal -> before pipe d ∈ VALID_ACTION_NAMES ->
  (collectDispenserCreates cfg time (captureCommands d (consensusNetwork cfg) time)
     (dispenserCommandPrefixFor cfg time) src e).1 <> [] ->
  arg_force (parseArgs argv) = false ->
  holds_text d T -> others_keep d T others -> idle T w ->
  is_dispenser_text (Some d) = true
  /\ match run others argv w with
     | (Blocked, _) => False
     | (_, w') => exists t, idle t w' /\ holds_text d t /\ appends T t
     end.
Proof.
  intros Hl Hv Hc Hf Hd Ho Hi. pose proof (create_is_dispenser_text cfg d time src e Hl Hv Hc) as Hs.
  split; [exact Hs|]. pose proof (brings_run_refused d T others Hs Ho argv Hf w) as H.
  specialize (H (ex_intro _ T (conj (conj Hd (appends_refl T)) Hi))).
  destruct (run others argv w) as [[code|x|] w']; [| |done];
    destruct H as (t & [Ht Ha] & Hi'); by exists t.
Qed.

(** ** Concrete runs *)

(** LIKE with [%] as the only wildcard, over exact characters. *)
Fixpoint like_exact (p s : jstr) : bool :=
  match p with
  | [] => is_empty s
  | c :: p' =>
      if c =? percent then
        (fix tails s := like_exact p' s || match s with [] => false | _ :: s' => tails s' end) s
      else match s with
           | x :: s' => (x =? c) && like_exact p' s'
           | [] => false
           end
  end.

#[export] Instance sample_server : Server := {
  like := like_exact;
  session_mode := js "STRICT_TRANS_TABLES,ERROR_FOR_DIVISION_BY_ZERO,NO_ENGINE_SUBSTITUTION"
}.

Lemma like_exact_all s : like_exact [percent] s = true.
Proof. induction s as [|x s IH]; [done|]. simpl in *. exact IH. Qed.

Lemma like_exact_prefix p s :
  percent ∉ p -> like_exact (p ++ [percent]) (p ++ s) = true.
Proof.
  induction p as [|c p IH]; intros Hp; [apply like_exact_all|].
  rewrite elem_of_cons in Hp. cbn [app like_exact].
  destruct (Z.eqb_spec c percent) as [->|]; [tauto|]. rewrite Z.eqb_refl. apply IH. tauto.
Qed.

Lemma sample_like_literal : like_literal.
Proof.
  intros p a s (Hp & _ & _). split; [by apply like_exact_prefix|].
  change (like (percent :: p ++ [percent]) (a ++ p ++ s))
    with (like_exact (percent :: p ++ [percent]) (a ++ p ++ s)).
  pose proof (like_exact_prefix p s Hp) as H. induction a as [|x a IH].
  - cbn [app]. cbn [like_exact]. rewrite Z.eqb_refl.
    destruct (p ++ s) as [|y l]; rewrite H; done.
  - cbn [app]. cbn [like_exact] in *. rewrite Z.eqb_refl in *.
    cbn [app]. rewrite IH. by rewrite orb_true_r.
Qed.

(** While the command runs, another session records a rolled-back height at call [k]. *)
Definition one_reorg (k n : nat) : M unit :=
  if (n =? k)%nat
  then modify (with_live (with_events (fun l => l ++ [ReorgEvent 90 (js "gone")])))
  else mret tt.

Lemma one_reorg_appends k : others_append (one_reorg k).
Proof.
  intros n P w (t & Ht & Hi). unfold one_reorg. destruct (n =? k)%nat.
  - exists (with_events (fun l => l ++ [ReorgEvent 90 (js "gone")]) t). split.
    + exists t. split; [done|]. exists [ReorgEvent 90 (js "gone")]. split; [done|].
      by repeat constructor.
    + destruct Hi as (<- & ?). done.
  - exists t. split; [|done]. exists t. split; [done|apply appends_refl].
Qed.

(** A halt that left nothing missing above the tip. *)
Definition dormant_tables : tables :=
  with_events (fun l => l ++ [HaltEvent (js "delete failed")])
    (with_blocks (fun l => l ++ [BlockRow 100 None None None]) initial_tables).

Definition clear_argv : list jstr := [js "--reason"; js "compared with a replica"].

Lemma clear_only_audited_witness :
  (run (one_reorg 3) clear_argv (idle_world dormant_tables [])).1 = Ret OK
  /\ halted (state_of_events (events (live (run (one_reorg 3) clear_argv
       (idle_world dormant_tables [])).2))) = false
  /\ exists t, idle t (run (one_reorg 3) clear_argv (idle_world dormant_tables [])).2
       /\ (appends dormant_tables t \/ lifted (parseArgs clear_argv) dormant_tables t).
Proof.
  pose proof (clear_only_audited (one_reorg 3) clear_argv dormant_tables
    (idle_world dormant_tables []) (one_reorg_appends 3) ltac:(done)) as H.
  assert (E : (run (one_reorg 3) clear_argv (idle_world dormant_tables [])).1 = Ret OK)
    by by vm_compute.
  split; [exact E|]. split; [by vm_compute|].
  destruct (run (one_reorg 3) clear_argv (idle_world dormant_tables [])) as [r w'].
  simpl in E. subst r. destruct H as (t & Ht & Hl & _). by exists t.
Defined.

Definition batched_create : jstr := js "BATCH|0|SEND|0|A;DISPENSER|0|BTC|1|||X|BTC|1|1".

(** A halt, and the stored row of that action. *)
Definition create_tables : tables :=
  with_transactions (fun l => l ++ [TxRow 1 None 100 None None None 0 (Some batched_create) None])
    dormant_tables.

Lemma one_reorg_keeps k d T : others_keep d T (one_reorg k).
Proof.
  intros n w (t & [Ht Ha] & Hi). unfold one_reorg. destruct (n =? k)%nat; [|by exists t].
  exists (with_events (fun l => l ++ [ReorgEvent 90 (js "gone")]) t). split.
  - split; [exact Ht|]. eapply appends_trans; [exact Ha|]. exists [ReorgEvent 90 (js "gone")].
    split; [done|]. by repeat constructor.
  - destruct Hi as (<- & ?). done.
Qed.

Lemma probe_sees_every_create_witness :
  before pipe batched_create ∈ VALID_ACTION_NAMES
  /\ holds_text batched_create create_tables
  /\ (run (one_reorg 3) clear_argv (idle_world create_tables [])).1 = Ret DISPENSER_STATE
  /\ (run (one_reorg 3) (clear_argv ++ [js "--force"]) (idle_world create_tables [])).1 = Ret OK
  /\ is_dispenser_text (Some batched_create) = true
  /\ match run (one_reorg 3) clear_argv (idle_world create_tables []) with
     | (Blocked, _) => False
     | (_, w') => exists t, idle t w' /\ holds_text batched_create t /\ appends create_tables t
     end.
Proof.
  assert (Hv : before pipe batched_create ∈ VALID_ACTION_NAMES)
    by (by apply (bool_decide_unpack _); vm_compute).
  assert (Hd : holds_text batched_create create_tables) by (eexists; by split; [left|]).
  split; [exact Hv|]. split; [exact Hd|]. split; [by vm_compute|]. split; [by vm_compute|].
  apply (probe_sees_every_create (one_reorg 3) clear_argv
    (DecoderConfig (js "regtest") (js "BTC") None 30 100 None)
    batched_create (jint 1800000000) (Some (js "src")) 0 create_tables);
    [exact sample_like_literal|exact Hv| |reflexivity|exact Hd|apply one_reorg_keeps|done].
  by vm_compute.
Defined.

(** The pin is compared before the row is written, in two statements: the decoder's own
    markReorgHalted, run in between over an unaudited row, raises a halt that the command
    then lifts without having seen it. *)
Definition halt_at (k n : nat) : M unit :=
  if (n =? k)%nat then markReorgHalted (js "too deep");; mret tt else mret tt.

Example halt_raised_in_the_window_is_lifted :
  let T := with_events (fun l => l ++ [HaltClearedEvent None]) dormant_tables in
  let r := run (halt_at 6) clear_argv (idle_world T []) in
  r.1 = Ret OK
  /\ drop 1 (events (live r.2))
     = [HaltClearedEvent None; HaltEvent (js "too deep");
        HaltClearedEvent (Some (js "compared with a replica"))]
  /\ halted (state_of_events (events (live r.2))) = false.
Proof. by vm_compute. Qed.
