(* ===== verification/Mempool.v ===== *)
(** * The mempool view

    src/src/XChainDecoder/mempool_refresh.js, with the writes of src/src/db/mempool.js and
    the snapshot diff of src/src/db/transactions.js: one refresh of the table of pending
    transactions against the node's mempool.

    The refresh has its own database handle, which never opens a transaction: it reads the
    tables the block loop commits ([m_world]) and writes mempool_transactions ([m_rows])
    alone.  What the connector answers is a parameter, a function of the question; the order
    String.localeCompare gives is the host's and is the parameter [by_locale].  Log lines,
    sleeps and the column first_seen, which the server stamps, are left out. *)
From S2P Require Import Prelude JsNum Wire Activation ProtocolTime Config StorageGate.
From S2P Require Import DispenserCommand Db DbRows Atomic Idle Dispensers Carrier Parse.
From S2P Require Import BlockDecoder Ingest BlockStore LoopState MainLoop.
#[local] Open Scope Z_scope.
#[local] Open Scope update_scope.

Definition MEMPOOL_BATCH_SIZE : nat := Z.to_nat 1000.
Definition INSERT_CHUNK : nat := Z.to_nat 5000.

(** ** The state *)

Record mempool_row := MempoolRow {
  mr_hash : jstr; mr_source : option jstr; mr_destination : option jstr;
  mr_amount : option Z; mr_fee : Z; mr_data : jstr; mr_raw_data : option bytes
}.

Record mstate := MState {
  m_world : world;
  m_rows : list mempool_row;
  mempoolBusy : bool;
  nodeMempoolTxCount : Z;
  nodeMempoolUpdatedAt : option Z;
  m_tick : nat                       (* questions asked so far *)
}.

#[export] Instance eta_mstate : Eta mstate := fun s => MState (m_world s) (m_rows s)
  (mempoolBusy s) (nodeMempoolTxCount s) (nodeMempoolUpdatedAt s) (m_tick s).

Definition Mem (A : Type) : Type := mstate -> res A * mstate.

#[export] Instance Mem_ret : MRet Mem := fun A a s => (Ret a, s).
#[export] Instance Mem_bind : MBind Mem := fun A B k m s =>
  match m s with
  | (Ret a, s') => k a s'
  | (Throw e, s') => (Throw e, s')
  | (Blocked, s') => (Blocked, s')
  end.

Definition mthrow {A} (e : jserror) : Mem A := fun s => (Throw e, s).

Definition mtry {A} (m : Mem A) (h : jserror -> Mem A) : Mem A := fun s =>
  match m s with
  | (Throw e, s') => h e s'
  | r => r
  end.

(** [try { m } finally { f }], where [f] cannot throw. *)
Definition mfinally {A} (m : Mem A) (f : mstate -> mstate) : Mem A := fun s =>
  let '(r, s') := m s in (r, f s').

Definition mdb {A} (m : M A) : Mem A := fun s =>
  let '(r, w) := m (m_world s) in (r, s <| m_world := w |>).

Definition mset (f : mstate -> mstate) : Mem unit := fun s => (Ret tt, f s).

Definition mask {A} (f : nat -> A) : Mem A := fun s => (Ret (f (m_tick s)), s <| m_tick ::= S |>).

(** A statement on mempool_transactions: it takes the next outcome of the handle's calls. *)
Definition on_rows {A} (stmt : list mempool_row -> jserror + (A * list mempool_row)) : Mem A :=
  fun s =>
    let run s' := match stmt (m_rows s') with
                  | inl e => (Throw e, s')
                  | inr (a, l) => (Ret a, s' <| m_rows := l |>)
                  end in
    match faults (m_world s) with
    | [] => run s
    | None :: fs => run (s <| m_world ::= with_faults fs |>)
    | Some f :: fs =>
        let s' := s <| m_world ::= with_faults fs |> in
        (Throw (fault_error f), if fault_lands f then (run s').2 else s')
    end.

(** A statement that touches neither the shared tables nor the rows. *)
Definition call : M unit := query (fun w => inr (tt, w)).

Definition count_errors (n : Z) : Mem unit := mdb (count (add_parse_errors n)).

(** ** The database side *)

Section Rows.
Context {Coll : Collation}.

Definition has_row (hash : jstr) (l : list mempool_row) : bool :=
  existsb (fun r => same_text (mr_hash r) hash) l.

(** [true] also for a duplicate: the constant DUPLICATED_TRANSACTION is truthy. *)
Definition insertMempoolTransaction (r : mempool_row) : Mem bool :=
  mdb getConnection;;
  mtry (on_rows (fun l => if has_row (mr_hash r) l then inl (sql_error DUPLICATE_KEY)
                          else inr (tt, l ++ [r]));; mret true)
    (fun err => mret (has_errno DUPLICATE_KEY err)).

Fixpoint repeat_call (n : nat) : M unit :=
  match n with
  | O => mret tt
  | S n' => call;; repeat_call n'
  end.

(** The table is created, emptied and filled, [INSERT_CHUNK] rows at a time. *)
Definition seedMempoolSnapshot (txids : list jstr) : M unit :=
  call;; call;; repeat_call ((length txids + INSERT_CHUNK - 1) / INSERT_CHUNK).

Definition listed (txids : list jstr) (r : mempool_row) : bool :=
  existsb (fun h => same_text h (mr_hash r)) txids.

(** The rows no longer in the snapshot go; the txids not yet stored are the answer. *)
Definition reconcileMempoolSnapshot (txids : list jstr) : Mem (list jstr) :=
  on_rows (fun l => inr (tt, List.filter (listed txids) l));;
  match txids with
  | [] => mret []
  | _ =>
      present ← on_rows (fun l => inr (List.filter (fun h => has_row h l) txids, l));
      mret (List.filter (fun h => negb (existsb (eqs h) present)) txids)
  end.

(** A failed drop of the snapshot is only logged. *)
Definition deleteAndCompareTxsNotInList (txids : list jstr) : Mem (list jstr) :=
  mdb getConnection;;
  let drop := mtry (mdb call) (fun _ => mret tt) in
  news ← mtry (mdb (seedMempoolSnapshot txids);; reconcileMempoolSnapshot txids)
           (fun err => drop;; mthrow err);
  drop;;
  mret news.
End Rows.

(** ** The refresh *)

Inductive raw_answer := RawThrows | RawNotArray | RawTxids (txids : list jstr).

Fixpoint first_seen (seen : list jstr) (l : list jstr) : list jstr :=
  match l with
  | [] => []
  | h :: l' => if existsb (eqs h) seen then first_seen seen l' else h :: first_seen (h :: seen) l'
  end.

Section Refresh.
Context {Coll : Collation} {Lib : ChainLib} `{LibView}.
Context (cfg : decoder_config) (wireFormat : wire_format).
(** The node, the clock in milliseconds, and the block loop's cursor, at each question. *)
Context (getRawMempool : nat -> raw_answer).
Context (getRawTransactions : nat -> list jstr -> option (list (option jstr))).
Context (clock : nat -> Z) (cursor_at : nat -> Z) (by_locale : list jstr -> list jstr).

(** [Array.from(new Set(l)).sort(...)] *)
Definition dedupNodeMempool (l : list jstr) : list jstr := by_locale (first_seen [] l).

(** [None] is [null]: undecodable, counted, or without inputs, not counted. *)
Definition decodeMempoolTransaction (hex : jstr) : Mem (option transaction) :=
  match BlockDecoder.transactionFromHex wireFormat hex with
  | inl _ => count_errors 1;; mret None
  | inr t => let tx := view_tx t in
             mret (match ins tx with [] => None | _ => Some tx end)
  end.

(** The walk back over stored block times is the one of block_store.js ([fetch_times]). *)
Definition loadMempoolParentProtocolTime (blockTime : Z) : Mem jsval :=
  if negb (isDispenserCancelGraceParentFloorActive (consensusNetwork cfg) (jint blockTime))
  then mret JNull
  else
    last ← mask cursor_at;
    if last <? 0 then mret JNull
    else
      let span := if isProtocolTimeMtpActive (consensusNetwork cfg)
                  then S MEDIAN_TIME_SPAN else 1%nat in
      times ← mdb (fetch_times span last []);
      mret (match (times : option (list jsval)) with
            | Some (t :: rest) => protocolTime (consensusNetwork cfg) t rest
            | _ => JNull
            end).

Definition loadMempoolOpenDispenserAddresses : Mem (gset jstr) :=
  now ← mask clock;
  let blockTime := now / 1000 in
  parent ← loadMempoolParentProtocolTime blockTime;
  open ← mtry (mdb (getAllOpenDispenserAddresses
                      (cancelGraceFloor (consensusNetwork cfg) (jint blockTime) parent)))
           (fun _ => mret None);
  mret (default ∅ open).

Definition parseMempoolTransaction (tx : transaction) (open : gset jstr)
  : Mem (option parse_result) :=
  last ← mask cursor_at;
  mtry (mdb (parseTransaction cfg tx open false (jint (last + 1))))
    (fun _ => count_errors 1;; mret None).

Record admission := Admission {
  ad_skip : bool; ad_data : jstr; ad_rawData : option bytes; ad_unattributed : bool
}.

(** The record and the parse errors counted. *)
Definition admitMempoolAction (r : parse_result) : admission * Z :=
  if negb (is_empty (data r)) && negb (hasStorableContent (Some r))
  then (Admission false [] None true, 1)
  else
    let '(a, n) := buildStoredActionRecord r in
    (Admission (skip a) (stored_data a) (stored_rawData a) false, n).

(** A skipped action is stored blanked. *)
Definition pending_row (txid : jstr) (r : parse_result) : mempool_row :=
  let a := (admitMempoolAction r).1 in
  MempoolRow txid (source r) (destination r) None 0
    (if ad_skip a then [] else ad_data a) (if ad_skip a then None else ad_rawData a).

(** [true]: a new pending action. *)
Definition storeMempoolTransaction (nodeTxid : option jstr) (hex : jstr) (open : gset jstr)
  : Mem bool :=
  decoded ← decodeMempoolTransaction hex;
  match (decoded : option transaction) with
  | None => mret false
  | Some tx =>
      match tx_id tx with
      | None => mthrow (plain_error (js "getId failed"))
      | Some computedTxid =>
          if negb (bool_decide (nodeTxid = Some computedTxid)) then count_errors 1;; mret false
          else
            parsed ← parseMempoolTransaction tx open;
            match (parsed : option parse_result) with
            | None => mret false
            | Some r =>
                let '(a, n) := admitMempoolAction r in
                count_errors n;;
                stored ← insertMempoolTransaction (pending_row computedTxid r);
                mret ((stored : bool) && negb (ad_skip a) && negb (ad_unattributed a)
                      && negb (is_empty (data r)))
            end
      end
  end.

Fixpoint store_chunk (chunk : list jstr) (hexes : list (option jstr)) (open : gset jstr)
    (valid : Z) : Mem Z :=
  match hexes with
  | [] => mret valid
  | None :: hexes' => store_chunk (tail chunk) hexes' open valid
  | Some hex :: hexes' =>
      new ← storeMempoolTransaction (head chunk) hex open;
      store_chunk (tail chunk) hexes' open (if (new : bool) then valid + 1 else valid)
  end.

(** One unit of fuel per txid is enough: a chunk is not empty. *)
Fixpoint store_batches (fuel : nat) (rawMempool : list jstr) (open : gset jstr) (valid : Z)
  : Mem Z :=
  match fuel, rawMempool with
  | _, [] | O, _ => mret valid
  | S n, _ =>
      let chunk := take MEMPOOL_BATCH_SIZE rawMempool in
      answer ← mask (fun k => getRawTransactions k chunk);
      valid' ← (match (answer : option (list (option jstr))) with
                | Some hexes => store_chunk chunk hexes open valid
                | None => mret valid
                end);
      store_batches n (drop MEMPOOL_BATCH_SIZE rawMempool) open valid'
  end.

Definition storeMempoolBatches (rawMempool : list jstr) (open : gset jstr) : Mem Z :=
  store_batches (length rawMempool) rawMempool open 0.

(** The new pending actions. *)
Definition refreshMempoolRows (rawMempool : list jstr) : Mem Z :=
  open ← loadMempoolOpenDispenserAddresses;
  news ← deleteAndCompareTxsNotInList rawMempool;
  storeMempoolBatches news open.

Definition updateMempool : Mem unit := fun s =>
  if mempoolBusy s then (Ret tt, s)
  else
    (mset (fun s => s <| mempoolBusy := true |>);;
     a ← mask getRawMempool;
     match (a : raw_answer) with
     | RawTxids l =>
         let rawMempool := dedupNodeMempool l in
         now ← mask clock;
         mset (fun s => s <| nodeMempoolTxCount := Z.of_nat (length rawMempool) |>
                          <| nodeMempoolUpdatedAt := Some now |>);;
         mfinally (refreshMempoolRows rawMempool;; mret tt) (fun s => s <| mempoolBusy := false |>)
     | RawThrows | RawNotArray => mset (fun s => s <| mempoolBusy := false |>)
     end) s.
End Refresh.
