(* ===== verification/MempoolFacts.v ===== *)
(** * Properties of the mempool view

    The refresh leaves the shared tables alone, and every row it leaves is one it found and
    the node still lists, or one it can account for. *)
From S2P Require Import Prelude JsNum Wire Activation ProtocolTime Config StorageGate.
From S2P Require Import DispenserCommand Db DbRows Atomic Idle Dispensers Carrier Parse.
From S2P Require Import BlockDecoder LibSample Sample Ingest BlockStore LoopState MainLoop.
From S2P Require Import LoopRuns Mempool.
#[local] Open Scope Z_scope.
#[local] Open Scope update_scope.

(** ** A parse that records no pubkey leaves every table alone *)

(** Follow the structure of a computation; [leaf] closes the calls it knows. *)
Ltac rests_by leaf := repeat first
  [ solve [leaf]
  | apply rests_ret | apply rests_throw | apply rests_count | apply rests_select
  | apply rests_getConnection | apply rests_read_retrying
  | apply rests_bind; [|intro] | apply rests_try; [|intro] | case_match ].
Ltac rests := rests_by fail.

Section Parsing.
Context {Coll : Collation} {Lib : ChainLib} {P : tables -> Prop}.

Lemma rests_fetchTransaction txid : rests P (fetchTransaction txid).
Proof.
  unfold fetchTransaction, parse_hex. rests. apply brings_query_with; try done.
  by intros w a w' [= <- <-].
Qed.

Lemma rests_chunk_failure {A} : rests P (chunk_failure (A := A)).
Proof. unfold chunk_failure. rests. Qed.

Lemma rests_read_carrier cfg t script id c : rests P (read_carrier cfg t script id c).
Proof.
  assert (Hp : forall l b, rests P (readP2shChunks l b)).
  { induction l as [|i l IH]; intros b; simpl; rests; first [done|apply rests_chunk_failure]. }
  assert (Hw : forall l b, rests P (readP2wshChunks cfg l b)).
  { induction l as [|i l IH]; intros b; simpl; rests; first [done|apply rests_chunk_failure]. }
  unfold read_carrier, readOpReturnCarrier. rests; done.
Qed.

Lemma rests_scanOutputs cfg t open id l i s : rests P (scanOutputs cfg t open id l i s).
Proof.
  revert i s. induction l as [|o l IH]; intros i s; cbn [scanOutputs]; [apply rests_ret|].
  destruct (captureOutputAddress _ _ _ _) as [d lists]. destruct (script_decompile _);
    [| |apply rests_throw]; (apply rests_bind; [rests; apply rests_read_carrier|intros c; apply IH]).
Qed.

Lemma rests_commit_funding t : rests P (fetchCommitFundingOutput t).
Proof. unfold fetchCommitFundingOutput. rests_by ltac:(apply rests_fetchTransaction). Qed.

Lemma rests_capturePubkey k s : rests P (capturePubkey false k s).
Proof. unfold capturePubkey, extractPubkeyFromInput. rests. Qed.

Lemma rests_funding_fees cfg f id c s l : rests P (attributeFundingFees cfg f id c s l).
Proof.
  unfold attributeFundingFees, findFundingFeeOutputs. rests_by ltac:(apply rests_fetchTransaction).
Qed.

Lemma rests_parseTransaction cfg t open h : rests P (parseTransaction cfg t open false h).
Proof.
  unfold parseTransaction, parseXChainTransaction, resolveXChainTransaction, arbitrateEnvelope,
    decompilePayload, reportEmptyLeadingPush, getEnvelopeSourceFromCommit, getSourceFromOutput,
    fetchPrevoutTransaction, fetchEnvelopeCommitTransaction.
  rests_by ltac:(first [apply rests_fetchTransaction | apply rests_commit_funding
    | apply rests_capturePubkey | apply rests_funding_fees | apply rests_scanOutputs]).
Qed.
End Parsing.

(** ** Hoare logic for the refresh *)

Definition mtriple {A} (P : mstate -> Prop) (m : Mem A) (F : A -> mstate -> Prop)
    (E : mstate -> Prop) : Prop :=
  forall s, P s ->
    match m s with
    | (Ret a, s') => F a s'
    | (Throw _, s') => E s'
    | (Blocked, _) => False
    end.

(** The shared tables are [T], and the rows satisfy [R]. *)
Definition holds (T : tables) (R : list mempool_row -> Prop) (s : mstate) : Prop :=
  idle T (m_world s) /\ R (m_rows s).

Section Rules.
Context {T : tables} {R : list mempool_row -> Prop}.

Lemma mt_ret {A} (a : A) F E : (forall s, holds T R s -> F a s) -> mtriple (holds T R) (mret a) F E.
Proof. intros H s. apply H. Qed.

Lemma mt_conseq {A} (m : Mem A) (R' : list mempool_row -> Prop) F F' (E E' : mstate -> Prop) :
  mtriple (holds T R') m F' E' -> (forall l, R l -> R' l) -> (forall a s, F' a s -> F a s) ->
  (forall s, E' s -> E s) -> mtriple (holds T R) m F E.
Proof.
  intros Hm H1 H2 H3 s [Hi Hr]. specialize (Hm s (conj Hi (H1 _ Hr))).
  destruct (m s) as [[a|e|] s']; auto.
Qed.

Lemma mt_bind {A B} (m : Mem A) (k : A -> Mem B) K F E :
  mtriple (holds T R) m K E -> (forall a, mtriple (K a) (k a) F E) ->
  mtriple (holds T R) (m ≫= k) F E.
Proof.
  intros Hm Hk s Hs. specialize (Hm s Hs). unfold mbind, Mem_bind.
  destruct (m s) as [[a|e|] s']; [by apply Hk|done..].
Qed.

Lemma mt_try {A} (m : Mem A) h F E E' :
  mtriple (holds T R) m F E' -> (forall e, mtriple E' (h e) F E) ->
  mtriple (holds T R) (mtry m h) F E.
Proof.
  intros Hm Hh s Hs. specialize (Hm s Hs). unfold mtry.
  destruct (m s) as [[a|e|] s']; [done|by apply Hh|done].
Qed.

Lemma mt_mask {A} (f : nat -> A) E :
  mtriple (holds T R) (mask f) (fun a s => holds T R s /\ exists k, a = f k) E.
Proof. intros s Hs. split; [exact Hs|by eexists]. Qed.

(** A call on the handle, and what it answered. *)
Lemma mt_db {A} (m : M A) :
  (forall P, rests P m) ->
  mtriple (holds T R) (mdb m) (fun a s => holds T R s /\ exists w w', m w = (Ret a, w'))
    (holds T R).
Proof.
  intros Hm s [Hi Hr]. specialize (Hm (eq T) (m_world s) (ex_intro _ T (conj eq_refl Hi))).
  unfold mdb. destruct (m (m_world s)) as [[a|e|] w] eqn:Em; [| |done].
  - destruct Hm as (t & <- & Ht). split; [by split|]. by exists (m_world s), w.
  - destruct Hm as (t & <- & Ht). by split.
Qed.

Lemma mt_db' {A} (m : M A) :
  (forall P, rests P m) -> mtriple (holds T R) (mdb m) (fun _ => holds T R) (holds T R).
Proof.
  intros Hm. eapply mt_conseq; [by apply (mt_db m)|done| |done]. by intros a s [Hs _].
Qed.

Lemma mt_count n E : mtriple (holds T R) (count_errors n) (fun _ => holds T R) E.
Proof. by intros s Hs. Qed.

Lemma mt_pure {A} (phi : Prop) (m : Mem A) F E :
  (phi -> mtriple (holds T R) m F E) -> mtriple (fun s => holds T R s /\ phi) m F E.
Proof. intros Hm s [Hs Hp]. by apply Hm. Qed.

Lemma mt_rows {A} (stmt : list mempool_row -> jserror + (A * list mempool_row)) R' E :
  (forall l a l', R l -> stmt l = inr (a, l') -> R' a l') ->
  (forall l, R l -> E l) -> (forall a l, R' a l -> E l) ->
  mtriple (holds T R) (on_rows stmt) (fun a => holds T (R' a)) (holds T E).
Proof.
  intros Hs HR HR' s [Hi Hr]. unfold on_rows.
  assert (Hf : forall fs, idle T (with_faults fs (m_world s))) by (by intros fs).
  destruct (faults (m_world s)) as [|[f|] fs].
  - destruct (stmt (m_rows s)) as [e|[a l]] eqn:Es; [split; auto|split; [done|by eapply Hs]].
  - destruct (fault_lands f); [|split; [apply Hf|auto]]. cbn -[idle].
    destruct (stmt (m_rows s)) as [e|[a l]] eqn:Es; (split; [apply Hf|]); [by auto|].
    simpl. by eapply HR', Hs.
  - cbn -[idle]. destruct (stmt (m_rows s)) as [e|[a l]] eqn:Es; (split; [apply Hf|]); [by auto|].
    simpl. by eapply Hs.
Qed.
End Rules.

Abbreviation mkeeps T R m := (mtriple (holds T R) m (fun _ => holds T R) (holds T R)).

(** ** Every row can be accounted for *)

Section Refresh.
Context {Coll : Collation} {Lib : ChainLib} `{LibView}.
Context (cfg : decoder_config) (wireFormat : wire_format).
Context (getRawMempool : nat -> raw_answer).
Context (getRawTransactions : nat -> list jstr -> option (list (option jstr))).
Context (clock : nat -> Z) (cursor_at : nat -> Z) (by_locale : list jstr -> list jstr).
Context (T : tables).

(** The row of a txid the node lists: the bytes served at its place decode to a transaction
    with that very id, and the row is what its parse is admitted as. *)
Definition accounted (txids : list jstr) (x : mempool_row) : Prop :=
  exists txid t r, txid ∈ txids /\ tx_id (view_tx t) = Some txid /\ x = pending_row txid r
    /\ (exists k chunk hexes i hex, getRawTransactions k chunk = Some hexes
          /\ chunk !! i = Some txid /\ hexes !! i = Some (Some hex)
          /\ BlockDecoder.transactionFromHex wireFormat hex = inr t)
    /\ exists open height w w',
         parseTransaction cfg (view_tx t) open false height w = (Ret (Some r), w').

(** The column tx_hash is unique under the collation. *)
Definition distinct_hashes (rows : list mempool_row) : Prop :=
  NoDup ((fun x => collate (mr_hash x)) <$> rows).

(** [base] is still there, and what was added is accounted for. *)
Definition grown (base : list mempool_row) (txids : list jstr) (rows : list mempool_row) : Prop :=
  (exists new, rows = base ++ new /\ Forall (accounted txids) new)
  /\ (distinct_hashes base -> distinct_hashes rows).

Context (base : list mempool_row) (txids : list jstr).
Abbreviation Grown := (grown base txids).

Lemma new_hash h l : has_row h l = false -> collate h ∉ ((fun x => collate (mr_hash x)) <$> l).
Proof.
  intros Hf (x & Ex & Hx)%list_elem_of_fmap. apply not_true_iff_false in Hf. apply Hf.
  apply existsb_exists. exists x. split; [by apply list_elem_of_In|]. by apply eqs_true.
Qed.

Lemma grown_insert r l :
  accounted txids r -> Grown l -> has_row (mr_hash r) l = false -> Grown (l ++ [r]).
Proof.
  intros Hr [(new & -> & Hnew) Hd] Hf. split.
  - exists (new ++ [r]). by rewrite (assoc_L (++)), Forall_app, Forall_singleton.
  - intros Hb. unfold distinct_hashes. rewrite fmap_app. apply NoDup_app. split_and!;
      [by apply Hd| |by apply NoDup_singleton].
    intros k Hk ->%list_elem_of_singleton. by apply (new_hash _ _ Hf).
Qed.

Lemma mk_insert r : (accounted txids r) -> mkeeps T Grown (insertMempoolTransaction r).
Proof.
  intros Hr. unfold insertMempoolTransaction. eapply mt_bind;
    [apply mt_db'; intros P; apply rests_getConnection|intros []].
  apply (mt_try _ _ _ _ (holds T Grown)); [|intros e; by apply mt_ret].
  eapply mt_bind; [apply (mt_rows _ (fun _ => Grown) Grown)|intros []; by apply mt_ret]; try done.
  intros l [] l' Hl. destruct (has_row _ _) eqn:Ef; [done|]. intros [= <-]. by apply grown_insert.
Qed.

Lemma mk_decode hex :
  mtriple (holds T Grown) (decodeMempoolTransaction wireFormat hex)
    (fun o s => holds T Grown s /\ forall tx, o = Some tx ->
       exists t, tx = view_tx t /\ BlockDecoder.transactionFromHex wireFormat hex = inr t)
    (holds T Grown).
Proof.
  unfold decodeMempoolTransaction. destruct (BlockDecoder.transactionFromHex wireFormat hex) as [e|t].
  - eapply mt_bind; [apply mt_count|intros []]. apply mt_ret. intros s Hs. by split.
  - apply mt_ret. intros s Hs. split; [exact Hs|]. intros tx Htx. exists t. split; [|done].
    by destruct (ins (view_tx t)); simplify_eq.
Qed.

Lemma mk_parse tx open :
  mtriple (holds T Grown) (parseMempoolTransaction cfg cursor_at tx open)
    (fun o s => holds T Grown s /\ forall r, o = Some r -> exists open height w w',
       parseTransaction cfg tx open false height w = (Ret (Some r), w')) (holds T Grown).
Proof.
  unfold parseMempoolTransaction. eapply mt_bind; [apply mt_mask|intros last].
  apply mt_pure. intros _. apply (mt_try _ _ _ _ (holds T Grown)).
  - eapply mt_conseq; [apply (mt_db (R := Grown)); intros P; apply rests_parseTransaction|done| |done].
    intros o s [Hs (w & w' & E)]. split; [exact Hs|]. intros r ->. by exists open, (jint (last + 1)), w, w'.
  - intros e. eapply mt_bind; [apply mt_count|intros []]. apply mt_ret. intros s Hs. by split.
Qed.

(** The place a transaction was served at. *)
Definition served_at (txid : option jstr) (hex : jstr) : Prop :=
  forall h, txid = Some h -> h ∈ txids /\ exists k chunk hexes i,
    getRawTransactions k chunk = Some hexes /\ chunk !! i = Some h /\ hexes !! i = Some (Some hex).

Lemma mk_store txid hex open :
  served_at txid hex ->
  mkeeps T Grown (storeMempoolTransaction cfg wireFormat cursor_at txid hex open).
Proof.
  intros Hserved. unfold storeMempoolTransaction. eapply mt_bind; [apply mk_decode|intros o].
  apply mt_pure. intros Ht. destruct o as [tx|]; [|by apply mt_ret].
  destruct (Ht tx eq_refl) as (t & -> & Hdec).
  destruct (tx_id (view_tx t)) as [id|] eqn:Eid; [|by intros s Hs].
  case_bool_decide as Eq; cbn [negb].
  2: { eapply mt_bind; [apply mt_count|intros []]. by apply mt_ret. }
  destruct (Hserved id Eq) as (Hin & k & chunk & hexes & i & H1 & H2 & H3).
  eapply mt_bind; [apply mk_parse|intros p]. apply mt_pure. intros Hp.
  destruct p as [r|]; [|by apply mt_ret].
  destruct (admitMempoolAction r) as [a n]. eapply mt_bind; [apply mt_count|intros []].
  eapply mt_bind; [apply mk_insert|intros stored; by apply mt_ret].
  exists id, t, r. split_and!; try done; [|by apply Hp]. by exists k, chunk, hexes, i, hex.
Qed.

Lemma mk_chunk k chunk hexes open :
  (forall h, h ∈ chunk -> h ∈ txids) -> getRawTransactions k chunk = Some hexes ->
  forall i valid, mkeeps T Grown (store_chunk cfg wireFormat cursor_at (drop i chunk) (drop i hexes) open valid).
Proof.
  intros Hsub Ha i. remember (drop i hexes) as rest eqn:Er. revert i Er.
  induction rest as [|o rest IH]; intros i Er valid; cbn [store_chunk]; [by apply mt_ret|].
  assert (Hi : hexes !! i = Some o) by (by rewrite <- (Nat.add_0_r i), <- lookup_drop, <- Er).
  assert (Er' : rest = drop (S i) hexes) by (by rewrite <- Nat.add_1_r, <- drop_drop, <- Er).
  assert (Ec : tail (drop i chunk) = drop (S i) chunk) by (by rewrite <- Nat.add_1_r, <- drop_drop; destruct (drop i chunk)).
  rewrite Ec. destruct o as [hex|]; [|by apply IH].
  eapply mt_bind; [apply mk_store|intros new; by apply IH].
  intros h Hh. assert (Hc : chunk !! i = Some h).
  { rewrite <- (Nat.add_0_r i), <- lookup_drop. by destruct (drop i chunk). }
  split; [apply Hsub; by eapply list_elem_of_lookup_2|]. by exists k, chunk, hexes, i.
Qed.

Lemma mk_batches open fuel rest valid :
  (forall h, h ∈ rest -> h ∈ txids) ->
  mkeeps T Grown (store_batches cfg wireFormat getRawTransactions cursor_at fuel rest open valid).
Proof.
  revert rest valid. induction fuel as [|n IH]; intros rest valid Hsub; simpl.
  { by destruct rest; apply mt_ret. }
  destruct rest as [|h rest]; [by apply mt_ret|].
  assert (Hkeep : forall v, mkeeps T Grown (store_batches cfg wireFormat getRawTransactions cursor_at n
    (drop MEMPOOL_BATCH_SIZE (h :: rest)) open v)).
  { intros v. apply IH. intros x Hx. apply Hsub. rewrite <- (take_drop MEMPOOL_BATCH_SIZE (h :: rest)), elem_of_app. by right. }
  eapply mt_bind; [apply mt_mask|intros answer]. apply mt_pure. intros (k & Hk).
  eapply (mt_bind _ _ (fun _ => holds T Grown)); [|intros v; apply Hkeep].
  destruct answer as [hexes|]; [|by apply mt_ret].
  refine (mk_chunk k (take MEMPOOL_BATCH_SIZE (h :: rest)) hexes open _ (eq_sym Hk) 0%nat valid).
  intros x Hx. apply Hsub. rewrite <- (take_drop MEMPOOL_BATCH_SIZE (h :: rest)), elem_of_app. by left.
Qed.

Lemma mk_open R :
  mkeeps T R (loadMempoolOpenDispenserAddresses cfg clock cursor_at).
Proof.
  unfold loadMempoolOpenDispenserAddresses. eapply mt_bind; [apply mt_mask|intros now].
  apply mt_pure. intros _. cbn zeta.
  eapply (mt_bind _ _ (fun _ => holds T R)).
  { unfold loadMempoolParentProtocolTime. destruct (isDispenserCancelGraceParentFloorActive _ _);
      cbn [negb]; [|by apply mt_ret].
    eapply mt_bind; [apply mt_mask|intros last]. apply mt_pure. intros _.
    destruct (last <? 0); [by apply mt_ret|].
    eapply mt_bind; [apply mt_db'; intros P|intros times; by apply mt_ret].
    generalize (if isProtocolTimeMtpActive (consensusNetwork cfg) then S MEDIAN_TIME_SPAN else 1%nat).
    intros span. generalize (@nil jsval). revert last. induction span as [|n IH]; intros last l;
      simpl; rests. apply IH. }
  intros parent. eapply (mt_bind _ _ (fun _ => holds T R)); [|intros o; by apply mt_ret].
  apply (mt_try _ _ _ _ (holds T R)); [|intros e; by apply mt_ret].
  apply mt_db'. intros P. unfold getAllOpenDispenserAddresses. rests.
Qed.
End Refresh.

(** ** The snapshot diff *)

Lemma rests_call P : rests P call.
Proof. apply brings_query_with; try done. by intros w a w' [= <- <-]. Qed.

Lemma rests_repeat_call n P : rests P (repeat_call n).
Proof. induction n as [|n IH]; simpl; rests_by ltac:(first [apply rests_call|apply IH]). Qed.

Section Diff.
Context {Coll : Collation} (T : tables) (rows0 : list mempool_row) (txids : list jstr).

Definition kept_rows : list mempool_row := List.filter (listed txids) rows0.
Definition new_txids : list jstr := List.filter (fun h => negb (has_row h kept_rows)) txids.

(** The diff may have failed before or after it deleted. *)
Abbreviation Torn := (holds T (fun l => l = rows0 \/ l = kept_rows)).

Lemma reconcile_exact :
  mtriple (holds T (eq rows0)) (reconcileMempoolSnapshot txids)
    (fun news => holds T (fun l => l = kept_rows /\ news = new_txids)) Torn.
Proof.
  unfold reconcileMempoolSnapshot. eapply mt_bind.
  { apply (mt_rows _ (fun _ l => l = kept_rows) (fun l => l = rows0 \/ l = kept_rows)); auto.
    by intros l [] l' <- [= <-]. }
  intros []. destruct txids as [|h l] eqn:El.
  { apply mt_ret. intros s [Hi Hr]. split; [exact Hi|]. split; [exact Hr|]. unfold new_txids. by rewrite El. }
  rewrite <- El.
  eapply mt_bind.
  { apply (mt_rows _ (fun present l => l = kept_rows
      /\ present = List.filter (fun h => has_row h kept_rows) txids)
      (fun l => l = rows0 \/ l = kept_rows)); [|auto|by intros a l' [-> _]; right].
    by intros l' a l'' -> [= <- <-]. }
  intros present. apply mt_ret. intros s [Hi [Hr ->]]. split; [exact Hi|]. split; [exact Hr|].
  unfold new_txids. apply filter_ext_in. intros x Hx. f_equal.
  destruct (has_row x kept_rows) eqn:E.
  - apply existsb_exists. exists x. split; [by apply filter_In|apply eqs_refl].
  - apply not_true_iff_false. intros (y & [_ Hy]%filter_In & <-%eqs_true)%existsb_exists. congruence.
Qed.

Lemma diff_exact :
  mtriple (holds T (eq rows0)) (deleteAndCompareTxsNotInList txids)
    (fun news => holds T (fun l => l = kept_rows /\ news = new_txids)) Torn.
Proof.
  assert (Hdrop : forall R, mkeeps T R (mtry (mdb call) (fun _ => mret tt))).
  { intros R. apply (mt_try _ _ _ _ (holds T R)); [|intros e; by apply mt_ret].
    apply mt_db'. intros P. apply rests_call. }
  assert (Htorn : forall s, holds T (eq rows0) s -> Torn s) by (intros s [Hi Hr]; split; [exact Hi|left; by symmetry]).
  unfold deleteAndCompareTxsNotInList. eapply (mt_bind _ _ (fun _ => holds T (eq rows0))).
  { eapply mt_conseq; [apply (mt_db' (R := eq rows0)); intros P; apply rests_getConnection|done|
      intros a s Hs; exact Hs|exact Htorn]. }
  intros []. cbn zeta. eapply (mt_bind _ _ (fun news => holds T (fun l => l = kept_rows /\ news = new_txids))).
  { apply (mt_try _ _ _ _ Torn).
    - eapply (mt_bind _ _ (fun _ => holds T (eq rows0))); [|intros []; apply reconcile_exact].
      eapply mt_conseq; [apply (mt_db' (R := eq rows0)); intros P|done|intros a s Hs; exact Hs|exact Htorn].
      unfold seedMempoolSnapshot. rests_by ltac:(first [apply rests_call|apply rests_repeat_call]).
    - intros e. eapply mt_bind; [apply Hdrop|intros []; by intros s Hs]. }
  intros news.
  eapply (mt_bind _ _ (fun _ => holds T (fun l => l = kept_rows /\ news = new_txids))).
  { eapply mt_conseq; [apply (Hdrop (fun l => l = kept_rows /\ news = new_txids))|done|
      intros u s Hs; exact Hs|]. intros s [Hi [Hr _]]. split; auto. }
  intros []. by apply mt_ret.
Qed.
End Diff.

(** ** The refresh as a whole *)

Lemma first_seen_in seen l x : x ∈ first_seen seen l <-> x ∈ l /\ x ∉ seen.
Proof.
  revert seen. induction l as [|h l IH]; intros seen; simpl; [set_solver|].
  destruct (existsb (eqs h) seen) eqn:E.
  - apply existsb_exists in E as (y & Hy%list_elem_of_In & <-%eqs_true). rewrite IH. set_solver.
  - assert (Hh : h ∉ seen).
    { intros Hin. apply not_true_iff_false in E. apply E, existsb_exists. exists h.
      split; [by apply list_elem_of_In|apply eqs_refl]. }
    rewrite !elem_of_cons, IH, elem_of_cons. destruct (decide (x = h)) as [->|]; naive_solver.
Qed.

Lemma listed_iff `{Collation} txids r :
  listed txids r = true <-> exists h, h ∈ txids /\ collate h = collate (mr_hash r).
Proof.
  unfold listed. rewrite existsb_exists. setoid_rewrite <- list_elem_of_In. unfold same_text.
  by setoid_rewrite eqs_true.
Qed.

Section View.
Context {Coll : Collation} {Lib : ChainLib} `{LibView}.
Context (cfg : decoder_config) (wireFormat : wire_format).
Context (getRawMempool : nat -> raw_answer).
Context (getRawTransactions : nat -> list jstr -> option (list (option jstr))).
Context (clock : nat -> Z) (cursor_at : nat -> Z) (by_locale : list jstr -> list jstr).
Context (sorts : forall l, by_locale l ≡ₚ l).

Abbreviation accounts := (accounted cfg wireFormat getRawTransactions).
Abbreviation refresh := (refreshMempoolRows cfg wireFormat getRawTransactions clock cursor_at).
Abbreviation dedup := (dedupNodeMempool by_locale).

Lemma dedup_in l x : x ∈ dedup l <-> x ∈ l.
Proof. unfold dedupNodeMempool. rewrite (sorts _), first_seen_in. set_solver. Qed.

Lemma kept_dedup rows l : kept_rows rows (dedup l) = kept_rows rows l.
Proof.
  unfold kept_rows. apply filter_ext_in. intros x _. apply eq_true_iff_eq.
  rewrite !listed_iff. by setoid_rewrite dedup_in.
Qed.

(** What a refresh against the node's list [l] leaves of the rows. *)
Definition refreshed (rows0 : list mempool_row) (l : list jstr) : list mempool_row -> Prop :=
  grown cfg wireFormat getRawTransactions (kept_rows rows0 l) l.

(** The rows may be untouched where it throws. *)
Lemma refresh_rows T rows0 l :
  mtriple (holds T (eq rows0)) (refresh (dedup l))
    (fun _ => holds T (refreshed rows0 l))
    (holds T (fun rows => rows = rows0 \/ refreshed rows0 l rows)).
Proof.
  assert (Hk : refreshed rows0 l (kept_rows rows0 l)).
  { split; [|done]. exists []. by rewrite app_nil_r. }
  set (E := fun rows => rows = rows0 \/ refreshed rows0 l rows).
  assert (HE : forall s, holds T (eq rows0) s -> holds T E s).
  { intros s [Hi Hr]. split; [exact Hi|]. left. by symmetry. }
  unfold refreshMempoolRows. eapply (mt_bind _ _ (fun _ => holds T (eq rows0))).
  { eapply mt_conseq; [apply (mk_open cfg clock cursor_at T (eq rows0))|done| |exact HE]. done. }
  intros open. eapply (mt_bind _ _ (fun news => holds T (fun rows => rows = kept_rows rows0 l
    /\ news = new_txids rows0 (dedup l)))).
  { eapply mt_conseq; [apply (diff_exact T rows0 (dedup l))|done| |].
    - intros news s Hs. by rewrite kept_dedup in Hs.
    - intros s [Hi Hr]. split; [exact Hi|]. rewrite kept_dedup in Hr.
      destruct Hr as [->| ->]; [by left|by right]. }
  intros news. intros s [Hi [Hr ->]].
  pose proof (mk_batches cfg wireFormat getRawTransactions cursor_at T (kept_rows rows0 l) l
    open (length (new_txids rows0 (dedup l))) (new_txids rows0 (dedup l)) 0) as Hb.
  assert (Hsub : forall h, h ∈ new_txids rows0 (dedup l) -> h ∈ l).
  { intros h. unfold new_txids. rewrite list_elem_of_In, filter_In, <- list_elem_of_In, dedup_in. tauto. }
  specialize (Hb Hsub s). unfold storeMempoolBatches. rewrite <- Hr in Hk.
  specialize (Hb (conj Hi Hk)). destruct (store_batches _ _ _ _ _ _ _ _ s) as [[a|e|] s'];
    [exact Hb| |exact Hb]. destruct Hb as [Hi' Hr']. split; [exact Hi'|by right].
Qed.

Lemma refreshed_listed rows0 l rows x : refreshed rows0 l rows -> x ∈ rows -> listed l x = true.
Proof.
  intros [(new & -> & Hnew) _] [Hx|Hx]%elem_of_app.
  - apply list_elem_of_In in Hx. unfold kept_rows in Hx. by apply filter_In in Hx as [_ Hx].
  - rewrite Forall_forall in Hnew. destruct (Hnew x Hx) as (h & t & r & Hh & _ & -> & _).
    apply listed_iff. by exists h.
Qed.

Lemma kept_distinct rows0 l : distinct_hashes rows0 -> distinct_hashes (kept_rows rows0 l).
Proof.
  unfold distinct_hashes, kept_rows. induction rows0 as [|x rows IH]; [done|].
  rewrite fmap_cons, NoDup_cons. intros [Hx Hn]. cbn [List.filter].
  destruct (listed l x); [|by apply IH]. rewrite fmap_cons, NoDup_cons. split; [|by apply IH].
  intros (y & Ey & [Hy _]%list_elem_of_In%filter_In)%list_elem_of_fmap. apply Hx.
  apply list_elem_of_fmap. exists y. by rewrite list_elem_of_In.
Qed.

(** C4: One refresh of the mempool view, whatever the node answers and whatever its
    database calls do: it terminates, never touches the tables the block loop writes, and
    clears the busy flag also when it throws.  An answer that is not an array changes no row.
    Otherwise the rows are left as they were, or they are the old rows the node still lists,
    in order, followed by rows accounted for: each is keyed on a txid the node listed, whose
    served bytes decode to a transaction with that very id, and holds what the parse of that
    transaction is admitted as; no hash is stored twice.  A refresh that returns ran the diff. *)
Theorem mempool_view_sound T s :
  idle T (m_world s) -> mempoolBusy s = false ->
  let '(r, s') := updateMempool cfg wireFormat getRawMempool getRawTransactions clock cursor_at
                    by_locale s in
  r <> Blocked /\ idle T (m_world s') /\ mempoolBusy s' = false /\
  match getRawMempool (m_tick s) with
  | RawThrows | RawNotArray => r = Ret tt /\ m_rows s' = m_rows s
  | RawTxids l =>
      let exact := (exists new, m_rows s' = List.filter (listed l) (m_rows s) ++ new
                       /\ Forall (accounts l) new) /\
                   (distinct_hashes (m_rows s) -> distinct_hashes (m_rows s')) in
      match r with
      | Ret _ => exact /\ Forall (fun x => listed l x = true) (m_rows s')
      | _ => m_rows s' = m_rows s \/ exact
      end
  end.
Proof.
  intros Hi Hb. unfold updateMempool. rewrite Hb. unfold mset, mask, mbind, Mem_bind. cbn -[refresh].
  destruct (getRawMempool (m_tick s)) as [| |l]; cbn -[refresh]; [split_and!; done..|].
  unfold mfinally, mret, Mem_ret.
  match goal with |- context [refresh (dedup l) ?s0] =>
    pose proof (refresh_rows T (m_rows s) l s0 (conj Hi eq_refl)) as Hr;
    destruct (refresh (dedup l) s0) as [[n|e|] s'] end; [| |done]; destruct Hr as [Hi' Hr'];
    cbn -[refreshed distinct_hashes].
  - split_and!; try done; [by apply Hr'|intros Hd; by apply Hr', kept_distinct|].
    apply Forall_forall. intros x. by apply refreshed_listed with (rows0 := m_rows s).
  - split_and!; try done. destruct Hr' as [Hr'|Hr']; [by left|right].
    split; [by apply Hr'|intros Hd; by apply Hr', kept_distinct].
Qed.
End View.

(** ** A concrete refresh *)

(** Every transaction is shown as the sample COINPAY. *)
Definition pending_view : LibView := {|
  view_tx _ := coinpay_tx; block_prevHash := toy_prev; block_timestamp := toy_time
|}.

Definition stale_row : mempool_row := MempoolRow (js "gone") None None None 0 [] None.
Definition pending_txid : jstr := replicate 64 97.

(** The txid is listed twice. *)
Definition pending_list (_ : nat) : raw_answer := RawTxids [pending_txid; pending_txid].
Definition pending_bytes (_ : nat) (chunk : list jstr) : option (list (option jstr)) :=
  Some (map (fun _ => Some (hex_of (ser_tx toy_payment))) chunk).

Definition pending_state (fs : list (option fault)) : mstate :=
  MState (idle_world initial_tables fs) [stale_row] false 0 None 0.

Abbreviation sample_refresh fs := (@updateMempool _ _ _ pending_view sample_config WireDefault
  pending_list pending_bytes (fun _ => 1700000000) (fun _ => 100) id (pending_state fs)).

(** The stale row goes, and the pending COINPAY is stored; or every call fails, and
    the rows are as they were. *)
Lemma mempool_view_sound_witness :
  map (fun x => (mr_hash x, mr_data x)) (m_rows (sample_refresh []).2)
    = [(pending_txid, js "COINPAY|0|1")]
  /\ m_rows (sample_refresh (replicate 60 (Some (Fault (plain_error (js "gone away")) false)))).2 = [stale_row]
  /\ Forall (fun x => listed [pending_txid; pending_txid] x = true) (m_rows (sample_refresh []).2).
Proof.
  split; [by vm_compute|]. split; [by vm_compute|].
  pose proof (@mempool_view_sound _ _ _ pending_view sample_config WireDefault pending_list
    pending_bytes (fun _ => 1700000000) (fun _ => 100) id ltac:(done) initial_tables
    (pending_state []) ltac:(done) eq_refl) as H.
  assert (E : (sample_refresh []).1 = Ret tt) by by vm_compute.
  destruct (sample_refresh []) as [r s']. simpl in E. subst r. exact (proj2 (proj2 (proj2 (proj2 H)))).
Defined.
