(* ===== verification/SqlText.v ===== *)
(** * SQL text

    The quote-aware walkers over SQL text: stripSqlLineComments and splitSqlStatements of
    src/src/db/migration_statements.js, stripBlockComments and splitTopLevel of
    src/src/db/migration_live_schema_guard.js, hasUnquotedHash of
    src/src/db/migration_guards/destructive_statement_rules.js, and opensBackslashEscape of
    src/src/db/query_helpers.js, which they share.

    A walker reads the text from the front and holds the open quote, if any.  A block
    comment is carried over in one jump, so it takes fuel; one unit per character is
    enough.  The reference is a lexer ([lex]): each walker is proved to be a function of
    the tokens. *)
From S2P Require Import Prelude.
#[local] Open Scope Z_scope.

Definition LF : Z := 10.
Definition hash : Z := 35.
Definition backslash : Z := 92.
Definition backtick : Z := 96.

(** Apostrophe, double quote, backtick. *)
Definition is_quote (c : Z) : bool := (c =? 39) || (c =? 34) || (c =? backtick).

(** [s.indexOf(p)]; [None] is -1. *)
Fixpoint indexOf (p s : jstr) : option nat :=
  if startsWith p s then Some 0%nat
  else match s with
       | [] => None
       | _ :: s' => S <$> indexOf p s'
       end.

(** Of the text from the position on. *)
Definition opensBackslashEscape (s : jstr) (quote : Z) : bool :=
  match s with
  | c :: _ :: _ => (c =? backslash) && negb (quote =? backtick)
  | _ => false
  end.

(** One step inside a quoted span: what is copied, the quote then open, the rest. *)
Definition quote_step (quote ch : Z) (rest : jstr) : jstr * option Z * jstr :=
  if opensBackslashEscape (ch :: rest) quote then (ch :: take 1 rest, Some quote, drop 1 rest)
  else if ch =? quote then
    match rest with
    | d :: rest' => if d =? quote then ([ch; d], Some quote, rest') else ([ch], None, rest)
    | [] => ([ch], None, rest)
    end
  else ([ch], Some quote, rest).

Definition opens_comment (s : jstr) : bool := startsWith (js "/*") s.
Definition opens_line_comment (s : jstr) : bool := startsWith (js "--") s || startsWith [hash] s.

(** The text through the [*/] that ends the comment opened at its front, and the rest;
    [None] where it is unterminated. *)
Definition comment_span (s : jstr) : option (jstr * jstr) :=
  k ← indexOf (js "*/") (drop 2 s);
  Some (take (2 + k + 2) s, drop (2 + k + 2) s).

(** ** The walkers *)

Fixpoint strip_from (n : nat) (quote : option Z) (s : jstr) : jstr :=
  match n, s with
  | O, _ | _, [] => []
  | S n', ch :: rest =>
      match quote with
      | Some q =>
          let '(out, quote', rest') := quote_step q ch rest in out ++ strip_from n' quote' rest'
      | None =>
          if is_quote ch then ch :: strip_from n' (Some ch) rest
          else if opens_comment s then
            match comment_span s with
            | None => s
            | Some (text, rest') => text ++ strip_from n' None rest'
            end
          else if opens_line_comment s then
            match from_char LF s with
            | [] => []
            | _ :: rest' => LF :: strip_from n' None rest'
            end
          else ch :: strip_from n' None rest
      end
  end.

Definition stripSqlLineComments (sql : jstr) : jstr := strip_from (length sql) None sql.

Fixpoint split_from (n : nat) (quote : option Z) (s current : jstr) : list jstr :=
  match n, s with
  | O, _ | _, [] => [current]
  | S n', ch :: rest =>
      match quote with
      | Some q =>
          let '(out, quote', rest') := quote_step q ch rest in
          split_from n' quote' rest' (current ++ out)
      | None =>
          if is_quote ch then split_from n' (Some ch) rest (current ++ [ch])
          else if opens_comment s then
            match comment_span s with
            | None => [current ++ s]
            | Some (text, rest') => split_from n' None rest' (current ++ text)
            end
          else if ch =? semicolon then current :: split_from n' None rest []
          else split_from n' None rest (current ++ [ch])
      end
  end.

Definition splitSqlStatements (sql : jstr) : list jstr :=
  let stripped := stripSqlLineComments sql in
  nonblank (map trim (split_from (length stripped) None stripped [])).

(** [/^(?:!|M!)/i] of the two characters after the opening. *)
Definition is_executable_comment (s : jstr) : bool :=
  let t := take 2 (drop 2 s) in
  startsWith (js "!") t || startsWith (js "M!") t || startsWith (js "m!") t.

Fixpoint block_from (n : nat) (quote : option Z) (s : jstr) : jstr :=
  match n, s with
  | O, _ | _, [] => []
  | S n', ch :: rest =>
      match quote with
      | Some q =>
          let '(out, quote', rest') := quote_step q ch rest in out ++ block_from n' quote' rest'
      | None =>
          if is_quote ch then ch :: block_from n' (Some ch) rest
          else if opens_comment s && negb (is_executable_comment s) then
            match comment_span s with
            | None => s
            | Some (_, rest') => 32 :: block_from n' None rest'
            end
          else ch :: block_from n' None rest
      end
  end.

Definition stripBlockComments (text : jstr) : jstr := block_from (length text) None text.

Fixpoint hash_from (n : nat) (quote : option Z) (s : jstr) : bool :=
  match n, s with
  | O, _ | _, [] => false
  | S n', ch :: rest =>
      match quote with
      | Some q => let '(_, quote', rest') := quote_step q ch rest in hash_from n' quote' rest'
      | None =>
          if is_quote ch then hash_from n' (Some ch) rest
          else if ch =? hash then true
          else hash_from n' None rest
      end
  end.

Definition hasUnquotedHash (s : jstr) : bool := hash_from (length s) None s.

Fixpoint top_level_from (n : nat) (quote : option Z) (depth : Z) (s cur : jstr) : list jstr :=
  match n, s with
  | O, _ | _, [] => if is_empty (trim cur) then [] else [cur]
  | S n', ch :: rest =>
      match quote with
      | Some q =>
          let '(out, quote', rest') := quote_step q ch rest in
          top_level_from n' quote' depth rest' (cur ++ out)
      | None =>
          if is_quote ch then top_level_from n' (Some ch) depth rest (cur ++ [ch])
          else
            let depth' := if ch =? 40 then depth + 1 else if ch =? 41 then depth - 1 else depth in
            if (ch =? 44) && (depth' =? 0) then cur :: top_level_from n' None depth' rest []
            else top_level_from n' None depth' rest (cur ++ [ch])
      end
  end.

Definition splitTopLevel (text : jstr) : list jstr := top_level_from (length text) None 0 text [].
