(* ===== verification/SqlTextFacts.v ===== *)
(** * SQL text as tokens

    The reference the walkers of [SqlText] are proved against: a lexer that cuts a text
    into quoted spans, block comments, line comments and single characters, losing
    nothing. *)
From S2P Require Import Prelude SqlText.
#[local] Open Scope Z_scope.

(** ** The lexer *)

Inductive token :=
  | TChar (c : Z)
  | TQuote (quote : Z) (body : jstr)     (* [body] holds the closing quote, if it came *)
  | TComment (text : jstr)
  | TLine (text : jstr).                 (* up to the end of its line, exclusive *)

Definition token_text (t : token) : jstr :=
  match t with
  | TChar c => [c]
  | TQuote q body => q :: body
  | TComment text | TLine text => text
  end.

Definition text_of (ts : list token) : jstr := concat (map token_text ts).

(** What a quote opened before [s] spans, and the rest. *)
Fixpoint quoted_span (q : Z) (s : jstr) : jstr * jstr :=
  match s with
  | [] => ([], [])
  | c :: s' =>
      match s' with
      | [] => ([c], [])
      | d :: s'' =>
          if (c =? backslash) && negb (q =? backtick) || (c =? q) && (d =? q)
          then let '(a, r) := quoted_span q s'' in (c :: d :: a, r)
          else if c =? q then ([c], s')
          else let '(a, r) := quoted_span q s' in (c :: a, r)
      end
  end.

Definition next_token (s : jstr) : option (token * jstr) :=
  match s with
  | [] => None
  | c :: s' =>
      if is_quote c then let '(a, r) := quoted_span c s' in Some (TQuote c a, r)
      else if opens_comment s then
        let '(a, r) := default (s, []) (comment_span s) in Some (TComment a, r)
      else if opens_line_comment s then Some (TLine (before LF s), from_char LF s)
      else Some (TChar c, s')
  end.

Fixpoint lex_from (n : nat) (s : jstr) : list token :=
  match n with
  | O => []
  | S n' => match next_token s with
            | None => []
            | Some (t, r) => t :: lex_from n' r
            end
  end.

Definition lex (s : jstr) : list token := lex_from (length s) s.

(** [t] is what the lexer reads where [r] follows. *)
Definition fits (t : token) (r : jstr) : Prop := next_token (token_text t ++ r) = Some (t, r).

(** The tokens are what the lexer reads of their text. *)
Fixpoint lexed (ts : list token) : Prop :=
  match ts with
  | [] => True
  | t :: ts' => fits t (text_of ts') /\ lexed ts'
  end.

(** ** Spans *)

Lemma list_ind2 {A} (P : list A -> Prop) :
  P [] -> (forall x, P [x]) -> (forall x y l, P l -> P (y :: l) -> P (x :: y :: l)) ->
  forall l, P l.
Proof.
  intros H0 H1 H2 l. enough (P l /\ forall x, P (x :: l)) by tauto.
  induction l as [|y l [IH IH']]; [by auto|]. split; [apply IH'|]. intros x. by apply H2.
Qed.

Lemma quoted_span_app q s : (quoted_span q s).1 ++ (quoted_span q s).2 = s.
Proof.
  induction s as [|c|c d s IH IH'] using list_ind2; [done..|].
  change (quoted_span q (c :: d :: s)) with
    (if (c =? backslash) && negb (q =? backtick) || (c =? q) && (d =? q)
     then let '(a, r) := quoted_span q s in (c :: d :: a, r)
     else if c =? q then ([c], d :: s)
     else let '(a, r) := quoted_span q (d :: s) in (c :: a, r)).
  destruct (_ || _).
  - destruct (quoted_span q s). simpl in *. by rewrite IH.
  - destruct (c =? q); [done|]. destruct (quoted_span q (d :: s)). simpl in *. by rewrite IH'.
Qed.

(** A closed span is read the same before anything that does not double its quote. *)
Lemma quoted_span_keep q s a r r' :
  quoted_span q s = (a, r) -> r <> [] -> head r' <> Some q -> quoted_span q (a ++ r') = (a, r').
Proof.
  revert a. induction s as [|c|c d s IH IH'] using list_ind2; intros a E Hr Hq;
    [by simplify_eq/=..|].
  revert E. cbn [quoted_span].
  change (match s with [] => ([d], []) | _ => _ end) with (quoted_span q (d :: s)).
  destruct ((c =? backslash) && negb (q =? backtick) || (c =? q) && (d =? q)) eqn:Ed.
  - destruct (quoted_span q s) as [a0 r0] eqn:Es. intros [= <- ->]. simpl. rewrite Ed.
    by rewrite (IH a0).
  - destruct (c =? q) eqn:Ec.
    + intros [= <- <-]. simpl. destruct r' as [|e r']; [done|]. rewrite Ec.
      assert (Hbs : (c =? backslash) && negb (q =? backtick) = false) by by b2p.
      rewrite Hbs. simpl. destruct (Z.eqb_spec e q) as [->|]; [done|]. done.
    + destruct (quoted_span q (d :: s)) as [a0 r0] eqn:Es. intros [= <- ->].
      specialize (IH' a0 eq_refl Hr Hq). destruct a0 as [|e a0].
      { exfalso. pose proof (quoted_span_app q (d :: s)) as H. rewrite Es in H. simpl in H. subst r.
        simpl in Es. repeat case_match; simplify_eq. }
      assert (e = d) as ->.
      { pose proof (quoted_span_app q (d :: s)) as H. rewrite Es in H. by simplify_eq/=. }
      rewrite <- !app_comm_cons in *. cbn [quoted_span]. rewrite Ec, Ed.
      change (match a0 ++ r' with [] => ([d], []) | _ => _ end) with (quoted_span q (d :: a0 ++ r')).
      by rewrite IH'.
Qed.

Lemma startsWith_two x y c s :
  startsWith [x; y] (c :: s) = (x =? c) && bool_decide (head s = Some y).
Proof.
  simpl. f_equal. destruct s as [|d s]; [done|]. simpl. rewrite andb_true_r.
  destruct (Z.eqb_spec y d) as [->|]; [by rewrite bool_decide_true|].
  rewrite bool_decide_false; [done|congruence].
Qed.

Lemma opens_comment_cons c s : opens_comment (c :: s) = (47 =? c) && bool_decide (head s = Some 42).
Proof. apply (startsWith_two 47 42). Qed.

Lemma opens_line_cons c s :
  opens_line_comment (c :: s) = (45 =? c) && bool_decide (head s = Some 45) || (hash =? c).
Proof.
  unfold opens_line_comment. change (js "--") with [45; 45]. rewrite startsWith_two.
  f_equal. simpl. apply andb_true_r.
Qed.

Lemma opens_comment_split s : opens_comment s = true -> exists s', s = 47 :: 42 :: s'.
Proof. intros [s' ->]%startsWith_spec. by exists s'. Qed.

Abbreviation close := (js "*/").
#[local] Arguments opens_comment : simpl never.
#[local] Arguments opens_line_comment : simpl never.

Lemma close_cons c s :
  indexOf close (c :: s)
  = if (42 =? c) && bool_decide (head s = Some 47) then Some 0%nat else S <$> indexOf close s.
Proof. change close with [42; 47]. cbn [indexOf]. by rewrite startsWith_two. Qed.
#[local] Arguments indexOf : simpl never.

Lemma close_keep s k r :
  indexOf close s = Some k -> indexOf close (take (k + 2) s ++ r) = Some k.
Proof.
  revert k. induction s as [|c s IH]; intros k; [done|]. rewrite close_cons.
  assert (Hh : forall n, s <> [] -> head (take (S n) s ++ r) = head s) by (by destruct s).
  destruct ((42 =? c) && bool_decide (head s = Some 47)) eqn:E.
  - intros [= <-]. simpl. rewrite close_cons, (Hh 0%nat), E; [done|]. intros ->. b2p. done.
  - destruct (indexOf close s) as [j|] eqn:Ej; [|done]. intros [= <-]. simpl.
    rewrite close_cons, (IH j) by done. rewrite (Nat.add_comm j 2). change (2 + j)%nat with (S (S j)).
    rewrite (Hh (S j)), E; [done|].
    by intros ->.
Qed.

Lemma close_prefix a b : indexOf close (a ++ b) = None -> indexOf close a = None.
Proof.
  induction a as [|c a IH]; simpl app; [done|]. rewrite !close_cons.
  destruct ((42 =? c) && bool_decide (head (a ++ b) = Some 47)) eqn:E; [done|].
  intros H. apply fmap_None in H. rewrite IH by done.
  replace ((42 =? c) && bool_decide (head a = Some 47)) with false; [done|].
  symmetry. apply not_true_iff_false. intros [Hc E']%andb_prop. rewrite Hc in E. simpl in E.
  b2p. by destruct a.
Qed.

Lemma comment_span_app s a r : comment_span s = Some (a, r) -> a ++ r = s.
Proof.
  unfold comment_span. destruct (indexOf _ _) as [k|]; [|done]. intros [= <- <-]. apply take_drop.
Qed.

Lemma comment_span_keep s a r r' :
  opens_comment s = true -> comment_span s = Some (a, r) ->
  opens_comment a = true /\ comment_span (a ++ r') = Some (a, r').
Proof.
  intros [s' ->]%opens_comment_split. unfold comment_span.
  change (drop 2 (47 :: 42 :: s')) with s'. destruct (indexOf close s') as [k|] eqn:E; [|done].
  intros [= <- <-]. change (take (2 + k + 2) (47 :: 42 :: s')) with (47 :: 42 :: take (k + 2) s').
  split; [done|]. change (drop 2 _) with (take (k + 2) s' ++ r').
  rewrite (close_keep s' k r' E).
  assert (Hl : (k + 2 <= length s')%nat).
  { clear -E. revert k E. induction s' as [|c s IH]; intros k; [done|]. rewrite close_cons.
    destruct ((42 =? c) && bool_decide (head s = Some 47)) eqn:Ec.
    - intros [= <-]. b2p. destruct s; [done|]. simpl. lia.
    - destruct (indexOf close s) as [j|] eqn:Ej; [|done]. intros [= <-]. specialize (IH j eq_refl).
      simpl. lia. }
  simpl. do 2 f_equal; [do 2 f_equal; rewrite take_app_le, take_take; [f_equal; lia|];
    rewrite length_take; lia|].
  rewrite drop_app_ge, length_take_le by (rewrite ?length_take; lia).
  by rewrite Nat.sub_diag.
Qed.

(** ** When a token is read *)

Lemma next_token_app s t r :
  next_token s = Some (t, r) -> s = token_text t ++ r /\ token_text t <> [].
Proof.
  destruct s as [|c s]; [done|]. unfold next_token. destruct (is_quote c).
  { pose proof (quoted_span_app c s) as Ha. destruct (quoted_span c s). intros [= <- <-].
    simpl in *. by rewrite Ha. }
  destruct (opens_comment (c :: s)) eqn:Eo.
  { destruct (comment_span (c :: s)) as [[a b]|] eqn:Ec; intros [= <- <-]; simpl.
    - destruct (comment_span_keep _ _ _ [] Eo Ec) as [Ho _].
      rewrite (comment_span_app _ _ _ Ec). split; [done|]. by intros ->.
    - by rewrite app_nil_r. }
  destruct (opens_line_comment (c :: s)) eqn:El; [|by intros [= <- <-]].
  intros H. apply (inj Some), pair_equal_spec in H as [<- <-].
  cbn [token_text]. rewrite before_from_char. split; [done|].
  rewrite opens_line_cons in El. simpl. destruct (Z.eqb_spec c LF) as [->|]; [|done].
  b2p. by destruct El; b2p.
Qed.

Lemma fits_char c r :
  fits (TChar c) r <->
  is_quote c = false /\ opens_comment (c :: r) = false /\ opens_line_comment (c :: r) = false.
Proof.
  unfold fits. simpl. destruct (is_quote c); [destruct (quoted_span c r); naive_solver|].
  destruct (opens_comment (c :: r)); [destruct (default _ _); naive_solver|].
  destruct (opens_line_comment (c :: r)); naive_solver.
Qed.

Lemma fits_quote q body r :
  fits (TQuote q body) r <-> is_quote q = true /\ quoted_span q (body ++ r) = (body, r).
Proof.
  unfold fits. simpl. destruct (is_quote q).
  { destruct (quoted_span q (body ++ r)). naive_solver. }
  destruct (opens_comment _); [destruct (default _ _); naive_solver|].
  destruct (opens_line_comment _); naive_solver.
Qed.

Lemma is_quote_slash : is_quote 47 = false.
Proof. done. Qed.

Lemma fits_comment x r :
  fits (TComment x) r <->
  opens_comment x = true /\ (comment_span (x ++ r) = Some (x, r) \/ comment_span x = None /\ r = []).
Proof.
  unfold fits. simpl. split.
  - intros H. pose proof (next_token_app _ _ _ H) as [_ Hx]. simpl in Hx.
    destruct x as [|c x]; [done|]. simpl in H. destruct (is_quote c).
    { destruct (quoted_span c (x ++ r)). naive_solver. }
    destruct (opens_comment (c :: x ++ r)) eqn:Eo; [|case_match; naive_solver].
    destruct (comment_span (c :: x ++ r)) as [[a b]|] eqn:Ec; simplify_eq/=.
    + split; [|by left]. exact (proj1 (comment_span_keep _ _ _ [] Eo Ec)).
    + rewrite app_nil_r in *. by auto.
  - intros [[x' ->]%opens_comment_split H]. cbn [app] in *. unfold next_token.
    change (is_quote 47) with false. change (opens_comment _) with true. cbv iota.
    destruct H as [H|[H ->]]; [by rewrite H|]. by rewrite app_nil_r, H.
Qed.

Lemma fits_line x r :
  fits (TLine x) r <->
  opens_line_comment x = true /\ LF ∉ x /\ (r = [] \/ head r = Some LF).
Proof.
  unfold fits. simpl. split.
  - intros H. pose proof (next_token_app _ _ _ H) as [_ Hx]. simpl in Hx.
    destruct x as [|c x]; [done|]. unfold next_token in H. cbn [app] in H. destruct (is_quote c).
    { destruct (quoted_span c (x ++ r)). naive_solver. }
    destruct (opens_comment _); [destruct (default _ _); naive_solver|].
    destruct (opens_line_comment (c :: x ++ r)) eqn:El; [|done].
    apply (inj Some), pair_equal_spec in H as [Hb Hf]. assert (Hn : LF ∉ (c :: x)).
    { injection Hb as Hb. change (before LF (c :: x ++ r) = c :: x) in Hb.
      rewrite <- Hb. apply before_no_char. }
    assert (Hr : r = [] \/ head r = Some LF).
    { rewrite <- Hf. clear. induction (c :: x ++ r) as [|d s IH]; simpl; [by left|].
      destruct (Z.eqb_spec d LF) as [->|]; [by right|exact IH]. }
    split_and!; try done. rewrite opens_line_cons in El |- *.
    destruct (hash =? c); [by rewrite orb_true_r|]. rewrite orb_false_r in *.
    apply andb_prop in El as [Ec El]. rewrite Ec. b2p. apply bool_decide_eq_true.
    destruct x; [|done]. simpl in El. destruct Hr as [->|Hr]; [done|]. by rewrite El in Hr.
  - intros (El & Hn & Hr). destruct x as [|c x]; [done|].
    unfold next_token. cbn [app].
    rewrite opens_line_cons in El.
    assert (Hq : is_quote c = false) by (b2p; destruct El; b2p; subst; done). rewrite Hq.
    assert (Ho : opens_comment (c :: x ++ r) = false).
    { rewrite opens_comment_cons. destruct (Z.eqb_spec 47 c) as [<-|]; [|done].
      b2p; destruct El; b2p; done. }
    rewrite Ho.
    assert (Hl : opens_line_comment (c :: x ++ r) = true).
    { rewrite opens_line_cons. destruct (hash =? c); [by rewrite orb_true_r|].
      rewrite orb_false_r in *. apply andb_prop in El as [-> El]. b2p. apply bool_decide_eq_true.
      by destruct x. }
    rewrite Hl. change (c :: x ++ r) with ((c :: x) ++ r).
    rewrite (from_char_app LF (c :: x) r) by done.
    destruct Hr as [->|Hr]; [by rewrite app_nil_r, before_id|].
    destruct r as [|d r]; [done|]. injection Hr as ->. by rewrite before_app_char.
Qed.

(** A token is read the same before less of what follows it. *)
Lemma quoted_span_next q s a r : quoted_span q s = (a, r) -> r <> [] -> head r <> Some q.
Proof.
  revert a. induction s as [|c|c d s IH IH'] using list_ind2; intros a E Hr;
    [by simplify_eq/=..|].
  revert E. cbn [quoted_span].
  change (match s with [] => ([d], []) | _ => _ end) with (quoted_span q (d :: s)).
  destruct ((c =? backslash) && negb (q =? backtick) || (c =? q) && (d =? q)) eqn:Ed.
  - destruct (quoted_span q s) as [a0 r0]. intros [= <- ->]. by apply (IH a0).
  - destruct (Z.eqb_spec c q) as [->|].
    + intros [= <- <-]. simpl. intros [= ->]. rewrite Z.eqb_refl, orb_true_r in Ed. done.
    + destruct (quoted_span q (d :: s)) as [a0 r0]. intros [= <- ->]. by apply (IH' a0).
Qed.

Lemma head_prefix {A} (a b : list A) x : head a = Some x -> head (a ++ b) = Some x.
Proof. by destruct a. Qed.

Lemma opens_comment_prefix c a b : opens_comment (c :: a ++ b) = false -> opens_comment (c :: a) = false.
Proof.
  rewrite !opens_comment_cons. destruct (47 =? c); [|done]. simpl. intros H. b2p.
  apply bool_decide_eq_false. intros E. by apply H, head_prefix.
Qed.

Lemma opens_line_prefix c a b :
  opens_line_comment (c :: a ++ b) = false -> opens_line_comment (c :: a) = false.
Proof.
  rewrite !opens_line_cons. intros [H ->]%orb_false_elim. rewrite orb_false_r.
  destruct (45 =? c); [|done]. simpl in *. b2p. apply bool_decide_eq_false. intros E.
  by apply H, head_prefix.
Qed.

Lemma fits_prefix t a b : fits t (a ++ b) -> fits t a.
Proof.
  destruct t as [c|q body|x|x].
  - rewrite !fits_char. intros (? & ? & ?). split_and!; [done|by eapply opens_comment_prefix|].
    by eapply opens_line_prefix.
  - rewrite !fits_quote. intros [Hq E]. split; [done|]. destruct (decide (a ++ b = [])) as [En|En].
    { apply app_nil in En as [-> ->]. exact E. }
    apply (quoted_span_keep _ _ _ _ _ E En). intros Ha.
    by eapply (quoted_span_next _ _ _ _ E En), head_prefix.
  - rewrite !fits_comment. intros [Ho [H|[H E]]]; (split; [done|]).
    + left. refine (proj2 (comment_span_keep _ _ _ a _ H)). by apply opens_comment_split in Ho as [? ->].
    + apply app_nil in E as [-> ->]. by right.
  - rewrite !fits_line. intros (Ho & Hn & Hr). split_and!; [done..|].
    destruct a as [|d a]; [by left|]. destruct Hr as [Hr|Hr]; [done|by right].
Qed.

(** What stands before a line comment is read the same before the end of the line. *)
Lemma fits_end_of_line t r r' :
  fits t r -> opens_line_comment r = true -> (r' = [] \/ head r' = Some LF) -> fits t r'.
Proof.
  intros Hf Hl Hr. assert (Hn : r <> []) by (by intros ->).
  assert (H42 : forall z, z <> LF -> bool_decide (head r' = Some z) = false).
  { intros z Hz. apply bool_decide_eq_false. destruct Hr as [->| ->]; simpl; congruence. }
  destruct t as [c|q body|x|x]; revert Hf.
  - rewrite !fits_char, !opens_comment_cons, !opens_line_cons, !H42 by done.
    intros (? & ? & [? ->]%orb_false_elim). by rewrite !andb_false_r.
  - rewrite !fits_quote. intros [Hq E]. split; [done|].
    apply (quoted_span_keep _ _ _ _ _ E Hn). destruct Hr as [->| ->]; [done|].
    intros [= <-]. done.
  - rewrite !fits_comment. intros [Ho [H|[_ E]]]; [|done]. split; [done|]. left.
    refine (proj2 (comment_span_keep _ _ _ r' _ H)). by apply opens_comment_split in Ho as [? ->].
  - rewrite !fits_line. intros (? & ? & [?|Hh]); [done|]. destruct r as [|d r]; [done|].
    rewrite opens_line_cons in Hl. injection Hh as ->. done.
Qed.

(** ** The lexer loses nothing, and reads back what it read *)

Lemma lexed_text_cons t ts : text_of (t :: ts) = token_text t ++ text_of ts.
Proof. done. Qed.

Lemma fits_nonempty t r : fits t r -> token_text t <> [].
Proof. intros H. by apply next_token_app in H as [_ H]. Qed.

Lemma lex_from_spec n s :
  (length s <= n)%nat -> text_of (lex_from n s) = s /\ lexed (lex_from n s).
Proof.
  revert s. induction n as [|n IH]; intros s Hn; [by destruct s; [|simpl in Hn; lia]|].
  cbn [lex_from]. destruct (next_token s) as [[t r]|] eqn:E.
  - pose proof (next_token_app _ _ _ E) as [-> Ht].
    assert (Hr : (length r <= n)%nat).
    { rewrite length_app in Hn. destruct (token_text t); [done|]. simpl in Hn. lia. }
    destruct (IH r Hr) as [Htx Hl]. rewrite lexed_text_cons, Htx. split; [done|].
    split; [|done]. unfold fits. by rewrite Htx.
  - destruct s; [done|]. simpl in E. repeat case_match; simplify_eq.
Qed.

Lemma lex_text s : text_of (lex s) = s.
Proof. by apply lex_from_spec. Qed.

Lemma lex_lexed s : lexed (lex s).
Proof. by apply lex_from_spec. Qed.

Lemma lex_of_text ts : lexed ts -> lex (text_of ts) = ts.
Proof.
  intros Hl. unfold lex. enough (H : forall n, (length (text_of ts) <= n)%nat -> lex_from n (text_of ts) = ts)
    by by apply H.
  intros n. revert ts Hl.
  induction n as [|n IH]; intros [|t ts] Hl Hn; [done| |done|].
  - destruct Hl as [Hf _]. pose proof (fits_nonempty _ _ Hf).
    rewrite lexed_text_cons, length_app in Hn. destruct (token_text t); [done|simpl in Hn; lia].
  - destruct Hl as [Hf Hl]. cbn [lex_from]. rewrite lexed_text_cons. unfold fits in Hf.
    rewrite Hf. f_equal. apply IH; [done|]. pose proof (fits_nonempty _ _ Hf).
    rewrite lexed_text_cons, length_app in Hn. destruct (token_text t); [done|simpl in Hn; lia].
Qed.

Lemma lexed_app ts us : lexed (ts ++ us) -> lexed ts /\ lexed us.
Proof.
  induction ts as [|t ts IH]; [done|]. intros [Hf Hl]. destruct (IH Hl) as [H1 H2].
  split; [|done]. split; [|done]. unfold text_of in Hf. rewrite map_app, concat_app in Hf.
  by eapply fits_prefix.
Qed.

(** ** The walkers on tokens *)

(** A walker with an accumulator that copies quoted text crosses a span in one go. *)
Lemma quoted_walk {R} (V : nat -> option Z -> jstr -> jstr -> R) :
  (forall n q acc, V n q [] acc = V n None [] acc) ->
  (forall n q ch rest acc, V (S n) (Some q) (ch :: rest) acc =
     let '(out, q', rest') := quote_step q ch rest in V n q' rest' (acc ++ out)) ->
  forall n q s a r acc, quoted_span q s = (a, r) -> (length s <= n)%nat ->
  exists n', (length r <= n')%nat /\ V n (Some q) s acc = V n' None r (acc ++ a).
Proof.
  intros Hnil Hstep. induction n as [|n IH]; intros q s a r acc E Hn.
  { destruct s; [|simpl in Hn; lia]. injection E as <- <-. exists 0%nat. by rewrite Hnil, app_nil_r. }
  destruct s as [|c s].
  { injection E as <- <-. exists (S n). split; [simpl; lia|]. by rewrite Hnil, app_nil_r. }
  rewrite Hstep. unfold quote_step, opensBackslashEscape. destruct s as [|d s].
  { injection E as <- <-. destruct (c =? q).
    - exists n. by split; [simpl; lia|].
    - exists n. split; [simpl; lia|]. by rewrite Hnil. }
  simpl in Hn. revert E. cbn [quoted_span take drop]. rewrite take_0, drop_0.
  change (match s with [] => ([d], []) | _ => _ end) with (quoted_span q (d :: s)).
  destruct ((c =? backslash) && negb (q =? backtick)); cbn [orb].
  { destruct (quoted_span q s) as [a0 r0] eqn:Es. intros [= <- <-].
    destruct (IH q s a0 r0 (acc ++ [c; d]) Es ltac:(lia)) as (n' & Hr & ->).
    exists n'. split; [done|]. by rewrite <- app_assoc. }
  destruct (c =? q); cbn [andb].
  - destruct (d =? q).
    + destruct (quoted_span q s) as [a0 r0] eqn:Es. intros [= <- <-].
      destruct (IH q s a0 r0 (acc ++ [c; d]) Es ltac:(lia)) as (n' & Hr & ->).
      exists n'. split; [done|]. by rewrite <- app_assoc.
    + intros [= <- <-]. exists n. split; [simpl; lia|done].
  - destruct (quoted_span q (d :: s)) as [a0 r0] eqn:Es. intros [= <- <-].
    destruct (IH q (d :: s) a0 r0 (acc ++ [c]) Es ltac:(simpl; lia)) as (n' & Hr & ->).
    exists n'. split; [done|]. by rewrite <- app_assoc.
Qed.

Definition is_line (t : token) : bool := match t with TLine _ => true | _ => false end.
Definition code_of (ts : list token) : list token := List.filter (fun t => negb (is_line t)) ts.

Lemma strip_quoted n q s a r :
  quoted_span q s = (a, r) -> (length s <= n)%nat ->
  exists n', (length r <= n')%nat /\ strip_from n (Some q) s = a ++ strip_from n' None r.
Proof.
  intros E Hn. destruct (quoted_walk (fun n q s acc => acc ++ strip_from n q s)
    ltac:(by intros [|?]) ltac:(intros; simpl; destruct (quote_step _ _ _) as [[? ?] ?];
      by rewrite app_assoc) n q s a r [] E Hn) as (n' & Hr & H).
  by exists n'.
Qed.

Lemma length_text_cons t ts n :
  fits t (text_of ts) -> (length (text_of (t :: ts)) <= S n)%nat -> (length (text_of ts) <= n)%nat.
Proof.
  intros Hf%fits_nonempty. rewrite lexed_text_cons, length_app. destruct (token_text t); [done|].
  simpl. lia.
Qed.

Lemma strip_tokens ts n :
  lexed ts -> (length (text_of ts) <= n)%nat -> strip_from n None (text_of ts) = text_of (code_of ts).
Proof.
  revert n. induction ts as [|t ts IH]; intros n Hl Hn; [by destruct n|].
  destruct Hl as [Hf Hl]. pose proof (fits_nonempty _ _ Hf) as Ht.
  destruct n as [|n]; [rewrite lexed_text_cons, length_app in Hn; destruct (token_text t);
    [done|simpl in Hn; lia]|].
  pose proof (length_text_cons _ _ _ Hf Hn) as Hn'.
  rewrite lexed_text_cons. destruct t as [c|q body|x|x].
  - apply fits_char in Hf as (Hq & Ho & Hli). cbn [token_text app strip_from].
    rewrite Hq, Ho, Hli. by rewrite IH.
  - apply fits_quote in Hf as [Hq E]. cbn [token_text app strip_from]. rewrite Hq.
    assert (Hb : (length (body ++ text_of ts) <= n)%nat)
      by (rewrite lexed_text_cons in Hn; simpl in Hn; lia).
    destruct (strip_quoted n q _ _ _ E Hb) as (n' & Hr & ->). rewrite IH by done.
    by cbn [code_of List.filter is_line negb].
  - apply fits_comment in Hf as [Ho Hc]. cbn [token_text].
    destruct (opens_comment_split _ Ho) as [x' ->]. cbn [app strip_from].
    change (is_quote 47) with false. change (opens_comment _) with true. cbv iota.
    destruct Hc as [Hc|[Hc Hr]].
    + cbn [app] in Hc. rewrite Hc, IH by done. done.
    + rewrite Hr, app_nil_r, Hc. change (code_of (TComment (47 :: 42 :: x') :: ts)) with
        (TComment (47 :: 42 :: x') :: code_of ts). rewrite lexed_text_cons.
      destruct ts as [|t ts]; [by rewrite app_nil_r|]. exfalso. destruct Hl as [Hf _].
      apply fits_nonempty in Hf. rewrite lexed_text_cons in Hr. by apply app_nil in Hr as [? _].
  - apply fits_line in Hf as (Ho & Hnl & Hr). change (code_of (TLine x :: ts)) with (code_of ts).
    destruct x as [|c x]; [done|]. cbn [token_text app strip_from].
    assert (Hq : is_quote c = false /\ 47 =? c = false).
    { rewrite opens_line_cons in Ho. b2p. destruct Ho as [Ho|Ho]; b2p; by subst. }
    destruct Hq as [Hq H47]. rewrite Hq, opens_comment_cons, H47. cbn [andb].
    assert (Hlo : opens_line_comment (c :: x ++ text_of ts) = true).
    { rewrite opens_line_cons in Ho |- *. destruct (hash =? c); [by rewrite orb_true_r|].
      rewrite orb_false_r in *. apply andb_prop in Ho as [-> Ho]. b2p. apply bool_decide_eq_true.
      by apply head_prefix. }
    rewrite Hlo. change (c :: x ++ text_of ts) with ((c :: x) ++ text_of ts).
    rewrite (from_char_app LF (c :: x)) by done.
    destruct (text_of ts) as [|d r] eqn:Et.
    + rewrite <- (IH 0%nat); [done|done|rewrite ?Et; simpl; lia].
    + destruct Hr as [Hr|[= ->]]; [done|]. cbn [from_char]. rewrite Z.eqb_refl.
      rewrite <- (IH (S n)); [|done|rewrite ?Et; simpl in *; lia]. cbn [strip_from].
      change (is_quote LF) with false. rewrite opens_comment_cons, opens_line_cons. done.
Qed.

Theorem strip_is_code s : stripSqlLineComments s = text_of (code_of (lex s)).
Proof.
  unfold stripSqlLineComments. rewrite <- (lex_text s) at 1 2. by apply strip_tokens; [apply lex_lexed|].
Qed.

(** ** Statements *)

Definition is_semicolon (t : token) : bool :=
  match t with TChar c => c =? semicolon | _ => false end.

(** The tokens between semicolons. *)
Fixpoint pieces (ts : list token) : list (list token) :=
  match ts with
  | [] => [[]]
  | t :: ts' =>
      if is_semicolon t then [] :: pieces ts'
      else match pieces ts' with
           | [] => [[t]]
           | p :: ps => (t :: p) :: ps
           end
  end.

Definition onto (cur : jstr) (l : list jstr) : list jstr :=
  match l with
  | [] => [cur]
  | p :: ps => (cur ++ p) :: ps
  end.

Lemma pieces_cons ts : exists p ps, pieces ts = p :: ps.
Proof.
  destruct ts as [|t ts]; simpl; [by eexists _, _|]. destruct (is_semicolon t); [by eexists _, _|].
  destruct (pieces ts); by eexists _, _.
Qed.

Lemma onto_onto a b l : l <> [] -> onto a (onto b l) = onto (a ++ b) l.
Proof. intros Hl. destruct l; [done|]. simpl. by rewrite app_assoc. Qed.

Lemma onto_pieces cur t ts :
  is_semicolon t = false ->
  onto cur (map text_of (pieces (t :: ts))) = onto (cur ++ token_text t) (map text_of (pieces ts)).
Proof.
  intros Ht. cbn [pieces]. rewrite Ht. destruct (pieces_cons ts) as (p & ps & ->). simpl.
  by rewrite lexed_text_cons, app_assoc.
Qed.

Lemma split_tokens ts n cur :
  lexed ts -> Forall (fun t => is_line t = false) ts -> (length (text_of ts) <= n)%nat ->
  split_from n None (text_of ts) cur = onto cur (map text_of (pieces ts)).
Proof.
  revert n cur. induction ts as [|t ts IH]; intros n cur Hl Hc Hn.
  { destruct n; simpl; by rewrite app_nil_r. }
  destruct Hl as [Hf Hl]. apply Forall_cons in Hc as [Ht Hc].
  destruct n as [|n].
  { apply fits_nonempty in Hf. rewrite lexed_text_cons, length_app in Hn.
    destruct (token_text t); [done|simpl in Hn; lia]. }
  pose proof (length_text_cons _ _ _ Hf Hn) as Hn'. rewrite lexed_text_cons.
  destruct t as [c|q body|x|x]; [| | |done].
  - apply fits_char in Hf as (Hq & Ho & _). cbn [token_text app split_from].
    rewrite Hq, Ho. destruct (c =? semicolon) eqn:Es.
    + cbn [pieces is_semicolon]. rewrite Es. rewrite IH by done.
      destruct (pieces_cons ts) as (p & ps & ->). simpl. by rewrite app_nil_r.
    + rewrite IH by done. by rewrite onto_pieces.
  - apply fits_quote in Hf as [Hq E]. cbn [token_text app split_from]. rewrite Hq.
    assert (Hb : (length (body ++ text_of ts) <= n)%nat)
      by (rewrite lexed_text_cons in Hn; simpl in Hn; lia).
    destruct (quoted_walk split_from ltac:(by intros [|?]) ltac:(done) n q _ _ _ (cur ++ [q]) E Hb)
      as (n' & Hr & ->). rewrite IH by done. rewrite onto_pieces by done.
    by rewrite <- app_assoc.
  - apply fits_comment in Hf as [Ho Hx]. rewrite onto_pieces by done. cbn [token_text].
    destruct (opens_comment_split _ Ho) as [x' ->]. cbn [app split_from].
    change (is_quote 47) with false. change (opens_comment _) with true. cbv iota.
    destruct Hx as [Hx|[Hx Hr]].
    + cbn [app] in Hx. by rewrite Hx, IH.
    + rewrite Hr, app_nil_r, Hx. destruct ts as [|t ts]; [simpl; by rewrite app_nil_r|].
      exfalso. destruct Hl as [Hf _]. apply fits_nonempty in Hf. rewrite lexed_text_cons in Hr.
      by apply app_nil in Hr as [? _].
Qed.

(** A token is read the same before another text with the same head. *)
Lemma fits_head t r r' : fits t r -> r <> [] -> head r' = head r -> fits t r'.
Proof.
  intros Hf Hn Hh. destruct t as [c|q body|x|x]; revert Hf.
  - by rewrite !fits_char, !opens_comment_cons, !opens_line_cons, Hh.
  - rewrite !fits_quote. intros [Hq E]. split; [done|]. apply (quoted_span_keep _ _ _ _ _ E Hn).
    rewrite Hh. by apply (quoted_span_next _ _ _ _ E Hn).
  - rewrite !fits_comment. intros [Ho [H|[_ E]]]; [|done]. split; [done|]. left.
    refine (proj2 (comment_span_keep _ _ _ r' _ H)). by apply opens_comment_split in Ho as [? ->].
  - rewrite !fits_line, Hh. naive_solver.
Qed.

(** A character that changes no reading of what stands before it. *)
Definition neutral (d : Z) : Prop := is_quote d = false /\ d <> 42 /\ d <> 45.

Lemma fits_before d t r r' :
  neutral d -> fits t r -> r <> [] -> is_line t = false -> fits t (d :: r').
Proof.
  intros (Hd & H42 & H45) Hf Hn Ht. destruct t as [c|q body|x|x]; [| | |done]; revert Hf.
  - rewrite !fits_char, !opens_comment_cons, !opens_line_cons. simpl.
    intros (? & ? & [? ->]%orb_false_elim). rewrite !bool_decide_false by congruence.
    by rewrite !andb_false_r.
  - rewrite !fits_quote. intros [Hq E]. split; [done|]. apply (quoted_span_keep _ _ _ _ _ E Hn).
    intros [= <-]. congruence.
  - rewrite !fits_comment. intros [Ho [H|[_ E]]]; [|done]. split; [done|]. left.
    refine (proj2 (comment_span_keep _ _ _ _ _ H)). by apply opens_comment_split in Ho as [? ->].
Qed.

Lemma neutral_semicolon : neutral semicolon.
Proof. done. Qed.

Lemma text_of_app ts us : text_of (ts ++ us) = text_of ts ++ text_of us.
Proof. unfold text_of. by rewrite map_app, concat_app. Qed.

Lemma text_of_one t : text_of [t] = token_text t.
Proof. apply app_nil_r. Qed.

Lemma lexed_code ts : lexed ts -> lexed (code_of ts).
Proof.
  induction ts as [|t ts IH]; [done|]. intros [Hf Hl]. specialize (IH Hl). cbn [code_of List.filter].
  fold (code_of ts). destruct (is_line t) eqn:Et; [done|]. split; [|done].
  destruct ts as [|u us]; [done|]. destruct Hl as [Hu Hus]. destruct (is_line u) eqn:Eu.
  - destruct u as [|? ?|?|x]; [done..|]. change (code_of (TLine x :: us)) with (code_of us).
    apply fits_line in Hu as (Ho & _ & Hr). apply (fits_end_of_line _ _ _ Hf).
    + rewrite lexed_text_cons. cbn [token_text]. destruct x as [|c x]; [done|].
      rewrite opens_line_cons in Ho. simpl. rewrite opens_line_cons.
      destruct (hash =? c); [by rewrite orb_true_r|]. rewrite orb_false_r in *.
      apply andb_prop in Ho as [-> Ho]. b2p. apply bool_decide_eq_true. by apply head_prefix.
    + destruct us as [|v vs]; [by left|]. right. destruct Hus as [Hv _].
      pose proof (fits_nonempty _ _ Hv) as Hne. rewrite lexed_text_cons in Hr.
      destruct Hr as [Hr|Hr]; [by apply app_nil in Hr as [? _]|].
      assert (Ev : v = TChar LF).
      { destruct v as [c|q b|y|y]; simpl in Hr.
        - by injection Hr as ->.
        - injection Hr as ->. by apply fits_quote in Hv as [? _].
        - apply fits_comment in Hv as [[y' ->]%opens_comment_split _]. done.
        - apply fits_line in Hv as (Hy & Hn & _). destruct y as [|d y]; [done|].
          injection Hr as ->. exfalso. apply Hn. by left. }
      by subst v.
  - apply (fits_head _ _ _ Hf).
    + rewrite lexed_text_cons. intros [E _]%app_nil. by apply fits_nonempty in Hu.
    + cbn [code_of List.filter]. rewrite Eu. cbn [negb]. fold (code_of us).
      rewrite !lexed_text_cons. pose proof (fits_nonempty _ _ Hu). by destruct (token_text u).
Qed.

(** ** Trimming a statement *)

Definition trim_end (s : jstr) : jstr := rev (drop_ws (rev s)).

Lemma drop_ws_suffix s : exists w, s = w ++ drop_ws s /\ Forall (fun c => is_ws c = true) w.
Proof.
  induction s as [|c s (w & E & Hw)]; simpl; [by exists []|]. destruct (is_ws c) eqn:Ec.
  - exists (c :: w). split; [by rewrite E at 1|by constructor].
  - by exists [].
Qed.

Lemma trim_end_prefix s : exists w, s = trim_end s ++ w /\ Forall (fun c => is_ws c = true) w.
Proof.
  destruct (drop_ws_suffix (rev s)) as (w & E & Hw). exists (rev w).
  split; [|by apply Forall_rev]. unfold trim_end. by rewrite <- rev_app_distr, <- E, rev_involutive.
Qed.

Lemma drop_ws_app a c b : is_ws c = false -> drop_ws (a ++ c :: b) = drop_ws a ++ c :: b.
Proof.
  intros Hc. induction a as [|d a IH]; simpl; [by rewrite Hc|]. by destruct (is_ws d).
Qed.

Lemma trim_end_app a c b : is_ws c = false -> trim_end (a ++ c :: b) = a ++ c :: trim_end b.
Proof.
  intros Hc. unfold trim_end. rewrite rev_app_distr. simpl. rewrite <- app_assoc. simpl.
  rewrite drop_ws_app by done. rewrite rev_app_distr. simpl. by rewrite rev_involutive, <- app_assoc.
Qed.

Lemma trim_end_ws a c : is_ws c = true -> trim_end (a ++ [c]) = trim_end a.
Proof. intros Hc. unfold trim_end. rewrite rev_app_distr. simpl. by rewrite Hc. Qed.

Lemma is_ws_quote c : is_quote c = true -> is_ws c = false.
Proof.
  unfold is_quote. intros [[->%Z.eqb_eq| ->%Z.eqb_eq]%orb_prop| ->%Z.eqb_eq]%orb_prop; done.
Qed.

(** Trimming cannot close a quote or a comment. *)
Lemma quoted_span_trim q a w :
  quoted_span q (a ++ w) = (a ++ w, []) -> quoted_span q a = (a, []).
Proof.
  induction a as [|c|c d a IH IH'] using list_ind2; [done..|]. cbn [app quoted_span].
  change (match a ++ w with [] => ([d], []) | _ => _ end) with (quoted_span q (d :: a ++ w)).
  change (match a with [] => ([d], []) | _ => _ end) with (quoted_span q (d :: a)).
  destruct ((c =? backslash) && negb (q =? backtick) || (c =? q) && (d =? q)).
  - destruct (quoted_span q (a ++ w)) as [x r]. intros [= -> ->]. by rewrite IH.
  - destruct (c =? q); [done|]. cbn [app] in IH'. destruct (quoted_span q (d :: a ++ w)) as [x r].
    intros [= -> ->]. by rewrite IH'.
Qed.

Lemma close_last s k : indexOf close s = Some k -> s !! S k = Some 47.
Proof.
  revert k. induction s as [|c s IH]; intros k; [done|]. rewrite close_cons.
  destruct ((42 =? c) && bool_decide (head s = Some 47)) eqn:E.
  - intros [= <-]. b2p. by destruct s.
  - destruct (indexOf close s) as [j|]; [|done]. intros [= <-]. simpl. by apply IH.
Qed.

Lemma comment_trim x w :
  fits (TComment (x ++ w)) [] -> Forall (fun c => is_ws c = true) w -> opens_comment x = true ->
  fits (TComment x) [].
Proof.
  rewrite !fits_comment, !app_nil_r. intros [_ H] Hw Hx. split; [done|].
  destruct (decide (w = [])) as [->|Hne].
  { rewrite app_nil_r in H. by destruct H as [H|[H _]]; [left|right]. }
  right. split; [|done]. destruct (opens_comment_split _ Hx) as [y ->].
  assert (Hn : indexOf close (y ++ w) = None).
  { destruct (indexOf close (y ++ w)) as [k|] eqn:E; [exfalso|done].
    assert (Hs : comment_span (47 :: 42 :: y ++ w)
      = Some (take (2 + k + 2) (47 :: 42 :: y ++ w), drop (2 + k + 2) (47 :: 42 :: y ++ w))).
    { unfold comment_span. change (drop 2 (47 :: 42 :: y ++ w)) with (y ++ w). by rewrite E. }
    cbn [app] in H. rewrite Hs in H. destruct H as [H|[H _]]; [|done].
    apply (inj Some), pair_equal_spec in H as [_ H]. pose proof (close_last _ _ E) as Hl.
    change (drop (2 + k + 2) (47 :: 42 :: y ++ w)) with (drop (k + 2) (y ++ w)) in H.
    apply (f_equal length) in H. rewrite length_drop in H. simpl in H.
    pose proof (lookup_lt_Some _ _ _ Hl) as Hlt.
    destruct (exists_last Hne) as (w0 & e & ->). rewrite app_assoc in Hl, H, Hlt.
    rewrite length_app in H, Hlt. simpl in H, Hlt.
    rewrite lookup_app_r in Hl by lia. replace (S k - _)%nat with 0%nat in Hl by lia.
    injection Hl as ->. apply Forall_app in Hw as [_ Hw].
    apply Forall_inv in Hw. done. }
  unfold comment_span. change (drop 2 (47 :: 42 :: y)) with y.
  by rewrite (close_prefix y w Hn).
Qed.

(** A statement's tokens: no line comment, no top-level semicolon. *)
Definition inside (t : token) : Prop := is_line t = false /\ is_semicolon t = false.

(** What is asked of each token says nothing of the text of a quote or a comment. *)
Section Trimming.
Context (P : token -> Prop) (P_line : forall t, P t -> is_line t = false).
Context (P_quote : forall q b b', P (TQuote q b) -> P (TQuote q b')).
Context (P_comment : forall x x', P (TComment x) -> P (TComment x')).

Lemma drop_ws_tokens ts :
  lexed ts -> Forall P ts ->
  exists pre us, ts = pre ++ us /\ drop_ws (text_of ts) = text_of us
    /\ drop_ws (text_of us) = text_of us.
Proof.
  intros Hl Hi. induction ts as [|t ts IH]; [by exists [], []|].
  destruct Hl as [Hf Hl]. apply Forall_cons in Hi as [Ht Hi].
  assert (Hstop : forall c s, token_text t = c :: s -> is_ws c = false ->
    exists pre us, t :: ts = pre ++ us /\ drop_ws (text_of (t :: ts)) = text_of us
      /\ drop_ws (text_of us) = text_of us).
  { intros c s E Hc. exists [], (t :: ts). rewrite lexed_text_cons, E. simpl. by rewrite Hc. }
  destruct t as [c|q body|x|x].
  - destruct (is_ws c) eqn:Ec; [|by eapply Hstop].
    destruct (IH Hl Hi) as (pre & us & -> & E & E'). exists (TChar c :: pre), us.
    rewrite lexed_text_cons. simpl. by rewrite Ec.
  - apply fits_quote in Hf as [Hq _]. by eapply Hstop; [|apply is_ws_quote].
  - apply fits_comment in Hf as [[y ->]%opens_comment_split _]. by eapply Hstop.
  - by apply P_line in Ht.
Qed.

Lemma quoted_span_last q s a r : quoted_span q s = (a, r) -> r <> [] -> exists b, a = b ++ [q].
Proof.
  revert a. induction s as [|c|c d s IH IH'] using list_ind2; intros a E Hr;
    [by simplify_eq/=..|].
  revert E. cbn [quoted_span].
  change (match s with [] => ([d], []) | _ => _ end) with (quoted_span q (d :: s)).
  destruct (_ || _).
  - destruct (quoted_span q s) as [a0 r0]. intros [= <- ->]. destruct (IH a0 eq_refl Hr) as [b ->].
    by exists (c :: d :: b).
  - destruct (Z.eqb_spec c q) as [->|].
    + intros [= <- <-]. by exists [].
    + destruct (quoted_span q (d :: s)) as [a0 r0]. intros [= <- ->].
      destruct (IH' a0 eq_refl Hr) as [b ->]. by exists (c :: b).
Qed.

(** A span with something after it ends in its closing character. *)
Lemma closed_last t r :
  fits t r -> r <> [] -> match t with TQuote _ _ | TComment _ => True | _ => False end ->
  exists b c, token_text t = b ++ [c] /\ is_ws c = false.
Proof.
  intros Hf Hr Ht. destruct t as [|q body|x|]; [done| | |done].
  - apply fits_quote in Hf as [Hq E]. destruct (quoted_span_last _ _ _ _ E Hr) as [b ->].
    exists (q :: b), q. split; [done|]. by apply is_ws_quote.
  - apply fits_comment in Hf as [Ho [H|[_ ->]]]; [|done].
    destruct (opens_comment_split _ Ho) as [y ->]. unfold comment_span in H. cbn [app] in H.
    change (drop 2 (47 :: 42 :: y ++ r)) with (y ++ r) in H.
    destruct (indexOf close (y ++ r)) as [k|] eqn:E; [|done].
    apply (inj Some), pair_equal_spec in H as [H _].
    change (take (2 + k + 2) (47 :: 42 :: y ++ r)) with (47 :: 42 :: take (k + 2) (y ++ r)) in H.
    injection H as H. pose proof (close_last _ _ E) as Hl.
    clear Ho E. generalize dependent (y ++ r). intros l H Hl. subst y.
    exists (47 :: 42 :: take (S k) l), 47. split; [|done]. cbn [token_text].
    replace (k + 2)%nat with (S (S k)) by lia. by rewrite (take_S_r _ _ 47).
Qed.

Lemma lexed_semicolon ts us :
  lexed (ts ++ us) -> text_of us <> [] -> Forall P ts -> lexed (ts ++ [TChar semicolon]).
Proof.
  intros Hl Hu. induction ts as [|t ts IH]; intros Hi; [by split|].
  apply Forall_cons in Hi as [Ht%P_line Hi]. destruct Hl as [Hf Hl]. split; [|by apply IH].
  rewrite text_of_app in *. destruct ts as [|t' ts].
  - exact (fits_before _ _ _ _ neutral_semicolon Hf Hu Ht).
  - apply (fits_head _ _ _ Hf).
    + rewrite lexed_text_cons. destruct Hl as [Hf' _]. apply fits_nonempty in Hf'.
      by destruct (token_text t').
    + destruct Hl as [Hf' _]. apply fits_nonempty in Hf'. rewrite lexed_text_cons.
      by destruct (token_text t').
Qed.

Lemma lexed_shorten ts t t' w :
  lexed (ts ++ [t]) -> token_text t = token_text t' ++ w -> fits t' [] -> lexed (ts ++ [t']).
Proof.
  intros Hl Ht Hf. induction ts as [|x ts IH]; [by split|]. destruct Hl as [Hx Hl].
  split; [|by apply IH]. rewrite text_of_app, text_of_one in *. rewrite Ht, app_assoc in Hx.
  by eapply fits_prefix.
Qed.

(** Trimming the end drops blank tokens, and the blanks of an open quote or comment. *)
Lemma trim_end_tokens ts :
  lexed ts -> Forall P ts ->
  exists us, trim_end (text_of ts) = text_of us /\ lexed us /\ Forall P us
    /\ (lexed (ts ++ [TChar semicolon]) -> lexed (us ++ [TChar semicolon])).
Proof.
  induction ts as [|t ts IH] using rev_ind; intros Hl Hi; [by exists []|].
  pose proof (proj1 (Forall_app _ _ _) Hi) as [Hi0 Ht%Forall_inv].
  pose proof (lexed_app _ _ Hl) as [Hl0 [Hf _]].
  assert (Hends : text_of (ts ++ [t]) = text_of ts ++ token_text t).
  { by rewrite text_of_app, text_of_one. }
  destruct (exists_last (fits_nonempty _ _ Hf)) as (s & c & Es).
  destruct (is_ws c) eqn:Ec.
  2: { exists (ts ++ [t]). split_and!; try done. by rewrite Hends, Es, app_assoc, trim_end_app. }
  assert (Hopen : forall t', (exists w, token_text t = token_text t' ++ w) -> fits t' [] ->
    P t' -> trim_end (text_of (ts ++ [t])) = text_of ts ++ token_text t' ->
    match t with TQuote _ _ | TComment _ => True | _ => False end ->
    exists us, trim_end (text_of (ts ++ [t])) = text_of us /\ lexed us /\ Forall P us
      /\ (lexed ((ts ++ [t]) ++ [TChar semicolon]) -> lexed (us ++ [TChar semicolon]))).
  { intros t' [w Hw] Hf' Hi' Htr Hk. exists (ts ++ [t']). split_and!.
    - by rewrite Htr, text_of_app, text_of_one.
    - by eapply lexed_shorten.
    - by rewrite Forall_app, Forall_singleton.
    - intros Hs. rewrite <- app_assoc in Hs. apply lexed_app in Hs as [_ [Hs _]]. exfalso.
      destruct (closed_last _ _ Hs ltac:(done) Hk) as (b & e & E & He).
      rewrite Es in E. apply app_inj_tail in E as [_ ->]. congruence. }
  destruct t as [e|q body|x|x].
  - destruct (IH Hl0 Hi0) as (us & E & Hlu & Hiu & Hsu). exists us. split_and!; try done.
    + rewrite Hends. destruct s as [|? [|? ?]]; [|done..]. injection Es as ->.
      simpl. by rewrite trim_end_ws.
    + intros Hs. apply Hsu. rewrite <- app_assoc in Hs. by eapply lexed_semicolon.
  - pose proof Hf as [Hq E]%fits_quote. rewrite app_nil_r in E.
    destruct (trim_end_prefix body) as (w & Hw & _). rewrite Hw in E.
    apply (Hopen (TQuote q (trim_end body))); [| |by eapply P_quote| |done].
    + exists w. simpl. by rewrite Hw at 1.
    + apply fits_quote. rewrite app_nil_r. split; [done|]. by eapply quoted_span_trim.
    + rewrite Hends. cbn [token_text]. by rewrite trim_end_app by (by apply is_ws_quote).
  - pose proof Hf as [Ho _]%fits_comment. destruct (opens_comment_split _ Ho) as [y ->].
    destruct (trim_end_prefix y) as (w & Hw & Hws).
    apply (Hopen (TComment (47 :: 42 :: trim_end y))); [| |by eapply P_comment| |done].
    + exists w. simpl. by rewrite Hw at 1.
    + apply (comment_trim _ w); [|done|done]. simpl. by rewrite <- Hw.
    + rewrite Hends. cbn [token_text]. change (47 :: 42 :: y) with ([47] ++ 42 :: y).
      rewrite app_assoc, trim_end_app by done. by rewrite <- app_assoc.
  - by apply P_line in Ht.
Qed.

Lemma trim_tokens ts :
  lexed ts -> Forall P ts ->
  exists us, trim (text_of ts) = text_of us /\ lexed us /\ Forall P us
    /\ (lexed (ts ++ [TChar semicolon]) -> lexed (us ++ [TChar semicolon])).
Proof.
  intros Hl Hi. destruct (drop_ws_tokens ts Hl Hi) as (pre & us & -> & E & _).
  apply Forall_app in Hi as [_ Hi]. apply lexed_app in Hl as [_ Hl].
  destruct (trim_end_tokens us Hl Hi) as (vs & Ev & Hlv & Hiv & Hsv). exists vs. split_and!; try done.
  - unfold trim. by rewrite E.
  - rewrite <- app_assoc. intros [_ Hs]%lexed_app. by apply Hsv.
Qed.

End Trimming.

(** ** The split as a whole *)

Lemma drop_ws_idem s : drop_ws (drop_ws s) = drop_ws s.
Proof. induction s as [|c s IH]; simpl; [done|]. destruct (is_ws c) eqn:E; [done|]. simpl. by rewrite E. Qed.

Lemma trim_end_idem s : trim_end (trim_end s) = trim_end s.
Proof. unfold trim_end. by rewrite rev_involutive, drop_ws_idem. Qed.

Lemma trim_idem s : trim (trim s) = trim s.
Proof.
  change (trim_end (drop_ws (trim_end (drop_ws s))) = trim_end (drop_ws s)).
  assert (E : drop_ws (trim_end (drop_ws s)) = trim_end (drop_ws s)).
  { destruct (trim_end_prefix (drop_ws s)) as (w & Hw & _). pose proof (drop_ws_idem s) as Hi.
    destruct (trim_end (drop_ws s)) as [|c r]; [done|]. rewrite Hw in Hi. simpl in Hi |- *.
    destruct (is_ws c); [|done]. exfalso. apply (f_equal length) in Hi. simpl in Hi.
    assert (Hd : forall l, (length (drop_ws l) <= length l)%nat).
    { induction l as [|x l IH]; simpl; [done|]. destruct (is_ws x); simpl; lia. }
    specialize (Hd (r ++ w)). lia. }
  by rewrite E, trim_end_idem.
Qed.

(** Statements that stay apart when joined: all but the last close before a semicolon. *)
Fixpoint good (ps : list (list token)) : Prop :=
  match ps with
  | [] => True
  | [p] => lexed p
  | p :: ps' => lexed (p ++ [TChar semicolon]) /\ good ps'
  end.

Fixpoint joined (ps : list (list token)) : list token :=
  match ps with
  | [] => []
  | [p] => p
  | p :: ps' => p ++ TChar semicolon :: joined ps'
  end.

Lemma joined_cons p q ps : joined (p :: q :: ps) = p ++ TChar semicolon :: joined (q :: ps).
Proof. done. Qed.

Lemma text_of_joined ps : text_of (joined ps) = join_with semicolon (map text_of ps).
Proof.
  induction ps as [|p [|q ps] IH]; [done..|]. rewrite joined_cons, text_of_app, lexed_text_cons, IH.
  done.
Qed.

Lemma joined_pieces ts : joined (pieces ts) = ts.
Proof.
  induction ts as [|t ts IH]; [done|]. cbn [pieces]. destruct (pieces_cons ts) as (p & ps & E).
  rewrite E in IH |- *. destruct (is_semicolon t) eqn:Et.
  - destruct t as [c|? ?|?|?]; [|done..]. apply Z.eqb_eq in Et as ->. rewrite joined_cons, IH. done.
  - destruct ps as [|q ps]; [by rewrite <- IH|]. rewrite joined_cons in IH |- *. by rewrite <- IH.
Qed.

Lemma pieces_joined p ps :
  Forall (Forall inside) (p :: ps) -> pieces (joined (p :: ps)) = p :: ps.
Proof.
  revert p. induction ps as [|q ps IH]; intros p Hi; apply Forall_cons in Hi as [Hp Hi].
  - cbn [joined]. induction Hp as [|t p [_ Ht] _ IHp]; [done|]. cbn [pieces]. by rewrite Ht, IHp.
  - rewrite joined_cons. induction Hp as [|t p [_ Ht] _ IHp].
    + cbn [app pieces is_semicolon]. rewrite Z.eqb_refl. by rewrite IH.
    + cbn [app pieces]. by rewrite Ht, IHp.
Qed.

Lemma lexed_joined ps : good ps -> lexed (joined ps).
Proof.
  induction ps as [|p [|q ps] IH]; [done..|]. rewrite joined_cons. intros [Hp Hg].
  specialize (IH Hg). induction p as [|t p IHp].
  - split; [|done]. apply fits_char. rewrite opens_comment_cons, opens_line_cons. done.
  - destruct Hp as [Hf Hp]. split; [|by apply IHp]. rewrite text_of_app in Hf |- *.
    apply (fits_head _ _ _ Hf).
    + by intros [_ ?]%app_nil.
    + rewrite lexed_text_cons. by destruct (text_of p).
Qed.

Lemma pieces_good ts : lexed ts -> good (pieces ts).
Proof.
  induction ts as [|t ts IH]; [done|]. intros [Hf Hl]. specialize (IH Hl).
  cbn [pieces]. pose proof (joined_pieces ts) as Ej. destruct (pieces_cons ts) as (p & ps & E).
  rewrite E in *. destruct (is_semicolon t) eqn:Et.
  - split; [|done]. destruct t as [c|? ?|?|?]; [|done..]. apply Z.eqb_eq in Et as ->.
    split; [|done]. by apply (fits_prefix _ [] _ Hf).
  - rewrite <- Ej in Hf. destruct ps as [|q ps].
    + by split.
    + rewrite joined_cons in Hf. destruct IH as [Hp Hg]. split; [|done]. split; [|done].
      rewrite text_of_app, lexed_text_cons in Hf. rewrite text_of_app, text_of_one.
      change (token_text (TChar semicolon) ++ ?r) with (semicolon :: r) in Hf.
      apply (fits_prefix _ _ (text_of (joined (q :: ps)))). by rewrite <- app_assoc.
Qed.

Lemma pieces_inside ts : Forall (fun t => is_line t = false) ts -> Forall (Forall inside) (pieces ts).
Proof.
  induction 1 as [|t ts Ht _ IH]; simpl; [by repeat constructor|].
  destruct (is_semicolon t) eqn:Es; [by constructor|].
  destruct (pieces ts) as [|p ps]; [by repeat constructor|].
  apply Forall_cons in IH as [Hp IH]. by repeat constructor.
Qed.

Lemma code_no_line ts : Forall (fun t => is_line t = false) (code_of ts).
Proof.
  apply List.Forall_forall. intros t [_ Ht]%filter_In. by apply negb_true_iff.
Qed.

Lemma code_of_code ts : Forall (fun t => is_line t = false) ts -> code_of ts = ts.
Proof. induction 1 as [|t ts Ht _ IH]; [done|]. simpl. rewrite Ht. simpl. by f_equal. Qed.

(** A text already free of line comments splits at its top-level semicolons. *)
Lemma split_lexed ts :
  lexed ts -> Forall (fun t => is_line t = false) ts ->
  splitSqlStatements (text_of ts) = nonblank (map (fun p => trim (text_of p)) (pieces ts)).
Proof.
  intros Hl Hc. unfold splitSqlStatements. rewrite strip_is_code, lex_of_text, code_of_code by done.
  rewrite split_tokens by done. destruct (pieces_cons ts) as (p & ps & ->). simpl.
  by rewrite map_map.
Qed.

(** The trimmed statements of good pieces are good pieces. *)
Lemma nonblank_pieces ps :
  good ps -> Forall (Forall inside) ps ->
  exists qs, nonblank (map (fun p => trim (text_of p)) ps) = map text_of qs
    /\ good qs /\ Forall (Forall inside) qs
    /\ Forall (fun q => trim (text_of q) = text_of q /\ text_of q <> []) qs.
Proof.
  induction ps as [|p ps IH]; intros Hg Hi; [by exists []|]. apply Forall_cons in Hi as [Hp Hi].
  assert (Hg' : good ps /\ lexed p /\ (ps <> [] -> lexed (p ++ [TChar semicolon]))).
  { destruct ps as [|q ps]; [done|]. destruct Hg as [H1 H2]. split_and!; [done| |done].
    by apply lexed_app in H1 as [? _]. }
  destruct Hg' as (Hgs & Hl & Hs). destruct (IH Hgs Hi) as (qs & E & Hq & Hiq & Hn).
  destruct (trim_tokens inside ltac:(by intros ? [? _]) ltac:(done) ltac:(done) p Hl Hp) as (us & Eu & Hlu & Hiu & Hsu). cbn [map nonblank List.filter].
  destruct (is_empty (trim (text_of p))) eqn:Ee; cbn [negb].
  { exists qs. by split_and!. }
  exists (us :: qs). split_and!.
  - cbn [map]. by rewrite <- Eu, <- E.
  - destruct qs as [|q qs]; [done|]. split; [|done]. apply Hsu, Hs. by intros ->.
  - by constructor.
  - constructor; [|done]. rewrite <- Eu. split; [apply trim_idem|]. by intros E0; rewrite E0 in Ee.
Qed.

Lemma split_of_good qs :
  good qs -> Forall (Forall inside) qs ->
  Forall (fun q => trim (text_of q) = text_of q /\ text_of q <> []) qs ->
  splitSqlStatements (join_with semicolon (map text_of qs)) = map text_of qs.
Proof.
  intros Hg Hi Hn. destruct qs as [|p ps]; [done|]. rewrite <- text_of_joined.
  rewrite split_lexed; [|by apply lexed_joined|].
  - rewrite pieces_joined by done. clear Hg Hi. induction Hn as [|q l [Hq Hne] _ IH]; [done|].
    cbn [map nonblank List.filter]. rewrite Hq. destruct (text_of q) as [|c r] eqn:E; [done|].
    cbn [is_empty negb]. f_equal. exact IH.
  - clear Hg Hn. generalize dependent p. induction ps as [|q ps IH]; intros p Hi;
      apply Forall_cons in Hi as [Hp Hi].
    + eapply Forall_impl; [exact Hp|]. by intros t [? _].
    + rewrite joined_cons. apply Forall_app. split.
      * eapply Forall_impl; [exact Hp|]. by intros t [? _].
      * constructor; [done|]. by apply IH.
Qed.

Lemma split_pieces s :
  splitSqlStatements s = nonblank (map (fun p => trim (text_of p)) (pieces (code_of (lex s)))).
Proof.
  rewrite <- split_lexed; [|apply lexed_code, lex_lexed|apply code_no_line].
  unfold splitSqlStatements. rewrite !strip_is_code.
  rewrite lex_of_text by apply lexed_code, lex_lexed. by rewrite (code_of_code _ (code_no_line _)).
Qed.

(** C19: splitSqlStatements is exact: its answer is, in order, what stands between the
    semicolons outside every quoted span, block comment and line comment, with the line
    comments removed, trimmed and without the blank pieces; each statement is one statement
    when split again, and joined with semicolons the answer splits back to itself. *)
Theorem split_statements_exact s :
  splitSqlStatements s = nonblank (map (fun p => trim (text_of p)) (pieces (code_of (lex s))))
  /\ Forall (fun st => splitSqlStatements st = [st]) (splitSqlStatements s)
  /\ splitSqlStatements (join_with semicolon (splitSqlStatements s)) = splitSqlStatements s.
Proof.
  split; [apply split_pieces|]. rewrite split_pieces.
  destruct (nonblank_pieces (pieces (code_of (lex s)))) as (qs & -> & Hg & Hi & Hn).
  { apply pieces_good, lexed_code, lex_lexed. }
  { apply pieces_inside, code_no_line. }
  split; [|by apply split_of_good].
  assert (Hl : Forall lexed qs).
  { clear Hi Hn. induction qs as [|q [|r qs] IH]; [done|by constructor|]. destruct Hg as [H1 H2].
    constructor; [by apply lexed_app in H1 as [? _]|by apply IH]. }
  clear Hg. induction qs as [|q qs IH]; [constructor|].
  apply Forall_cons in Hi as [Hiq Hi]. apply Forall_cons in Hn as [Hnq Hn].
  apply Forall_cons in Hl as [Hlq Hl]. constructor; [|by apply IH].
  apply (split_of_good [q]); [done|by constructor|by constructor].
Qed.

(** ** Block comments *)

Definition is_comment (t : token) : bool := match t with TComment _ => true | _ => false end.

(** A comment that ends, and that the server does not run. *)
Definition plain_comment (t : token) : Prop :=
  match t with
  | TComment x => is_executable_comment x = false /\ comment_span x <> None
  | _ => True
  end.

(** [/\/\*(?:!|M!)/i] occurs nowhere, and no block comment is left open. *)
Definition plain_comments (st : jstr) : Prop := Forall plain_comment (lex st).

Definition blanked (t : token) : token := if is_comment t then TChar 32 else t.

Lemma executable_prefix x y :
  opens_comment x = true -> (4 <= length x)%nat ->
  is_executable_comment (x ++ y) = is_executable_comment x.
Proof.
  intros [z ->]%opens_comment_split Hn. unfold is_executable_comment. cbn [app].
  change (drop 2 (47 :: 42 :: z ++ y)) with (z ++ y). change (drop 2 (47 :: 42 :: z)) with z.
  rewrite take_app_le by (simpl in Hn; lia). done.
Qed.

Lemma block_quoted n q s a r :
  quoted_span q s = (a, r) -> (length s <= n)%nat ->
  exists n', (length r <= n')%nat /\ block_from n (Some q) s = a ++ block_from n' None r.
Proof.
  intros E Hn. destruct (quoted_walk (fun n q s acc => acc ++ block_from n q s)
    ltac:(by intros [|?]) ltac:(intros; simpl; destruct (quote_step _ _ _) as [[? ?] ?];
      by rewrite app_assoc) n q s a r [] E Hn) as (n' & Hr & H).
  by exists n'.
Qed.

Lemma comment_length x r : comment_span (x ++ r) = Some (x, r) -> opens_comment x = true -> (4 <= length x)%nat.
Proof.
  intros H [z ->]%opens_comment_split. unfold comment_span in H. cbn [app] in H.
  change (drop 2 (47 :: 42 :: z ++ r)) with (z ++ r) in H.
  destruct (indexOf close (z ++ r)) as [k|] eqn:E; [|done].
  apply (inj Some), pair_equal_spec in H as [H _].
  change (take (2 + k + 2) (47 :: 42 :: z ++ r)) with (47 :: 42 :: take (k + 2) (z ++ r)) in H.
  injection H as H. pose proof (lookup_lt_Some _ _ _ (close_last _ _ E)) as Hl.
  apply (f_equal length) in H. rewrite length_take in H. simpl. lia.
Qed.

Lemma block_tokens ts n :
  lexed ts -> Forall (fun t => is_line t = false) ts -> Forall plain_comment ts ->
  (length (text_of ts) <= n)%nat ->
  block_from n None (text_of ts) = text_of (map blanked ts).
Proof.
  revert n. induction ts as [|t ts IH]; intros n Hl Hc Hp Hn; [by destruct n|].
  destruct Hl as [Hf Hl]. apply Forall_cons in Hc as [Ht Hc]. apply Forall_cons in Hp as [Hpt Hp].
  destruct n as [|n].
  { apply fits_nonempty in Hf. rewrite lexed_text_cons, length_app in Hn.
    destruct (token_text t); [done|simpl in Hn; lia]. }
  pose proof (length_text_cons _ _ _ Hf Hn) as Hn'. rewrite lexed_text_cons. cbn [map].
  rewrite lexed_text_cons. destruct t as [c|q body|x|x]; [| | |done]; cbn [blanked is_comment].
  - apply fits_char in Hf as (Hq & Ho & _). cbn [token_text app block_from].
    rewrite Hq, Ho. cbn [andb]. by rewrite IH.
  - apply fits_quote in Hf as [Hq E]. cbn [token_text app block_from]. rewrite Hq.
    assert (Hb : (length (body ++ text_of ts) <= n)%nat)
      by (rewrite lexed_text_cons in Hn; simpl in Hn; lia).
    destruct (block_quoted n q _ _ _ E Hb) as (n' & Hr & ->). by rewrite IH.
  - destruct Hpt as [Hex Hclosed]. pose proof Hf as [Ho [Hx|[Hx _]]]%fits_comment; [|done].
    pose proof (executable_prefix x (text_of ts) Ho (comment_length _ _ Hx Ho)) as Hex'.
    rewrite Hex in Hex'. cbn [token_text]. destruct (opens_comment_split _ Ho) as [x' ->].
    cbn [app] in *. cbn [block_from]. change (is_quote 47) with false.
    change (opens_comment _) with true. rewrite Hex'. cbn [andb negb]. by rewrite Hx, IH.
Qed.

Lemma neutral_space : neutral 32.
Proof. done. Qed.

Lemma lexed_blanked ts :
  lexed ts -> Forall (fun t => is_line t = false) ts -> lexed (map blanked ts).
Proof.
  induction ts as [|t ts IH]; [done|]. intros [Hf Hl] Hc. apply Forall_cons in Hc as [Ht Hc].
  cbn [map]. split; [|by apply IH]. unfold blanked at 1. destruct (is_comment t) eqn:Ec.
  { apply fits_char. by rewrite opens_comment_cons, opens_line_cons. }
  destruct ts as [|u us]; [done|]. destruct Hl as [Hu _]. pose proof (fits_nonempty _ _ Hu) as Hne.
  rewrite lexed_text_cons in Hf. cbn [map]. rewrite lexed_text_cons.
  unfold blanked at 1. destruct (is_comment u).
  - apply (fits_before 32 _ _ _ neutral_space Hf); [|done]. by intros [? _]%app_nil.
  - apply (fits_head _ _ _ Hf); [by intros [? _]%app_nil|]. by destruct (token_text u).
Qed.

Lemma hash_tokens ts n :
  lexed ts -> Forall (fun t => is_line t = false) ts -> Forall (fun t => is_comment t = false) ts ->
  (length (text_of ts) <= n)%nat -> hash_from n None (text_of ts) = false.
Proof.
  revert n. induction ts as [|t ts IH]; intros n Hl Hc Hp Hn; [by destruct n|].
  destruct Hl as [Hf Hl]. apply Forall_cons in Hc as [Ht Hc]. apply Forall_cons in Hp as [Hpt Hp].
  destruct n as [|n]; [done|]. pose proof (length_text_cons _ _ _ Hf Hn) as Hn'.
  rewrite lexed_text_cons. destruct t as [c|q body|x|x]; [| |done..].
  - apply fits_char in Hf as (Hq & _ & Hh). rewrite opens_line_cons in Hh.
    apply orb_false_elim in Hh as [_ Hh]. rewrite Z.eqb_sym in Hh.
    cbn [token_text app hash_from]. rewrite Hq, Hh. by apply IH.
  - apply fits_quote in Hf as [Hq E]. cbn [token_text app hash_from]. rewrite Hq.
    assert (Hb : (length (body ++ text_of ts) <= n)%nat)
      by (rewrite lexed_text_cons in Hn; simpl in Hn; lia).
    destruct (quoted_walk (fun n q s (_ : jstr) => hash_from n q s) ltac:(by intros [|?])
      ltac:(done) n q _ _ _ [] E Hb) as (n' & Hr & ->).
    by apply IH.
Qed.

(** No comment trick hides a statement from the scan: of a statement of the split whose
    block comments all end and are none the server runs, stripBlockComments puts one space
    in the place of each comment and keeps everything else as it stands; what is left,
    trimmed, reads as no comment of any kind, so hasUnquotedHash never refuses it. *)
Theorem stripped_statement_has_no_comment sql st :
  st ∈ splitSqlStatements sql -> plain_comments st ->
  stripBlockComments st = text_of (map blanked (lex st))
  /\ Forall (fun t => is_line t = false /\ is_comment t = false) (lex (trim (stripBlockComments st)))
  /\ hasUnquotedHash (trim (stripBlockComments st)) = false.
Proof.
  rewrite split_pieces. intros Hst Hp.
  destruct (nonblank_pieces (pieces (code_of (lex sql)))) as (qs & E & Hg & Hi & _).
  { apply pieces_good, lexed_code, lex_lexed. }
  { apply pieces_inside, code_no_line. }
  rewrite E in Hst. apply list_elem_of_fmap in Hst as (q & -> & Hq).
  assert (Hl : lexed q).
  { clear -Hg Hq. induction qs as [|p [|r qs] IH]; [by apply elem_of_nil in Hq| |].
    - by apply list_elem_of_singleton in Hq as ->.
    - destruct Hg as [H1 H2]. apply elem_of_cons in Hq as [->|Hq]; [|by apply IH].
      by apply lexed_app in H1 as [? _]. }
  rewrite Forall_forall in Hi. specialize (Hi q Hq).
  assert (Hc : Forall (fun t => is_line t = false) q) by (eapply Forall_impl; [exact Hi|]; by intros t [? _]).
  unfold plain_comments in Hp. rewrite lex_of_text in Hp by done.
  assert (Eb : stripBlockComments (text_of q) = text_of (map blanked q)) by by apply block_tokens.
  rewrite lex_of_text by done. split; [exact Eb|]. rewrite Eb.
  set (P := fun t => is_line t = false /\ is_comment t = false).
  assert (HP : Forall P (map blanked q)).
  { apply Forall_map. eapply Forall_impl; [exact Hc|]. intros t Ht. unfold blanked.
    by destruct (is_comment t) eqn:Ec. }
  destruct (trim_tokens P ltac:(by intros ? [? _]) ltac:(done) ltac:(by intros ? ? [_ ?])
    (map blanked q) (lexed_blanked q Hl Hc) HP) as (us & Eu & Hlu & Hiu & _).
  rewrite Eu, lex_of_text by done. split; [exact Hiu|].
  apply hash_tokens; [done| | |done]; (eapply Forall_impl; [exact Hiu|]); by intros t [? ?].
Qed.

Definition commented_sql : jstr :=
  js "UPDATE t SET a = '# no comment' /* it's one */ WHERE b = 1; -- gone" ++ [LF] ++ js "DROP TABLE x".

Lemma stripped_statement_has_no_comment_witness :
  exists st, st ∈ splitSqlStatements commented_sql /\ plain_comments st
    /\ hasUnquotedHash (trim (stripBlockComments st)) = false
    /\ st <> trim (stripBlockComments st).
Proof.
  set (st := js "UPDATE t SET a = '# no comment' /* it's one */ WHERE b = 1").
  assert (Hin : st ∈ splitSqlStatements commented_sql).
  { replace (splitSqlStatements commented_sql) with [st; js "DROP TABLE x"] by (vm_compute; reflexivity).
    apply list_elem_of_here. }
  assert (Hp : plain_comments st).
  { unfold plain_comments. set (l := lex st). vm_compute in l. unfold l.
    repeat constructor; vm_compute; congruence. }
  exists st. split; [exact Hin|]. split; [exact Hp|].
  split; [exact (proj2 (proj2 (stripped_statement_has_no_comment commented_sql st Hin Hp)))|].
  vm_compute. congruence.
Defined.
