(* ===== verification/Regex.v ===== *)
(** * Regular expressions

    The part of the ECMAScript regular expressions the sources use: a parser of patterns,
    so that a definition shows the pattern the code has, and a backtracking matcher with
    captures.  [den] is the declarative meaning of a pattern, and the matcher is sound and
    complete for it.

    In a pattern the double quote is written [\x22].  Of the flags, [i] and [m] are kept and
    [g] is the way the pattern is used ([exec_all], [replace_all]). *)
From S2P Require Import Prelude.
#[local] Open Scope Z_scope.

(** ** Patterns *)

Inductive charset_item := Range (lo hi : Z) | Space | NotSpace | Word | NotWord | Digit | NotDigit.

Inductive node :=
  | Nothing
  | Empty
  | Chars (negated : bool) (items : list charset_item)
  | Cat (a b : node)
  | Alt (a b : node)
  | Star (greedy : bool) (a : node)
  | Group (n : nat) (a : node)
  | LineStart
  | LineEnd
  | Boundary (negated : bool)
  | Ahead (negated : bool) (a : node)
  | Behind (negated : bool) (a : node).

Record regex := Regex { icase : bool; multiline : bool; body : node }.

(** ** The parser *)

Definition escape_class (c : Z) : option charset_item :=
  if c =? 115 then Some Space else if c =? 83 then Some NotSpace
  else if c =? 119 then Some Word else if c =? 87 then Some NotWord
  else if c =? 100 then Some Digit else if c =? 68 then Some NotDigit else None.

Definition pattern_hex (c : Z) : Z := if is_digit c then c - 48 else if c <? 97 then c - 55 else c - 87.

(** The character an escape that is no class stands for, and what follows it. *)
Definition escape_char (c : Z) (s : jstr) : Z * jstr :=
  if c =? 110 then (10, s)
  else match c =? 120, s with
       | true, h :: l :: s' => (16 * pattern_hex h + pattern_hex l, s')
       | _, _ => (c, s)
       end.

(** After the opening bracket. *)
Fixpoint parse_class (n : nat) (s : jstr) : option (list charset_item * jstr) :=
  match n, s with
  | O, _ | _, [] => None
  | S n', 93 :: s' => Some ([], s')
  | S n', c :: s' =>
      let '(item, s1) :=
        if c =? 92 then
          match s' with
          | e :: s'' => match escape_class e with
                        | Some i => (inl i, s'')
                        | None => let '(x, r) := escape_char e s'' in (inr x, r)
                        end
          | [] => (inr c, [])
          end
        else (inr c, s') in
      match item, s1 with
      | inr lo, 45 :: hi :: s2 =>
          if hi =? 93 then
            '(items, r) ← parse_class n' s1; Some (Range lo lo :: items, r)
          else '(items, r) ← parse_class n' s2; Some (Range lo hi :: items, r)
      | inr x, _ => '(items, r) ← parse_class n' s1; Some (Range x x :: items, r)
      | inl i, _ => '(items, r) ← parse_class n' s1; Some (i :: items, r)
      end
  end.

Fixpoint repeat_node (n : nat) (a : node) : node :=
  match n with
  | O => Empty
  | S n' => Cat a (repeat_node n' a)
  end.

(** A quantifier after [a], if there is one. *)
Definition quantified (a : node) (s : jstr) : node * jstr :=
  let lazy s := match s with 63 :: s' => (false, s') | _ => (true, s) end in
  match s with
  | 42 :: s' => let '(gr, r) := lazy s' in (Star gr a, r)
  | 43 :: s' => let '(gr, r) := lazy s' in (Cat a (Star gr a), r)
  | 63 :: s' => let '(gr, r) := lazy s' in (if gr then Alt a Empty else Alt Empty a, r)
  | 123 :: d :: 125 :: s' => (repeat_node (Z.to_nat (d - 48)) a, s')
  | _ => (a, s)
  end.

(** [g] is the number of the next capturing group. *)
Fixpoint parse_alt (n : nat) (g : nat) (s : jstr) : option (node * nat * jstr) :=
  match n with
  | O => None
  | S n' =>
      '(a, g1, s1) ← parse_seq n' g s;
      match s1 with
      | 124 :: s2 => '(b, g2, s3) ← parse_alt n' g1 s2; Some (Alt a b, g2, s3)
      | _ => Some (a, g1, s1)
      end
  end
with parse_seq (n : nat) (g : nat) (s : jstr) : option (node * nat * jstr) :=
  match n with
  | O => None
  | S n' =>
      match s with
      | [] | 41 :: _ | 124 :: _ => Some (Empty, g, s)
      | _ =>
          '(a, g1, s1) ← parse_atom n' g s;
          let '(q, s2) := quantified a s1 in
          '(b, g2, s3) ← parse_seq n' g1 s2;
          Some (Cat q b, g2, s3)
      end
  end
with parse_atom (n : nat) (g : nat) (s : jstr) : option (node * nat * jstr) :=
  match n with
  | O => None
  | S n' =>
      let closing (wrap : node -> node) g s :=
        '(a, g1, s1) ← parse_alt n' g s;
        match s1 with
        | 41 :: s2 => Some (wrap a, g1, s2)
        | _ => None
        end in
      match s with
      | 40 :: 63 :: 58 :: s' => closing id g s'
      | 40 :: 63 :: 61 :: s' => closing (Ahead false) g s'
      | 40 :: 63 :: 33 :: s' => closing (Ahead true) g s'
      | 40 :: 63 :: 60 :: 61 :: s' => closing (Behind false) g s'
      | 40 :: 63 :: 60 :: 33 :: s' => closing (Behind true) g s'
      | 40 :: s' => closing (Group g) (S g) s'
      | 91 :: 94 :: s' => '(items, r) ← parse_class n' s'; Some (Chars true items, g, r)
      | 91 :: s' => '(items, r) ← parse_class n' s'; Some (Chars false items, g, r)
      | 94 :: s' => Some (LineStart, g, s')
      | 36 :: s' => Some (LineEnd, g, s')
      | 46 :: s' =>
          Some (Chars true [Range 10 10; Range 13 13; Range 8232 8232; Range 8233 8233], g, s')
      | 92 :: 98 :: s' => Some (Boundary false, g, s')
      | 92 :: 66 :: s' => Some (Boundary true, g, s')
      | 92 :: e :: s' =>
          match escape_class e with
          | Some i => Some (Chars false [i], g, s')
          | None => let '(x, r) := escape_char e s' in Some (Chars false [Range x x], g, r)
          end
      | c :: s' => Some (Chars false [Range c c], g, s')
      | [] => None
      end
  end.

(** A pattern that does not parse matches nothing. *)
Definition parse_pattern (source : jstr) : node :=
  match parse_alt (5 * length source + 5) 1 source with
  | Some (a, _, []) => a
  | _ => Nothing
  end.

Definition rx (source : String.string) : regex := Regex false false (parse_pattern (js source)).
Definition rx_i (source : String.string) : regex := Regex true false (parse_pattern (js source)).
Definition rx_im (source : String.string) : regex := Regex true true (parse_pattern (js source)).
Arguments rx _%_string_scope.
Arguments rx_i _%_string_scope.
Arguments rx_im _%_string_scope.

(** ** The matcher *)

(** The text before the position, last character first, and the text after it. *)
Abbreviation cursor := (jstr * jstr)%type.
Abbreviation captures := (list (nat * jstr)).

Definition is_word (c : Z) : bool :=
  is_digit c || ((65 <=? c) && (c <=? 90)) || ((97 <=? c) && (c <=? 122)) || (c =? 95).

Definition is_line_end (c : Z) : bool := (c =? 10) || (c =? 13) || (c =? 8232) || (c =? 8233).

Definition in_item (c : Z) (i : charset_item) : bool :=
  match i with
  | Range lo hi => (lo <=? c) && (c <=? hi)
  | Space => is_ws c
  | NotSpace => negb (is_ws c)
  | Word => is_word c
  | NotWord => negb (is_word c)
  | Digit => is_digit c
  | NotDigit => negb (is_digit c)
  end.

Definition other_case (c : Z) : Z :=
  if (97 <=? c) && (c <=? 122) then c - 32 else if (65 <=? c) && (c <=? 90) then c + 32 else c.

(** Ignoring case, for the letters of ASCII: a pattern has no others. *)
Definition in_chars (ic neg : bool) (items : list charset_item) (c : Z) : bool :=
  xorb neg (existsb (in_item c) items || (ic && existsb (in_item (other_case c)) items)).

Definition head_word (s : jstr) : bool := match s with c :: _ => is_word c | [] => false end.

Definition at_boundary (c : cursor) : bool := xorb (head_word c.1) (head_word c.2).

Definition at_line_start (ml : bool) (c : cursor) : bool :=
  match c.1 with [] => true | x :: _ => ml && is_line_end x end.

Definition at_line_end (ml : bool) (c : cursor) : bool :=
  match c.2 with [] => true | x :: _ => ml && is_line_end x end.

(** Every position up to the cursor, the nearest first. *)
Fixpoint positions_back (b s : jstr) : list cursor :=
  (b, s) :: match b with
            | [] => []
            | x :: b' => positions_back b' (x :: s)
            end.

Definition or_else {A} (x y : option A) : option A := match x with Some _ => x | None => y end.

Definition passed (c c' : cursor) : jstr := take (length c.2 - length c'.2) c.2.

Section Matcher.
Context (ic ml : bool).

Fixpoint run (r : node) (A : Type) (c : cursor) (g : captures)
    (k : cursor -> captures -> option A) : option A :=
  match r with
  | Nothing => None
  | Empty => k c g
  | Chars neg items =>
      match c.2 with
      | x :: s => if in_chars ic neg items x then k (x :: c.1, s) g else None
      | [] => None
      end
  | Cat a b => run a A c g (fun c' g' => run b A c' g' k)
  | Alt a b => or_else (run a A c g k) (run b A c g k)
  | Star greedy a =>
      (fix loop (n : nat) (c : cursor) (g : captures) : option A :=
         match n with
         | O => k c g
         | S n' =>
             let more := run a A c g (fun c' g' =>
               if (length c'.2 <? length c.2)%nat then loop n' c' g' else None) in
             if greedy then or_else more (k c g) else or_else (k c g) more
         end) (length c.2) c g
  | Group n a => run a A c g (fun c' g' => k c' ((n, passed c c') :: g'))
  | LineStart => if at_line_start ml c then k c g else None
  | LineEnd => if at_line_end ml c then k c g else None
  | Boundary neg => if xorb neg (at_boundary c) then k c g else None
  | Ahead neg a =>
      match run a captures c g (fun _ g' => Some g') with
      | Some g' => if neg then None else k c g'
      | None => if neg then k c g else None
      end
  | Behind neg a =>
      if xorb neg (existsb (fun c0 => bool_decide (is_Some (run a unit c0 g (fun c' _ =>
           if (length c'.2 =? length c.2)%nat then Some tt else None))))
         (positions_back c.1 c.2))
      then k c g else None
  end.
End Matcher.

Record found := Found { pre : jstr; matched : jstr; post : jstr; groups : captures }.

(** The first match at or after the cursor. *)
Fixpoint exec_at (re : regex) (b s : jstr) : option found :=
  match run (icase re) (multiline re) (body re) found (b, s) [] (fun c' g' =>
          Some (Found (rev b) (passed (b, s) c') c'.2 g')) with
  | Some f => Some f
  | None => match s with
            | [] => None
            | x :: s' => exec_at re (x :: b) s'
            end
  end.

Definition exec (re : regex) (s : jstr) : option found := exec_at re [] s.

Definition test (re : regex) (s : jstr) : bool := bool_decide (is_Some (exec re s)).

Fixpoint assoc_nat {A} (n : nat) (l : list (nat * A)) : option A :=
  match l with
  | [] => None
  | (m, v) :: l' => if (n =? m)%nat then Some v else assoc_nat n l'
  end.

(** [m[n]]; [None] is [undefined]. *)
Definition group (n : nat) (f : found) : option jstr := assoc_nat n (groups f).

(** The matches of a global pattern, each looked for from the end of the one before, or one
    further where that was empty.  One unit of fuel per character and one more is enough. *)
Fixpoint exec_all_at (n : nat) (re : regex) (b s : jstr) : list found :=
  match n with
  | O => []
  | S n' =>
      match exec_at re b s with
      | None => []
      | Some f =>
          f :: match matched f, post f with
               | _ :: _, _ => exec_all_at n' re (rev (pre f ++ matched f)) (post f)
               | [], x :: s' => exec_all_at n' re (x :: rev (pre f)) s'
               | [], [] => []
               end
      end
  end.

Definition exec_all (re : regex) (s : jstr) : list found := exec_all_at (S (length s)) re [] s.

(** [s.replace(re, f)], of the first match. *)
Definition replace_first (re : regex) (f : found -> jstr) (s : jstr) : jstr :=
  match exec re s with
  | None => s
  | Some m => pre m ++ f m ++ post m
  end.

(** [s.replace(re, f)] of a global pattern: the text between the matches is kept. *)
Fixpoint rebuild (from : nat) (s : jstr) (f : found -> jstr) (l : list found) : jstr :=
  match l with
  | [] => drop from s
  | m :: l' =>
      take (length (pre m) - from) (drop from s) ++ f m
      ++ rebuild (length (pre m) + length (matched m)) s f l'
  end.

Definition replace_all (re : regex) (f : found -> jstr) (s : jstr) : jstr :=
  rebuild 0 s f (exec_all re s).

Example pattern_runs :
  option_map (fun f => (group 1 f, group 2 f, post f))
    (exec (rx_i "^ALTER\s+((?:(?:ONLINE|IGNORE)\s+)*)TABLE\b(?!\s*=)\s*(\w+)?") (js "alter  ignore table t0 x"))
  = Some (Some (js "ignore "), Some (js "t0"), js " x").
Proof. vm_compute. reflexivity. Qed.

Example pattern_replaces :
  replace_all (rx "'(?:[^'\\]|\\.|'')*'|`[^`]*`") (fun m => take 1 (matched m) ++ take 1 (matched m))
    (js "a 'it''s \' x' b `c` d")
  = js "a '' b `` d".
Proof. vm_compute. reflexivity. Qed.

(** ** The meaning of a pattern *)

Section Meaning.
Context (ic ml : bool).

(** [den r c c']: [r] matches the text between [c] and [c']. *)
Fixpoint den (r : node) (c c' : cursor) : Prop :=
  match r with
  | Nothing => False
  | Empty => c' = c
  | Chars neg items =>
      exists x s, c.2 = x :: s /\ in_chars ic neg items x = true /\ c' = (x :: c.1, s)
  | Cat a b => exists c1, den a c c1 /\ den b c1 c'
  | Alt a b => den a c c' \/ den b c c'
  | Star _ a => rtc (fun x y => den a x y /\ (length y.2 < length x.2)%nat) c c'
  | Group _ a => den a c c'
  | LineStart => c' = c /\ at_line_start ml c = true
  | LineEnd => c' = c /\ at_line_end ml c = true
  | Boundary neg => c' = c /\ xorb neg (at_boundary c) = true
  | Ahead neg a => c' = c /\ (if neg then ~ (exists y, den a c y) else exists y, den a c y)
  | Behind neg a =>
      let before := exists x y, x ∈ positions_back c.1 c.2 /\ den a x y
                      /\ length y.2 = length c.2 in
      c' = c /\ (if neg then ~ before else before)
  end.

(** A match only moves forward over the text. *)
Lemma den_moves r c c' : den r c c' -> exists t, c.2 = t ++ c'.2 /\ c'.1 = rev t ++ c.1.
Proof.
  revert c c'. induction r; intros c c' H; simpl in H;
    try (destruct H as [-> _]; by exists []); try done.
  - destruct H as (x & s & E & _ & ->). exists [x]. by rewrite E.
  - destruct H as (c1 & H1 & H2). apply IHr1 in H1 as (t1 & E1 & E2).
    apply IHr2 in H2 as (t2 & E3 & E4). exists (t1 ++ t2).
    by rewrite E1, E3, E4, E2, rev_app_distr, !app_assoc.
  - destruct H as [H|H]; [by apply IHr1|by apply IHr2].
  - induction H as [c|c c1 c' [H _] _ IHs]; [by exists []|].
    apply IHr in H as (t1 & E1 & E2). destruct IHs as (t2 & E3 & E4). exists (t1 ++ t2).
    by rewrite E1, E3, E4, E2, rev_app_distr, !app_assoc.
  - by apply IHr.
Qed.

Definition sound_at (r : node) : Prop := forall A c g (k : cursor -> captures -> option A) v,
  run ic ml r A c g k = Some v -> exists c' g', den r c c' /\ k c' g' = Some v.

Definition complete_at (r : node) : Prop := forall A c g (k : cursor -> captures -> option A) c',
  den r c c' -> (forall g', k c' g' <> None) -> run ic ml r A c g k <> None.

Lemma or_else_some {A} (x y : option A) v : or_else x y = Some v -> x = Some v \/ y = Some v.
Proof. destruct x; simpl; auto. Qed.

Lemma or_else_none {A} (x y : option A) : or_else x y = None -> x = None /\ y = None.
Proof. by destruct x. Qed.

Lemma star_sound gr a : sound_at a -> sound_at (Star gr a).
Proof.
  intros Ha A c g k v. cbn [run den]. generalize (length c.2). intros n. revert c g.
  induction n as [|n IH]; intros c g H; [by exists c, g|].
  assert (Hm : run ic ml a A c g (fun c' g' => if (length c'.2 <? length c.2)%nat then
      (fix loop (n : nat) (c : cursor) (g : captures) : option A :=
         match n with
         | O => k c g
         | S n' =>
             let more := run ic ml a A c g (fun c' g' =>
               if (length c'.2 <? length c.2)%nat then loop n' c' g' else None) in
             if gr then or_else more (k c g) else or_else (k c g) more
         end) n c' g' else None) = Some v \/ k c g = Some v).
  { cbv zeta in H. destruct gr; apply or_else_some in H; tauto. }
  clear H. destruct Hm as [H|H]; [|by exists c, g].
  apply Ha in H as (c1 & g1 & Hd & H). destruct (length c1.2 <? length c.2)%nat eqn:El; [|done].
  apply Nat.ltb_lt in El. apply IH in H as (c2 & g2 & Hs & Hk). exists c2, g2.
  split; [|done]. by eapply rtc_l.
Qed.

Lemma star_complete gr a : complete_at a -> complete_at (Star gr a).
Proof.
  intros Ha A c g k c' Hd Hk. cbn [run den] in *.
  assert (Hn : (length c.2 <= length c.2)%nat) by done. revert Hn. generalize (length c.2) at 2 3.
  intros n. revert g n. induction Hd as [c|c c1 c' [Hd Hlt] _ IH]; intros g n Hn.
  { destruct n as [|n]; [apply Hk|]. cbv zeta. intros E.
    destruct gr; apply or_else_none in E as [? ?]; by eapply Hk. }
  destruct n as [|n]; [lia|]. cbv zeta. intros E.
  assert (Em : run ic ml a A c g (fun c' g' => if (length c'.2 <? length c.2)%nat then
      (fix loop (n : nat) (c : cursor) (g : captures) : option A :=
         match n with
         | O => k c g
         | S n' =>
             let more := run ic ml a A c g (fun c' g' =>
               if (length c'.2 <? length c.2)%nat then loop n' c' g' else None) in
             if gr then or_else more (k c g) else or_else (k c g) more
         end) n c' g' else None) = None).
  { destruct gr; by apply or_else_none in E as [? ?]. }
  revert Em. apply (Ha _ _ _ _ c1 Hd). intros g'.
  rewrite (proj2 (Nat.ltb_lt _ _) Hlt). apply IH; [done|]. lia.
Qed.

Definition seen_before (a : node) (c : cursor) (g : captures) : bool :=
  existsb (fun c0 => bool_decide (is_Some (run ic ml a unit c0 g (fun c' _ =>
    if (length c'.2 =? length c.2)%nat then Some tt else None)))) (positions_back c.1 c.2).

Lemma seen_before_spec a c g :
  sound_at a -> complete_at a ->
  seen_before a c g = true <->
  exists x y, x ∈ positions_back c.1 c.2 /\ den a x y /\ length y.2 = length c.2.
Proof.
  intros Sa Ca. unfold seen_before. rewrite existsb_exists. split.
  - intros (x & Hx%list_elem_of_In & [[] H]%bool_decide_eq_true).
    apply Sa in H as (y & g' & Hd & H). exists x, y. split_and!; [done..|].
    destruct (Nat.eqb_spec (length y.2) (length c.2)); done.
  - intros (x & y & Hx & Hd & Hl). exists x. split; [by apply list_elem_of_In|].
    apply bool_decide_eq_true. apply not_eq_None_Some. apply (Ca _ _ _ _ y Hd). intros g'.
    by rewrite Hl, Nat.eqb_refl.
Qed.

Lemma run_spec r : sound_at r /\ complete_at r.
Proof.
  induction r as [| |neg items|a [Sa Ca] b [Sb Cb]|a [Sa Ca] b [Sb Cb]|gr a [Sa Ca]|n a [Sa Ca]
                 | | |neg|neg a [Sa Ca]|neg a [Sa Ca]]; split.
  all: try (by apply star_sound); try (by apply star_complete).
  all: intros A c g k.
  - done.
  - done.
  - intros v H. by exists c, g.
  - intros c' -> Hk. apply Hk.
  - intros v H. cbn [run den] in *. destruct (c.2) as [|x s] eqn:E; [done|].
    destruct (in_chars ic neg items x) eqn:Ei; [|done]. exists (x :: c.1, s), g. split; [|done].
    by exists x, s.
  - intros c' (x & s & E & Ei & ->) Hk. cbn [run]. rewrite E, Ei. apply Hk.
  - intros v H. cbn [run] in H. apply Sa in H as (c1 & g1 & H1 & H).
    apply Sb in H as (c2 & g2 & H2 & H). exists c2, g2. split; [|done]. by exists c1.
  - intros c' (c1 & H1 & H2) Hk. cbn [run]. apply (Ca _ _ _ _ c1 H1). intros g'.
    by apply (Cb _ _ _ _ c' H2).
  - intros v H. cbn [run den] in *. apply or_else_some in H as [H|H].
    + apply Sa in H as (c1 & g1 & H1 & H). exists c1, g1. tauto.
    + apply Sb in H as (c1 & g1 & H1 & H). exists c1, g1. tauto.
  - intros c' [H|H] Hk E; cbn [run] in E; apply or_else_none in E as [E1 E2].
    + by eapply Ca.
    + by eapply Cb.
  - intros v H. cbn [run] in H. apply Sa in H as (c1 & g1 & H1 & H). by exists c1, ((n, passed c c1) :: g1).
  - intros c' H Hk. cbn [run]. apply (Ca _ _ _ _ c' H). intros g'. apply Hk.
  - intros v H. cbn [run den] in *. destruct (at_line_start ml c); [|done]. by exists c, g.
  - intros c' [-> H] Hk. cbn [run]. rewrite H. apply Hk.
  - intros v H. cbn [run den] in *. destruct (at_line_end ml c); [|done]. by exists c, g.
  - intros c' [-> H] Hk. cbn [run]. rewrite H. apply Hk.
  - intros v H. cbn [run den] in *. destruct (xorb neg (at_boundary c)); [|done]. by exists c, g.
  - intros c' [-> H] Hk. cbn [run]. rewrite H. apply Hk.
  - intros v H. cbn [run den] in *.
    destruct (run ic ml a captures c g (fun _ g' => Some g')) as [g1|] eqn:E.
    + destruct neg; [done|]. apply Sa in E as (c1 & g2 & H1 & _). exists c, g1. split; [|done].
      split; [done|]. by exists c1.
    + destruct neg; [|done]. exists c, g. split; [|done]. split; [done|]. intros (y & Hy).
      by apply (Ca _ _ _ _ y Hy) in E.
  - intros c' [-> H] Hk. cbn [run].
    destruct (run ic ml a captures c g (fun _ g' => Some g')) as [g1|] eqn:E.
    + destruct neg; [|apply Hk]. exfalso. apply H. apply Sa in E as (c1 & ? & ? & _). by exists c1.
    + destruct neg; [apply Hk|]. destruct H as (y & Hy). by apply (Ca _ _ _ _ y Hy) in E.
  - intros v H. cbn [run den] in *. fold (seen_before a c g) in H.
    pose proof (seen_before_spec a c g Sa Ca) as Hs.
    destruct (xorb neg (seen_before a c g)) eqn:E; [|done]. exists c, g. split; [|done].
    split; [done|]. destruct neg, (seen_before a c g); try done; [|by apply Hs].
    intros Hb. by apply Hs in Hb.
  - intros c' [-> H] Hk. cbn [run]. fold (seen_before a c g).
    pose proof (seen_before_spec a c g Sa Ca) as Hs.
    destruct neg, (seen_before a c g); simpl; try (apply Hk).
    + exfalso. by apply H, Hs.
    + apply Hs in H. done.
Qed.
End Meaning.

(** [test] says whether the pattern matches anywhere in the text. *)
Definition occurs (re : regex) (s : jstr) : Prop :=
  exists b a c', s = b ++ a /\ den (icase re) (multiline re) (body re) (rev b, a) c'.

Lemma exec_at_spec re b s :
  match exec_at re b s with
  | Some f => pre f ++ matched f ++ post f = rev b ++ s
              /\ den (icase re) (multiline re) (body re) (rev (pre f), matched f ++ post f)
                   (rev (matched f) ++ rev (pre f), post f)
  | None => forall t u c', s = t ++ u ->
              ~ den (icase re) (multiline re) (body re) (rev t ++ b, u) c'
  end.
Proof.
  revert b. induction s as [|x s IH]; intros b; cbn [exec_at];
    (match goal with |- context [run ?ic ?ml ?r found ?c [] ?k] =>
       pose proof (run_spec ic ml r) as [Hs Hc]; destruct (run ic ml r found c [] k) as [f|] eqn:E
     end; [clear Hc|clear Hs]).
  1, 3: apply Hs in E as ([c1 c2] & g' & Hd & [= <-]);
    destruct (den_moves _ _ _ _ _ Hd) as (t & E1 & E2); cbn [fst snd pre matched post] in *;
    assert (Ep : passed (b, t ++ c2) (c1, c2) = t)
      by (unfold passed; cbn [snd]; by rewrite length_app, Nat.add_sub, take_app_length);
    rewrite E1, Ep, rev_involutive, <- E2, <- E1; by split.
  - intros t u c' Et Hd. symmetry in Et. apply app_nil in Et as [-> ->]. simpl in Hd.
    by apply (Hc _ _ _ _ c' Hd) in E.
  - specialize (IH (x :: b)). destruct (exec_at re (x :: b) s) as [f|].
    + destruct IH as [E1 Hd]. split; [|done]. rewrite E1. simpl. by rewrite <- app_assoc.
    + intros [|y t] u c' Et Hd; simpl in Et.
      * subst u. by apply (Hc _ _ _ _ c' Hd) in E.
      * injection Et as -> ->. simpl in Hd. rewrite <- app_assoc in Hd. by eapply IH.
Qed.

Lemma test_spec re s : test re s = true <-> occurs re s.
Proof.
  unfold test, exec. rewrite bool_decide_eq_true. pose proof (exec_at_spec re [] s) as H.
  destruct (exec_at re [] s) as [f|].
  - destruct H as [E Hd]. split; [|by eexists]. intros _.
    exists (pre f), (matched f ++ post f). by eexists.
  - split; [by intros [? ?]|]. intros (b & a & c' & -> & Hd). exfalso.
    apply (H b a c'); [done|]. by rewrite app_nil_r.
Qed.
