(* ===== verification/SqlRules.v ===== *)
(** * The destructive-statement rules

    The scan that decides whether a migration file tagged auto may run unattended:
    destructiveAutoStatement, isIdRepairUpdate and migrationMode of
    src/src/db/migration_statements.js, the rules of
    src/src/db/migration_guards/destructive_statement_rules.js, createNamesNonInnoDb and
    dropTargetDestroys of src/src/db/query_helpers.js, and blankLiterals and alterSpecs of
    src/src/db/migration_live_schema_guard.js.

    Each pattern is the one of the source. *)
From S2P Require Import Prelude SqlText Regex.
#[local] Open Scope Z_scope.

Definition member (s : jstr) (l : list jstr) : bool := existsb (eqs s) l.

(** ** The mode tag *)

(** The blank and comment lines before the first statement. *)
Fixpoint prologue (lines : list jstr) : list jstr :=
  match lines with
  | [] => []
  | line :: rest =>
      let trimmed := trim line in
      if is_empty trimmed || startsWith (js "--") trimmed then line :: prologue rest else []
  end.

Definition MODE_TAG : regex :=
  rx_im "^\s*--\s*xchain:migration\b[^\n]*\bmode\s*=\s*(auto|manual)\b".

Definition migrationMode (raw : jstr) : jstr :=
  match exec MODE_TAG (join_with LF (prologue (split_on LF raw))) with
  | Some m => lower (default [] (group 1 m))
  | None => js "manual"
  end.

(** ** Literals and the head of an ALTER TABLE *)

Definition LITERALS : regex := rx "'(?:[^'\\]|\\.|'')*'|\x22(?:[^\x22\\]|\\.|\x22\x22)*\x22|`[^`]*`".

(** Each quoted literal becomes its opening quote, twice. *)
Definition blankLiterals (text : jstr) : jstr :=
  replace_all LITERALS (fun m => take 1 (matched m) ++ take 1 (matched m)) text.

Definition unquote (id : jstr) : jstr := replace_all (rx "^`|`$") (fun _ => []) id.

Definition ALTER_HEAD : regex :=
  rx_i "^ALTER\s+(?:ONLINE\s+)?(?:IGNORE\s+)?TABLE\s+(?:IF\s+EXISTS\s+)?((?:`[^`]+`|[\w$]+)(?:\s*\.\s*(?:`[^`]+`|[\w$]+))?)\s+(?:(?:WAIT\s+\d+(?:\.\d+)?|NOWAIT)\s+)?([\s\S]*)$".

Record alter_specs := AlterSpecs { as_table : jstr; specs : list jstr }.

(** [name.split('.').pop()] *)
Definition last_part (name : jstr) : jstr := List.last (split_on dot name) [].

Definition alterSpecs (stmt : jstr) : option alter_specs :=
  head ← exec ALTER_HEAD (trim (stripBlockComments stmt));
  Some (AlterSpecs (unquote (trim (last_part (default [] (group 1 head)))))
          (splitTopLevel (default [] (group 2 head)))).

(** ** The rules *)

(** An ENGINE option that names another engine than InnoDB. *)
Definition createNamesNonInnoDb (stmt : jstr) : bool :=
  existsb (fun m => negb (eqs (lower (default [] (group 1 m))) (js "innodb")))
    (exec_all (rx_i "\bENGINE\b\s*=?\s*[`'\x22]?(\w*)") stmt).

Definition dropTargetDestroys (stmt : jstr) (safeDrop : list jstr) : bool :=
  existsb (fun m =>
      match exec (rx "^\s+([A-Za-z_]+)(?=[\s,;()`]|$)") (post m) with
      | None => true
      | Some next => negb (member (upper (default [] (group 1 next))) safeDrop)
      end)
    (exec_all (rx_i "\bDROP\b") stmt).

Definition autoEligibleSet (stmt : jstr) : bool :=
  if test (rx_i "^SET\s+NAMES\s+['\x22]?\w+['\x22]?(?:\s+COLLATE\s+['\x22]?\w+['\x22]?)?$") stmt
  then true
  else test (rx_i "^SET\s+(?:SESSION\s+|LOCAL\s+|@@SESSION\.|@@LOCAL\.|@@)?time_zone\s*=\s*'\+00:00'$")
         stmt.

Definition isSimpleDestructiveStatement (stmt : jstr) : bool :=
  if test (rx_i "^PREPARE\b") stmt then true
  else if test (rx_i "^EXECUTE\b") stmt then true
  else if test (rx_i "^CALL\b") stmt then true
  else if test (rx_i "^SET\s+@(?!@)") stmt then true
  else if test (rx_i "^SET\b") stmt && negb (autoEligibleSet stmt) then true
  else if test (rx_i "^DROP\b") stmt
          && negb (test (rx_i "^DROP\s+(?:INDEX|TEMPORARY\s+TABLE)\b") stmt) then true
  else if test (rx_i "^CREATE\s+OR\s+REPLACE\s+(TEMPORARY\s+)?TABLE\b") stmt then true
  else if test (rx_i "^TRUNCATE\b") stmt then true
  else if test (rx_i "^RENAME\s+TABLE\b") stmt then true
  else if test (rx_i "^DELETE\b") stmt then true
  else if test (rx_i "^REPLACE\b") stmt then true
  else if test (rx_i "^INSERT\b[\s\S]*\bON\s+DUPLICATE\s+KEY\s+UPDATE\b") stmt then true
  else test (rx_i "^LOAD\s+DATA\b") stmt.

Definition createOutsideAllowList (stmt : jstr) : bool :=
  if negb (test (rx_i "^CREATE\b") stmt) then false
  else if test (rx_i "^CREATE\s+(?:TEMPORARY\s+)?TABLE\b") stmt then createNamesNonInnoDb stmt
  else negb (test (rx_i "^CREATE\s+(?:(?:UNIQUE|FULLTEXT|SPATIAL)\s+)?INDEX\b") stmt).

Definition addsDeferredConstraint (stmt : jstr) : bool :=
  let text := blankLiterals stmt in
  test (rx_i "\bREFERENCES\b") text || test (rx_i "(?<!\bDROP\s+)\bFOREIGN\s+KEY\b") text
  || test (rx_i "\bCHECK\s*\(") text.

Definition ALLOWED : regex :=
  rx_i "^(?:ALTER\s+(?:ONLINE\s+)?TABLE|CREATE\s+(?:TEMPORARY\s+)?TABLE|CREATE\s+(?:(?:UNIQUE|FULLTEXT|SPATIAL)\s+)?INDEX|DROP\s+(?:INDEX|TEMPORARY\s+TABLE)|INSERT|UPDATE|SET)\b".

Definition statementOutsideAllowList (stmt : jstr) : bool := negb (test ALLOWED stmt).

(** A MODIFY that narrows, strips the generated key, or does not open its spec. *)
Definition destructive_spec (spec : jstr) : bool :=
  let bare := blankLiterals spec in
  (test (rx_i "\bMODIFY\b[\s\S]*\bNOT\s+NULL\b") bare && negb (test (rx_i "\bAUTO_INCREMENT\b") bare))
  || (test (rx_i "^\s*MODIFY\s+(?:COLUMN\s+)?(?:IF\s+EXISTS\s+)?`?id`?(?=\s|$)") spec
      && negb (test (rx_i "\bAUTO_INCREMENT\b") bare))
  || (test (rx_i "\bMODIFY\b") bare && negb (test (rx_i "^\s*MODIFY\b") spec)).

Definition isDestructiveAlter (stmt : jstr) (safeAlterDrop : list jstr) : bool :=
  if test (rx_i "\bPARTITION(?:ING)?\b") stmt then true
  else if test (rx_i "\bTABLESPACE\b") stmt then true
  else if test (rx_i "\bENGINE\b") stmt then true
  else if dropTargetDestroys stmt safeAlterDrop then true
  else if test (rx_i "\bRENAME\b(?!\s+(INDEX|KEY)\b)") stmt then true
  else if test (rx_i "\bCHANGE\b") stmt then true
  else if test (rx_i "\bCONVERT\s+TO\b") stmt then true
  else existsb destructive_spec
         (match alterSpecs stmt with Some parsed => specs parsed | None => [stmt] end).

(** ** The repair update *)

(** From the opening parenthesis on: the depth where the walk ends and the text left. *)
Fixpoint balance (n : nat) (quote : option Z) (depth : Z) (s : jstr) : Z * jstr :=
  match n, s with
  | O, _ | _, [] => (depth, s)
  | S n', ch :: rest =>
      match quote with
      | Some q => let '(_, quote', rest') := quote_step q ch rest in balance n' quote' depth rest'
      | None =>
          if is_quote ch then balance n' (Some ch) depth rest
          else if ch =? 40 then balance n' None (depth + 1) rest
          else if ch =? 41 then
            if depth - 1 =? 0 then (0, rest) else balance n' None (depth - 1) rest
          else balance n' None depth rest
      end
  end.

Definition REPAIR_HEAD : regex := rx_i "^UPDATE\s+(?:`[^`]+`|[A-Za-z0-9_$.]+)\s+SET\s+id\s*=\s*\(".
Definition REPAIR_TAIL : regex := rx_i "^\s*WHERE\s+id\s*=\s*0\s*;?\s*$".

Definition isIdRepairUpdate (stmt : jstr) : bool :=
  match exec REPAIR_HEAD stmt with
  | None => false
  | Some head =>
      let opening := drop (length (matched head) - 1) stmt in
      let '(depth, rest) := balance (length opening) None 0 opening in
      if negb (depth =? 0) then false else test REPAIR_TAIL rest
  end.

(** ** The scan *)

Definition SAFE_ALTER_DROP : list jstr :=
  map js ["INDEX"; "KEY"; "FOREIGN"; "CONSTRAINT"; "CHECK"; "DEFAULT"; "PRIMARY"]%string.

Definition ALTER_TABLE : regex := rx_i "^ALTER\s+((?:(?:ONLINE|IGNORE)\s+)*)TABLE\b".

(** What the rules say of a statement as the file holds it. *)
Definition destructive_statement (raw : jstr) : bool :=
  if test (rx_i "\/\*(?:!|M!)") raw then true
  else
    let stmt := trim (stripBlockComments raw) in
    if is_empty stmt then false
    else if hasUnquotedHash stmt then true
    else if isSimpleDestructiveStatement stmt then true
    else if test (rx_i "^UPDATE\b") stmt && negb (isIdRepairUpdate stmt) then true
    else if createOutsideAllowList stmt then true
    else if addsDeferredConstraint stmt then true
    else
      let alterHead := exec ALTER_TABLE stmt in
      if match alterHead with
         | Some h => test (rx_i "\bIGNORE\b") (default [] (group 1 h))
         | None => false
         end then true
      else if bool_decide (is_Some alterHead) && isDestructiveAlter stmt SAFE_ALTER_DROP then true
      else if negb (bool_decide (is_Some alterHead)) && test (rx_i "^ALTER\b") stmt then true
      else statementOutsideAllowList stmt.

(** The first statement that may lose, truncate or rename data. *)
Definition destructiveAutoStatement (statements : list jstr) : option jstr :=
  find destructive_statement statements.
