(* ===== verification/SqlRulesFacts.v ===== *)
(** * What the scan lets through

    The destructive-statement rules against a reading of the statements they admit: the
    allow-list as phrases of keywords, and the shape of the one UPDATE. *)
From S2P Require Import Prelude SqlText SqlTextFacts Regex SqlRules.
#[local] Open Scope Z_scope.

(** ** Phrases *)

(** A pattern without alternatives: letters of either case, runs of characters, the edge of
    a word, the ends of the text. *)
Inductive seg :=
  | Lit (w : jstr)
  | One (negated : bool) (items : list charset_item)
  | Many (negated : bool) (items : list charset_item)
  | Some1 (negated : bool) (items : list charset_item)
  | Edge
  | Start
  | Finish.

#[export] Instance charset_item_eq : EqDecision charset_item.
Proof. solve_decision. Defined.
#[export] Instance seg_eq : EqDecision seg.
Proof. solve_decision. Defined.

Definition letter (neg : bool) (items : list charset_item) (c : Z) : Prop :=
  in_chars true neg items c = true.

Definition moves (t : jstr) (c c' : cursor) : Prop := c.2 = t ++ c'.2 /\ c'.1 = rev t ++ c.1.

Definition seg_step (x : seg) (c c' : cursor) : Prop :=
  match x with
  | Lit w => exists t, moves t c c' /\ upper t = upper w
  | One neg items => exists z, moves [z] c c' /\ letter neg items z
  | Many neg items => exists t, moves t c c' /\ Forall (letter neg items) t
  | Some1 neg items => exists t, moves t c c' /\ t <> [] /\ Forall (letter neg items) t
  | Edge => c' = c /\ at_boundary c = true
  | Start => c' = c /\ c.1 = []
  | Finish => c' = c /\ c.2 = []
  end.

(** [reads p c c']: the phrase reads the text between the two positions. *)
Fixpoint reads (p : list seg) (c c' : cursor) : Prop :=
  match p with
  | [] => c' = c
  | x :: p' => exists c1, seg_step x c c1 /\ reads p' c1 c'
  end.

(** The text opens with the phrase and goes on with [rest]. *)
Definition opens (p : list seg) (s rest : jstr) : Prop := exists b, reads p ([], s) (b, rest).

(** The phrases of a pattern, where it has no look-around and repeats single characters only. *)
Fixpoint readings (r : node) : option (list (list seg)) :=
  match r with
  | Nothing => Some []
  | Empty => Some [[]]
  | Chars false [Range c d] => Some [[if c =? d then Lit [c] else One false [Range c d]]]
  | Chars neg items => Some [[One neg items]]
  | Cat a b =>
      l ← readings a;
      m ← readings b;
      Some (concat (map (fun p => map (app p) m) l))
  | Alt a b => l ← readings a; m ← readings b; Some (l ++ m)
  | Star _ (Chars neg items) => Some [[Many neg items]]
  | Star _ _ => None
  | Group _ a => readings a
  | LineStart => Some [[Start]]
  | LineEnd => Some [[Finish]]
  | Boundary false => Some [[Edge]]
  | Boundary true | Ahead _ _ | Behind _ _ => None
  end.

(** One more segment before a phrase: letters join into words, and a run into its first. *)
Definition push (x : seg) (p : list seg) : list seg :=
  match x, p with
  | Lit a, Lit b :: q => Lit (a ++ b) :: q
  | One n i, Many m j :: q => if bool_decide (n = m /\ i = j) then Some1 n i :: q else x :: p
  | _, _ => x :: p
  end.

Definition tidy (p : list seg) : list seg := foldr push [] p.

Definition phrases (re : regex) : list (list seg) := map tidy (default [] (readings (body re))).

Lemma reads_app p q c c' : reads (p ++ q) c c' <-> exists c1, reads p c c1 /\ reads q c1 c'.
Proof.
  revert c. induction p as [|x p IH]; intros c; cbn [app reads];
    [split; [by eexists|by intros (? & -> & ?)]|].
  setoid_rewrite IH. split.
  - intros (c1 & Hx & c2 & Hp & Hq). exists c2. split; [by exists c1|done].
  - intros (c2 & (c1 & Hx & Hp) & Hq). exists c1. split; [done|by exists c2].
Qed.

Lemma reads_one x c c' : reads [x] c c' <-> seg_step x c c'.
Proof. cbn [reads]. split; [by intros (? & ? & ->)|by eexists]. Qed.

Lemma moves_app t u c c1 c' : moves t c c1 -> moves u c1 c' -> moves (t ++ u) c c'.
Proof.
  intros [E1 E2] [E3 E4]. split.
  - by rewrite E1, E3, app_assoc.
  - by rewrite E4, E2, rev_app_distr, app_assoc.
Qed.

Lemma upper_letter c x : letter false [Range c c] x <-> uppercase x = uppercase c.
Proof.
  unfold letter, in_chars. cbn [existsb in_item]. rewrite xorb_false_l, !orb_false_r. cbn [andb].
  rewrite orb_true_iff, !andb_true_iff, !Z.leb_le. unfold uppercase, other_case.
  repeat match goal with |- context [if ?b then _ else _] => destruct b eqn:? end; b2p; lia.
Qed.

Lemma den_chars ml neg items c c' :
  den true ml (Chars neg items) c c' <-> seg_step (One neg items) c c'.
Proof.
  destruct c as [b s], c' as [b' s']. split.
  - intros (x & s1 & E & Hx & [= -> ->]). by exists x.
  - intros (x & [E1 E2] & Hx). exists x, s'. by simpl in *; subst.
Qed.

Lemma den_star_chars gr neg items c c' :
  den true false (Star gr (Chars neg items)) c c' <-> seg_step (Many neg items) c c'.
Proof.
  change (den true false (Star gr (Chars neg items)) c c') with
    (rtc (fun x y => den true false (Chars neg items) x y /\ (length y.2 < length x.2)%nat) c c').
  split.
  - induction 1 as [c|c c1 c' [H _] _ (t & Ht & Hf)]; [by exists []|].
    apply den_chars in H as (x & Hm & Hx).
    exists (x :: t). split; [by apply (moves_app [x] t _ c1)|by constructor].
  - intros (t & Hm & Hf). revert c Hm. induction Hf as [|x t Hx Hf IH]; intros [b s] [E1 E2].
    + destruct c' as [b' s']. simpl in *. subst. apply rtc_refl.
    + simpl in *. subst s. apply (rtc_l _ _ (x :: b, t ++ c'.2)).
      * split; [|simpl; lia]. apply (proj2 (den_chars false neg items _ _)). by exists x.
      * apply IH. split; [done|]. by rewrite E2, <- app_assoc.
Qed.

Lemma reads_seg x l c c' : l = [[x]] -> seg_step x c c' <-> exists p, p ∈ l /\ reads p c c'.
Proof.
  intros ->. setoid_rewrite list_elem_of_singleton. rewrite <- reads_one. naive_solver.
Qed.

Lemma readings_chars neg items l c c' :
  readings (Chars neg items) = Some l ->
  den true false (Chars neg items) c c' <-> exists p, p ∈ l /\ reads p c c'.
Proof.
  intros El. rewrite den_chars.
  destruct neg; [injection El as <-; by apply reads_seg|].
  destruct items as [|[lo hi| | | | | |] [|]]; try (injection El as <-; by apply reads_seg).
  revert El. cbn [readings]. destruct (Z.eqb_spec lo hi) as [<-|]; intros [= <-]; [|by apply reads_seg].
  rewrite <- (reads_seg (Lit [lo])) by done. cbn [seg_step]. unfold upper. split.
  - intros (x & Hm & Hx%upper_letter). exists [x]. split; [done|]. simpl. by rewrite Hx.
  - intros (t & Hm & Ht). destruct t as [|x [|]]; [done| |done]. injection Ht as Ht.
    exists x. by split; [|apply upper_letter].
Qed.

Lemma reads_cat la lb c c' :
  (exists p, p ∈ concat (map (fun p => map (app p) lb) la) /\ reads p c c')
  <-> exists c1, (exists p, p ∈ la /\ reads p c c1) /\ (exists q, q ∈ lb /\ reads q c1 c').
Proof.
  split.
  - intros (r & Hr & H). apply list_elem_of_In, in_concat in Hr as (l & Hl & Hr).
    apply in_map_iff in Hl as (p & <- & Hp). apply in_map_iff in Hr as (q & <- & Hq).
    apply reads_app in H as (c1 & H1 & H2). exists c1.
    split; [exists p|exists q]; (split; [by apply list_elem_of_In|done]).
  - intros (c1 & (p & Hp & H1) & q & Hq & H2). exists (p ++ q).
    split; [|by apply reads_app; eauto]. apply list_elem_of_In, in_concat. exists (map (app p) lb).
    split; [apply in_map_iff; exists p|apply in_map_iff; exists q]; by rewrite <- list_elem_of_In.
Qed.

(** A pattern matches what one of its phrases reads. *)
Lemma readings_spec r l c c' :
  readings r = Some l -> den true false r c c' <-> exists p, p ∈ l /\ reads p c c'.
Proof.
  revert l c c'. induction r as [| |neg items|a IHa b IHb|a IHa b IHb|gr a IHa|n a IHa| | |neg|neg a IHa|neg a IHa];
    intros l c c' El; cbn [readings] in El.
  - injection El as <-. split; [done|]. by intros (p & Hp%elem_of_nil & _).
  - injection El as <-. setoid_rewrite list_elem_of_singleton. simpl. naive_solver.
  - by apply readings_chars.
  - destruct (readings a) as [la|]; [|done]. destruct (readings b) as [lb|]; [|done].
    injection El as <-. rewrite reads_cat. cbn [den].
    by setoid_rewrite (fun c c' => IHa la c c' eq_refl); setoid_rewrite (fun c c' => IHb lb c c' eq_refl).
  - destruct (readings a) as [la|]; [|done]. destruct (readings b) as [lb|]; [|done].
    injection El as <-. setoid_rewrite elem_of_app. cbn [den].
    rewrite (IHa la), (IHb lb) by done. naive_solver.
  - destruct a; try done. injection El as <-. rewrite den_star_chars. by apply reads_seg.
  - by apply IHa.
  - injection El as <-. rewrite <- (reads_seg Start) by done. cbn [den seg_step].
    unfold at_line_start. destruct c.1; naive_solver.
  - injection El as <-. rewrite <- (reads_seg Finish) by done. cbn [den seg_step].
    unfold at_line_end. destruct c.2; naive_solver.
  - destruct neg; [done|]. injection El as <-. rewrite <- (reads_seg Edge) by done. cbn [den seg_step].
    by rewrite xorb_false_l.
  - done.
  - done.
Qed.

Lemma split_letters {A B} (f : A -> B) (t : list A) (a b : list B) :
  map f t = a ++ b -> exists u v, t = u ++ v /\ map f u = a /\ map f v = b.
Proof. intros (u & v & -> & <- & <-)%map_eq_app. by exists u, v. Qed.

Lemma moves_split t u c c' : moves (t ++ u) c c' -> exists c1, moves t c c1 /\ moves u c1 c'.
Proof.
  intros [E1 E2]. exists (rev t ++ c.1, u ++ c'.2). split; split; simpl; [|done|done|].
  - by rewrite E1, app_assoc.
  - by rewrite E2, rev_app_distr, app_assoc.
Qed.

Lemma reads_push x p c c' : reads (push x p) c c' <-> reads (x :: p) c c'.
Proof.
  destruct x as [a|n i| | | | |], p as [|[b|m j|m j|m j| | |] q]; try done.
  - cbn [push reads]. split.
    + intros (c2 & (t & Ht & Et) & H). unfold upper in Et. rewrite map_app in Et.
      apply split_letters in Et as (u & v & -> & Eu & Ev).
      apply moves_split in Ht as (c1 & Hu & Hv). exists c1. split; [by exists u|].
      exists c2. by split; [exists v|].
    + intros (c1 & (t & Ht & Ea) & c2 & (u & Hu & Eb) & H). exists c2. split; [|done].
      exists (t ++ u). split; [by eapply moves_app|]. unfold upper in *. by rewrite !map_app, Ea, Eb.
  - cbn [push]. case_bool_decide as Hij; [|done]. destruct Hij as [-> ->]. cbn [reads]. split.
    + intros (c2 & (t & Ht & Hn & Hf) & H). destruct t as [|x t]; [done|].
      apply Forall_cons in Hf as [Hx Hf]. apply (moves_split [x] t) in Ht as (c1 & H1 & H2).
      exists c1. split; [by exists x|]. exists c2. by split; [exists t|].
    + intros (c1 & (x & Hx & El) & c2 & (u & Hu & Ef) & H). exists c2. split; [|done].
      exists (x :: u). split_and!; [by apply (moves_app [x] u _ c1)|done|by constructor].
Qed.

Lemma reads_tidy p c c' : reads (tidy p) c c' <-> reads p c c'.
Proof.
  revert c c'. induction p as [|x p IH]; intros c c'; [done|].
  change (tidy (x :: p)) with (push x (tidy p)). rewrite reads_push. cbn [reads].
  by setoid_rewrite IH.
Qed.

(** A pattern that has phrases. *)
Definition readable (re : regex) : Prop :=
  icase re = true /\ multiline re = false /\ readings (body re) <> None.

(** Each of them is read from the start of the text. *)
Definition anchored (re : regex) : Prop :=
  readable re /\ Forall (fun p => head p = Some Start) (phrases re).

Lemma phrases_spec re c c' :
  readable re ->
  den (icase re) (multiline re) (body re) c c' <-> exists p, p ∈ phrases re /\ reads p c c'.
Proof.
  intros (-> & -> & Hr). unfold phrases. destruct (readings (body re)) as [l|] eqn:E; [|done].
  rewrite (readings_spec _ _ _ _ E). cbn [default]. unfold id.
  setoid_rewrite list_elem_of_fmap. split.
  - intros (p & Hp & H). exists (tidy p). split; [by exists p|by apply reads_tidy].
  - intros (? & (p & -> & Hp) & H). rewrite reads_tidy in H. by exists p.
Qed.

(** The test of such a pattern asks whether the text opens with one of its phrases. *)
Lemma anchored_test re s :
  anchored re -> test re s = true <-> exists p rest, p ∈ phrases re /\ opens p s rest.
Proof.
  intros [Ha Hs]. rewrite test_spec. unfold occurs. split.
  - intros (t & u & [b rest] & -> & H). apply (phrases_spec _ _ _ Ha) in H as (p & Hp & H).
    exists p, rest. split; [done|].
    rewrite Forall_forall in Hs. specialize (Hs p Hp). destruct p as [|[] p]; try done.
    pose proof H as (? & [_ Ht] & _). cbn [fst] in Ht. apply (f_equal (@rev Z)) in Ht.
    rewrite rev_involutive in Ht. subst t. by exists b.
  - intros (p & rest & Hp & b & H). exists [], s, (b, rest). split; [done|].
    apply (phrases_spec _ _ _ Ha). by exists p.
Qed.

(** ** What may run unattended *)

Definition gap : seg := Some1 false [Space].
Definition spaces : seg := Many false [Space].
Definition name : seg := Some1 false [Word].
Definition lit (w : String.string) : seg := Lit (js w).

(** Keywords with blanks between them, the last one a whole word. *)
Fixpoint spaced (ws : list String.string) : list seg :=
  match ws with
  | [] => []
  | [w] => [lit w]
  | w :: ws' => lit w :: gap :: spaced ws'
  end.

Definition keywords (ws : list String.string) : list seg := Start :: spaced ws ++ [Edge].

Definition AUTO_FORMS : list (list seg) := map keywords
  [["ALTER"; "ONLINE"; "TABLE"]; ["ALTER"; "TABLE"]; ["CREATE"; "TEMPORARY"; "TABLE"];
   ["CREATE"; "TABLE"]; ["CREATE"; "UNIQUE"; "INDEX"]; ["CREATE"; "FULLTEXT"; "INDEX"];
   ["CREATE"; "SPATIAL"; "INDEX"]; ["CREATE"; "INDEX"]; ["DROP"; "INDEX"];
   ["DROP"; "TEMPORARY"; "TABLE"]; ["INSERT"]]%string.

(** A name, each of its quotes there or not. *)
Definition quotable : list (list seg) :=
  let quotes := [[]; [One false [Range 39 39; Range 34 34]]] in
  concat (map (fun a => map (fun b => a ++ [name] ++ b) quotes) quotes).

(** SET NAMES, with a collation or not, and the UTC time zone of the session. *)
Definition SET_FORMS : list (list seg) :=
  map (fun charset => Start :: spaced ["SET"; "NAMES"]%string ++ [gap] ++ charset ++ [Finish]) quotable
  ++ concat (map (fun charset => map (fun collation =>
       Start :: spaced ["SET"; "NAMES"]%string ++ [gap] ++ charset ++ [gap; lit "COLLATE"; gap]
       ++ collation ++ [Finish]) quotable) quotable)
  ++ map (fun variable =>
       Start :: spaced ("SET"%string :: variable) ++ [spaces; lit "="; spaces; lit "'+00:00'"; Finish])
       [["SESSION"; "time_zone"]; ["LOCAL"; "time_zone"]; ["@@SESSION.time_zone"];
        ["@@LOCAL.time_zone"]; ["@@time_zone"]; ["time_zone"]]%string.

(** UPDATE <table> SET id = ( *)
Definition REPAIR_HEADS : list (list seg) :=
  map (fun table => [Start; lit "UPDATE"; gap] ++ table
                    ++ [gap; lit "SET"; gap; lit "id"; spaces; lit "="; spaces; lit "("])
    [[lit "`"; Some1 true [Range 96 96]; lit "`"];
     [Some1 false [Range 65 90; Range 97 122; Range 48 57; Range 95 95; Range 36 36; Range 46 46]]].

(** WHERE id = 0, and nothing else. *)
Definition REPAIR_TAILS : list (list seg) :=
  map (fun semi => [Start; spaces; lit "WHERE"; gap; lit "id"; spaces; lit "="; spaces; lit "0"; spaces]
                   ++ semi ++ [spaces; Finish])
    [[lit ";"]; []].

(** Between the two texts every parenthesis that opens closes, quoted text aside. *)
Inductive nested : jstr -> jstr -> Prop :=
  | nested_nil r : nested r r
  | nested_char c s r : is_quote c = false -> c <> 40 -> c <> 41 -> nested s r -> nested (c :: s) r
  | nested_quote q s a t r : is_quote q = true -> quoted_span q s = (a, t) -> nested t r ->
      nested (q :: s) r
  | nested_group s t r : nested s (41 :: t) -> nested t r -> nested (40 :: s) r.

(** The UPDATE that numbers the rows whose id is 0: its value stands between two parentheses
    that belong together, and its condition is all that follows. *)
Definition repairs_ids (st : jstr) : Prop :=
  exists p q value tail, p ∈ REPAIR_HEADS /\ q ∈ REPAIR_TAILS
    /\ opens p st value /\ nested value (41 :: tail) /\ opens q tail [].

Inductive admitted (st : jstr) : Prop :=
  | admitted_blank : st = [] -> admitted st
  | admitted_form p rest : p ∈ AUTO_FORMS -> opens p st rest -> admitted st
  | admitted_set p : p ∈ SET_FORMS -> opens p st [] -> admitted st
  | admitted_repair : repairs_ids st -> admitted st.

(** *** The repair *)

(** [k] open parentheses more, and then the one that closes the first of them. *)
Fixpoint closes (k : nat) (s rest : jstr) : Prop :=
  match k with
  | O => nested s (41 :: rest)
  | S k' => exists s1, nested s (41 :: s1) /\ closes k' s1 rest
  end.

Lemma closes_before k s s' rest :
  (forall r, nested s r -> nested s' r) -> closes k s rest -> closes k s' rest.
Proof. intros H. destruct k as [|k]; [apply H|]. intros (s1 & H1 & H2). exists s1. auto. Qed.

Lemma balance_quoted n q s a r d :
  quoted_span q s = (a, r) -> (length s <= n)%nat ->
  exists n', (length r <= n')%nat /\ balance n (Some q) d s = balance n' None d r.
Proof.
  intros E Hn. apply (quoted_walk (fun n q s (_ : jstr) => balance n q d s) ltac:(by intros [|?])
    ltac:(done) n q s a r [] E Hn).
Qed.

Lemma balance_closes m n k s rest :
  (length s <= m)%nat -> (length s <= n)%nat ->
  balance n None (Z.of_nat (S k)) s = (0, rest) -> closes k s rest.
Proof.
  revert n k s. induction m as [|m IH]; intros n k s Hm Hn H.
  { destruct s; [|simpl in Hm; lia]. destruct n; simplify_eq/=. }
  destruct s as [|c s]; [by destruct n; simplify_eq/=|]. destruct n as [|n]; [simpl in Hn; lia|].
  simpl in Hm, Hn. revert H. cbn [balance]. destruct (is_quote c) eqn:Hq.
  { destruct (quoted_span c s) as [a r] eqn:E.
    destruct (balance_quoted n c s a r (Z.of_nat (S k)) E ltac:(lia)) as (n' & Hr & ->). intros H.
    assert (length r <= length s)%nat
      by (pose proof (quoted_span_app c s) as Ea; rewrite E in Ea; simpl in Ea;
          rewrite <- Ea, length_app; lia).
    apply IH in H; [|lia..]. eapply closes_before; [|done]. intros u Hu. by eapply nested_quote. }
  destruct (Z.eqb_spec c 40) as [->|H40].
  { replace (Z.of_nat (S k) + 1) with (Z.of_nat (S (S k))) by lia. intros H.
    apply IH in H as (s1 & H1 & H2); [|lia..]. eapply closes_before; [|done]. intros u Hu.
    by eapply nested_group. }
  destruct (Z.eqb_spec c 41) as [->|H41].
  - destruct k as [|k].
    + intros [= ->]. constructor.
    + replace (Z.of_nat (S (S k)) - 1) with (Z.of_nat (S k)) by lia.
      replace (Z.of_nat (S k) =? 0) with false by (symmetry; apply Z.eqb_neq; lia).
      intros H. apply IH in H; [|lia..]. exists s. split; [constructor|done].
  - intros H. apply IH in H; [|lia..]. eapply closes_before; [|done]. intros u Hu. by constructor.
Qed.

(** The phrases of a pattern are among those of a list. *)
Definition within (re : regex) (forms : list (list seg)) : bool :=
  icase re && negb (multiline re)
  && match readings (body re) with
     | Some l => forallb (fun p => bool_decide (head p = Some Start) && bool_decide (p ∈ forms)) (map tidy l)
     | None => false
     end.

Lemma within_spec re forms : within re forms = true -> anchored re /\ forall p, p ∈ phrases re -> p ∈ forms.
Proof.
  unfold within, anchored, readable, phrases. destruct (readings (body re)) as [l|]; [|by rewrite andb_false_r].
  intros [[-> ->%negb_true_iff]%andb_true_iff H]%andb_true_iff. rewrite forallb_forall in H.
  cbn [default]. unfold id. rewrite Forall_forall.
  split_and!; [done..| |]; intros p Hp%list_elem_of_In%H; by b2p.
Qed.

Lemma within_test re forms s :
  within re forms = true -> test re s = true -> exists p rest, p ∈ forms /\ opens p s rest.
Proof.
  intros [Ha Hf]%within_spec H. apply anchored_test in H as (p & rest & Hp & Ho); [|done].
  exists p, rest. by split; [apply Hf|].
Qed.

Lemma opens_finish p s rest : last p = Some Finish -> opens p s rest -> rest = [].
Proof.
  intros Hl [b H]. apply last_Some in Hl as [q ->]. apply reads_app in H as (c1 & _ & H).
  apply reads_one in H as [E H]. by subst.
Qed.

Lemma within_whole re forms s :
  within re forms = true -> Forall (fun p => last p = Some Finish) forms ->
  test re s = true -> exists p, p ∈ forms /\ opens p s [].
Proof.
  intros Hw Hf H. apply (within_test _ _ _ Hw) in H as (p & rest & Hp & Ho).
  rewrite Forall_forall in Hf. rewrite (opens_finish p s rest) in Ho by auto. by exists p.
Qed.

Lemma opens_app p s rest : opens p s rest -> exists b, s = b ++ rest.
Proof.
  intros [b H]. enough (Hm : exists t, moves t ([], s) (b, rest)) by (destruct Hm as (t & E & _); by exists t).
  revert H. generalize (@nil Z, s) (b, rest). clear. induction p as [|x p IH]; intros c c'.
  - intros ->. by exists [].
  - intros (c1 & Hx & (u & Hu)%IH).
    assert (exists t, moves t c c1) as (t & Ht)
      by (destruct x; simpl in Hx; destruct_and?; naive_solver (by exists [])).
    exists (t ++ u). by eapply moves_app.
Qed.

(** A match of an anchored pattern is at the start. *)
Lemma within_exec re forms s f :
  within re forms = true -> exec re s = Some f ->
  exists p, p ∈ forms /\ s = matched f ++ post f /\ reads p ([], s) (rev (matched f), post f).
Proof.
  intros [[Ha Hs] Hf]%within_spec E. pose proof (exec_at_spec re [] s) as H. unfold exec in E.
  rewrite E in H. destruct H as [Es Hd]. simpl in Es.
  apply (phrases_spec _ _ _ Ha) in Hd as (p & Hp & Hr).
  rewrite Forall_forall in Hs. specialize (Hs p Hp). exists p. split; [by apply Hf|].
  destruct p as [|[] p]; try done. pose proof Hr as (? & [_ Ht] & _). cbn [fst] in Ht.
  apply (f_equal (@rev Z)) in Ht. rewrite rev_involutive in Ht. rewrite Ht in *. simpl in *.
  rewrite app_nil_r, Es in Hr. by split.
Qed.

Lemma upper_one c t : uppercase c = c -> (forall x, uppercase x = c -> x = c) -> upper t = upper [c] -> t = [c].
Proof.
  intros Hc Hx. unfold upper. simpl. rewrite Hc. destruct t as [|x [|]]; [done| |done].
  intros [= H]. by rewrite (Hx x H).
Qed.

Lemma isIdRepairUpdate_repairs st : isIdRepairUpdate st = true -> repairs_ids st.
Proof.
  unfold isIdRepairUpdate. destruct (exec REPAIR_HEAD st) as [f|] eqn:E; [|done].
  apply (within_exec _ REPAIR_HEADS) in E as (p & Hp & Es & Hr); [|by vm_compute].
  assert (Hm : exists m, matched f = m ++ [40]).
  { assert (Hl : Forall (fun p => last p = Some (lit "(")) REPAIR_HEADS) by by repeat constructor.
    rewrite Forall_forall in Hl. pose proof (Hl p Hp) as [q Eq]%last_Some. rewrite Eq in Hr.
    apply reads_app in Hr as (c1 & _ & Hr). apply reads_one in Hr as (t & [_ Ht] & Et).
    apply (upper_one 40 t) in Et as ->; [|done|]; cbn [fst] in Ht.
    - exists (rev c1.1). by rewrite <- (rev_involutive (matched f)), Ht.
    - intros x. unfold uppercase. case_match; b2p; lia. }
  destruct Hm as [m Em]. rewrite Em in Es.
  replace (drop (length (matched f) - 1) st) with (40 :: post f).
  2:{ rewrite Es, Em, length_app, Nat.add_sub, <- app_assoc. by rewrite drop_app_length. }
  cbn [length balance]. change (is_quote 40) with false. cbn [Z.eqb Pos.eqb].
  change (0 + 1) with 1.
  destruct (balance (length (post f)) None 1 (post f)) as [d tail] eqn:Eb.
  destruct (Z.eqb_spec d 0) as [->|]; cbn [negb]; [|done]. intros Ht.
  apply (within_whole _ REPAIR_TAILS) in Ht as (q & Hq & Ho);
    [|by vm_compute|by repeat constructor].
  exists p, q, (post f), tail. split_and!; [done..|by eexists| |done].
  by apply (balance_closes (length (post f)) (length (post f)) 0).
Qed.

Lemma opens_test re p s rest : within re [p] = true -> phrases re = [p] -> opens p s rest -> test re s = true.
Proof.
  intros [Ha _]%within_spec Ep Ho. apply anchored_test; [done|]. exists p, rest. rewrite Ep.
  by split; [apply list_elem_of_singleton|].
Qed.

Definition EXECUTABLE : regex := rx_i "\/\*(?:!|M!)".

(** The text holds a comment the server runs. *)
Definition runs_comment (raw : jstr) : Prop :=
  exists a t b, raw = a ++ t ++ b /\ upper t ∈ [js "/*!"; js "/*M!"].

Lemma executable_test raw : runs_comment raw -> test EXECUTABLE raw = true.
Proof.
  intros (a & t & b & -> & Ht). apply test_spec. exists a, (t ++ b), (rev t ++ rev a, b).
  split; [done|]. apply phrases_spec; [by repeat split|].
  assert (Hs : forall w, upper t = js w -> upper (js w) = js w ->
                 reads [lit w] (rev a, t ++ b) (rev t ++ rev a, b)).
  { intros w E Ew. apply reads_one. exists t. split; [done|]. by rewrite E, Ew. }
  apply elem_of_cons in Ht as [Ht|Ht%list_elem_of_singleton].
  - exists [lit "/*!"]. split; [by vm_compute; constructor|by apply Hs].
  - exists [lit "/*M!"]. split; [by vm_compute; do 2 constructor|by apply Hs].
Qed.

Lemma set_eligible stmt : autoEligibleSet stmt = true -> exists p, p ∈ SET_FORMS /\ opens p stmt [].
Proof.
  unfold autoEligibleSet. intros H. case_match.
  - match goal with H : test _ stmt = true |- _ => apply (within_whole _ SET_FORMS) in H end;
      [done|by vm_compute|by vm_compute; repeat constructor].
  - apply (within_whole _ SET_FORMS) in H; [done|by vm_compute|by vm_compute; repeat constructor].
Qed.

Lemma allowed_forms stmt :
  test ALLOWED stmt = true ->
  (exists p rest, p ∈ AUTO_FORMS /\ opens p stmt rest)
  \/ test (rx_i "^UPDATE\b") stmt = true \/ test (rx_i "^SET\b") stmt = true.
Proof.
  intros H. apply (within_test _ (AUTO_FORMS ++ [keywords ["UPDATE"%string]; keywords ["SET"%string]])) in H
    as (p & rest & Hp & Ho); [|by vm_compute].
  apply elem_of_app in Hp as [Hp|Hp]; [left; by eauto|right].
  apply elem_of_cons in Hp as [->|Hp]; [left|right; apply list_elem_of_singleton in Hp as ->];
    by eapply opens_test; [..|exact Ho].
Qed.

Lemma simple_set stmt :
  isSimpleDestructiveStatement stmt = false -> test (rx_i "^SET\b") stmt = true ->
  autoEligibleSet stmt = true.
Proof.
  unfold isSimpleDestructiveStatement. intros H Hs. rewrite Hs in H.
  destruct (autoEligibleSet stmt); [done|]. by repeat case_match.
Qed.

(** The rules as one conjunction. *)
Lemma not_destructive raw :
  destructive_statement raw = false ->
  let stmt := trim (stripBlockComments raw) in
  test EXECUTABLE raw = false
  /\ (stmt = []
      \/ hasUnquotedHash stmt = false /\ isSimpleDestructiveStatement stmt = false
         /\ (test (rx_i "^UPDATE\b") stmt = true -> isIdRepairUpdate stmt = true)
         /\ test ALLOWED stmt = true).
Proof.
  unfold destructive_statement. fold EXECUTABLE. intros H.
  destruct (test EXECUTABLE raw); [done|]. split; [done|]. cbv zeta in H.
  set (stmt := trim (stripBlockComments raw)) in *. clearbody stmt.
  destruct (is_empty stmt) eqn:Ee; [by left; destruct stmt|right].
  destruct (hasUnquotedHash stmt); [done|]. destruct (isSimpleDestructiveStatement stmt); [done|].
  split_and!; [done..| |].
  - intros Hu. rewrite Hu in H. by destruct (isIdRepairUpdate stmt).
  - unfold statementOutsideAllowList in H.
    destruct (test ALLOWED stmt); [done|]. cbn [negb] in H. by repeat case_match.
Qed.

(** C18: a file the scan passes holds nothing but what an auto file may run: of each of its
    statements, no part is a comment the server executes, and what is left without its
    comments holds no [#] outside quotes and is blank, or opens with one of eleven keyword
    phrases (a CREATE of a table or an index, a DROP of an index or a temporary table, an
    ALTER TABLE without IGNORE, an INSERT), or is from end to end a SET NAMES or the UTC
    time zone of the session, or is the UPDATE of the rows whose id is 0. *)
Theorem scan_admits statements :
  destructiveAutoStatement statements = None ->
  Forall (fun raw => ~ runs_comment raw /\ admitted (trim (stripBlockComments raw))
                     /\ (trim (stripBlockComments raw) = []
                         \/ hasUnquotedHash (trim (stripBlockComments raw)) = false)) statements.
Proof.
  unfold destructiveAutoStatement. intros Hf. rewrite Forall_forall. intros raw Hraw%list_elem_of_In.
  pose proof (find_none _ _ Hf raw Hraw) as H. apply not_destructive in H as (He & H).
  split_and!.
  - intros Hr. by rewrite executable_test in He.
  - destruct H as [H|(_ & Hs & Hu & Ha)]; [by apply admitted_blank|].
    apply allowed_forms in Ha as [(p & rest & Hp & Ho)|[Ha|Ha]].
    + by eapply admitted_form.
    + by apply admitted_repair, isIdRepairUpdate_repairs, Hu.
    + apply simple_set in Ha as (p & Hp & Ho)%set_eligible; [|done]. by eapply admitted_set.
  - destruct H as [H|(H & _)]; [by left|by right].
Qed.

Definition auto_file : list jstr := map js
  ["/* why */ create  table t (id int)"; "ALTER TABLE t ADD COLUMN c VARCHAR(9) DEFAULT '#'";
   "SET NAMES 'utf8mb4'"; "UPDATE t SET id = (SELECT ')' FROM (SELECT 1) x) WHERE id = 0"]%string.

Lemma scan_admits_witness :
  destructiveAutoStatement auto_file = None /\ length auto_file = 4%nat
  /\ admitted (trim (stripBlockComments (js "SET NAMES 'utf8mb4'"))).
Proof.
  assert (H : destructiveAutoStatement auto_file = None) by (vm_compute; reflexivity).
  split; [exact H|]. split; [reflexivity|].
  pose proof (scan_admits auto_file H) as Hall. rewrite Forall_forall in Hall.
  destruct (Hall (js "SET NAMES 'utf8mb4'")) as (_ & Ha & _); [|exact Ha].
  do 2 apply list_elem_of_further. apply list_elem_of_here.
Defined.

(** [\\.] of blankLiterals does not match a line end, so a literal that holds a backslash
    before one is not blanked, and what stands between two literals is. *)
Definition hidden_clause : jstr :=
  js "ALTER TABLE t MODIFY c INT DEFAULT 'a" ++ [backslash; LF] ++ js "' NOT NULL COMMENT 'x'".

Example hidden_clause_passes :
  destructive_statement hidden_clause = false
  /\ destructive_statement (js "ALTER TABLE t MODIFY c INT DEFAULT 'a' NOT NULL COMMENT 'x'") = true.
Proof. vm_compute. by split. Qed.
