(* ===== verification/LiveSchema.v ===== *)
(** * The live-schema guard

    src/src/db/migration_live_schema_guard.js: what a MODIFY of an auto file would take
    from the live column it lands on.

    A loss is reported by its kind; the texts are left out.  Names and attributes are
    ASCII.  A lookup in an object literal also finds what the literal inherits: the type
    names [constructor] and [__proto__] find a value in TYPE_ALIAS, written as the text of
    that value, which no table knows.

    The type check of the live-schema guard against the values a column holds: the integer
    types and the exact decimals. *)
From Stdlib Require Import QArith.QArith_base QArith.Qreduction.
From S2P Require Import Prelude JsNum Node SqlText Regex SqlRules.
#[local] Open Scope Z_scope.

(** ** The clauses of a file *)

Inductive modify_clause :=
  | Modify (table column definition : jstr)
  | Unparsed (text : jstr).

Definition namesModify (text : jstr) : bool := test (rx_i "\bMODIFY\b") (blankLiterals text).

Definition modify_of_spec (table clause : jstr) : list modify_clause :=
  match exec (rx_i "^\s*MODIFY\s+(?:COLUMN\s+)?(?:IF\s+EXISTS\s+)?(`[^`]+`|\w+)\s+([\s\S]+)$") clause with
  | None => if namesModify clause then [Unparsed (trim clause)] else []
  | Some m =>
      let definition := trim (replace_first (rx_i "\s+(?:FIRST|AFTER\s+(?:`[^`]+`|\w+))\s*$")
                                (fun _ => []) (default [] (group 2 m))) in
      [Modify table (unquote (default [] (group 1 m))) definition]
  end.

Definition modify_of_statement (stmt : jstr) : list modify_clause :=
  match alterSpecs stmt with
  | None =>
      let text := trim (stripBlockComments stmt) in
      if test (rx_i "^ALTER\b") text && namesModify text then [Unparsed text] else []
  | Some parsed => concat (map (modify_of_spec (as_table parsed)) (specs parsed))
  end.

Definition modifyClauses (statements : list jstr) : list modify_clause :=
  concat (map modify_of_statement statements).

(** ** Types *)

Record column_type := ColumnType { ct_name : jstr; ct_args : option jstr; ct_unsigned : bool }.

Definition parseType (definition : jstr) : option column_type :=
  m ← exec (rx_i "^\s*(\w+)\s*(?:\(([^)]*)\))?\s*(unsigned)?") definition;
  Some (ColumnType (lower (default [] (group 1 m))) (trim <$> group 2 m)
          (bool_decide (is_Some (group 3 m)))).

Definition parseLiveType (columnType : option jstr) : option column_type :=
  parseType (default [] columnType).

Definition table_of (l : list (String.string * Z)) : list (jstr * Z) := map (fun e => (js e.1, e.2)) l.

Fixpoint assoc {A} (k : jstr) (l : list (jstr * A)) : option A :=
  match l with
  | [] => None
  | (x, v) :: l' => if eqs x k then Some v else assoc k l'
  end.

Definition INT_RANK : list (jstr * Z) := Eval vm_compute in
  table_of [("tinyint", 1); ("smallint", 2); ("mediumint", 3); ("int", 4); ("integer", 4); ("bigint", 5)]%string.
Definition TEXT_RANK : list (jstr * Z) := Eval vm_compute in
  table_of [("tinytext", 1); ("text", 2); ("mediumtext", 3); ("longtext", 4)]%string.
Definition BLOB_RANK : list (jstr * Z) := Eval vm_compute in
  table_of [("tinyblob", 1); ("blob", 2); ("mediumblob", 3); ("longblob", 4)]%string.
Definition CHARSET_RANK : list (jstr * Z) := Eval vm_compute in
  table_of [("ascii", 1); ("latin1", 1); ("utf8", 3); ("utf8mb3", 3); ("utf8mb4", 4)]%string.
Definition SIZED : list jstr := map js ["varchar"; "char"; "varbinary"; "binary"]%string.
Definition FSP_TYPES : list jstr := map js ["datetime"; "timestamp"; "time"]%string.
Definition TEXTUAL : list jstr :=
  map js ["char"; "varchar"; "tinytext"; "text"; "mediumtext"; "longtext"; "enum"; "set"]%string.

(** Digits of the widest value, signed then unsigned. *)
Definition INT_DIGITS : list (jstr * (Z * Z)) :=
  map (fun e => (js e.1, e.2))
    [("tinyint", (3, 3)); ("smallint", (5, 5)); ("mediumint", (7, 8)); ("int", (10, 10));
     ("integer", (10, 10)); ("bigint", (19, 20))]%string.

Definition TYPE_ALIAS : list (jstr * jstr) :=
  map (fun e => (js e.1, js e.2))
    [("integer", "int"); ("numeric", "decimal"); ("dec", "decimal"); ("fixed", "decimal");
     ("real", "double"); ("bool", "tinyint"); ("boolean", "tinyint"); ("json", "longtext");
     ("constructor", "function Object() { [native code] }"); ("__proto__", "[object Object]")]%string.

Definition canonicalType (t : column_type) : column_type :=
  ColumnType (default (ct_name t) (assoc (ct_name t) TYPE_ALIAS)) (ct_args t) (ct_unsigned t).

(** ** Numbers *)

Definition num_sub (a b : num) : num :=
  match a, b with
  | Fin x, Fin y => round_binary64 (Qred (Qminus x y))
  | NaN, _ | _, NaN => NaN
  | Inf s, Inf t => if Bool.eqb s t then NaN else Inf s
  | Inf s, Fin _ => Inf s
  | Fin _, Inf s => Inf (negb s)
  end.

Definition number_of (s : jstr) : num := Number (JStr s).

(** The first two numbers of a list of arguments; a missing second is 0. *)
Definition two_numbers (args : jstr) : num * num :=
  match map number_of (split_on 44 args) with
  | p :: s :: _ => (p, s)
  | [p] => (p, numZ 0)
  | [] => (NaN, numZ 0)
  end.

Definition decimalArgs (args : option jstr) : num * num :=
  match args with
  | None => (numZ 10, numZ 0)
  | Some a => two_numbers a
  end.

Definition fsp (args : option jstr) : num :=
  match args with None => numZ 0 | Some a => number_of a end.

(** ** What narrows *)

Section Narrowing.
Context (live next : column_type).

Definition drops_sign : bool := ct_unsigned next && negb (ct_unsigned live).

Definition rank_above_1 (name : jstr) (table : list (jstr * Z)) : bool :=
  match assoc name table with Some r => 1 <? r | None => false end.

(** Between types of different names. *)
Definition widensAcross : bool :=
  match assoc (ct_name live) INT_DIGITS, eqs (ct_name next) (js "decimal") with
  | Some (signed, unsigned), true =>
      let '(p, s) := decimalArgs (ct_args next) in
      num_le (numZ (if ct_unsigned live then unsigned else signed)) (num_sub p s)
      && negb drops_sign
  | _, _ =>
      if member (ct_name live) SIZED then
        rank_above_1 (ct_name next) TEXT_RANK || rank_above_1 (ct_name next) BLOB_RANK
      else if eqs (ct_name live) (js "timestamp") && eqs (ct_name next) (js "datetime") then
        num_le (fsp (ct_args live)) (fsp (ct_args next))
      else if eqs (ct_name live) (js "date") && eqs (ct_name next) (js "datetime") then true
      else eqs (ct_name live) (js "float") && eqs (ct_name next) (js "double")
           && bool_decide (ct_args next = None) && negb (ct_unsigned next)
  end.

(** [args || 1]: an empty text is falsy. *)
Definition bit_width (args : option jstr) : num :=
  match args with
  | None | Some [] => numZ 1
  | Some a => number_of a
  end.

(** Of one name. *)
Definition narrowedPrecision : bool :=
  if eqs (ct_name live) (js "decimal") then
    let '(lp, ls) := decimalArgs (ct_args live) in
    let '(np, ns) := decimalArgs (ct_args next) in
    num_lt (num_sub np ns) (num_sub lp ls) || num_lt ns ls || drops_sign
  else if member (ct_name live) FSP_TYPES then num_lt (fsp (ct_args next)) (fsp (ct_args live))
  else if eqs (ct_name live) (js "bit") then
    num_lt (bit_width (ct_args next)) (bit_width (ct_args live))
  else if eqs (ct_name live) (js "float") || eqs (ct_name live) (js "double") then
    match ct_args next, ct_args live with
    | None, _ => drops_sign
    | Some _, None => true
    | Some na, Some la =>
        let '(lm, ld) := two_numbers la in
        let '(nm, nd) := two_numbers na in
        drops_sign || num_lt (num_sub nm nd) (num_sub lm ld) || num_lt nd ld
    end
  else false.

Definition narrows_rank (table : list (jstr * Z)) : option bool :=
  match assoc (ct_name live) table, assoc (ct_name next) table with
  | Some l, Some n => Some (n <? l)
  | _, _ => None
  end.

Definition narrows_int : option bool :=
  match assoc (ct_name live) INT_RANK, assoc (ct_name next) INT_RANK with
  | Some l, Some n =>
      Some (if n <? l then true
            else (n =? l) && negb (Bool.eqb (ct_unsigned live) (ct_unsigned next)))
  | _, _ => None
  end.

Definition enumValues (args : option jstr) : list jstr :=
  match args with
  | None => []
  | Some a => map (fun s => replace_all (rx "^'|'$") (fun _ => []) (trim s)) (splitTopLevel a)
  end.

Definition arg_number (args : option jstr) : num :=
  match args with None => Number JNull | Some a => number_of a end.

(** Both types under their canonical names. *)
Definition narrows : bool :=
  match narrows_int, narrows_rank TEXT_RANK, narrows_rank BLOB_RANK with
  | Some b, _, _ => b
  | None, Some b, _ => b
  | None, None, Some b => b
  | None, None, None =>
      let same := eqs (ct_name next) (ct_name live) in
      if member (ct_name live) SIZED && same then
        let l := arg_number (ct_args live) in
        let n := arg_number (ct_args next) in
        isFinite l && isFinite n && num_lt n l
      else if (eqs (ct_name live) (js "enum") || eqs (ct_name live) (js "set")) && same then
        negb (forallb (fun v => member v (enumValues (ct_args next))) (enumValues (ct_args live)))
      else if same then narrowedPrecision
      else negb widensAcross
  end.
End Narrowing.

Definition narrowedType (rawLive rawNext : option column_type) : bool :=
  match rawLive, rawNext with
  | Some live, Some next => narrows (canonicalType live) (canonicalType next)
  | _, _ => false
  end.

(** ** What a MODIFY loses *)

Record live_column := LiveColumn {
  COLUMN_TYPE : option jstr; COLUMN_DEFAULT : option jstr; EXTRA : option jstr;
  COLUMN_COMMENT : option jstr; GENERATION_EXPRESSION : option jstr; IS_NULLABLE : option jstr;
  CHARACTER_SET_NAME : option jstr; COLLATION_NAME : option jstr; TABLE_COLLATION : option jstr
}.

Definition text (v : option jstr) : jstr := default [] v.

Definition declaredCharset (definition : jstr) : option jstr :=
  match exec (rx_i "\b(?:CHARACTER\s+SET|CHARSET)\s+(\w+)") definition with
  | Some cs => lower <$> group 1 cs
  | None =>
      co ← exec (rx_i "\bCOLLATE\s+(\w+)") definition;
      Some (before 95 (lower (text (group 1 co))))
  end.

Definition collationKey (name : option jstr) : option jstr :=
  match name with
  | None | Some [] => None
  | Some n => Some (replace_first (rx "^utf8_") (fun _ => js "utf8mb3_") (lower n))
  end.

Inductive loss :=
  StripsAutoIncrement | StripsDefault | StripsOnUpdate | StripsComment | StripsGeneration
  | NarrowsNull | NarrowsType | ChangesCharset | OmitsCharset.

(** A charset the table does not know, but an object inherits, is no number. *)
Definition charset_narrows (liveSet nextSet : jstr) : bool :=
  match assoc liveSet CHARSET_RANK, assoc nextSet CHARSET_RANK with
  | Some l, Some n => n <? l
  | l, n => negb (bool_decide (is_Some l) || member liveSet inherited_names)
            || negb (bool_decide (is_Some n) || member nextSet inherited_names)
  end.

Definition if_lost (b : bool) (l : loss) : list loss := if b then [l] else [].

Definition losses (live : live_column) (definition : jstr) : list loss :=
  let bare := blankLiterals definition in
  let extra := lower (text (EXTRA live)) in
  let generated := negb (is_empty (text (GENERATION_EXPRESSION live)))
    || test (rx "\b(virtual|stored|persistent) generated\b") extra in
  let liveSet := match CHARACTER_SET_NAME live with None | Some [] => None | Some s => Some (lower s) end in
  let nextSet := declaredCharset bare in
  if_lost (test (rx "\bauto_increment\b") extra && negb (test (rx_i "\bAUTO_INCREMENT\b") bare))
    StripsAutoIncrement
  ++ if_lost (negb generated
       && match COLUMN_DEFAULT live with Some d => negb (eqs (upper d) (js "NULL")) | None => false end
       && negb (test (rx_i "\bDEFAULT\b") bare)) StripsDefault
  ++ if_lost (test (rx "\bon update\b") extra && negb (test (rx_i "\bON\s+UPDATE\b") bare)) StripsOnUpdate
  ++ if_lost (negb (is_empty (text (COLUMN_COMMENT live))) && negb (test (rx_i "\bCOMMENT\b") bare))
       StripsComment
  ++ if_lost (generated && negb (test (rx_i "\bGENERATED\b|\bAS\s*\(") bare)) StripsGeneration
  ++ if_lost (eqs (upper (text (IS_NULLABLE live))) (js "YES")
       && test (rx_i "\bNOT\s+NULL\b|\bPRIMARY\s+KEY\b") bare) NarrowsNull
  ++ if_lost (narrowedType (parseLiveType (COLUMN_TYPE live)) (parseType definition)) NarrowsType
  ++ if_lost (match liveSet, nextSet with
              | Some l, Some n => negb (is_empty n) && negb (eqs n l) && charset_narrows l n
              | _, _ => false
              end) ChangesCharset
  ++ if_lost (match liveSet, nextSet, parseType definition,
                    collationKey (COLLATION_NAME live), collationKey (TABLE_COLLATION live) with
              | Some _, (None | Some []), Some t, Some c, Some tc => member (ct_name t) TEXTUAL && negb (eqs c tc)
              | _, _, _, _, _ => false
              end) OmitsCharset.

(** ** The values of a type *)

Definition INT_BITS : list (jstr * Z) := Eval vm_compute in
  table_of [("tinyint", 8); ("smallint", 16); ("mediumint", 24); ("int", 32); ("integer", 32); ("bigint", 64)]%string.

Definition in_int (bits : Z) (unsigned : bool) (z : Z) : Prop :=
  if unsigned then 0 <= z < 2 ^ bits else - 2 ^ (bits - 1) <= z < 2 ^ (bits - 1).

(** DECIMAL(p, s) holds [k / 10 ^ s] for every [k] of [p] digits. *)
Definition in_decimal (p s : Z) (unsigned : bool) (q : Q) : Prop :=
  exists k, Z.abs k < 10 ^ p /\ (unsigned = true -> 0 <= k) /\ (q * inject_Z (10 ^ s) == inject_Z k)%Q.

(** The number is this integer. *)
Definition value (n : num) (z : Z) : Prop := exists q, n = Fin q /\ (q == Qz z)%Q.

(** DECIMAL with the arguments the server takes. *)
Definition decimal_shape (t : column_type) (p s : Z) : Prop :=
  ct_name t = js "decimal" /\ value (decimalArgs (ct_args t)).1 p /\ value (decimalArgs (ct_args t)).2 s
  /\ 0 <= s <= 38 /\ s <= p <= 65.

Definition int_shape (t : column_type) (bits : Z) : Prop := assoc (ct_name t) INT_BITS = Some bits.

(** The type is one of these, and the value is one of its values. *)
Definition holds (t : column_type) (q : Q) : Prop :=
  (exists bits z, int_shape t bits /\ in_int bits (ct_unsigned t) z /\ (q == inject_Z z)%Q)
  \/ exists p s, decimal_shape t p s /\ in_decimal p s (ct_unsigned t) q.

(** ** Integers *)

Lemma assoc_elem {A} k (l : list (jstr * A)) v : assoc k l = Some v -> (k, v) ∈ l.
Proof.
  induction l as [|[x a] l IH]; [done|]. simpl. destruct (eqs x k) eqn:E.
  - intros [= <-]. apply eqs_true in E as ->. apply list_elem_of_here.
  - intros H. by apply list_elem_of_further, IH.
Qed.

(** A name of the table, case by case. *)
Ltac each_name H :=
  apply assoc_elem in H; unfold INT_BITS in H;
  repeat (apply elem_of_cons in H as [H|H]; [injection H as -> ->|]); [..|by apply elem_of_nil in H].

Lemma int_narrows_spec ln la lu nn na nu lb nb :
  assoc ln INT_BITS = Some lb -> assoc nn INT_BITS = Some nb ->
  let live := ColumnType ln la lu in
  let next := ColumnType nn na nu in
  narrows live next = false /\ drops_sign live next = false
  <-> forall z, in_int lb lu z -> in_int nb nu z.
Proof.
  intros Hl Hn.
  assert (Hlo : forall b u, 0 < b -> in_int b u (if u then 0 else - 2 ^ (b - 1))).
  { intros b u Hb. pose proof (Z.pow_pos_nonneg 2 b). pose proof (Z.pow_pos_nonneg 2 (b - 1)).
    unfold in_int. destruct u; lia. }
  assert (Hhi : forall b u, 0 < b -> in_int b u (if u then 2 ^ b - 1 else 2 ^ (b - 1) - 1)).
  { intros b u Hb. pose proof (Z.pow_pos_nonneg 2 b). pose proof (Z.pow_pos_nonneg 2 (b - 1)).
    unfold in_int. destruct u; lia. }
  assert (Hpos : 0 < lb) by (clear -Hl; each_name Hl; lia).
  split.
  - intros [H1 H2]. revert H1 H2. clear Hlo Hhi Hpos.
    each_name Hl; each_name Hn; destruct lu, nu; intros H1 H2;
      first [discriminate H2|vm_compute in H1; discriminate H1|unfold in_int; intros z; lia].
  - intros H. pose proof (H _ (Hlo lb lu Hpos)) as H1. pose proof (H _ (Hhi lb lu Hpos)) as H2.
    clear H Hlo Hhi Hpos.
    each_name Hl; each_name Hn; destruct lu, nu; unfold in_int in H1, H2;
      first [split; vm_compute; reflexivity|exfalso; lia].
Qed.

(** ** Decimals *)

Lemma value_sub n m a b :
  value n a -> value m b -> Z.abs (a - b) <= MAX_SAFE_INTEGER -> value (num_sub n m) (a - b).
Proof.
  intros (x & -> & Ex) (y & -> & Ey) Hs. cbn [num_sub].
  assert (E : Qred (x - y) = Qred (Qz (a - b))).
  { apply Qred_complete. rewrite Ex, Ey. unfold Qeq, Qminus, Qplus, Qopp, Qz. simpl. lia. }
  rewrite E. unfold round_binary64. rewrite (Qred_complete _ _ (Qred_correct _)).
  change (value (round_binary64 (Qz (a - b))) (a - b)).
  apply round_binary64_small in Hs. destruct (round_binary64 (Qz (a - b))) as [| |q]; [done..|].
  exists q. split; [done|]. unfold safe_integer, integer_of in Hs. destruct q as [k d]. cbn [Qnum Qden] in Hs.
  revert Hs. destruct (Z.eqb_spec (k mod Zpos d) 0) as [Em|]; [|done].
  case_match; [|done]. intros [= E']. unfold Qeq, Qz. cbn [Qnum Qden]. rewrite <- E'.
  rewrite Z.mul_1_r, Z.mul_comm. apply Z_div_exact_2; [done|lia] || (apply Z_div_exact_full_2; lia).
Qed.

Lemma value_lt n m a b : value n a -> value m b -> num_lt n m = (a <? b).
Proof.
  intros (x & -> & Ex) (y & -> & Ey). cbn [num_lt]. rewrite <- Qgt_Qz. unfold Qgt. by rewrite Ex, Ey.
Qed.

Lemma value_le n m a b : value n a -> value m b -> num_le n m = (a <=? b).
Proof.
  intros Hn Hm. assert (E : num_le n m = negb (num_lt m n))
    by (destruct Hn as (? & -> & _), Hm as (? & -> & _); done).
  rewrite E, (value_lt _ _ _ _ Hm Hn). symmetry. apply Z.leb_antisym.
Qed.

(** More digits on both sides of the point hold every value there was. *)
Lemma in_decimal_widen p s p' s' u u' q :
  0 <= s <= s' -> p - s <= p' - s' -> s <= p -> (u' = true -> u = true) ->
  in_decimal p s u q -> in_decimal p' s' u' q.
Proof.
  intros Hs Hp Hsp Hu (k & Hk & Hpos & E). exists (k * 10 ^ (s' - s)).
  assert (Hx : 0 < 10 ^ (s' - s)) by (apply Z.pow_pos_nonneg; lia). split_and!.
  - rewrite Z.abs_mul, (Z.abs_eq (10 ^ _)) by lia.
    apply (Z.lt_le_trans _ (10 ^ p * 10 ^ (s' - s))); [by apply Z.mul_lt_mono_pos_r|].
    rewrite <- Z.pow_add_r by lia. apply Z.pow_le_mono_r; lia.
  - intros H%Hu%Hpos. lia.
  - replace (10 ^ s') with (10 ^ s * 10 ^ (s' - s)) by (rewrite <- Z.pow_add_r by lia; f_equal; lia).
    by rewrite !inject_Z_mult, Qmult_assoc, E.
Qed.

(** An integer is a decimal without places. *)
Lemma in_decimal_int z p u q :
  Z.abs z < 10 ^ p -> (u = true -> 0 <= z) -> (q == inject_Z z)%Q -> in_decimal p 0 u q.
Proof. intros Hz Hu E. exists z. split_and!; [done..|]. rewrite E. apply Qmult_1_r. Qed.

Lemma narrows_int_decimal ln la lu na nu bits :
  assoc ln INT_BITS = Some bits ->
  let live := ColumnType ln la lu in
  let next := ColumnType (js "decimal") na nu in
  narrows live next = negb match assoc ln INT_DIGITS with
                           | Some d => num_le (numZ (if lu then d.2 else d.1))
                                         (num_sub (decimalArgs na).1 (decimalArgs na).2)
                                       && negb (drops_sign live next)
                           | None => false
                           end.
Proof.
  intros Hl. destruct (decimalArgs na) as [n m] eqn:Ea.
  each_name Hl; unfold narrows, widensAcross; cbn [ct_args]; by rewrite Ea.
Qed.

Lemma int_decimal_widens live next bits p s :
  int_shape live bits -> decimal_shape next p s -> narrows live next = false ->
  drops_sign live next = false ->
  forall z, in_int bits (ct_unsigned live) z ->
  Z.abs z < 10 ^ (p - s) /\ (ct_unsigned next = true -> 0 <= z).
Proof.
  destruct live as [ln la lu], next as [nn na nu]. unfold int_shape, decimal_shape. cbn [ct_name ct_args ct_unsigned].
  intros Hl (-> & Ep & Es & Hs & Hp) Hn Hd z. destruct (decimalArgs na) as [n m] eqn:Ea.
  cbn [fst snd] in Ep, Es.
  rewrite (narrows_int_decimal _ _ _ _ _ _ Hl) in Hn. rewrite Ea in Hn. cbn [fst snd] in Hn.
  assert (Hw : exists d, assoc ln INT_DIGITS = Some d /\ (if lu then d.2 else d.1) <= p - s).
  { destruct (assoc ln INT_DIGITS) as [d|]; [|done]. exists d. split; [done|].
    apply negb_false_iff, andb_true_iff in Hn as [Hn _].
    rewrite (value_le _ _ (if lu then d.2 else d.1) (p - s)) in Hn;
      [by apply Z.leb_le|by eexists|apply value_sub; [done..|unfold MAX_SAFE_INTEGER; lia]]. }
  destruct Hw as (d & Ed & Hw). intros Hz. split.
  - apply (Z.lt_le_trans _ (10 ^ (if lu then d.2 else d.1)));
      [|apply Z.pow_le_mono_r; [lia|done]]. clear -Hl Ed Hz.
    each_name Hl; vm_compute in Ed; injection Ed as <-; destruct lu; unfold in_int in Hz; cbn [fst snd]; lia.
  - intros ->. destruct lu; [|done]. unfold in_int in Hz. lia.
Qed.

Lemma decimal_widens live next p s p' s' :
  decimal_shape live p s -> decimal_shape next p' s' -> narrows live next = false ->
  s <= s' /\ p - s <= p' - s'.
Proof.
  destruct live as [ln la lu], next as [nn na nu]. unfold decimal_shape. cbn [ct_name ct_args].
  intros (-> & Va & Wa & Hs & Hp) (-> & Vb & Wb & Hs' & Hp') H.
  destruct (decimalArgs la) as [lp ls] eqn:Ea. destruct (decimalArgs na) as [np ns] eqn:Eb.
  cbn [fst snd] in *.
  change (narrowedPrecision (ColumnType (js "decimal") la lu) (ColumnType (js "decimal") na nu) = false) in H.
  unfold narrowedPrecision in H. cbn [ct_name ct_args] in H. rewrite eqs_refl, Ea, Eb in H.
  rewrite (value_lt ns ls s' s Wb Wa), (value_lt _ _ (p' - s') (p - s)) in H
    by (apply value_sub; [done..|unfold MAX_SAFE_INTEGER; lia]).
  b2p. lia.
Qed.

Definition exact_type (t : column_type) : Prop :=
  (exists bits, int_shape t bits) \/ exists p s, decimal_shape t p s.

Lemma int_no_decimal t bits p s : int_shape t bits -> decimal_shape t p s -> False.
Proof. unfold int_shape. intros Hb (E & _). rewrite E in Hb. by vm_compute in Hb. Qed.

Lemma decimal_to_int_narrows live next bits p s :
  decimal_shape live p s -> int_shape next bits -> narrows live next = true.
Proof.
  destruct live as [ln la lu], next as [nn na nu]. unfold decimal_shape, int_shape. cbn [ct_name ct_args].
  intros (-> & _) Hn. by each_name Hn.
Qed.

Lemma narrows_keeps live next :
  exact_type next -> narrows live next = false -> drops_sign live next = false ->
  forall q, holds live q -> holds next q.
Proof.
  intros Hx Hn Hd q [(bits & z & Hl & Hz & E)|(p & s & Hl & Hq)].
  - destruct Hx as [[nbits Hs]|(p & s & Hs)].
    + left. exists nbits, z. split_and!; [done| |done].
      destruct live as [ln la lu], next as [nn na nu].
      apply (proj1 (int_narrows_spec ln la lu nn na nu bits nbits Hl Hs) (conj Hn Hd) z Hz).
    + right. exists p, s. split; [done|].
      destruct (int_decimal_widens _ _ _ _ _ Hl Hs Hn Hd z Hz) as [Hb Hu].
      destruct Hs as (_ & _ & _ & Hs & Hp).
      apply (in_decimal_widen (p - s) 0 p s (ct_unsigned next) (ct_unsigned next)); [lia..|done|].
      by apply in_decimal_int with z.
  - destruct Hx as [[nbits Hs]|(p' & s' & Hs)].
    + by rewrite (decimal_to_int_narrows _ _ _ _ _ Hl Hs) in Hn.
    + right. exists p', s'. split; [done|]. destruct (decimal_widens _ _ _ _ _ _ Hl Hs Hn).
      destruct Hl as (_ & _ & _ & Hls & Hlp). apply (in_decimal_widen p s _ _ (ct_unsigned live)); [lia..| |done].
      intros Hu. unfold drops_sign in Hd. rewrite Hu in Hd. by apply negb_false_iff in Hd.
Qed.

(** C21: a MODIFY the type check lets through loses no number: where the new type is an
    integer type or an exact DECIMAL, narrowedType answers that nothing narrows and the sign
    is kept, the new column holds every value the live one holds.  Between two integer types
    the check and the sign test are exact: they pass when, and only when, the range of the
    live column lies within the range of the new one. *)
Theorem kept_type_keeps_values rawLive rawNext :
  let live := canonicalType rawLive in
  let next := canonicalType rawNext in
  (exact_type next -> narrowedType (Some rawLive) (Some rawNext) = false ->
   drops_sign live next = false -> forall q, holds live q -> holds next q)
  /\ forall lb nb, int_shape live lb -> int_shape next nb ->
     narrowedType (Some rawLive) (Some rawNext) = false /\ drops_sign live next = false
     <-> forall z, in_int lb (ct_unsigned live) z -> in_int nb (ct_unsigned next) z.
Proof.
  intros live next. split.
  - intros Hx Hn Hd. by apply narrows_keeps.
  - intros lb nb Hl Hn. unfold narrowedType. fold live next.
    destruct live as [ln la lu], next as [nn na nu]. by apply (int_narrows_spec ln la lu nn na nu lb nb).
Qed.

Definition type_of (s : String.string) : column_type := default (ColumnType [] None false) (parseType (js s)).

Lemma kept_type_keeps_values_witness :
  narrowedType (Some (type_of "smallint(5) unsigned")) (Some (type_of "DECIMAL(7, 2) UNSIGNED NOT NULL")) = false
  /\ holds (canonicalType (type_of "DECIMAL(7, 2) UNSIGNED NOT NULL")) (inject_Z 65535).
Proof.
  set (live := type_of "smallint(5) unsigned"). set (next := type_of "DECIMAL(7, 2) UNSIGNED NOT NULL").
  assert (Hs : decimal_shape (canonicalType next) 7 2).
  { split; [vm_compute; reflexivity|]. split; [|split; [|lia]].
    - eexists. split; vm_compute; reflexivity.
    - eexists. split; vm_compute; reflexivity. }
  assert (Hn : narrowedType (Some live) (Some next) = false) by (vm_compute; reflexivity).
  split; [exact Hn|].
  apply (proj1 (kept_type_keeps_values live next)).
  - right. exists 7, 2. exact Hs.
  - exact Hn.
  - vm_compute. reflexivity.
  - left. exists 16, 65535. split; [vm_compute; reflexivity|]. split; [|reflexivity].
    vm_compute. split; [discriminate|reflexivity].
Defined.

(** The sign of an integer may go in a type of a higher rank. *)
Example sign_dropped_passes :
  narrowedType (Some (type_of "int(11)")) (Some (type_of "BIGINT UNSIGNED")) = false
  /\ holds (type_of "int(11)") (inject_Z (-1)) /\ ~ holds (type_of "BIGINT UNSIGNED") (inject_Z (-1)).
Proof.
  split_and!; [by vm_compute| |].
  - left. exists 32, (-1). split_and!; [by vm_compute|vm_compute; split; [discriminate|done]|done].
  - intros [(bits & z & Hb & Hz & E)|(p & s & (H & _) & _)]; [|by vm_compute in H].
    assert (z = -1) as -> by (unfold Qeq in E; simpl in E; lia).
    replace (ct_unsigned (type_of "BIGINT UNSIGNED")) with true in Hz by (vm_compute; reflexivity).
    unfold in_int in Hz. lia.
Qed.
