(* ===== verification/KeyGuards.v ===== *)
(** * The key guards

    What an auto file may do to the keys src/sql declares:
    src/src/db/migration_guards/declared_key_drop.js (it drops none it does not add again)
    and src/src/db/migration_guards/key_witness.js (it writes nothing that counts on a
    unique key the live table does not have).

    assertNoDeclaredKeyDrop against its rule: a file may drop a key src/sql declares only if
    it adds the key again afterwards. *)
From S2P Require Import Prelude JsNum SqlText Regex SqlRules LiveSchema.
#[local] Open Scope Z_scope.

(** ** Names *)

Definition STANDALONE_DROP : regex :=
  rx_i "^DROP\s+(?:(?:ONLINE|OFFLINE)\s+)?INDEX\s+(?:IF\s+EXISTS\s+)?(`[^`]+`|[A-Za-z_$][\w$]*)\s+ON\s+((?:`[^`]+`|[\w$]+)(?:\s*\.\s*(?:`[^`]+`|[\w$]+))?)".
Definition STANDALONE_UNIQUE : regex :=
  rx_i "^CREATE\s+UNIQUE\s+INDEX\s+(?:IF\s+NOT\s+EXISTS\s+)?(`[^`]+`|[A-Za-z_$][\w$]*)\s+ON\s+((?:`[^`]+`|[\w$]+)(?:\s*\.\s*(?:`[^`]+`|[\w$]+))?)".
Definition SPEC_DROP_KEY : regex :=
  rx_i "^DROP\s+(?:INDEX|KEY|CONSTRAINT)\s+(?:IF\s+EXISTS\s+)?(`[^`]+`|[A-Za-z_$][\w$]*)".
Definition UNIQUE_KEY : regex :=
  rx_i "^(?:CONSTRAINT\s+(`[^`]+`|[A-Za-z_$][\w$]*)\s+)?UNIQUE\b(?:\s+(?:INDEX|KEY))?(?:\s+IF\s+NOT\s+EXISTS)?\s*(?:(`[^`]+`|[A-Za-z_$][\w$]*)\s*)?(?:USING\s+\w+\s*)?\(\s*(`[^`]+`|[A-Za-z_$][\w$]*)".
Definition PRIMARY_KEY : regex :=
  rx_i "^(?:CONSTRAINT(?:\s+(`[^`]+`|[A-Za-z_$][\w$]*))?\s+)?PRIMARY\s+KEY\b".

Definition ident (name : jstr) : jstr := lower (unquote (trim name)).
Definition tableOf (qualified : jstr) : jstr := ident (last_part qualified).

(** Backtick identifiers are kept. *)
Definition STRINGS : regex := rx "'(?:[^'\\]|\\.|'')*'|\x22(?:[^\x22\\]|\\.|\x22\x22)*\x22".

Definition blankStrings (s : jstr) : jstr :=
  replace_all STRINGS (fun m => take 1 (matched m) ++ take 1 (matched m)) s.

Definition syntax (stmt : jstr) : jstr := trim (blankStrings (stripBlockComments stmt)).

(** ** Declared keys *)

(** No escapes here: the strings are blanked by now. *)
Fixpoint parts_from (quote : option Z) (depth : Z) (s cur : jstr) : list jstr :=
  match s with
  | [] => if is_empty (trim cur) then [] else [trim cur]
  | ch :: rest =>
      match quote with
      | Some q => parts_from (if ch =? q then None else quote) depth rest (cur ++ [ch])
      | None =>
          if is_quote ch then parts_from (Some ch) depth rest (cur ++ [ch])
          else
            let depth' := if ch =? 40 then depth + 1 else if ch =? 41 then depth - 1 else depth in
            if (ch =? 44) && (depth' =? 0) then trim cur :: parts_from None depth' rest []
            else parts_from None depth' rest (cur ++ [ch])
      end
  end.

Definition topLevelParts (body : jstr) : list jstr := parts_from None 0 body [].

(** What stands before the parenthesis that closes the [depth] open ones; [None] where the
    text ends first. *)
Fixpoint up_to_close (depth : nat) (s acc : jstr) : option jstr :=
  match s with
  | [] => None
  | c :: s' =>
      if c =? 40 then up_to_close (S depth) s' (acc ++ [c])
      else if c =? 41 then
        match depth with
        | S (S d) => up_to_close (S d) s' (acc ++ [c])
        | _ => Some acc
        end
      else up_to_close depth s' (acc ++ [c])
  end.

Definition CREATE_TABLE : regex :=
  rx_i "CREATE\s+TABLE\s+(?:IF\s+NOT\s+EXISTS\s+)?((?:`[^`]+`|[\w$]+)(?:\s*\.\s*(?:`[^`]+`|[\w$]+))?)\s*\(".

Definition createTableBody (sql table : jstr) : option jstr :=
  m ← find (fun m => eqs (tableOf (text (group 1 m))) table) (exec_all CREATE_TABLE sql);
  up_to_close 1 (post m) [].

Inductive key_kind := UNIQUE | PRIMARY.
#[export] Instance key_kind_eq : EqDecision key_kind.
Proof. solve_decision. Defined.

(** [a || b] on texts that may be undefined. *)
Definition or_text (a b : option jstr) : option jstr :=
  match a with None | Some [] => b | _ => a end.

Definition keyDefinition (def : jstr) : option (jstr * key_kind) :=
  let t := trim (replace_first (rx_i "^ADD\s+") (fun _ => []) def) in
  if test PRIMARY_KEY t then Some (js "primary", PRIMARY)
  else
    u ← exec UNIQUE_KEY t;
    Some (ident (text (or_text (or_text (group 2 u) (group 1 u)) (group 3 u))), UNIQUE).

Definition part_key (keys : gmap jstr key_kind) (part : jstr) : gmap jstr key_kind :=
  match keyDefinition part with
  | Some (name, kind) => <[name := kind]> keys
  | None =>
      if test (rx_i "^(?:KEY|INDEX|FULLTEXT|SPATIAL|CONSTRAINT|FOREIGN|CHECK)\b") part then keys
      else
        match exec (rx "^(`[^`]+`|[\w$]+)") part with
        | None => keys
        | Some column =>
            if test (rx_i "\bPRIMARY\s+KEY\b") part then <[js "primary" := PRIMARY]> keys
            else if test (rx_i "\bUNIQUE\b") part then <[ident (text (group 1 column)) := UNIQUE]> keys
            else keys
        end
  end.

Definition standalone_key (table : jstr) (keys : gmap jstr key_kind) (stmt : jstr)
  : gmap jstr key_kind :=
  match exec STANDALONE_UNIQUE (trim stmt) with
  | Some m => if eqs (tableOf (text (group 2 m))) table
              then <[ident (text (group 1 m)) := UNIQUE]> keys else keys
  | None => keys
  end.

(** The text of src/sql, when there is one. *)
Definition declaredKeys (sql : option jstr) (table : jstr) : gmap jstr key_kind :=
  match sql with
  | None | Some [] => ∅
  | Some s =>
      let t := blankStrings (stripBlockComments (replace_all (rx "--[^\n]*") (fun _ => []) s)) in
      let parts := match createTableBody t table with
                   | None | Some [] => []
                   | Some body => topLevelParts body
                   end in
      foldl (standalone_key table) (foldl part_key ∅ parts) (split_on semicolon t)
  end.

(** ** Drops and additions *)

Inductive key_event :=
  | Drop (table name : jstr)
  | Add (table name : jstr) (kind : key_kind)
  | Unread (txt : jstr).
#[export] Instance key_event_eq : EqDecision key_event.
Proof. solve_decision. Defined.

Definition spec_event (table raw : jstr) : list key_event :=
  let spec := trim raw in
  if test (rx_i "^DROP\s+PRIMARY\s+KEY\b") spec then [Drop table (js "primary")]
  else
    match exec SPEC_DROP_KEY spec with
    | Some dropped => [Drop table (ident (text (group 1 dropped)))]
    | None =>
        if test (rx_i "^DROP\s+(?:INDEX|KEY|PRIMARY|CONSTRAINT)\b") spec then [Unread spec]
        else if test (rx_i "^ADD\b") spec then
          match keyDefinition spec with
          | Some (name, kind) => [Add table name kind]
          | None => []
          end
        else []
    end.

Definition keyEvents (stmt : jstr) : list key_event :=
  let t := syntax stmt in
  match exec STANDALONE_DROP t with
  | Some drop => [Drop (tableOf (text (group 2 drop))) (ident (text (group 1 drop)))]
  | None =>
      match exec STANDALONE_UNIQUE t with
      | Some create => [Add (tableOf (text (group 2 create))) (ident (text (group 1 create))) UNIQUE]
      | None =>
          if test (rx_i "^DROP\s+(?:(?:ONLINE|OFFLINE)\s+)?INDEX\b") t then [Unread t]
          else if negb (test (rx_i "^ALTER\b") t) then []
          else
            match alterSpecs t with
            | None => if test (rx_i "\bDROP\s+(?:INDEX|KEY|PRIMARY|CONSTRAINT)\b") t
                      then [Unread t] else []
            | Some parsed => concat (map (spec_event (ident (as_table parsed))) (specs parsed))
            end
      end
  end.

(** Reading src/sql/<table>.sql. *)
Inductive read_answer := Absent | Unreadable | Content (s : jstr).

Inductive key_verdict :=
  | KeysKept
  | KeyUnread (txt : jstr)
  | KeyDropped (table name : jstr) (kind : key_kind)
  | SourceUnreadable (table : jstr).

(** The declared keys the file has dropped and not added again, by table and name. *)
Abbreviation open_drops := (list (jstr * jstr * key_kind)).

Definition is_open (table name : jstr) (e : jstr * jstr * key_kind) : bool :=
  eqs e.1.1 table && eqs e.1.2 name.

(** A Map keeps the place of a key that is set again. *)
Definition set_open (table name : jstr) (kind : key_kind) (open : open_drops) : open_drops :=
  if existsb (is_open table name) open
  then map (fun e => if is_open table name e then (table, name, kind) else e) open
  else open ++ [(table, name, kind)].

Definition file_read (sqlFor : jstr -> read_answer) (table : jstr) : read_answer :=
  if test (rx "^[\w$]+$") table then sqlFor table else Absent.

Fixpoint follow_events (sqlFor : jstr -> read_answer) (evs : list key_event) (open : open_drops)
  : key_verdict + open_drops :=
  match evs with
  | [] => inr open
  | Unread t :: _ => inl (KeyUnread t)
  | Drop table name :: evs' =>
      match file_read sqlFor table with
      | Unreadable => inl (SourceUnreadable table)
      | answer =>
          let sql := match answer with Content s => Some s | _ => None end in
          follow_events sqlFor evs'
            (match declaredKeys sql table !! name with
             | Some kind => set_open table name kind open
             | None => open
             end)
      end
  | Add table name kind :: evs' =>
      match file_read sqlFor table with
      | Unreadable => inl (SourceUnreadable table)
      | _ =>
          follow_events sqlFor evs'
            (if existsb (fun e => is_open table name e && bool_decide (e.2 = kind)) open
             then List.filter (fun e => negb (is_open table name e)) open else open)
      end
  end.

Definition assertNoDeclaredKeyDrop (statements : list jstr) (sqlFor : jstr -> read_answer)
  : key_verdict :=
  match follow_events sqlFor (concat (map keyEvents statements)) [] with
  | inl v => v
  | inr [] => KeysKept
  | inr ((table, name, kind) :: _) => KeyDropped table name kind
  end.

(** ** Key-dependent writes *)

Definition INSERT_HEAD : regex :=
  rx_i "^\s*INSERT\s+((?:(?:LOW_PRIORITY|DELAYED|HIGH_PRIORITY|IGNORE)\s+)*)(?:INTO\s+)?((?:`[^`]+`|[A-Za-z_$][\w$]*)(?:\s*\.\s*(?:`[^`]+`|[A-Za-z_$][\w$]*))?)\b".
Definition REPLACE_HEAD : regex :=
  rx_i "^\s*REPLACE\s+(?:(?:LOW_PRIORITY|DELAYED)\s+)*(?:INTO\s+)?((?:`[^`]+`|[A-Za-z_$][\w$]*)(?:\s*\.\s*(?:`[^`]+`|[A-Za-z_$][\w$]*))?)\b".
Definition CREATE_HEAD : regex :=
  rx_i "^\s*CREATE\s+(?:OR\s+REPLACE\s+)?(?:TEMPORARY\s+)?TABLE\s+(?:IF\s+NOT\s+EXISTS\s+)?((?:`[^`]+`|[A-Za-z_$][\w$]*)(?:\s*\.\s*(?:`[^`]+`|[A-Za-z_$][\w$]*))?)\b".

Definition includes (needle s : jstr) : bool := bool_decide (is_Some (indexOf needle s)).

(** A token the source does not hold; a longer one than the source is none of it. *)
Fixpoint fresh_token (n : nat) (source token : jstr) : jstr :=
  match n with
  | O => token
  | S n' => if includes token source then fresh_token n' source (36 :: token) else token
  end.

Definition first_token (size : nat) : jstr :=
  js "$keyWitnessQuoted" ++ dec_digits (Z.of_nat size) ++ js "x".

(** The matches of the backtick identifiers become tokens, which [identifiers] name. *)
Fixpoint tokenize (source : jstr) (from : nat) (l : list found) (identifiers : list (jstr * jstr))
  : jstr * list (jstr * jstr) :=
  match l with
  | [] => (drop from source, identifiers)
  | m :: l' =>
      let token := fresh_token (length source) source (first_token (length identifiers)) in
      let '(rest, ids) := tokenize source (length (pre m) + length (matched m)) l'
                            (identifiers ++ [(token, text (group 1 m))]) in
      (take (length (pre m) - from) (drop from source) ++ token ++ rest, ids)
  end.

Definition syntaxText (statement : jstr) : jstr * list (jstr * jstr) :=
  let source := stripBlockComments statement in
  let '(tokens, identifiers) := tokenize source 0 (exec_all (rx "`([^`]*)`") source) [] in
  (replace_all STRINGS (fun m => replicate (length (matched m)) 32) (blankLiterals tokens),
   identifiers).

Definition tableName (qualified : jstr) (identifiers : list (jstr * jstr)) : jstr :=
  let name := unquote (trim (last_part qualified)) in
  lower (match assoc name identifiers with None | Some [] => name | Some id => id end).

Definition keyDependentTarget (statement : jstr) : option jstr :=
  let '(t, identifiers) := syntaxText statement in
  let replace := m ← exec REPLACE_HEAD t; Some (tableName (text (group 1 m)) identifiers) in
  match exec INSERT_HEAD t with
  | Some insert =>
      if test (rx_i "\bIGNORE\b") (text (group 1 insert))
         || test (rx_i "\bON\s+DUPLICATE\s+KEY\s+UPDATE\b") t
      then Some (tableName (text (group 2 insert)) identifiers)
      else replace
  | None => replace
  end.

Definition createdTarget (statement : jstr) : option jstr :=
  let '(t, identifiers) := syntaxText statement in
  m ← exec CREATE_HEAD t; Some (tableName (text (group 1 m)) identifiers).

(** An empty name is falsy. *)
Definition named (target : option jstr) : option jstr :=
  match target with Some [] => None | t => t end.

Fixpoint targets_from (statements : list jstr) (created seen : list jstr) : list jstr :=
  match statements with
  | [] => []
  | statement :: rest =>
      let created' := match named (createdTarget statement) with
                      | Some made => made :: created
                      | None => created
                      end in
      match named (keyDependentTarget statement) with
      | Some target =>
          if negb (member target created') && negb (member target seen)
          then target :: targets_from rest created' (target :: seen)
          else targets_from rest created' seen
      | None => targets_from rest created' seen
      end
  end.

Definition targetsNeedingWitness (statements : list jstr) : list jstr :=
  targets_from statements [] [].

(** A row of information_schema.STATISTICS. *)
Record statistics_row := StatisticsRow {
  INDEX_NAME : option jstr; NON_UNIQUE : option Z; COLUMN_NAME : option jstr; SEQ_IN_INDEX : Z
}.

Record declared_index := DeclaredIndex { index_name : jstr; index_unique : bool; index_columns : list jstr }.

(** Rows of a unique index, in the order of their sequence; rows of one index with one
    sequence number keep the order they came in. *)
Fixpoint insert_row (r : Z * jstr) (l : list (Z * jstr)) : list (Z * jstr) :=
  match l with
  | [] => [r]
  | x :: l' => if r.1 <? x.1 then r :: l else x :: insert_row r l'
  end.

Definition columns_of (name : jstr) (rows : list statistics_row) : list jstr :=
  map snd (foldl (fun l r =>
    match INDEX_NAME r, COLUMN_NAME r with
    | Some n, Some c =>
        if eqs n name && bool_decide (NON_UNIQUE r = Some 0) then insert_row (SEQ_IN_INDEX r, lower c) l
        else l
    | _, _ => l
    end) [] rows).

(** [Number(null)] is 0, but a missing NON_UNIQUE is undefined. *)
Definition liveUniqueColumnSets (rows : list statistics_row) : list (list jstr) :=
  concat (map (fun r =>
    match INDEX_NAME r, COLUMN_NAME r with
    | Some n, Some _ => if bool_decide (NON_UNIQUE r = Some 0) then [columns_of n rows] else []
    | _, _ => []
    end) rows).

(** Every declared unique index is live, column by column. *)
Definition witnessed (declared : list declared_index) (rows : list statistics_row) : bool :=
  let live := map (join_with 44) (liveUniqueColumnSets rows) in
  forallb (fun i =>
    let columns := map lower (index_columns i) in
    negb (bool_decide (columns = [])) && member (join_with 44 columns) live) declared.

Section Guard.
Context (sqlFor : jstr -> read_answer).

(** What src/sql declares of a table, where it can be read. *)
Definition declared (table : jstr) : gmap jstr key_kind :=
  declaredKeys (match file_read sqlFor table with Content s => Some s | _ => None end) table.

(** The event can be read, and so can the file of its table. *)
Definition readable_event (e : key_event) : Prop :=
  match e with
  | Unread _ => False
  | Drop table _ | Add table _ _ => file_read sqlFor table <> Unreadable
  end.

(** Every drop of a declared key has an addition of the same name and kind after it. *)
Definition comes_back (evs : list key_event) : Prop :=
  forall before table name after kind,
  evs = before ++ Drop table name :: after -> declared table !! name = Some kind ->
  Add table name kind ∈ after.

Definition of_declared (open : open_drops) : Prop :=
  forall t n k, (t, n, k) ∈ open -> declared t !! n = Some k.

Lemma is_open_spec t n e : is_open t n e = true <-> e.1 = (t, n).
Proof.
  destruct e as [[t' n'] k]. unfold is_open. simpl.
  rewrite andb_true_iff, !eqs_true. naive_solver.
Qed.

Lemma elem_set_open t n k open t' n' k' :
  (t', n', k') ∈ set_open t n k open
  <-> (t', n', k') = (t, n, k) \/ (t', n') <> (t, n) /\ (t', n', k') ∈ open.
Proof.
  unfold set_open. destruct (existsb (is_open t n) open) eqn:E.
  - apply existsb_exists in E as (e & He & Ho). rewrite <- list_elem_of_In in He.
    rewrite list_elem_of_fmap. split.
    + intros (e' & Ee & He'). destruct (is_open t n e') eqn:Ho'; [by left|right].
      rewrite <- Ee in *. split; [|done]. intros Eq. apply not_true_iff_false in Ho'.
      apply Ho', is_open_spec. done.
    + intros [->|[Hne Hin]].
      * exists e. by rewrite Ho.
      * exists (t', n', k'). split; [|done]. destruct (is_open t n (t', n', k')) eqn:Ho'; [|done].
        by apply is_open_spec in Ho'.
  - rewrite elem_of_app, list_elem_of_singleton. split; [intros [H|H]|intros [H|[_ H]]]; [|by left|by right|by left].
    right. split; [|done]. intros Eq. apply not_true_iff_false in E. apply E, existsb_exists.
    exists (t', n', k'). split; [by apply list_elem_of_In|by apply is_open_spec].
Qed.

Definition close_open (t n : jstr) (k : key_kind) (open : open_drops) : open_drops :=
  if existsb (fun e => is_open t n e && bool_decide (e.2 = k)) open
  then List.filter (fun e => negb (is_open t n e)) open else open.

Lemma elem_close_open t n k open t' n' k' :
  of_declared open ->
  (t', n', k') ∈ close_open t n k open <-> (t', n', k') ∈ open /\ (t', n', k') <> (t, n, k).
Proof.
  intros Hd. unfold close_open. destruct (existsb _ open) eqn:E.
  - apply existsb_exists in E as ([[t0 n0] k0] & He & [Ho Hk]%andb_true_iff).
    rewrite <- list_elem_of_In in He. apply is_open_spec in Ho. b2p. simpl in *. simplify_eq/=.
    rewrite list_elem_of_In, filter_In, <- list_elem_of_In, negb_true_iff, <- not_true_iff_false, is_open_spec.
    split; intros [H1 H2]; (split; [done|]); intros Eq; apply H2; simpl in *; [by simplify_eq|].
    simplify_eq. apply Hd in H1, He. congruence.
  - split; [|by intros [? _]]. intros H. split; [done|]. intros Eq. apply not_true_iff_false in E.
    apply E, existsb_exists. exists (t', n', k'). split; [by apply list_elem_of_In|]. simplify_eq.
    apply andb_true_iff. split; [by apply is_open_spec|by apply bool_decide_eq_true].
Qed.

Lemma follow_drop t n evs open :
  file_read sqlFor t <> Unreadable ->
  follow_events sqlFor (Drop t n :: evs) open =
  follow_events sqlFor evs
    (match declared t !! n with Some k => set_open t n k open | None => open end).
Proof. unfold declared. simpl. by destruct (file_read sqlFor t). Qed.

Lemma follow_add t n k evs open :
  file_read sqlFor t <> Unreadable ->
  follow_events sqlFor (Add t n k :: evs) open = follow_events sqlFor evs (close_open t n k open).
Proof. simpl. by destruct (file_read sqlFor t). Qed.

Lemma readable_or t : file_read sqlFor t = Unreadable \/ file_read sqlFor t <> Unreadable.
Proof. destruct (file_read sqlFor t); [by right|by left|by right]. Qed.

Definition answered (r : key_verdict + open_drops) : option open_drops :=
  match r with inr o => Some o | inl _ => None end.

Lemma follow_reads evs open :
  Forall readable_event evs <-> is_Some (answered (follow_events sqlFor evs open)).
Proof.
  revert open. induction evs as [|e evs IH]; intros open; [split; [by eexists|constructor]|].
  rewrite Forall_cons. destruct e as [t n|t n k|x].
  - destruct (readable_or t) as [E|E].
    + simpl. rewrite E. split; [by intros [[] _]|by intros [? ?]].
    + rewrite follow_drop by done. rewrite <- IH. simpl. naive_solver.
  - destruct (readable_or t) as [E|E].
    + simpl. rewrite E. split; [by intros [[] _]|by intros [? ?]].
    + rewrite follow_add by done. rewrite <- IH. simpl. naive_solver.
  - simpl. split; [by intros [[] _]|by intros [? ?]].
Qed.

Lemma of_declared_set t n k open :
  declared t !! n = Some k -> of_declared open -> of_declared (set_open t n k open).
Proof.
  intros Hk Hd t' n' k' H. apply elem_set_open in H as [H|[_ H]]; [by simplify_eq|by apply Hd].
Qed.

Lemma of_declared_close t n k open : of_declared open -> of_declared (close_open t n k open).
Proof. intros Hd t' n' k' H. apply elem_close_open in H as [H _]; [by apply Hd|done]. Qed.

(** The keys that stay open: open before and not added, or dropped and not added since. *)
Lemma follow_open evs open open' :
  of_declared open -> follow_events sqlFor evs open = inr open' ->
  forall t n k, (t, n, k) ∈ open' <->
    (t, n, k) ∈ open /\ Add t n k ∉ evs
    \/ exists before after, evs = before ++ Drop t n :: after /\ declared t !! n = Some k
                           /\ Add t n k ∉ after.
Proof.
  revert open. induction evs as [|e evs IH]; intros open Hd H t n k.
  { injection H as <-. split; [left; split; [done|by intros ?%elem_of_nil]|].
    intros [[? _]|(b & a & E & _)]; [done|by destruct b]. }
  destruct e as [t0 n0|t0 n0 k0|x]; [| |done].
  - destruct (readable_or t0) as [E|E]; [by simpl in H; rewrite E in H|]. rewrite follow_drop in H by done.
    assert (Hcons : forall P : list key_event -> Prop,
      (exists before after, Drop t0 n0 :: evs = before ++ Drop t n :: after /\ P after)
      <-> (t0, n0) = (t, n) /\ P evs
          \/ exists before after, evs = before ++ Drop t n :: after /\ P after).
    { intros P. split.
      - intros ([|e b] & a & Eq & HP); simplify_eq/=; [by left|right; by eauto].
      - intros [[Eq HP]|(b & a & -> & HP)]; [simplify_eq; by exists [], evs|by exists (Drop t0 n0 :: b), a]. }
    rewrite (Hcons (fun after => declared t !! n = Some k /\ Add t n k ∉ after)).
    rewrite not_elem_of_cons.
    destruct (declared t0 !! n0) as [k0|] eqn:Ek.
    + rewrite (IH _ (of_declared_set _ _ _ _ Ek Hd) H), elem_set_open. split.
      * intros [[[?|[? ?]] ?]|?]; [right; left; by simplify_eq|by left|by right; right].
      * intros [[Hin [_ ?]]|[(? & ? & ?)|?]]; [|left; simplify_eq; by split; [left|]|by right].
        left. split; [|done]. destruct (decide ((t, n) = (t0, n0))) as [?|?]; [|by right].
        left. apply Hd in Hin. by simplify_eq.
    + rewrite (IH _ Hd H). split; [intros [[? ?]|?]; [by left|by right; right]|].
      intros [[? [? ?]]|[(? & ? & ?)|?]]; [by left|by simplify_eq|by right].
  - destruct (readable_or t0) as [E|E]; [by simpl in H; rewrite E in H|]. rewrite follow_add in H by done.
    rewrite (IH _ (of_declared_close _ _ _ _ Hd) H), elem_close_open, not_elem_of_cons by done.
    split.
    + intros [[[? ?] ?]|(b & a & -> & ?)]; [left; split_and!; [done|congruence|done]|right].
      by exists (Add t0 n0 k0 :: b), a.
    + intros [[? [? ?]]|([|e b] & a & Eq & ?)]; simplify_eq/=; [left|right; by eauto].
      split_and!; [done|congruence|done].
Qed.

(** C20: a mode=auto file passes the declared-key guard exactly when each of its key drops
    and additions can be read, together with the src/sql file of its table, and every drop of
    a key that file declares UNIQUE or PRIMARY has an addition of a key of the same table,
    name and kind after it, in a later clause or statement. *)
Theorem key_guard_exact statements :
  assertNoDeclaredKeyDrop statements sqlFor = KeysKept
  <-> Forall readable_event (concat (map keyEvents statements))
      /\ comes_back (concat (map keyEvents statements)).
Proof.
  unfold assertNoDeclaredKeyDrop. set (evs := concat (map keyEvents statements)).
  rewrite (follow_reads evs []). destruct (follow_events sqlFor evs []) as [v|open] eqn:E.
  { split; [|by intros [[? ?] _]]. intros ->. exfalso. clear -E. revert E. generalize (@nil (jstr * jstr * key_kind)).
    induction evs as [|[t n|t n k|x] evs IH]; intros open; [done| | |done].
    - destruct (readable_or t) as [Eu|Eu]; [by simpl; rewrite Eu|]. rewrite follow_drop by done. apply IH.
    - destruct (readable_or t) as [Eu|Eu]; [by simpl; rewrite Eu|]. rewrite follow_add by done. apply IH. }
  assert (Hd : of_declared []) by by intros ? ? ? ?%elem_of_nil.
  pose proof (follow_open _ _ _ Hd E) as Ho. split.
  - destruct open as [|[[? ?] ?] ?]; [|done]. intros _. split; [by eexists|].
    intros b t n a k Eq Hk. destruct (decide (Add t n k ∈ a)) as [|Hn]; [done|].
    exfalso. apply (elem_of_nil (t, n, k)), Ho. right. by exists b, a.
  - intros [_ Hb]. destruct open as [|[[t n] k] open]; [done|]. exfalso.
    destruct (proj1 (Ho t n k) (list_elem_of_here _ _)) as [[H%elem_of_nil _]|(b & a & Eq & Hk & Hn)]; [done|].
    by apply Hn, (Hb b t n a k).
Qed.
End Guard.
