(* ===== verification/MigrationTables.v ===== *)
(** * The tables of the migration runner

    src/src/db/migration_checksum_rebaselines.js, src/src/db/migration_preconditions.js, the
    renames of src/src/db/migration_ledger.js and the contracts the boot asserts
    (src/src/db/migrations.js, src/src/db/database_setup.js), over the catalogue of the
    server: its information_schema.

    The queries are the source's, read as searches of the catalogue.  Its names compare
    without case, and its texts are ASCII. *)
From S2P Require Import Prelude JsNum SqlText Regex SqlRules LiveSchema.
#[local] Open Scope Z_scope.

(** ** Checksums *)

Record rebaseline := Rebaseline { rb_from : list jstr; rb_to : jstr }.

(** MIGRATION_CHECKSUM_REBASELINES *)
Definition MIGRATION_CHECKSUM_REBASELINES : list (jstr * rebaseline) :=
  map (fun e => (js e.1.1, Rebaseline (map js e.1.2) (js e.2)))
  [("2026-06-15-events-data-mediumtext.sql",
    ["c34872de8f381587269d0a408138b9caadb5cbec01660eef034a95a7a039ca42";
     "08cd99f76467f8aa82ffb06df5ff46b67095c5d1fd89dd427b6a085d52a30006"],
    "3790d814dec1ecbf7be78065be82a9f7e4f983c4529620f3c1a7d01f129881e8");
   ("2026-06-17-pubkeys-add-monotonic-id.sql",
    ["84b1c8093344d8a829d724c6e99468bb12c24cb85fe9a248a04e57b6d5769697";
     "1aabdd6da22872473ce26757c357dbbb68240fb5681956adce959778203b9caa"],
    "1d8406192690e5a754ec9430fcd9115e907f34944f340a70b776166a62f83868");
   ("2026-06-13-dispensers-expiration-bigint.sql",
    ["8b163db63932ec7940fc0c4ff83abb6a52d27ab4a192c377ce5195c3ca4b969f";
     "c4d622adc34b3190a7cc43954b4c815a3c79bb6c6b7374be39c16d66454d1549";
     "44901ce7272347e6665ffe29655dbd7b8f3e45ba58b26671e50d07c0c629caef";
     "2e20aceb9a446f03ff8ef7a9fd2cc6dede722c30610de57c0d1ef25a455b4dca"],
    "0e871ed4aea8649d6a5ffe866d78af38ceee37e5cd07d651287cfe1e8c99c8b2");
   ("2026-07-24-pubkeys-widen-uncompressed.sql",
    ["2dccc278c37935e1e5b0fc2b0a8c4514a24d5381936a1d9bc1fc5ce8d8473c43"],
    "156fca3b75b332ef099e8dd5d28624d9ebc26d34e143e37e1f9503b6c0da0c1d");
   ("2026-08-10-action-data-utf8mb4.sql",
    ["027a643d3ff0be087b38889f947fdde2b4d8c696682c3b3642f288553f419068"],
    "0b3b2fefb780da1fb96a0d5518967b67b215676cc1ac02efc08ec1672d9091b2");
   ("2026-06-02-widen-ids-to-bigint.sql",
    ["e508ea3bcc4ea4f8f6fd241d93c678245a0ddcb9e582094fe4ddbb636b66d6d7";
     "82865499dd2ccc48c0a0a016535409a9201b415395f49c70b41c73a3aeda8847";
     "b03b41b6fcabef9c959851ede9b75cc9089cef7c015bdd69cfcea74ad5acea7a"],
    "33423de08d0869d7a81829301668383ee3cb47e7226bff587fcfcbf9fa0c7b1c");
   ("2026-05-28-unique-index-tables.sql",
    ["e1f7df7973881b6fcaa5535fe5aca86b82bb7f45fa4e7e5fdcf9c5859c468207";
     "8845b9addc0990b0433f8862969b57cb472535474b4b4d5576c408db777b57ce"],
    "4f7f53ea5423d5ad50e0a2136243dab9e215033e6a110c7b47e66ba5361d44c2");
   ("2026-06-02-fix-previous-block-hash-byte-order.sql",
    ["263aba4e1f16aca19342cb1d58eb072735e822ddffc3823e8850cf52404c37dd"],
    "db1e2cac25b7ed132dddaf33a483f35151208901c40a5b4c637d5b5f23492663")]%string.

(** ** The ledger's names *)

Definition MIGRATION_LEDGER_RENAMES : list (jstr * jstr) := [].

Definition planLedgerRenames (appliedNames : list jstr) : list (jstr * jstr) :=
  List.filter (fun e => member e.1 appliedNames && negb (member e.2 appliedNames))
    MIGRATION_LEDGER_RENAMES.

(** The order of code units, which [sort] uses. *)
Fixpoint str_lt (a b : jstr) : bool :=
  match a, b with
  | _, [] => false
  | [], _ :: _ => true
  | x :: a', y :: b' => (x <? y) || (x =? y) && str_lt a' b'
  end.

Fixpoint insert_sorted (s : jstr) (l : list jstr) : list jstr :=
  match l with
  | [] => [s]
  | x :: l' => if str_lt s x then s :: l else x :: insert_sorted s l'
  end.

Definition sort_strings (l : list jstr) : list jstr := foldl (fun acc s => insert_sorted s acc) [] l.

Definition orphanedLedgerNames (appliedNames files : list jstr) : list jstr :=
  sort_strings (List.filter (fun n => negb (member n files)) appliedNames).

Definition DATED : regex := rx "^\d{4}-\d{2}-\d{2}-".

(** The lexical maximum of the dated names, when the pending file sorts before it. *)
Definition frontier (appliedNames : list jstr) : option jstr :=
  foldl (fun f n =>
    if test DATED n then
      match f with
      | None => Some n
      | Some m => if str_lt m n then Some n else f
      end
    else f) None appliedNames.

Definition backdatedFrontierViolation (pendingName : jstr) (appliedNames : list jstr) : option jstr :=
  f ← frontier appliedNames;
  if str_lt pendingName f then Some f else None.

Definition migrationDeclaresDeployPrecondition (raw : jstr) : bool :=
  test (rx_im "^\s*--\s*xchain:migration\b[^\n]*\bdeploy-precondition\s*=\s*required\b")
    (join_with LF (prologue (split_on LF raw))).

(** ** The catalogue *)

Record catalogue_column := CatalogueColumn {
  c_table : jstr; c_name : jstr;
  DATA_TYPE : option jstr; c_columnType : option jstr; c_extra : option jstr;
  CHARACTER_MAXIMUM_LENGTH : option num; c_charset : option jstr
}.

Record foreign_key := ForeignKey {
  fk_table : jstr; fk_column : jstr; fk_name : jstr; fk_referenced : jstr; fk_referenced_column : jstr
}.

(** One schema of information_schema. *)
Record catalogue := Catalogue {
  cat_tables : list jstr; cat_columns : list catalogue_column; cat_keys : list foreign_key
}.

Definition named_as (a : jstr) (b : String.string) : bool := eqs (lower a) (js b).
Definition named_among (a : jstr) (l : list String.string) : bool := existsb (named_as a) l.

Definition columns_where (p : catalogue_column -> bool) (cat : catalogue) : list catalogue_column :=
  List.filter p (cat_columns cat).

Definition column_of (table column : String.string) (cat : catalogue) : list catalogue_column :=
  columns_where (fun c => named_as (c_table c) table && named_as (c_name c) column) cat.

(** ** Preconditions *)

Definition BIGINT_ID_MIGRATION : jstr := js "2026-06-02-widen-ids-to-bigint.sql".

Definition BIGINT_ID_COLUMNS : list (String.string * list String.string) :=
  [("index_addresses", ["id"]);
   ("index_transactions", ["id"]);
   ("pubkeys", ["address_id"]);
   ("blocks", ["block_index"; "block_time"; "block_hash_id"; "previous_block_hash_id"]);
   ("transactions", ["tx_index"; "tx_hash_id"; "block_index"; "source_id"; "destination_id"]);
   ("dispensers", ["tx_index"; "address_id"]);
   ("transaction_outputs", ["tx_index"; "vout"; "destination_id"])]%string.

(** The number of rows of key_column_usage, which each row of the answer carries. *)
Definition fkCount (cat : catalogue) : nat :=
  length (List.filter (fun k =>
    named_as (fk_table k) "pubkeys" && named_as (fk_column k) "address_id"
    && named_as (fk_name k) "pubkeys_ibfk_1" && named_as (fk_referenced k) "index_addresses"
    && named_as (fk_referenced_column k) "id") (cat_keys cat)).

(** A Map of rows keeps the last one of a key. *)
Definition last_column (table column : String.string) (rows : list catalogue_column)
  : option catalogue_column :=
  last (List.filter (fun c => named_as (c_table c) table && named_as (c_name c) column) rows).

Definition is_bigint_unsigned (dataType columnType : option jstr) : bool :=
  match dataType, columnType with
  | Some d, Some t => named_as d "bigint" && test (rx "\bunsigned\b") (lower t)
  | _, _ => false
  end.

Definition widened (rows : list catalogue_column) (table column : String.string) : bool :=
  match last_column table column rows with
  | None => false
  | Some row =>
      is_bigint_unsigned (DATA_TYPE row) (c_columnType row)
      && (negb (String.eqb column "id")
          || test (rx "\bauto_increment\b") (lower (text (c_extra row))))
  end.

Definition skip_bigint_ids (cat : catalogue) : bool :=
  let rows := columns_where (fun c => named_among (c_table c) (map fst BIGINT_ID_COLUMNS)) cat in
  negb (bool_decide (rows = [])) && (1 <=? fkCount cat)%nat
  && forallb (fun e => forallb (widened rows e.1) e.2) BIGINT_ID_COLUMNS.

Definition is_date_type (d : jstr) : bool := named_among d ["datetime"; "timestamp"; "date"]%string.

(** [rows[0]] and its type, when neither is falsy. *)
Definition first_type (rows : list catalogue_column) : option jstr :=
  match rows with
  | [] => None
  | r :: _ => match DATA_TYPE r with Some [] => None | t => t end
  end.

Definition skip_expiration_bigint (cat : catalogue) : bool :=
  match first_type (column_of "dispensers" "expiration" cat) with
  | None => false
  | Some d => negb (is_date_type d)
  end.

Definition UNCOMPRESSED_PUBKEY_HEX_LENGTH : Z := 130.

Definition pubkey_length (cat : catalogue) : option num :=
  match column_of "pubkeys" "pubkey" cat with
  | [] => None
  | r :: _ => match CHARACTER_MAXIMUM_LENGTH r with Some NaN => None | l => l end
  end.

Definition skip_pubkey_width (cat : catalogue) : bool :=
  match pubkey_length cat with
  | None => false
  | Some len => num_le (numZ UNCOMPRESSED_PUBKEY_HEX_LENGTH) len
  end.

Definition data_columns (cat : catalogue) : list catalogue_column :=
  columns_where (fun c => named_as (c_name c) "data"
                          && named_among (c_table c) ["transactions"; "mempool_transactions"]%string) cat.

Definition skip_utf8mb4 (cat : catalogue) : bool :=
  let rows := data_columns cat in
  (2 <=? length rows)%nat
  && forallb (fun r => match c_charset r with Some cs => named_as cs "utf8mb4" | None => false end) rows.

Definition skip_first_seen (cat : catalogue) : bool :=
  match first_type (column_of "mempool_transactions" "first_seen" cat) with
  | None => false
  | Some d => named_as d "datetime"
  end.

Definition skip_mempool_strings (cat : catalogue) : bool :=
  let has column := negb (bool_decide (column_of "mempool_transactions" column cat = [])) in
  negb (has "tx_hash_id"%string) && has "tx_hash"%string.

Definition MIGRATION_PRECONDITIONS : list (jstr * (catalogue -> bool)) :=
  [(BIGINT_ID_MIGRATION, skip_bigint_ids);
   (js "2026-06-13-dispensers-expiration-bigint.sql", skip_expiration_bigint);
   (js "2026-07-24-pubkeys-widen-uncompressed.sql", skip_pubkey_width);
   (js "2026-08-10-action-data-utf8mb4.sql", skip_utf8mb4);
   (js "2026-09-27-mempool-first-seen-datetime.sql", skip_first_seen);
   (js "2026-06-15-mempool-raw-strings.sql", skip_mempool_strings)].

(** Whether the file is recorded without being run. *)
Definition skipWhen (file : jstr) (cat : catalogue) : bool :=
  match assoc file MIGRATION_PRECONDITIONS with Some skip => skip cat | None => false end.

(** ** What the boot asserts *)

Inductive contract_verdict :=
  | ContractHolds
  | RunPending (file : jstr)     (* the text names the pending migration *)
  | FixByHand.

Definition STARTUP_ASSERTED_MIGRATIONS : list (String.string * jstr) :=
  [("assertTransactionIdsAreBigint"%string, BIGINT_ID_MIGRATION);
   ("assertDispenserExpirationIsBigintUnsigned"%string, js "2026-06-13-dispensers-expiration-bigint.sql");
   ("assertPubkeyColumnIsUncompressedWide"%string, js "2026-07-24-pubkeys-widen-uncompressed.sql");
   ("assertActionDataIsUtf8mb4"%string, js "2026-08-10-action-data-utf8mb4.sql")].

(** An assertion that is not registered throws, too. *)
Definition startupAssertedMigrationFile (assertion : String.string) : contract_verdict :=
  match find (fun e => String.eqb e.1 assertion) STARTUP_ASSERTED_MIGRATIONS with
  | Some e => RunPending e.2
  | None => FixByHand
  end.

Definition assertDispenserExpirationType (rows : list (option jstr * option jstr)) : contract_verdict :=
  match rows with
  | [] => ContractHolds
  | (None, _) :: _ => FixByHand
  | (Some dataType, columnType) :: _ =>
      if is_date_type dataType then
        startupAssertedMigrationFile "assertDispenserExpirationIsBigintUnsigned"
      else if negb (named_as dataType "bigint") then FixByHand
      else if negb (test (rx "\bunsigned\b") (lower (text columnType))) then FixByHand
      else ContractHolds
  end.

(** A LEFT JOIN: a table without the column gives one row of NULLs. *)
Definition expiration_rows (cat : catalogue) : list (option jstr * option jstr) :=
  concat (map (fun t =>
    if named_as t "dispensers" then
      match columns_where (fun c => named_as (c_table c) "dispensers" && named_as (c_name c) "expiration") cat with
      | [] => [(None, None)]
      | cs => map (fun c => (DATA_TYPE c, c_columnType c)) cs
      end
    else []) (cat_tables cat)).

Definition assertDispenserExpirationIsBigintUnsigned (cat : catalogue) : contract_verdict :=
  assertDispenserExpirationType (expiration_rows cat).

Definition assertPubkeyColumnIsUncompressedWide (cat : catalogue) : contract_verdict :=
  match pubkey_length cat with
  | None => ContractHolds
  | Some len => if num_lt len (numZ UNCOMPRESSED_PUBKEY_HEX_LENGTH)
                then startupAssertedMigrationFile "assertPubkeyColumnIsUncompressedWide"
                else ContractHolds
  end.

Definition narrow_charset (row : catalogue_column) : bool :=
  match c_charset row with Some cs => negb (named_as cs "utf8mb4") | None => false end.

Definition assertActionDataIsUtf8mb4 (cat : catalogue) : contract_verdict :=
  if existsb narrow_charset (data_columns cat)
  then startupAssertedMigrationFile "assertActionDataIsUtf8mb4" else ContractHolds.

Definition ID_COLUMNS : list String.string :=
  ["tx_index"; "tx_hash_id"; "block_index"; "source_id"; "destination_id"]%string.

(** The join gives no row only where there is no transactions table. *)
Definition assertTransactionIdsAreBigint (cat : catalogue) : contract_verdict :=
  if negb (existsb (fun t => named_as t "transactions") (cat_tables cat)) then ContractHolds
  else
    let rows := columns_where (fun c => named_as (c_table c) "transactions" && named_among (c_name c) ID_COLUMNS) cat in
    let valid column :=
      match last_column "transactions" column rows with
      | None => false
      | Some r => named_as (text (DATA_TYPE r)) "bigint" && test (rx "\bunsigned\b") (lower (text (c_columnType r)))
      end in
    if forallb valid ID_COLUMNS then ContractHolds
    else startupAssertedMigrationFile "assertTransactionIdsAreBigint".

(** The contracts, in the order the boot asserts them. *)
Definition CONTRACTS : list (catalogue -> contract_verdict) :=
  [assertDispenserExpirationIsBigintUnsigned; assertPubkeyColumnIsUncompressedWide;
   assertTransactionIdsAreBigint; assertActionDataIsUtf8mb4].

(** ** The remedy an assertion prints *)

Lemma filter_filter {A} (p q : A -> bool) l :
  (forall x, q x = true -> p x = true) -> List.filter q (List.filter p l) = List.filter q l.
Proof.
  intros H. induction l as [|x l IH]; [done|]. simpl. destruct (p x) eqn:Ep; simpl.
  - by rewrite IH.
  - destruct (q x) eqn:Eq; [apply H in Eq; congruence|done].
Qed.

Lemma expiration_not_skipped cat :
  assertDispenserExpirationIsBigintUnsigned cat = RunPending (js "2026-06-13-dispensers-expiration-bigint.sql") ->
  skip_expiration_bigint cat = false.
Proof.
  unfold assertDispenserExpirationIsBigintUnsigned, skip_expiration_bigint, expiration_rows.
  change (column_of "dispensers" "expiration" cat) with
    (columns_where (fun c => named_as (c_table c) "dispensers" && named_as (c_name c) "expiration") cat).
  set (cs := columns_where _ cat). clearbody cs. induction (cat_tables cat) as [|t ts IH]; [done|].
  cbn [map concat]. destruct (named_as t "dispensers"); [|done].
  destruct cs as [|c cs]; [done|]. cbn [map app assertDispenserExpirationType first_type].
  destruct (DATA_TYPE c) as [[|x d]|]; [done| |done].
  destruct (is_date_type (x :: d)); [done|]. by repeat case_match.
Qed.

Lemma pubkeys_not_skipped cat :
  assertPubkeyColumnIsUncompressedWide cat <> ContractHolds -> skip_pubkey_width cat = false.
Proof.
  unfold assertPubkeyColumnIsUncompressedWide, skip_pubkey_width.
  destruct (pubkey_length cat) as [len|]; [|done]. destruct (num_lt len _) eqn:E; [|done].
  intros _. unfold num_le. destruct len; [done| |]; by rewrite E.
Qed.

Lemma charset_not_skipped cat :
  assertActionDataIsUtf8mb4 cat <> ContractHolds -> skip_utf8mb4 cat = false.
Proof.
  unfold assertActionDataIsUtf8mb4, skip_utf8mb4. destruct (existsb _ _) eqn:E; [|done]. intros _.
  apply existsb_exists in E as (r & Hr & Hn). apply andb_false_iff. right.
  apply not_true_iff_false. rewrite forallb_forall. intros H. specialize (H r Hr).
  unfold narrow_charset in Hn. destruct (c_charset r); [|done]. by rewrite H in Hn.
Qed.

Lemma ids_not_skipped cat :
  assertTransactionIdsAreBigint cat <> ContractHolds -> skip_bigint_ids cat = false.
Proof.
  unfold assertTransactionIdsAreBigint, skip_bigint_ids. destruct (negb (existsb _ _)); [done|].
  destruct (forallb _ ID_COLUMNS) eqn:E; [done|]. intros _.
  apply andb_false_iff. right. apply not_true_iff_false. intros H.
  apply not_true_iff_false in E. apply E. apply forallb_forall. intros column Hc.
  assert (Hw : widened (columns_where (fun c => named_among (c_table c) (map fst BIGINT_ID_COLUMNS)) cat)
                 "transactions" column = true).
  { rewrite forallb_forall in H. specialize (H ("transactions"%string, ID_COLUMNS)).
    cbn [fst snd] in H. rewrite forallb_forall in H. apply H; [|done]. by vm_compute; auto 10. }
  revert Hw. unfold widened, last_column, columns_where. rewrite !filter_filter.
  - destruct (last _) as [r|]; [|done]. unfold is_bigint_unsigned.
    destruct (DATA_TYPE r) as [d|], (c_columnType r) as [t|]; try done. cbn [text default id].
    intros [Hw _]%andb_true_iff. exact Hw.
  - intros c [Ht Hn]%andb_true_iff. rewrite Ht. apply existsb_exists. by exists column.
  - intros c [Ht _]%andb_true_iff. unfold named_among. apply existsb_exists.
    exists "transactions"%string. split; [by vm_compute; auto 10|done].
Qed.

(** The remedy a refused boot prints is one the runner carries out: where an assertion
    of the boot throws and its text names a pending migration, the precondition of that file
    does not hold on the same catalogue, so migrate.js --file runs its statements instead of
    recording it unrun. *)
Theorem startup_remedy_runs assertion cat file :
  assertion ∈ CONTRACTS -> assertion cat = RunPending file -> skipWhen file cat = false.
Proof.
  unfold CONTRACTS. rewrite !elem_of_cons. intros [->|[->|[->|[->|H%elem_of_nil]]]] E; [..|done].
  - assert (file = js "2026-06-13-dispensers-expiration-bigint.sql") as ->.
    { unfold assertDispenserExpirationIsBigintUnsigned, assertDispenserExpirationType in E.
      repeat case_match; try done. by vm_compute in E; simplify_eq. }
    by apply expiration_not_skipped.
  - assert (file = js "2026-07-24-pubkeys-widen-uncompressed.sql") as ->.
    { unfold assertPubkeyColumnIsUncompressedWide in E. repeat case_match; try done.
      by vm_compute in E; simplify_eq. }
    apply pubkeys_not_skipped. congruence.
  - assert (file = BIGINT_ID_MIGRATION) as ->.
    { unfold assertTransactionIdsAreBigint in E. repeat case_match; try done.
      by vm_compute in E; simplify_eq. }
    apply ids_not_skipped. congruence.
  - assert (file = js "2026-08-10-action-data-utf8mb4.sql") as ->.
    { unfold assertActionDataIsUtf8mb4 in E. repeat case_match; try done.
      by vm_compute in E; simplify_eq. }
    apply charset_not_skipped. congruence.
Qed.

Definition narrow_pubkeys : catalogue :=
  Catalogue [js "pubkeys"]
    [CatalogueColumn (js "pubkeys") (js "pubkey") (Some (js "varchar")) (Some (js "varchar(66)")) None
       (Some (numZ 66)) (Some (js "utf8mb3"))] [].

Lemma startup_remedy_runs_witness :
  assertPubkeyColumnIsUncompressedWide narrow_pubkeys = RunPending (js "2026-07-24-pubkeys-widen-uncompressed.sql")
  /\ skipWhen (js "2026-07-24-pubkeys-widen-uncompressed.sql") narrow_pubkeys = false.
Proof.
  assert (E : assertPubkeyColumnIsUncompressedWide narrow_pubkeys
              = RunPending (js "2026-07-24-pubkeys-widen-uncompressed.sql")) by (vm_compute; reflexivity).
  split; [exact E|].
  refine (startup_remedy_runs assertPubkeyColumnIsUncompressedWide narrow_pubkeys _ _ E).
  right. left.
Defined.
