(* ===== verification/Runner.v ===== *)
(** * The connection of a migration run

    src/src/db/migration_query_timeout.js, the ledger table
    (src/src/db/migration_statements.js, src/src/db/migration_ledger.js), and the monad the
    runner and the schema setup are written in.

    The server is a parameter ([Server]): what a statement does to its tables, what its
    information_schema then holds, the mode of a fresh session.  So is the disk ([Disk]).
    The ledger table is kept apart from the other tables: no file of src/sql/migrations
    names it.  Any call may fail ([fault]): refused by the server, which changes nothing, or
    with the connection lost, which ends the session, frees its lock and rolls its
    transaction back, whether or not the statement took effect.  Log lines are left out. *)
From S2P Require Import Prelude JsNum Config SqlText Regex SqlRules LiveSchema KeyGuards.
From S2P Require Import MigrationTables.
#[local] Open Scope Z_scope.
#[local] Open Scope update_scope.

(** ** Outside the program *)

Class Disk := {
  migrations_dir : option (list jstr);     (* readdirSync of sql/migrations; [None]: it throws *)
  migration_text : jstr -> option jstr;    (* readFileSync of one of them *)
  sql_dir : list jstr;                     (* readdirSync of sql *)
  schema_text : jstr -> read_answer;       (* readFileSync of one of them *)
  sha256 : jstr -> jstr
}.

Definition table_text `{Disk} (table : jstr) : read_answer := schema_text (table ++ js ".sql").

(** A column of a table, as information_schema has it. *)
Record drift_column := DriftColumn { dc_name : jstr; dc_key : option jstr; dc_live : live_column }.

Class Server := {
  database : Type;
  database_listed : bool;                                (* in information_schema.schemata *)
  run_statement : jstr -> database -> bool * database;   (* whether it succeeds *)
  duplicate_entry : jstr -> database -> bool;            (* whether it fails on a duplicate row *)
  catalogue_of : database -> catalogue;
  live_rows : database -> jstr -> jstr -> list live_column;
  statistics_of : database -> jstr -> list statistics_row;
  has_table : database -> jstr -> bool;
  show_tables : database -> list jstr;
  table_columns : database -> jstr -> list drift_column;
  session_mode : jstr                                    (* @@SESSION.sql_mode *)
}.

(** ** State *)

Record ledger_row := LedgerRow { lr_name : jstr; lr_checksum : jstr; lr_mode : jstr }.

(** [lt_legacy]: applied_at still is a TIMESTAMP. *)
Record ledger_table := LedgerTable { lt_rows : list ledger_row; lt_legacy : bool }.

(** A connection: its max_statement_time in milliseconds, the file statements that ran on
    it, whether its session lives, and whether it holds the advisory lock. *)
Record session := Session {
  s_limit : num; s_ran : list jstr; s_alive : bool; s_lock : bool
}.

(** [s_ok]: the server said it succeeded. *)
Record sent := Sent { s_file : jstr; s_text : jstr; s_ok : bool }.

Record run_result := RunResult {
  applied : list jstr; pending : list jstr; baselined : list jstr; lockSkipped : bool
}.
Definition no_result : run_result := RunResult [] [] [] false.

Inductive fault := Refused | Lost (lands : bool).

Section World.
Context {Srv : Server}.

Record world := World {
  db : database;
  ledger : option ledger_table;            (* [None]: the table is not there *)
  begun : option (option ledger_table);    (* the ledger at START TRANSACTION *)
  lock_free : bool;                        (* no other session holds the advisory lock *)
  conn : option session;                   (* the leased connection *)
  pool : list session;                     (* the idle ones *)
  log : list sent;                         (* every file statement the server got *)
  issued : list jstr;                      (* every statement of the schema setup it got *)
  touched : bool;                          (* the locals of runMigrationsInner *)
  sessionDirty : bool;
  returnToPool : bool;
  result : run_result;
  faults : list (option fault)             (* the outcomes of the coming calls *)
}.

#[export] Instance world_eta : Eta world := fun w =>
  World (db w) (ledger w) (begun w) (lock_free w) (conn w) (pool w) (log w) (issued w)
    (touched w) (sessionDirty w) (returnToPool w) (result w) (faults w).
End World.

#[export] Instance session_eta : Eta session := fun s =>
  Session (s_limit s) (s_ran s) (s_alive s) (s_lock s).
#[export] Instance run_result_eta : Eta run_result := fun r =>
  RunResult (applied r) (pending r) (baselined r) (lockSkipped r).

Inductive error :=
  | QueryFailed
  | Duplicate
  | FileUnreadable (file : jstr)
  | NoTargets
  | UnknownTargets (l : list jstr)
  | LaxMode
  | NotDated (file : jstr)
  | ContentChanged (file : jstr)
  | UnregisteredRename (file : jstr)
  | Backdated (file frontier : jstr)
  | DestructiveDdl (file : jstr)
  | KeyRefused (file : jstr) (v : key_verdict)
  | ModifyUnread (file : jstr)
  | ColumnLoss (file : jstr) (l : list loss)
  | NoWitness (file table : jstr)
  | ContractBroken (v : contract_verdict)
  | SetupFailed.

(** ** Computations *)

Section Computations.
Context {Srv : Server}.

Definition Run (A : Type) : Type := world -> (error + A) * world.

#[export] Instance run_ret : MRet Run := fun A a w => (inr a, w).
#[export] Instance run_bind : MBind Run := fun A B k m w =>
  match m w with
  | (inr a, w') => k a w'
  | (inl e, w') => (inl e, w')
  end.

Definition fail {A} (e : error) : Run A := fun w => (inl e, w).
Definition gets {A} (f : world -> A) : Run A := fun w => (inr (f w), w).
Definition modify (f : world -> world) : Run unit := fun w => (inr tt, f w).

Definition attempt {A} (m : Run A) (h : error -> Run A) : Run A := fun w =>
  match m w with
  | (inl e, w') => h e w'
  | r => r
  end.

(** [try { m } finally { f }] *)
Definition ensuring {A} (m : Run A) (f : Run unit) : Run A := fun w =>
  let '(r, w') := m w in
  match f w' with
  | (inr _, w'') => (r, w'')
  | (inl e, w'') => (inl e, w'')
  end.

(** [try { await m } catch(_){}] *)
Definition quietly (m : Run unit) : Run unit := attempt m (fun _ => mret tt).

Fixpoint each {A} (f : A -> Run unit) (l : list A) : Run unit :=
  match l with
  | [] => mret tt
  | x :: l' => f x;; each f l'
  end.

(** ** Calls on the leased connection *)

Definition on_session (f : session -> session) (w : world) : world := w <| conn ::= fmap f |>.

(** The open transaction is undone. *)
Definition undo (w : world) : world := w <| ledger := default (ledger w) (begun w) |> <| begun := None |>.

(** The server drops the session: its lock is free, its transaction undone. *)
Definition lose (w : world) : world :=
  on_session (fun s => s <| s_alive := false |> <| s_lock := false |>) (undo w).

Definition session_alive (w : world) : bool :=
  match conn w with Some s => s_alive s | None => false end.

(** The statement answers, or is refused by its own meaning ([inl]). *)
Definition query {A} (stmt : world -> (error + A) * world) : Run A := fun w =>
  if negb (session_alive w) then (inl QueryFailed, w)
  else
    match faults w with
    | [] => stmt w
    | None :: fs => stmt (w <| faults := fs |>)
    | Some Refused :: fs => (inl QueryFailed, w <| faults := fs |>)
    | Some (Lost lands) :: fs =>
        let w' := w <| faults := fs |> in
        (inl QueryFailed, lose (if lands then (stmt w').2 else w'))
    end.

Definition select {A} (f : world -> A) : Run A := query (fun w => (inr (f w), w)).
Definition update (f : world -> world) : Run unit := query (fun w => (inr tt, f w)).

Definition CONNECTION_ATTEMPTS : nat := 30.

(** An idle connection, or a new one. *)
Definition lease (fresh : session) (w : world) : world :=
  match pool w with
  | [] => w <| conn := Some fresh |>
  | s :: rest => w <| conn := Some s |> <| pool := rest |>
  end.

Fixpoint connect (fresh : session) (attempts : nat) : Run unit := fun w =>
  match attempts with
  | O => (inl QueryFailed, w)
  | S n =>
      match faults w with
      | [] => (inr tt, lease fresh w)
      | None :: fs => (inr tt, lease fresh (w <| faults := fs |>))
      | Some _ :: fs => connect fresh n (w <| faults := fs |>)
      end
  end.

(** The driver sets the pool's limit on every new connection. *)
Definition fresh_session (limit : num) : session := Session limit [] true false.

Definition getConnection (limit : num) : Run unit := connect (fresh_session limit) CONNECTION_ATTEMPTS.

(** [conn.release()]: the driver undoes what is open, and a lost connection does not go
    back. *)
Definition release : Run unit := modify (fun w =>
  match conn w with
  | Some s =>
      let w' := undo w <| conn := None |> in
      if s_alive s then w' <| pool ::= cons s |> else w'
  | None => w
  end).

(** [conn.destroy()]: the session ends. *)
Definition destroy : Run unit := modify (fun w => lose w <| conn := None |>).

Definition DEFAULT_MIGRATE_QUERY_TIMEOUT_MS : Z := 3600000.

(** MIGRATE_QUERY_TIMEOUT; 0 is no limit. *)
Definition migrationQueryTimeoutMs (raw : option jstr) : num :=
  match raw with
  | None => numZ DEFAULT_MIGRATE_QUERY_TIMEOUT_MS
  | Some r =>
      if is_empty (trim r) then numZ DEFAULT_MIGRATE_QUERY_TIMEOUT_MS
      else
        let ms := Number (JStr r) in
        if isFinite ms && num_le (numZ 0) ms then ms else numZ DEFAULT_MIGRATE_QUERY_TIMEOUT_MS
  end.

Definition setSessionStatementTime (ms : num) : Run unit :=
  update (on_session (fun s => s <| s_limit := ms |>)).

Definition releaseMigrationLock : Run unit :=
  quietly (update (on_session (fun s => s <| s_lock := false |>))).

Definition restoreRuntimeTimeoutAndReleaseLock (runtimeTimeoutMs : num) : Run bool :=
  restored ← attempt (setSessionStatementTime runtimeTimeoutMs;; mret true) (fun _ => mret false);
  releaseMigrationLock;;
  (if (restored : bool) then mret tt else destroy);;
  mret restored.

(** activate() and release() of migrationSession; [touched] is their variable. *)
Definition session_activate (raw : option jstr) : Run unit :=
  t ← gets touched;
  if (t : bool) then mret tt
  else modify (fun w => w <| touched := true |>);; setSessionStatementTime (migrationQueryTimeoutMs raw).

Definition session_release (runtimeTimeoutMs : num) : Run bool :=
  t ← gets touched;
  if (t : bool) then restoreRuntimeTimeoutAndReleaseLock runtimeTimeoutMs
  else releaseMigrationLock;; mret true.

Definition retireMigrationConnection (dirty : bool) : Run unit := if dirty then destroy else release.

(** GET_LOCK answers 1 unless another session keeps the lock for thirty seconds. *)
Definition get_lock : Run bool :=
  query (fun w => if lock_free w then (inr true, on_session (fun s => s <| s_lock := true |>) w)
                  else (inr false, w)).

Definition assertStrictSqlMode_on : Run unit :=
  mode ← select (fun _ : world => session_mode);
  if strict_mode mode then mret tt else fail LaxMode.

(** ** The ledger *)

Definition ensureLedgerAppliedAtDatetime : Run unit :=
  legacy ← select (fun w => match ledger w with Some l => lt_legacy l | None => false end);
  if (legacy : bool)
  then update (fun w => w <| ledger ::= fmap (fun l => LedgerTable (lt_rows l) false) |>)
  else mret tt.

(** A statement of DDL commits what is open. *)
Definition ensureMigrationsLedger : Run unit :=
  update (fun w => match ledger w with
                   | Some _ => w <| begun := None |>
                   | None => w <| begun := None |> <| ledger := Some (LedgerTable [] false) |>
                   end);;
  ensureLedgerAppliedAtDatetime.

Definition rows_of (w : world) : list ledger_row :=
  match ledger w with Some l => lt_rows l | None => [] end.

(** utf8_general_ci, on the ASCII of a file name. *)
Definition same_name (a b : jstr) : bool := eqs (lower a) (lower b).

(** INSERT INTO schema_migrations: its name is the primary key. *)
Definition insert_ledger_row (r : ledger_row) : Run unit :=
  query (fun w =>
    match ledger w with
    | None => (inl QueryFailed, w)
    | Some l =>
        if existsb (fun x => same_name (lr_name x) (lr_name r)) (lt_rows l) then (inl QueryFailed, w)
        else (inr tt, w <| ledger := Some (LedgerTable (lt_rows l ++ [r]) (lt_legacy l)) |>)
    end).

Definition update_ledger (f : ledger_row -> ledger_row) : Run unit :=
  update (fun w => w <| ledger ::= fmap (fun l => LedgerTable (map f (lt_rows l)) (lt_legacy l)) |>).

Definition set_checksum (file checksum : jstr) : Run unit :=
  update_ledger (fun r => if same_name (lr_name r) file then LedgerRow (lr_name r) checksum (lr_mode r) else r).

Definition rename_row (from to : jstr) : Run unit :=
  update_ledger (fun r => if same_name (lr_name r) from then LedgerRow to (lr_checksum r) (lr_mode r) else r).
End Computations.
