(* ===== verification/Migrate.v ===== *)
(** * The migration runner

    src/src/db/migrations.js, src/src/db/migration_guards/applied_ledger.js, the two guards
    that read the live schema (src/src/db/migration_live_schema_guard.js,
    src/src/db/migration_guards/key_witness.js), runMigrations of
    src/src/db/database_setup.js, and the command src/src/db/migrate.js.

    The answers of the server do not fail to parse, and a file read twice reads the same. *)
From S2P Require Import Prelude JsNum Config SqlText Regex SqlRules LiveSchema KeyGuards.
From S2P Require Import MigrationTables Runner.
#[local] Open Scope Z_scope.
#[local] Open Scope update_scope.

(** ** The declared indexes of a table file

    parseExpectedIndexes of src/src/db/table_drift.js. *)

Definition CREATE_INDEX : regex :=
  rx_i "CREATE\s+(UNIQUE\s+)?INDEX\s+`?(\w+)`?\s+ON\s+`?(\w+)`?\s*\(\s*([\s\S]+?)\s*\)\s*;".

Definition index_column (c : jstr) : jstr :=
  let bare := replace_all (rx "`") (fun _ => []) (trim c) in
  let word := match exec (rx "\s+") bare with Some m => pre m | None => bare end in
  replace_first (rx "\(\d+\)$") (fun _ => []) word.

Definition parseExpectedIndexes (sqlData table : jstr) : list declared_index :=
  concat (map (fun m =>
    if negb (eqs (lower (text (group 3 m))) (lower table)) then []
    else
      match nonblank (map index_column (split_on 44 (text (group 4 m)))) with
      | [] => []
      | columns => [DeclaredIndex (text (group 2 m)) (negb (is_empty (text (group 1 m)))) columns]
      end) (exec_all CREATE_INDEX (stripSqlLineComments sqlData))).

Section Runner.
Context {Files : Disk} {Srv : Server}.
Context (strictChecksum : bool) (rawTimeout : option jstr) (runtimeTimeoutMs : num).

Definition declaredUniqueIndexes (table : jstr) : Run (list declared_index) :=
  match file_read table_text table with
  | Absent => mret []
  | Unreadable => fail (FileUnreadable table)
  | Content data => mret (List.filter index_unique (parseExpectedIndexes data table))
  end.

(** ** The guards that ask the server *)

Fixpoint check_clauses (file : jstr) (l : list modify_clause) : Run unit :=
  match l with
  | [] => mret tt
  | Unparsed _ :: _ => fail (ModifyUnread file)
  | Modify table column definition :: l' =>
      rows ← select (fun w => live_rows (db w) table column);
      match find (fun r => bool_decide (is_Some (COLUMN_TYPE r))) rows with
      | None => check_clauses file l'
      | Some live =>
          match losses live definition with
          | [] => check_clauses file l'
          | found => fail (ColumnLoss file found)
          end
      end
  end.

Definition assertNoLiveColumnLoss (file : jstr) (statements : list jstr) : Run unit :=
  check_clauses file (modifyClauses statements).

Definition liveTableExists (table : jstr) : Run bool := select (fun w => has_table (db w) table).

Definition check_target (file table : jstr) : Run unit :=
  declared ← declaredUniqueIndexes table;
  match declared with
  | [] => mret tt
  | _ =>
      exists_ ← liveTableExists table;
      if negb exists_ then mret tt
      else
        rows ← select (fun w => statistics_of (db w) table);
        if witnessed declared rows then mret tt else fail (NoWitness file table)
  end.

Definition assertUniqueKeyWitness (file : jstr) (statements : list jstr) : Run unit :=
  each (check_target file) (targetsNeedingWitness statements).

(** ** One file *)

(** What every file of a run sees. *)
Record run_context := RunContext {
  includeManual : bool;
  only : option (list jstr);
  appliedByName : gmap jstr jstr;
  orphanByChecksum : gmap jstr jstr
}.

Section OneFile.
Context (context : run_context).

Definition note (f : run_result -> run_result) : Run unit := modify (fun w => w <| result ::= f |>).
Definition note_pending (file : jstr) : Run unit :=
  note (fun r => r <| pending := pending r ++ [file] |>).

Definition fails_closed : bool := includeManual context || strictChecksum.

(** It answers true, or throws. *)
Definition reconcileAppliedMigration (file checksum recorded : jstr) : Run bool :=
  if eqs recorded checksum then mret true
  else
    let heals := match assoc file MIGRATION_CHECKSUM_REBASELINES with
                 | Some r => member recorded (rb_from r) && eqs checksum (rb_to r)
                 | None => false
                 end in
    if heals then set_checksum file checksum;; mret true
    else if fails_closed then fail (ContentChanged file)
    else mret true.

Definition guardMigrationFrontier (file mode : jstr) : Run unit :=
  if negb (eqs mode (js "auto")) then mret tt
  else
    match backdatedFrontierViolation file (map fst (map_to_list (appliedByName context))) with
    | None => mret tt
    | Some f => if fails_closed then fail (Backdated file f) else mret tt
    end.

Definition guardUnregisteredRename (file checksum : jstr) : Run bool :=
  match orphanByChecksum context !! checksum with
  | None | Some [] => mret false
  | Some _ => if fails_closed then fail (UnregisteredRename file)
              else note_pending file;; mret true
  end.

Definition assertDatedMigration (file : jstr) : Run unit :=
  if test DATED file then mret tt else fail (NotDated file).

(** The catalogue is only asked where the file has a precondition. *)
Definition migrationPreconditionSkip (file : jstr) : Run bool :=
  match assoc file MIGRATION_PRECONDITIONS with
  | None => mret false
  | Some skip => select (fun w => skip (catalogue_of (db w)))
  end.

(** [None]: the file is done with. *)
Definition migrationModeOrSkip (file raw checksum : jstr) : Run (option jstr) :=
  let mode := migrationMode raw in
  skip ← migrationPreconditionSkip file;
  if (skip : bool) then
    insert_ledger_row (LedgerRow file checksum mode);;
    note (fun r => r <| baselined := baselined r ++ [file] |>);;
    mret None
  else if negb (eqs mode (js "auto")) && negb (includeManual context)
  then note_pending file;; mret None
  else mret (Some mode).

Definition refuse_unsafe (file : jstr) (statements : list jstr) : Run unit :=
  match destructiveAutoStatement statements with
  | Some _ => fail (DestructiveDdl file)
  | None =>
      match assertNoDeclaredKeyDrop statements table_text with
      | KeysKept =>
          assertNoLiveColumnLoss file statements;;
          assertUniqueKeyWitness file statements
      | v => fail (KeyRefused file v)
      end
  end.

(** [await conn.query(stmt)] *)
Definition run_one (file stmt : jstr) : Run unit :=
  query (fun w =>
    let '(ok, d) := run_statement stmt (db w) in
    (if ok then inr tt else inl QueryFailed,
     on_session (fun s => s <| s_ran := s_ran s ++ [stmt] |>)
       (w <| db := d |> <| log := log w ++ [Sent file stmt ok] |>))).

Definition applyMigrationFile (file raw checksum mode : jstr) : Run unit :=
  let statements := splitSqlStatements raw in
  (if eqs mode (js "auto") then refuse_unsafe file statements else mret tt);;
  session_activate rawTimeout;;
  modify (fun w => w <| sessionDirty := true |>);;
  each (run_one file) statements;;
  insert_ledger_row (LedgerRow file checksum mode);;
  note (fun r => r <| applied := applied r ++ [file] |>).

Definition in_scope (file : jstr) : bool :=
  match only context with None => true | Some names => member file names end.

Definition processMigration (file : jstr) : Run unit :=
  let recorded := appliedByName context !! file in
  if negb (in_scope file) then
    if bool_decide (is_Some recorded) then mret tt else note_pending file
  else
    assertDatedMigration file;;
    match migration_text file with
    | None => fail (FileUnreadable file)
    | Some raw =>
        let checksum := sha256 raw in
        done_ ← match recorded with
                | Some r => reconcileAppliedMigration file checksum r
                | None => mret false
                end;
        if (done_ : bool) then mret tt
        else
          renamed ← guardUnregisteredRename file checksum;
          if (renamed : bool) then mret tt
          else
            mode ← migrationModeOrSkip file raw checksum;
            match mode with
            | None => mret tt
            | Some mode =>
                guardMigrationFrontier file mode;;
                applyMigrationFile file raw checksum mode
            end
    end.
End OneFile.

(** ** A run *)

Definition ends_with (suffix s : jstr) : bool := startsWith (rev suffix) (rev s).

Definition sql_files (names : list jstr) : list jstr :=
  sort_strings (List.filter (ends_with (js ".sql")) names).

(** [[].concat(opts.only).map(trim).filter(Boolean)] *)
Definition only_names (names : list jstr) : list jstr := nonblank (map trim names).

Definition validateMigrationTargets (files : list jstr) (names : option (list jstr)) : Run unit :=
  match names with
  | None => mret tt
  | Some [] => fail NoTargets
  | Some l =>
      match List.filter (fun n => negb (member n files)) l with
      | [] => mret tt
      | unknown => fail (UnknownTargets unknown)
      end
  end.

(** Renames, in the ledger and in the Map. *)
Fixpoint apply_renames (l : list (jstr * jstr)) (m : gmap jstr jstr) : Run (gmap jstr jstr) :=
  match l with
  | [] => mret m
  | (from, to) :: l' =>
      rename_row from to;;
      apply_renames l' (match m !! from with
                        | Some c => delete from (<[to := c]> m)
                        | None => m
                        end)
  end.

(** The first name of each checksum, in the order of the names. *)
Definition orphans (m : gmap jstr jstr) (files : list jstr) : gmap jstr jstr :=
  foldl (fun acc name =>
    match m !! name with
    | None | Some [] => acc
    | Some c => if bool_decide (is_Some (acc !! c)) then acc else <[c := name]> acc
    end) ∅ (orphanedLedgerNames (map fst (map_to_list m)) files).

Definition loadAppliedLedger (files : list jstr) : Run (gmap jstr jstr * gmap jstr jstr) :=
  rows ← query (fun w => match ledger w with
                         | None => (inl QueryFailed, w)
                         | Some l => (inr (lt_rows l), w)
                         end);
  let names := foldl (fun m r => <[lr_name r := lr_checksum r]> m) ∅ rows in
  m ← apply_renames (planLedgerRenames (map fst (map_to_list names))) names;
  mret (m, orphans m files).

Definition locked_run (manual : bool) (names : option (list jstr)) (files : list jstr) : Run unit :=
  (if bool_decide (names = None) then session_activate rawTimeout else mret tt);;
  ensureMigrationsLedger;;
  ledgers ← loadAppliedLedger files;
  each (processMigration (RunContext manual names ledgers.1 ledgers.2)) files.

Definition leased_run (manual : bool) (names : option (list jstr)) (files : list jstr) : Run unit :=
  attempt assertStrictSqlMode_on
    (fun e => modify (fun w => w <| sessionDirty := true |>);; fail e);;
  got ← get_lock;
  if negb got then note (fun r => r <| lockSkipped := true |>)
  else
    ensuring (locked_run manual names files)
      (back ← session_release runtimeTimeoutMs;
       modify (fun w => w <| returnToPool := back |>)).

(** The variables of a call. *)
Definition start_run : Run unit := modify (fun w =>
  w <| touched := false |> <| sessionDirty := false |> <| returnToPool := true |> <| result := no_result |>).

Definition runMigrationsInner (manual : bool) (names : option (list jstr)) : Run unit :=
  let names := only_names <$> names in
  start_run;;
  match sql_files <$> migrations_dir with
  | None | Some [] => mret tt
  | Some files =>
      validateMigrationTargets files names;;
      getConnection runtimeTimeoutMs;;
      ensuring (leased_run manual names files)
        (back ← gets returnToPool;
         dirty ← gets sessionDirty;
         if (back : bool) then retireMigrationConnection dirty else mret tt)
  end.

(** ** The contracts around it *)

Definition on_own_connection (m : Run unit) : Run unit :=
  getConnection runtimeTimeoutMs;; ensuring m release.

Definition assertStrictSqlMode : Run unit := on_own_connection assertStrictSqlMode_on.

Definition assert_contract (contract : catalogue -> contract_verdict) : Run unit :=
  on_own_connection
    (v ← select (fun w => contract (catalogue_of (db w)));
     match v with
     | ContractHolds => mret tt
     | _ => fail (ContractBroken v)
     end).

Definition runMigrations (manual : bool) (names : option (list jstr)) : Run run_result :=
  assertStrictSqlMode;;
  runMigrationsInner manual names;;
  r ← gets result;
  each assert_contract CONTRACTS;;
  mret r.

(** ** The command *)

Inductive parsed :=
  | Help
  | Refusal (message : String.string)
  | Parsed (targets : list jstr) (status json : bool).

Definition push_targets (targets : list jstr) (v : jstr) : list jstr :=
  targets ++ nonblank (map trim (split_on 44 v)).

Fixpoint parse_from (argv : list jstr) (targets : list jstr) (status json : bool) : parsed :=
  match argv with
  | [] =>
      if json && negb status then Refusal "--json requires --status"
      else if status && negb (bool_decide (targets = [])) then
        Refusal "--status cannot be combined with --file"
      else Parsed targets status json
  | a :: rest =>
      if eqs a (js "--help") || eqs a (js "-h") then Help
      else if eqs a (js "--status") then parse_from rest targets true json
      else if eqs a (js "--json") then parse_from rest targets status true
      else
        let grown named k :=
          if (length named =? length targets)%nat then Refusal "names no migration file" else k named in
        if eqs a (js "--file") || eqs a (js "-f") then
          match rest with
          | [] => Refusal "requires a migration filename argument"
          | v :: rest' =>
              if startsWith (js "-") v then Refusal "requires a migration filename argument"
              else grown (push_targets targets v) (fun named => parse_from rest' named status json)
          end
        else if startsWith (js "--file=") a then
          grown (push_targets targets (drop (length (js "--file=")) a))
            (fun named => parse_from rest named status json)
        else Refusal "unrecognized argument"
  end.

Definition parseArgs (argv : list jstr) : parsed := parse_from argv [] false false.

(** Names of the files with a row, and of the others. *)
Definition migrationStatus : Run (list jstr * list jstr) :=
  let files := default [] (sql_files <$> migrations_dir) in
  names ← match files with
          | [] => mret []
          | _ =>
              getConnection runtimeTimeoutMs;;
              ensuring (select (fun w => map lr_name (rows_of w))) release
          end;
  mret (List.filter (fun f => member f names) files, List.filter (fun f => negb (member f names)) files).

Inductive exit_code := ExitOk | ExitFailed | ExitRefused.

(** The environment names a database. *)
Definition main (argv : list jstr) : Run exit_code :=
  match parseArgs argv with
  | Help => mret ExitOk
  | Refusal _ => mret ExitRefused
  | Parsed targets status _ =>
      attempt
        (if (status : bool) then migrationStatus;; mret ExitOk
         else
           r ← runMigrations true (match targets with [] => None | _ => Some targets end);
           mret (if lockSkipped r then ExitRefused else ExitOk))
        (fun _ => mret ExitFailed)
  end.
End Runner.
