(* ===== verification/RunSample.v ===== *)
(** * A small migration run

    A directory of three files, one table file, and a server that keeps the statements it ran, for the
    witnesses of the runner's theorems. *)
From S2P Require Import Prelude JsNum Config SqlText Regex SqlRules LiveSchema KeyGuards.
From S2P Require Import MigrationTables Runner Migrate.
#[local] Open Scope Z_scope.

(** An auto file, a manual one, and one that is not a migration. *)
Definition auto_file : jstr := js "2026-07-01-add-note.sql".
Definition manual_file : jstr := js "2026-07-02-widen.sql".

Definition auto_text : jstr :=
  js "-- xchain:migration mode=auto" ++ [10] ++ js "ALTER TABLE events ADD COLUMN note VARCHAR(20) NULL;"
  ++ [10] ++ js "CREATE INDEX note ON events (note);".
Definition manual_text : jstr :=
  js "-- xchain:migration mode=manual" ++ [10] ++ js "UPDATE events SET note = 1;".

Definition events_text : jstr :=
  js "CREATE TABLE IF NOT EXISTS events (" ++ [10]
  ++ js "    id   BIGINT UNSIGNED NOT NULL AUTO_INCREMENT, -- the key, (unsigned)" ++ [10]
  ++ js "    code VARCHAR(8) NOT NULL DEFAULT 'NONE'," ++ [10]
  ++ js "    data MEDIUMTEXT," ++ [10]
  ++ js "    PRIMARY KEY (id)" ++ [10]
  ++ js ") ENGINE=InnoDB DEFAULT CHARSET=utf8mb4;" ++ [10]
  ++ js "CREATE UNIQUE INDEX code ON events (code);".

#[export] Instance SampleDisk : Disk := {
  migrations_dir := Some [manual_file; js "README.md"; auto_file];
  migration_text f := if eqs f auto_file then Some auto_text
                      else if eqs f manual_file then Some manual_text else None;
  sql_dir := [js "events.sql"; js "migrations"];
  schema_text f := if eqs f (js "events.sql") then Content events_text else Absent;
  sha256 := fun s => s
}.

Definition no_tables : catalogue := Catalogue [] [] [].

#[export] Instance SampleServer : Server := {
  database := list jstr;
  database_listed := true;
  run_statement s d := (true, d ++ [s]);
  duplicate_entry _ _ := false;
  catalogue_of _ := no_tables;
  live_rows _ _ _ := [];
  statistics_of _ _ := [];
  has_table _ _ := false;
  show_tables d := if existsb (startsWith (js "CREATE TABLE")) d then [js "events"] else [];
  table_columns _ _ := [DriftColumn (js "id") (Some (js "PRI"))
    (LiveColumn (Some (js "bigint(20) unsigned")) None (Some (js "auto_increment")) None None
      (Some (js "NO")) None None None)];
  session_mode := js "STRICT_TRANS_TABLES"
}.

Definition idle (fs : list (option fault)) : world :=
  World ([] : database) None None true None [] [] [] false false true no_result fs.

Definition run_sample (manual : bool) (w : world) : (error + run_result) * world :=
  runMigrations false None (numZ 30000) manual None w.
