(* ===== verification/MigrateTrace.v ===== *)
(** * What a migration run leaves behind

    The log and the ledger of a run, whatever fails on the way: the statements the server
    got, and what each row of the ledger stands for. *)
From S2P Require Import Prelude JsNum Config SqlText Regex SqlRules LiveSchema KeyGuards.
From S2P Require Import MigrationTables Runner Migrate.
#[local] Open Scope Z_scope.
#[local] Open Scope update_scope.

Section Facts.
Context {Files : Disk} {Srv : Server}.

(** ** Rules *)

(** A relation the outcomes of calls, a lost session and the report of the run keep. *)
Class Stepped (R : world -> world -> Prop) := {
  stepped_pre :: PreOrder R;
  R_faults : forall w fs, R w (w <| faults := fs |>);
  R_undo : forall w, R w (undo w);
  R_lose : forall w, R w (lose w);
  R_result : forall w f, R w (w <| result ::= f |>)
}.

(** Moreover, it only watches the tables, the ledger and the log. *)
Class Framed (R : world -> world -> Prop) := {
  framed_stepped :: Stepped R;
  R_frame : forall w w', db w' = db w -> ledger w' = ledger w -> begun w' = begun w -> log w' = log w -> R w w'
}.

Section Rules.
Context (R : world -> world -> Prop) `{!Stepped R}.

(** However it ends, the computation moves within [R]. *)
Definition within_rel {A} (m : Run A) : Prop := forall w, R w (m w).2.

Lemma rel_ret {A} (a : A) : within_rel (mret a).
Proof. intros w. done. Qed.

Lemma rel_fail {A} e : within_rel (fail (A:=A) e).
Proof. intros w. done. Qed.

Lemma rel_gets {A} (f : world -> A) : within_rel (gets f).
Proof. intros w. done. Qed.

Lemma rel_modify f : (forall w, R w (f w)) -> within_rel (modify f).
Proof. intros H w. apply H. Qed.

Lemma rel_bind {A B} (m : Run A) (k : A -> Run B) :
  within_rel m -> (forall a, within_rel (k a)) -> within_rel (m ≫= k).
Proof.
  intros Hm Hk w. unfold mbind, run_bind. specialize (Hm w). destruct (m w) as [[e|a] w']; [done|].
  by transitivity w'; [|apply Hk].
Qed.

(** The continuation only where the computation answers. *)
Lemma rel_bind_at {A B} (m : Run A) (k : A -> Run B) :
  within_rel m -> (forall w a w', m w = (inr a, w') -> R w' (k a w').2) -> within_rel (m ≫= k).
Proof.
  intros Hm Hk w. unfold mbind, run_bind. specialize (Hm w). specialize (Hk w).
  destruct (m w) as [[e|a] w']; [done|]. by transitivity w'; [|apply Hk].
Qed.

(** The same from one world. *)
Lemma rel_bind_here {A B} (m : Run A) (k : A -> Run B) w :
  R w (m w).2 -> (forall a w', m w = (inr a, w') -> R w' (k a w').2) -> R w ((m ≫= k) w).2.
Proof.
  intros Hm Hk. unfold mbind, run_bind. destruct (m w) as [[e|a] w']; [done|].
  by transitivity w'; [|apply Hk].
Qed.

Lemma rel_attempt {A} (m : Run A) h :
  within_rel m -> (forall e, within_rel (h e)) -> within_rel (attempt m h).
Proof.
  intros Hm Hh w. unfold attempt. specialize (Hm w). destruct (m w) as [[e|a] w']; [|done].
  by transitivity w'; [|apply Hh].
Qed.

Lemma rel_ensuring {A} (m : Run A) f : within_rel m -> within_rel f -> within_rel (ensuring m f).
Proof.
  intros Hm Hf w. unfold ensuring. specialize (Hm w). destruct (m w) as [r w'].
  specialize (Hf w'). transitivity w'; [done|]. by destruct (f w') as [[e|[]] w''].
Qed.

Lemma rel_each {A} (f : A -> Run unit) l :
  (forall x, x ∈ l -> within_rel (f x)) -> within_rel (each f l).
Proof.
  induction l as [|x l IH]; intros H; [apply rel_ret|].
  apply rel_bind; [apply H, list_elem_of_here|]. intros _. apply IH. intros y Hy.
  by apply H, list_elem_of_further.
Qed.

Lemma rel_query_at {A} (stmt : world -> (error + A) * world) w :
  R w (stmt w).2 -> (forall fs, R (w <| faults := fs |>) (stmt (w <| faults := fs |>)).2) ->
  R w (query stmt w).2.
Proof.
  intros H0 H. unfold query. destruct (negb _); [done|].
  destruct (faults w) as [|[[|lands]|] fs]; [done|apply R_faults| |].
  - cbv zeta. cbn [snd].
    transitivity (if lands then (stmt (w <| faults := fs |>)).2 else w <| faults := fs |>).
    + destruct lands; [|apply R_faults]. transitivity (w <| faults := fs |>); [apply R_faults|apply H].
    + apply R_lose.
  - transitivity (w <| faults := fs |>); [apply R_faults|apply H].
Qed.

Lemma rel_query {A} (stmt : world -> (error + A) * world) :
  (forall w, R w (stmt w).2) -> within_rel (query stmt).
Proof. intros H w. by apply rel_query_at. Qed.

Lemma rel_select {A} (f : world -> A) : within_rel (select f).
Proof. by apply rel_query. Qed.

Lemma rel_update f : (forall w, R w (f w)) -> within_rel (update f).
Proof. intros H. by apply rel_query. Qed.

Lemma rel_quietly m : within_rel m -> within_rel (quietly m).
Proof. intros H. apply rel_attempt; [done|]. intros e. apply rel_ret. Qed.

Lemma rel_strict : within_rel assertStrictSqlMode_on.
Proof.
  apply rel_bind; [apply rel_select|]. intros m. destruct (strict_mode m); [apply rel_ret|apply rel_fail].
Qed.

Lemma rel_note f : within_rel (note f).
Proof. apply rel_modify. intros w. apply R_result. Qed.
End Rules.

Section FramedRules.
Context (R : world -> world -> Prop) `{!Framed R}.

Lemma rel_connect s n : within_rel R (connect s n).
Proof.
  assert (Hl : forall w, R w (lease s w)) by (intros w; apply R_frame; unfold lease; by destruct (pool w)).
  induction n as [|n IH]; intros w; [done|]. simpl.
  assert (Hf : forall fs, R w (w <| faults := fs |>)) by (intros fs; by apply R_frame).
  destruct (faults w) as [|[f|] fs]; [apply Hl| |].
  - transitivity (w <| faults := fs |>); [apply Hf|apply IH].
  - transitivity (w <| faults := fs |>); [apply Hf|apply Hl].
Qed.

Lemma rel_destroy : within_rel R destroy.
Proof. intros w. transitivity (lose w); [apply R_lose|by apply R_frame]. Qed.

Lemma rel_release : within_rel R release.
Proof.
  intros w. unfold release, modify. cbn [snd]. destruct (conn w) as [s|]; [|done].
  transitivity (undo w); [apply R_undo|]. destruct (s_alive s); by apply R_frame.
Qed.

Lemma rel_session_time ms : within_rel R (setSessionStatementTime ms).
Proof. apply (rel_update R). intros w. by apply R_frame. Qed.

Lemma rel_releaseLock : within_rel R releaseMigrationLock.
Proof. apply (rel_quietly R), (rel_update R). intros w. by apply R_frame. Qed.

Lemma rel_get_lock : within_rel R get_lock.
Proof. apply (rel_query R). intros w. destruct (lock_free w); by apply R_frame. Qed.

Lemma rel_activate raw : within_rel R (session_activate raw).
Proof.
  apply (rel_bind R); [apply (rel_gets R)|]. intros t. destruct t; [apply (rel_ret R)|].
  apply (rel_bind R); [apply (rel_modify R); intros w; by apply R_frame|]. intros _.
  apply rel_session_time.
Qed.

Lemma rel_session_release limit : within_rel R (session_release limit).
Proof.
  apply (rel_bind R); [apply (rel_gets R)|]. intros t. destruct t.
  - apply (rel_bind R).
    + apply (rel_attempt R); [|intros e; apply (rel_ret R)].
      apply (rel_bind R); [apply rel_session_time|]. intros _. apply (rel_ret R).
    + intros b. apply (rel_bind R); [apply rel_releaseLock|]. intros _.
      apply (rel_bind R); [destruct b; [apply (rel_ret R)|apply rel_destroy]|]. intros _. apply (rel_ret R).
  - apply (rel_bind R); [apply rel_releaseLock|]. intros _. apply (rel_ret R).
Qed.
End FramedRules.

(** ** Invariants *)

Definition keeps (P : world -> Prop) (w w' : world) : Prop := P w -> P w'.

(** [P] of a world, whatever its faults and its report, which a lost session keeps. *)
Lemma keeps_stepped (P : world -> Prop) :
  (forall w fs, P w -> P (w <| faults := fs |>)) -> (forall w, P w -> P (undo w)) ->
  (forall w, P w -> P (lose w)) -> (forall w f, P w -> P (w <| result ::= f |>)) -> Stepped (keeps P).
Proof.
  intros H1 H4 H2 H3. split; [split|..]; unfold keeps.
  - by intros w.
  - intros w1 w2 w3. naive_solver.
  - auto.
  - auto.
  - auto.
  - auto.
Qed.

(** ** The trace *)

Definition names_of (w : world) : list jstr := map lr_name (rows_of w).

(** The primary key. *)
Definition keyed (w : world) : Prop := NoDup (map lower (names_of w)).

(** What statements leave of the tables. *)
Definition db_after (d : database) (l : list sent) : database :=
  foldl (fun d s => (run_statement (s_text s) d).2) d l.

(** The statements of a file on the tables [d], up to the first that fails. *)
Fixpoint sending (file : jstr) (l : list jstr) (d : database) : list sent :=
  match l with
  | [] => []
  | stmt :: l' =>
      let '(ok, d') := run_statement stmt d in
      Sent file stmt ok :: (if ok then sending file l' d' else [])
  end.

(** Each statement of the file in turn, and each of them succeeded. *)
Definition sent_whole (file raw : jstr) : list sent :=
  map (fun s => Sent file s true) (splitSqlStatements raw).

(** A pinned pair of checksums of the file, the second of them its present one. *)
Definition pinned (file old new : jstr) : Prop :=
  exists raw r, migration_text file = Some raw /\ new = sha256 raw
    /\ assoc file MIGRATION_CHECKSUM_REBASELINES = Some r /\ old ∈ rb_from r /\ new = rb_to r.

(** The same row, but for a checksum the file is pinned to. *)
Definition becomes (r0 r : ledger_row) : Prop :=
  lr_name r0 = lr_name r
  /\ (lr_checksum r0 = lr_checksum r \/ pinned (lr_name r) (lr_checksum r0) (lr_checksum r)).

#[export] Instance becomes_preorder : PreOrder becomes.
Proof.
  split.
  - intros r. split; [done|by left].
  - intros r1 r2 r3 [E1 C1] [E2 C2]. split; [congruence|].
    destruct C2 as [<-|C2]; [by rewrite <- E2|]. right. rewrite E2 in C1.
    destruct C1 as [->|(raw & b & Ht & Hs & Hb & Hin & Hto)]; [done|].
    destruct C2 as (raw' & b' & Ht' & Hs' & Hb' & Hin' & Hto').
    simplify_eq. exists raw, b. split_and!; [done..| |done]. congruence.
Qed.

(** The row the runner records a file with. *)
Definition row_of (file raw : jstr) : ledger_row := LedgerRow file (sha256 raw) (migrationMode raw).

(** How the ledger grows while the statements are sent to the tables [d]: a row is recorded
    where the precondition of its file holds of the tables as they then are, or right after
    its file was run to the end; a checksum moves to the one its file is pinned to; and
    nothing else changes it. *)
Inductive grows : database -> list ledger_row -> list sent -> list ledger_row -> Prop :=
  | grows_end d rows : grows d rows [] rows
  | grows_sent d rows part l rows' :
      grows (db_after d part) rows l rows' -> grows d rows (part ++ l) rows'
  | grows_healed d rows rows1 l rows' :
      Forall2 becomes rows rows1 -> grows d rows1 l rows' -> grows d rows l rows'
  | grows_idle d rows file raw l rows' :
      migration_text file = Some raw -> skipWhen file (catalogue_of d) = true ->
      grows d (rows ++ [row_of file raw]) l rows' -> grows d rows l rows'
  | grows_run d rows file raw l rows' :
      migration_text file = Some raw ->
      grows (db_after d (sent_whole file raw)) (rows ++ [row_of file raw]) l rows' ->
      grows d rows (sent_whole file raw ++ l) rows'.

Lemma db_after_app d l l' : db_after d (l ++ l') = db_after (db_after d l) l'.
Proof. apply foldl_app. Qed.

Lemma grows_trans d rows l rows1 l' rows2 :
  grows d rows l rows1 -> grows (db_after d l) rows1 l' rows2 -> grows d rows (l ++ l') rows2.
Proof.
  induction 1; intros G; rewrite <- ?app_assoc, ?db_after_app in *.
  - done.
  - apply grows_sent. auto.
  - eapply grows_healed; eauto.
  - eapply grows_idle; eauto.
  - apply grows_run; auto.
Qed.

Lemma becomes_all rows : Forall2 becomes rows rows.
Proof. by apply Forall_Forall2_diag, Forall_forall. Qed.

(** No row is lost. *)
Lemma grows_keeps d rows l rows' :
  grows d rows l rows' -> forall r0, r0 ∈ rows -> exists r, r ∈ rows' /\ becomes r0 r.
Proof.
  induction 1 as [|?????? IH|????? Hb ? IH|??????? ?? IH|?????? ?? IH]; intros r0 Hr.
  - by exists r0.
  - auto.
  - apply list_elem_of_lookup in Hr as [i Hi]. destruct (Forall2_lookup_l _ _ _ _ _ Hb Hi) as (r1 & H1 & B).
    destruct (IH r1) as (r & Hr & B'); [by eapply list_elem_of_lookup_2|]. exists r. split; [done|].
    by transitivity r1.
  - apply IH, elem_of_app. by left.
  - apply IH, elem_of_app. by left.
Qed.

Section Trace.
Context (base : list jstr) (admits : database -> jstr -> jstr -> Prop) (known : gmap jstr jstr).

(** The statements come file by file, each file admitted on the tables as they are right
    before its first statement: in order, up to where one failed or the run was cut. *)
Inductive sends : database -> list sent -> Prop :=
  | sends_end d : sends d []
  | sends_file d file raw n l :
      migration_text file = Some raw -> admits d file raw ->
      sends (db_after d (take n (sending file (splitSqlStatements raw) d))) l ->
      sends d (take n (sending file (splitSqlStatements raw) d) ++ l).

Lemma sends_trans d l l' : sends d l -> sends (db_after d l) l' -> sends d (l ++ l').
Proof.
  induction 1; [done|]. rewrite <- app_assoc, db_after_app. intros H'. apply sends_file; auto.
Qed.

(** The names of [base] are there, and what a context took from the ledger, or healed. *)
Definition good (w : world) : Prop :=
  begun w = None /\ keyed w /\ (forall f, f ∈ base -> f ∈ names_of w)
  /\ forall f c, known !! f = Some c ->
     exists r, r ∈ rows_of w /\ lr_name r = f
       /\ (lr_checksum r = c \/ exists raw, migration_text f = Some raw /\ lr_checksum r = sha256 raw).

Definition traced (w w' : world) : Prop :=
  good w -> good w'
  /\ exists new, log w' = log w ++ new /\ db w' = db_after (db w) new
     /\ sends (db w) new /\ grows (db w) (rows_of w) new (rows_of w').

(** Nothing sent. *)
Lemma traced_quiet (w w' : world) :
  (good w -> good w' /\ grows (db w) (rows_of w) [] (rows_of w')) ->
  db w' = db w -> log w' = log w -> traced w w'.
Proof.
  intros H Ed El Hg. destruct (H Hg) as [Hg' G]. split; [done|]. exists [].
  rewrite app_nil_r. split_and!; [done..|apply sends_end|done].
Qed.

Lemma traced_same (w w' : world) :
  db w' = db w -> rows_of w' = rows_of w -> begun w' = begun w \/ begun w' = None -> log w' = log w ->
  traced w w'.
Proof.
  intros Ed Er Eb El. apply traced_quiet; [|done..]. intros (Hb & Hk & Hbase & Hc).
  unfold good, keyed, names_of. rewrite Er.
  split_and!; [destruct Eb; congruence|done..|apply grows_end].
Qed.

#[export] Instance traced_framed : Framed traced.
Proof.
  split; [split|].
  - split.
    + intros w. apply traced_same; [done|done|by left|done].
    + intros w1 w2 w3 H1 H2 Hg. destruct (H1 Hg) as (Hg2 & n1 & E1 & D1 & S1 & G1).
      destruct (H2 Hg2) as (Hg3 & n2 & E2 & D2 & S2 & G2). split; [done|]. exists (n1 ++ n2).
      rewrite D1 in D2, S2, G2. rewrite E2, E1, D2, db_after_app, app_assoc.
      split_and!; [done..|by apply sends_trans|by eapply grows_trans].
  - intros w fs. apply traced_same; [done|done|by left|done].
  - intros w Hg. pose proof Hg as [Hb _]. revert Hg. apply traced_same; [done| |by right|done].
    unfold rows_of, undo. simpl. by rewrite Hb.
  - intros w Hg. pose proof Hg as [Hb _]. revert Hg. apply traced_same; [done| |by right|done].
    unfold rows_of, lose. simpl. by rewrite Hb.
  - intros w f. apply traced_same; [done|done|by left|done].
  - intros w w' Ed El Eb Elog. apply traced_same; [done|by unfold rows_of; rewrite El|by left|done].
Qed.

(** *** The ledger *)

Lemma elem_names w f : f ∈ names_of w <-> exists r, r ∈ rows_of w /\ lr_name r = f.
Proof. unfold names_of. rewrite list_elem_of_fmap. split; intros (r & ? & ?); exists r; by split. Qed.

Lemma traced_ensure : within_rel traced ensureMigrationsLedger.
Proof.
  apply rel_bind; [exact _|apply rel_update; [exact _|]|].
  - intros w. apply traced_same; destruct (ledger w) as [l|] eqn:E; simpl; auto;
      unfold rows_of; simpl; by rewrite E.
  - intros _. apply rel_bind; [exact _|apply rel_select; exact _|]. intros b.
    destruct b; [|apply rel_ret; exact _].
    apply rel_update; [exact _|]. intros w. apply traced_same; simpl; auto.
    unfold rows_of. simpl. by destruct (ledger w).
Qed.

(** A row goes in as the last one, or not at all. *)
Lemma insert_appends r w :
  good w ->
  let w' := (insert_ledger_row r w).2 in
  good w' /\ db w' = db w /\ log w' = log w
  /\ (rows_of w' = rows_of w \/ rows_of w' = rows_of w ++ [r]).
Proof.
  set (R w w' := good w -> good w' /\ db w' = db w /\ log w' = log w
                 /\ (rows_of w' = rows_of w \/ rows_of w' = rows_of w ++ [r])).
  assert (Hsame : forall w w', traced w w' -> db w' = db w -> log w' = log w -> rows_of w' = rows_of w -> R w w').
  { intros v v' T Ed El Er Hg. split_and!; [by apply T|done..|by left]. }
  assert (H : forall w', R w' (match ledger w' with
      | None => (inl QueryFailed, w')
      | Some l => if existsb (fun x => same_name (lr_name x) (lr_name r)) (lt_rows l) then (inl QueryFailed, w')
                  else (inr tt, w' <| ledger := Some (LedgerTable (lt_rows l ++ [r]) (lt_legacy l)) |>)
      end : (error + unit) * world).2).
  { intros w'. destruct (ledger w') as [l|] eqn:El; [|by apply Hsame; [apply traced_same; auto|..]].
    destruct (existsb _ _) eqn:Ex; [by apply Hsame; [apply traced_same; auto|..]|]. cbn [snd].
    assert (Er : rows_of w' = lt_rows l) by (unfold rows_of; by rewrite El).
    intros (Hb & Hk & Hbase & Hc). unfold R, good, keyed, names_of, rows_of in *. simpl. rewrite El in *.
    split_and!; [done| | | |done..|by right].
    - rewrite !map_app, NoDup_app. split_and!; [done| |by apply NoDup_singleton].
      intros x Hx Hin%list_elem_of_singleton. subst x. apply not_true_iff_false in Ex. apply Ex.
      rewrite map_map in Hx. apply list_elem_of_fmap in Hx as (x & E & Hx). apply existsb_exists.
      exists x. split; [by apply list_elem_of_In|by apply eqs_true].
    - intros f Hf. rewrite map_app. apply elem_of_app. left. by apply Hbase.
    - intros f c Hf. destruct (Hc f c Hf) as (x & Hx & Hrest). exists x. split; [|done].
      apply elem_of_app. by left. }
  assert (Hlose : forall w v, R w v -> R w (lose v)).
  { intros w' v Hv Hg. destruct (Hv Hg) as (Hg' & Ed & El & Hr). pose proof Hg' as [Hb _].
    assert (Er : rows_of (lose v) = rows_of v) by (unfold rows_of, lose; simpl; by rewrite Hb).
    rewrite Er. split_and!; [|done..]. exact (proj1 (R_lose (R:=traced) v Hg')). }
  intros Hg. unfold insert_ledger_row, query. destruct (negb _); [by apply (Hsame w w); [apply traced_same; auto|..]|].
  destruct (faults w) as [|[[|lands]|] fs].
  - by apply H.
  - by apply (Hsame w (w <| faults := fs |>)); [exact (R_faults (R:=traced) w fs)|..].
  - cbv zeta. cbn [snd]. apply (Hlose w); [|done]. destruct lands; [pose proof (H (w <| faults := fs |>)) as X; exact X|].
    by apply (Hsame w (w <| faults := fs |>)); [exact (R_faults (R:=traced) w fs)|..].
  - pose proof (H (w <| faults := fs |>)) as X; exact (X Hg).
Qed.

(** A file recorded where it has nothing to do. *)
Lemma traced_insert_idle file raw w :
  migration_text file = Some raw -> skipWhen file (catalogue_of (db w)) = true ->
  traced w (insert_ledger_row (row_of file raw) w).2.
Proof.
  intros Ht Hs Hg. destruct (insert_appends (row_of file raw) w Hg) as (Hg' & Ed & El & Hr).
  split; [done|]. exists []. rewrite app_nil_r. split_and!; [done..|apply sends_end|].
  destruct Hr as [->| ->]; [apply grows_end|]. eapply grows_idle; [done..|apply grows_end].
Qed.

Lemma lower_names_inj w r r' :
  keyed w -> r ∈ rows_of w -> r' ∈ rows_of w -> same_name (lr_name r) (lr_name r') = true -> r = r'.
Proof.
  unfold keyed, names_of. rewrite map_map. intros Hk Hr Hr' E%eqs_true.
  apply list_elem_of_lookup in Hr as [i Hi], Hr' as [j Hj].
  assert (i = j) as ->; [|congruence].
  apply (NoDup_lookup _ i j (lower (lr_name r)) Hk).
  - change (map ?f ?l) with (f <$> l). by rewrite list_lookup_fmap, Hi.
  - change (map ?f ?l) with (f <$> l). rewrite list_lookup_fmap, Hj. simpl. by rewrite E.
Qed.

(** A checksum the run heals: of a row it took from the ledger, to a pinned one. *)
Lemma traced_set_checksum file raw recorded :
  known !! file = Some recorded -> migration_text file = Some raw -> pinned file recorded (sha256 raw) ->
  within_rel traced (set_checksum file (sha256 raw)).
Proof.
  intros Hkn Ht Hp. apply rel_update; [exact _|]. intros w Hg.
  set (f := fun r => if same_name (lr_name r) file then LedgerRow (lr_name r) (sha256 raw) (lr_mode r) else r).
  assert (Er : rows_of (w <| ledger ::= fmap (fun l => LedgerTable (map f (lt_rows l)) (lt_legacy l)) |>)
               = map f (rows_of w)) by (unfold rows_of; simpl; by destruct (ledger w)).
  assert (En : forall r, lr_name (f r) = lr_name r) by (intros r; unfold f; by case_match).
  assert (Ens : map lr_name (map f (rows_of w)) = names_of w)
    by (unfold names_of; rewrite map_map; apply map_ext, En).
  pose proof Hg as (Hb & Hk & Hbase & Hc). destruct (Hc file recorded Hkn) as (rf & Hrf & Enf & Cf).
  assert (Hsame : forall r, r ∈ rows_of w -> same_name (lr_name r) file = true -> r = rf).
  { intros r Hr E. apply (lower_names_inj w); [done..|by rewrite Enf]. }
  assert (Hf : forall x, x ∈ rows_of w -> becomes x (f x)).
  { intros x Hx. split; [by rewrite En|]. rewrite En. unfold f.
    destruct (same_name (lr_name x) file) eqn:E; [|by left].
    apply Hsame in E as ->; [|done]. simpl. rewrite Enf in *.
    destruct Cf as [->|(raw' & Ht' & Hs)]; [by right|]. left. by simplify_eq. }
  revert Hg. apply traced_quiet; [|done..]. intros _.
  unfold good, keyed, names_of. rewrite Er, Ens. split_and!; [done..| |].
  - intros g c Hgc. destruct (Hc g c Hgc) as (x & Hx & Ex & Cx). exists (f x).
    split; [by apply (list_elem_of_fmap_2 f)|]. split; [by rewrite En|].
    unfold f. destruct (same_name (lr_name x) file) eqn:E; [|done].
    apply Hsame in E as ->; [|done]. right. exists raw. split; [congruence|done].
  - eapply grows_healed; [|apply grows_end]. apply Forall2_fmap_r, Forall_Forall2_diag, Forall_forall.
    exact Hf.
Qed.
End Trace.
End Facts.
