(* ===== verification/MigrateFacts.v ===== *)
(** * What a migration run promises

    The statements it sends and the rows it leaves in the ledger, whatever fails on the way,
    and that a full run leaves nothing for a later one. *)
From S2P Require Import Prelude JsNum Config SqlText Regex SqlRules LiveSchema KeyGuards.
From S2P Require Import MigrationTables Runner Migrate RunSample MigrateTrace.
#[local] Open Scope Z_scope.
#[local] Open Scope update_scope.

Section Facts.
Context {Files : Disk} {Srv : Server}.
Context (strictChecksum : bool) (rawTimeout : option jstr) (runtimeTimeoutMs : num).

(** ** Answers *)

Lemma bind_answers {A B} (m : Run A) (k : A -> Run B) w b w' :
  (m ≫= k) w = (inr b, w') -> exists a w1, m w = (inr a, w1) /\ k a w1 = (inr b, w').
Proof.
  unfold mbind, run_bind. destruct (m w) as [[e|a] w1]; [done|]. intros H. by exists a, w1.
Qed.

Lemma ret_answers {A} (a b : A) (w w' : world) : (mret a : Run A) w = (inr b, w') -> b = a /\ w' = w.
Proof. unfold mret, run_ret. intros H. by simplify_eq. Qed.

Lemma ensuring_answers {A} (m : Run A) f w a w' :
  ensuring m f w = (inr a, w') -> exists w1, m w = (inr a, w1) /\ f w1 = (inr tt, w').
Proof.
  unfold ensuring. destruct (m w) as [r w1]. destruct (f w1) as [[e|[]] w2] eqn:E; [done|].
  intros H. simplify_eq. by exists w1.
Qed.

Lemma gets_answers {A} (f : world -> A) w a w' : gets f w = (inr a, w') -> a = f w /\ w' = w.
Proof. unfold gets. intros H. by simplify_eq. Qed.

Lemma query_answers {A} (stmt : world -> (error + A) * world) w a w' :
  query stmt w = (inr a, w') -> exists fs, stmt (w <| faults := fs |>) = (inr a, w').
Proof.
  unfold query. destruct (negb _); [done|]. destruct w; simpl.
  destruct faults as [|[[]|] fs]; [|done..|]; intros H; eexists; exact H.
Qed.

Lemma select_answers {A} (f : world -> A) w a w' :
  select f w = (inr a, w') -> exists fs, a = f (w <| faults := fs |>) /\ w' = w <| faults := fs |>.
Proof. intros (fs & H)%query_answers. simplify_eq. by exists fs. Qed.

Lemma each_answers {A} (f : A -> Run unit) (I : world -> Prop) (P : A -> world -> Prop) l :
  (forall x w w', x ∈ l -> I w -> f x w = (inr tt, w') ->
     I w' /\ P x w' /\ forall y, P y w -> P y w') ->
  forall w w', I w -> each f l w = (inr tt, w') -> I w' /\ forall x, x ∈ l -> P x w'.
Proof.
  intros Hf.
  assert (H : forall l', l' ⊆ l -> forall w w', I w -> each f l' w = (inr tt, w') ->
            I w' /\ (forall x, x ∈ l' -> P x w') /\ forall y, P y w -> P y w').
  { induction l' as [|x l' IH]; intros Hl w w' Hi E.
    - apply ret_answers in E as [_ ->]. split_and!; [done| |done]. intros x Hx. inversion Hx.
    - simpl in E. apply bind_answers in E as ([] & w1 & E1 & E).
      destruct (Hf x w w1) as (Hi1 & Px & Py); [apply Hl, list_elem_of_here|done..|].
      destruct (IH (fun y Hy => Hl y (list_elem_of_further _ _ _ Hy)) w1 w' Hi1 E) as (Hi' & Pl & Pk).
      split_and!; [done| |auto]. intros y [->|Hy]%elem_of_cons; [by apply Pk|by apply Pl]. }
  intros w w' Hi E. destruct (H l (fun x Hx => Hx) w w' Hi E) as (? & ? & _). done.
Qed.

(** ** The guards of an auto file *)

Definition clause_kept (d : database) (c : modify_clause) : Prop :=
  match c with
  | Unparsed _ => False
  | Modify table column definition =>
      forall live, find (fun r => bool_decide (is_Some (COLUMN_TYPE r))) (live_rows d table column) = Some live ->
      losses live definition = []
  end.

Definition declared_unique (table : jstr) : list declared_index :=
  match file_read table_text table with
  | Content data => List.filter index_unique (parseExpectedIndexes data table)
  | _ => []
  end.

(** A unique index of the live table with these columns, in this order. *)
Definition live_unique (d : database) (table : jstr) (columns : list jstr) : Prop :=
  exists live, live ∈ liveUniqueColumnSets (statistics_of d table)
    /\ join_with 44 live = join_with 44 (map lower columns).

Definition target_witnessed (d : database) (table : jstr) : Prop :=
  has_table d table = true -> forall i, i ∈ declared_unique table ->
  index_columns i <> [] /\ live_unique d table (index_columns i).

(** What the four guards of an auto file let through, on the tables [d]. *)
Definition scanned (d : database) (raw : jstr) : Prop :=
  let statements := splitSqlStatements raw in
  destructiveAutoStatement statements = None
  /\ assertNoDeclaredKeyDrop statements table_text = KeysKept
  /\ (forall c, c ∈ modifyClauses statements -> clause_kept d c)
  /\ forall t, t ∈ targetsNeedingWitness statements -> target_witnessed d t.

Lemma member_true s l : member s l = true <-> s ∈ l.
Proof.
  unfold member. rewrite existsb_exists. split.
  - intros (x & Hx & ->%eqs_true). by apply list_elem_of_In.
  - intros H. exists s. split; [by apply list_elem_of_In|by apply eqs_true].
Qed.

Lemma witnessed_live d table declared :
  witnessed declared (statistics_of d table) = true ->
  forall i, i ∈ declared -> index_columns i <> [] /\ live_unique d table (index_columns i).
Proof.
  unfold witnessed. rewrite forallb_forall. intros H i Hi%list_elem_of_In%H.
  apply andb_true_iff in Hi as [Hn Hm%member_true]. split.
  - intros E. by rewrite E in Hn.
  - apply list_elem_of_fmap in Hm as (live & E & Hl). by exists live.
Qed.

Lemma check_clauses_answers file l w w' :
  check_clauses file l w = (inr tt, w') ->
  db w' = db w /\ forall c, c ∈ l -> clause_kept (db w) c.
Proof.
  revert w. induction l as [|c l IH]; intros w H.
  - simpl in H. apply ret_answers in H as [_ ->]. split; [done|]. intros c Hc. inversion Hc.
  - destruct c as [table column definition|x]; [|done]. cbn [check_clauses] in H.
    apply bind_answers in H as (rows & w1 & H1 & H). apply select_answers in H1 as (fs & -> & ->).
    cbn [db] in H. change (db (w <| faults := fs |>)) with (db w) in H.
    assert (check_clauses file l (w <| faults := fs |>) = (inr tt, w')
            /\ clause_kept (db w) (Modify table column definition)) as [H' Hk].
    { simpl. destruct (find _ _) as [live|].
      - destruct (losses live definition) eqn:E; [|done]. split; [done|]. intros x [= <-]. done.
      - split; [done|]. intros x Hx. discriminate Hx. }
    apply IH in H' as [Hd Hl]. change (db (w <| faults := fs |>)) with (db w) in *. split; [done|].
    intros c [->|Hc]%elem_of_cons; [done|by apply Hl].
Qed.

Lemma check_target_answers file table w w' :
  check_target file table w = (inr tt, w') -> db w' = db w /\ target_witnessed (db w) table.
Proof.
  unfold check_target, target_witnessed, declared_unique, declaredUniqueIndexes.
  intros (declared & w1 & H1 & H)%bind_answers.
  assert (Hnone : forall w' w : world, (mret tt : Run unit) w = (inr tt, w') ->
    db w' = db w /\ (has_table (db w) table = true -> forall i : declared_index, i ∈ [] ->
      index_columns i <> [] /\ live_unique (db w) table (index_columns i))).
  { intros v v' [_ ->]%ret_answers. split; [done|]. intros _ i Hi. inversion Hi. }
  destruct (file_read _ _) as [| |data]; [by apply ret_answers in H1 as [-> ->]; apply Hnone|done|].
  apply ret_answers in H1 as [-> ->]. destruct (List.filter _ _) as [|i l] eqn:E; [by apply Hnone|].
  apply bind_answers in H as (b & w2 & H2 & H). apply select_answers in H2 as (fs & -> & ->).
  change (db (w <| faults := fs |>)) with (db w) in H.
  destruct (has_table (db w) table); cbn [negb] in H; [|by apply ret_answers in H as [_ ->]].
  apply bind_answers in H as (rows & w3 & H3 & H). apply select_answers in H3 as (fs' & -> & ->).
  cbn [db] in H. change (db (w <| faults := fs |> <| faults := fs' |>)) with (db w) in H.
  destruct (witnessed _ _) eqn:Ew; [|done]. apply ret_answers in H as [_ ->]. split; [done|].
  intros _. by apply witnessed_live.
Qed.

Lemma refuse_unsafe_answers file raw w w' :
  refuse_unsafe file (splitSqlStatements raw) w = (inr tt, w') -> db w' = db w /\ scanned (db w) raw.
Proof.
  unfold refuse_unsafe, scanned. destruct (destructiveAutoStatement _); [done|].
  destruct (assertNoDeclaredKeyDrop _ _); [|done..].
  intros ([] & w1 & H1 & H)%bind_answers.
  apply check_clauses_answers in H1 as [Hd Hc].
  assert (db w' = db w1 /\ forall t, t ∈ targetsNeedingWitness (splitSqlStatements raw) -> target_witnessed (db w1) t)
    as [Hd' Ht]; [|split_and!; [congruence|done..|by rewrite <- Hd]].
  clear Hc Hd. revert w1 H. unfold assertUniqueKeyWitness.
  induction (targetsNeedingWitness _) as [|t l IH]; intros w1 H.
  - apply ret_answers in H as [_ ->]. split; [done|]. intros t Ht. inversion Ht.
  - simpl in H. apply bind_answers in H as ([] & w2 & H2 & H).
    apply check_target_answers in H2 as [Hd Ht]. destruct (IH _ H) as [Hd' Hl]. rewrite Hd in *.
    split; [done|]. intros x [->|Hx]%elem_of_cons; [done|by apply Hl].
Qed.

Lemma run_all_answers file l w w' :
  each (run_one file) l w = (inr tt, w') -> log w' = log w ++ map (fun s => Sent file s true) l.
Proof.
  revert w. induction l as [|stmt l IH]; intros w H.
  - simpl in H. apply ret_answers in H as [_ ->]. by rewrite app_nil_r.
  - simpl in H. apply bind_answers in H as ([] & w1 & H1 & H). apply query_answers in H1 as [fs H1].
    destruct (run_statement _ _) as [[] d]; [|done]. simplify_eq. rewrite (IH _ H). simpl.
    by rewrite <- app_assoc.
Qed.
(** ** One file *)

Section Rules.
Context (R : world -> world -> Prop) `{!Stepped R}.

Lemma rel_check_clauses file l : within_rel R (check_clauses file l).
Proof.
  induction l as [|c l IH]; [apply rel_ret; exact _|].
  destruct c as [table column definition|x]; [|apply rel_fail; exact _].
  apply rel_bind; [exact _|apply rel_select; exact _|]. intros rows.
  destruct (find _ _) as [live|]; [|done]. destruct (losses _ _); [done|apply rel_fail; exact _].
Qed.

Lemma rel_check_target file table : within_rel R (check_target file table).
Proof.
  apply rel_bind; [exact _| |].
  { unfold declaredUniqueIndexes. destruct (file_read _ _); [apply rel_ret|apply rel_fail|apply rel_ret]; exact _. }
  intros [|i declared]; [apply rel_ret; exact _|].
  apply rel_bind; [exact _|apply rel_select; exact _|]. intros b.
  destruct b; [|apply rel_ret; exact _]. apply rel_bind; [exact _|apply rel_select; exact _|].
  intros rows. destruct (witnessed _ _); [apply rel_ret|apply rel_fail]; exact _.
Qed.

Lemma rel_refuse file statements : within_rel R (refuse_unsafe file statements).
Proof.
  unfold refuse_unsafe. destruct (destructiveAutoStatement _); [apply rel_fail; exact _|].
  destruct (assertNoDeclaredKeyDrop _ _); try (apply rel_fail; exact _).
  apply rel_bind; [exact _|apply rel_check_clauses|]. intros _.
  apply rel_each; [exact _|]. intros t _. apply rel_check_target.
Qed.

Lemma rel_skip file : within_rel R (migrationPreconditionSkip file).
Proof.
  unfold migrationPreconditionSkip. destruct (assoc _ _); [apply rel_select|apply rel_ret]; exact _.
Qed.

Lemma rel_note_pending file : within_rel R (note_pending file).
Proof. apply rel_note; exact _. Qed.

Lemma rel_frontier context file mode : within_rel R (guardMigrationFrontier strictChecksum context file mode).
Proof.
  unfold guardMigrationFrontier. destruct (negb _); [apply rel_ret; exact _|].
  destruct (backdatedFrontierViolation _ _); [|apply rel_ret; exact _].
  destruct (fails_closed _ _); [apply rel_fail|apply rel_ret]; exact _.
Qed.

Lemma rel_unregistered context file checksum :
  within_rel R (guardUnregisteredRename strictChecksum context file checksum).
Proof.
  unfold guardUnregisteredRename. destruct (_ !! _) as [[|c l]|]; [apply rel_ret; exact _| |apply rel_ret; exact _].
  destruct (fails_closed _ _); [apply rel_fail; exact _|].
  apply rel_bind; [exact _|apply rel_note_pending|]. intros _. apply rel_ret; exact _.
Qed.
End Rules.

(** *** The statements of a file *)

(** One statement: the server did not get it, or it ran on the tables. *)
Lemma run_one_sent file stmt w r w' :
  begun w = None -> run_one file stmt w = (r, w') ->
  (ledger w' = ledger w /\ begun w' = None)
  /\ ((r <> inr tt /\ log w' = log w /\ db w' = db w)
      \/ exists ok, log w' = log w ++ [Sent file stmt ok] /\ run_statement stmt (db w) = (ok, db w')
                    /\ (r = inr tt -> ok = true)).
Proof.
  intros Hb. unfold run_one, query. destruct (negb _); [intros [= <- <-]; split; [done|by left]|].
  destruct (faults w) as [|[[|lands]|] fs]; [|intros [= <- <-]; split; [done|by left]| |].
  - destruct (run_statement stmt (db w)) as [ok d] eqn:E. intros [= <- <-]. split; [done|right].
    exists ok. split_and!; [done..|]. by destruct ok.
  - cbv zeta. intros [= <- <-]. destruct lands; simpl.
    + destruct (run_statement stmt (db w)) as [ok d] eqn:E. simpl. rewrite Hb. split; [done|right].
      by exists ok.
    + rewrite Hb. split; [done|by left].
  - simpl. destruct (run_statement stmt (db w)) as [ok d] eqn:E. intros [= <- <-]. split; [done|right].
    exists ok. split_and!; [done..|]. by destruct ok.
Qed.

(** All of them: a first part of what the file sends. *)
Lemma run_all_sent file l w r w' :
  begun w = None -> each (run_one file) l w = (r, w') ->
  (ledger w' = ledger w /\ begun w' = None)
  /\ exists n, log w' = log w ++ take n (sending file l (db w))
       /\ db w' = db_after (db w) (take n (sending file l (db w))).
Proof.
  revert w. induction l as [|stmt l IH]; intros w Hb H.
  - injection H as <- <-. split; [done|]. exists 0%nat. by rewrite app_nil_r.
  - cbn [each] in H. unfold mbind, run_bind in H. cbn [sending].
    destruct (run_one file stmt w) as [r1 w1] eqn:E1.
    destruct (run_one_sent _ _ _ _ _ Hb E1) as [[El Hb1] [(Hr & Elog & Ed)|(ok & Elog & Es & Hr)]].
    + destruct r1 as [e|[]]; [|done]. injection H as <- <-. split; [done|]. exists 0%nat. by rewrite app_nil_r.
    + rewrite Es. destruct r1 as [e|[]].
      * injection H as <- <-. split; [done|]. exists 1%nat. unfold db_after. simpl.
        by rewrite take_0, Es.
      * rewrite Hr in * by done. destruct (IH w1 Hb1 H) as [[El' Hb'] (n & Elog' & Ed')].
        split; [by rewrite El'|]. exists (S n). cbn [take]. unfold db_after. cbn [foldl s_text].
        rewrite Es. split; [by rewrite Elog', Elog, <- app_assoc|done].
Qed.

Lemma rel_at (R : world -> world -> Prop) {A} (m : Run A) w r w' :
  within_rel R m -> m w = (r, w') -> R w w'.
Proof. intros H E. specialize (H w). by rewrite E in H. Qed.

(** The tables are left alone. *)
Definition same_db (w w' : world) : Prop := db w' = db w.

#[export] Instance same_db_framed : Framed same_db.
Proof.
  unfold same_db. split; [split; [split|..]|]; [done|intros w1 w2 w3; congruence|done..].
Qed.

(** A file of the directory. *)
Definition listed (file : jstr) : Prop := exists dir, migrations_dir = Some dir /\ file ∈ sql_files dir.

(** What a run over [names] (all the files where [None]) runs on the tables [d], from a
    ledger with the names [base]. *)
Definition admitted (manual : bool) (names : option (list jstr)) (base : list jstr)
    (d : database) (file raw : jstr) : Prop :=
  listed file /\ test DATED file = true /\ (file ∉ base)
  /\ (forall l, names = Some l -> member file l = true)
  /\ (if eqs (migrationMode raw) (js "auto") then scanned d raw else manual = true).

Section OneRun.
Context (manual : bool) (names : option (list jstr)) (base : list jstr).

#[local] Abbreviation admits := (admitted manual names base).
#[local] Abbreviation traced_run := (traced base admits).

(** The statements, and the row once all of them are through. *)
Lemma traced_statements known file raw w :
  migration_text file = Some raw -> admits (db w) file raw ->
  traced_run known w
    ((each (run_one file) (splitSqlStatements raw);; insert_ledger_row (row_of file raw)) w).2.
Proof.
  intros Ht Ha Hg. pose proof Hg as (Hb & _). unfold mbind, run_bind.
  destruct (each _ _ w) as [r w1] eqn:E. destruct (run_all_sent _ _ _ _ _ Hb E) as [[El Hb1] (n & Elog & Ed)].
  assert (Er : rows_of w1 = rows_of w) by (unfold rows_of; by rewrite El).
  assert (Hg1 : good base known w1).
  { unfold good, keyed, names_of in *. rewrite Er. destruct Hg as (_ & Hg). by split. }
  assert (Hs : sends admits (db w) (take n (sending file (splitSqlStatements raw) (db w)))).
  { rewrite <- (app_nil_r (take _ _)). eapply sends_file; [done..|apply sends_end]. }
  assert (Hq : grows (db w) (rows_of w) (take n (sending file (splitSqlStatements raw) (db w))) (rows_of w1)).
  { rewrite Er, <- (app_nil_r (take _ _)). apply grows_sent, grows_end. }
  destruct r as [e|[]]; [split; [done|by eexists]|]. apply run_all_answers in E. cbv beta.
  destruct (insert_appends base admits known (row_of file raw) w1 Hg1) as (Hg2 & Ed2 & El2 & Hr2).
  split; [done|]. exists (take n (sending file (splitSqlStatements raw) (db w))).
  rewrite Ed2, El2. split_and!; [done..|]. destruct Hr2 as [->| ->]; [done|].
  rewrite Er. rewrite E in Elog. apply app_inv_head in Elog. rewrite <- Elog.
  rewrite <- (app_nil_r (map _ _)). apply (grows_run _ _ file raw); [done|apply grows_end].
Qed.

Lemma traced_apply known file raw :
  migration_text file = Some raw -> listed file -> test DATED file = true -> file ∉ base ->
  (forall l, names = Some l -> member file l = true) ->
  (eqs (migrationMode raw) (js "auto") = false -> manual = true) ->
  within_rel (traced_run known) (applyMigrationFile rawTimeout file raw (sha256 raw) (migrationMode raw)).
Proof.
  intros Ht Hl Hdate Hb Hn Hm. apply rel_bind_at; [exact _| |].
  { destruct (eqs _ _); [apply rel_refuse; exact _|apply rel_ret; exact _]. }
  intros w [] w0 Hs.
  assert (Ha : forall w1, db w1 = db w0 -> admits (db w1) file raw).
  { intros w1 ->. split_and!; [done..|]. destruct (eqs _ _); [|by apply Hm].
    apply refuse_unsafe_answers in Hs as [-> Hs]. done. }
  clear Hs. apply rel_bind_here; [exact _|apply rel_activate; exact _|].
  intros [] w1 E1%(rel_at same_db); [|apply rel_activate; exact _].
  apply rel_bind_here; [exact _|by apply traced_framed|]. intros [] w2 [= <-].
  set (w2 := w1 <| sessionDirty := true |>).
  transitivity ((each (run_one file) (splitSqlStatements raw);; insert_ledger_row (row_of file raw)) w2).2.
  { apply traced_statements; [done|]. by apply Ha. }
  unfold mbind, run_bind. destruct (each _ _ w2) as [[e|[]] w3]; [done|].
  fold (row_of file raw). destruct (insert_ledger_row _ w3) as [[e|[]] w4]; [done|]. by apply traced_framed.
Qed.

Lemma reconcile_never_false context file checksum recorded w w' :
  reconcileAppliedMigration strictChecksum context file checksum recorded w <> (inr false, w').
Proof.
  unfold reconcileAppliedMigration. destruct (eqs _ _); [done|].
  set (heals := match assoc _ _ with Some _ => _ | None => _ end). destruct heals.
  - intros ([] & w1 & _ & H)%bind_answers. by apply ret_answers in H as [H _].
  - by destruct (fails_closed _ _).
Qed.

Lemma mode_or_skip_answers context file raw checksum w mode w' :
  migrationModeOrSkip context file raw checksum w = (inr (Some mode), w') ->
  mode = migrationMode raw /\ (eqs mode (js "auto") = false -> includeManual context = true).
Proof.
  unfold migrationModeOrSkip. intros (b & w1 & _ & H)%bind_answers. destruct b.
  { apply bind_answers in H as ([] & w2 & _ & H). apply bind_answers in H as ([] & w3 & _ & H).
    by apply ret_answers in H as [H _]. }
  destruct (negb (eqs _ _) && negb _) eqn:E.
  { apply bind_answers in H as ([] & w2 & _ & H). by apply ret_answers in H as [H _]. }
  apply ret_answers in H as [H _]. injection H as ->. split; [done|]. intros Ha. rewrite Ha in E.
  by destruct (includeManual context).
Qed.

Lemma traced_mode_or_skip known context file raw :
  migration_text file = Some raw ->
  within_rel (traced_run known) (migrationModeOrSkip context file raw (sha256 raw)).
Proof.
  intros Ht. apply rel_bind_at; [exact _|apply rel_skip; exact _|]. intros w b w' Hs.
  destruct b.
  - assert (Hc : skipWhen file (catalogue_of (db w')) = true).
    { unfold migrationPreconditionSkip in Hs. unfold skipWhen. destruct (assoc _ _) as [skip|]; [|done].
      by apply select_answers in Hs as (fs & E & ->). }
    transitivity (insert_ledger_row (row_of file raw) w').2; [by apply traced_insert_idle|].
    fold (row_of file raw).
    unfold mbind, run_bind. destruct (insert_ledger_row _ _) as [[e|[]] w3]; [done|]. by apply traced_framed.
  - clear Hs. revert w'. destruct (negb _ && negb _).
    + apply (rel_bind (traced_run known)); [apply rel_note_pending; exact _|]. intros _. apply rel_ret; exact _.
    + apply (rel_ret (traced_run known)).
Qed.

Lemma traced_reconcile known context file raw recorded :
  known !! file = Some recorded -> migration_text file = Some raw ->
  within_rel (traced_run known) (reconcileAppliedMigration strictChecksum context file (sha256 raw) recorded).
Proof.
  intros Hk Ht. unfold reconcileAppliedMigration. destruct (eqs recorded _); [apply rel_ret; exact _|].
  destruct (assoc _ _) as [r|] eqn:Er.
  2: { destruct (fails_closed _ _); [apply rel_fail|apply rel_ret]; exact _. }
  destruct (member _ _ && _) eqn:Eh.
  2: { destruct (fails_closed _ _); [apply rel_fail|apply rel_ret]; exact _. }
  apply andb_true_iff in Eh as [Hm He%eqs_true].
  apply rel_bind; [exact _| |intros _; apply rel_ret; exact _].
  eapply traced_set_checksum; [done..|]. exists raw, r. split_and!; [done..| |done].
  by apply member_true.
Qed.

(** What a run took from the ledger is what its context holds. *)
Lemma traced_process known orphan file :
  (forall f, f ∈ base -> is_Some (known !! f)) -> listed file ->
  within_rel (traced_run known)
    (processMigration strictChecksum rawTimeout (RunContext manual names known orphan) file).
Proof.
  intros Hb Hl. unfold processMigration. cbn [appliedByName].
  destruct (in_scope _ _) eqn:Hs; cbn [negb].
  2: { destruct (bool_decide _); [apply rel_ret|apply rel_note_pending]; exact _. }
  unfold assertDatedMigration. destruct (test DATED file) eqn:Hdate; [|apply rel_fail; exact _].
  apply rel_bind; [exact _|apply rel_ret; exact _|]. intros _. destruct (migration_text file) as [raw|] eqn:Ht; [|apply rel_fail; exact _]. cbv zeta.
  apply rel_bind_at; [exact _| |].
  { destruct (known !! file) eqn:E; [by apply traced_reconcile|apply rel_ret; exact _]. }
  intros w done_ w0 Hd. destruct done_; [done|].
  assert (Hf : file ∉ base).
  { intros [c Hc]%Hb. rewrite Hc in Hd. by apply reconcile_never_false in Hd. }
  clear Hd. revert w0.
  apply (rel_bind (traced_run known)); [apply rel_unregistered; exact _|]. intros renamed.
  destruct renamed; [apply rel_ret; exact _|].
  apply rel_bind_at; [exact _|by apply traced_mode_or_skip|].
  intros w1 [mode|] w2 Hm; [|done]. apply mode_or_skip_answers in Hm as [-> Hm].
  revert w2. apply (rel_bind (traced_run known)); [apply rel_frontier; exact _|]. intros _.
  apply traced_apply; [done..| |done]. intros l ->. done.
Qed.

(** ** A run *)

Definition read_of (known : gmap jstr jstr) (w : world) : Prop :=
  (forall f, f ∈ names_of w -> is_Some (known !! f))
  /\ forall f c, known !! f = Some c -> exists r, r ∈ rows_of w /\ lr_name r = f /\ lr_checksum r = c.

Lemma load_answers files w a w' :
  loadAppliedLedger files w = (inr a, w') -> read_of a.1 w'.
Proof.
  unfold loadAppliedLedger. intros (rows & w1 & H1 & H)%bind_answers. apply query_answers in H1 as [fs H1].
  apply bind_answers in H as (m & w2 & H2 & H). apply ret_answers in H as [-> ->].
  apply ret_answers in H2 as [-> ->]. cbn [fst].
  destruct (ledger _) as [l|] eqn:El in H1; [|done]. simplify_eq. unfold read_of, names_of, rows_of.
  rewrite El. clear El. induction (lt_rows l) as [|r rows [IH1 IH2]] using rev_ind.
  - split; [intros f Hf; inversion Hf|]. intros f c Hf. simpl in Hf. by rewrite lookup_empty in Hf.
  - rewrite foldl_app, map_app. simpl. split.
    + intros f [Hf| ->%list_elem_of_singleton]%elem_of_app; [|rewrite lookup_insert_eq; by eexists].
      destruct (decide (f = lr_name r)) as [->|Hne]; [rewrite lookup_insert_eq; by eexists|].
      rewrite lookup_insert_ne by done. by apply IH1.
    + intros f c [[<- <-]|[Hne Hf]]%lookup_insert_Some.
      * exists r. split_and!; [|done..]. apply elem_of_app. right. by apply list_elem_of_singleton.
      * destruct (IH2 f c Hf) as (x & Hx & E). exists x. split; [|done]. apply elem_of_app. by left.
Qed.

Lemma traced_known known w w' :
  read_of known w -> traced_run known w w' -> traced_run ∅ w w'.
Proof.
  intros [_ Hr] H (Hb & Hk & Hbase & _). destruct H as (Hg & H).
  - split_and!; [done..|]. intros f c Hf. destruct (Hr f c Hf) as (r & Hin & En & Ec).
    exists r. split_and!; [done..|by left].
  - split; [|done]. destruct Hg as (Hb' & Hk' & Hbase' & _). split_and!; [done..|].
    intros f c Hf. by rewrite lookup_empty in Hf.
Qed.

Lemma traced_start known :
  within_rel (traced_run known)
    (if bool_decide (names = None) then session_activate rawTimeout else mret tt).
Proof. destruct (bool_decide _); [apply rel_activate|apply rel_ret]; exact _. Qed.

Lemma traced_load known files : within_rel (traced_run known) (loadAppliedLedger files).
Proof.
  apply rel_bind; [exact _| |].
  - apply rel_query; [exact _|]. intros w. by destruct (ledger w).
  - intros rows. apply rel_bind; [exact _|apply rel_ret; exact _|]. intros m. apply rel_ret; exact _.
Qed.

Lemma traced_locked dir files :
  migrations_dir = Some dir -> files = sql_files dir ->
  within_rel (traced_run ∅) (locked_run strictChecksum rawTimeout manual names files).
Proof.
  intros Hd Hf. apply rel_bind; [exact _|apply traced_start|]. intros _.
  apply rel_bind; [exact _|apply traced_ensure|]. intros _.
  apply rel_bind_at; [exact _|apply traced_load|].
  intros w a w' Ha. apply load_answers in Ha as Hr. intros Hg.
  assert (Hbase : forall f, f ∈ base -> f ∈ names_of w') by apply Hg. revert Hg.
  apply traced_known with a.1; [done|].
  refine (rel_each (traced_run a.1) (processMigration _ _ _) files _ w'). intros file Hfile.
  apply traced_process; [|by exists dir; subst files].
  intros f Hin. by apply Hr, Hbase.
Qed.

Lemma traced_leased dir files :
  migrations_dir = Some dir -> files = sql_files dir ->
  within_rel (traced_run ∅) (leased_run strictChecksum rawTimeout runtimeTimeoutMs manual names files).
Proof.
  intros Hd Hf. apply rel_bind; [exact _| |].
  { apply rel_attempt; [exact _|apply rel_strict; exact _|]. intros e.
    apply rel_bind; [exact _|apply rel_modify; intros w; by apply traced_framed|]. intros _. apply rel_fail; exact _. }
  intros _. apply rel_bind; [exact _|apply rel_get_lock; exact _|]. intros got.
  destruct got; [|apply rel_note; exact _].
  apply rel_ensuring; [exact _|by eapply traced_locked|].
  apply rel_bind; [exact _|apply rel_session_release; exact _|]. intros back.
  apply rel_modify. intros w. by apply traced_framed.
Qed.
End OneRun.

Definition chosen (names : option (list jstr)) : option (list jstr) := only_names <$> names.

Lemma traced_inner manual names base :
  within_rel (traced base (admitted manual (chosen names) base) ∅)
    (runMigrationsInner strictChecksum rawTimeout runtimeTimeoutMs manual names).
Proof.
  unfold runMigrationsInner. cbv zeta.
  apply rel_bind; [exact _|apply rel_modify; intros w; by apply traced_framed|]. intros _.
  destruct migrations_dir as [dir|] eqn:Hd; [|apply rel_ret; exact _]. simpl.
  destruct (sql_files dir) as [|f0 fs] eqn:Hf; [apply rel_ret; exact _|]. rewrite <- Hf.
  apply rel_bind; [exact _| |].
  { unfold validateMigrationTargets. destruct (only_names <$> names) as [[|n l]|]; [apply rel_fail| |apply rel_ret]; try exact _.
    destruct (List.filter _ _); [apply rel_ret|apply rel_fail]; exact _. }
  intros _. apply rel_bind; [exact _|apply rel_connect; exact _|]. intros _.
  apply rel_ensuring; [exact _|by eapply traced_leased|].
  apply rel_bind; [exact _|apply rel_gets; exact _|]. intros back.
  apply rel_bind; [exact _|apply rel_gets; exact _|]. intros dirty.
  destruct back; [|apply rel_ret; exact _]. destruct dirty; [apply rel_destroy|apply rel_release]; exact _.
Qed.

Lemma rel_own (R : world -> world -> Prop) `{!Framed R} m :
  within_rel R m -> within_rel R (on_own_connection runtimeTimeoutMs m).
Proof.
  intros H. apply rel_bind; [exact _|apply rel_connect; exact _|]. intros _.
  apply rel_ensuring; [exact _|done|apply rel_release; exact _].
Qed.

Lemma rel_contract (R : world -> world -> Prop) `{!Framed R} contract :
  within_rel R (assert_contract runtimeTimeoutMs contract).
Proof.
  apply rel_own; [exact _|]. apply rel_bind; [exact _|apply rel_select; exact _|].
  intros v. destruct v; [apply rel_ret|apply rel_fail..]; exact _.
Qed.

Lemma traced_migrations manual names base :
  within_rel (traced base (admitted manual (chosen names) base) ∅)
    (runMigrations strictChecksum rawTimeout runtimeTimeoutMs manual names).
Proof.
  apply rel_bind; [exact _|apply rel_own, rel_strict; exact _|]. intros _.
  apply rel_bind; [exact _|apply traced_inner|]. intros _.
  apply rel_bind; [exact _|apply rel_gets; exact _|]. intros r.
  apply rel_bind; [exact _| |intros _; apply rel_ret; exact _].
  apply rel_each; [exact _|]. intros contract _. by apply rel_contract; exact _.
Qed.
(** ** A full run *)

(** The ledger has the file with its present checksum. *)
Definition up_to_date (file : jstr) (w : world) : Prop :=
  exists raw r, migration_text file = Some raw /\ r ∈ rows_of w /\ lr_name r = file
    /\ lr_checksum r = sha256 raw.

Lemma up_to_date_grows base admits known file w w' :
  traced base admits known w w' -> good base known w -> up_to_date file w -> up_to_date file w'.
Proof.
  intros H Hg (raw & r & Ht & Hr & <- & Hc). destruct (H Hg) as (_ & new & _ & _ & _ & G).
  destruct (grows_keeps _ _ _ _ G r Hr) as (r' & Hr' & En & C). exists raw, r'. split_and!; [done..|].
  destruct C as [<-|(raw' & b & Ht' & -> & _)]; [done|]. congruence.
Qed.

Lemma same_name_refl a : same_name a a = true.
Proof. by apply eqs_true. Qed.

Lemma insert_answers r w w' : insert_ledger_row r w = (inr tt, w') -> r ∈ rows_of w'.
Proof.
  intros [fs H]%query_answers. destruct (ledger _) as [l|]; [|done]. destruct (existsb _ _); [done|].
  simplify_eq. unfold rows_of. simpl. apply elem_of_app. right. by apply list_elem_of_singleton.
Qed.

Lemma insert_up_to_date file raw mode w w' :
  migration_text file = Some raw ->
  insert_ledger_row (LedgerRow file (sha256 raw) mode) w = (inr tt, w') -> up_to_date file w'.
Proof. intros Ht H%insert_answers. by eexists raw, _. Qed.

Lemma apply_up_to_date file raw w w' :
  migration_text file = Some raw ->
  applyMigrationFile rawTimeout file raw (sha256 raw) (migrationMode raw) w = (inr tt, w') ->
  up_to_date file w'.
Proof.
  intros Ht. unfold applyMigrationFile. do 4 (intros ([] & ? & _ & H)%bind_answers; revert H).
  intros ([] & w1 & H1 & H)%bind_answers. apply insert_up_to_date in H1; [|done].
  unfold note, modify in H. by simplify_eq.
Qed.

Lemma reconcile_up_to_date base known orphan file raw recorded w w' :
  good base known w -> known !! file = Some recorded -> migration_text file = Some raw ->
  reconcileAppliedMigration strictChecksum (RunContext true None known orphan) file (sha256 raw) recorded w
    = (inr true, w') -> up_to_date file w'.
Proof.
  intros (_ & _ & _ & Hk) Hf Ht H. destruct (Hk file recorded Hf) as (r & Hr & En & Ec).
  unfold reconcileAppliedMigration in H. destruct (eqs recorded _) eqn:E.
  - apply eqs_true in E as ->. apply ret_answers in H as [_ ->]. exists raw, r. split_and!; [done..|].
    destruct Ec as [Ec|(raw' & Ht' & Ec)]; congruence.
  - set (heals := match assoc _ _ with Some _ => _ | None => _ end) in H. destruct heals; [|done].
    apply bind_answers in H as ([] & w1 & H1 & H). apply ret_answers in H as [_ ->].
    apply query_answers in H1 as [fs H1]. simplify_eq.
    eexists raw, _. split_and!; [done| | |].
    + unfold rows_of in *. simpl. destruct (ledger w) as [l|]; [|by inversion Hr]. simpl.
      by apply (list_elem_of_fmap_2 _ _ r).
    + simpl. by rewrite same_name_refl.
    + simpl. by rewrite same_name_refl.
Qed.

Lemma process_up_to_date known orphan file w w' :
  good [] known w ->
  processMigration strictChecksum rawTimeout (RunContext true None known orphan) file w = (inr tt, w') ->
  up_to_date file w'.
Proof.
  intros Hg. unfold processMigration. cbn [in_scope only negb appliedByName].
  intros ([] & w1 & H1 & H)%bind_answers.
  assert (w1 = w) as -> by (unfold assertDatedMigration in H1; destruct (test _ _); [by apply ret_answers in H1 as [_ ->]|done]).
  destruct (migration_text file) as [raw|] eqn:Ht; [|done]. cbv zeta in H.
  apply bind_answers in H as (done_ & w2 & H2 & H).
  destruct (known !! file) as [recorded|] eqn:Ek.
  - destruct done_; [|by apply reconcile_never_false in H2].
    apply ret_answers in H as [_ ->]. by eapply reconcile_up_to_date.
  - apply ret_answers in H2 as [-> ->]. apply bind_answers in H as (renamed & w3 & H3 & H).
    destruct renamed.
    { unfold guardUnregisteredRename, fails_closed in H3. simpl in H3. by destruct (orphan !! _) as [[]|]. }
    apply bind_answers in H as (mode & w4 & H4 & H). destruct mode as [mode|].
    + apply mode_or_skip_answers in H4 as [-> _]. apply bind_answers in H as ([] & w5 & _ & H).
      by eapply apply_up_to_date.
    + apply ret_answers in H as [_ ->]. revert H4. unfold migrationModeOrSkip.
      intros (skip & w5 & _ & H)%bind_answers. destruct skip; [|by rewrite andb_false_r in H].
      apply bind_answers in H as ([] & w6 & H6 & H). apply insert_up_to_date in H6; [|done].
      apply bind_answers in H as ([] & w7 & H7 & H). apply ret_answers in H as [_ ->].
      unfold note, modify in H7. by simplify_eq.
Qed.

Lemma good_start w : begun w = None -> keyed w -> good [] ∅ w.
Proof.
  intros Hb Hk. split_and!; [done..| |]; [intros f Hin; inversion Hin|].
  intros f c Hc. by rewrite lookup_empty in Hc.
Qed.

Lemma locked_up_to_date dir files w w' :
  migrations_dir = Some dir -> files = sql_files dir -> begun w = None -> keyed w ->
  locked_run strictChecksum rawTimeout true None files w = (inr tt, w') ->
  good [] ∅ w' /\ forall file, file ∈ files -> up_to_date file w'.
Proof.
  intros Hd Hf Hb Hk H. assert (Hg : good [] ∅ w) by by apply good_start.
  unfold locked_run in H.
  apply bind_answers in H as ([] & w1 & H1 & H). apply bind_answers in H as ([] & w2 & H2 & H).
  apply bind_answers in H as (a & w3 & H3 & H).
  assert (Hg3 : good [] a.1 w3).
  { apply (rel_at _ _ _ _ _ (traced_start true None [] ∅)), proj1 in H1; [|done].
    apply (rel_at _ _ _ _ _ (traced_ensure [] (fun _ _ _ => True) ∅)), proj1 in H2; [|done].
    destruct (load_answers _ _ _ _ H3) as [_ Hr].
    apply (rel_at _ _ _ _ _ (traced_load true None [] ∅ files)), proj1 in H3; [|done].
    destruct H3 as (Hb3 & Hk3 & Hn3 & _). split_and!; [done..|].
    intros f c Hf'. destruct (Hr f c Hf') as (r & Hin & En & Ec). exists r. split_and!; [done..|by left]. }
  apply (each_answers _ (good [] a.1) up_to_date) in H; [|intros file w4 w5 Hin Hg4 H5|done].
  - destruct H as [(Hb' & Hk' & _ & _) Hup]. split; [by apply good_start|done].
  - assert (T : traced [] (admitted true None []) a.1 w4 w5).
    { eapply rel_at; [|exact H5]. apply traced_process; [intros f Hf'; inversion Hf'|by exists dir; subst files]. }
    split_and!; [by apply T|by eapply process_up_to_date|]. intros y. by eapply up_to_date_grows.
Qed.

(** Nothing the ledger and the log are made of. *)
Lemma up_to_date_kept {A} (m : Run A) w r w' :
  (forall R `{!Framed R}, within_rel R m) -> good [] ∅ w -> m w = (r, w') ->
  good [] ∅ w' /\ forall file, up_to_date file w -> up_to_date file w'.
Proof.
  intros Hm Hg E. assert (T : traced [] (fun _ _ _ => True) ∅ w w') by (eapply rel_at; [apply Hm; exact _|done]).
  split; [by apply T|]. intros file. by eapply up_to_date_grows.
Qed.

Lemma retire_up_to_date w w' :
  (back ← gets returnToPool; dirty ← gets sessionDirty;
   if (back : bool) then retireMigrationConnection dirty else mret tt) w = (inr tt, w') ->
  result w' = result w /\ rows_of w' = rows_of w \/ begun w <> None.
Proof.
  intros (b & w1 & [-> ->]%gets_answers & H)%bind_answers.
  apply bind_answers in H as (d & w2 & [-> ->]%gets_answers & H). destruct (begun w) eqn:Eb; [by right|left].
  destruct (returnToPool w); [|by apply ret_answers in H as [_ ->]].
  destruct (sessionDirty w); cbn in H; unfold destroy, release, modify in H; simplify_eq.
  - unfold rows_of, lose. simpl. by rewrite Eb.
  - destruct (conn w) as [s|]; [destruct (s_alive s)|]; (split; [done|]); unfold rows_of; simpl; by rewrite ?Eb.
Qed.

Lemma leased_up_to_date dir files w w' :
  migrations_dir = Some dir -> files = sql_files dir -> begun w = None -> keyed w ->
  leased_run strictChecksum rawTimeout runtimeTimeoutMs true None files w = (inr tt, w') ->
  good [] ∅ w' /\ (lockSkipped (result w') = true \/ forall file, file ∈ files -> up_to_date file w').
Proof.
  intros Hd Hf Hb Hk H. split.
  { eapply (rel_at (traced [] (admitted true None []) ∅)) in H; [|by eapply traced_leased].
    by apply H, good_start. }
  unfold leased_run in H. apply bind_answers in H as ([] & w1 & H1 & H).
  apply bind_answers in H as (got & w2 & H2 & H). destruct got; cbn [negb] in H.
  2: { left. unfold note, modify in H. by simplify_eq. }
  right. apply ensuring_answers in H as (w3 & H3 & H4).
  assert (Hg2 : good [] ∅ w2).
  { eapply (up_to_date_kept get_lock); [intros; by apply rel_get_lock| |done].
    eapply (up_to_date_kept (attempt _ _)); [|by apply good_start|done].
    intros R HR. apply rel_attempt; [exact _|apply rel_strict; exact _|]. intros e.
    apply rel_bind; [exact _|apply rel_modify; intros w4; by apply HR|]. intros _. apply rel_fail; exact _. }
  destruct Hg2 as (Hb2 & Hk2 & _). eapply locked_up_to_date in H3 as [Hg3 Hup]; [|done..].
  intros file Hin. eapply (up_to_date_kept (back ← _; modify _)); [|done|done|by apply Hup].
  intros R HR. apply rel_bind; [exact _|apply rel_session_release; exact _|]. intros back.
  apply rel_modify. intros w4. by apply HR.
Qed.

Lemma inner_up_to_date w w' :
  begun w = None -> keyed w ->
  runMigrationsInner strictChecksum rawTimeout runtimeTimeoutMs true None w = (inr tt, w') ->
  good [] ∅ w' /\ (lockSkipped (result w') = true \/ forall file, listed file -> up_to_date file w').
Proof.
  intros Hb Hk H. split.
  { eapply (rel_at (traced [] (admitted true None []) ∅)) in H; [|apply (traced_inner true None [])].
    by apply H, good_start. }
  unfold runMigrationsInner in H. cbv zeta in H. apply bind_answers in H as ([] & w1 & H1 & H).
  destruct migrations_dir as [dir|] eqn:Hd; simpl in H; [|right; intros file (d & Hd' & _); congruence].
  destruct (sql_files dir) as [|f0 fs] eqn:Hf.
  { right. intros file (d & Hd' & Hin). simplify_eq. rewrite Hf in Hin. inversion Hin. }
  apply bind_answers in H as ([] & w2 & [_ ->]%ret_answers & H).
  apply bind_answers in H as ([] & w3 & H3 & H). apply ensuring_answers in H as (w4 & H4 & H5).
  assert (Hg3 : good [] ∅ w3).
  { eapply (up_to_date_kept (getConnection _)); [intros; by apply rel_connect| |done].
    unfold start_run, modify in H1. simplify_eq. by apply good_start. }
  destruct Hg3 as (Hb3 & Hk3 & _). rewrite <- Hf in H4. eapply leased_up_to_date in H4 as [Hg4 Hup]; [|done..].
  apply retire_up_to_date in H5 as [[-> Er]|Hn]; [|by destruct Hn; apply Hg4].
  destruct Hup as [Hl|Hup]; [by left|right]. intros file (d & Hd' & Hin). simplify_eq.
  destruct (Hup file Hin) as (raw & r & Ht & Hr & E). exists raw, r. by rewrite Er.
Qed.

Lemma good_base w : begun w = None -> keyed w -> good (names_of w) ∅ w.
Proof. intros Hb Hk. split_and!; [done..|]. intros f c Hc. by rewrite lookup_empty in Hc. Qed.

(** A run over a ledger that has every file sends nothing. *)
Lemma recorded_run_silent manual names w r w' :
  begun w = None -> keyed w -> (forall file, listed file -> file ∈ names_of w) ->
  runMigrations strictChecksum rawTimeout runtimeTimeoutMs manual names w = (r, w') ->
  log w' = log w /\ begun w' = None /\ keyed w' /\ forall f, f ∈ names_of w -> f ∈ names_of w'.
Proof.
  intros Hb Hk Hall H. eapply (rel_at (traced (names_of w) (admitted manual (chosen names) (names_of w)) ∅)) in H;
    [|apply traced_migrations].
  destruct (H (good_base w Hb Hk)) as ((Hb' & Hk' & Hn & _) & new & E & _ & Hs & _). split_and!; [|done..].
  rewrite E. inversion Hs as [|d file raw n l _ (Hl & _ & Hne & _)]; [by rewrite app_nil_r|].
  destruct Hne. by apply Hall.
Qed.

End Facts.

(** ** The promises *)

Section Promises.
Context {Files : Disk} {Srv : Server}.
Context (strictChecksum : bool) (rawTimeout : option jstr) (runtimeTimeoutMs : num).

(** C14: whatever fails during a run of the migrations, the statements the server gets come
    file by file, each file's in order from its first, up to where one failed or a call
    did.  Each such file is a dated one of the migrations directory, in the
    scope of the run, with no row in the ledger when the run began.  One the run is not told
    to take by hand is tagged auto, passed the scan for destructive statements and the guard
    of the declared keys, and, on the tables as they are right before its first statement: no
    MODIFY of it loses anything the live column has, and every unique index declared for a
    table its key-dependent writes target is there with its columns in order. *)
Theorem runs_send_only_permitted manual names w r w' :
  begun w = None -> keyed w ->
  runMigrations strictChecksum rawTimeout runtimeTimeoutMs manual names w = (r, w') ->
  exists new, log w' = log w ++ new /\ db w' = db_after (db w) new
    /\ sends (admitted manual (chosen names) (names_of w)) (db w) new.
Proof.
  intros Hb Hk H. eapply rel_at in H; [|apply traced_migrations].
  destruct (H (good_base w Hb Hk)) as (_ & new & E & Ed & Hs & _). by exists new.
Qed.

(** C15: whatever fails during a run, the names of the ledger stay distinct and no row is
    lost.  A row is added only where the precondition of its file holds of the tables as they
    are at that moment, so it has nothing to do, or right after each statement of its file
    was sent in turn and succeeded; it has the checksum and the mode of the text of the file.
    And a checksum moves only to the one its file is pinned to. *)
Theorem ledger_rows_are_earned manual names w r w' :
  begun w = None -> keyed w ->
  runMigrations strictChecksum rawTimeout runtimeTimeoutMs manual names w = (r, w') ->
  keyed w'
  /\ (forall row, row ∈ rows_of w -> exists row', row' ∈ rows_of w' /\ becomes row row')
  /\ exists new, log w' = log w ++ new /\ db w' = db_after (db w) new
       /\ grows (db w) (rows_of w) new (rows_of w').
Proof.
  intros Hb Hk H. eapply (rel_at (traced (names_of w) (admitted manual (chosen names) (names_of w)) ∅)) in H;
    [|apply traced_migrations].
  destruct (H (good_base w Hb Hk)) as (Hg & new & E & Ed & _ & G).
  split_and!; [apply Hg|by eapply grows_keeps|by exists new].
Qed.

Lemma migrations_up_to_date w r w' :
  begun w = None -> keyed w ->
  runMigrations strictChecksum rawTimeout runtimeTimeoutMs true None w = (inr r, w') -> lockSkipped r = false ->
  good [] ∅ w' /\ forall file, listed file -> up_to_date file w'.
Proof.
  intros Hb Hk H Hl. unfold runMigrations in H.
  apply bind_answers in H as ([] & w1 & H1 & H). apply bind_answers in H as ([] & w2 & H2 & H).
  apply bind_answers in H as (r1 & w3 & [-> ->]%gets_answers & H).
  apply bind_answers in H as ([] & w4 & H4 & H). apply ret_answers in H as [-> ->].
  destruct (up_to_date_kept (assertStrictSqlMode runtimeTimeoutMs) w (inr tt) w1) as [(Hb1 & Hk1 & _) _];
    [intros; apply rel_own, rel_strict; exact _|by apply good_start|done|].
  eapply inner_up_to_date in H2 as [Hg2 [Hs|Hup]]; [congruence| |done..].
  destruct (up_to_date_kept (each (assert_contract runtimeTimeoutMs) CONTRACTS) w2 (inr tt) w4) as [Hg4 Hk4];
    [|done..|by split; auto].
  intros R HR. apply rel_each; [exact _|]. intros contract _. by apply rel_contract.
Qed.

(** C17: after a full run of the command that took the lock and did not throw, the ledger
    has every file of the directory with its present checksum, and no later run, in either
    mode and whatever fails in it, sends a statement of a file. *)
Theorem full_run_settles w r w1 :
  begun w = None -> keyed w ->
  runMigrations strictChecksum rawTimeout runtimeTimeoutMs true None w = (inr r, w1) -> lockSkipped r = false ->
  (forall file, listed file -> up_to_date file w1)
  /\ forall strict manual names r2 w2,
       runMigrations strict rawTimeout runtimeTimeoutMs manual names w1 = (r2, w2) -> log w2 = log w1.
Proof.
  intros Hb Hk H Hl. eapply migrations_up_to_date in H as [(Hb1 & Hk1 & _) Hup]; [|done..]. split; [done|].
  intros strict manual names r2 w2 H2. eapply recorded_run_silent in H2 as [H2 _]; [done..|].
  intros file Hf. apply elem_names. destruct (Hup file Hf) as (raw & row & _ & Hr & En & _). by exists row.
Qed.
End Promises.

(** *** The small run *)

Lemma runs_send_only_permitted_witness :
  length (log (run_sample false (idle [])).2) = 2%nat
  /\ exists new, log (run_sample false (idle [])).2 = [] ++ new
       /\ db (run_sample false (idle [])).2 = db_after [] new
       /\ sends (admitted false (chosen None) (names_of (idle []))) (db (idle [])) new.
Proof.
  split; [by vm_compute|].
  exact (runs_send_only_permitted false None (numZ 30000) false None (idle [])
    (run_sample false (idle [])).1 (run_sample false (idle [])).2 eq_refl NoDup_nil_2
    (surjective_pairing _)).
Defined.

(** The connection is lost after the first statement of the file: no row. *)
Definition cut : world := idle (repeat None 9 ++ [Some (Lost true)]).

Lemma ledger_rows_are_earned_witness :
  let w' := (run_sample true cut).2 in
  length (log w') = 1%nat /\ rows_of w' = []
  /\ keyed w'
  /\ (forall row, row ∈ rows_of cut -> exists row', row' ∈ rows_of w' /\ becomes row row')
  /\ exists new, log w' = [] ++ new /\ db w' = db_after [] new /\ grows [] [] new (rows_of w').
Proof.
  intros w'. split; [by vm_compute|]. split; [by vm_compute|].
  exact (ledger_rows_are_earned false None (numZ 30000) true None cut
    (run_sample true cut).1 w' eq_refl NoDup_nil_2 (surjective_pairing _)).
Defined.

Definition full : run_result := RunResult [auto_file; manual_file] [] [] false.

Lemma full_run_settles_witness :
  let w1 := (run_sample true (idle [])).2 in
  length (log w1) = 3%nat
  /\ (forall file, listed file -> up_to_date file w1)
  /\ forall strict manual names r2 w2,
       runMigrations strict None (numZ 30000) manual names w1 = (r2, w2) -> log w2 = log w1.
Proof.
  intros w1. split; [by vm_compute|].
  refine (full_run_settles false None (numZ 30000) (idle []) full w1 eq_refl NoDup_nil_2 _ eq_refl).
  unfold w1. by vm_compute.
Defined.
