(* ===== verification/MigratePool.v ===== *)
(** * The connections of a migration run

    Whatever fails, a run leases no connection it does not give up, and every connection it
    puts back has the pool's own statement limit and ran no statement of a file. *)
From S2P Require Import Prelude JsNum Config SqlText Regex SqlRules LiveSchema KeyGuards.
From S2P Require Import MigrationTables Runner Migrate RunSample MigrateTrace MigrateFacts.
#[local] Open Scope Z_scope.
#[local] Open Scope update_scope.

Section Facts.
Context {Files : Disk} {Srv : Server}.
Context (strictChecksum : bool) (rawTimeout : option jstr) (limit : num).

Definition clean (s : session) : Prop := s_limit s = limit /\ s_ran s = [].

Definition pool_clean (w : world) : Prop := Forall clean (pool w).

(** ** Between the leases: a connection of its own, and given back *)

Definition leased_clean (w : world) : Prop := pool_clean w /\ forall s, conn w = Some s -> clean s.

Lemma conn_lose w s : conn (lose w) = Some s -> exists s0, conn w = Some s0 /\ s = s0 <| s_alive := false |> <| s_lock := false |>.
Proof. simpl. destruct (conn w) as [s0|]; [|done]. intros [= <-]. by exists s0. Qed.

#[export] Instance leased_stepped : Stepped (keeps leased_clean).
Proof.
  apply keeps_stepped; [exact (fun w _ H => H)|exact (fun w H => H)| |exact (fun w _ H => H)]. intros w [Hp Hc]. split; [done|].
  intros s (s0 & H%Hc & ->)%conn_lose. done.
Qed.

Lemma lease_clean s w : pool_clean w -> clean s -> leased_clean (lease s w).
Proof.
  intros Hp Hs. unfold lease. destruct (pool w) as [|x rest] eqn:E.
  - split; [done|]. simpl. intros s' [= <-]. done.
  - unfold pool_clean in Hp. rewrite E in Hp. inversion Hp; subst. split; [done|]. simpl. intros s' [= <-]. done.
Qed.

Lemma connect_leases s n w r w' :
  pool_clean w -> conn w = None -> clean s -> connect s n w = (r, w') ->
  leased_clean w' /\ touched w' = touched w /\ sessionDirty w' = sessionDirty w
  /\ returnToPool w' = returnToPool w
  /\ (r <> inr tt -> conn w' = None).
Proof.
  intros Hp Hn Hs. revert w Hp Hn. induction n as [|n IH]; intros w Hp Hn H; simpl in H.
  - simplify_eq. split_and!; [|done..]. split; [done|]. intros x Hx. by rewrite Hn in Hx.
  - assert (Hl : forall v, pool_clean v -> leased_clean (lease s v)
        /\ touched (lease s v) = touched v /\ sessionDirty (lease s v) = sessionDirty v
        /\ returnToPool (lease s v) = returnToPool v).
    { intros v Hv. split; [by apply lease_clean|]. unfold lease. by destruct (pool v). }
    destruct (faults w) as [|[f|] fs].
    + simplify_eq. destruct (Hl w Hp) as (H & ? & ? & ?). split; [done|]. split_and!; [done..|intros Hx; by destruct Hx].
    + by apply (IH (w <| faults := fs |>)) in H.
    + injection H as <- <-. specialize (Hl (w <| faults := fs |>)). destruct (Hl Hp) as (H & ? & ? & ?).
      split; [done|]. split_and!; [done..|intros Hx; by destruct Hx].
Qed.

Lemma release_clean w :
  pool_clean w -> (forall s, conn w = Some s -> clean s) ->
  pool_clean (release w).2 /\ conn (release w).2 = None.
Proof.
  intros Hp Hc. unfold release, modify. cbn [snd]. destruct (conn w) as [s|] eqn:E; [|done].
  destruct (s_alive s); [|done]. split; [|done]. constructor; [by apply Hc|done].
Qed.

(** A connection leased for [m] and given back. *)
Lemma own_clean m w r w' :
  within_rel (keeps leased_clean) m -> pool_clean w -> conn w = None ->
  on_own_connection limit m w = (r, w') -> pool_clean w' /\ conn w' = None.
Proof.
  intros Hm Hp Hn. unfold on_own_connection, mbind, run_bind.
  destruct (getConnection limit w) as [r1 w1] eqn:E.
  apply connect_leases in E as (Hl & _ & _ & _ & Hf); [|done..|by split].
  destruct r1 as [e|[]]; [intros H; simplify_eq; split; [apply Hl|by apply Hf]|].
  unfold ensuring. specialize (Hm w1 Hl). destruct (m w1) as [r2 w2].
  destruct (release_clean w2) as [H1 H2]; [apply Hm..|].
  unfold release, modify in *. intros H. by simplify_eq.
Qed.

Lemma strict_clean w r w' :
  pool_clean w -> conn w = None -> assertStrictSqlMode limit w = (r, w') -> pool_clean w' /\ conn w' = None.
Proof. apply own_clean, rel_strict; exact _. Qed.

Lemma contracts_clean w r w' :
  pool_clean w -> conn w = None -> each (assert_contract limit) CONTRACTS w = (r, w') ->
  pool_clean w' /\ conn w' = None.
Proof.
  generalize CONTRACTS. intros l. revert w. induction l as [|c l IH]; intros w Hp Hn.
  - intros H. injection H as <- <-. done.
  - simpl. unfold mbind at 1, run_bind. destruct (assert_contract limit c w) as [r1 w1] eqn:E.
    apply own_clean in E as [Hp1 Hn1]; [| |done..].
    + destruct r1; [intros H; by simplify_eq|]. by apply IH.
    + apply rel_bind; [exact _|apply rel_select; exact _|].
      intros v. destruct v; [apply rel_ret|apply rel_fail..]; exact _.
Qed.

(** ** While the lock is asked for *)

Definition kept (w : world) : Prop :=
  forall s, conn w = Some s -> s_limit s = limit /\ (sessionDirty w = false -> s_ran s = []).

Definition waiting (w : world) : Prop :=
  pool_clean w /\ touched w = false /\ returnToPool w = true /\ kept w.

#[export] Instance waiting_stepped : Stepped (keeps waiting).
Proof.
  apply keeps_stepped; [exact (fun w _ H => H)|exact (fun w H => H)| |exact (fun w _ H => H)]. intros w (Hp & Ht & Hr & Hk). split_and!; [done..|].
  intros s (s0 & H & ->)%conn_lose. exact (Hk s0 H).
Qed.

(** ** While the files run *)

Definition running (w : world) : Prop :=
  pool_clean w
  /\ forall s, conn w = Some s ->
       (touched w = false -> s_limit s = limit) /\ (sessionDirty w = false -> s_ran s = []).

#[export] Instance running_stepped : Stepped (keeps running).
Proof.
  apply keeps_stepped; [exact (fun w _ H => H)|exact (fun w H => H)| |exact (fun w _ H => H)]. intros w (Hp & Hk). split; [done|].
  intros s (s0 & H & ->)%conn_lose. exact (Hk s0 H).
Qed.

(** With a flag up. *)
Lemma flagged_stepped (flag : world -> bool) :
  (forall w fs, flag (w <| faults := fs |>) = flag w) -> (forall w, flag (undo w) = flag w) ->
  (forall w, flag (lose w) = flag w) ->
  (forall w f, flag (w <| result ::= f |>) = flag w) ->
  Stepped (keeps (fun w => flag w = true /\ running w)).
Proof.
  intros H1 H4 H2 H3. apply keeps_stepped.
  - intros w fs [Hf Hw]. split; [by rewrite H1|exact Hw].
  - intros w [Hf Hw]. split; [by rewrite H4|exact Hw].
  - intros w [Hf Hw]. split; [by rewrite H2|by apply (R_lose (R := keeps running))].
  - intros w f [Hf Hw]. split; [by rewrite H3|exact Hw].
Qed.

Lemma running_insert r : within_rel (keeps running) (insert_ledger_row r).
Proof.
  apply rel_query; [exact _|]. intros w H. destruct (ledger w); [|done]. by destruct (existsb _ _).
Qed.

Lemma running_ensure : within_rel (keeps running) ensureMigrationsLedger.
Proof.
  apply rel_bind; [exact _|apply rel_update; [exact _|]; intros w H; by destruct (ledger w)|].
  intros _. apply rel_bind; [exact _|apply rel_select; exact _|]. intros b.
  destruct b; [apply rel_update; [exact _|]; intros w H; exact H|apply rel_ret; exact _].
Qed.

Lemma running_session_time ms w : running w -> touched w = true -> running (setSessionStatementTime ms w).2.
Proof.
  intros Hw Ht.
  pose proof (flagged_stepped touched (fun _ _ => eq_refl) (fun _ => eq_refl) (fun _ => eq_refl) (fun _ _ => eq_refl)).
  assert (Hm : within_rel (keeps (fun w => touched w = true /\ running w)) (setSessionStatementTime ms)).
  { apply rel_update; [exact _|]. intros v [Hv [Hp Hc]]. split; [exact Hv|]. split; [exact Hp|].
    intros s Hs. simpl in Hs. destruct (conn v) as [s0|] eqn:E; [|done]. injection Hs as <-.
    split; [simpl; congruence|]. exact (proj2 (Hc s0 eq_refl)). }
  by apply (Hm w).
Qed.

Lemma running_activate : within_rel (keeps running) (session_activate rawTimeout).
Proof.
  intros w Hw. unfold session_activate, mbind, run_bind, gets.
  destruct (touched w) eqn:Et; [done|]. unfold modify. apply running_session_time; [|done].
  destruct Hw as [Hp Hc]. split; [done|]. intros s Hs. split; [done|]. exact (proj2 (Hc s Hs)).
Qed.

Definition dirtied (w : world) : Prop := sessionDirty w = true /\ running w.

Lemma running_apply file raw checksum mode :
  within_rel (keeps running) (applyMigrationFile rawTimeout file raw checksum mode).
Proof.
  apply rel_bind; [exact _| |].
  { destruct (eqs _ _); [apply rel_refuse|apply rel_ret]; exact _. }
  intros _. apply rel_bind; [exact _|apply running_activate|]. intros _.
  apply rel_bind_at; [exact _| |].
  { apply rel_modify. intros w (Hp & Hc). split; [done|]. intros s Hs. split; [exact (proj1 (Hc s Hs))|done]. }
  intros w [] w1 H. unfold modify in H. injection H as <-. intros Hw.
  assert (Hd : Stepped (keeps dirtied)) by by apply (flagged_stepped sessionDirty).
  assert (Hm : within_rel (keeps dirtied) (each (run_one file) (splitSqlStatements raw);;
     insert_ledger_row (LedgerRow file checksum mode);; note (fun r => r <| applied := applied r ++ [file] |>))).
  { apply rel_bind; [exact _| |intros _; apply rel_bind; [exact _| |intros _; apply rel_note; exact _]].
    - apply rel_each; [exact _|]. intros stmt _. apply rel_query; [exact _|]. intros v [Hv [Hp Hc]].
      destruct (run_statement _ _) as [ok d]. split; [exact Hv|]. split; [exact Hp|]. intros s Hs. simpl in Hs.
      destruct (conn v) as [s0|] eqn:E; [|done]. injection Hs as <-.
      split; [exact (proj1 (Hc s0 eq_refl))|simpl; congruence].
    - apply rel_query; [exact _|]. intros v Hv. destruct (ledger v); [|exact Hv]. destruct (existsb _ _); exact Hv. }
  apply (Hm (w <| sessionDirty := true |>)). by split.
Qed.

Lemma running_process context file :
  within_rel (keeps running) (processMigration strictChecksum rawTimeout context file).
Proof.
  unfold processMigration. destruct (in_scope _ _); cbn [negb].
  2: { destruct (bool_decide _); [apply rel_ret|apply rel_note_pending]; exact _. }
  apply rel_bind; [exact _|unfold assertDatedMigration; destruct (test _ _); [apply rel_ret|apply rel_fail]; exact _|].
  intros _. destruct (migration_text file) as [raw|]; [|apply rel_fail; exact _]. cbv zeta.
  apply rel_bind; [exact _| |].
  { destruct (_ !! _) as [recorded|]; [|apply rel_ret; exact _]. unfold reconcileAppliedMigration.
    destruct (eqs _ _); [apply rel_ret; exact _|]. set (heals := match assoc _ _ with Some _ => _ | None => _ end).
    destruct heals.
    - apply rel_bind; [exact _|apply rel_update; [exact _|]; intros w H; exact H|]. intros _. apply rel_ret; exact _.
    - destruct (fails_closed _ _); [apply rel_fail|apply rel_ret]; exact _. }
  intros done_. destruct done_; [apply rel_ret; exact _|].
  apply rel_bind; [exact _|apply rel_unregistered; exact _|]. intros renamed.
  destruct renamed; [apply rel_ret; exact _|].
  apply rel_bind; [exact _| |].
  { apply rel_bind; [exact _|apply rel_skip; exact _|]. intros skip. destruct skip.
    - apply rel_bind; [exact _|apply running_insert|]. intros _.
      apply rel_bind; [exact _|apply rel_note; exact _|]. intros _. apply rel_ret; exact _.
    - destruct (negb _ && negb _); [|apply rel_ret; exact _].
      apply rel_bind; [exact _|apply rel_note_pending; exact _|]. intros _. apply rel_ret; exact _. }
  intros [mode|]; [|apply rel_ret; exact _].
  apply rel_bind; [exact _|apply rel_frontier; exact _|]. intros _. apply running_apply.
Qed.

Lemma running_locked manual names files :
  within_rel (keeps running) (locked_run strictChecksum rawTimeout manual names files).
Proof.
  apply rel_bind; [exact _|destruct (bool_decide _); [apply running_activate|apply rel_ret; exact _]|].
  intros _. apply rel_bind; [exact _|apply running_ensure|]. intros _.
  apply rel_bind; [exact _| |intros a; apply rel_each; [exact _|]; intros file _; apply running_process].
  apply rel_bind; [exact _|apply rel_query; [exact _|]; intros w H; by destruct (ledger w)|].
  intros rows. apply rel_bind; [exact _|apply rel_ret; exact _|]. intros m. apply rel_ret; exact _.
Qed.

(** ** At the end *)

Lemma running_unlock : within_rel (keeps running) releaseMigrationLock.
Proof.
  apply rel_quietly, rel_update; [exact _..|]. intros w [Hp Hc]. split; [exact Hp|]. intros s Hs.
  simpl in Hs. destruct (conn w) as [s0|] eqn:E; [|done]. injection Hs as <-. exact (Hc s0 eq_refl).
Qed.

(** The lock's release changes no limit. *)
Lemma unlock_limit :
  within_rel (keeps (fun w => running w /\ forall s, conn w = Some s -> s_limit s = limit)) releaseMigrationLock.
Proof.
  set (P := fun w => running w /\ forall s, conn w = Some s -> s_limit s = limit).
  assert (Stepped (keeps P)).
  { apply keeps_stepped; [exact (fun w _ H => H)|exact (fun w H => H)| |exact (fun w _ H => H)]. intros w [Hr Hl]. split.
    - by apply (R_lose (R := keeps running)).
    - intros s (s0 & H & ->)%conn_lose. exact (Hl s0 H). }
  apply rel_quietly, rel_update; [exact _..|]. intros w [[Hp Hc] Hl]. split; [split; [exact Hp|]|];
    intros s Hs; simpl in Hs; (destruct (conn w) as [s0|] eqn:E; [|done]); injection Hs as <-;
    [exact (Hc s0 eq_refl)|exact (Hl s0 eq_refl)].
Qed.

Lemma quietly_answers m w : exists w', quietly m w = (inr tt, w').
Proof.
  unfold quietly, attempt. destruct (m w) as [[e|[]] w'] eqn:E; exists w'; [done|]. done.
Qed.

Lemma session_time_limit w w' :
  setSessionStatementTime limit w = (inr tt, w') -> forall s, conn w' = Some s -> s_limit s = limit.
Proof.
  intros [fs H]%query_answers. injection H as <-. intros s Hs. simpl in Hs.
  destruct (conn w); [|done]. by injection Hs as <-.
Qed.

Lemma release_settles w :
  running w -> exists back w', session_release limit w = (inr back, w') /\ running w'
    /\ (back = true -> forall s, conn w' = Some s -> s_limit s = limit)
    /\ (back = false -> conn w' = None).
Proof.
  intros Hw. unfold session_release, mbind, run_bind, gets. destruct (touched w) eqn:Et.
  - unfold restoreRuntimeTimeoutAndReleaseLock, mbind, run_bind, attempt.
    pose proof (running_session_time limit w Hw Et) as H1.
    destruct (setSessionStatementTime limit w) as [[e|[]] w1] eqn:E1; cbn [snd] in H1.
    + cbn. destruct (quietly_answers (update (on_session (fun s => s <| s_lock := false |>))) w1) as [w2 E2].
      pose proof (running_unlock w1 H1) as H2. unfold releaseMigrationLock in *. rewrite E2 in *.
      eexists false, _. split_and!; [reflexivity| |done|done].
      split; [exact (proj1 H2)|]. intros s Hs. done.
    + cbn. destruct (quietly_answers (update (on_session (fun s => s <| s_lock := false |>))) w1) as [w2 E2].
      destruct (unlock_limit w1) as [H2 H3]; [split; [done|by eapply session_time_limit]|].
      unfold releaseMigrationLock in *. rewrite E2 in *. eexists true, _. by split_and!.
  - destruct (quietly_answers (update (on_session (fun s => s <| s_lock := false |>))) w) as [w1 E1].
    destruct (unlock_limit w) as [H2 H3]; [split; [done|by intros s Hs; apply Hw]|].
    unfold releaseMigrationLock in *. rewrite E1 in *. eexists true, _. by split_and!.
Qed.

Definition settled (w : world) : Prop :=
  pool_clean w /\ (returnToPool w = true -> kept w) /\ (returnToPool w = false -> conn w = None).

Lemma waiting_settled w : waiting w -> settled w.
Proof. intros (Hp & _ & Hr & Hk). split_and!; [done..|]. by rewrite Hr. Qed.

Lemma leased_settles manual names files w :
  waiting w -> settled (leased_run strictChecksum rawTimeout limit manual names files w).2.
Proof.
  intros Hw. unfold leased_run, mbind, run_bind.
  assert (H1 : within_rel (keeps waiting) (attempt assertStrictSqlMode_on
    (fun e => modify (fun w => w <| sessionDirty := true |>);; fail (A := unit) e))).
  { apply rel_attempt; [exact _|apply rel_strict; exact _|]. intros e.
    apply rel_bind; [exact _|apply rel_modify|intros _; apply rel_fail; exact _].
    intros v (Hp & Ht & Hr & Hk). split; [exact Hp|]. split; [exact Ht|]. split; [exact Hr|].
    intros s Hs. split; [exact (proj1 (Hk s Hs))|done]. }
  specialize (H1 w Hw). unfold mbind, run_bind in H1. destruct (attempt _ _ w) as [[e|[]] w1]; [by apply waiting_settled|].
  assert (H2 : within_rel (keeps waiting) get_lock).
  { apply rel_query; [exact _|]. intros v (Hp & Ht & Hr & Hk). destruct (lock_free v); [|done].
    split; [exact Hp|]. split; [exact Ht|]. split; [exact Hr|]. intros s Hs. simpl in Hs.
    destruct (conn v) as [s0|] eqn:E; [|done]. injection Hs as <-. exact (Hk s0 E). }
  specialize (H2 w1 H1). destruct (get_lock w1) as [[e|[]] w2]; cbn [negb]; [by apply waiting_settled| |].
  2: { apply waiting_settled. exact H2. }
  unfold ensuring. pose proof (running_locked manual names files w2) as H3.
  destruct (locked_run _ _ _ _ _ w2) as [r w3].
  destruct (release_settles w3) as (back & w4 & E & H4 & Hb & Hn).
  { apply H3. destruct H2 as (Hp & _ & _ & Hk). split; [done|]. intros s Hs. split; [intros _|]; by apply Hk. }
  rewrite E. unfold modify. cbn [snd]. split; [exact (proj1 H4)|]. split; [|exact Hn].
  intros Hback s Hs. split; [exact (Hb Hback s Hs)|]. exact (proj2 (proj2 H4 s Hs)).
Qed.

Lemma inner_clean manual names w r w' :
  pool_clean w -> conn w = None ->
  runMigrationsInner strictChecksum rawTimeout limit manual names w = (r, w') ->
  pool_clean w' /\ conn w' = None.
Proof.
  intros Hp Hn. unfold runMigrationsInner. cbv zeta. unfold mbind at 1, run_bind. unfold start_run, modify.
  set (w0 := w <| touched := false |> <| sessionDirty := false |> <| returnToPool := true |> <| result := no_result |>).
  destruct migrations_dir as [dir|]; simpl; [|intros H; by injection H as <- <-].
  destruct (sql_files dir) as [|f0 fs]; [intros H; by injection H as <- <-|].
  unfold mbind at 1, run_bind.
  assert (Hv : (validateMigrationTargets (f0 :: fs) (only_names <$> names) w0).2 = w0).
  { unfold validateMigrationTargets. destruct (_ <$> _) as [[|n l]|]; [done| |done]. by destruct (List.filter _ _). }
  destruct (validateMigrationTargets _ _ w0) as [[e|[]] w1]; cbn [snd] in Hv; subst w1;
    [intros H; by injection H as <- <-|].
  unfold mbind at 1, run_bind. destruct (getConnection limit w0) as [r1 w1] eqn:E.
  apply connect_leases in E as ([Hp1 Hc1] & Ht & Hd & Hr & Hf); [|done..|by split].
  destruct r1 as [e|[]]; [intros H; injection H as <- <-; split; [exact Hp1|by apply Hf]|].
  unfold ensuring. pose proof (leased_settles manual (only_names <$> names) (f0 :: fs) w1) as H2.
  destruct (leased_run _ _ _ _ _ _ w1) as [r2 w2]. cbn [snd] in H2.
  destruct H2 as (Hp2 & Hk & Hnone).
  { split_and!; [done..|]. intros s Hs. destruct (Hc1 s Hs) as [H3 H4]. by split. }
  unfold mbind, run_bind, gets. destruct (returnToPool w2).
  - destruct (sessionDirty w2) eqn:Ed; cbn; [intros H; by injection H as <- <-|].
    destruct (release_clean w2) as [H3 H4]; [done|intros s Hs; destruct (Hk eq_refl s Hs) as [H5 H6]; split; auto|].
    unfold release, modify in *. intros H. by injection H as <- <-.
  - intros H. injection H as <- <-. by split; [|apply Hnone].
Qed.

(** C16: whatever fails during a run of the migrations (a refused statement, a lost
    connection, a guard), no connection stays leased, and every connection in the pool has
    the pool's own statement limit and ran no statement of a file. *)
Theorem runs_leave_the_pool_clean manual names w r w' :
  Forall clean (pool w) -> conn w = None ->
  runMigrations strictChecksum rawTimeout limit manual names w = (r, w') ->
  Forall clean (pool w') /\ conn w' = None.
Proof.
  intros Hp Hn. unfold runMigrations, mbind, run_bind, gets.
  destruct (assertStrictSqlMode limit w) as [r1 w1] eqn:E1. apply strict_clean in E1 as [Hp1 Hn1]; [|done..].
  destruct r1 as [e|[]]; [intros H; by injection H as <- <-|].
  destruct (runMigrationsInner _ _ _ _ _ w1) as [r2 w2] eqn:E2. apply inner_clean in E2 as [Hp2 Hn2]; [|done..].
  destruct r2 as [e|[]]; [intros H; by injection H as <- <-|].
  destruct (each _ _ w2) as [r3 w3] eqn:E3. apply contracts_clean in E3 as [Hp3 Hn3]; [|done..].
  destruct r3 as [e|[]]; intros H; by injection H as <- <-.
Qed.
End Facts.

(** A ledger with the auto file, and an idle connection. *)
Definition idle_pool (fs : list (option fault)) : world :=
  (idle fs) <| pool := [Session (numZ 30000) [] true false] |>
    <| ledger := Some (LedgerTable [LedgerRow auto_file auto_text (js "auto")] false) |>.

(** The call that restores the limit is refused: the connection is closed. *)
Definition stuck : world := idle_pool (repeat None 9 ++ [Some Refused]).

Lemma runs_leave_the_pool_clean_witness :
  length (pool (run_sample false (idle_pool [])).2) = 1%nat
  /\ length (faults (run_sample false stuck).2) = 0%nat
  /\ Forall (clean (numZ 30000)) (pool (run_sample false stuck).2) /\ conn (run_sample false stuck).2 = None.
Proof.
  split; [by vm_compute|]. split; [by vm_compute|].
  refine (runs_leave_the_pool_clean false None (numZ 30000) false None stuck
    (run_sample false stuck).1 (run_sample false stuck).2 _ eq_refl (surjective_pairing _)).
  constructor; [by split|constructor].
Defined.
