(* ===== verification/Setup.v ===== *)
(** * The schema setup

    src/src/db/table_drift.js (but parseExpectedIndexes, which is in [Migrate]) and
    verifyTables of src/src/db/database_setup.js: the tables a boot creates, the columns and
    indexes it brings up to the files of src/sql, and the ledger it fills before it builds a
    database from empty.

    Log lines are left out.  What CREATE DATABASE does is the server's; its database is
    empty or it was there. *)
From S2P Require Import Prelude JsNum Config SqlText Regex SqlRules LiveSchema KeyGuards.
From S2P Require Import MigrationTables Runner Migrate.
#[local] Open Scope Z_scope.
#[local] Open Scope update_scope.

(** ** The columns a file declares *)

Record expected_column := ExpectedColumn {
  ec_name : jstr; ec_nullable : bool; ec_definition : jstr; ec_hasDefault : bool
}.

(** [s.split(re)], of a pattern that matches no empty text. *)
Fixpoint cut (from : nat) (s : jstr) (l : list found) : list jstr :=
  match l with
  | [] => [drop from s]
  | m :: l' => take (length (pre m) - from) (drop from s) :: cut (length (pre m) + length (matched m)) s l'
  end.

Definition split_rx (re : regex) (s : jstr) : list jstr := cut 0 s (exec_all re s).

Definition TABLE_BODY : regex :=
  rx_i "CREATE\s+TABLE\s+(?:IF\s+NOT\s+EXISTS\s+)?\S+\s*\(([\s\S]+?)\)\s*(?:ENGINE\b|;|$)".

Definition NO_COLUMN : regex := rx_i "^(PRIMARY|UNIQUE|INDEX|KEY|CHECK|CONSTRAINT|FOREIGN)\b".

Definition column_nullable (line : jstr) : bool :=
  negb (test (rx_i "\bNOT\s+NULL\b") line) && negb (test (rx_i "\bPRIMARY\s+KEY\b") line)
  && negb (test (rx_i "\bAUTO_INCREMENT\b") line).

Definition expected_part (raw : jstr) : list expected_column :=
  let line := trim (replace_all (rx "--[^\n\x0d]*") (fun _ => []) raw) in
  if is_empty line || test NO_COLUMN line then []
  else
    match split_rx (rx "\s+") line with
    | first :: _ :: _ =>
        [ExpectedColumn (replace_all (rx "`") (fun _ => []) first) (column_nullable line) line
           (test (rx_i "\bDEFAULT\b") line)]
    | _ => []
    end.

(** [None] where the file has no such statement, or it declares no column. *)
Definition parseExpectedColumns (sqlData : jstr) : option (list expected_column) :=
  m ← exec TABLE_BODY (stripSqlLineComments sqlData);
  match concat (map expected_part (split_rx (rx ",(?![^()]*\))") (text (group 1 m)))) with
  | [] => None
  | cols => Some cols
  end.

(** ** A live column *)

(** What a bare MODIFY would take from it. *)
Definition lossy (cur : live_column) : bool :=
  bool_decide (is_Some (COLUMN_DEFAULT cur)) || negb (is_empty (text (COLUMN_COMMENT cur)))
  || negb (is_empty (text (GENERATION_EXPRESSION cur)))
  || test (rx_i "on update") (text (EXTRA cur)).

Definition quoted (name : jstr) : jstr := js "`" ++ name ++ js "`".

(** The statement that relaxes it, if one may. *)
Definition relax_statement (table : jstr) (exp : expected_column) (cur : drift_column) : option jstr :=
  let live := dc_live cur in
  if named_as (text (dc_key cur)) "pri" || test (rx_i "auto_increment") (text (EXTRA live)) then None
  else if lossy live then None
  else
    let collate := match COLLATION_NAME live with
                   | Some c => if test (rx "^[A-Za-z0-9_]+$") c then js " COLLATE " ++ c else []
                   | None => []
                   end in
    Some (js "ALTER TABLE " ++ quoted table ++ js " MODIFY " ++ quoted (ec_name exp) ++ js " "
          ++ default (js "null") (COLUMN_TYPE live) ++ collate ++ js " NULL").

Definition add_column (table : jstr) (exp : expected_column) : jstr :=
  js "ALTER TABLE " ++ quoted table ++ js " ADD COLUMN " ++ ec_definition exp.

(** A Map by name keeps the last row. *)
Definition live_named (name : jstr) (live : list drift_column) : option drift_column :=
  last (List.filter (fun c => eqs (lower (dc_name c)) (lower name)) live).

(** The statement one declared column calls for. *)
Definition column_statement (table : jstr) (live : list drift_column) (exp : expected_column) : option jstr :=
  match live_named (ec_name exp) live with
  | None => if ec_nullable exp || ec_hasDefault exp then Some (add_column table exp) else None
  | Some cur =>
      if negb (eqs (text (IS_NULLABLE (dc_live cur))) (js "YES")) && ec_nullable exp
      then relax_statement table exp cur else None
  end.

(** ** The live indexes *)

Definition complete (r : statistics_row) : option (jstr * bool * jstr) :=
  n ← INDEX_NAME r; c ← COLUMN_NAME r;
  Some (n, bool_decide (default 0 (NON_UNIQUE r) = 0), lower c).

(** The names of the indexes in the order they come. *)
Definition index_names (rows : list (jstr * bool * jstr)) : list jstr :=
  foldl (fun l r => if member r.1.1 l then l else l ++ [r.1.1]) [] rows.

Definition columns_joined (l : list jstr) : jstr := join_with 44 l.

(** Its columns, and whether its first row is unique. *)
Definition index_info (rows : list (jstr * bool * jstr)) (name : jstr) : jstr * bool :=
  let own := List.filter (fun r => eqs r.1.1 name) rows in
  (columns_joined (map snd own), match own with r :: _ => r.1.2 | [] => false end).

(** The last index of a list of columns. *)
Definition liveByCols (rows : list (jstr * bool * jstr)) (key : jstr) : option bool :=
  snd <$> last (List.filter (fun i => eqs i.1 key) (map (index_info rows) (index_names rows))).

Definition index_key (idx : declared_index) : jstr := columns_joined (map lower (index_columns idx)).

(** There already, or its name is taken. *)
Definition index_settled (rows : list (jstr * bool * jstr)) (idx : declared_index) : bool :=
  match liveByCols rows (index_key idx) with
  | Some unique => negb (index_unique idx) || unique
  | None => false
  end
  || existsb (fun r => eqs (lower r.1.1) (lower (index_name idx))) rows.

Fixpoint joined (sep : jstr) (l : list jstr) : jstr :=
  match l with
  | [] => []
  | [x] => x
  | x :: l' => x ++ sep ++ joined sep l'
  end.

Definition add_index (table : jstr) (idx : declared_index) : jstr :=
  js "ALTER TABLE " ++ quoted table ++ js " ADD " ++ (if index_unique idx then js "UNIQUE " else [])
  ++ js "INDEX " ++ quoted (index_name idx) ++ js " (" ++ joined (js ", ") (map quoted (index_columns idx)) ++ js ")".

Definition dedupe_statement (table : jstr) (columns : list jstr) : jstr :=
  js "DELETE t1 FROM " ++ quoted table ++ js " t1 JOIN " ++ quoted table ++ js " t2 ON "
  ++ joined (js " AND ") (map (fun c => js "t1." ++ quoted c ++ js " = t2." ++ quoted c) columns)
  ++ js " AND t1.id < t2.id".

Section Setup.
Context {Files : Disk} {Srv : Server}.

(** [db.query] of a statement that writes: it may fail on a duplicate row. *)
Definition execute (stmt : jstr) : Run unit :=
  query (fun w =>
    let '(ok, d) := run_statement stmt (db w) in
    (if ok then inr tt else inl (if duplicate_entry stmt (db w) then Duplicate else QueryFailed),
     w <| db := d |> <| issued := issued w ++ [stmt] |>)).

Definition execute_some (stmt : option jstr) : Run unit :=
  match stmt with Some s => execute s | None => mret tt end.

(** [readFileSync] of a file of src/sql: whatever is wrong, it throws. *)
Definition read_schema (file : jstr) : Run jstr :=
  match schema_text file with
  | Content data => mret data
  | _ => fail (FileUnreadable file)
  end.

(** [file.indexOf('.sql')] and the text before it. *)
Definition sql_table (file : jstr) : option jstr := pre <$> exec (rx "\.sql") file.

Definition alterTableForDrift (file table : jstr) : Run unit :=
  data ← read_schema file;
  match parseExpectedColumns data with
  | None => mret tt
  | Some expected =>
      live ← select (fun w => table_columns (db w) table);
      each (fun exp => execute_some (column_statement table live exp)) expected
  end.

Definition dedupeForUniqueIndex (table : jstr) (columns : list jstr) : Run bool :=
  hasId ← select (fun w => existsb (fun c => named_as (dc_name c) "id") (table_columns (db w) table));
  if (hasId : bool) then execute (dedupe_statement table columns);; mret true else mret false.

Definition reconcileIndex (table : jstr) (rows : list (jstr * bool * jstr)) (idx : declared_index) : Run unit :=
  if index_settled rows idx then mret tt
  else if negb (index_unique idx) then execute (add_index table idx)
  else
    attempt (execute (add_index table idx)) (fun e =>
      match e with
      | Duplicate =>
          safe ← dedupeForUniqueIndex table (index_columns idx);
          if (safe : bool) then quietly (execute (add_index table idx)) else mret tt
      | _ => mret tt
      end).

(** A row without a name throws before the first statement. *)
Definition reconcileTableIndexes (file table : jstr) : Run unit :=
  quietly
    (data ← read_schema file;
     match parseExpectedIndexes data table with
     | [] => mret tt
     | expected =>
         rows ← select (fun w => statistics_of (db w) table);
         match mapM complete rows with
         | None => fail QueryFailed
         | Some rows => each (reconcileIndex table rows) expected
         end
     end).

(** On the caller's connection. *)
Definition createTable (file : jstr) : Run unit :=
  data ← read_schema file;
  each (fun stmt => if is_empty (trim stmt) then mret tt
                    else attempt (execute (trim stmt)) (fun _ => fail SetupFailed))
    (splitSqlStatements data).

Fixpoint verifyTableFiles (files existing : list jstr) : Run unit :=
  match files with
  | [] => mret tt
  | file :: files' =>
      match sql_table file with
      | None => verifyTableFiles files' existing
      | Some table =>
          attempt
            (if member table existing then
               alterTableForDrift file table;; reconcileTableIndexes file table
             else createTable file)
            (fun _ => fail SetupFailed);;
          verifyTableFiles files' (if member table existing then existing else existing ++ [table])
      end
  end.

Definition declared_tables (files : list jstr) : list jstr :=
  map (fun f => take (length f - 4) f) (List.filter (ends_with (js ".sql")) files).

Definition isFreshSchema (files existing : list jstr) : bool :=
  let declared := declared_tables files in
  negb (bool_decide (declared = [])) && negb (existsb (fun t => member t existing) declared).

(** INSERT ... ON DUPLICATE KEY UPDATE name = name. *)
Definition insert_missing_row (r : ledger_row) : Run unit :=
  query (fun w =>
    match ledger w with
    | None => (inl QueryFailed, w)
    | Some l =>
        if existsb (fun x => same_name (lr_name x) (lr_name r)) (lt_rows l) then (inr tt, w)
        else (inr tt, w <| ledger := Some (LedgerTable (lt_rows l ++ [r]) (lt_legacy l)) |>)
    end).

Definition record_file (file : jstr) : Run unit :=
  match migration_text file with
  | None => fail (FileUnreadable file)
  | Some raw => insert_missing_row (LedgerRow file (sha256 raw) (migrationMode raw))
  end.

Definition start_transaction : Run unit := update (fun w => w <| begun := Some (ledger w) |>).
Definition commit : Run unit := update (fun w => w <| begun := None |>).
Definition rollback : Run unit := update undo.

Definition recordFreshSchemaMigrations : Run unit :=
  match sql_files <$> migrations_dir with
  | None | Some [] => mret tt
  | Some files =>
      ensureMigrationsLedger;;
      got ← get_lock;
      if negb got then fail SetupFailed
      else
        ensuring
          (start_transaction;;
           attempt (each record_file files;; commit) (fun e => quietly rollback;; fail e))
          releaseMigrationLock
  end.

(** A throw of the listing leaves the connection leased: the release after it is not
    reached. *)
Definition existingTableNames : Run (list jstr) :=
  attempt (select (fun w => show_tables (db w))) (fun _ => fail SetupFailed).

Definition verifyTables (runtimeTimeoutMs : num) : Run unit :=
  getConnection runtimeTimeoutMs;;
  existing ← existingTableNames;
  ensuring
    ((if isFreshSchema sql_dir existing then recordFreshSchemaMigrations else mret tt);;
     verifyTableFiles sql_dir existing)
    release.

(** Calls on a connection of its own: each of them may fail. *)
Fixpoint outside (calls : nat) : Run unit := fun w =>
  match calls with
  | O => (inr tt, w)
  | S n =>
      match faults w with
      | [] => outside n w
      | None :: fs => outside n (w <| faults := fs |>)
      | Some _ :: fs => (inl QueryFailed, w <| faults := fs |>)
      end
  end.

Definition maxAttempts : nat := 15.

Fixpoint retrying {A} (attempts : nat) (m : Run A) : Run A :=
  match attempts with
  | O => fail SetupFailed
  | S n => attempt m (fun _ => retrying n m)
  end.

(** Connect, query and end. *)
Definition verifyDatabase : Run bool := retrying maxAttempts (outside 3;; mret database_listed).
Definition createDatabase : Run unit := retrying maxAttempts (outside 3).

(** The setup and the migrations of a boot. *)
Definition prepareDatabase (strictChecksum : bool) (rawTimeout : option jstr) (runtimeTimeoutMs : num) : Run unit :=
  createDatabase;;
  verified ← verifyDatabase;
  if negb verified then fail SetupFailed
  else
    verifyTables runtimeTimeoutMs;;
    runMigrations strictChecksum rawTimeout runtimeTimeoutMs false None;;
    mret tt.
End Setup.
