(* ===== verification/SetupFacts.v ===== *)
(** * What the schema setup promises

    A database built from empty never runs a migration over the tables it built: the ledger
    has every file before the first table is created, whatever fails, over any number of
    boots. *)
From S2P Require Import Prelude JsNum Config SqlText Regex SqlRules LiveSchema KeyGuards.
From S2P Require Import MigrationTables Runner Migrate RunSample MigrateTrace MigrateFacts.
From S2P Require Import Setup.
#[local] Open Scope Z_scope.
#[local] Open Scope update_scope.

Section Facts.
Context {Files : Disk} {Srv : Server}.
Context (strictChecksum : bool) (rawTimeout : option jstr) (runtimeTimeoutMs : num).

(** ** The tables are built outside the ledger *)

(** With no transaction open, the ledger and the log of migration statements stay. *)
Definition aside (w w' : world) : Prop :=
  begun w = None -> begun w' = None /\ ledger w' = ledger w /\ log w' = log w.

#[export] Instance aside_framed : Framed aside.
Proof.
  split; [split; [split|..]|].
  - by intros w Hb.
  - intros w1 w2 w3 H1 H2 Hb. destruct (H1 Hb) as (Hb2 & <- & <-). by apply H2.
  - by intros w fs Hb.
  - intros w Hb. simpl. by rewrite Hb.
  - intros w Hb. simpl. by rewrite Hb.
  - by intros w f Hb.
  - intros w w' _ El Eb Elog Hb. by rewrite Eb.
Qed.

Lemma aside_execute stmt : within_rel aside (execute stmt).
Proof. apply rel_query; [exact _|]. intros w Hb. by destruct (run_statement _ _). Qed.

Lemma aside_execute_some stmt : within_rel aside (execute_some stmt).
Proof. destruct stmt; [apply aside_execute|apply rel_ret; exact _]. Qed.

Lemma aside_read file : within_rel aside (read_schema file).
Proof. unfold read_schema. destruct (schema_text file); [apply rel_fail|apply rel_fail|apply rel_ret]; exact _. Qed.

Lemma aside_drift file table : within_rel aside (alterTableForDrift file table).
Proof.
  apply rel_bind; [exact _|apply aside_read|]. intros data.
  destruct (parseExpectedColumns data); [|apply rel_ret; exact _].
  apply rel_bind; [exact _|apply rel_select; exact _|]. intros live.
  apply rel_each; [exact _|]. intros exp _. apply aside_execute_some.
Qed.

Lemma aside_index table rows idx : within_rel aside (reconcileIndex table rows idx).
Proof.
  unfold reconcileIndex. destruct (index_settled _ _); [apply rel_ret; exact _|].
  destruct (negb _); [apply aside_execute|]. apply rel_attempt; [exact _|apply aside_execute|].
  intros e. destruct e; try (apply rel_ret; exact _).
  apply rel_bind; [exact _| |].
  - apply rel_bind; [exact _|apply rel_select; exact _|]. intros hasId. destruct hasId; [|apply rel_ret; exact _].
    apply rel_bind; [exact _|apply aside_execute|]. intros _. apply rel_ret; exact _.
  - intros safe. destruct safe; [|apply rel_ret; exact _]. apply rel_quietly; [exact _|apply aside_execute].
Qed.

Lemma aside_indexes file table : within_rel aside (reconcileTableIndexes file table).
Proof.
  apply rel_quietly; [exact _|]. apply rel_bind; [exact _|apply aside_read|]. intros data.
  destruct (parseExpectedIndexes data table) as [|i l]; [apply rel_ret; exact _|].
  apply rel_bind; [exact _|apply rel_select; exact _|]. intros rows.
  destruct (mapM complete rows); [|apply rel_fail; exact _].
  apply rel_each; [exact _|]. intros idx _. apply aside_index.
Qed.

Lemma aside_create file : within_rel aside (createTable file).
Proof.
  apply rel_bind; [exact _|apply aside_read|]. intros data. apply rel_each; [exact _|]. intros stmt _.
  destruct (is_empty _); [apply rel_ret; exact _|].
  apply rel_attempt; [exact _|apply aside_execute|]. intros e. apply rel_fail; exact _.
Qed.

Lemma aside_files files existing : within_rel aside (verifyTableFiles files existing).
Proof.
  revert existing. induction files as [|file files IH]; intros existing; [apply rel_ret; exact _|].
  simpl. destruct (sql_table file) as [table|]; [|apply IH].
  apply rel_bind; [exact _| |intros _; apply IH].
  apply rel_attempt; [exact _| |intros e; apply rel_fail; exact _].
  destruct (member table existing); [|apply aside_create].
  apply rel_bind; [exact _|apply aside_drift|]. intros _. apply aside_indexes.
Qed.

(** ** Recording *)

Definition fresh (d : database) : Prop := isFreshSchema sql_dir (show_tables d) = true.

Definition ledger_names (o : option ledger_table) : list jstr :=
  map lr_name (match o with Some l => lt_rows l | None => [] end).

(** Names of the directory, no two of them alike. *)
Definition tidy (ns : list jstr) : Prop := NoDup (map lower ns) /\ forall n, n ∈ ns -> listed n.

(** Every name of the directory, no two of them alike. *)
Definition full (ns : list jstr) : Prop := NoDup (map lower ns) /\ forall f, listed f -> f ∈ ns.

(** The tables [d], the log [sofar], and a ledger with [P] whatever is undone. *)
Definition recording (P : list jstr -> Prop) (d : database) (sofar : list sent) (w : world) : Prop :=
  db w = d /\ log w = sofar /\ P (ledger_names (ledger w))
  /\ forall o, begun w = Some o -> P (ledger_names o).

Section Recording.
Context (P : list jstr -> Prop) (d : database) (l : list sent).
Hypothesis P_insert : forall ns n, P ns -> listed n -> lower n ∉ map lower ns -> P (ns ++ [n]).

Lemma recording_undo w : recording P d l w -> recording P d l (undo w).
Proof.
  intros (Hd & Hl & Ht & Hb). unfold undo. split_and!; [done..| |done].
  simpl. destruct (begun w) as [o|] eqn:E; simpl; [by apply Hb|done].
Qed.

#[export] Instance recording_framed : Framed (keeps (recording P d l)).
Proof.
  split.
  - apply keeps_stepped; [done| | |done].
    + intros w. apply recording_undo.
    + intros w Hw. exact (recording_undo w Hw).
  - intros w w' Ed El Eb Elog (H1 & H2 & H3 & H4). unfold recording. rewrite Ed, El, Eb, Elog. done.
Qed.

Lemma recording_update (f : world -> world) :
  (forall w, recording P d l w -> recording P d l (f w)) -> within_rel (keeps (recording P d l)) (update f).
Proof. intros H. apply rel_update; [exact _|exact H]. Qed.

Lemma recording_ensure : within_rel (keeps (recording P d l)) ensureMigrationsLedger.
Proof.
  apply rel_bind; [exact _|apply recording_update|].
  - intros w (Hd & Hl & Ht & Hb). destruct (ledger w) as [t|] eqn:E; split_and!; try done.
    simpl. by rewrite E.
  - intros _. apply rel_bind; [exact _|apply rel_select; exact _|]. intros b.
    destruct b; [|apply rel_ret; exact _]. apply recording_update.
    intros w (Hd & Hl & Ht & Hb). split_and!; [done..| |done]. simpl. by destruct (ledger w).
Qed.

Lemma recording_file file : listed file -> within_rel (keeps (recording P d l)) (record_file file).
Proof.
  intros Hr. unfold record_file. destruct (migration_text file); [|apply rel_fail; exact _].
  apply rel_query; [exact _|]. intros w (Hd & Hl & Ht & Hb).
  destruct (ledger w) as [t|] eqn:E; [|cbn [snd]; split_and!; [done..|by rewrite E|done]].
  destruct (existsb _ _) eqn:Ex; cbn [snd].
  { split_and!; [done..|by rewrite E|done]. }
  split_and!; [done..| |done]. simpl. unfold ledger_names in *. cbn [lt_rows]. rewrite map_app. apply P_insert; [done..|].
  intros Hx. apply not_true_iff_false in Ex. apply Ex.
  rewrite map_map in Hx. apply list_elem_of_fmap in Hx as (x & Ee & Hx). apply existsb_exists.
  exists x. split; [by apply list_elem_of_In|by apply eqs_true].
Qed.

Lemma recording_seed files :
  (forall f, f ∈ files -> listed f) ->
  within_rel (keeps (recording P d l))
    (start_transaction;; attempt (each record_file files;; commit) (fun e => quietly rollback;; fail e)).
Proof.
  intros Hf. apply rel_bind; [exact _|apply recording_update|].
  { intros w (Hd & Hl & Ht & Hb). split_and!; [done..|]. intros o [= <-]. done. }
  intros _. apply rel_attempt; [exact _| |].
  - apply rel_bind; [exact _|apply rel_each; [exact _|]; intros f Hin; by apply recording_file, Hf|].
    intros _. apply recording_update. intros w (Hd & Hl & Ht & Hb). split_and!; [done..|]. done.
  - intros e. apply rel_bind; [exact _| |intros _; apply rel_fail; exact _].
    apply rel_quietly; [exact _|]. apply recording_update. intros w. apply recording_undo.
Qed.

Lemma recording_fresh : within_rel (keeps (recording P d l)) recordFreshSchemaMigrations.
Proof.
  unfold recordFreshSchemaMigrations. destruct migrations_dir as [dir|] eqn:Hdir; [|apply rel_ret; exact _].
  simpl. destruct (sql_files dir) as [|f0 fs] eqn:Hf; [apply rel_ret; exact _|].
  apply rel_bind; [exact _|apply recording_ensure|]. intros _.
  apply rel_bind; [exact _|apply rel_get_lock; exact _|]. intros got.
  destruct got; [|apply rel_fail; exact _].
  apply rel_ensuring; [exact _| |apply rel_releaseLock; exact _].
  apply recording_seed. intros f Hin. exists dir. by rewrite Hf.
Qed.
End Recording.

Lemma tidy_insert ns n : tidy ns -> listed n -> lower n ∉ map lower ns -> tidy (ns ++ [n]).
Proof.
  intros [Hk Hn] Hl Hx. split.
  - rewrite map_app. apply NoDup_app. split_and!; [done| |by apply NoDup_singleton].
    intros x Hin ->%list_elem_of_singleton. done.
  - intros m [Hm| ->%list_elem_of_singleton]%elem_of_app; [by apply Hn|done].
Qed.

Lemma full_insert ns n : full ns -> listed n -> lower n ∉ map lower ns -> full (ns ++ [n]).
Proof.
  intros [_ Hn] Hl Hx. destruct Hx. apply list_elem_of_fmap. exists n. split; [done|by apply Hn].
Qed.

(** ** The names it leaves *)

(** No two files of the directory differ in case only. *)
Definition names_distinct : Prop := forall f g, listed f -> listed g -> lower f = lower g -> f = g.

Lemma record_file_answers d l file w w' :
  names_distinct -> listed file -> recording tidy d l w -> record_file file w = (inr tt, w') ->
  recording tidy d l w' /\ file ∈ names_of w' /\ forall y, y ∈ names_of w -> y ∈ names_of w'.
Proof.
  intros Hdis Hf Hr H.
  split; [by eapply (rel_at (keeps (recording tidy d l))) in H; [apply H|apply recording_file; [apply tidy_insert|]]|].
  unfold record_file in H. destruct (migration_text file) as [raw|]; [|done].
  apply query_answers in H as [fs H]. destruct (ledger _) as [t|] eqn:El; [|done].
  change (ledger w = Some t) in El. unfold names_of, rows_of. rewrite El.
  destruct (existsb _ _) eqn:Ex; injection H as <-; cbn [ledger].
  - change (ledger (w <| faults := fs |>)) with (ledger w). rewrite El. split; [|done].
    apply existsb_exists in Ex as (x & Hx%list_elem_of_In & E%eqs_true). cbn [lr_name] in E.
    destruct Hr as (_ & _ & [_ Hn] & _). rewrite El in Hn. unfold ledger_names in Hn.
    rewrite <- (Hdis _ _ (Hn _ (list_elem_of_fmap_2 _ _ _ Hx)) Hf E). by apply list_elem_of_fmap_2.
  - simpl. rewrite map_app. split.
    + apply elem_of_app. right. by apply list_elem_of_singleton.
    + intros y Hy. apply elem_of_app. by left.
Qed.

(** Where it answers, it recorded each file and committed. *)
Lemma fresh_runs w w' :
  begun w = None -> recordFreshSchemaMigrations w = (inr tt, w') ->
  (w' = w /\ forall f, ~ listed f)
  \/ exists dir w4 w6, migrations_dir = Some dir /\ each record_file (sql_files dir) w4 = (inr tt, w6)
       /\ begun w' = None /\ ledger w' = ledger w6
       /\ forall P d l, recording P d l w -> recording P d l w4.
Proof.
  intros Hb. unfold recordFreshSchemaMigrations. destruct migrations_dir as [dir|] eqn:Hdir.
  2: { intros [_ ->]%ret_answers. left. split; [done|]. intros f (dir & Hd & _). congruence. }
  simpl. destruct (sql_files dir) as [|f0 fs] eqn:Hf.
  { intros [_ ->]%ret_answers. left. split; [done|]. intros f (dir' & Hd & Hin).
    simplify_eq. rewrite Hf in Hin. inversion Hin. }
  rewrite <- Hf. intros ([] & w1 & H1 & H)%bind_answers. apply bind_answers in H as (got & w2 & H2 & H).
  destruct got; [|done]. cbn [negb] in H. apply ensuring_answers in H as (w3 & H3 & H4).
  apply bind_answers in H3 as ([] & w4 & H5 & H3).
  assert (H6 : (each record_file (sql_files dir);; commit) w4 = (inr tt, w3)).
  { unfold attempt in H3. destruct ((each record_file (sql_files dir);; commit) w4) as [[e|[]] w5]; [|done].
    by apply bind_answers in H3 as ([] & ? & _ & H3). }
  apply bind_answers in H6 as ([] & w6 & H6 & H7). apply query_answers in H7 as [fs' H7]. injection H7 as <-.
  eapply (rel_at aside) in H4; [|apply rel_releaseLock; exact _]. destruct (H4 eq_refl) as (Hb' & El & _).
  right. exists dir, w4, w6. split_and!; [done..|]. intros P d l Hr.
  eapply (rel_at (keeps (recording P d l))) in H1; [|apply recording_ensure].
  eapply (rel_at (keeps (recording P d l))) in H2; [|apply rel_get_lock; exact _].
  apply query_answers in H5 as [fs'' H5]. injection H5 as <-.
  destruct (H2 (H1 Hr)) as (Hd & Hl & Ht & _). split_and!; [done..|]. by intros o [= <-].
Qed.

Lemma recorded_fresh d l w w' :
  names_distinct -> begun w = None -> recording tidy d l w -> recordFreshSchemaMigrations w = (inr tt, w') ->
  forall f, listed f -> f ∈ names_of w'.
Proof.
  intros Hdis Hb Hr H f Hf.
  apply fresh_runs in H as [[-> Hno]|(dir & w4 & w6 & Hdir & H & _ & El & H4)]; [by apply Hno in Hf| |done].
  apply (each_answers _ (recording tidy d l) (fun f w => f ∈ names_of w)) in H as [_ Hall]; [| |by apply H4].
  2: { intros x v v' Hx Hv E. eapply record_file_answers; try done. by exists dir. }
  destruct Hf as (dir' & Hd & Hin). simplify_eq.
  specialize (Hall f Hin). unfold names_of, rows_of in *. by rewrite El.
Qed.

Lemma fresh_commits w w' : begun w = None -> recordFreshSchemaMigrations w = (inr tt, w') -> begun w' = None.
Proof.
  intros Hb H. by apply fresh_runs in H as [[-> _]|(dir & w4 & w6 & _ & _ & Hb' & _)].
Qed.

(** ** A boot *)

(** The ledger has every file, and the log is [l]. *)
Definition built (l : list sent) (w : world) : Prop := recording full (db w) l w.

Lemma built_aside l w w' : begun w = None -> aside w w' -> built l w -> begun w' = None /\ built l w'.
Proof.
  intros Hb H (_ & <- & Hf & _). destruct (H Hb) as (Hb' & El & Elog). split; [done|].
  unfold built, recording. rewrite El, Elog. split_and!; [done..|]. intros o Ho. congruence.
Qed.

Definition answered {A} (r : error + A) : bool := match r with inr _ => true | inl _ => false end.

(** Every file is recorded, or only the ledger was touched; the first where it answers. *)
Definition outcome (d : database) (l : list sent) (ok : bool) (w : world) : Prop :=
  if ok then begun w = None /\ built l w else built l w \/ fresh d /\ recording tidy d l w.

Lemma outcome_files d l existing w r w' :
  begun w = None -> built l w -> verifyTableFiles sql_dir existing w = (r, w') -> outcome d l (answered r) w'.
Proof.
  intros Hb Hw H. eapply (rel_at aside) in H; [|apply aside_files]. eapply built_aside in H as [H1 H2]; [|done..].
  unfold outcome. destruct (answered r); [done|by left].
Qed.

Lemma outcome_body d l existing w r w' :
  names_distinct -> begun w = None ->
  (fresh d /\ recording tidy d l w) /\ isFreshSchema sql_dir existing = true \/ built l w ->
  ((if isFreshSchema sql_dir existing then recordFreshSchemaMigrations else mret tt);;
   verifyTableFiles sql_dir existing) w = (r, w') ->
  outcome d l (answered r) w'.
Proof.
  intros Hdis Hb Hw. unfold mbind, run_bind. destruct (isFreshSchema sql_dir existing).
  2: { destruct Hw as [[_ Hw]|Hw]; [done|]. by apply outcome_files. }
  destruct (recordFreshSchemaMigrations w) as [[e|[]] w1] eqn:E1.
  - intros [= <- <-]. destruct Hw as [[[Hfr Hr] _]|Hf].
    + right. split; [done|]. eapply (rel_at (keeps (recording tidy d l))) in E1;
        [by apply E1|apply recording_fresh, tidy_insert].
    + left. eapply (rel_at (keeps (recording full (db w) l))) in E1;
        [|apply recording_fresh, full_insert]. unfold built. by rewrite (proj1 (E1 Hf)) at 1; apply E1.
  - apply outcome_files; [by eapply fresh_commits|]. destruct Hw as [[[_ Hr] _]|Hf].
    + pose proof (recorded_fresh d l w w1 Hdis Hb Hr E1) as Hall.
      eapply (rel_at (keeps (recording tidy d l))) in E1 as E2; [|apply recording_fresh, tidy_insert].
      destruct (E2 Hr) as (_ & Hl & [Hk _] & _). split_and!; [done|done|by split|].
      intros o Ho. apply fresh_commits in E1; [congruence|done].
    + eapply (rel_at (keeps (recording full (db w) l))) in E1; [|apply recording_fresh, full_insert].
      unfold built. by rewrite (proj1 (E1 Hf)) at 1; apply E1.
Qed.

Lemma outcome_release d l ok w : outcome d l ok w -> outcome d l ok (release w).2.
Proof.
  assert (Hr : forall P dd, recording P dd l w -> recording P dd l (release w).2).
  { intros P dd. exact (rel_release (keeps (recording P dd l)) w). }
  unfold outcome. destruct ok.
  - intros [Hb Hw]. apply (built_aside l w); [done| |done]. exact (rel_release aside w).
  - assert (Ed : db (release w).2 = db w).
    { unfold release, modify. cbn [snd]. destruct (conn w) as [s|]; [|done]. by destruct (s_alive s). }
    intros [Hw|[Hf Hw]]; [left; unfold built in *; rewrite Ed|right; split; [done|]]; by apply Hr.
Qed.

(** Before the tables are looked at. *)
Definition poised (d : database) (l : list sent) (w : world) : Prop :=
  begun w = None /\ (fresh d /\ recording tidy d l w \/ built l w).

Lemma poised_kept d l {A} (m : Run A) w r w' :
  (forall R, Framed R -> within_rel R m) -> poised d l w -> m w = (r, w') -> poised d l w'.
Proof.
  intros Hm [Hb Hw] E. eapply (rel_at aside) in E as Ha; [|apply Hm; exact _].
  split; [by apply Ha|]. destruct Hw as [[Hf Hw]|Hw].
  - left. split; [done|]. eapply (rel_at (keeps (recording tidy d l))) in E; [by apply E|apply Hm; exact _].
  - right. by eapply built_aside in Ha as [_ Ha].
Qed.

Lemma poised_outcome d l w : poised d l w -> outcome d l false w.
Proof. intros [_ [Hw|Hw]]; [by right|by left]. Qed.

Lemma outcome_verify d l w r w' :
  names_distinct -> poised d l w -> verifyTables runtimeTimeoutMs w = (r, w') -> outcome d l (answered r) w'.
Proof.
  intros Hdis Hw. unfold verifyTables. unfold mbind at 1, run_bind at 1.
  destruct (getConnection runtimeTimeoutMs w) as [r1 w1] eqn:E1.
  eapply poised_kept in E1; [|intros R HR; apply rel_connect; exact _|done].
  destruct r1 as [e|[]]; [intros [= <- <-]; by apply poised_outcome|].
  unfold mbind at 1, run_bind at 1. destruct (existingTableNames w1) as [r2 w2] eqn:E2.
  eapply poised_kept in E2 as Hw2; [| |done].
  2: { intros R HR. apply rel_attempt; [exact _|apply rel_select; exact _|]. intros e. apply rel_fail; exact _. }
  destruct r2 as [e|existing]; [intros [= <- <-]; by apply poised_outcome|].
  assert (Hex : existing = show_tables (db w2)).
  { unfold existingTableNames, attempt in E2. destruct (select _ w1) as [[e|a] w3] eqn:E3; [done|].
    injection E2 as <- <-. by apply select_answers in E3 as (fs & -> & ->). }
  unfold ensuring. set (body := (if isFreshSchema _ _ then _ else _) ≫= _).
  destruct (body w2) as [r4 w4] eqn:E4.
  assert (H4 : outcome d l (answered r4) w4).
  { apply (outcome_body d l existing w2); [done|by destruct Hw2| |].
    - destruct Hw2 as [_ [[Hf Hw2]|Hw2]]; [left|by right]. split; [done|].
      rewrite Hex. destruct Hw2 as (-> & _). exact Hf.
    - exact E4. }
  apply outcome_release in H4. unfold release, modify in *. intros [= <- <-]. exact H4.
Qed.

(** A process that starts over: its connections are gone, and what they had open is undone. *)
Definition restart (lock : bool) (fs : list (option fault)) (w : world) : world :=
  undo w <| conn := None |> <| pool := [] |> <| lock_free := lock |> <| faults := fs |>.

Inductive boots : world -> world -> Prop :=
  | boots_none w : boots w w
  | boots_more w w1 r w2 lock fs :
      boots w w1 ->
      prepareDatabase strictChecksum rawTimeout runtimeTimeoutMs (restart lock fs w1) = (r, w2) -> boots w w2.

(** Nothing is built, or the ledger has every file. *)
Definition seeded (w : world) : Prop :=
  fresh (db w) /\ recording tidy (db w) (log w) w \/ built (log w) w.

Lemma restart_poised lock fs w : seeded w -> poised (db w) (log w) (restart lock fs w).
Proof.
  intros Hw. split; [done|]. destruct Hw as [[Hf Hw]|Hw]; [left|right].
  - split; [done|]. exact (recording_undo tidy (db w) (log w) w Hw).
  - exact (recording_undo full (db w) (log w) w Hw).
Qed.

Lemma outcome_seeded d l w : outcome d l false w -> log w = l /\ seeded w.
Proof.
  intros [Hw|[Hf Hw]]; pose proof (proj1 (proj2 Hw)) as Hl.
  - split; [done|right]. unfold built. by rewrite Hl.
  - split; [done|left]. rewrite Hl. by pose proof (proj1 Hw) as <-.
Qed.

Lemma built_run l w : begun w = None -> built l w ->
  keyed w /\ forall file, listed file -> file ∈ names_of w.
Proof. intros Hb (_ & _ & [Hk Hall] & _). done. Qed.

Lemma rel_outside (R : world -> world -> Prop) `{!Stepped R} n : within_rel R (outside n).
Proof.
  induction n as [|n IH]; intros w; [done|]. simpl. pose proof (R_faults w) as Hf.
  destruct (faults w) as [|[f|] fs]; [apply IH|apply R_faults|].
  transitivity (w <| faults := fs |>); [apply R_faults|apply IH].
Qed.

Lemma rel_retrying (R : world -> world -> Prop) `{!Stepped R} {A} n (m : Run A) :
  within_rel R m -> within_rel R (retrying n m).
Proof.
  intros Hm. induction n as [|n IH]; [apply rel_fail; exact _|]. by apply rel_attempt; [exact _|..].
Qed.

Lemma prepare_seeded d l w r w' :
  names_distinct -> poised d l w ->
  prepareDatabase strictChecksum rawTimeout runtimeTimeoutMs w = (r, w') -> log w' = l /\ seeded w'.
Proof.
  intros Hdis Hw0. unfold prepareDatabase, mbind, run_bind.
  destruct (createDatabase w) as [r1 v1] eqn:E1.
  eapply poised_kept in E1; [|intros R HR; apply rel_retrying, rel_outside; exact _|done].
  destruct r1 as [e|[]]; [intros [= <- <-]; by eapply outcome_seeded, poised_outcome|].
  destruct (verifyDatabase v1) as [r2 v2] eqn:E2.
  eapply poised_kept in E2 as Hw; [| |done].
  2: { intros R HR. apply rel_retrying; [exact _|]. apply rel_bind; [exact _|apply rel_outside; exact _|].
       intros _. apply rel_ret; exact _. }
  destruct r2 as [e|[]]; [intros [= <- <-]; by eapply outcome_seeded, poised_outcome| |].
  2: { intros [= <- <-]; by eapply outcome_seeded, poised_outcome. }
  cbn [negb]. clear E1 E2 Hw0. revert v2 Hw. intros v Hw.
  destruct (verifyTables runtimeTimeoutMs v) as [[e|[]] w1] eqn:E1;
    (eapply outcome_verify in E1; [|done..]).
  - intros [= <- <-]. by eapply outcome_seeded.
  - destruct E1 as [Hb1 Hw1]. destruct (built_run _ _ Hb1 Hw1) as [Hk1 Ha1].
    destruct (runMigrations strictChecksum rawTimeout runtimeTimeoutMs false None w1) as [r2 w2] eqn:E2.
    eapply recorded_run_silent in E2 as (El & Hb2 & Hk2 & Hn); [|done..].
    assert (H2 : log w2 = l /\ seeded w2).
    { assert (El2 : log w2 = l) by (rewrite El; apply Hw1). split; [done|right].
      split_and!; [done..| |]; [|intros o Ho; congruence].
      split; [exact Hk2|]. intros f Hf. by apply Hn, Ha1. }
    by destruct r2; intros [= <- <-].
Qed.

(** C13: over any number of boots of a database that starts empty, with any calls failing in
    any of them and a restart after each, no statement of a migration file is ever sent: the
    tables are built with the ledger already naming every file. *)
Theorem fresh_boots_replay_nothing w w' :
  names_distinct -> seeded w -> boots w w' -> log w' = log w /\ seeded w'.
Proof.
  intros Hdis Hw H. induction H as [w|w w1 r w2 lock fs _ IH E]; [done|].
  destruct (IH Hw) as [El Hw1]. eapply prepare_seeded in E as [El2 Hw2]; [|done|by apply restart_poised].
  split; [|done]. rewrite <- El. exact El2.
Qed.
End Facts.

(** ** The small database *)

Example columns_parsed :
  option_map (map (fun c => (ec_name c, ec_nullable c, ec_hasDefault c))) (parseExpectedColumns events_text)
  = Some [(js "id", false, false); (js "code", false, true); (js "data", true, false)].
Proof. vm_compute. reflexivity. Qed.

Definition boot (fs : list (option fault)) (w : world) : (error + unit) * world :=
  prepareDatabase false None (numZ 30000) (restart true fs w).

Lemma boots_boot fs w w1 :
  boots false None (numZ 30000) w w1 -> boots false None (numZ 30000) w (boot fs w1).2.
Proof. intros H. eapply boots_more; [done|]. apply surjective_pairing. Qed.

(** The first boot loses its connection while it fills the ledger, the second while it
    creates the table, and the third goes through. *)
Definition boot1 : (error + unit) * world := boot (repeat None 12 ++ [Some (Lost true)]) (idle []).
Definition boot2 : (error + unit) * world := boot (repeat None 16 ++ [Some (Lost true)]) boot1.2.
Definition boot3 : (error + unit) * world := boot [] boot2.2.

Lemma sample_distinct : names_distinct.
Proof.
  assert (Hs : forall x, listed x -> x = auto_file \/ x = manual_file).
  { intros x (d & [= <-] & Hx). apply list_elem_of_In in Hx. vm_compute in Hx.
    destruct Hx as [<-|[<-|[]]]; [by left|by right]. }
  intros f g [->| ->]%Hs [->| ->]%Hs; [done|by vm_compute..|done].
Qed.

Lemma fresh_boots_replay_nothing_witness :
  (length (rows_of (restart true [] boot1.2)), length (issued boot2.2), answered boot3.1,
   length (rows_of boot3.2)) = (0%nat, 1%nat, true, 2%nat)
  /\ log boot3.2 = log (idle []).
Proof.
  split; [by vm_compute|].
  refine (proj1 (fresh_boots_replay_nothing false None (numZ 30000) (idle []) boot3.2 _ _ _)).
  - exact sample_distinct.
  - left. split; [by vm_compute|]. split; [done|]. split; [done|]. split; [|done].
    split; [constructor|]. intros n Hn. inversion Hn.
  - apply boots_boot, boots_boot, boots_boot, boots_none.
Defined.

(** ** Two things the setup does *)

(** A declared UNIQUE index that is live under another name counts as missing where a plain
    index on the same columns comes after it, although the guard of the migrations finds it. *)
Definition two_indexes : list statistics_row :=
  [StatisticsRow (Some (js "a_code")) (Some 0) (Some (js "code")) 1;
   StatisticsRow (Some (js "b_code")) (Some 1) (Some (js "code")) 1].

Example shadowed_unique_added_again :
  let idx := DeclaredIndex (js "code") true [js "code"] in
  option_map (fun rows => index_settled rows idx) (mapM complete two_indexes) = Some false
  /\ witnessed [idx] two_indexes = true.
Proof. by vm_compute. Qed.

(** Where the tables cannot be listed, the connection is not given back. *)
Example refused_listing_leaks :
  let '(r, w) := verifyTables (numZ 30000) (idle [None; Some Refused]) in
  answered r = false /\ is_Some (conn w) /\ pool w = [].
Proof. vm_compute. split_and!; [done|by eexists|done]. Qed.
