(* ===== verification/Shutdown.v ===== *)
(** * The end of the process

    src/src/shutdown.js, the exits of src/src/api/crash_reporting.js and the part of startApi
    (src/src/api.js) that ties them to the parse loop, as a machine that reacts to the events
    of the outside: signals, the timer, the loop, the HTTP server, the closing pools.

    What runs between two events of the source (the microtasks of a promise that has
    settled) runs within one event of the model.  Log lines are left out. *)
From S2P Require Import Prelude JsNum.
#[local] Open Scope Z_scope.
#[local] Open Scope update_scope.

(** ** The budget of a drain *)

Definition DEFAULT_SHUTDOWN_TIMEOUT_MS : Z := 100000.

Definition positive (n : num) : bool := isFinite n && num_lt (numZ 0) n.

(** [raw] is SHUTDOWN_TIMEOUT_MS; [None] is undefined, which parseInt reads as NaN. *)
Definition resolveTimeoutMs (timeoutMs : option num) (raw : option jstr) : num :=
  match timeoutMs with
  | Some n => if positive n then n
              else let r := match raw with Some s => parse_int_str s | None => NaN end in
                   if positive r then r else numZ DEFAULT_SHUTDOWN_TIMEOUT_MS
  | None => let r := match raw with Some s => parse_int_str s | None => NaN end in
            if positive r then r else numZ DEFAULT_SHUTDOWN_TIMEOUT_MS
  end.

(** ** The signal handler

    [createShutdown] over any drain; [exits] are the codes given to the exit seam, which in
    a test returns. *)
Inductive timer_state := Unarmed | Armed | Disarmed | Fired.

Record handler := Handler {
  signalled : bool;
  finished : bool;
  timer : timer_state;
  exits : list Z
}.

#[export] Instance eta_handler : Eta handler := fun h =>
  Handler (signalled h) (finished h) (timer h) (exits h).

Definition fresh_handler : handler := Handler false false Unarmed [].

(** [true]: the drain is started. *)
Definition shutdown (h : handler) : bool * handler :=
  if signalled h then (false, h)
  else (true, h <| signalled := true |> <| timer := Armed |>).

Definition timer_callback (h : handler) : handler :=
  let h := h <| timer := Fired |> in
  if finished h then h
  else h <| finished := true |> <| exits := exits h ++ [1] |>.

(** The drain resolved, or rejected. *)
Definition drain_settled (completed : bool) (h : handler) : handler :=
  if finished h then h
  else h <| finished := true |> <| timer := Disarmed |>
         <| exits := exits h ++ [if completed then 0 else 1] |>.

Inductive handler_event := Signalled | TimedOut | Settled (completed : bool).

(** A timer that is disarmed does not fire, a drain that has not started does not settle. *)
Definition handler_step (h : handler) (e : handler_event) : handler :=
  match e with
  | Signalled => (shutdown h).2
  | TimedOut => match timer h with Armed => timer_callback h | _ => h end
  | Settled completed => if signalled h then drain_settled completed h else h
  end.

(** ** The process

    [Absent]: no server, or none that can be closed; [Refuses]: its close throws.  A handle
    is named by its identity, so that one database given twice is closed once. *)
Inductive server_state := Absent | Refuses | Listening | Closing | Closed.

Inductive drain_state :=
  | NotStarted
  | Waiting                                 (* for the server and the loop *)
  | ClosingPools (current : nat) (rest : list nat)
  | Drained.

Record proc := Proc {
  decoderRunning : bool;                    (* the flag of startApi *)
  decoderStopped : bool;                    (* decoder.stopFlag *)
  loopEnded : bool;                         (* decoderExited has settled *)
  server : server_state;
  handles : list (option nat);              (* decoder.db and decoder.mempoolDb *)
  drain : drain_state;
  closed : list nat;                        (* the pools whose close was called, in order *)
  sig : handler;
  crashes : list Z                          (* exits of the crash handlers *)
}.

#[export] Instance eta_proc : Eta proc := fun p =>
  Proc (decoderRunning p) (decoderStopped p) (loopEnded p) (server p) (handles p) (drain p)
    (closed p) (sig p) (crashes p).

(** The handles to close, without repetitions and in their order. *)
Fixpoint distinct (seen : list nat) (hs : list (option nat)) : list nat :=
  match hs with
  | [] => []
  | None :: hs => distinct seen hs
  | Some db :: hs =>
      if bool_decide (db ∈ seen) then distinct seen hs else db :: distinct (db :: seen) hs
  end.

(** [closeDatabases], one close after another; [drain] resolves after the last. *)
Definition close_pools (dbs : list nat) (p : proc) : proc :=
  match dbs with
  | [] => p <| drain := Drained |> <| sig ::= drain_settled true |>
  | db :: rest => p <| drain := ClosingPools db rest |> <| closed ::= fun l => l ++ [db] |>
  end.

Definition server_done (s : server_state) : bool :=
  match s with Absent | Refuses | Closed => true | Listening | Closing => false end.

(** Both halves of [Promise.all] settled. *)
Definition after_wait (p : proc) : proc :=
  match drain p with
  | Waiting => if server_done (server p) && loopEnded p then close_pools (distinct [] (handles p)) p else p
  | _ => p
  end.

Definition closeServer (s : server_state) : server_state :=
  match s with Listening => Closing | _ => s end.

(** [createDecoderDrain] up to its first await: the health flag, the stop flag, then the
    server and the loop. *)
Definition start_drain (p : proc) : proc :=
  let p := p <| decoderRunning := false |> in
  let p := p <| decoderStopped := true |> in
  after_wait (p <| server ::= closeServer |> <| drain := Waiting |>).

Definition on_signal (p : proc) : proc :=
  let '(starts, h) := shutdown (sig p) in
  let p := p <| sig := h |> in
  if starts : bool then start_drain p else p.

(** [start()] resolved: the loop broke. *)
Definition loop_ended (p : proc) : proc :=
  after_wait (p <| decoderRunning := false |> <| loopEnded := true |>).

(** [start()] rejected: reportStartFailure ends the process. *)
Definition reportStartFailure (p : proc) : proc :=
  p <| decoderRunning := false |> <| crashes ::= fun l => l ++ [1] |>.

Definition uncaught_exception (p : proc) : proc := p <| crashes ::= fun l => l ++ [1] |>.

(** A close that failed is only logged. *)
Definition pool_settled (p : proc) : proc :=
  match drain p with ClosingPools _ rest => close_pools rest p | _ => p end.

Inductive event :=
  | Signal                                  (* SIGTERM or SIGINT *)
  | Timer
  | LoopEnds
  | StartFails
  | HandlesOpen (db mempoolDb : nat)        (* openDatabaseHandles, at boot *)
  | ServerCloses
  | PoolSettles (succeeded : bool)
  | UncaughtException
  | UnhandledRejection.

Definition react (p : proc) (e : event) : proc :=
  match e with
  | Signal => on_signal p
  | Timer => p <| sig ::= timer_callback |>
  | LoopEnds => loop_ended p
  | StartFails => reportStartFailure p
  | HandlesOpen db mempoolDb => p <| handles := [Some db; Some mempoolDb] |>
  | ServerCloses => after_wait (p <| server := Closed |>)
  | PoolSettles _ => pool_settled p
  | UncaughtException => uncaught_exception p
  | UnhandledRejection => p
  end.

(** The process exits with the first code any handler gives. *)
Definition exited (p : proc) : option Z := head (exits (sig p) ++ crashes p).

(** What can happen next: nothing after an exit; a loop breaks once the stop flag is set; the
    handles are opened by a start() that runs. *)
Definition enabled (p : proc) (e : event) : Prop :=
  exited p = None /\
  match e with
  | Signal | UncaughtException | UnhandledRejection => True
  | Timer => timer (sig p) = Armed
  | LoopEnds => loopEnded p = false /\ decoderStopped p = true
  | StartFails => loopEnded p = false
  | HandlesOpen _ _ => loopEnded p = false /\ handles p = [None; None]
  | ServerCloses => server p = Closing
  | PoolSettles _ => exists db rest, drain p = ClosingPools db rest
  end.

Inductive step : proc -> proc -> Prop :=
  | step_react p e : enabled p e -> step p (react p e).

(** startApi: the decoder runs, the server is as given, no handle is open. *)
Definition startApi (s : server_state) : proc :=
  Proc true false false s [None; None] NotStarted [] fresh_handler [].

(** What GET /live would say of [running]. *)
Definition reports_running (p : proc) : bool := decoderRunning p.

(** ** The handler alone *)

Definition handler_ok (h : handler) : Prop :=
  match signalled h, finished h with
  | false, false => timer h = Unarmed /\ exits h = []
  | true, false => timer h = Armed /\ exits h = []
  | true, true => (timer h = Disarmed /\ exists ok : bool, exits h = [if ok then 0 else 1]) \/ (timer h = Fired /\ exits h = [1])
  | false, true => False
  end.

Lemma handler_step_ok h e : handler_ok h -> handler_ok (handler_step h e).
Proof.
  destruct h as [[] [] t xs]; unfold handler_ok; cbn; intros H.
  - destruct e; cbn; [exact H| |exact H]. by destruct H as [[-> ?]|[-> ?]]; cbn; eauto.
  - destruct H as [-> ->]. destruct e as [| |ok]; cbn; [eauto|eauto|left; split; [done|by exists ok]].
  - done.
  - destruct H as [-> ->]. destruct e; cbn; eauto.
Qed.

(** Whatever happens and in whatever order, the handler asks for at most one exit, has asked
    for it exactly when it is finished, and then holds no armed timer. *)
Lemma handler_exits_once es :
  let h := foldl handler_step fresh_handler es in
  (length (exits h) <= 1)%nat /\ (finished h = true <-> exits h <> [])
  /\ (finished h = true -> timer h <> Armed).
Proof.
  assert (handler_ok (foldl handler_step fresh_handler es)) as H.
  { assert (handler_ok fresh_handler) as H by done. revert H. generalize fresh_handler.
    induction es as [|e es IH]; intros h Hh; [done|]. cbn. by apply IH, handler_step_ok. }
  cbn. revert H. generalize (foldl handler_step fresh_handler es). intros [[] [] t xs]; cbn; try done.
  - intros [[-> [c ->]]|[-> ->]]; cbn; split_and!; try done; lia.
  - intros [-> ->]; cbn; split_and!; try done; lia.
  - intros [-> ->]; cbn; split_and!; try done; lia.
Qed.

(** ** The process *)

Lemma distinct_nodup seen hs : NoDup (distinct seen hs) /\ forall x, x ∈ distinct seen hs -> x ∉ seen.
Proof.
  revert seen. induction hs as [|[db|] hs IH]; intros seen; cbn.
  - split; [constructor|]. by intros x ?%not_elem_of_nil.
  - case_bool_decide as Hdb; [apply IH|]. destruct (IH (db :: seen)) as [Hnd Hx]. split.
    + constructor; [|done]. intros H. apply (Hx db H). left.
    + intros x [->|Hin]%elem_of_cons; [done|]. intros Hs. apply (Hx x Hin). by right.
  - apply IH.
Qed.

(** Where the drain stands, and what it has done by then. *)
Definition drain_ok (p : proc) : Prop :=
  match drain p with
  | NotStarted => signalled (sig p) = false /\ closed p = [] /\ loopEnded p = false
  | Waiting =>
      signalled (sig p) = true /\ closed p = [] /\ server_done (server p) && loopEnded p = false
      /\ server p <> Listening
  | ClosingPools db rest =>
      loopEnded p = true /\ server_done (server p) = true
      /\ closed p ++ rest = distinct [] (handles p) /\ exists l, closed p = l ++ [db]
  | Drained =>
      loopEnded p = true /\ server_done (server p) = true /\ closed p = distinct [] (handles p)
      /\ finished (sig p) = true
  end.

Definition proc_ok (p : proc) : Prop :=
  handler_ok (sig p) /\ drain_ok p
  /\ (signalled (sig p) = true -> decoderRunning p = false /\ decoderStopped p = true)
  /\ (signalled (sig p) = false -> decoderStopped p = false)
  /\ (drain p <> NotStarted -> signalled (sig p) = true)
  /\ (exits (sig p) = [0] -> drain p = Drained).

Lemma alive p : exited p = None -> exits (sig p) = [] /\ crashes p = [].
Proof. unfold exited. by destruct (exits (sig p)), (crashes p). Qed.

(** A handler that was signalled and has not exited. *)
Definition draining (h : handler) : Prop :=
  signalled h = true /\ finished h = false /\ timer h = Armed /\ exits h = [].

Lemma draining_ok h : draining h -> handler_ok h.
Proof. intros (Hs & Hf & Ht & Hx). unfold handler_ok. by rewrite Hs, Hf. Qed.

Lemma handler_alive h :
  handler_ok h -> exits h = [] ->
  draining h \/ (signalled h = false /\ finished h = false /\ timer h = Unarmed).
Proof.
  unfold handler_ok, draining. destruct (signalled h), (finished h); intros H Hx; try tauto.
  destruct H as [[_ [c Hc]]|[_ Hc]]; congruence.
Qed.

Lemma close_pools_ok dbs p :
  draining (sig p) -> decoderRunning p = false -> decoderStopped p = true ->
  loopEnded p = true -> server_done (server p) = true ->
  closed p ++ dbs = distinct [] (handles p) -> proc_ok (close_pools dbs p).
Proof.
  intros Hd Hr Hs Hl Hsv Hc. pose proof (draining_ok _ Hd) as Hh. destruct Hd as (Hsig & Hf & Ht & Hx).
  destruct dbs as [|db dbs]; unfold proc_ok, drain_ok; cbn.
  - rewrite app_nil_r in Hc. unfold drain_settled. rewrite Hf. cbn. rewrite Hsig. split_and!; try done.
    unfold handler_ok. cbn. rewrite Hsig, Hx. cbn. left. split; [done|by exists true].
  - rewrite Hx, Hsig. split_and!; try done; [by rewrite <- app_assoc|by eexists].
Qed.

Lemma after_wait_ok p :
  draining (sig p) -> decoderRunning p = false -> decoderStopped p = true -> closed p = [] ->
  drain p = Waiting -> server p <> Listening -> proc_ok (after_wait p).
Proof.
  intros Hd Hr Hs Hc Hw Hsl. unfold after_wait. rewrite Hw.
  destruct (server_done (server p) && loopEnded p) eqn:E.
  - apply andb_prop in E as [Hsv Hl]. by apply close_pools_ok; rewrite ?Hc.
  - pose proof (draining_ok _ Hd) as Hh. destruct Hd as (Hsig & Hf & Ht & Hx).
    unfold proc_ok, drain_ok. rewrite Hw, Hsig, Hx. by split_and!.
Qed.

Lemma timer_exits p : draining (sig p) -> timer_callback (sig p) = (sig p) <| timer := Fired |> <| finished := true |> <| exits := [1] |>.
Proof. intros (Hs & Hf & Ht & Hx). unfold timer_callback. cbn. by rewrite Hf, Hx. Qed.

Lemma start_ok s : server_done s = false \/ s = Absent \/ s = Refuses -> proc_ok (startApi s).
Proof. intros _. unfold proc_ok, drain_ok. cbn. by split_and!. Qed.

Lemma signal_ok p : exits (sig p) = [] -> proc_ok p -> proc_ok (on_signal p).
Proof.
  intros Hx (Hh & Hd & Hr & Hst & Hdr & H0). pose proof (handler_alive _ Hh Hx) as Hal.
  unfold on_signal, shutdown. destruct (signalled (sig p)) eqn:Hs.
  - destruct p. cbn in *. unfold proc_ok. cbn. rewrite Hs. by split_and!.
  - destruct Hal as [[? _]|(_ & Hf & Ht)]; [congruence|]. unfold start_drain. unfold drain_ok in Hd.
    destruct (drain p) eqn:Ed; [|exfalso; discriminate (Hdr ltac:(done))..].
    destruct Hd as (_ & Hcl & _). apply after_wait_ok; try done. cbn. by destruct (server p).
Qed.

Lemma timer_ok p : draining (sig p) -> proc_ok p -> proc_ok (p <| sig ::= timer_callback |>).
Proof.
  intros Hal (Hh & Hd & Hr & Hst & Hdr & H0). unfold proc_ok, drain_ok. cbn.
  rewrite timer_exits by done. destruct Hal as (Hs & Hf & Ht & _). cbn. rewrite Hs.
  unfold drain_ok in Hd. split_and!; try done; auto.
  - unfold handler_ok. cbn. rewrite Hs. by right.
  - destruct (drain p); try done.
    + destruct Hd as [Hd _]. congruence.
    + by destruct Hd as (_ & Hd).
    + destruct Hd as (? & ? & ? & ?). by split_and!.
Qed.

(** A process that has not exited and is past its signal is draining. *)
Lemma past_signal p :
  exits (sig p) = [] -> proc_ok p -> drain p <> NotStarted ->
  draining (sig p) /\ decoderRunning p = false /\ decoderStopped p = true.
Proof.
  intros Hx (Hh & Hd & Hr & _ & Hdr & _) Hns.
  destruct (handler_alive _ Hh Hx) as [?|[? _]]; [|rewrite Hdr in *; done].
  split; [done|]. by apply Hr, Hdr.
Qed.

Lemma react_ok p e : enabled p e -> proc_ok p -> proc_ok (react p e).
Proof.
  intros [Ha He] Hp. apply alive in Ha as [Hx Hc].
  pose proof (past_signal p Hx Hp) as Hpast. pose proof Hp as (Hh & Hd & Hr & Hst & Hdr & H0).
  pose proof (handler_alive _ Hh Hx) as Hal. unfold drain_ok in Hd.
  destruct e; cbn [react]; cbn in He; try done.
  - by apply signal_ok.
  - destruct Hal as [Hal|(_ & _ & Ht)]; [by apply timer_ok|congruence].
  - destruct He as [Hl Hs]. unfold loop_ended.
    destruct (drain p) eqn:E; [destruct Hd as [Hd _]; specialize (Hst Hd); congruence| |destruct Hd; congruence..].
    destruct Hpast as (? & ? & ?); [done|]. by destruct Hd as (_ & ? & _ & ?); apply after_wait_ok.
  - unfold proc_ok, drain_ok. cbn. split_and!; try done. intros Hs. split; [done|]. by apply Hr.
  - unfold proc_ok, drain_ok. cbn. destruct He as [Hl Hh0]. split_and!; try done.
    destruct (drain p) eqn:E; try done; destruct Hd; congruence.
  - destruct (drain p) eqn:E.
    + replace (after_wait _) with (p <| server := Closed |>) by (unfold after_wait; cbn; by rewrite E).
      unfold proc_ok, drain_ok. cbn. rewrite E. tauto.
    + destruct Hpast as (? & ? & ?); [done|]. by destruct Hd as (_ & ? & _ & ?); apply after_wait_ok.
    + destruct Hd as (_ & Hd & _). rewrite He in Hd. done.
    + destruct Hd as (_ & Hd & _). rewrite He in Hd. done.
  - destruct He as (db & rest & E). unfold pool_settled. rewrite E in *.
    destruct Hpast as (? & ? & ?); [done|]. destruct Hd as (? & ? & ? & _). by apply close_pools_ok.
Qed.

(** ** Reachable processes *)

(** The server startApi starts with: none, one that cannot be closed, or one that listens. *)
Definition reachable (p : proc) : Prop :=
  exists s, s ∈ [Absent; Refuses; Listening] /\ rtc step (startApi s) p.

(** What no drain touches. *)
Definition rest_ok (p : proc) : Prop := Forall (eq 1) (crashes p) /\ (length (handles p) = 2)%nat.

Definition wf (p : proc) : Prop := proc_ok p /\ rest_ok p.

Lemma after_wait_rest p : rest_ok p -> rest_ok (after_wait p).
Proof. intros H. unfold after_wait. destruct (drain p); try done. case_match; [|done]. by destruct (distinct _ _). Qed.

Lemma crash_rest p : rest_ok p -> rest_ok (p <| crashes ::= fun l => l ++ [1] |>).
Proof. intros [Hc Hh]. split; [|done]. apply Forall_app. split; [done|]. by constructor. Qed.

Lemma react_rest p e : rest_ok p -> rest_ok (react p e).
Proof.
  intros H. destruct e; cbn [react]; try exact H.
  - unfold on_signal, shutdown. destruct (signalled (sig p)); [exact H|]. by apply after_wait_rest.
  - by apply after_wait_rest.
  - by apply (crash_rest (p <| decoderRunning := false |>)).
  - by destruct H.
  - by apply after_wait_rest.
  - unfold pool_settled. destruct (drain p) as [| |db [|db' rest]|]; exact H.
  - by apply crash_rest.
Qed.

Lemma reachable_wf p : reachable p -> wf p.
Proof.
  intros (s & _ & H). assert (wf (startApi s)) as Hw by (split; [unfold proc_ok, drain_ok; cbn; by split_and!|done]).
  revert Hw. induction H as [p|p q r [? e He] H IH]; [done|]. intros [Hp Hr]. apply IH. split; [by apply react_ok|by apply react_rest].
Qed.

Lemma distinct_length seen hs : (length (distinct seen hs) <= length hs)%nat.
Proof.
  revert seen. induction hs as [|[db|] hs IH]; intros seen; cbn; [lia|case_bool_decide; cbn|].
  - specialize (IH seen). lia.
  - specialize (IH (db :: seen)). lia.
  - specialize (IH seen). lia.
Qed.

(** ** What the exits mean *)

Lemma distinct_complete seen hs db : Some db ∈ hs -> db ∈ seen \/ db ∈ distinct seen hs.
Proof.
  revert seen. induction hs as [|h hs IH]; intros seen H; [by apply elem_of_nil in H|].
  apply elem_of_cons in H as [<-|H]; cbn.
  - case_bool_decide; [by left|right; left].
  - destruct h as [x|]; [|by apply IH]. case_bool_decide; [by apply IH|].
    destruct (IH (x :: seen) H) as [[->|?]%elem_of_cons|?]; [right; left|by left|right; by right].
Qed.

Lemma exited_code p c : wf p -> exited p = Some c -> exits (sig p) = [c] /\ (c = 0 \/ c = 1) \/ c = 1.
Proof.
  intros ((Hh & _) & Hc & _). unfold exited, handler_ok in *.
  destruct (exits (sig p)) as [|x l] eqn:E; cbn.
  - intros Hx. right. destruct (crashes p); [done|]. cbn in Hx. injection Hx as <-. by inversion Hc.
  - intros [= ->]. left. destruct (signalled (sig p)), (finished (sig p)); [|by destruct Hh..].
    destruct Hh as [[_ [[] Hh]]|[_ Hh]]; injection Hh as -> ->; auto.
Qed.

Lemma drain_closed p :
  drain_ok p ->
  NoDup (closed p) /\ (closed p <> [] -> loopEnded p = true /\ server_done (server p) = true).
Proof.
  unfold drain_ok. destruct (drain p).
  - intros (_ & -> & _). by split; [constructor|].
  - intros (_ & -> & _). by split; [constructor|].
  - intros (Hl & Hs & Hc & _). split; [|done].
    pose proof (proj1 (distinct_nodup [] (handles p))) as Hn. rewrite <- Hc in Hn. by apply NoDup_app in Hn as [? _].
  - intros (Hl & Hs & -> & _). split; [apply distinct_nodup|done].
Qed.

(** C24: Whatever signals, timer, loop, server and pools do, and in whatever order, a decoder
    process that was signalled no longer reports itself running and has set the stop flag of
    its loop; it closes a pool only after the loop has ended and the server no longer listens,
    and no pool twice; and it exits with 0 only once all of that is done and every open pool
    was closed. Every other exit is 1. *)
Theorem shutdown_is_orderly p :
  reachable p ->
  (signalled (sig p) = true -> reports_running p = false /\ decoderStopped p = true)
  /\ NoDup (closed p)
  /\ (closed p <> [] -> loopEnded p = true /\ server_done (server p) = true)
  /\ (exited p = Some 0 ->
      loopEnded p = true /\ server_done (server p) = true
      /\ forall db, Some db ∈ handles p -> db ∈ closed p)
  /\ (forall c, exited p = Some c -> c = 0 \/ c = 1).
Proof.
  intros Hre. pose proof (reachable_wf p Hre) as Hw. pose proof Hw as ((_ & Hd & Hr & _ & _ & H0) & _).
  destruct (drain_closed p Hd) as [Hn Hc]. split_and!; [done|done|done| |].
  - intros Hx. destruct (exited_code p 0 Hw Hx) as [[Hx0 _]|?]; [|done].
    unfold drain_ok in Hd. rewrite (H0 Hx0) in Hd. destruct Hd as (Hl & Hs & -> & _).
    split_and!; [done|done|]. intros db Hin.
    destruct (distinct_complete [] _ _ Hin) as [?%not_elem_of_nil|?]; done.
  - intros c Hx. destruct (exited_code p c Hw Hx) as [[_ ?]| -> ]; auto.
Qed.

(** *** Every signalled process ends *)

Lemma pools_settle p (oks : list bool) db rest :
  draining (sig p) -> drain p = ClosingPools db rest -> length oks = S (length rest) ->
  exited p = None -> exited (foldl react p (PoolSettles <$> oks)) = Some 0.
Proof.
  revert p db rest. induction oks as [|ok oks IH]; intros p db rest Hd Hp Hl Hx; [done|].
  apply alive in Hx as Hx'. destruct Hx' as [Hx1 Hx2]. destruct Hd as (Hs & Hf & Ht & He).
  cbn. unfold pool_settled. rewrite Hp. destruct rest as [|db' rest]; cbn.
  - destruct oks; [|done]. cbn. unfold exited, drain_settled. cbn. by rewrite Hf, Hx1.
  - eapply (IH _ db' rest); cbn; [by split_and!|done|cbn in Hl; lia|done].
Qed.

Lemma rest_length p db rest :
  drain_ok p -> rest_ok p -> drain p = ClosingPools db rest -> (length rest <= 1)%nat.
Proof.
  unfold drain_ok. intros Hd [_ Hh] E. rewrite E in Hd. destruct Hd as (_ & _ & Hc & l & Hl).
  pose proof (distinct_length [] (handles p)) as H. rewrite <- Hc, Hl, !length_app in H. cbn in H. lia.
Qed.

(** C25: A decoder process that was signalled and has not exited can always end.  Its hard-exit
    timer is still armed, and when it fires the process exits with 1.  Once its loop has ended
    and its server is closed, at most two more pool closes, failed or not, make it exit with 0;
    and the drain waits for nothing but these: a closing server, a loop whose stop flag is set,
    a closing pool. *)
Theorem signalled_process_ends p :
  reachable p -> signalled (sig p) = true -> exited p = None ->
  (enabled p Timer /\ exited (react p Timer) = Some 1)
  /\ (loopEnded p = true -> server_done (server p) = true ->
      exists n, (n <= 2)%nat /\ forall oks, length oks = n ->
        exited (foldl react p (PoolSettles <$> oks)) = Some 0)
  /\ (enabled p ServerCloses \/ enabled p LoopEnds \/ enabled p (PoolSettles true)).
Proof.
  intros Hre Hs Hx. destruct (reachable_wf p Hre) as ((Hh & Hd & Hr & _) & Hrest).
  pose proof (alive p Hx) as [Hx1 Hx2]. destruct (Hr Hs) as [_ Hst].
  destruct (handler_alive _ Hh Hx1) as [Hdr|[? _]]; [|congruence].
  pose proof Hdr as (_ & Hf & Ht & _). split_and!; [by split_and!| | |].
  - cbn. unfold exited. cbn. by rewrite timer_exits, Hx2.
  - intros Hl Hsv. destruct (drain p) as [| |db rest|] eqn:E; unfold drain_ok in Hd; rewrite E in Hd.
    + destruct Hd. congruence.
    + destruct Hd as (_ & _ & Hd & _). by rewrite Hl, Hsv in Hd.
    + exists (S (length rest)). split; [|intros oks Ho; by eapply pools_settle].
      enough (length rest <= 1)%nat by lia. eapply rest_length; [|done..]. unfold drain_ok. by rewrite E.
    + destruct Hd as (_ & _ & _ & Hd). congruence.
  - unfold enabled. unfold drain_ok in Hd. destruct (drain p) as [| |db rest|] eqn:E.
    + destruct Hd. congruence.
    + destruct Hd as (_ & _ & Hd & Hsl). destruct (loopEnded p); [|right; left; by split_and!].
      left. split; [done|]. destruct (server p) eqn:Es; try done.
    + right; right. split; [done|]. by exists db, rest.
    + destruct Hd as (_ & _ & _ & Hd). congruence.
Qed.

Lemma reach_step p e : reachable p -> enabled p e -> reachable (react p e).
Proof. intros (s & Hs & H) He. exists s. split; [done|]. eapply rtc_r; [done|by constructor]. Qed.

Fixpoint enabled_run (p : proc) (es : list event) : Prop :=
  match es with [] => True | e :: es => enabled p e /\ enabled_run (react p e) es end.

Lemma reach_run p es : reachable p -> enabled_run p es -> reachable (foldl react p es).
Proof.
  revert p. induction es as [|e es IH]; intros p Hp Hes; [done|]. destruct Hes. by apply IH; [apply reach_step|].
Qed.

(** A signal while the decoder parses, then the loop and the server end. *)
Definition sample_run : list event :=
  [HandlesOpen 1 2; Signal; UnhandledRejection; Signal; LoopEnds; ServerCloses].

Definition sample_closing : proc := foldl react (startApi Listening) sample_run.
Definition sample_drained : proc := foldl react sample_closing [PoolSettles false; PoolSettles true].

Lemma reach_start : reachable (startApi Listening).
Proof. exists Listening. split; [set_solver|constructor]. Qed.

Lemma sample_closing_reachable : reachable sample_closing.
Proof.
  apply (reach_run (startApi Listening) sample_run); [apply reach_start|]. vm_compute. by split_and!.
Qed.

Lemma sample_drained_reachable : reachable sample_drained.
Proof.
  apply (reach_run sample_closing [PoolSettles false; PoolSettles true]); [apply sample_closing_reachable|].
  vm_compute. split_and!; eauto.
Qed.

Lemma shutdown_is_orderly_witness :
  exited sample_drained = Some 0 /\ closed sample_drained = [1; 2]%nat
  /\ NoDup (closed sample_drained) /\ loopEnded sample_drained = true.
Proof.
  destruct (shutdown_is_orderly sample_drained sample_drained_reachable) as (_ & Hn & Hc & _).
  split_and!; [reflexivity|reflexivity|exact Hn|]. by apply Hc.
Defined.

Lemma signalled_process_ends_witness :
  exited (react sample_closing Timer) = Some 1
  /\ exited (foldl react sample_closing (PoolSettles <$> [false; false])) = Some 0
  /\ enabled sample_closing Timer.
Proof.
  destruct (signalled_process_ends sample_closing sample_closing_reachable eq_refl eq_refl)
    as ([Ht Hx] & _ & _).
  split_and!; [exact Hx|reflexivity|apply Ht..].
Defined.
