(* ===== verification/MempoolApi.v ===== *)
(** * The pending transactions the API serves

    src/src/api/mempool_methods.js over the two read queries of src/src/db/mempool.js: the
    method getmempool, whose requests share one cached snapshot and one read at a time.

    The cache is a machine that reacts to requests and to the end of the read in flight;
    what runs between two of these (the microtasks of a promise that has settled) runs
    within one event.  The text of params.limit is an argument, and so is what the server
    stamps on a row as first_seen and the order it gives the hashes.  The column data is a
    MEDIUMTEXT, which the driver hands back as a string.

    However many requests arrive, the reads are spaced; every request is answered, with the
    rows of one read, and an answer that is not called stale holds a read no older than the
    cache allows. *)
From Stdlib Require Import QArith.QArith_base.
From S2P Require Import Prelude JsNum Db Idle Sample Mempool.
#[local] Open Scope Z_scope.
#[local] Open Scope update_scope.

(** ** The two queries *)

(** [Math.max(1, Math.min(n || dflt, 500))] *)
Definition at_most_500 (dflt : Z) (n : num) : num :=
  let n := if falsy_num n then numZ dflt else n in
  let m := if num_lt n (numZ 500) then n else numZ 500 in
  if num_lt m (numZ 1) then numZ 1 else m.

(** A row as the API reads it; [None] is null. *)
Record api_row := ApiRow {
  ar_hash : jstr; ar_source : option jstr; ar_data : jstr; ar_first_seen : option num
}.

Definition firstSeenAsSeconds (v : jsval) : option num :=
  let n := match v with JNull | JUndefined => NaN | _ => Number v end in
  if isFinite n then Some n else None.

Section Queries.
Context {Coll : Collation}.
Context (first_seen_of : mempool_row -> jsval) (by_hash : list mempool_row -> list mempool_row).

(** [data IS NOT NULL AND data != '']: an equality of the column's collation. *)
Definition carries_action (r : mempool_row) : bool := negb (same_text (mr_data r) []).

Definition api_row_of (r : mempool_row) : api_row :=
  ApiRow (mr_hash r) (mr_source r) (mr_data r) (firstSeenAsSeconds (first_seen_of r)).

(** The window and the count over the rows of one moment. *)
Definition action_window (max : nat) (l : list mempool_row) : list api_row :=
  api_row_of <$> take max (by_hash (List.filter carries_action l)).

Definition action_count (l : list mempool_row) : Z :=
  Z.of_nat (length (List.filter carries_action l)).

Definition SYNTAX_ERROR : Z := 1064.

(** A LIMIT that is no integer is refused by the server. *)
Definition getMempoolTransactions (limit : jsval) : Mem (list api_row) :=
  mdb getConnection;;
  on_rows (fun l => match integer_of (at_most_500 200 (Number limit)) with
                    | Some max => inr (action_window (Z.to_nat max) l, l)
                    | None => inl (sql_error SYNTAX_ERROR)
                    end).

Definition getMempoolTransactionCount : Mem Z :=
  mdb getConnection;;
  on_rows (fun l => inr (action_count l, l)).
End Queries.

(** ** The cache *)

Record snapshot := Snapshot {
  sn_t : Z;                                 (* when its read was asked for *)
  sn_rows : list api_row;
  sn_total : Z;
  read_ok_at : option Z                     (* when its read ended *)
}.

Definition no_rows (t : Z) : snapshot := Snapshot t [] 0 None.

Record request := Request {
  rq_id : nat; rq_at : Z; rq_limit : option jstr    (* [None]: undefined *)
}.

Record answer := Answer {
  an_request : request;
  an_at : Z;
  node_tx_count : Z;
  node_updated_at : option Z;
  an_stale : bool;
  an_read_ok_at : option Z;
  an_total : Z;
  an_rows : list api_row
}.

(** What is seen from outside. *)
Inductive entry :=
  | ReadStarts (t : Z)
  | ReadEnds (started ended : Z) (rows : list api_row) (total : Z)
  | ReadFails (started ended : Z)
  | Asked (r : request)
  | Answered (a : answer).

Record cache_state := CacheState {
  cache : option snapshot;
  failedAt : Z;                             (* 0: the last read did not fail *)
  refresh : option Z;                       (* the read in flight, and when it was asked for *)
  waiting : list request;                   (* the requests that await it *)
  now_is : Z;                               (* the clock *)
  history : list entry                      (* newest last *)
}.

#[export] Instance eta_cache_state : Eta cache_state := fun s => CacheState (cache s)
  (failedAt s) (refresh s) (waiting s) (now_is s) (history s).

Definition createMempoolMethods (t : Z) : cache_state := CacheState None 0 None [] t [].

(** [parseInt(config.GETMEMPOOL_CACHE_MS, 10) || 5000] *)
Definition cache_ttl (raw : option jstr) : num :=
  let n := match raw with Some s => parse_int_str s | None => NaN end in
  if falsy_num n then numZ 5000 else n.

Definition backoff (ttl : num) : num := if num_lt (numZ 1000) ttl then numZ 1000 else ttl.

(** [rows.slice(0, limit)] of a limit that is at least 1. *)
Definition slice_count (limit : num) : nat :=
  match limit with Fin (Qmake a b) => Z.to_nat (a / Zpos b) | _ => 0 end.

Definition request_limit (raw : option jstr) : nat :=
  slice_count (at_most_500 500 (match raw with Some s => parse_int_str s | None => NaN end)).

(** The result; [node] is the decoder's count and its time. *)
Definition answer_of (s : cache_state) (node : Z * option Z) (stale : bool) (r : request) : answer :=
  let sn := default (no_rows 0) (cache s) in
  Answer r (now_is s) (fst node) (snd node) stale (read_ok_at sn) (sn_total sn)
    (take (request_limit (rq_limit r)) (sn_rows sn)).

Definition log (e : entry) (s : cache_state) : cache_state := s <| history ::= fun h => h ++ [e] |>.

Definition answers (s : cache_state) (node : Z * option Z) (stale : bool) (rs : list request)
  : cache_state :=
  s <| history ::= fun h => h ++ (Answered ∘ answer_of s node stale <$> rs) |>.

Section Method.
Context (ttl : num).

Definition expired (now : Z) (s : cache_state) : bool :=
  match cache s with Some c => num_le ttl (numZ (now - sn_t c)) | None => true end.

Definition backing_off (now : Z) (s : cache_state) : bool :=
  negb (failedAt s =? 0) && num_lt (numZ (now - failedAt s)) (backoff ttl).

(** [inl stale]: answered at once; [inr]: the request awaits the read in flight. *)
Definition refreshMempoolSnapshot (has_db : bool) (now : Z) (s : cache_state)
  : (bool + unit) * cache_state :=
  if negb has_db then (inl false, s <| cache := Some (no_rows now) |>)
  else if backing_off now s then (inl true, s)
  else match refresh s with
       | Some _ => (inr tt, s)
       | None => (inr tt, log (ReadStarts now) (s <| refresh := Some now |>))
       end.

Definition getmempool (has_db : bool) (node : Z * option Z) (r : request) (s : cache_state)
  : cache_state :=
  let now := rq_at r in
  let s := log (Asked r) (s <| now_is := now |>) in
  if expired now s then
    match refreshMempoolSnapshot has_db now s with
    | (inl stale, s) => answers s node stale [r]
    | (inr _, s) => s <| waiting ::= fun l => l ++ [r] |>
    end
  else answers s node false [r].

(** The read in flight ends: its promise is dropped and every request that awaits it is
    answered. *)
Definition readMempoolSnapshot (outcome : option (list api_row * Z)) (at_ : Z)
    (node : Z * option Z) (s : cache_state) : cache_state :=
  match refresh s with
  | None => s
  | Some started =>
      let s := s <| now_is := at_ |> in
      let s := match outcome with
               | Some (rows, total) =>
                   log (ReadEnds started at_ rows total)
                     (s <| cache := Some (Snapshot started rows total (Some at_)) |> <| failedAt := 0 |>)
               | None => log (ReadFails started at_) (s <| failedAt := at_ |>)
               end in
      let s := s <| refresh := None |> in
      answers (s <| waiting := [] |>) node (bool_decide (outcome = None)) (waiting s)
  end.

Inductive cache_event :=
  | Requested (has_db : bool) (node : Z * option Z) (r : request)
  | Settled (outcome : option (list api_row * Z)) (at_ : Z) (node : Z * option Z).

Definition cache_step (s : cache_state) (e : cache_event) : cache_state :=
  match e with
  | Requested has_db node r => getmempool has_db node r s
  | Settled outcome at_ node => readMempoolSnapshot outcome at_ node s
  end.
End Method.

(** ** Runs *)

Section Runs.
Context {Coll : Collation}.
Context (first_seen_of : mempool_row -> jsval) (by_hash : list mempool_row -> list mempool_row).
Context (ttl : num).

(** What a read that succeeded brings back: the window of one state of the database and the
    count of a later one. *)
Definition read_of (rows : list api_row) (total : Z) : Prop :=
  exists m m' n n',
    getMempoolTransactions first_seen_of by_hash (jint 500) m = (Ret rows, m')
    /\ getMempoolTransactionCount n = (Ret total, n').

(** The clock does not go back, and a read ends once. *)
Definition cache_enabled (s : cache_state) (e : cache_event) : Prop :=
  match e with
  | Requested _ _ r => now_is s <= rq_at r
  | Settled outcome at_ _ =>
      is_Some (refresh s) /\ now_is s <= at_
      /\ match outcome with Some (rows, total) => read_of rows total | None => True end
  end.

Inductive cache_run : cache_state -> Prop :=
  | run_start t : 0 < t -> cache_run (createMempoolMethods t)
  | run_step s e : cache_run s -> cache_enabled s e -> cache_run (cache_step ttl s e).
End Runs.

Lemma backoff_Z T : backoff (numZ T) = numZ (Z.min 1000 T).
Proof. unfold backoff. rewrite num_lt_Z. destruct (Z.ltb_spec 1000 T); f_equal; lia. Qed.

(** ** Limits *)

Lemma at_most_500_range d n :
  1 <= d <= 500 -> exists q, at_most_500 d n = Fin q /\ (Qz 1 <= q /\ q <= Qz 500)%Q.
Proof.
  intros Hd. unfold at_most_500. set (n' := if falsy_num n then numZ d else n).
  assert (n' <> NaN) as Hn.
  { subst n'. destruct (falsy_num n) eqn:E; [done|]. by destruct n. }
  destruct (num_lt n' (numZ 500)) eqn:E1.
  - destruct (num_lt n' (numZ 1)) eqn:E2; [by exists (Qz 1)|].
    destruct n' as [|[]|q]; try done. exists q. cbn in E1, E2. unfold Qgt in E1, E2.
    apply negb_true_iff in E1. apply negb_false_iff in E2. apply Qle_bool_iff in E2.
    split; [done|]. split; [done|]. destruct (Qlt_le_dec (Qz 500) q) as [H|H]; [|done].
    apply Qlt_le_weak, Qle_bool_iff in H. congruence.
  - cbn. by exists (Qz 500).
Qed.

Lemma request_limit_range raw : (1 <= request_limit raw <= 500)%nat.
Proof.
  unfold request_limit. set (n := match raw with Some s => parse_int_str s | None => NaN end).
  destruct (at_most_500_range 500 n ltac:(lia)) as ([a b] & -> & H1 & H2).
  cbn. unfold Qle in H1, H2. cbn in H1, H2.
  assert (1 <= a / Z.pos b <= 500); [|lia].
  split; [apply Z.div_le_lower_bound; lia|]. 
  enough (a / Z.pos b < 501) by lia. apply Z.div_lt_upper_bound; lia.
Qed.

(** ** Reads *)

Section Facts.
Context {Coll : Collation}.
Context (first_seen_of : mempool_row -> jsval) (by_hash : list mempool_row -> list mempool_row).

Lemma on_rows_ret {A} (stmt : list mempool_row -> jserror + (A * list mempool_row)) s a s' :
  on_rows stmt s = (Ret a, s') -> exists l', stmt (m_rows s) = inr (a, l').
Proof.
  unfold on_rows. destruct (faults (m_world s)) as [|[f|] fs]; cbn.
  - destruct (stmt (m_rows s)) as [|[b l']]; [done|]. intros [= <- _]. by exists l'.
  - done.
  - destruct (stmt (m_rows s)) as [|[b l']]; [done|]. intros [= <- _]. by exists l'.
Qed.

Lemma after_connection {A} (k : Mem A) m a m' :
  (mdb getConnection;; k) m = (Ret a, m') -> exists n, m_rows n = m_rows m /\ k n = (Ret a, m').
Proof.
  unfold mdb, mbind, Mem_bind. destruct (getConnection (m_world m)) as [[[]|e|] w]; intros H; [|discriminate H..].
  exists (m <| m_world := w |>). by split.
Qed.

Lemma read_of_rows rows total :
  read_of first_seen_of by_hash rows total ->
  exists l l', rows = action_window first_seen_of by_hash 500 l /\ total = action_count l'.
Proof.
  intros (m & m' & n & n' & Hr & Hc).
  apply after_connection in Hr as (m1 & Hm & Hr). apply after_connection in Hc as (n1 & Hn & Hc).
  apply on_rows_ret in Hr as (l1 & Hr). apply on_rows_ret in Hc as (l2 & Hc).
  exists (m_rows m1), (m_rows n1). split; [|by injection Hc].
  change (integer_of (at_most_500 200 (Number (jint 500)))) with (Some 500) in Hr.
  cbn beta iota in Hr. by injection Hr.
Qed.

(** ** The machine *)

Context (T : Z) (HT : 0 < T).

Abbreviation gap := (Z.min 1000 T).

(** The rows and the count an answer with a read time holds. *)
Definition reads_table (H : list entry) (started ended : Z) (rows : list api_row) (total : Z) : Prop :=
  started <= ended /\ ReadEnds started ended rows total ∈ H
  /\ exists l l', rows = action_window first_seen_of by_hash 500 l /\ total = action_count l'.

Definition snapshot_ok (H : list entry) (sn : snapshot) : Prop :=
  match read_ok_at sn with
  | Some k => reads_table H (sn_t sn) k (sn_rows sn) (sn_total sn)
  | None => sn_rows sn = [] /\ sn_total sn = 0
  end.

(** What an answer promises. *)
Definition answer_ok (H : list entry) (a : answer) : Prop :=
  let r := an_request a in
  rq_at r <= an_at a
  /\ match an_read_ok_at a with
     | Some k =>
         k <= an_at a /\ (an_stale a = false -> rq_at r - T < k)
         /\ exists started l l',
              ReadEnds started k (action_window first_seen_of by_hash 500 l) (an_total a) ∈ H
              /\ an_rows a = action_window first_seen_of by_hash (request_limit (rq_limit r)) l
              /\ an_total a = action_count l'
     | None => an_rows a = [] /\ an_total a = 0
     end
  /\ (an_stale a = true ->
      exists started f, ReadFails started f ∈ H /\ rq_at r - gap < f <= an_at a).

(** The invariant, where the requests [rs] are still to be answered. *)
Definition cache_inv (rs : list request) (s : cache_state) : Prop :=
  (refresh s = None -> waiting s = [])
  /\ (forall c k, cache s = Some c -> read_ok_at c = Some k -> k <= now_is s)
  /\ (forall c, cache s = Some c -> snapshot_ok (history s) c)
  /\ (failedAt s <> 0 -> failedAt s <= now_is s /\ exists t, ReadFails t (failedAt s) ∈ history s)
  /\ (forall t, refresh s = Some t -> t <= now_is s)
  /\ Forall (fun r => rq_at r <= now_is s) (waiting s)
  /\ (forall a, Answered a ∈ history s -> answer_ok (history s) a)
  /\ (forall r, Asked r ∈ history s ->
      (exists a, Answered a ∈ history s /\ an_request a = r) \/ r ∈ rs ++ waiting s).

Lemma window_take l n :
  (n <= 500)%nat ->
  take n (action_window first_seen_of by_hash 500 l) = action_window first_seen_of by_hash n l.
Proof.
  intros Hn. unfold action_window. by rewrite !fmap_take, take_take, Nat.min_l.
Qed.

Lemma snapshot_ok_mono H H' sn : H ⊆ H' -> snapshot_ok H sn -> snapshot_ok H' sn.
Proof.
  unfold snapshot_ok, reads_table. destruct (read_ok_at sn); [|done].
  intros Hs (? & Hin & ?). split_and!; [done|by apply Hs|done].
Qed.

Lemma answer_ok_mono H H' a : H ⊆ H' -> answer_ok H a -> answer_ok H' a.
Proof.
  unfold answer_ok. intros Hs (Ht & Hr & Hf). split_and!; [done| |].
  - destruct (an_read_ok_at a); [|done]. destruct Hr as (? & ? & t & l & l' & Hin & ?).
    split_and!; [done..|]. exists t, l, l'. split; [by apply Hs|done].
  - intros Hst. destruct (Hf Hst) as (t & f & Hin & ?). exists t, f. split; [by apply Hs|done].
Qed.

(** An answer from the cache is good when the cache is, and when what it calls stale, or does
    not, is so. *)
Lemma answer_of_ok s node stale r :
  rq_at r <= now_is s ->
  (forall c, cache s = Some c -> snapshot_ok (history s) c) ->
  (forall c k, cache s = Some c -> read_ok_at c = Some k -> k <= now_is s) ->
  (stale = false -> forall c k, cache s = Some c -> read_ok_at c = Some k -> rq_at r - T < k) ->
  (stale = true -> exists t f, ReadFails t f ∈ history s /\ rq_at r - gap < f <= now_is s) ->
  answer_ok (history s) (answer_of s node stale r).
Proof.
  intros Hr Hc Hk Hfresh Hstale. unfold answer_ok, answer_of. cbn. split_and!; [done| |done].
  destruct (cache s) as [c|] eqn:E; cbn; [|by rewrite take_nil].
  specialize (Hc c eq_refl). unfold snapshot_ok in Hc. destruct (read_ok_at c) as [k|] eqn:Ek.
  - destruct Hc as (Hs & Hin & l & l' & Hl & Hl'). split_and!; [by apply (Hk c)|intros ?; by apply (Hfresh ltac:(done) c)|].
    exists (sn_t c), l, l'. rewrite <- Hl. split_and!; [done| |done].
    rewrite Hl. apply window_take, request_limit_range.
  - destruct Hc as [-> ->]. by rewrite take_nil.
Qed.
Lemma elem_of_answered H s node stale rs a :
  Answered a ∈ H ++ (Answered ∘ answer_of s node stale <$> rs) <->
  Answered a ∈ H \/ exists r, r ∈ rs /\ a = answer_of s node stale r.
Proof.
  rewrite elem_of_app, list_elem_of_fmap. split; (intros [?|H1]; [by left|right]).
  - destruct H1 as (r & Ha & Hr). injection Ha as ->. by exists r.
  - destruct H1 as (r & Hr & ->). by exists r.
Qed.

Lemma elem_of_old {e : entry} H s node stale rs :
  (forall a, e <> Answered a) ->
  e ∈ H ++ (Answered ∘ answer_of s node stale <$> rs) <-> e ∈ H.
Proof.
  intros He. rewrite elem_of_app, list_elem_of_fmap. split; [|by left].
  intros [?|(r & Ha & _)]; [done|]. by destruct (He (answer_of s node stale r)).
Qed.

Lemma answers_inv rs s node stale :
  cache_inv rs s ->
  (forall r, r ∈ rs -> answer_ok (history s) (answer_of s node stale r)) ->
  cache_inv [] (answers s node stale rs).
Proof.
  intros (Hw & Hk & Hc & Hf & Ht & Hq & Ha & Hr) Hn. unfold cache_inv, answers. cbn.
  set (H' := history s ++ _). assert (history s ⊆ H') as Hsub by (intros x Hx; apply elem_of_app; by left).
  split_and!; try done.
  - intros c Hcc. by apply (snapshot_ok_mono (history s)), Hc.
  - intros Hf0. destruct (Hf Hf0) as [? [t ?]]. split; [done|]. exists t. by apply Hsub.
  - intros a Hin. apply (answer_ok_mono (history s)); [done|].
    apply elem_of_answered in Hin as [Hin|(r & Hin & ->)]; [by apply Ha|by apply Hn].
  - intros r Hin. apply elem_of_old in Hin; [|done].
    destruct (Hr r Hin) as [(a & Hin' & He)|[Hrs|Hws]%elem_of_app]; [| |by right].
    + left. exists a. split; [by apply Hsub|done].
    + left. exists (answer_of s node stale r). split; [|done]. apply elem_of_answered. right. by exists r.
Qed.

(** A new entry that is neither an answer nor a question changes nothing. *)
Lemma log_inv rs s e :
  (forall a, e <> Answered a) -> (forall r, e <> Asked r) -> cache_inv rs s -> cache_inv rs (log e s).
Proof.
  intros He1 He2 (Hw & Hk & Hc & Hf & Ht & Hq & Ha & Hr). unfold cache_inv, log. cbn.
  assert (history s ⊆ history s ++ [e]) as Hsub by (intros x Hx; apply elem_of_app; by left).
  assert (forall x, x ∈ history s ++ [e] -> x ∈ history s \/ x = e) as Hin.
  { intros x [?| ->%list_elem_of_singleton]%elem_of_app; auto. }
  split_and!; try done.
  - intros c Hcc. by apply (snapshot_ok_mono (history s)), Hc.
  - intros Hf0. destruct (Hf Hf0) as [? [t ?]]. split; [done|]. exists t. by apply Hsub.
  - intros a Ha'. apply (answer_ok_mono (history s)); [done|].
    destruct (Hin _ Ha') as [?|E]; [by apply Ha|by destruct (He1 a)].
  - intros r Hr'. destruct (Hin _ Hr') as [Hr0|E]; [|by destruct (He2 r)].
    destruct (Hr r Hr0) as [(a & ? & ?)|?]; [left; exists a; split; [by apply Hsub|done]|by right].
Qed.

Lemma asked_inv s r :
  now_is s <= rq_at r -> cache_inv [] s -> cache_inv [r] (log (Asked r) (s <| now_is := rq_at r |>)).
Proof.
  intros Hnow (Hw & Hk & Hc & Hf & Ht & Hq & Ha & Hr). unfold cache_inv, log. cbn.
  assert (history s ⊆ history s ++ [Asked r]) as Hsub by (intros x Hx; apply elem_of_app; by left).
  split_and!; try done.
  - intros c k Hcc Hkk. specialize (Hk c k Hcc Hkk). lia.
  - intros c Hcc. by apply (snapshot_ok_mono (history s)), Hc.
  - intros Hf0. destruct (Hf Hf0) as [? [t ?]]. split; [lia|]. exists t. by apply Hsub.
  - intros t Htt. specialize (Ht t Htt). lia.
  - eapply Forall_impl; [exact Hq|]. cbn. lia.
  - intros a [Ha'|E%list_elem_of_singleton]%elem_of_app; [|done].
    by apply (answer_ok_mono (history s)), Ha.
  - intros r' [Hr'|E%list_elem_of_singleton]%elem_of_app.
    + destruct (Hr r' Hr') as [(a & ? & ?)|?]; [left; exists a; split; [by apply Hsub|done]|right; by right].
    + injection E as ->. right. left.
Qed.
Lemma expired_fresh now s c :
  expired (numZ T) now s = false -> cache s = Some c -> now - T < sn_t c.
Proof. unfold expired. intros H Hc. rewrite Hc, num_le_Z in H. lia. Qed.

Lemma backing_off_failed now s :
  backing_off (numZ T) now s = true -> failedAt s <> 0 /\ now - gap < failedAt s.
Proof.
  unfold backing_off. rewrite backoff_Z, num_lt_Z. intros [H1 H2]%andb_prop.
  apply negb_true_iff in H1. lia.
Qed.

Lemma getmempool_inv has_db node r s :
  now_is s <= rq_at r -> cache_inv [] s -> cache_inv [] (getmempool (numZ T) has_db node r s).
Proof.
  intros Hnow Hinv. pose proof (asked_inv s r Hnow Hinv) as Hi.
  unfold getmempool. cbv zeta. set (s1 := log (Asked r) (s <| now_is := rq_at r |>)) in *.
  assert (now_is s1 = rq_at r) as Hn1 by done.
  pose proof Hi as (Hw & Hk & Hc & Hf & Ht & Hq & Ha & Hr).
  destruct (expired (numZ T) (rq_at r) s1) eqn:Ee.
  - unfold refreshMempoolSnapshot. destruct has_db; cbn [negb].
    + destruct (backing_off (numZ T) (rq_at r) s1) eqn:Eb.
      * destruct (backing_off_failed _ _ Eb) as [Hf0 Hlt]. destruct (Hf Hf0) as [Hle [t Hin]].
        apply answers_inv; [done|]. intros r' ->%list_elem_of_singleton.
        apply answer_of_ok; try done. intros _. exists t, (failedAt s1). by split_and!.
      * assert (forall s2, cache_inv [r] s2 -> is_Some (refresh s2) -> rq_at r <= now_is s2 ->
                  cache_inv [] (s2 <| waiting ::= fun l => l ++ [r] |>)) as Hwait.
        { intros s2 (Hw2 & Hk2 & Hc2 & Hf2 & Ht2 & Hq2 & Ha2 & Hr2) [x Hx] Hle. unfold cache_inv. cbn.
          split_and!; try done.
          - intros Hnone. congruence.
          - apply Forall_app. split; [done|]. by constructor.
          - intros r' Hr'. destruct (Hr2 r' Hr') as [?|Hin]; [by left|right].
            rewrite elem_of_app in Hin |- *. rewrite !list_elem_of_singleton in *. tauto. }
        destruct (refresh s1) as [t|] eqn:Er; apply Hwait; try done.
        apply log_inv; [done..|]. unfold cache_inv. cbn. split_and!; try done. intros t [= <-]. lia.
    + apply answers_inv.
      * unfold cache_inv. cbn. split_and!; try done; [by intros c k [= <-]|by intros c [= <-]].
      * intros r' ->%list_elem_of_singleton.
        apply answer_of_ok; cbn; [cbn; lia|by intros c [= <-]|by intros c k [= <-]|by intros _ c k [= <-]|done].
  - apply answers_inv; [done|]. intros r' ->%list_elem_of_singleton.
    apply answer_of_ok; try done. intros _ c k Hcc Hkk.
    pose proof (expired_fresh _ _ _ Ee Hcc) as Hlt. specialize (Hc c Hcc). unfold snapshot_ok in Hc.
    rewrite Hkk in Hc. destruct Hc as [? _]. lia.
Qed.
(** The end of a read, before its requests are answered. *)
Lemma settled_inv outcome at_ started s :
  refresh s = Some started -> now_is s <= at_ ->
  match outcome with Some (rows, total) => read_of first_seen_of by_hash rows total | None => True end ->
  cache_inv [] s ->
  cache_inv (waiting s)
    (match outcome with
     | Some (rows, total) =>
         log (ReadEnds started at_ rows total)
           (s <| now_is := at_ |> <| cache := Some (Snapshot started rows total (Some at_)) |> <| failedAt := 0 |>)
     | None => log (ReadFails started at_) (s <| now_is := at_ |> <| failedAt := at_ |>)
     end <| refresh := None |> <| waiting := [] |>).
Proof.
  intros Hrf Hnow Ho (Hw & Hk & Hc & Hf & Ht & Hq & Ha & Hr). specialize (Ht started Hrf).
  assert (forall e, history s ⊆ history s ++ [e]) as Hsub by (intros e x Hx; apply elem_of_app; by left).
  destruct outcome as [[rows total]|]; unfold cache_inv, log; cbn; split_and!; try done.
  - intros c k [= <-]. cbn. by intros [= <-].
  - intros c [= <-]. unfold snapshot_ok, reads_table. cbn. split_and!; [lia| |by apply read_of_rows].
    apply elem_of_app. right. by apply list_elem_of_singleton.
  - intros a [Ha'|E%list_elem_of_singleton]%elem_of_app; [|done]. by apply (answer_ok_mono (history s)), Ha.
  - intros r [Hr'|E%list_elem_of_singleton]%elem_of_app; [|done].
    destruct (Hr r Hr') as [(a & ? & ?)|Hin]; [left; exists a; split; [by apply Hsub|done]|].
    right. by rewrite app_nil_r.
  - intros c k Hcc Hkk. specialize (Hk c k Hcc Hkk). lia.
  - intros c Hcc. by apply (snapshot_ok_mono (history s)), Hc.
  - intros _. split; [done|]. exists started. apply elem_of_app. right. by apply list_elem_of_singleton.
  - intros a [Ha'|E%list_elem_of_singleton]%elem_of_app; [|done]. by apply (answer_ok_mono (history s)), Ha.
  - intros r [Hr'|E%list_elem_of_singleton]%elem_of_app; [|done].
    destruct (Hr r Hr') as [(a & ? & ?)|Hin]; [left; exists a; split; [by apply Hsub|done]|].
    right. by rewrite app_nil_r.
Qed.

Lemma settle_inv outcome at_ node s :
  is_Some (refresh s) -> now_is s <= at_ ->
  match outcome with Some (rows, total) => read_of first_seen_of by_hash rows total | None => True end ->
  cache_inv [] s -> cache_inv [] (readMempoolSnapshot outcome at_ node s).
Proof.
  intros [started Hrf] Hnow Ho Hinv. pose proof (settled_inv outcome at_ started s Hrf Hnow Ho Hinv) as Hi.
  pose proof Hinv as (_ & _ & _ & _ & Ht & Hq & _). specialize (Ht started Hrf).
  assert (forall r, r ∈ waiting s -> rq_at r <= at_) as Hq'.
  { intros r Hr. rewrite Forall_forall in Hq. specialize (Hq r Hr). cbn in Hq. lia. }
  unfold readMempoolSnapshot. rewrite Hrf.
  destruct outcome as [[rows total]|]; apply answers_inv; try exact Hi; intros r Hr; specialize (Hq' r Hr);
    destruct Hi as (_ & Hk & Hc & _); (apply answer_of_ok; [exact Hq'|exact Hc|exact Hk|..]); try done.
  - intros _ c k. cbn. intros [= <-]. cbn. intros [= <-]. lia.
  - intros _. exists started, at_. cbn. split; [|lia]. apply elem_of_app. right. by apply list_elem_of_singleton.
Qed.

Lemma start_inv t : cache_inv [] (createMempoolMethods t).
Proof. unfold cache_inv. cbn. split_and!; try done; by intros ? ?%not_elem_of_nil. Qed.

Lemma run_inv s : cache_run first_seen_of by_hash (numZ T) s -> cache_inv [] s.
Proof.
  induction 1 as [t|s e _ IH He]; [apply start_inv|]. destruct e as [has_db node r|outcome at_ node].
  - by apply getmempool_inv.
  - destruct He as (? & ? & ?). by apply settle_inv.
Qed.
(** ** The reads are spaced *)

Definition starts (H : list entry) : list Z :=
  omap (fun e => match e with ReadStarts t => Some t | _ => None end) H.

Definition spaced (l : list Z) : Prop :=
  forall i a b, l !! i = Some a -> l !! S i = Some b -> a + gap <= b.

Lemma spaced_snoc l t :
  spaced l -> (forall a, last l = Some a -> a + gap <= t) -> spaced (l ++ [t]).
Proof.
  intros Hl Ht i a b Ha Hb. destruct (decide (S i < length l)%nat) as [Hi|Hi].
  - rewrite lookup_app_l in Ha, Hb by lia. by apply (Hl i).
  - apply lookup_lt_Some in Hb as Hlt. rewrite length_app in Hlt. cbn in Hlt.
    rewrite lookup_app_l in Ha by lia. rewrite lookup_app_r in Hb by lia.
    replace (S i - length l)%nat with 0%nat in Hb by lia. injection Hb as <-. apply Ht.
    rewrite last_lookup. by replace (pred (length l)) with i by lia.
Qed.

(** Why the next read has to wait: the last one is in flight, failed, or filled the cache. *)
Definition held_back (s : cache_state) (t : Z) : Prop :=
  refresh s = Some t \/ (failedAt s <> 0 /\ t <= failedAt s)
  \/ exists c, cache s = Some c /\ t <= sn_t c.

Definition space_inv (s : cache_state) : Prop :=
  0 < now_is s /\ spaced (starts (history s))
  /\ (forall t, last (starts (history s)) = Some t -> t <= now_is s /\ held_back s t)
  /\ (forall t, refresh s = Some t -> last (starts (history s)) = Some t).

Lemma starts_app H H' : starts (H ++ H') = starts H ++ starts H'.
Proof. apply omap_app. Qed.

Lemma answers_starts H s node stale rs : starts (H ++ (Answered ∘ answer_of s node stale <$> rs)) = starts H.
Proof.
  rewrite starts_app. induction rs as [|r rs IH]; [apply app_nil_r|exact IH].
Qed.

Lemma answers_space s node stale rs : space_inv s -> space_inv (answers s node stale rs).
Proof. unfold space_inv, answers. cbn. by rewrite answers_starts. Qed.

Lemma log_space e s : (forall t, e <> ReadStarts t) -> space_inv s -> space_inv (log e s).
Proof.
  intros He. unfold space_inv, log. cbn. rewrite starts_app.
  replace (starts [e]) with (@nil Z); [by rewrite app_nil_r|]. by destruct e as [t| | | |]; [destruct (He t)|..].
Qed.

Lemma tick_space s t : now_is s <= t -> space_inv s -> space_inv (s <| now_is := t |>).
Proof.
  unfold space_inv. cbn. intros Ht (H0 & Hs & Hl & Hr). split_and!; [lia|done| |done].
  intros x Hx. destruct (Hl x Hx). split; [lia|done].
Qed.

(** The last read held the next one back for at least the gap. *)
Lemma start_allowed s now t :
  now_is s = now -> refresh s = None -> expired (numZ T) now s = true ->
  backing_off (numZ T) now s = false -> held_back s t -> t + gap <= now.
Proof.
  intros Hnow Hr He Hb [Hh|[[Hf Hle]|(c & Hc & Hle)]].
  - congruence.
  - unfold backing_off in Hb. rewrite backoff_Z, num_lt_Z in Hb. apply andb_false_iff in Hb as [Hb|Hb]; [|lia].
    apply negb_false_iff in Hb. lia.
  - unfold expired in He. rewrite Hc, num_le_Z in He. lia.
Qed.

Lemma getmempool_space has_db node r s :
  now_is s <= rq_at r -> space_inv s -> space_inv (getmempool (numZ T) has_db node r s).
Proof.
  intros Hnow Hs. unfold getmempool. cbv zeta.
  assert (space_inv (log (Asked r) (s <| now_is := rq_at r |>))) as H1 by (apply log_space; [done|by apply tick_space]).
  set (s1 := log (Asked r) (s <| now_is := rq_at r |>)) in *.
  destruct (expired (numZ T) (rq_at r) s1) eqn:Ee; [|by apply answers_space].
  unfold refreshMempoolSnapshot. destruct has_db; cbn [negb].
  - destruct (backing_off (numZ T) (rq_at r) s1) eqn:Eb; [by apply answers_space|].
    destruct (refresh s1) as [t|] eqn:Er; [exact H1|].
    destruct H1 as (H0 & Hsp & Hl & Hr). unfold space_inv, log. cbn [history now_is refresh set_field]. cbn.
    change (starts (_ ++ [ReadStarts ?t])) with (starts (history s1 ++ [ReadStarts t])).
    rewrite starts_app. cbn [starts omap list_omap].
    change (starts [ReadStarts (rq_at r)]) with [rq_at r]. rewrite last_snoc.
    split_and!; [done| | |by intros t [= <-]].
    + apply spaced_snoc; [done|]. intros a Ha. destruct (Hl a Ha) as [_ Hh]. by apply (start_allowed s1).
    + intros t [= <-]. split; [done|by left].
  - apply answers_space. destruct H1 as (H0 & Hsp & Hl & Hr). unfold space_inv. cbn. split_and!; try done.
    intros t Ht. destruct (Hl t Ht) as [Hle Hh]. split; [done|]. right; right. by eexists.
Qed.

Lemma settle_space outcome at_ node s :
  now_is s <= at_ -> space_inv s -> space_inv (readMempoolSnapshot outcome at_ node s).
Proof.
  intros Hnow Hs. unfold readMempoolSnapshot. destruct (refresh s) as [started|] eqn:Er; [|done].
  apply answers_space. destruct Hs as (H0 & Hsp & Hl & Hr). specialize (Hr started Er).
  assert (started <= at_) as Hle by (destruct (Hl started Hr); lia).
  destruct outcome as [[rows total]|]; unfold space_inv, log; cbn; rewrite starts_app; cbn; rewrite app_nil_r;
    (split_and!; [lia|done| |done]); intros t Ht; change (last (starts (history s)) = Some t) in Ht; rewrite Hr in Ht; injection Ht as <-;
    (split; [done|]).
  - right; right. by eexists.
  - right; left. cbn. split; [lia|done].
Qed.

Lemma run_space s : cache_run first_seen_of by_hash (numZ T) s -> space_inv s.
Proof.
  induction 1 as [t Ht|s e _ IH He]; [by split_and!|]. destruct e as [has_db node r|outcome at_ node].
  - by apply getmempool_space.
  - destruct He as (_ & ? & _). by apply settle_space.
Qed.
(** ** What getmempool guarantees *)

(** Two reads of the database never start closer together than a second, or than the time a
    snapshot is kept where that is shorter. *)
Lemma mempool_reads_spaced s i a b :
  cache_run first_seen_of by_hash (numZ T) s ->
  starts (history s) !! i = Some a -> starts (history s) !! S i = Some b ->
  a + Z.min 1000 T <= b.
Proof. intros Hrun Ha Hb. destruct (run_space s Hrun) as (_ & Hs & _). by apply (Hs i). Qed.

(** C28: Every request to getmempool is answered, or awaits a read that is in flight.  An
    answer holds the first rows, up to its limit, of the ACTION rows of one state of the
    table, and a count of a later one, both of a read that ended at the time the answer
    carries; it holds nothing, and no time, where no read has ended.  An answer not called
    stale holds a read that ended less than the kept time before the request; one called
    stale was held up by a read that failed at most a second before the request, or later.
    And however many requests come and however the reads end, two reads never start closer
    together than a second, or than the kept time where that is shorter: a burst of requests
    is not a burst of queries. *)
Theorem getmempool_answers s :
  cache_run first_seen_of by_hash (numZ T) s ->
  (forall a, Answered a ∈ history s -> answer_ok (history s) a)
  /\ (forall r, Asked r ∈ history s ->
        (exists a, Answered a ∈ history s /\ an_request a = r)
        \/ (r ∈ waiting s /\ is_Some (refresh s)))
  /\ (forall i a b, starts (history s) !! i = Some a -> starts (history s) !! S i = Some b ->
        a + Z.min 1000 T <= b).
Proof.
  intros Hrun. destruct (run_inv s Hrun) as (Hw & _ & _ & _ & _ & _ & Ha & Hr).
  split_and!; [done| |intros i a b; by apply mempool_reads_spaced].
  intros r Hin. destruct (Hr r Hin) as [?|Hwait]; [by left|right]. cbn in Hwait. split; [done|].
  destruct (refresh s) as [t|] eqn:E; [by eexists|]. rewrite (Hw eq_refl) in Hwait. by apply not_elem_of_nil in Hwait.
Qed.
End Facts.

(** ** A run *)

Definition sample_rows : list mempool_row :=
  [MempoolRow (js "aa") (Some (js "me")) None None 0 (js "SEND|0|1") None;
   MempoolRow (js "bb") None None None 0 [] None;
   MempoolRow (js "cc") (Some (js "you")) None None 0 (js "MINT|0|2") None].

Definition sample_stamp (_ : mempool_row) : jsval := JBigInt 1700000000.

Definition sample_window : list api_row := action_window sample_stamp id 500 sample_rows.

(** The first read fails; a burst waits out the back-off; the next read is shared. *)
Definition sample_events : list cache_event :=
  [Requested true (-1, None) (Request 0 100 None);
   Settled None 400 (-1, None);
   Requested true (-1, None) (Request 1 900 None);
   Requested true (-1, None) (Request 2 1500 (Some (js "1")));
   Requested true (-1, None) (Request 3 1600 None);
   Settled (Some (sample_window, 2)) 1700 (3, Some 1650);
   Requested true (3, Some 1650) (Request 4 3000 (Some (js "-7")))].

Definition sample_cache : cache_state :=
  foldl (cache_step (numZ 5000)) (createMempoolMethods 100) sample_events.

Lemma sample_read : read_of sample_stamp id sample_window 2.
Proof.
  set (m := MState (idle_world initial_tables []) sample_rows false 3 None 0).
  exists m, (getMempoolTransactions sample_stamp id (jint 500) m).2, m, (getMempoolTransactionCount m).2.
  split; by vm_compute.
Qed.

Fixpoint all_enabled (s : cache_state) (es : list cache_event) : Prop :=
  match es with
  | [] => True
  | e :: es => cache_enabled sample_stamp id s e /\ all_enabled (cache_step (numZ 5000) s e) es
  end.

Lemma run_events es s :
  cache_run sample_stamp id (numZ 5000) s -> all_enabled s es ->
  cache_run sample_stamp id (numZ 5000) (foldl (cache_step (numZ 5000)) s es).
Proof.
  revert s. induction es as [|e es IH]; intros s Hs He; [done|]. destruct He. apply IH; [|done]. by constructor.
Qed.

Lemma sample_cache_run : cache_run sample_stamp id (numZ 5000) sample_cache.
Proof.
  apply run_events; [by constructor|]. unfold sample_events, all_enabled, cache_enabled.
  split_and!; first [exact I|exact sample_read|by vm_compute|by eexists; vm_compute].
Qed.

Lemma getmempool_answers_witness :
  omap (fun e => match e with Answered a => Some (rq_id (an_request a), an_stale a, map ar_hash (an_rows a)) | _ => None end)
    (history sample_cache)
  = [(0%nat, true, []); (1%nat, true, []); (2%nat, false, [js "aa"]); (3%nat, false, [js "aa"; js "cc"]);
     (4%nat, false, [js "aa"])]
  /\ (forall a, Answered a ∈ history sample_cache -> answer_ok sample_stamp id 5000 (history sample_cache) a)
  /\ starts (history sample_cache) = [100; 1500] /\ 100 + Z.min 1000 5000 <= 1500.
Proof.
  destruct (getmempool_answers sample_stamp id 5000 eq_refl sample_cache sample_cache_run) as (H1 & _ & H2).
  split_and!; [by vm_compute|exact H1|by vm_compute|apply (H2 0%nat); by vm_compute].
Defined.
