(* ===== verification/Probes.v ===== *)
(** * The health surfaces

    src/src/api/probe_routes.js and health_probe.js, the routes and the health method of
    src/src/api.js, and [ping] of src/src/db/connection_lifecycle.js: what the decoder
    answers to GET /live, /ready and /status and to the JSON-RPC methods health and
    getlatestblock.

    A request is a computation over the state of the parse loop, which goes on between two
    awaits of the request ([meanwhile]); the clock is read where the source reads it
    ([clock]).  The flag of startApi, whether the handle of the database exists yet, and the
    connector are arguments.  The texts of wall-clock times that are only shown
    (reorg_halted_at, reorg_halt_cleared_at, last_quarantined_at) are left out.

    What each status code means, that a halt once known is not reported as clear on a fault
    of the database, that the failure log loses no failure, and where readiness is said too
    early. *)
From S2P Require Import Prelude JsNum Rpc Config Db Sample Ingest BlockStore Halt Node.
From S2P Require Import LoopState HaltPark SyncStatus.
#[local] Open Scope Z_scope.
#[local] Open Scope update_scope.

(** ** The throttle of the failure log *)

Definition PROBE_LOG_WINDOW_MS : Z := 60000.

Record probe_log := ProbeLog { suppressed : Z; lastLoggedAt : Z }.

(** A line, with the number of lines it stands for besides itself (left out of the line when
    zero). *)
Definition noteProbeFailure (key : jstr) (now : Z) (seen : gmap jstr probe_log)
  : option Z * gmap jstr probe_log :=
  match seen !! key with
  | Some e =>
      if now - lastLoggedAt e <? PROBE_LOG_WINDOW_MS
      then (None, <[key := ProbeLog (suppressed e + 1) (lastLoggedAt e)]> seen)
      else (Some (suppressed e), <[key := ProbeLog 0 now]> seen)
  | None => (Some 0, <[key := ProbeLog 0 now]> seen)
  end.

(** ** The bound of a batch *)

(** [length]: that of a body that is an array; [true]: the request is answered 400. *)
Definition makeRpcBatchGuard (maxBatch : num) (length : option Z) : bool :=
  match length with Some n => num_lt maxBatch (numZ n) | None => false end.

(** [parseInt(config.DECODER_RPC_MAX_BATCH, 10) || 20] *)
Definition rpc_max_batch (raw : option jstr) : num :=
  let n := match raw with Some s => parse_int_str s | None => NaN end in
  if falsy_num n then numZ 20 else n.

(** ** What a probe asks of the database *)

(** A connection of the pool's own, whatever transaction is open. *)
Definition ping : M bool :=
  query (fun w => inr (tt, w));; query (fun w => inr (tt, w));; mret true.

Definition lset (f : lstate -> lstate) : L unit := fun s => (RRet tt, f s).

Record http {A} := Http { code : Z; body : A }.
Arguments http : clear implicits.
Arguments Http {A}.

Section Surfaces.
Context (STALL_ALERT_MS STALL_FETCH_ATTEMPTS POLL_SILENT_MS : Z).
Context (meanwhile : nat -> lstate -> lstate) (clock : nat -> Z).
Context (conn : connector) (startedAt : Z).

(** [hasDb]: decoder.db exists; a ping that throws counts as a failed one. *)
Definition probe_db (hasDb : bool) : L bool :=
  if hasDb then ltry (ldb ping) (fun _ => mret false) else mret false.

Definition readReorgHaltForProbe (dbOk : bool) (now : Z) : L halt_status :=
  if dbOk then checkReorgHalt false now else lgets getReorgHaltStatus.

Record live_state := LiveState {
  decoderRunning : bool;
  dbOk : bool;
  stalled : bool;
  pollSilent : bool;
  reorgHalt : halt_status;
  syncStatus : option sync_status;
  healthy : bool
}.

Definition getLiveProbeState (running hasDb : bool) : L live_state :=
  db ← probe_db hasDb;
  lset (meanwhile 0);;
  stalled ← lgets (isStalled STALL_ALERT_MS STALL_FETCH_ATTEMPTS (clock 0));
  silent ← lgets (isPollSilent POLL_SILENT_MS (clock 1));
  halt ← readReorgHaltForProbe db (clock 2);
  lset (meanwhile 1);;
  status ← lgets (getSyncStatus (clock 3));
  mret (LiveState running db stalled silent halt status (running && db && negb stalled && negb silent)).

(** [syncStatus.node_height_stale === true] *)
Definition tip_stale (s : option sync_status) : bool :=
  match s with Some x => node_height_stale x | None => false end.

Definition when (b : bool) (reason : string) : list string := if b then [reason] else [].

Definition decoderNotReadyReasons (st : live_state) : list string :=
  when (negb (decoderRunning st)) "not_running"
  ++ when (negb (dbOk st)) "db_unreachable"
  ++ when (stalled st) "stalled"
  ++ when (pollSilent st) "poll_silent"
  ++ when (st_halted (reorgHalt st)) "reorg_halt"
  ++ when (st_parked (reorgHalt st)) "reorg_halt_parked"
  ++ when (bool_decide (st_checked_at (reorgHalt st) = None)) "reorg_halt_unchecked"
  ++ when (tip_stale (syncStatus st)) "node_height_stale".

(** *** The bodies *)

(** What /live, /ready, /status and the health method all say of the halt and the node. *)
Record halt_fields := HaltFields {
  reorg_halted : bool;
  reorg_halt_reason : option jstr;
  reorg_halt_parked : bool;
  reorg_halt_checked_at : option Z;
  reorg_halt_cleared_reason : option jstr;
  node_catching_up : option catching_up;
  reorg_waiting : option reorg_wait;
  node_last_ok_at : option Z;
  node_unreachable : option (Z * Z)
}.

Definition nodeReachabilityFields (now : Z) : option Z * option (Z * Z) :=
  nodeReachabilityFrom startedAt (lastNodeOkAt conn) (lastNodeFailAt conn) now.

Definition halt_fields_of (h : halt_status) (now : Z) (s : lstate) : halt_fields :=
  let '(ok, down) := nodeReachabilityFields now in
  HaltFields (st_halted h) (st_reason h) (st_parked h) (st_checked_at h) (st_cleared_reason h)
    (nodeCatchingUp (progress_of s)) (reorgWait (progress_of s)) ok down.

(** The heights; every one null while nothing is processed. *)
Definition heights (st : option sync_status) : option Z * option Z * option Z :=
  match st with
  | Some x => (Some (last_processed_block x), Some (ss_node_height x), Some (lag x))
  | None => (None, None, None)
  end.

Definition counters (s : lstate) : decoder_stats := stats (world_of (reorg_of s)).

Definition all_rpc_errors (s : lstate) : Z := rpcErrors (counters s) + connector_rpcErrors conn.

Record live_body := LiveBody {
  lb_healthy : bool;                        (* status *)
  lb_db : bool;
  lb_running : bool;
  lb_stalled : bool;
  lb_poll_silent : bool;
  last_poll_at : option Z;
  lb_halt : halt_fields;
  lb_node_height_stale : bool;
  lb_heights : option Z * option Z * option Z;
  lb_stats : decoder_stats;
  rpc_errors : Z;
  ready : bool;
  not_ready_reasons : list string
}.

Definition liveBody (st : live_state) (now : Z) (s : lstate) : live_body :=
  let notReady := decoderNotReadyReasons st in
  LiveBody (healthy st) (dbOk st) (decoderRunning st) (stalled st) (pollSilent st)
    (nonzero (lastPollAt (progress_of s))) (halt_fields_of (reorgHalt st) now s)
    (tip_stale (syncStatus st)) (heights (syncStatus st)) (counters s) (all_rpc_errors s)
    (bool_decide (notReady = [])) notReady.

Definition status_code (ok : bool) : Z := if ok then 200 else 503.

(** GET /live *)
Definition registerLiveRoute (running hasDb : bool) : L (http live_body) :=
  st ← getLiveProbeState running hasDb;
  b ← lgets (liveBody st (clock 4));
  mret (Http (status_code (healthy st)) b).

(** GET /ready *)
Definition registerReadyRoute (running hasDb : bool) : L (http live_body) :=
  st ← getLiveProbeState running hasDb;
  b ← lgets (liveBody st (clock 4));
  mret (Http (status_code (ready b)) b).

Record status_body := StatusBody {
  sb_healthy : bool;
  sb_db : bool;
  sb_running : bool;
  sb_lag : option Z;
  sb_node_height_stale : bool;
  sb_halt : halt_fields
}.

(** GET /status; the flag is read last. *)
Definition registerStatusRoute (running hasDb : bool) : L (http status_body) :=
  db ← probe_db hasDb;
  lset (meanwhile 0);;
  halt ← readReorgHaltForProbe db (clock 0);
  lset (meanwhile 1);;
  status ← lgets (getSyncStatus (clock 1));
  fields ← lgets (halt_fields_of halt (clock 2));
  let ok := running && db in
  mret (Http (status_code ok)
         (StatusBody ok db running (lag <$> status) (tip_stale status) fields)).

(** *** The JSON-RPC methods *)

Inductive db_phase := starting | running_phase | db_unreachable.

Definition getHealthProbeState (hasDb : bool)
  : L (option sync_status * bool * db_phase * halt_status) :=
  status ← lgets (getSyncStatus (clock 0));
  db ← probe_db hasDb;
  lset (meanwhile 0);;
  halt ← readReorgHaltForProbe db (clock 1);
  mret (status, db, if hasDb then if db : bool then running_phase else db_unreachable else starting, halt).

Record health_body := HealthBody {
  hb_healthy : bool;
  phase : db_phase;
  hb_synced : bool;
  hb_halt : halt_fields;
  reorg_halt_parked_at : option Z;
  hb_status : option sync_status;
  lag_blocks : option Z;
  hb_stats : decoder_stats;
  hb_rpc_errors : Z;
  hb_error : option jstr
}.

(** The gap where both heights are known. *)
Definition known_lag (s : lstate) : option Z :=
  if (0 <=? nodeTip s) && (0 <=? cursor s) then Some (nodeTip s - cursor s) else None.

Definition buildHealthResult (st : option sync_status * bool * db_phase * halt_status)
    (running : bool) (error : option jstr) (s : lstate) : health_body :=
  let '(status, db, ph, halt) := st in
  HealthBody (running && db) ph (isSynced (clock 2) (progress_of s)) (halt_fields_of halt (clock 3) s)
    (st_parked_at halt) status (known_lag s) (counters s) (all_rpc_errors s) error.

Definition health (running hasDb : bool) (error : option jstr) : L health_body :=
  st ← getHealthProbeState hasDb;
  lset (meanwhile 1);;
  lgets (buildHealthResult st running error).

(** The last block, the node's, and whether they meet. *)
Definition getlatestblock : L (option Z * option Z * bool) :=
  lgets (fun s =>
    let '(last, node, _) := heights (getSyncStatus (clock 0) s) in
    (last, node, isSynced (clock 1) (progress_of s))).
End Surfaces.

(** ** Computations that only read

    Inside a block transaction or outside of one, such a computation takes outcomes of calls
    and changes nothing else; what it returns holds of the tables it reads. *)
Definition reads {A} (m : M A) (F : A -> tables -> Prop) : Prop := forall w, exists fs,
  (m w).2 = with_faults fs w
  /\ match (m w).1 with Ret a => F a (live w) | Throw _ => True | Blocked => False end.

Lemma with_faults_same w : w = with_faults (faults w) w.
Proof. by destruct w. Qed.

Lemma reads_ret {A} (a : A) (F : A -> tables -> Prop) : (forall t, F a t) -> reads (mret a) F.
Proof. intros H w. exists (faults w). split; [apply with_faults_same|apply H]. Qed.

Lemma reads_throw {A} e (F : A -> tables -> Prop) : reads (throw e) F.
Proof. intros w. exists (faults w). split; [apply with_faults_same|done]. Qed.

Lemma reads_bind {A B} (m : M A) (k : A -> M B) K F :
  reads m K -> (forall a, reads (k a) (fun b t => K a t -> F b t)) -> reads (m ≫= k) F.
Proof.
  intros Hm Hk w. destruct (Hm w) as (fs & Hw & HF). unfold mbind, M_bind.
  destruct (m w) as [[a|e|] w']; cbn in *; subst w'; [|by exists fs|done].
  destruct (Hk a (with_faults fs w)) as (gs & Hw & HG). exists gs. split; [exact Hw|].
  destruct (k a (with_faults fs w)) as [[b|e|] w']; cbn in *; auto.
Qed.

Lemma reads_try {A} (m : M A) h F : reads m F -> (forall e, reads (h e) F) -> reads (try_catch m h) F.
Proof.
  intros Hm Hh w. destruct (Hm w) as (fs & Hw & HF). unfold try_catch.
  destruct (m w) as [[a|e|] w']; cbn in *; subst w'; [by exists fs| |done].
  destruct (Hh e (with_faults fs w)) as (gs & Hw & HG). by exists gs.
Qed.

Lemma reads_select {A} (f : tables -> A) : reads (select f) (fun a t => a = f t).
Proof.
  intros w. unfold select, query, query_with.
  destruct (faults w) as [|[g|] fs] eqn:E; cbn.
  - exists []. rewrite <- E. split; [apply with_faults_same|done].
  - exists fs. by destruct (fault_lands g).
  - by exists fs.
Qed.

Lemma reads_call : reads (query (fun w => inr (tt, w))) (fun _ _ => True).
Proof.
  intros w. destruct (reads_select (fun _ => tt) w) as (fs & Hw & _). exists fs. split; [exact Hw|].
  unfold query, query_with. by destruct (faults w) as [|[g|] gs].
Qed.

Lemma reads_getConnection : reads getConnection (fun _ _ => True).
Proof.
  intros w. unfold getConnection, mbind, M_bind, state.
  destruct (transactionConnection w); [by apply (reads_ret tt (fun _ _ => True))|].
  revert w. change (reads (connect MAX_CONNECTION_ATTEMPTS) (fun _ _ => True)).
  induction MAX_CONNECTION_ATTEMPTS as [|n IH]; cbn [connect]; [apply reads_throw|].
  apply reads_try; [apply reads_call|done].
Qed.

Lemma reads_ping : reads ping (fun b _ => b = true).
Proof.
  unfold ping. repeat (eapply reads_bind; [apply reads_call|intros []]). by apply reads_ret.
Qed.

Lemma reads_readReorgHaltState :
  reads readReorgHaltState (fun h t => h = state_of_events (events t)).
Proof.
  unfold readReorgHaltState. eapply reads_bind; [apply reads_getConnection|intros []].
  intros w. destruct (reads_select (fun t => state_of_events (events t)) w) as (fs & ? & ?).
  exists fs. split; [done|]. by case_match.
Qed.

(** ** The two steps of a surface *)

(** The state after calls that took outcomes and changed nothing else. *)
Definition after_calls (fs : list (option fault)) (s : lstate) : lstate :=
  s <| reorg_of ::= fun r => with_world (with_faults fs (world_of r)) r |>.

Lemma lift_reads {A} (m : M A) F s :
  reads m F -> exists fs,
    (exists a, ldb m s = (RRet a, after_calls fs s) /\ F a (live (world_of (reorg_of s))))
    \/ exists e, ldb m s = (RThrow e, after_calls fs s).
Proof.
  intros Hm. destruct (Hm (world_of (reorg_of s))) as (fs & Hw & HF). exists fs.
  unfold ldb, lift, db. destruct (m (world_of (reorg_of s))) as [[a|e|] w]; cbn in *; [left|right|done].
  - exists a. split; [by rewrite Hw|done].
  - eexists. by rewrite Hw.
Qed.

Lemma probe_db_returns hasDb s : exists fs b,
  probe_db hasDb s = (RRet b, after_calls fs s) /\ (b = true -> hasDb = true).
Proof.
  unfold probe_db. destruct hasDb.
  - unfold ltry. destruct (lift_reads ping _ s reads_ping) as (fs & [(b & -> & _)|(e & ->)]); exists fs.
    + by exists b.
    + by exists false.
  - exists (faults (world_of (reorg_of s))), false. split; [|done]. unfold mret, L_ret, after_calls.
    destruct s as [[w ? ? ? ? ? ? ? ? ? ? ? ?] ? ? ? ?]. by destruct w.
Qed.

Definition db_live_halt (s : lstate) : Prop := live_halt (live (world_of (reorg_of s))).

(** What a surface's reading of the halt leaves: what it reports, what it does not touch, and
    when it may take a halt back. *)
Record halt_read (dbOk : bool) (now : Z) (s : lstate) (h : halt_status) (s' : lstate) : Prop := {
  hr_halted : st_halted h = reorgHalted (reorg_of s');
  hr_parked : st_parked h = parked s;
  hr_checked : st_checked_at h = nonzero (reorgHaltCheckedAt (reorg_of s'));
  hr_progress : progress_of s' = progress_of s;
  hr_batch : batch_of s' = batch_of s;
  hr_tables : live (world_of (reorg_of s')) = live (world_of (reorg_of s));
  hr_cleared : reorgHalted (reorg_of s) = true -> reorgHalted (reorg_of s') = false ->
    dbOk = true /\ reorgHaltMarkerPersisted (reorg_of s) <> Some false /\ ~ db_live_halt s;
  (* no read, a failed read that changes nothing known, or a read of the tables *)
  hr_how :
    s' = s
    \/ (reorgHaltProbeFailed (park_of s') = Some true /\ reorgHalted (reorg_of s') = reorgHalted (reorg_of s)
        /\ reorgHaltCheckedAt (reorg_of s') = reorgHaltCheckedAt (reorg_of s))
    \/ (dbOk = true /\ reorgHaltProbeFailed (park_of s') = Some false
        /\ reorgHaltCheckedAt (reorg_of s') = now
        /\ (reorgHalted (reorg_of s') = false -> ~ db_live_halt s))
}.

Lemma halt_read_same dbOk now s : halt_read dbOk now s (getReorgHaltStatus s) s.
Proof. split; try done; [congruence|by left]. Qed.

Lemma probe_reads now s : exists h s', probe now s = (RRet h, s') /\ halt_read true now s h s'.
Proof.
  unfold probe, ltry, mbind, L_bind.
  destruct (lift_reads readReorgHaltState _ s reads_readReorgHaltState) as (fs & [(m & E & Hm)|(e & E)]);
    rewrite E; clear E; cbn.
  - match goal with |- context [if ?b then _ else _] => destruct b eqn:Ek end; cbn.
    + do 2 eexists. split; [reflexivity|].
      apply andb_prop in Ek as [[Hh Hmp]%andb_prop Hm']. apply negb_true_iff in Hm'. cbn in Hh, Hmp.
      split; cbn; try done; [congruence|]. right; right. split_and!; try done. congruence.
    + do 2 eexists. split; [reflexivity|]. subst m.
      split; cbn; try done.
      * intros Hh Hf. split_and!; [done| |].
        -- intros Hmp. unfold unrecorded_halt in Ek. cbn in Ek. by rewrite Hh, Hmp, Hf in Ek.
        -- unfold db_live_halt, live_halt. congruence.
      * right; right. split_and!; try done. unfold db_live_halt, live_halt. congruence.
  - do 2 eexists. split; [reflexivity|]. split; cbn; try done; [congruence|]. right; left. by split_and!.
Qed.

Lemma halt_probe_returns dbOk now s : exists h s',
  readReorgHaltForProbe dbOk now s = (RRet h, s') /\ halt_read dbOk now s h s'.
Proof.
  unfold readReorgHaltForProbe. destruct dbOk.
  - unfold checkReorgHalt, mbind, L_bind, lgets. case_match.
    + do 2 eexists. split; [reflexivity|apply halt_read_same].
    + apply probe_reads.
  - do 2 eexists. split; [reflexivity|apply halt_read_same].
Qed.

Section Surfaces.
Context (STALL_ALERT_MS STALL_FETCH_ATTEMPTS POLL_SILENT_MS : Z).
Context (meanwhile : nat -> lstate -> lstate) (clock : nat -> Z).
Context (conn : connector) (startedAt : Z).

Abbreviation live_state_of := (getLiveProbeState STALL_ALERT_MS STALL_FETCH_ATTEMPTS POLL_SILENT_MS meanwhile clock).
Abbreviation live_route := (registerLiveRoute STALL_ALERT_MS STALL_FETCH_ATTEMPTS POLL_SILENT_MS meanwhile clock conn startedAt).
Abbreviation ready_route := (registerReadyRoute STALL_ALERT_MS STALL_FETCH_ATTEMPTS POLL_SILENT_MS meanwhile clock conn startedAt).
Abbreviation status_route := (registerStatusRoute meanwhile clock conn startedAt).
Abbreviation health_method := (health meanwhile clock conn startedAt).

(** Every request gets an answer: what it pinged, read, and judged by. *)
Lemma live_state_returns running hasDb s : exists fs db h s2,
  let s1 := meanwhile 0 (after_calls fs s) in
  let s' := meanwhile 1 s2 in
  let stalled := isStalled STALL_ALERT_MS STALL_FETCH_ATTEMPTS (clock 0) s1 in
  let silent := isPollSilent POLL_SILENT_MS (clock 1) s1 in
  probe_db hasDb s = (RRet db, after_calls fs s) /\ (db = true -> hasDb = true)
  /\ readReorgHaltForProbe db (clock 2) s1 = (RRet h, s2)
  /\ halt_read db (clock 2) s1 h s2
  /\ live_state_of running hasDb s
     = (RRet (LiveState running db stalled silent h (getSyncStatus (clock 3) s')
                (running && db && negb stalled && negb silent)), s').
Proof.
  destruct (probe_db_returns hasDb s) as (fs & db & E & Hdb).
  destruct (halt_probe_returns db (clock 2) (meanwhile 0 (after_calls fs s))) as (h & s2 & E2 & Hh).
  exists fs, db, h, s2. cbv zeta. split_and!; [done|done|done|done|].
  unfold getLiveProbeState, mbind, L_bind. rewrite E. cbn. by rewrite E2.
Qed.

Lemma no_reasons st :
  decoderNotReadyReasons st = [] <->
  decoderRunning st = true /\ dbOk st = true /\ stalled st = false /\ pollSilent st = false
  /\ st_halted (reorgHalt st) = false /\ st_parked (reorgHalt st) = false
  /\ is_Some (st_checked_at (reorgHalt st)) /\ tip_stale (syncStatus st) = false.
Proof.
  destruct st as [r d p q [h ? k ? ? ? c ?] y e]. unfold decoderNotReadyReasons. cbn -[tip_stale].
  destruct r, d, p, q, h, k, c, (tip_stale y); cbn; split; try done; try (by intros (? & ? & ? & ? & ? & ? & ? & ?));
    try (by intros (? & ? & ? & ? & ? & ? & [? ?] & ?)).
Qed.

(** Reasons with the condition of each, in order. *)
Lemma listed_cons b r (l : list (bool * string)) :
  map snd (List.filter fst ((b, r) :: l)) = when b r ++ map snd (List.filter fst l).
Proof. by destruct b. Qed.

(** C27: Every GET /live and GET /ready is answered, whatever fails and whatever the parse
    loop does meanwhile.  /live answers 200 exactly when the decoder runs, its database
    answered the ping, and the loop is neither stalled nor silent: no halt makes it 503.
    /ready answers 200 exactly when besides this no halt is reported, the loop is not parked,
    the marker of a halt was looked for at least once, and the node's tip is not known to be
    frozen; and the bodies of both name the reasons that hold, every one of them and no
    other, in that order. *)
Theorem health_verdicts_exact running hasDb s : exists fs db h s2 live ready_,
  let s1 := meanwhile 0 (after_calls fs s) in
  let s' := meanwhile 1 s2 in
  let alive := running && db
    && negb (isStalled STALL_ALERT_MS STALL_FETCH_ATTEMPTS (clock 0) s1)
    && negb (isPollSilent POLL_SILENT_MS (clock 1) s1) in
  probe_db hasDb s = (RRet db, after_calls fs s)
  /\ readReorgHaltForProbe db (clock 2) s1 = (RRet h, s2)
  /\ live_route running hasDb s = (RRet live, s') /\ ready_route running hasDb s = (RRet ready_, s')
  /\ body live = body ready_
  /\ code live = (if alive then 200 else 503)
  /\ (code ready_ = 200 <->
      alive = true /\ reorgHalted (reorg_of s2) = false /\ parked s1 = false
      /\ reorgHaltCheckedAt (reorg_of s2) <> 0
      /\ (cursor s' = -1 \/ isNodeHeightStale (clock 3) (progress_of s') = false))
  /\ (code ready_ = 200 <-> not_ready_reasons (body ready_) = [])
  /\ not_ready_reasons (body ready_) = map snd (List.filter fst
       [(negb running, "not_running"%string); (negb db, "db_unreachable"%string);
        (isStalled STALL_ALERT_MS STALL_FETCH_ATTEMPTS (clock 0) s1, "stalled"%string);
        (isPollSilent POLL_SILENT_MS (clock 1) s1, "poll_silent"%string);
        (reorgHalted (reorg_of s2), "reorg_halt"%string); (parked s1, "reorg_halt_parked"%string);
        (reorgHaltCheckedAt (reorg_of s2) =? 0, "reorg_halt_unchecked"%string);
        (negb (cursor s' =? -1) && isNodeHeightStale (clock 3) (progress_of s'), "node_height_stale"%string)]).
Proof.
  destruct (live_state_returns running hasDb s) as (fs & db & h & s2 & E & _ & E2 & Hh & E3).
  unfold registerLiveRoute, registerReadyRoute, mbind, L_bind. rewrite E3. cbv zeta. cbn -[decoderNotReadyReasons List.filter].
  do 6 eexists. split_and!; [exact E|exact E2|reflexivity|reflexivity|reflexivity|reflexivity| | |].
  - cbn -[decoderNotReadyReasons]. unfold status_code. case_bool_decide as Hr; cbn [code].
    + split; [intros _|done]. apply no_reasons in Hr. cbn in Hr. destruct Hr as (Hr1 & Hr2 & Hr3 & Hr4 & Hr5 & Hr6 & [x Hr7] & Hr8).
      rewrite Hr1, Hr2, Hr3, Hr4. rewrite (hr_halted _ _ _ _ _ Hh) in Hr5. rewrite (hr_parked _ _ _ _ _ Hh) in Hr6.
      rewrite (hr_checked _ _ _ _ _ Hh) in Hr7. unfold nonzero in Hr7. split_and!; try done.
      * intros H0. by rewrite H0 in Hr7.
      * unfold tip_stale, getSyncStatus in Hr8. destruct (Z.eqb_spec (cursor (meanwhile 1 s2)) (-1)); auto.
    + split; [done|]. intros (Ha & Hr5 & Hr6 & Hr7 & Hr8). destruct Hr. apply no_reasons. cbn.
      apply andb_prop in Ha as [[[Ha1 Ha2]%andb_prop Ha3]%andb_prop Ha4]. apply negb_true_iff in Ha3, Ha4.
      rewrite (hr_halted _ _ _ _ _ Hh), (hr_parked _ _ _ _ _ Hh), (hr_checked _ _ _ _ _ Hh). split_and!; try done.
      * unfold nonzero. destruct (Z.eqb_spec (reorgHaltCheckedAt (reorg_of s2)) 0); [done|by eexists].
      * unfold tip_stale, getSyncStatus. destruct (Z.eqb_spec (cursor (meanwhile 1 s2)) (-1)); [done|]. by destruct Hr8.
  - cbn -[decoderNotReadyReasons]. unfold status_code. by case_bool_decide.
  - rewrite !listed_cons, app_nil_r. cbn -[decoderNotReadyReasons tip_stale when].
    unfold decoderNotReadyReasons. cbn [decoderRunning dbOk stalled pollSilent reorgHalt syncStatus].
    rewrite (hr_halted _ _ _ _ _ Hh), (hr_parked _ _ _ _ _ Hh), (hr_checked _ _ _ _ _ Hh).
    do 6 f_equal; f_equal; [|f_equal].
    + unfold nonzero. by destruct (reorgHaltCheckedAt (reorg_of s2) =? 0).
    + unfold tip_stale, getSyncStatus. by destruct (cursor (meanwhile 1 s2) =? -1).
Qed.

Lemma fields_halted h now s : reorg_halted (halt_fields_of conn startedAt h now s) = st_halted h.
Proof. unfold halt_fields_of. by destruct (nodeReachabilityFields conn startedAt now). Qed.

(** A halt that is known stays reported when nothing read it as cleared. *)
Lemma halt_read_keeps dbOk now s h s' :
  halt_read dbOk now s h s' -> reorgHalted (reorg_of s) = true ->
  (dbOk = false \/ reorgHaltMarkerPersisted (reorg_of s) = Some false \/ db_live_halt s) ->
  st_halted h = true.
Proof.
  intros Hh Hs Hwhy. rewrite (hr_halted _ _ _ _ _ Hh).
  destruct (reorgHalted (reorg_of s')) eqn:E; [done|].
  destruct (hr_cleared _ _ _ _ _ Hh Hs E) as (-> & Hp & Hl). by destruct Hwhy as [?|[?|?]].
Qed.

(** C26: A halt the decoder knows of is reported by every surface as long as it stands: where
    the database does not answer the ping, where the marker cannot be read, where this
    process could not record the halt, and where the newest marker is a live halt.  /live,
    /ready, /status and the health method all answer and say reorg_halted, whatever the calls
    to the database do and whatever the parse loop does meanwhile; and /ready answers 503. *)
Theorem known_halt_stays_reported running hasDb error s fs db :
  probe_db hasDb s = (RRet db, after_calls fs s) ->
  let s1 := meanwhile 0 (after_calls fs s) in
  reorgHalted (reorg_of s1) = true ->
  db = false \/ reorgHaltMarkerPersisted (reorg_of s1) = Some false \/ db_live_halt s1 ->
  (exists r s', live_route running hasDb s = (RRet r, s') /\ reorg_halted (lb_halt (body r)) = true)
  /\ (exists r s', ready_route running hasDb s = (RRet r, s')
       /\ code r = 503 /\ reorg_halted (lb_halt (body r)) = true)
  /\ (exists r s', status_route running hasDb s = (RRet r, s') /\ reorg_halted (sb_halt (body r)) = true)
  /\ (exists r s', health_method running hasDb error s = (RRet r, s') /\ reorg_halted (hb_halt r) = true).
Proof.
  cbv zeta. intros E0 Hs Hwhy. set (s1 := meanwhile 0 (after_calls fs s)) in *.
  assert (forall h s2 k, halt_read db k s1 h s2 -> st_halted h = true) as Hkeep.
  { intros h s2 k Hh. by eapply halt_read_keeps. }
  destruct (live_state_returns running hasDb s) as (fs' & db' & h & s2 & E & _ & E2 & Hh & E3).
  rewrite E0 in E. injection E as <- Efs. rewrite <- Efs in *. fold s1 in E2, Hh, E3.
  specialize (Hkeep h s2 _ Hh) as Hk.
  split_and!.
  - unfold registerLiveRoute, mbind, L_bind. rewrite E3. cbn -[decoderNotReadyReasons].
    do 2 eexists. split; [reflexivity|]. cbn -[decoderNotReadyReasons]. by rewrite fields_halted.
  - unfold registerReadyRoute, mbind, L_bind. rewrite E3. cbn -[decoderNotReadyReasons].
    do 2 eexists. split_and!; [reflexivity| |cbn -[decoderNotReadyReasons]; by rewrite fields_halted].
    cbn -[decoderNotReadyReasons]. case_bool_decide as Hr; [|done]. apply no_reasons in Hr. cbn in Hr. destruct Hr as (_ & _ & _ & _ & Hr & _). congruence.
  - unfold registerStatusRoute, mbind, L_bind. rewrite E0. cbn.
    destruct (halt_probe_returns db (clock 0) s1) as (h' & s2' & E2' & Hh'). fold s1. rewrite E2'. cbn.
    do 2 eexists. split; [reflexivity|]. cbn. rewrite fields_halted. by apply (Hkeep h' s2' (clock 0)).
  - unfold health, getHealthProbeState, mbind, L_bind. cbn. rewrite E0. cbn.
    destruct (halt_probe_returns db (clock 1) s1) as (h' & s2' & E2' & Hh'). fold s1. rewrite E2'. cbn.
    do 2 eexists. split; [reflexivity|]. cbn. rewrite fields_halted. by apply (Hkeep h' s2' (clock 1)).
Qed.
(** ** Ready before the node has answered *)

Lemma probe_db_calm s :
  faults (world_of (reorg_of s)) = [] -> probe_db true s = (RRet true, after_calls [] s).
Proof.
  intros Hf. unfold probe_db, ltry, ldb, lift, db, ping, query, query_with, mbind, M_bind, mret, M_ret.
  rewrite Hf, Hf. unfold after_calls.
  assert (with_faults [] (world_of (reorg_of s)) = world_of (reorg_of s)) as E.
  { rewrite <- Hf. symmetry. apply with_faults_same. }
  unfold set_field. cbn. by rewrite E.
Qed.

(** A decoder whose node has not answered since it booted is ready: with the loop
    polling, the database answering and no halt, GET /ready answers 200, however long it has
    run, although no tip was ever fetched; the lag it publishes is the negative
    difference to the height -1. *)
Lemma ready_without_a_node s :
  (forall n x, meanwhile n x = x) -> faults (world_of (reorg_of s)) = [] ->
  blockchainInfoLastRefreshAt (progress_of s) = 0 -> nodeTip s = -1 -> 0 <= cursor s ->
  isPollSilent POLL_SILENT_MS (clock 1) s = false ->
  parked s = false -> reorgHalted (reorg_of s) = false -> 0 < reorgHaltCheckedAt (reorg_of s) ->
  clock 2 - reorgHaltCheckedAt (reorg_of s) < REORG_HALT_PROBE_INTERVAL_MS ->
  exists r s', ready_route true true s = (RRet r, s') /\ code r = 200
    /\ lb_heights (body r) = (Some (cursor s), Some (-1), Some (- 1 - cursor s)).
Proof.
  intros Hq Hf Hz Hn Hc Hsil Hp Hh H0 Hck.
  unfold registerReadyRoute, getLiveProbeState, readReorgHaltForProbe, checkReorgHalt, mbind, L_bind.
  rewrite (probe_db_calm s Hf). cbn -[decoderNotReadyReasons isStalled isPollSilent getSyncStatus probe]. rewrite !Hq.
  set (s1 := after_calls [] s).
  assert (isStalled STALL_ALERT_MS STALL_FETCH_ATTEMPTS (clock 0) s1 = false) as Hst.
  { unfold isStalled. cbn. rewrite Hp, Hn. cbn. by repeat case_match. }
  assert (isPollSilent POLL_SILENT_MS (clock 1) s1 = false) as Hsil' by exact Hsil.
  change (reorgHaltCheckedAt (reorg_of s1)) with (reorgHaltCheckedAt (reorg_of s)) in *.
  rewrite (proj2 (Z.ltb_lt _ _) H0), (proj2 (Z.ltb_lt _ _) Hck).
  cbn -[decoderNotReadyReasons isStalled isPollSilent getSyncStatus]. rewrite !Hq.
  assert (getSyncStatus (clock 3) s1
    = Some (SyncStatus (cursor s) (-1) (-1 - cursor s) (reorgCount (reorg_of s)) (lastReorgDepth (reorg_of s)) false)) as Hss.
  { unfold getSyncStatus. cbn. rewrite Hn. destruct (Z.eqb_spec (cursor s) (-1)); [lia|].
    unfold isNodeHeightStale. by rewrite Hz. }
  rewrite Hss, Hst, Hsil'. do 2 eexists. split_and!; [reflexivity| |by cbn].
  cbn -[decoderNotReadyReasons]. rewrite bool_decide_eq_true_2; [done|]. apply no_reasons. cbn.
  unfold nonzero. destruct (Z.eqb_spec (reorgHaltCheckedAt (reorg_of s)) 0); [lia|]. by split_and!; try by eexists.
Qed.
End Surfaces.

(** ** The failure log *)

(** The failures of a run, with their times, and the lines written: key, time, and the
    failures left out before it. *)
Fixpoint note_all (l : list (jstr * Z)) (seen : gmap jstr probe_log)
  : list (jstr * Z * Z) * gmap jstr probe_log :=
  match l with
  | [] => ([], seen)
  | (key, now) :: l' =>
      let '(line, seen) := noteProbeFailure key now seen in
      let '(lines, seen) := note_all l' seen in
      (match line with Some n => (key, now, n) :: lines | None => lines end, seen)
  end.

Definition failures_of (key : jstr) (l : list (jstr * Z)) : Z :=
  Z.of_nat (length (List.filter (fun x => eqs key x.1) l)).

Definition lines_of (key : jstr) (lines : list (jstr * Z * Z)) : list (jstr * Z * Z) :=
  List.filter (fun x => eqs key x.1.1) lines.

Definition told (lines : list (jstr * Z * Z)) : Z := foldr (fun x n => 1 + x.2 + n) 0 lines.

Lemma told_cons x l : told (x :: l) = 1 + x.2 + told l.
Proof. done. Qed.

Definition untold (key : jstr) (seen : gmap jstr probe_log) : Z :=
  match seen !! key with Some e => suppressed e | None => 0 end.

Lemma note_counts key now seen k :
  let '(line, seen') := noteProbeFailure key now seen in
  match line with Some n => if eqs k key then 1 + n else 0 | None => 0 end + untold k seen'
  = (if eqs k key then 1 else 0) + untold k seen.
Proof.
  unfold noteProbeFailure, untold. destruct (eqs k key) eqn:E.
  - apply eqs_true in E as ->. destruct (seen !! key) as [e|]; [destruct (_ <? _)|];
      rewrite lookup_insert_eq; cbn; lia.
  - apply eqs_false in E. destruct (seen !! key) as [e|]; [destruct (_ <? _)|];
      rewrite lookup_insert_ne by congruence; lia.
Qed.

(** No failure is lost: for every key, the lines written and the failures they say they left
    out, with those not told yet, are all that happened. *)
Lemma probe_log_accounts l seen key :
  let '(lines, seen') := note_all l seen in
  told (lines_of key lines) + untold key seen' = failures_of key l + untold key seen.
Proof.
  revert seen. induction l as [|[k now] l IH]; intros seen; [done|]. cbn [note_all].
  pose proof (note_counts k now seen key) as Hn. destruct (noteProbeFailure k now seen) as [line seen1].
  specialize (IH seen1). destruct (note_all l seen1) as [lines seen2].
  unfold failures_of, lines_of in *. cbn [List.filter fst].
  destruct line as [n|]; cbn [List.filter fst]; destruct (eqs key k);
    rewrite ?told_cons; cbn [snd length]; lia.
Qed.

(** And a key writes no two lines within the window. *)
Lemma probe_log_window l seen key :
  let '(lines, seen') := note_all l seen in
  forall x, head (lines_of key lines) = Some x ->
  match seen !! key with Some e => lastLoggedAt e + PROBE_LOG_WINDOW_MS <= x.1.2 | None => True end.
Proof.
  revert seen. induction l as [|[k now] l IH]; intros seen; [done|]. cbn [note_all].
  destruct (noteProbeFailure k now seen) as [line seen1] eqn:E.
  specialize (IH seen1). destruct (note_all l seen1) as [lines seen2]. intros x Hx.
  unfold noteProbeFailure in E. unfold lines_of in *. destruct (eqs key k) eqn:Ek.
  - apply eqs_true in Ek as <-. destruct (seen !! key) as [e|] eqn:Es; [|done].
    destruct (Z.ltb_spec (now - lastLoggedAt e) PROBE_LOG_WINDOW_MS); injection E as <- <-.
    + specialize (IH x Hx). by rewrite lookup_insert_eq in IH.
    + cbn in Hx. rewrite eqs_refl in Hx. injection Hx as <-. cbn. lia.
  - apply eqs_false in Ek as Hne. assert (head (List.filter (fun x => eqs key x.1.1) lines) = Some x) as Hx'.
    { destruct line; cbn in Hx; rewrite ?Ek in Hx; exact Hx. }
    specialize (IH x Hx'). replace (seen !! key) with (seen1 !! key); [exact IH|].
    destruct (seen !! k) as [e|]; [destruct (_ <? _)|]; injection E as <- <-; by rewrite lookup_insert_ne by congruence.
Qed.

(** ** Runs *)

Definition sample_lstate (fs : list (option fault)) : lstate :=
  LState (RState (idle_world initial_tables fs) 0 None 0 false None None 1700000000000 0 0 [] None None)
    (Batch (LoopState 0 0 ∅ ∅ ∅ ∅) 0 850000 0 0 0) initialLoopLatches fresh_park
    (fresh_progress <| lastAdvanceAt := 1700000000000 |> <| lastPollAt := 1700000030000 |>).

Definition sample_clock (n : nat) : Z := 1700000031000 + Z.of_nat n.

Definition sample_connector : connector := Connector 1 3 0 0 0 0 1700000030500 0.

(** The marker is due, and its read fails after a ping that succeeds. *)
Definition halted_lstate : lstate :=
  (sample_lstate [None; None; Some (Fault (plain_error (js "gone away")) false)])
    <| reorg_of ::= fun r => r <| reorgHalted := true |> <| reorgHaltCheckedAt := 1 |>
                              <| reorgHaltMarkerPersisted := Some false |> |>.

Lemma known_halt_stays_reported_witness :
  exists r s',
    registerReadyRoute 900000 20 1800000 (fun _ x => x) sample_clock sample_connector 0 true true halted_lstate
      = (RRet r, s')
    /\ code r = 503 /\ reorg_halted (lb_halt (body r)) = true.
Proof.
  refine (proj1 (proj2 (known_halt_stays_reported 900000 20 1800000 (fun _ x => x) sample_clock sample_connector 0
    true true None halted_lstate [Some (Fault (plain_error (js "gone away")) false)] true _ _ _))).
  - vm_compute. reflexivity.
  - vm_compute. reflexivity.
  - right; left. vm_compute. reflexivity.
Defined.

Lemma ready_without_a_node_witness :
  exists r s',
    registerReadyRoute 900000 20 1800000 (fun _ x => x) sample_clock sample_connector 0 true true (sample_lstate [])
      = (RRet r, s')
    /\ code r = 200 /\ lb_heights (body r) = (Some 850000, Some (-1), Some (-850001)).
Proof.
  refine (ready_without_a_node 900000 20 1800000 (fun _ x => x) sample_clock sample_connector 0
    (sample_lstate []) _ _ _ _ _ _ _ _ _ _); try reflexivity; vm_compute; try done; discriminate.
Defined.
