(* ===== verification/LogShipper.v ===== *)
(** * The log shipper

    The queue of src/src/observability/logShipper.js: [_enqueue], [flush], the end of a
    batch, [stop] and the rate limit of the error note, as a machine over the records logged
    and the outcomes of the transport.

    A record is opaque here ([LogText] holds its fields and its text).  The transport is
    started when a batch is taken and settles later; its promise chain, from the outcome to
    the flag that a batch is in flight, runs as one event.  The configured sizes are positive,
    as [toInt] makes them.

    Whatever the collector does, the queue stays within its bound, no record is delivered
    twice or out of order, and the counters account for every record. *)
From S2P Require Import Prelude JsNum.
#[local] Open Scope Z_scope.
#[local] Open Scope update_scope.

(** ** The configuration *)

(** [Number.isFinite(n) && n > 0 ? n : fallback] of [parseInt(v, 10)]. *)
Definition toInt (v : option jstr) (fallback : Z) : num :=
  let n := match v with Some s => parse_int_str s | None => NaN end in
  if isFinite n && num_lt (numZ 0) n then n else numZ fallback.

(** [/^(1|true|yes|on)$/i] *)
Definition toBool (v : option jstr) (fallback : bool) : bool :=
  match v with
  | None | Some [] => fallback
  | Some s => existsb (eqs (lower s)) [js "1"; js "true"; js "yes"; js "on"]
  end.

Record ship_config := ShipConfig { shipEnabled : bool; batchSize : nat; maxBuffer : nat }.

(** A size as a count of records. *)
Definition size_of (n : num) : nat := match integer_of n with Some z => Z.to_nat z | None => 0 end.

(** [readLogEnv]; [urlOk]: LOG_SHIP_URL parses as an http or https URL. *)
Definition readLogEnv (enabled batch buffer : option jstr) (urlOk : bool) : ship_config :=
  ShipConfig (toBool enabled false && urlOk) (size_of (toInt batch 100)) (size_of (toInt buffer 5000)).

(** ** The queue *)

Section Shipper.
Context {A : Type}.

Record shipper := Shipper {
  buffer : list A;
  in_flight : option (list A);              (* the batch being sent *)
  lastErrorNoteMs : Z;
  emitted : Z;
  shipped : Z;
  dropped : Z;
  failures : Z
}.

#[export] Instance eta_shipper : Eta shipper := fun s => Shipper (buffer s) (in_flight s)
  (lastErrorNoteMs s) (emitted s) (shipped s) (dropped s) (failures s).

Definition new_shipper : shipper := Shipper [] None 0 0 0 0 0.

Context (config : ship_config).

(** Nothing while a batch is in flight, or where there is nothing to send. *)
Definition flush (s : shipper) : shipper :=
  match in_flight s with
  | Some _ => s
  | None =>
      if (length (buffer s) =? 0)%nat || negb (shipEnabled config) then s
      else s <| in_flight := Some (take (batchSize config) (buffer s)) |>
             <| buffer := drop (batchSize config) (buffer s) |>
  end.

(** The oldest record makes room. *)
Definition make_room (s : shipper) : shipper :=
  if (maxBuffer config <=? length (buffer s))%nat
  then s <| buffer ::= tail |> <| dropped ::= Z.add 1 |> else s.

Definition push (record : A) (s : shipper) : shipper := s <| buffer ::= fun b => b ++ [record] |>.

Definition flush_full (s : shipper) : shipper :=
  if (batchSize config <=? length (buffer s))%nat then flush s else s.

Definition _enqueue (record : A) (s : shipper) : shipper := flush_full (push record (make_room s)).

Definition count_line (s : shipper) : shipper := s <| emitted ::= Z.add 1 |>.

(** The part of [log] that is not text: the level is enabled. *)
Definition log (record : A) (s : shipper) : shipper :=
  let s := count_line s in
  if shipEnabled config then _enqueue record s else s.

(** At most one line a minute; [true]: it is written. *)
Definition _noteError (now : Z) (s : shipper) : bool * shipper :=
  if now - lastErrorNoteMs s <? 60000 then (false, s) else (true, s <| lastErrorNoteMs := now |>).

(** The transport resolved, or rejected: then the batch goes back to the front, its oldest
    records dropped where there is no room. *)
Definition batch_settled (ok : bool) (now : Z) (s : shipper) : shipper :=
  match in_flight s with
  | None => s
  | Some batch =>
      let s :=
        if ok then s <| shipped ::= Z.add (Z.of_nat (length batch)) |>
        else
          let s := s <| failures ::= Z.add 1 |> in
          let room := (maxBuffer config - length (buffer s))%nat in
          let keep := drop (length batch - room) batch in
          let s := s <| dropped ::= Z.add (Z.of_nat (length batch - length keep)) |> in
          let s := s <| buffer ::= fun b => keep ++ b |> in
          snd (_noteError now s) in
      s <| in_flight := None |>
  end.

(** [stop] flushes; what it awaits is the batch in flight. *)
Inductive ship_event :=
  | Logged (record : A)
  | Flushed                                 (* the interval, or [stop] *)
  | Settled (ok : bool) (now : Z).

Definition ship_step (s : shipper) (e : ship_event) : shipper :=
  match e with
  | Logged r => log r s
  | Flushed => flush s
  | Settled ok now => batch_settled ok now s
  end.

(** *** What arrives *)

(** The records the collector acknowledged, in order. *)
Fixpoint delivered (s : shipper) (es : list ship_event) : list A :=
  match es with
  | [] => []
  | e :: es =>
      match e, in_flight s with
      | Settled true _, Some batch => batch
      | _, _ => []
      end ++ delivered (ship_step s e) es
  end.

Definition logged (es : list ship_event) : list A :=
  omap (fun e => match e with Logged r => Some r | _ => None end) es.
End Shipper.
Arguments shipper : clear implicits.
Arguments ship_event : clear implicits.

Section Facts.
Context {A : Type} (config : ship_config).
Hypothesis enabled : shipEnabled config = true.
Hypothesis some_batch : (0 < batchSize config)%nat.
Hypothesis some_room : (0 < maxBuffer config)%nat.

(** Everything the shipper still holds, oldest first. *)
Definition held (s : shipper A) : list A := default [] (in_flight s) ++ buffer s.

Definition counted (s : shipper A) : Z := shipped s + dropped s + Z.of_nat (length (held s)).

Lemma flush_held s : held (flush config s) = held s.
Proof.
  unfold flush, held. destruct (in_flight s) as [b|] eqn:E; [by rewrite E|].
  case_match; cbn; [by rewrite E|]. apply take_drop.
Qed.

Lemma flush_counts (s : shipper A) :
  shipped (flush config s) = shipped s /\ dropped (flush config s) = dropped s
  /\ emitted (flush config s) = emitted s.
Proof. unfold flush. destruct (in_flight s); [done|]. by case_match. Qed.

Definition run (s : shipper A) (es : list (ship_event A)) : shipper A := foldl (ship_step config) s es.

(** ** Order *)

Definition delivered_by (s : shipper A) (e : ship_event A) : list A :=
  match e, in_flight s with Settled true _, Some batch => batch | _, _ => [] end.

Definition logged_by (e : ship_event A) : list A := match e with Logged r => [r] | _ => [] end.

Lemma flush_full_held s : held (flush_full config s) = held s.
Proof. unfold flush_full. case_match; [apply flush_held|done]. Qed.

Lemma push_held r s : held (push r s) = held s ++ [r].
Proof. unfold held, push. cbn. by rewrite app_assoc. Qed.

Lemma make_room_held s : held (make_room config s) `sublist_of` held s.
Proof.
  unfold make_room, held. case_match; [|done]. cbn. apply sublist_app; [done|].
  destruct (buffer s); cbn; [done|by constructor].
Qed.

Lemma enqueue_held r s : held (_enqueue config r s) `sublist_of` held s ++ [r].
Proof.
  unfold _enqueue. rewrite flush_full_held, push_held. apply sublist_app; [apply make_room_held|done].
Qed.

Lemma settled_held ok now s :
  delivered_by s (Settled ok now) ++ held (batch_settled config ok now s) `sublist_of` held s.
Proof.
  unfold batch_settled, held. cbn. destruct (in_flight s) as [b|] eqn:E; [|by destruct ok; cbn; rewrite E].
  destruct ok; cbn; [done|].
  set (k := (length b - (maxBuffer config - length (buffer s)))%nat).
  assert (drop k b ++ buffer s `sublist_of` b ++ buffer s) as H by (apply sublist_app; [apply sublist_drop|done]).
  unfold _noteError. by case_match.
Qed.

Lemma step_order s e :
  delivered_by s e ++ held (ship_step config s e) `sublist_of` held s ++ logged_by e.
Proof.
  destruct e as [r| |ok now]; cbn [ship_step logged_by].
  - unfold log. rewrite enabled. apply (enqueue_held r (count_line s)).
  - cbn. by rewrite flush_held, app_nil_r.
  - rewrite app_nil_r. apply settled_held.
Qed.

Lemma delivered_cons s e es :
  delivered config s (e :: es) = delivered_by s e ++ delivered config (ship_step config s e) es.
Proof. by destruct e as [r| |[] now]. Qed.

Lemma logged_cons e (es : list (ship_event A)) : logged (e :: es) = logged_by e ++ logged es.
Proof. by destruct e. Qed.

Lemma run_order s es : delivered config s es ++ held (run s es) `sublist_of` held s ++ logged es.
Proof.
  revert s. induction es as [|e es IH]; intros s; [cbn; by rewrite app_nil_r|].
  rewrite delivered_cons, logged_cons, <- app_assoc, (app_assoc (held s)).
  etrans; [apply sublist_app; [done|apply IH]|]. rewrite app_assoc. apply sublist_app; [apply step_order|done].
Qed.

(** ** Counting *)

Lemma flush_full_counts (s : shipper A) : counted (flush_full config s) = counted s /\ emitted (flush_full config s) = emitted s.
Proof.
  unfold flush_full. case_match; [|done]. unfold counted. rewrite flush_held.
  by destruct (flush_counts s) as (-> & -> & ->).
Qed.

Lemma make_room_counts (s : shipper A) : counted (make_room config s) = counted s /\ emitted (make_room config s) = emitted s.
Proof.
  unfold make_room, counted, held. case_match eqn:E; [|done]. cbn. apply Nat.leb_le in E.
  rewrite !length_app, length_tl. split; [lia|done].
Qed.

Lemma enqueue_counts r (s : shipper A) :
  counted (_enqueue config r s) = counted s + 1 /\ emitted (_enqueue config r s) = emitted s.
Proof.
  unfold _enqueue. destruct (flush_full_counts (push r (make_room config s))) as [-> ->].
  destruct (make_room_counts s) as [<- <-]. unfold counted. rewrite push_held, length_app. cbn. split; [lia|done].
Qed.

Lemma settled_counts ok now (s : shipper A) :
  counted (batch_settled config ok now s) = counted s /\ emitted (batch_settled config ok now s) = emitted s.
Proof.
  unfold batch_settled, counted, held. destruct (in_flight s) as [b|] eqn:E; [|by rewrite E].
  destruct ok; cbn; [rewrite length_app; split; [lia|done]|].
  unfold _noteError. case_match; cbn; rewrite !length_app, length_drop; (split; [lia|done]).
Qed.

(** Every record logged is shipped, dropped, or still held. *)
Lemma step_counts (s : shipper A) e :
  counted (ship_step config s e) = counted s + Z.of_nat (length (logged_by e))
  /\ emitted (ship_step config s e) = emitted s + Z.of_nat (length (logged_by e)).
Proof.
  destruct e as [r| |ok now]; cbn [ship_step logged_by length].
  - unfold log. rewrite enabled. destruct (enqueue_counts r (count_line s)) as [-> ->].
    change (counted (count_line s)) with (counted s). cbn. lia.
  - unfold counted. rewrite flush_held. destruct (flush_counts s) as (-> & -> & ->). lia.
  - destruct (settled_counts ok now s) as [-> ->]. lia.
Qed.

Lemma run_counts (s : shipper A) es :
  counted (run s es) = counted s + Z.of_nat (length (logged es))
  /\ emitted (run s es) = emitted s + Z.of_nat (length (logged es)).
Proof.
  revert s. induction es as [|e es IH]; intros s; [cbn; lia|].
  rewrite logged_cons, length_app. cbn [run foldl]. destruct (IH (ship_step config s e)) as [H1 H2].
  destruct (step_counts s e) as [H3 H4]. unfold run in *. lia.
Qed.

(** The counter of what was shipped is the number of records delivered. *)
Lemma step_shipped s e :
  shipped (ship_step config s e) = shipped s + Z.of_nat (length (delivered_by s e)).
Proof.
  destruct e as [r| |ok now]; cbn.
  - unfold log. rewrite enabled. unfold _enqueue, flush_full, make_room.
    repeat case_match; cbn; rewrite ?(proj1 (flush_counts _)); cbn; lia.
  - rewrite (proj1 (flush_counts _)). lia.
  - unfold batch_settled. destruct ok, (in_flight s); cbn; try lia. unfold _noteError. case_match; cbn; lia.
Qed.

Lemma run_shipped s es :
  shipped (run s es) = shipped s + Z.of_nat (length (delivered config s es)).
Proof.
  revert s. induction es as [|e es IH]; intros s; [cbn; lia|].
  rewrite delivered_cons, length_app. pose proof (IH (ship_step config s e)). pose proof (step_shipped s e).
  unfold run in *. cbn [foldl]. lia.
Qed.

(** ** Bounds *)

Definition bounded (s : shipper A) : Prop :=
  (length (buffer s) <= maxBuffer config)%nat
  /\ forall b, in_flight s = Some b -> (length b <= batchSize config)%nat.

Lemma flush_bounded s : bounded s -> bounded (flush config s).
Proof.
  unfold flush, bounded. intros [H1 H2]. destruct (in_flight s) eqn:E; [by rewrite E|].
  case_match; cbn; [by rewrite E|]. rewrite length_drop. split; [lia|].
  intros b [= <-]. rewrite length_take. lia.
Qed.

Lemma enqueue_bounded r s : bounded s -> bounded (_enqueue config r s).
Proof.
  intros [H1 H2]. assert (bounded (push r (make_room config s))) as H.
  { unfold push, make_room, bounded. case_match eqn:E; cbn; rewrite length_app, ?length_tl; cbn.
    - split; [lia|done].
    - apply Nat.leb_gt in E. split; [lia|done]. }
  unfold _enqueue, flush_full. case_match; [by apply flush_bounded|done].
Qed.

Lemma settled_bounded ok now s : bounded s -> bounded (batch_settled config ok now s).
Proof.
  unfold batch_settled, bounded. intros [H1 H2]. destruct (in_flight s) as [b|] eqn:E; [|by rewrite E].
  destruct ok; cbn; [done|]. unfold _noteError. case_match; cbn; rewrite length_app, length_drop; (split; [lia|done]).
Qed.

Lemma run_bounded s es : bounded s -> bounded (run s es).
Proof.
  revert s. induction es as [|e es IH]; intros s Hs; [done|]. apply IH. destruct e as [r| |ok now]; cbn.
  - unfold log. rewrite enabled. by apply enqueue_bounded.
  - by apply flush_bounded.
  - by apply settled_bounded.
Qed.

(** C29: Whatever is logged and whatever the collector does, the shipper never holds more
    than its buffer and one batch; what was delivered and what is still held is, in this
    order, a subsequence of what was logged, so no record is delivered twice or out of order;
    and the counters are exact: every record logged was shipped, was counted as dropped, or
    is still held. *)
Theorem shipper_keeps_order es :
  let s := run new_shipper es in
  delivered config new_shipper es ++ held s `sublist_of` logged es
  /\ (length (buffer s) <= maxBuffer config)%nat
  /\ (forall b, in_flight s = Some b -> (length b <= batchSize config)%nat)
  /\ shipped s = Z.of_nat (length (delivered config new_shipper es))
  /\ emitted s = Z.of_nat (length (logged es))
  /\ emitted s = shipped s + dropped s + Z.of_nat (length (held s)).
Proof.
  cbv zeta. pose proof (run_order new_shipper es) as H1.
  destruct (run_counts new_shipper es) as [H2 H3]. pose proof (run_shipped new_shipper es) as H4.
  destruct (run_bounded new_shipper es) as [H5 H6]; [by split; [cbn; lia|]|].
  unfold counted in H2. cbn in H1, H2, H3, H4. split_and!; [exact H1|exact H5|exact H6|lia|lia|lia].
Qed.
End Facts.

(** A collector that is down for the first batch: the batch goes back, and the oldest record
    is dropped for want of room. *)
Definition sample_ship : list (ship_event nat) :=
  [Logged 1; Logged 2; Logged 3; Logged 4; Logged 5; Settled false 100000; Flushed; Settled true 200000]%nat.

Lemma shipper_keeps_order_witness :
  delivered (ShipConfig true 2 4) new_shipper sample_ship = [2; 3]%nat
  /\ buffer (run (ShipConfig true 2 4) new_shipper sample_ship) = [4; 5]%nat
  /\ delivered (ShipConfig true 2 4) new_shipper sample_ship
      ++ held (run (ShipConfig true 2 4) new_shipper sample_ship) `sublist_of` logged sample_ship.
Proof.
  split_and!; [by vm_compute|by vm_compute|].
  exact (proj1 (shipper_keeps_order (ShipConfig true 2 4) eq_refl ltac:(cbn; lia) ltac:(cbn; lia) sample_ship)).
Defined.
