(* ===== verification/LogText.v ===== *)
(** * The text of a log record

    The redaction, the fields and the text line of src/src/observability/logShipper.js.

    A value is a tree without shared parts ([plain], whose numbers are integers, which is how
    the decoder's records print them; a BigInt is one too); an Error, an object met twice, an
    undefined field and a key that is an array index, which would move to the front, do not
    arise.  scrubMessage, which rewrites the message before it becomes part of a
    record, is not modelled.

    A record is one line, its fields read back from the line, and no value under a
    credential's key is in it. *)
From S2P Require Import Prelude JsNum Wire Sha256 Json Regex.
#[local] Open Scope Z_scope.

(** ** Redaction *)

Definition SECRET_KEY_RE : regex := rx_i
  "(pass(word|phrase)?|secret|token|api[_-]?key|apikey|auth|credential|wif|priv(ate)?[_-]?key|mnemonic|seed|cookie|session)".

Definition REDACTED : jstr := js "[redacted]".

(** At depth four the rest of a value is cut; of an array the first fifty items stay. *)
Fixpoint redactFields (depth : nat) (v : plain) : plain :=
  match v with
  | PArr l =>
      match depth with
      | O => PStr (js "[truncated]")
      | S d => PArr (map (redactFields d) (take 50 l))
      end
  | PObj fs =>
      match depth with
      | O => PStr (js "[truncated]")
      | S d => PObj (map (fun kv =>
          (kv.1, if test SECRET_KEY_RE kv.1 then PStr REDACTED else redactFields d kv.2)) fs)
      end
  | _ => v
  end.

Definition MAX_DEPTH : nat := 4.

(** ** The record *)

Definition ENVELOPE_KEYS : list jstr := map js ["ts"; "level"; "service"; "msg"; "version"]%string.

Definition is_envelope (k : jstr) : bool := existsb (eqs k) ENVELOPE_KEYS.

Record log_record := LogRecord {
  ts : jstr; level : jstr; service : jstr; msg : jstr; fields : list (jstr * plain)
}.

(** The caller's fields, without the keys that are the record's own; [None] where they are no
    object. *)
Definition safe_fields (v : plain) : list (jstr * plain) :=
  match redactFields MAX_DEPTH v with
  | PObj fs => List.filter (fun kv => negb (is_envelope kv.1)) fs
  | _ => []
  end.

(** ** The text line *)

(** White space, a quote of either kind, or the equals sign. *)
Definition breaks_token (c : Z) : bool := is_ws c || (c =? QUOTE) || (c =? 39) || (c =? 61).

Definition formatFieldValue (v : plain) : jstr :=
  match v with
  | PNull => js "null"
  | PStr s => if negb (is_empty s) && negb (existsb breaks_token s) then s else quote s
  | PInt z => dec z
  | PBool b => if b then js "true" else js "false"
  | PArr _ | PObj _ => if existsb is_ws (stringify v) then quote (stringify v) else stringify v
  end.

(** [msg.replace(/\r\n|\r|\n/g, '\\n')] *)
Fixpoint one_line (s : jstr) : jstr :=
  match s with
  | [] => []
  | 13 :: 10 :: s' => BACKSLASH :: 110 :: one_line s'
  | c :: s' => if (c =? 13) || (c =? 10) then BACKSLASH :: 110 :: one_line s' else c :: one_line s'
  end.

Definition clean_key (k : jstr) : jstr := map (fun c => if breaks_token c then 95 else c) k.

Definition format_field (kv : jstr * plain) : jstr := clean_key kv.1 ++ 61 :: formatFieldValue kv.2.

(** Each with a space before it. *)
Definition field_tail (fs : list (jstr * plain)) : jstr :=
  flat_map (fun kv => 32 :: format_field kv) (List.filter (fun kv => negb (is_envelope kv.1)) fs).

Definition formatTextLine (r : log_record) : jstr :=
  ts r ++ 32 :: level r ++ js " [" ++ service r ++ js "] " ++ one_line (msg r) ++ field_tail (fields r).

(** ** A reader of the tail

    What the format is written for: the tail is split at the spaces outside of quotes, a pair
    at its first [=], and a quoted value is a JSON string. *)
Inductive scan := Outside | Inside | Escaped.

Definition scan_char (st : scan) (c : Z) : scan :=
  match st with
  | Outside => if c =? QUOTE then Inside else Outside
  | Inside => if c =? QUOTE then Outside else if c =? BACKSLASH then Escaped else Inside
  | Escaped => Inside
  end.

(** The words of the rest of a text whose first word has begun. *)
Fixpoint words (st : scan) (t : jstr) : list jstr :=
  match t with
  | [] => [[]]
  | c :: t' =>
      match st, c =? 32 with
      | Outside, true => [] :: words Outside t'
      | _, _ => match words (scan_char st c) t' with
                | w :: ws => (c :: w) :: ws
                | [] => [[c]]
                end
      end
  end.

Definition unquote (t : jstr) : jstr :=
  match t with
  | c :: t' => if c =? QUOTE then match read_chars t' with Some (s, _) => s | None => t end else t
  | [] => []
  end.

Fixpoint read_pair (w : jstr) : jstr * jstr :=
  match w with
  | [] => ([], [])
  | c :: w' => if c =? 61 then ([], unquote w') else let '(k, v) := read_pair w' in (c :: k, v)
  end.

Definition read_tail (t : jstr) : list (jstr * jstr) :=
  match t with
  | [] => []
  | _ :: t' => map read_pair (words Outside t')
  end.

(** The text a reader gets for a value. *)
Definition value_text (v : plain) : jstr := match v with PStr s => s | _ => stringify v end.

(** ** Redaction *)

Fixpoint hides_secrets (v : plain) : Prop :=
  match v with
  | PArr l => Forall id (map hides_secrets l)
  | PObj fs =>
      Forall id (map (fun kv =>
        if test SECRET_KEY_RE kv.1 then kv.2 = PStr REDACTED else hides_secrets kv.2) fs)
  | _ => True
  end.

(** At every depth of what is logged, a value under a key that names a credential is the
    marker. *)
Lemma redacted_hides_secrets depth v : hides_secrets (redactFields depth v).
Proof.
  revert v. induction depth as [|d IH]; intros [|b|z|s|l|fs]; try exact I; cbn [redactFields hides_secrets].
  - rewrite map_map. apply Forall_map, Forall_forall. intros x _. apply IH.
  - rewrite map_map. apply Forall_map, Forall_forall. intros [k x] _. cbn -[test].
    by destruct (test SECRET_KEY_RE k).
Qed.

(** ** One line *)

Definition breaks_line (c : Z) : bool := (c =? 10) || (c =? 13).

Definition no_break (s : jstr) : Prop := Forall (fun c => breaks_line c = false) s.

Lemma one_line_no_break s : no_break (one_line s).
Proof.
  unfold no_break. induction s as [s IH] using (induction_ltof1 _ (@length Z)). unfold ltof in IH.
  destruct s as [|c s]; [constructor|].
  assert (forall t, (length t <= length s)%nat -> no_break (BACKSLASH :: 110 :: one_line t)) as Hb.
  { intros t Ht. constructor; [done|]. constructor; [done|]. apply IH. cbn. lia. }
  destruct (decide (c = 13)) as [->|Hc].
  - destruct s as [|d s]; [by apply Hb|]. destruct (decide (d = 10)) as [->|Hd].
    + apply Hb. cbn. lia.
    + replace (one_line (13 :: d :: s)) with (BACKSLASH :: 110 :: one_line (d :: s)); [by apply Hb|].
      cbn. repeat case_match; try done; lia.
  - replace (one_line (c :: s)) with (if (c =? 13) || (c =? 10) then BACKSLASH :: 110 :: one_line s else c :: one_line s)
      by (cbn; repeat case_match; try done; lia).
    destruct ((c =? 13) || (c =? 10)) eqn:E; [by apply Hb|]. constructor; [unfold breaks_line; by rewrite orb_comm|].
    apply IH. cbn. lia.
Qed.

(** ** The characters of a JSON text *)

(** A UTF-16 code unit that does not end a line. *)
Definition on_line (c : Z) : Prop := 0 <= c <= 65535 /\ c <> 10 /\ c <> 13.

#[local] Ltac code := unfold on_line, QUOTE, BACKSLASH in *; lia.

Lemma hex_digit_on_line d : 0 <= d < 16 -> on_line (hex_digit d) /\ hex_digit d <> QUOTE /\ hex_digit d <> BACKSLASH.
Proof. unfold hex_digit, on_line, QUOTE, BACKSLASH. intros Hd. case_match; b2p; lia. Qed.

Lemma unicode_digits u : is_unit u = true ->
  Forall (fun c => on_line c /\ c <> QUOTE /\ c <> BACKSLASH) (hex_of [u / 256; u mod 256]).
Proof.
  intros [H1 H2]%is_unit_spec. unfold hex_of. cbn [flat_map app].
  pose proof (Z.mod_pos_bound u 256 ltac:(lia)).
  assert (0 <= u / 256 < 256) by (split; [apply Z.div_pos|apply Z.div_lt_upper_bound]; lia).
  assert (forall x, 0 <= x < 256 -> 0 <= x / 16 < 16 /\ 0 <= x mod 16 < 16) as Hb.
  { intros x Hx. split; [|apply Z.mod_pos_bound; lia]. split; [apply Z.div_pos|apply Z.div_lt_upper_bound]; lia. }
  destruct (Hb (u / 256)), (Hb (u mod 256)); try lia. repeat constructor; by apply hex_digit_on_line.
Qed.

(** What [quoted] writes for one character or a pair: a piece without line breaks that leaves a
    scan inside of the quotes. *)
Fixpoint solid_from (st : scan) (t : jstr) : bool :=
  match t with
  | [] => match st with Outside => true | _ => false end
  | c :: t' => negb (match st with Outside => c =? 32 | _ => false end) && solid_from (scan_char st c) t'
  end.

Definition piece (p : jstr) : Prop :=
  Forall on_line p /\ forall t, solid_from Inside (p ++ t) = solid_from Inside t.

Lemma piece_app p q : piece p -> piece q -> piece (p ++ q).
Proof.
  intros [H1 H2] [H3 H4]. split; [by apply Forall_app|]. intros t. by rewrite <- app_assoc, H2, H4.
Qed.

Lemma piece_raw c : on_line c -> c <> QUOTE -> c <> BACKSLASH -> piece [c].
Proof.
  intros Hp H1 H2. split; [by constructor|]. intros t. cbn.
  by rewrite (proj2 (Z.eqb_neq _ _) H1), (proj2 (Z.eqb_neq _ _) H2).
Qed.

Lemma piece_escaped c : on_line c -> piece [BACKSLASH; c].
Proof. intros Hp. split; [|done]. constructor; [code|]. by constructor. Qed.

Lemma piece_raws p : Forall (fun c => on_line c /\ c <> QUOTE /\ c <> BACKSLASH) p -> piece p.
Proof.
  induction 1 as [|c p (? & ? & ?) _ IH]; [by split; [constructor|]|].
  change (c :: p) with ([c] ++ p). apply piece_app; [by apply piece_raw|done].
Qed.

Lemma piece_unicode u : is_unit u = true -> piece (unicode_escape u).
Proof.
  intros Hu. change (unicode_escape u) with ([BACKSLASH; 117] ++ hex_of [u / 256; u mod 256]).
  apply piece_app; [apply piece_escaped; code|]. by apply piece_raws, unicode_digits.
Qed.

Lemma piece_escape u : is_unit u = true -> piece (escape u).
Proof.
  intros Hu. pose proof (proj1 (is_unit_spec u) Hu). unfold escape, short_escape.
  repeat match goal with
         | |- context [u =? ?k] => destruct (Z.eqb_spec u k) as [->|?]; [apply piece_escaped; code|]
         end.
  destruct (Z.ltb_spec u 32); [by apply piece_unicode|]. by apply piece_raw; code.
Qed.

Lemma quoted_piece s : forallb is_unit s = true -> exists p, quoted s = p ++ [QUOTE] /\ piece p.
Proof.
  induction s as [s IH] using (induction_ltof1 _ (@length Z)). unfold ltof in IH.
  destruct s as [|u s]; [intros _; exists []; by split; [|split; [constructor|]]|].
  cbn [forallb]. intros [Hu Hs]%andb_prop.
  assert (forall q, piece q -> exists p, q ++ quoted s = p ++ [QUOTE] /\ piece p) as Hrest.
  { intros q Hq. destruct (IH s) as (p & E & Hp); [cbn; lia|done|]. exists (q ++ p).
    rewrite E. split; [by rewrite app_assoc|by apply piece_app]. }
  cbn [quoted]. destruct (is_high u) eqn:Hh.
  - destruct s as [|v s]; [by apply Hrest, piece_unicode|].
    destruct (is_low v) eqn:Hl; [|by apply Hrest, piece_unicode].
    apply high_raw in Hh as (?&?&?). apply low_raw in Hl as (?&?&?).
    cbn [forallb] in Hs. apply andb_prop in Hs as [Hv Hs].
    destruct (IH s) as (p & E & Hp); [cbn; lia|done|]. exists ([u; v] ++ p). rewrite E. split; [done|].
    apply piece_app; [|done]. apply piece_raws. apply is_unit_spec in Hu, Hv.
    constructor; [code|]. constructor; [code|constructor].
  - destruct (is_low u); [by apply Hrest, piece_unicode|by apply Hrest, piece_escape].
Qed.

(** A word of the tail: without a line break, without a space outside of its quotes, and with its quotes
    closed. *)
Definition solid (t : jstr) : Prop := Forall on_line t /\ solid_from Outside t = true.

Lemma solid_from_app st a b : solid_from st a = true -> solid_from Outside b = true -> solid_from st (a ++ b) = true.
Proof.
  revert st. induction a as [|c a IH]; intros st Ha Hb; cbn in *; [by destruct st|].
  apply andb_prop in Ha as [-> Ha]. by apply IH.
Qed.

Lemma solid_app a b : solid a -> solid b -> solid (a ++ b).
Proof. intros [H1 H2] [H3 H4]. split; [by apply Forall_app|by apply solid_from_app]. Qed.

Lemma solid_bare t : Forall (fun c => on_line c /\ c <> 32 /\ c <> QUOTE) t -> solid t.
Proof.
  induction 1 as [|c t (Hp & H1 & H2) _ [IH1 IH2]]; [by split; [constructor|]|]. split; [by constructor|].
  cbn. by rewrite (proj2 (Z.eqb_neq _ _) H1), (proj2 (Z.eqb_neq _ _) H2).
Qed.

Lemma solid_quote s : forallb is_unit s = true -> solid (quote s).
Proof.
  intros Hs. destruct (quoted_piece s Hs) as (p & E & Hp & Hsol). unfold quote. rewrite E. split.
  - constructor; [code|]. apply Forall_app. split; [done|]. constructor; [code|constructor].
  - cbn. by rewrite Hsol.
Qed.

Lemma solid_digits n : 0 <= n -> solid (dec_digits n).
Proof.
  intros Hn. apply solid_bare. eapply Forall_impl; [apply (dec_digits_spec n Hn)|].
  cbn. unfold is_digit. intros c Hc. b2p. code.
Qed.

Lemma solid_dec z : solid (dec z).
Proof.
  unfold dec. destruct (Z.ltb_spec z 0); [|by apply solid_digits].
  change (45 :: dec_digits (- z)) with ([45] ++ dec_digits (- z)).
  apply solid_app; [|apply solid_digits; lia]. apply solid_bare. constructor; [code|constructor].
Qed.

Lemma solid_js s : forallb (fun c => (33 <=? c) && (c <=? 126) && negb (c =? QUOTE)) (js s) = true -> solid (js s).
Proof.
  intros H. apply solid_bare, Forall_forall. intros c Hc%list_elem_of_In.
  pose proof (proj1 (forallb_forall _ _) H c Hc) as Hb. cbn in Hb. b2p. code.
Qed.

Lemma solid_one c : 33 <= c <= 126 -> c <> QUOTE -> solid [c].
Proof. intros H1 H2. apply solid_bare. constructor; [code|constructor]. Qed.

Lemma solid_join c l : 33 <= c <= 126 -> c <> QUOTE -> Forall solid l -> solid (join_with c l).
Proof.
  intros H1 H2. induction 1 as [|x l Hx Hl IH]; [by apply solid_bare|]. destruct l as [|y l]; [done|].
  rewrite join_cons. apply solid_app; [done|]. by apply (solid_app [c]); [apply solid_one|].
Qed.

Lemma solid_stringify v : well_formed v = true -> solid (stringify v).
Proof.
  induction v as [|b|z|s|l IH|fs IH] using plain_induction; intros Hw; cbn [stringify].
  - by apply solid_js.
  - destruct b; by apply solid_js.
  - apply solid_dec.
  - by apply solid_quote.
  - unfold brackets. apply (solid_app [91]); [by apply solid_one|]. apply solid_app; [|by apply solid_one].
    apply solid_join; [done..|]. apply Forall_map. apply well_formed_items in Hw.
    rewrite Forall_forall in IH, Hw |- *. intros x Hx. by apply IH, Hw.
  - unfold braces. apply (solid_app [123]); [by apply solid_one|]. apply solid_app; [|by apply solid_one].
    apply solid_join; [done..|]. apply Forall_map. apply well_formed_members in Hw as [Hw _].
    rewrite Forall_forall in IH, Hw |- *. intros [k x] Hx. destruct (Hw _ Hx) as (Hk & _ & Hv). unfold member. cbn [fst snd].
    apply solid_app; [by apply solid_quote|]. apply (solid_app [COLON] (stringify x)); [by apply solid_one|]. by apply (IH (k, x)).
Qed.

(** ** The words of a tail *)

Lemma words_cons st t : exists w ws, words st t = w :: ws.
Proof.
  destruct t as [|c t]; cbn; [by eauto|]. destruct st, (c =? 32); try by eauto.
  all: destruct (words _ t); by eauto.
Qed.

Lemma words_solid st a r :
  solid_from st a = true -> words st (a ++ 32 :: r) = a :: words Outside r /\ words st a = [a].
Proof.
  revert st. induction a as [|c a IH]; intros st Ha; cbn in Ha; [by destruct st|].
  apply andb_prop in Ha as [Hc Ha]. destruct (IH _ Ha) as [E1 E2]. cbn [app words]. rewrite E1, E2.
  destruct st, (c =? 32); done.
Qed.

Lemma existsb_false {A} (f : A -> bool) l : existsb f l = false -> Forall (fun x => f x = false) l.
Proof. induction l as [|x l IH]; cbn; [constructor|]. intros [? ?]%orb_false_iff. by constructor; [|apply IH]. Qed.

(** A text without white space, quotes and equals signs. *)
Lemma solid_token s :
  forallb is_unit s = true -> Forall (fun c => breaks_token c = false) s -> solid s.
Proof.
  intros Hu Hb. apply solid_bare, Forall_forall. intros c Hc. rewrite Forall_forall in Hb. specialize (Hb c Hc).
  apply list_elem_of_In in Hc. pose proof (proj1 (forallb_forall _ _) Hu c Hc) as Hcu. apply is_unit_spec in Hcu.
  unfold breaks_token, is_ws in Hb. b2p. code.
Qed.

Lemma stringify_units v : well_formed v = true -> forallb is_unit (stringify v) = true.
Proof.
  intros Hw. apply forallb_forall. intros c Hc%list_elem_of_In. destruct (solid_stringify v Hw) as [Hp _].
  rewrite Forall_forall in Hp. specialize (Hp c Hc). apply is_unit_spec. code.
Qed.

Lemma solid_value v : well_formed v = true -> solid (formatFieldValue v).
Proof.
  intros Hw. pose proof (solid_stringify v Hw) as Hs. pose proof (stringify_units v Hw) as Hu.
  destruct v as [|b|z|s|l|fs]; cbn [formatFieldValue]; try exact Hs.
  - destruct (negb (is_empty s) && negb (existsb breaks_token s)) eqn:E; [|by apply solid_quote].
    apply andb_prop in E as [_ E%negb_true_iff%existsb_false]. by apply solid_token.
  - destruct (existsb is_ws _); [by apply solid_quote|done].
  - destruct (existsb is_ws _); [by apply solid_quote|done].
Qed.

Lemma clean_token k :
  forallb is_unit k = true ->
  forallb is_unit (clean_key k) = true /\ Forall (fun c => breaks_token c = false) (clean_key k).
Proof.
  unfold clean_key. induction k as [|c k IH]; cbn [forallb map]; [by split|]. intros [Hc Hk]%andb_prop.
  destruct (IH Hk) as [H1 H2]. rewrite H1. destruct (breaks_token c) eqn:E; (split; [|by constructor]).
  - done.
  - by rewrite Hc.
Qed.

(** A field as the line holds it. *)
Definition writable (kv : jstr * plain) : Prop := forallb is_unit kv.1 = true /\ well_formed kv.2 = true.

Lemma solid_field kv : writable kv -> solid (format_field kv).
Proof.
  intros [Hk Hv]. destruct (clean_token kv.1 Hk) as [H1 H2]. unfold format_field.
  apply solid_app; [by apply solid_token|]. apply (solid_app [61]); [by apply solid_one|by apply solid_value].
Qed.

(** *** Reading one back *)

Lemma read_quote s : forallb is_unit s = true -> unquote (quote s) = s.
Proof.
  intros Hs. unfold unquote, quote. change (QUOTE =? QUOTE) with true. cbn iota.
  rewrite <- (app_nil_r (quoted s)), read_quoted by done. done.
Qed.

Lemma unquote_other c t : c <> QUOTE -> unquote (c :: t) = c :: t.
Proof. intros H. cbn. by rewrite (proj2 (Z.eqb_neq _ _) H). Qed.

Lemma unquote_value v : well_formed v = true -> unquote (formatFieldValue v) = value_text v.
Proof.
  intros Hw. pose proof (stringify_units v Hw) as Hu.
  destruct v as [|b|z|s|l|fs]; cbn [formatFieldValue value_text]; try done.
  - by destruct b.
  - destruct (dec_head z) as (c & t & E & Hc). cbn [stringify]. rewrite E. apply unquote_other.
    intros ->. by destruct Hc.
  - destruct (negb (is_empty s) && negb (existsb breaks_token s)) eqn:E; [|by apply read_quote].
    apply andb_prop in E as [_ E%negb_true_iff%existsb_false]. destruct s as [|c s]; [done|].
    apply unquote_other. apply Forall_cons in E as [E _]. intros ->. done.
  - destruct (existsb is_ws _); [by apply read_quote|]. by apply unquote_other.
  - destruct (existsb is_ws _); [by apply read_quote|]. by apply unquote_other.
Qed.

Lemma read_pair_field k w : Forall (fun c => breaks_token c = false) k -> read_pair (k ++ 61 :: w) = (k, unquote w).
Proof.
  induction 1 as [|c k Hc _ IH]; [done|]. cbn [app read_pair]. rewrite IH.
  destruct (Z.eqb_spec c 61) as [->|]; [done|]. done.
Qed.

Lemma read_field kv : writable kv -> read_pair (format_field kv) = (clean_key kv.1, value_text kv.2).
Proof.
  intros [Hk Hv]. unfold format_field. rewrite read_pair_field by apply (clean_token kv.1 Hk).
  by rewrite unquote_value.
Qed.

Lemma words_tail fs :
  Forall writable fs -> forall kv, writable kv ->
  words Outside (format_field kv ++ flat_map (fun kv => 32 :: format_field kv) fs)
  = format_field kv :: map format_field fs.
Proof.
  induction 1 as [|kv' fs Hw _ IH]; intros kv Hkv; cbn [flat_map map].
  - rewrite app_nil_r. apply (words_solid _ _ []), solid_field, Hkv.
  - change ((32 :: format_field kv') ++ ?r) with (32 :: (format_field kv' ++ r)).
    destruct (words_solid Outside (format_field kv)
      (format_field kv' ++ flat_map (fun kv => 32 :: format_field kv) fs)) as [-> _]; [apply solid_field, Hkv|].
    by rewrite IH.
Qed.

Lemma tail_no_break fs : Forall writable fs -> no_break (flat_map (fun kv => 32 :: format_field kv) fs).
Proof.
  induction 1 as [|kv fs Hkv _ IH]; [constructor|]. cbn [flat_map]. apply Forall_app. split; [|exact IH].
  constructor; [done|]. destruct (solid_field kv Hkv) as [Hp _]. eapply Forall_impl; [exact Hp|].
  cbn. unfold on_line, breaks_line. intros c ?. lia.
Qed.

(** C39: A log record is one line of text, whatever its message and its fields hold, as long
    as its time, level and service hold no line break; and the tail of the line reads back:
    split at the spaces outside of quotes and at the first equals sign of a word, it is
    exactly the fields of the record, each with the text of its value and, in its key, an
    underscore for a character a key cannot have. *)
Theorem text_line_reads_back r :
  no_break (ts r) -> no_break (level r) -> no_break (service r) -> Forall writable (fields r) ->
  no_break (formatTextLine r)
  /\ exists head,
       formatTextLine r = head ++ field_tail (fields r)
       /\ read_tail (field_tail (fields r))
          = map (fun kv => (clean_key kv.1, value_text kv.2))
              (List.filter (fun kv => negb (is_envelope kv.1)) (fields r)).
Proof.
  intros Ht Hl Hs Hf.
  assert (Forall writable (List.filter (fun kv => negb (is_envelope kv.1)) (fields r))) as Hw.
  { apply Forall_forall. intros kv [Hin _]%list_elem_of_In%filter_In. rewrite Forall_forall in Hf.
    by apply Hf, list_elem_of_In. }
  split.
  - unfold formatTextLine, field_tail, no_break in *. repeat (apply Forall_app; split; try done).
    + constructor; [done|]. repeat (apply Forall_app; split; try done); try (by repeat constructor).
      * apply one_line_no_break.
      * by apply tail_no_break.
  - exists (ts r ++ 32 :: level r ++ js " [" ++ service r ++ js "] " ++ one_line (msg r)). split.
    + unfold formatTextLine. by rewrite <- !app_assoc, <- !app_comm_cons, <- !app_assoc.
    + unfold field_tail. revert Hw. generalize (List.filter (fun kv => negb (is_envelope kv.1)) (fields r)).
      intros [|kv fs] Hw; [done|]. apply Forall_cons in Hw as [Hkv Hw]. cbn [flat_map app read_tail].
      rewrite words_tail by done. cbn [map]. rewrite read_field by done. f_equal. rewrite map_map.
      apply map_ext_in. intros x Hx%list_elem_of_In. apply read_field. rewrite Forall_forall in Hw. by apply Hw.
Qed.

Definition sample_record : log_record :=
  LogRecord (js "2026-01-01T00:00:00.000Z") (js "warn") (js "xchain-decoder") (js "two" ++ [13; 10] ++ js "lines")
    [(js "probe", PStr (js "db_ping")); (js "service", PStr (js "forged"));
     (js "the key", PStr (js "a b=" ++ [34; 10] ++ js "c")); (js "n", PInt (-5));
     (js "o", PObj [(js "x", PArr [PStr (js "y z"); PNull])])].

Lemma text_line_reads_back_witness :
  no_break (formatTextLine sample_record)
  /\ read_tail (field_tail (fields sample_record))
     = [(js "probe", js "db_ping"); (js "the_key", js "a b=" ++ [34; 10] ++ js "c"); (js "n", js "-5");
        (js "o", stringify (PObj [(js "x", PArr [PStr (js "y z"); PNull])]))].
Proof.
  split; [|by vm_compute].
  refine (proj1 (text_line_reads_back sample_record _ _ _ _));
    first [apply (bool_decide_unpack _); by vm_compute
          |repeat (apply Forall_cons; split; [split; by vm_compute|]); by apply Forall_nil].
Defined.
