(* ===== verification/Metrics.v ===== *)
(** * The metrics registry

    src/src/observability/metrics.js: metrics with their series, the registry and the text
    it exposes; the label of a route (src/src/observability/index.js); and the gauges of
    src/src/metrics/decoder_metrics.js over the state of the parse loop.

    A label object is the list of its own keys with the text of each value ([None]: undefined
    or null).  A value is a JavaScript number; its text, where it is no safe integer, is the
    argument [decimal_text].  No label is declared as __proto__, which is no key of its own.
    The timers and the process metrics, which read the host, are left out.

    A registry built by its own operations keeps its caps, and the text it exposes reads back
    to exactly its samples; the counts of a histogram are those of what was observed; a scrape
    leaves in the decoder's gauges exactly what it writes. *)
From Stdlib Require Import QArith.QArith_base.
From S2P Require Import Prelude JsNum Wire Json Db Halt Node Rpc LoopState SyncStatus.
From S2P Require Import Probes.
#[local] Open Scope Z_scope.
#[local] Open Scope update_scope.

(** ** Names and escapes *)

Definition is_letter (c : Z) : bool := ((65 <=? c) && (c <=? 90)) || ((97 <=? c) && (c <=? 122)).

Definition label_start (c : Z) : bool := is_letter c || (c =? 95).
Definition metric_start (c : Z) : bool := label_start c || (c =? 58).

(** [/^[a-zA-Z_][a-zA-Z0-9_]*$/], and with a colon for metrics. *)
Definition label_name (s : jstr) : bool :=
  match s with c :: s' => label_start c && forallb (fun x => label_start x || is_digit x) s' | [] => false end.
Definition metric_name (s : jstr) : bool :=
  match s with c :: s' => metric_start c && forallb (fun x => metric_start x || is_digit x) s' | [] => false end.

Definition escapeHelp (s : jstr) : jstr :=
  flat_map (fun c => if c =? BACKSLASH then [BACKSLASH; BACKSLASH] else if c =? 10 then [BACKSLASH; 110] else [c]) s.

Definition escapeLabelValue (s : jstr) : jstr :=
  flat_map (fun c => if c =? BACKSLASH then [BACKSLASH; BACKSLASH] else if c =? 10 then [BACKSLASH; 110]
                     else if c =? QUOTE then [BACKSLASH; QUOTE] else [c]) s.

(** ** Metrics *)

Inductive metric_type := Counter | Gauge | Histogram.

#[export] Instance metric_type_eq_dec : EqDecision metric_type.
Proof. solve_decision. Defined.

(** What a series holds: a value, or the counts of a histogram with sum and count. *)
Inductive cell :=
  | Scalar (value : num)
  | Hist (counts : list Z) (sum : num) (count : Z).

Record series := Series { s_labels : list (jstr * jstr); s_cell : cell }.

Record metric := Metric {
  m_type : metric_type;
  m_name : jstr;
  m_help : jstr;
  labelNames : list jstr;
  maxSeries : nat;
  buckets : list num;                       (* of a histogram *)
  series_of : list (jstr * series)          (* in the order of insertion *)
}.

#[export] Instance eta_metric : Eta metric := fun m => Metric (m_type m) (m_name m) (m_help m)
  (labelNames m) (maxSeries m) (buckets m) (series_of m).

Definition labels_arg : Type := list (jstr * option jstr).

(** [labels[name]], the empty text where there is none. *)
Definition label_value (labels : labels_arg) (name : jstr) : jstr :=
  match find (fun kv => eqs kv.1 name) labels with Some (_, Some v) => v | _ => [] end.

Definition _key (m : metric) (labels : labels_arg) : jstr :=
  match labelNames m with
  | [] => []
  | names => stringify (PArr (map (fun n => PStr (label_value labels n)) names))
  end.

Inductive metric_error := UnknownLabel (k : jstr) | BadValue | BadName | BadLabel | BadBuckets | ShapeChanged.

(** The keys of an object that is given these keys in turn: each where it came first. *)
Fixpoint own_keys (l : list jstr) : list jstr :=
  match l with
  | [] => []
  | k :: l' => k :: List.filter (fun x => negb (eqs k x)) (own_keys l')
  end.

Definition _normalizeLabels (m : metric) (labels : labels_arg) : metric_error + list (jstr * jstr) :=
  match find (fun kv => negb (existsb (eqs kv.1) (labelNames m))) labels with
  | Some (k, _) => inl (UnknownLabel k)
  | None => inr (map (fun n => (n, label_value labels n)) (own_keys (labelNames m)))
  end.

Fixpoint lookup_series (k : jstr) (l : list (jstr * series)) : option series :=
  match l with
  | [] => None
  | (k', s) :: l' => if eqs k k' then Some s else lookup_series k l'
  end.

(** [Map.set] keeps the place of a key that exists. *)
Fixpoint set_series (k : jstr) (s : series) (l : list (jstr * series)) : list (jstr * series) :=
  match l with
  | [] => [(k, s)]
  | (k', s') :: l' => if eqs k k' then (k, s) :: l' else (k', s') :: set_series k s l'
  end.

(** The series of some labels, made where there is room; [inr None]: the cap is reached. *)
Definition _series (m : metric) (labels : labels_arg) (fresh : cell) : metric_error + option series :=
  match lookup_series (_key m labels) (series_of m) with
  | Some s => inr (Some s)
  | None =>
      if (maxSeries m <=? length (series_of m))%nat then inr None
      else match _normalizeLabels m labels with
           | inl e => inl e
           | inr ls => inr (Some (Series ls fresh))
           end
  end.

(** A change of the series of some labels; [false]: the observation was dropped. *)
Definition change (m : metric) (labels : labels_arg) (fresh : cell) (f : cell -> cell)
  : metric_error + (bool * metric) :=
  match _series m labels fresh with
  | inl e => inl e
  | inr None => inr (false, m)
  | inr (Some s) =>
      inr (true, m <| series_of ::= set_series (_key m labels) (Series (s_labels s) (f (s_cell s))) |>)
  end.

Definition num_add (a b : num) : num :=
  match a, b with
  | NaN, _ | _, NaN => NaN
  | Fin x, Fin y => round_binary64 (x + y)
  | Inf x, Inf y => if eqb x y then a else NaN
  | Inf _, _ => a
  | _, Inf _ => b
  end.

Definition zero : cell := Scalar (numZ 0).

Definition on_scalar (f : num -> num) (c : cell) : cell :=
  match c with Scalar v => Scalar (f v) | _ => c end.

Definition counter_inc (m : metric) (labels : labels_arg) (value : num) : metric_error + (bool * metric) :=
  if negb (isFinite value) || num_lt value (numZ 0) then inl BadValue
  else change m labels zero (on_scalar (fun v => num_add v value)).

(** A step back is ignored. *)
Definition setMonotonic (m : metric) (labels : labels_arg) (value : num) : metric_error + (bool * metric) :=
  if negb (isFinite value) || num_lt value (numZ 0) then inr (true, m)
  else change m labels zero (on_scalar (fun v => if num_le v value then value else v)).

Definition gauge_set (m : metric) (labels : labels_arg) (value : num) : metric_error + (bool * metric) :=
  if negb (isFinite value) then inl BadValue
  else change m labels zero (on_scalar (fun _ => value)).

Definition gauge_inc (m : metric) (labels : labels_arg) (value : num) : metric_error + (bool * metric) :=
  change m labels zero (on_scalar (fun v => num_add v value)).

Definition fresh_hist (m : metric) : cell := Hist (map (fun _ => 0) (buckets m)) (numZ 0) 0.

Definition count_in (bs : list num) (value : num) (counts : list Z) : list Z :=
  zip_with (fun b n => if num_le value b then n + 1 else n) bs counts.

Definition hist_observe (m : metric) (labels : labels_arg) (value : num) : metric_error + (bool * metric) :=
  if negb (isFinite value) then inr (true, m)
  else change m labels (fresh_hist m) (fun c =>
    match c with
    | Hist counts sum n => Hist (count_in (buckets m) value counts) (num_add sum value) (n + 1)
    | _ => c
    end).

(** *** Making one *)

Definition LE : jstr := js "le".

(** Reserved names, and the grammar of names. *)
Definition bad_label (l : jstr) : bool := negb (label_name l) || eqs l (js "__name__").

Fixpoint insert_num (x : num) (l : list num) : list num :=
  match l with
  | [] => [x]
  | y :: l' => if num_lt x y then x :: l else y :: insert_num x l'
  end.

(** [slice().sort((a, b) => a - b)] of finite numbers. *)
Definition sort_nums (l : list num) : list num := foldr insert_num [] (rev l).

(** Two bounds of a sorted list that are the same number are neighbours. *)
Fixpoint has_twin (l : list num) : bool :=
  match l with
  | x :: ((y :: _) as l') => (num_le x y && num_le y x) || has_twin l'
  | _ => false
  end.

Definition new_metric (t : metric_type) (name help : jstr) (labels : list jstr) (max : nat) (bs : list num)
  : metric_error + metric :=
  if negb (metric_name name) then inl BadName
  else if existsb bad_label labels then inl BadLabel
  else
    let m b := inr (Metric t name (match help with [] => name | _ => help end) labels max b []) in
    match t with
    | Histogram =>
        let sorted := sort_nums bs in
        if existsb (fun b => negb (isFinite b)) sorted || has_twin sorted || existsb (eqs LE) labels
        then inl BadBuckets else m sorted
    | _ => m []
    end.

(** ** The registry *)

Definition DEFAULT_MAX_SERIES : nat := 500.

Definition DROPPED : jstr := js "xchain_metrics_series_dropped_total".

Record registry := Registry { reg_max : nat; metrics : list metric }.

#[export] Instance eta_registry : Eta registry := fun r => Registry (reg_max r) (metrics r).

Definition new_registry (max : nat) : registry :=
  Registry max [Metric Counter DROPPED
    (js "Observations dropped because a metric hit its per-metric series cap") [js "metric"] max [] []].

Definition find_metric (name : jstr) (l : list metric) : option metric := find (fun m => eqs (m_name m) name) l.

Definition put_metric (m : metric) (l : list metric) : list metric :=
  map (fun x => if eqs (m_name x) (m_name m) then m else x) l.

(** The same declaration gives back what is registered; another shape throws. *)
Definition _register (m : metric) (r : registry) : metric_error + (metric * registry) :=
  match find_metric (m_name m) (metrics r) with
  | Some x =>
      if bool_decide (m_type x = m_type m) && bool_decide (labelNames x = labelNames m) then inr (x, r)
      else inl ShapeChanged
  | None => inr (m, r <| metrics ::= fun l => l ++ [m] |>)
  end.

Definition _noteSeriesDrop (name : jstr) (r : registry) : registry :=
  match find_metric DROPPED (metrics r) with
  | Some m =>
      match counter_inc m [(js "metric", Some name)] (numZ 1) with
      | inr (_, m') => r <| metrics ::= put_metric m' |>
      | inl _ => r
      end
  | None => r
  end.

(** An operation on a registered metric; a drop is counted, but for the drops of the counter
    of drops itself. *)
Definition on_metric (name : jstr) (op : metric -> metric_error + (bool * metric)) (r : registry)
  : metric_error + registry :=
  match find_metric name (metrics r) with
  | None => inr r
  | Some m =>
      match op m with
      | inl e => inl e
      | inr (true, m') => inr (r <| metrics ::= put_metric m' |>)
      | inr (false, _) => inr (if eqs name DROPPED then r else _noteSeriesDrop name r)
      end
  end.

(** ** The exposed text *)

Section Render.
Context (decimal_text : num -> jstr).

Definition formatValue (v : num) : jstr :=
  match v with
  | Inf false => js "+Inf"
  | Inf true => js "-Inf"
  | NaN => js "NaN"
  | Fin _ => match safe_integer v with Some z => dec z | None => decimal_text v end
  end.

Record sample := Sample { sm_name : jstr; sm_labels : list (jstr * jstr); sm_value : num }.

Definition samples_of (m : metric) (s : series) : list sample :=
  match s_cell s with
  | Scalar v => [Sample (m_name m) (s_labels s) v]
  | Hist counts sum n =>
      zip_with (fun b c => Sample (m_name m ++ js "_bucket") (s_labels s ++ [(LE, formatValue b)]) (numZ c))
        (buckets m) counts
      ++ [Sample (m_name m ++ js "_bucket") (s_labels s ++ [(LE, js "+Inf")]) (numZ n);
          Sample (m_name m ++ js "_sum") (s_labels s) sum;
          Sample (m_name m ++ js "_count") (s_labels s) (numZ n)]
  end.

Definition samples (m : metric) : list sample := flat_map (fun ks => samples_of m ks.2) (series_of m).

Definition label_text (kv : jstr * jstr) : jstr := kv.1 ++ 61 :: QUOTE :: escapeLabelValue kv.2 ++ [QUOTE].

Definition sample_line (s : sample) : jstr :=
  sm_name s
  ++ match sm_labels s with [] => [] | ls => 123 :: join_with COMMA (map label_text ls) ++ [125] end
  ++ 32 :: formatValue (sm_value s).

Definition type_text (t : metric_type) : jstr :=
  match t with Counter => js "counter" | Gauge => js "gauge" | Histogram => js "histogram" end.

Definition metric_lines (m : metric) : list jstr :=
  match samples m with
  | [] => []
  | l => (js "# HELP " ++ m_name m ++ 32 :: escapeHelp (m_help m))
         :: (js "# TYPE " ++ m_name m ++ 32 :: type_text (m_type m))
         :: map sample_line l
  end.

(** [render], after the collectors. *)
Definition render (r : registry) : jstr :=
  match flat_map metric_lines (metrics r) with
  | [] => []
  | lines => join_with 10 lines ++ [10]
  end.
End Render.

(** *** A reader of a sample line *)

Fixpoint take_name (t : jstr) : jstr * jstr :=
  match t with
  | c :: t' => if metric_start c || is_digit c then let '(n, r) := take_name t' in (c :: n, r) else ([], t)
  | [] => ([], [])
  end.

(** A label value up to its closing quote. *)
Fixpoint read_label_value (t : jstr) : option (jstr * jstr) :=
  match t with
  | [] => None
  | c :: t' =>
      if c =? QUOTE then Some ([], t')
      else if c =? BACKSLASH then
        match t' with
        | e :: t'' => '(s, r) ← read_label_value t''; Some ((if e =? 110 then 10 else e) :: s, r)
        | [] => None
        end
      else '(s, r) ← read_label_value t'; Some (c :: s, r)
  end.

(** The labels from a name on, up to the closing brace. *)
Fixpoint read_labels (fuel : nat) (t : jstr) : option (list (jstr * jstr) * jstr) :=
  match fuel with
  | O => None
  | S fuel =>
      let '(k, r) := take_name t in
      match r with
      | 61 :: 34 :: r =>
          '(v, r) ← read_label_value r;
          match r with
          | 44 :: r => '(ls, r) ← read_labels fuel r; Some ((k, v) :: ls, r)
          | 125 :: r => Some ([(k, v)], r)
          | _ => None
          end
      | _ => None
      end
  end.

(** Name, labels and the text of the value. *)
Definition read_sample (t : jstr) : option (jstr * list (jstr * jstr) * jstr) :=
  let '(name, r) := take_name t in
  match r with
  | 123 :: r => '(ls, r) ← read_labels (length r) r;
                match r with 32 :: v => Some (name, ls, v) | _ => None end
  | 32 :: v => Some (name, [], v)
  | _ => None
  end.

(** The sample lines of a text: those that are no comment. *)
Definition scrape (t : jstr) : list (option (jstr * list (jstr * jstr) * jstr)) :=
  omap (fun l => match l with
                 | [] => None
                 | c :: _ => if c =? 35 then None else Some (read_sample l)
                 end) (split_on 10 t).

(** ** Routes *)

Definition UNMATCHED_ROUTE_LABEL_CAP : nat := 20.

(** [route]: the pattern of the matched route behind its base, or else the first segment of
    the path ([None]: there is none).  [seen] are the segments that have a label. *)
Definition routeLabel (route : option jstr) (segment : option jstr) (seen : list jstr) : jstr * list jstr :=
  match route, segment with
  | Some p, _ => (match p with [] => js "/" | _ => p end, seen)
  | None, None => (js "/", seen)
  | None, Some seg =>
      let label := 47 :: seg in
      if existsb (eqs label) seen then (label, seen)
      else if (length seen <? UNMATCHED_ROUTE_LABEL_CAP)%nat then (label, seen ++ [label])
      else (js "/_unmatched", seen)
  end.

(** ** Building a registry *)

Inductive operation :=
  | IncCounter (labels : labels_arg) (value : num)
  | SetMonotonic (labels : labels_arg) (value : num)
  | SetGauge (labels : labels_arg) (value : num)
  | IncGauge (labels : labels_arg) (value : num)
  | Observe (labels : labels_arg) (value : num).

Definition apply_op (o : operation) (m : metric) : metric_error + (bool * metric) :=
  match o with
  | IncCounter ls v => counter_inc m ls v
  | SetMonotonic ls v => setMonotonic m ls v
  | SetGauge ls v => gauge_set m ls v
  | IncGauge ls v => gauge_inc m ls v
  | Observe ls v => hist_observe m ls v
  end.

(** ** The decoder's gauges

    src/src/metrics/decoder_metrics.js, over the state of the parse loop. *)

Definition DECODER_GAUGES : list (string * string) := [
  ("last_processed_block", "Height of the last block the decoder committed");
  ("node_height", "Node chain tip height as of the last successful getblockchaininfo");
  ("block_lag", "Blocks the decoder is behind the last-seen node tip");
  ("last_tip_poll_timestamp_seconds", "Unix time of the last successful getblockchaininfo poll");
  ("tip_age_seconds", "Seconds since the last successful getblockchaininfo poll");
  ("last_block_advance_timestamp_seconds", "Unix time of the last forward block advance");
  ("node_height_stale", "1 when the cached node tip is frozen (two or more consecutive tip polls failed)");
  ("synced", "1 when the decoder is caught up to a fresh node tip");
  ("stalled", "1 when the block loop is wedged on one height (/live gates on poll_silent too)");
  ("poll_silent", "1 when the block loop has stopped ITERATING; gates /live health beside stalled");
  ("last_poll_timestamp_seconds", "Unix time of the last block-loop iteration, whether or not a block arrived");
  ("last_reorg_depth", "Blocks rolled back by the most recent reorg");
  ("reorg_halted", "1 when a REORG_HALT marker is held (latent or parked); absent until the first marker probe");
  ("reorg_halt_parked", "1 when the parse loop has stopped on a REORG_HALT; node_height_stale also reads 1 while parked")
]%string.

Definition DECODER_COUNTERS : list (string * string) := [
  ("parse_errors_total", "Transactions the decoder failed to parse since process start");
  ("quarantined_tx_total", "Transactions this decoder permanently skipped (PARSE_ERROR quarantine) since process start");
  ("rpc_errors_total", "Node RPC errors seen since process start");
  ("reorgs_total", "Reorgs this decoder has rolled back since process start");
  ("dispenser_purge_failures_total", "Post-commit expired-dispenser purges that failed since process start")
]%string.

Definition decoder_name (suffix : string) : jstr := js "xchain_decoder_" ++ js suffix.

Fixpoint register_each (t : metric_type) (l : list (string * string)) (r : registry) : metric_error + registry :=
  match l with
  | [] => inr r
  | (suffix, help) :: l' =>
      match new_metric t (decoder_name suffix) (js help) [] (reg_max r) [] with
      | inl e => inl e
      | inr m => match _register m r with inl e => inl e | inr (_, r) => register_each t l' r end
      end
  end.

(** Without the collector, which [collectDecoderMetrics] is. *)
Definition registerDecoderMetrics (r : registry) : metric_error + registry :=
  match register_each Gauge DECODER_GAUGES r with
  | inl e => inl e
  | inr r => register_each Counter DECODER_COUNTERS r
  end.

Definition setIf (suffix : string) (v : option num) : list (string * operation) :=
  match v with Some v => if isFinite v then [(suffix, SetGauge [] v)] else [] | None => [] end.

Definition write (suffix : string) (o : operation) : string * operation := (suffix, o).

Definition flag (b : bool) : operation := SetGauge [] (numZ (if b then 1 else 0)).

(** [ms / 1000] *)
Definition seconds (ms : Z) : num := round_binary64 (Qmake ms 1000).

(** Of a moment that has come: zero is none. *)
Definition seconds_at (ms : Z) : option num := if 0 <? ms then Some (seconds ms) else None.

Section Collect.
Context (STALL_ALERT_MS STALL_FETCH_ATTEMPTS POLL_SILENT_MS : Z).

(** What one scrape writes, in order; [clock] gives its readings of the clock. *)
Definition collectDecoderMetrics (clock : nat -> Z) (conn : connector) (s : lstate)
  : list (string * operation) :=
  let status := getSyncStatus (clock 0%nat) s in
  let p := progress_of s in
  let count n := SetMonotonic [] (numZ n) in
  (setIf "last_processed_block" (numZ ∘ last_processed_block <$> status)
   ++ setIf "node_height" (numZ ∘ ss_node_height <$> status)
   ++ setIf "block_lag" (numZ ∘ lag <$> status)
   ++ setIf "last_tip_poll_timestamp_seconds" (seconds_at (blockchainInfoLastRefreshAt p))
   ++ setIf "last_block_advance_timestamp_seconds" (seconds_at (lastAdvanceAt p))
   ++ setIf "tip_age_seconds" (seconds <$> nodeTipAge (clock 1%nat) p)
   ++ [write "node_height_stale" (flag (isNodeHeightStale (clock 2%nat) p));
       write "synced" (flag (isSynced (clock 3%nat) p));
       write "stalled" (flag (isStalled STALL_ALERT_MS STALL_FETCH_ATTEMPTS (clock 4%nat) s));
       write "poll_silent" (flag (isPollSilent POLL_SILENT_MS (clock 5%nat) s))]
   ++ setIf "last_poll_timestamp_seconds" (seconds_at (lastPollAt p))
   ++ [write "rpc_errors_total" (count (all_rpc_errors conn s));
       write "parse_errors_total" (count (parseErrors (counters s)));
       write "quarantined_tx_total" (count (quarantinedTxs (counters s)));
       write "dispenser_purge_failures_total" (count (dispenserPurgeFailures (counters s)))]
   ++ setIf "last_reorg_depth" (Some (numZ (lastReorgDepth (reorg_of s))))
   ++ [write "reorgs_total" (count (reorgCount (reorg_of s)))]
   ++ (if (0 <? reorgHaltCheckedAt (reorg_of s)) || reorgHalted (reorg_of s)
       then [write "reorg_halted" (flag (reorgHalted (reorg_of s)))] else [])
   ++ [write "reorg_halt_parked" (flag (parked s))]).
End Collect.

(** A scrape runs the collector up to a write that throws. *)
Fixpoint run_writes (l : list (string * operation)) (r : registry) : registry :=
  match l with
  | [] => r
  | (suffix, o) :: l' =>
      match on_metric (decoder_name suffix) (apply_op o) r with
      | inr r => run_writes l' r
      | inl _ => r
      end
  end.

Inductive built : registry -> Prop :=
  | built_new max : built (new_registry max)
  | built_register t name help labels max bs m r x r' :
      built r -> new_metric t name help labels max bs = inr m -> _register m r = inr (x, r') -> built r'
  | built_op name o r r' : built r -> on_metric name (apply_op o) r = inr r' -> built r'.

(** ** The invariant *)

Record sound_metric (m : metric) : Prop := {
  sound_name : metric_name (m_name m) = true;
  sound_labels : Forall (fun l => label_name l = true) (labelNames m);
  sound_series : Forall (fun ks => map fst (s_labels ks.2) = own_keys (labelNames m)) (series_of m);
  sound_cap : (length (series_of m) <= maxSeries m)%nat
}.

Lemma own_keys_Forall (P : jstr -> Prop) l : Forall P l -> Forall P (own_keys l).
Proof.
  induction 1 as [|k l Hk Hl IH]; cbn; [done|]. constructor; [done|].
  rewrite Forall_forall in *. intros x [Hx _]%list_elem_of_In%filter_In. by apply IH, list_elem_of_In.
Qed.

Lemma lookup_series_in k l s : lookup_series k l = Some s -> exists k', (k', s) ∈ l.
Proof.
  induction l as [|[k' s'] l IH]; cbn; [done|]. destruct (eqs k k').
  - intros [= ->]. exists k'. by left.
  - intros H. destruct (IH H) as [x Hx]. exists x. by right.
Qed.

Lemma set_series_length k s l :
  length (set_series k s l) = match lookup_series k l with Some _ => length l | None => S (length l) end.
Proof.
  induction l as [|[k' s'] l IH]; cbn; [done|]. destruct (eqs k k'); [done|]. cbn. rewrite IH.
  by destruct (lookup_series k l).
Qed.

Lemma set_series_Forall (P : jstr * series -> Prop) k s l :
  P (k, s) -> Forall P l -> Forall P (set_series k s l).
Proof.
  intros Hs. induction 1 as [|[k' s'] l Hx Hl IH]; cbn; [by constructor|].
  destruct (eqs k k'); by constructor.
Qed.

Lemma change_sound m labels fresh f b m' :
  sound_metric m -> change m labels fresh f = inr (b, m') -> sound_metric m' /\ m_name m' = m_name m.
Proof.
  intros [Hn Hl Hs Hc]. unfold change, _series.
  destruct (lookup_series (_key m labels) (series_of m)) as [s|] eqn:E.
  - intros [= _ <-]. split; [|done]. split; cbn; [done|done| |by rewrite set_series_length, E].
    apply set_series_Forall; [|done]. cbn. destruct (lookup_series_in _ _ _ E) as [k Hin].
    rewrite Forall_forall in Hs. by apply (Hs (k, s)).
  - destruct (Nat.leb_spec (maxSeries m) (length (series_of m))); [by intros [= _ <-]|].
    unfold _normalizeLabels. destruct (find _ labels) as [[k v]|]; [done|].
    intros [= _ <-]. split; [|done]. split; cbn; [done|done| |rewrite set_series_length, E; lia].
    apply set_series_Forall; [|done]. cbn. rewrite map_map. cbn. apply map_id.
Qed.

Lemma apply_op_sound o m b m' :
  sound_metric m -> apply_op o m = inr (b, m') -> sound_metric m' /\ m_name m' = m_name m.
Proof.
  intros Hm. destruct o; cbn; unfold counter_inc, setMonotonic, gauge_set, gauge_inc, hist_observe;
    try (case_match; [by intros [= _ <-]|]); by apply change_sound.
Qed.

Lemma find_metric_in name l m : find_metric name l = Some m -> m ∈ l.
Proof. intros [H _]%find_some. by apply list_elem_of_In. Qed.

Lemma put_metric_sound m l : sound_metric m -> Forall sound_metric l -> Forall sound_metric (put_metric m l).
Proof.
  intros Hm Hl. apply Forall_map. eapply Forall_impl; [exact Hl|]. intros x Hx. by destruct (eqs (m_name x) (m_name m)).
Qed.

Lemma new_metric_sound t name help labels max bs m :
  new_metric t name help labels max bs = inr m -> sound_metric m.
Proof.
  unfold new_metric. destruct (metric_name name) eqn:Hn; [|done].
  destruct (existsb bad_label labels) eqn:Hl; [done|]. cbn [negb].
  assert (Forall (fun l => label_name l = true) labels) as Hls.
  { apply Forall_forall. intros l Hin. destruct (label_name l) eqn:E; [done|].
    rewrite (proj2 (existsb_exists bad_label labels)) in Hl; [done|]. exists l.
    split; [by apply list_elem_of_In|]. unfold bad_label. by rewrite E. }
  destruct t; [| |case_match; [done|]]; intros [= <-]; (split; cbn; [done|done|constructor|lia]).
Qed.

Lemma built_sound r : built r -> Forall sound_metric (metrics r).
Proof.
  induction 1 as [max|t name help labels max bs m r x r' _ IH Hm Hr|name o r r' _ IH Ho].
  - constructor; [|constructor]. split; cbn; [done| |constructor|lia]. by repeat constructor.
  - unfold _register in Hr. destruct (find_metric _ _); [case_match; [|done]; by injection Hr as _ <-|].
    injection Hr as _ <-. apply Forall_app. split; [done|]. constructor; [by eapply new_metric_sound|constructor].
  - unfold on_metric in Ho. destruct (find_metric name (metrics r)) as [m|] eqn:E; [|by injection Ho as <-].
    rewrite Forall_forall in IH. pose proof (IH m (find_metric_in _ _ _ E)) as Hm. apply Forall_forall in IH.
    destruct (apply_op o m) as [|[[] m']] eqn:Eo; [done| |].
    + injection Ho as <-. apply put_metric_sound; [|done]. by eapply apply_op_sound.
    + injection Ho as <-. case_match; [done|]. unfold _noteSeriesDrop.
      destruct (find_metric DROPPED (metrics r)) as [d|] eqn:Ed; [|done].
      destruct (counter_inc d _ _) as [|[b d']] eqn:Ec; [done|]. apply put_metric_sound; [|done].
      eapply (apply_op_sound (IncCounter _ _)); [|exact Ec].
      rewrite Forall_forall in IH. by apply (IH d), (find_metric_in DROPPED).
Qed.

(** ** Reading back *)

Definition name_char (c : Z) : bool := metric_start c || is_digit c.

Lemma label_char c : label_start c || is_digit c = true -> name_char c = true.
Proof. unfold name_char, metric_start. intros [H|H]%orb_true_iff; rewrite H; [done|by rewrite orb_true_r]. Qed.

Lemma metric_name_chars n : metric_name n = true -> Forall (fun c => name_char c = true) n /\ n <> [].
Proof.
  destruct n as [|c n]; [done|]. cbn. intros [Hc Hn]%andb_prop. split; [|done]. constructor.
  - unfold name_char. by rewrite Hc.
  - apply Forall_forall. intros x Hx%list_elem_of_In. by apply (proj1 (forallb_forall _ _) Hn).
Qed.

Lemma label_name_chars n : label_name n = true -> Forall (fun c => name_char c = true) n.
Proof.
  destruct n as [|c n]; [done|]. cbn. intros [Hc Hn]%andb_prop. constructor.
  - apply label_char. by rewrite Hc.
  - apply Forall_forall. intros x Hx%list_elem_of_In. by apply label_char, (proj1 (forallb_forall _ _) Hn).
Qed.

Lemma take_name_app n c r :
  Forall (fun x => name_char x = true) n -> name_char c = false -> take_name (n ++ c :: r) = (n, c :: r).
Proof.
  intros Hn Hc. induction Hn as [|x n Hx _ IH]; cbn [app take_name].
  - unfold name_char in Hc. by rewrite Hc.
  - unfold name_char in Hx. by rewrite Hx, IH.
Qed.

Lemma read_escaped v r : read_label_value (escapeLabelValue v ++ QUOTE :: r) = Some (v, r).
Proof.
  induction v as [|c v IH]; [done|]. unfold escapeLabelValue in *. cbn [flat_map].
  destruct (Z.eqb_spec c BACKSLASH) as [->|H1]; [cbn; by rewrite IH|].
  destruct (Z.eqb_spec c 10) as [->|H2]; [cbn; by rewrite IH|].
  destruct (Z.eqb_spec c QUOTE) as [->|H3]; [cbn; by rewrite IH|].
  cbn [app read_label_value]. rewrite (proj2 (Z.eqb_neq _ _) H1), (proj2 (Z.eqb_neq _ _) H3). by rewrite IH.
Qed.

Lemma read_one_label kv r :
  Forall (fun x => name_char x = true) kv.1 -> exists t,
  label_text kv ++ r = kv.1 ++ 61 :: QUOTE :: t /\ read_label_value t = Some (kv.2, r).
Proof.
  intros Hk. exists (escapeLabelValue kv.2 ++ QUOTE :: r). split; [|apply read_escaped].
  unfold label_text. rewrite <- app_assoc. cbn [app]. by rewrite <- app_assoc.
Qed.

Lemma read_labels_text fuel ls r :
  ls <> [] -> (length ls <= fuel)%nat -> Forall (fun kv => Forall (fun x => name_char x = true) kv.1) ls ->
  read_labels fuel (join_with COMMA (map label_text ls) ++ 125 :: r) = Some (ls, r).
Proof.
  intros Hne Hf Hl. revert fuel Hf Hne. induction Hl as [|kv ls Hk Hl IH]; intros fuel Hf Hne; [done|].
  destruct fuel as [|fuel]; [cbn in Hf; lia|]. destruct kv as [k v]. cbn in Hk. cbn [map read_labels].
  destruct ls as [|kv' ls].
  - cbn [map join_with]. destruct (read_one_label (k, v) (125 :: r) Hk) as (t & E & Ht). rewrite E. cbn [fst snd] in *.
    rewrite take_name_app by done. change QUOTE with 34. cbn [mbind option_bind]. by rewrite Ht.
  - cbn [map] in IH |- *. rewrite join_cons. rewrite <- app_assoc. cbn [app].
    destruct (read_one_label (k, v) (COMMA :: join_with COMMA (label_text kv' :: map label_text ls) ++ 125 :: r) Hk)
      as (t & E & Ht). rewrite E. cbn [fst snd] in *.
    rewrite take_name_app by done. change QUOTE with 34. cbn [mbind option_bind]. rewrite Ht.
    cbn [mbind option_bind].
    change (COMMA :: ?x) with (44 :: x). cbn iota beta. by rewrite IH by (done || cbn in *; lia).
Qed.

Section Text.
Context (decimal_text : num -> jstr).
Context (one_line_text : forall v, 10 ∉ decimal_text v).

Definition sound_sample (s : sample) : Prop :=
  metric_name (sm_name s) = true /\ Forall (fun kv => label_name kv.1 = true) (sm_labels s).

Lemma read_sample_line s :
  sound_sample s ->
  read_sample (sample_line decimal_text s) = Some (sm_name s, sm_labels s, formatValue decimal_text (sm_value s)).
Proof.
  intros [Hn Hl]. destruct (metric_name_chars _ Hn) as [Hc _]. unfold sample_line, read_sample.
  destruct (sm_labels s) as [|kv ls]; cbn [app].
  - by rewrite take_name_app.
  - rewrite take_name_app by done. cbn iota beta. rewrite <- app_assoc. cbn [app].
    rewrite read_labels_text; [done|done| |].
    + rewrite length_app. cbn [length]. 
      enough (length (kv :: ls) <= S (length (join_with COMMA (map label_text (kv :: ls)))))%nat by (cbn in *; lia).
      clear. generalize (kv :: ls). intros l. induction l as [|x [|y l] IH]; cbn [map join_with length] in *; try lia.
      rewrite length_app. cbn [length] in *. lia.
    + eapply Forall_impl; [exact Hl|]. intros x Hx. by apply label_name_chars.
Qed.
(** *** Lines *)

Lemma not_in_map (f : Z -> list Z) s : (forall c, 10 ∉ f c) -> 10 ∉ flat_map f s.
Proof.
  intros Hf. induction s as [|c s IH]; cbn; [apply not_elem_of_nil|]. rewrite elem_of_app. intros [?|?]; [by apply (Hf c)|done].
Qed.

Lemma escape_label_line v : 10 ∉ escapeLabelValue v.
Proof.
  apply not_in_map. intros c. destruct (c =? BACKSLASH); [set_solver|]. destruct (Z.eqb_spec c 10); [set_solver|].
  destruct (c =? QUOTE); set_solver.
Qed.

Lemma escape_help_line v : 10 ∉ escapeHelp v.
Proof.
  apply not_in_map. intros c. destruct (c =? BACKSLASH); [set_solver|]. destruct (Z.eqb_spec c 10); set_solver.
Qed.

Lemma name_line n : Forall (fun c => name_char c = true) n -> 10 ∉ n.
Proof. rewrite Forall_forall. intros H Hin. by specialize (H 10 Hin). Qed.

Lemma dec_line z : 10 ∉ dec z.
Proof.
  assert (forall n, 0 <= n -> 10 ∉ dec_digits n) as H.
  { intros n Hn Hin. destruct (dec_digits_spec n Hn) as [_ Hd]. rewrite Forall_forall in Hd. by specialize (Hd 10 Hin). }
  unfold dec. destruct (Z.ltb_spec z 0); [|by apply H].
  intros [Hin|Hin]%elem_of_cons; [done|]. by apply (H (- z)); [lia|].
Qed.

Lemma value_line v : 10 ∉ formatValue decimal_text v.
Proof.
  destruct v as [|[]|q]; cbn [formatValue]; [apply (bool_decide_unpack _); by vm_compute..|].
  destruct (safe_integer (Fin q)); [apply dec_line|apply one_line_text].
Qed.

Lemma label_text_line kv : label_name kv.1 = true -> 10 ∉ label_text kv.
Proof.
  intros Hk. unfold label_text. rewrite elem_of_app, !elem_of_cons, elem_of_app, list_elem_of_singleton.
  intros [H|[H|[H|[H|H]]]]; [|done|done|by apply escape_label_line in H|done].
  by apply (name_line kv.1); [apply label_name_chars|].
Qed.

Lemma join_line l : Forall (fun t => 10 ∉ t) l -> 10 ∉ join_with COMMA l.
Proof.
  induction 1 as [|x [|y l] Hx Hl IH]; [apply not_elem_of_nil|done|].
  rewrite join_cons, elem_of_app, elem_of_cons. by intros [?|[?|?]].
Qed.

Lemma sample_line_line s : sound_sample s -> 10 ∉ sample_line decimal_text s.
Proof.
  intros [Hn Hl]. unfold sample_line. rewrite !elem_of_app, elem_of_cons. intros [H|[H|[H|H]]].
  - by apply (name_line (sm_name s)); [apply metric_name_chars|].
  - destruct (sm_labels s) as [|kv ls]; [by apply elem_of_nil in H|].
    rewrite elem_of_cons, elem_of_app, list_elem_of_singleton in H. destruct H as [H|[H|H]]; [done| |done].
    revert H. apply join_line, Forall_map. eapply Forall_impl; [exact Hl|]. intros x Hx. by apply label_text_line.
  - done.
  - by apply value_line in H.
Qed.

Lemma metric_name_app n s : metric_name n = true -> forallb name_char s = true -> metric_name (n ++ s) = true.
Proof.
  destruct n as [|c n]; [done|]. cbn. intros [-> Hn]%andb_prop Hs. cbn. rewrite forallb_app. apply andb_true_iff.
  by split.
Qed.

Lemma samples_sound m : sound_metric m -> Forall sound_sample (samples decimal_text m).
Proof.
  intros [Hn Hl Hs _]. unfold samples. apply Forall_flat_map. eapply Forall_impl; [exact Hs|].
  intros [k x] Hx. cbn in *.
  assert (Forall (fun kv => label_name kv.1 = true) (s_labels x)) as Hlx.
  { apply own_keys_Forall in Hl. rewrite <- Hx in Hl. by apply Forall_map in Hl. }
  assert (forall b, Forall (fun kv : jstr * jstr => label_name kv.1 = true) (s_labels x ++ [(LE, b)])) as Hle.
  { intros b. apply Forall_app. split; [done|]. by repeat constructor. }
  unfold samples_of. destruct (s_cell x) as [v|counts sum n]; [by repeat constructor|].
  apply Forall_app. split.
  - apply Forall_forall. intros y Hy. apply elem_of_lookup_zip_with in Hy as (i & b & c & -> & _ & _).
    split; cbn; [by apply metric_name_app|done].
  - repeat constructor; cbn; try done; try (by apply metric_name_app).
Qed.

(** ** The text of a registry *)

Lemma metric_lines_line m : sound_metric m -> Forall (fun t => 10 ∉ t) (metric_lines decimal_text m).
Proof.
  intros Hm. unfold metric_lines. pose proof (samples_sound m Hm) as Hs. destruct (samples decimal_text m) as [|x l]; [constructor|].
  pose proof (metric_name_chars _ (sound_name _ Hm)) as [Hn _]. apply name_line in Hn.
  constructor; [|constructor].
  - rewrite elem_of_app, elem_of_app, elem_of_cons. intros [H|[H|[H|H]]]; try done; [|by apply escape_help_line in H].
    revert H. apply (bool_decide_unpack _). by vm_compute.
  - rewrite elem_of_app, elem_of_app, elem_of_cons. intros [H|[H|[H|H]]]; try done; revert H;
      [|destruct (m_type m)]; apply (bool_decide_unpack _); by vm_compute.
  - apply Forall_map. eapply Forall_impl; [exact Hs|]. intros y Hy. by apply sample_line_line.
Qed.

Definition scrape_line (l : jstr) : option (option (jstr * list (jstr * jstr) * jstr)) :=
  match l with [] => None | c :: _ => if c =? 35 then None else Some (read_sample l) end.

Definition told (s : sample) : option (jstr * list (jstr * jstr) * jstr) :=
  Some (sm_name s, sm_labels s, formatValue decimal_text (sm_value s)).

Lemma scrape_sample s : sound_sample s -> scrape_line (sample_line decimal_text s) = Some (told s).
Proof.
  intros Hs. pose proof (read_sample_line s Hs) as Hr. destruct Hs as [Hn _].
  unfold scrape_line. destruct (sample_line decimal_text s) as [|c l] eqn:E; [done|].
  rewrite <- E in Hr |- *. rewrite Hr. replace (c =? 35) with false; [done|].
  symmetry. apply Z.eqb_neq. intros ->. destruct (sm_name s) as [|d n] eqn:En; [done|].
  unfold sample_line in E. rewrite En in E. injection E as -> _. done.
Qed.

Lemma scrape_metric m :
  sound_metric m -> omap scrape_line (metric_lines decimal_text m) = map told (samples decimal_text m).
Proof.
  intros Hm. unfold metric_lines. pose proof (samples_sound m Hm) as Hs.
  destruct (samples decimal_text m) as [|x l]; [done|]. cbn [omap list_omap app js].
  change (omap scrape_line (map (sample_line decimal_text) (x :: l)) = map told (x :: l)).
  induction Hs as [|y l' Hy _ IH]; [done|]. cbn [map omap list_omap]. rewrite (scrape_sample y Hy). by f_equal.
Qed.

Lemma scrape_render r :
  Forall sound_metric (metrics r) ->
  scrape (render decimal_text r) = map told (flat_map (samples decimal_text) (metrics r)).
Proof.
  intros Hm.
  assert (omap scrape_line (flat_map (metric_lines decimal_text) (metrics r)) = map told (flat_map (samples decimal_text) (metrics r))) as E.
  { induction Hm as [|m l Hm _ IH]; [done|]. cbn [flat_map]. by rewrite omap_app, map_app, scrape_metric, IH. }
  assert (Forall (fun t => 10 ∉ t) (flat_map (metric_lines decimal_text) (metrics r))) as Hl.
  { apply Forall_flat_map. eapply Forall_impl; [exact Hm|]. intros m. apply metric_lines_line. }
  rewrite <- E. unfold render, scrape. fold scrape_line.
  destruct (flat_map (metric_lines decimal_text) (metrics r)) as [|x l]; [done|].
  replace (join_with 10 (x :: l) ++ [10]) with (join_with 10 ((x :: l) ++ [[]])).
  - rewrite split_join by (done || by apply Forall_app; split; [|constructor; [apply not_elem_of_nil|constructor]]).
    change (omap scrape_line ((x :: l) ++ [[]]) = omap scrape_line (x :: l)). rewrite omap_app. apply app_nil_r.
  - clear. generalize x. induction l as [|y l IH]; intros z; [done|].
    change ((z :: y :: l) ++ [[]]) with (z :: y :: (l ++ [[]])). rewrite !join_cons, <- app_assoc. cbn [app].
    by rewrite <- IH.
Qed.

(** C40: Whatever is registered, counted, set and observed, every metric of a registry keeps
    within its cap of series, and the text it exposes reads back to exactly its samples:
    split into lines, with comments left out, each line is the name, the labels and the value
    of one sample, whatever the help texts and the label values contain. *)
Theorem exposition_reads_back r :
  built r ->
  Forall (fun m => (length (series_of m) <= maxSeries m)%nat) (metrics r)
  /\ scrape (render decimal_text r)
     = map (fun s => Some (sm_name s, sm_labels s, formatValue decimal_text (sm_value s)))
         (flat_map (samples decimal_text) (metrics r)).
Proof.
  intros Hr. pose proof (built_sound r Hr) as Hm. split; [|by apply scrape_render].
  eapply Forall_impl; [exact Hm|]. intros m. apply sound_cap.
Qed.
End Text.

(** ** Histograms *)

(** The reference: how many of the values are at most each bound. *)
Definition counts_of (bs : list num) (vs : list num) : list Z :=
  map (fun b => Z.of_nat (length (List.filter (fun v => num_le v b) vs))) bs.

Lemma count_in_counts bs v vs : count_in bs v (counts_of bs vs) = counts_of bs (vs ++ [v]).
Proof.
  unfold count_in, counts_of. induction bs as [|b bs IH]; [done|]. cbn [map zip_with]. rewrite IH. f_equal.
  rewrite List.filter_app, length_app. cbn. destruct (num_le v b); cbn; lia.
Qed.

Lemma lookup_set_series k s l : lookup_series k (set_series k s l) = Some s.
Proof.
  induction l as [|[k' s'] l IH]; cbn; [by rewrite eqs_refl|].
  destruct (eqs k k') eqn:E; cbn; [by rewrite eqs_refl|by rewrite E].
Qed.

(** The cell some labels have in a histogram that saw [vs] under them. *)
Definition holds_counts (m : metric) (labels : labels_arg) (vs : list num) : Prop :=
  match lookup_series (_key m labels) (series_of m) with
  | Some (Series _ (Hist counts _ n)) => counts = counts_of (buckets m) vs /\ n = Z.of_nat (length vs)
  | Some _ => False
  | None => vs = []
  end.

(** An observation that is not dropped counts the value in every bucket it falls under, so the
    counts are cumulative and [count] is the number of values. *)
Lemma hist_observe_exact m labels vs v m' :
  holds_counts m labels vs -> isFinite v = true -> hist_observe m labels v = inr (true, m') ->
  holds_counts m' labels (vs ++ [v]).
Proof.
  intros Hh Hv. unfold hist_observe. rewrite Hv. cbn [negb]. unfold change, _series, holds_counts in *.
  assert (forall ls counts sum n, counts = counts_of (buckets m) vs -> n = Z.of_nat (length vs) ->
    let m1 := m <| series_of ::= set_series (_key m labels)
                     (Series ls (Hist (count_in (buckets m) v counts) (num_add sum v) (n + 1))) |> in
    match lookup_series (_key m1 labels) (series_of m1) with
    | Some (Series _ (Hist counts _ n)) => counts = counts_of (buckets m1) (vs ++ [v]) /\ n = Z.of_nat (length (vs ++ [v]))
    | Some _ => False
    | None => vs ++ [v] = []
    end) as Hset.
  { intros ls counts sum n -> ->. cbn zeta. change (_key (m <| series_of ::= ?f |>) labels) with (_key m labels).
    cbn [series_of set_field]. cbn. rewrite lookup_set_series, count_in_counts, length_app. cbn. split; [done|lia]. }
  destruct (lookup_series (_key m labels) (series_of m)) as [[ls [|counts sum n]]|]; [done| |].
  - intros [= <-]. destruct Hh. by apply Hset.
  - subst vs. destruct (maxSeries m <=? length (series_of m))%nat; [done|]. destruct (_normalizeLabels m labels) as [|ls]; [done|].
    intros [= <-]. exact (Hset ls (map (fun _ => 0) (buckets m)) (numZ 0) 0 eq_refl eq_refl).
Qed.

(** ** Route labels *)

Fixpoint labels_given (reqs : list (option jstr)) (seen : list jstr) : list jstr * list jstr :=
  match reqs with
  | [] => ([], seen)
  | seg :: reqs =>
      let '(l, seen) := routeLabel None seg seen in
      let '(ls, seen) := labels_given reqs seen in (l :: ls, seen)
  end.

(** However many paths are asked for that match no route, at most twenty-two labels come of
    it. *)
Lemma unmatched_labels_bounded reqs seen :
  (length seen <= UNMATCHED_ROUTE_LABEL_CAP)%nat ->
  let '(ls, seen') := labels_given reqs seen in
  (length seen' <= UNMATCHED_ROUTE_LABEL_CAP)%nat /\ (exists l, seen' = seen ++ l)
  /\ forall x, x ∈ ls -> x ∈ seen' \/ x = js "/" \/ x = js "/_unmatched".
Proof.
  revert seen. induction reqs as [|seg reqs IH]; intros seen Hs; cbn [labels_given].
  { split_and!; [done|by exists []; rewrite app_nil_r|]. by intros x ?%not_elem_of_nil. }
  destruct (routeLabel None seg seen) as [l seen1] eqn:E.
  assert ((length seen1 <= UNMATCHED_ROUTE_LABEL_CAP)%nat /\ (exists k, seen1 = seen ++ k)
    /\ (l ∈ seen1 \/ l = js "/" \/ l = js "/_unmatched")) as (H1 & [k Hk] & Hl).
  { unfold routeLabel in E. destruct seg as [seg|].
    - destruct (existsb (eqs (47 :: seg)) seen) eqn:Ex.
      + injection E as <- <-. split_and!; [done|by exists []; rewrite app_nil_r|left].
        apply existsb_exists in Ex as (y & Hy & ->%eqs_true). by apply list_elem_of_In.
      + destruct (Nat.ltb_spec (length seen) UNMATCHED_ROUTE_LABEL_CAP) as [Hlt|]; injection E as <- <-.
        * split_and!; [rewrite length_app; cbn; lia|by eexists|left]. apply elem_of_app. right. by left.
        * split_and!; [done|by exists []; rewrite app_nil_r|by right; right].
    - injection E as <- <-. split_and!; [done|by exists []; rewrite app_nil_r|by right; left]. }
  specialize (IH seen1 H1). destruct (labels_given reqs seen1) as [ls seen2]. destruct IH as (H2 & [k2 Hk2] & H3).
  split_and!; [done|exists (k ++ k2); by rewrite Hk2, Hk, <- app_assoc|].
  intros x [->|Hx]%elem_of_cons; [|by apply H3]. destruct Hl as [Hl|Hl]; [|by right].
  left. rewrite Hk2. apply elem_of_app. by left.
Qed.

(** ** A registry *)

Definition sample_metric : metric :=
  Metric Counter (js "x_total") (js "two" ++ [10] ++ js "lines") [js "route"] 1 [] [].

Definition sample_hist : metric :=
  Metric Histogram (js "t_seconds") (js "t_seconds") [] 5 [numZ 1; numZ 10] [].

Definition sample_labels (v : jstr) : labels_arg := [(js "route", Some v)].

Definition sample_route : jstr := js "a" ++ [34; 92; 10] ++ js "b}".

Definition run_op (name : jstr) (o : operation) (r : metric_error + registry) : metric_error + registry :=
  match r with inr r => on_metric name (apply_op o) r | inl e => inl e end.

Definition run_register (m : metric) (r : metric_error + registry) : metric_error + registry :=
  match r with inr r => match _register m r with inr (_, r) => inr r | inl e => inl e end | inl e => inl e end.

Definition sample_registry : metric_error + registry :=
  run_op (js "t_seconds") (Observe [] (numZ 7))
  (run_op (js "x_total") (IncCounter (sample_labels (js "over the cap")) (numZ 1))
  (run_op (js "x_total") (IncCounter (sample_labels sample_route) (numZ 2))
  (run_register sample_hist (run_register sample_metric (inr (new_registry 500)))))).

Lemma sample_run_built name o r r' :
  (forall r, r' = inr r -> built r) -> run_op name o r' = inr r -> built r.
Proof. destruct r' as [|r0]; [done|]. intros Hb E. by eapply built_op; [apply Hb|exact E]. Qed.

Lemma built_registers t name help labels max bs m r r' :
  (forall r, r' = inr r -> built r) -> new_metric t name help labels max bs = inr m ->
  run_register m r' = inr r -> built r.
Proof.
  destruct r' as [|r0]; [done|]. intros Hb Hm E. cbn in E. destruct (_register m r0) as [|[x r1]] eqn:Er; [done|].
  injection E as <-. by eapply built_register; [apply Hb|exact Hm|exact Er].
Qed.

Lemma sample_built r : sample_registry = inr r -> built r.
Proof.
  unfold sample_registry. do 3 (apply sample_run_built; intros ?).
  eapply (built_registers Histogram (js "t_seconds") [] [] 5 [numZ 10; numZ 1]); [|by vm_compute].
  intros ?. eapply (built_registers Counter (js "x_total") (js "two" ++ [10] ++ js "lines") [js "route"] 1 []); [|by vm_compute].
  intros ? [= <-]. constructor.
Qed.

Lemma exposition_reads_back_witness :
  exists r, sample_registry = inr r
  /\ scrape (render (fun _ => []) r)
     = [Some (DROPPED, [(js "metric", js "x_total")], js "1");
        Some (js "x_total", [(js "route", sample_route)], js "2");
        Some (js "t_seconds_bucket", [(js "le", js "1")], js "0");
        Some (js "t_seconds_bucket", [(js "le", js "10")], js "1");
        Some (js "t_seconds_bucket", [(js "le", js "+Inf")], js "1");
        Some (js "t_seconds_sum", [], js "7");
        Some (js "t_seconds_count", [], js "1")]
  /\ Forall (fun m => (length (series_of m) <= maxSeries m)%nat) (metrics r).
Proof.
  destruct sample_registry as [|r] eqn:E; [by vm_compute in E|]. exists r. split; [done|]. split.
  - assert (sample_registry = inr r) as E' by exact E. vm_compute in E'. injection E' as <-. by vm_compute.
  - exact (proj1 (exposition_reads_back (fun _ => []) (fun _ => not_elem_of_nil 10) r (sample_built r E))).
Defined.

(** ** The decoder's gauges, scraped *)

Lemma put_metric_find m l k :
  is_Some (find_metric (m_name m) l) ->
  find_metric k (put_metric m l) = if eqs (m_name m) k then Some m else find_metric k l.
Proof.
  unfold find_metric, put_metric. intros H. induction l as [|x l IH]; cbn in *; [by destruct H|].
  destruct (eqs (m_name x) (m_name m)) eqn:E.
  - apply eqs_true in E. rewrite E. destruct (eqs (m_name m) k) eqn:Ek; [done|].
    clear -Ek. induction l as [|x l IH]; cbn; [done|]. destruct (eqs (m_name x) (m_name m)) eqn:E.
    + apply eqs_true in E. by rewrite E, Ek.
    + by destruct (eqs (m_name x) k).
  - rewrite (IH H). destruct (eqs (m_name m) k) eqn:Ek; [|done]. apply eqs_true in Ek. subst k. by rewrite E.
Qed.

Lemma find_metric_named k l m : find_metric k l = Some m -> m_name m = k.
Proof. intros [_ H]%find_some. by apply eqs_true in H. Qed.

Lemma apply_op_name o m b m' : apply_op o m = inr (b, m') -> m_name m' = m_name m.
Proof.
  assert (forall labels fresh f b m', change m labels fresh f = inr (b, m') -> m_name m' = m_name m) as Hc.
  { intros labels fresh f b0 m0. unfold change. destruct (_series m labels fresh) as [|[s|]]; [done| |];
      by intros [= _ <-]. }
  destruct o; cbn; unfold counter_inc, setMonotonic, gauge_set, gauge_inc, hist_observe;
    try (case_match; [by intros [= _ <-]|]); apply Hc.
Qed.

(** An operation on one metric touches no other, but for the count of drops. *)
Lemma on_metric_other name o r r' k :
  on_metric name (apply_op o) r = inr r' -> k <> name -> k <> DROPPED ->
  find_metric k (metrics r') = find_metric k (metrics r).
Proof.
  assert (forall n o m b m' r, find_metric n (metrics r) = Some m -> apply_op o m = inr (b, m') -> k <> n ->
    find_metric k (metrics (r <| metrics ::= put_metric m' |>)) = find_metric k (metrics r)) as Hput.
  { intros n o0 m b m' r0 Hf Ho Hk. pose proof (find_metric_named _ _ _ Hf) as Hn.
    change (metrics (r0 <| metrics ::= put_metric m' |>)) with (put_metric m' (metrics r0)).
    rewrite put_metric_find; rewrite (apply_op_name _ _ _ _ Ho), Hn; [|by rewrite Hf].
    by rewrite (proj2 (eqs_false n k)) by done. }
  intros H Hk Hd. unfold on_metric in H. destruct (find_metric name (metrics r)) as [m|] eqn:Ef; [|by injection H as <-].
  destruct (apply_op o m) as [|[[] m']] eqn:Eo; [done| |].
  - injection H as <-. by eapply Hput.
  - injection H as <-. case_match; [done|]. unfold _noteSeriesDrop.
    destruct (find_metric DROPPED (metrics r)) as [d|] eqn:Ed; [|done].
    destruct (counter_inc d _ _) as [|[b d']] eqn:Ec; [done|].
    by eapply (Hput DROPPED (IncCounter _ _)).
Qed.

(** A metric without labels: no series, or the one of the empty key. *)
Record plain_metric (m : metric) : Prop := {
  plain_labels : labelNames m = [];
  plain_room : (0 < maxSeries m)%nat;
  plain_series : series_of m = [] \/ exists v, series_of m = [([], Series [] (Scalar v))]
}.

Definition value_in (m : metric) : option num :=
  match series_of m with [(_, Series _ (Scalar v))] => Some v | _ => None end.

(** A write without labels that does not throw: a gauge gets a finite value or is moved, a
    counter gets a value that is not negative. *)
Definition collector_op (o : operation) : Prop :=
  match o with
  | SetGauge [] v => isFinite v = true
  | SetMonotonic [] v => isFinite v = true /\ num_lt v (numZ 0) = false
  | IncGauge [] _ => True
  | _ => False
  end.

(** What a write leaves in the series. *)
Definition effect (o : operation) (old : option num) : num :=
  match o with
  | SetMonotonic _ v => let x := default (numZ 0) old in if num_le x v then v else x
  | SetGauge _ v => v
  | IncGauge _ v => num_add (default (numZ 0) old) v
  | _ => NaN
  end.

Lemma collector_op_applies o m :
  collector_op o -> plain_metric m ->
  exists m', apply_op o m = inr (true, m') /\ plain_metric m' /\ m_name m' = m_name m
    /\ value_in m' = Some (effect o (value_in m)).
Proof.
  intros Ho [Hl Hr Hs]. assert (forall f, exists m', change m [] zero (on_scalar f) = inr (true, m')
    /\ plain_metric m' /\ m_name m' = m_name m /\ value_in m' = Some (f (default (numZ 0) (value_in m)))) as Hc.
  { intros f. unfold change, _series, _key, _normalizeLabels. rewrite Hl. destruct Hs as [Es|[v Es]]; rewrite Es; cbn.
    - rewrite (proj2 (Nat.leb_gt _ _) Hr). cbn. eexists. split; [reflexivity|]. unfold value_in, set_field. cbn.
      rewrite Es. cbn. split_and!; [|done|done]. split; cbn; [done|done|]. right. by eexists.
    - eexists. split; [reflexivity|]. unfold value_in, set_field. cbn. rewrite Es. cbn. split_and!; [|done|done].
      split; cbn; [done|done|]. right. by eexists. }
  destruct o as [| [|] v | [|] v | [|] v |]; try done; cbn [apply_op effect].
  - destruct Ho as [H1 H2]. unfold setMonotonic. rewrite H1, H2. cbn [negb orb]. apply Hc.
  - unfold gauge_set. rewrite (Ho : isFinite v = true). cbn [negb]. apply (Hc (fun _ => v)).
  - apply (Hc (fun x => num_add x v)).
Qed.

Definition decoder_value (suffix : string) (r : registry) : option num :=
  m ← find_metric (decoder_name suffix) (metrics r); value_in m.

Definition DECODER_SUFFIXES : list string := map fst (DECODER_GAUGES ++ DECODER_COUNTERS).

(** The metrics of the decoder a registry has are plain, and it has all of them. *)
Definition clean (r : registry) : Prop :=
  forall suffix m, find_metric (decoder_name suffix) (metrics r) = Some m -> plain_metric m.

Definition holds_decoder (r : registry) : Prop :=
  clean r /\ forall suffix, suffix ∈ DECODER_SUFFIXES -> is_Some (find_metric (decoder_name suffix) (metrics r)).

Lemma js_inj a b : js a = js b -> a = b.
Proof.
  intros H. rewrite <- (String.string_of_list_ascii_of_string a), <- (String.string_of_list_ascii_of_string b).
  f_equal. revert H. unfold js. generalize (String.list_ascii_of_string a), (String.list_ascii_of_string b).
  intros l. induction l as [|x l IH]; intros [|y l']; cbn; [done..|]. intros [= Hx Hl]. f_equal; [|by apply IH].
  apply N2Z.inj in Hx. by rewrite <- (Ascii.ascii_N_embedding x), Hx, Ascii.ascii_N_embedding.
Qed.

Lemma decoder_name_inj a b : decoder_name a = decoder_name b -> a = b.
Proof. intros H%app_inv_head. by apply js_inj. Qed.

Lemma write_exact suffix o r :
  holds_decoder r -> suffix ∈ DECODER_SUFFIXES -> collector_op o ->
  exists r', on_metric (decoder_name suffix) (apply_op o) r = inr r' /\ holds_decoder r'
    /\ decoder_value suffix r' = Some (effect o (decoder_value suffix r))
    /\ forall k, k <> suffix -> decoder_value k r' = decoder_value k r.
Proof.
  intros [Hc Hp] Hin Ho. unfold on_metric. destruct (Hp suffix Hin) as [m Hm]. rewrite Hm.
  pose proof (find_metric_named _ _ _ Hm) as Hn.
  destruct (collector_op_applies o m Ho (Hc _ _ Hm)) as (m' & E & Hpl & Hn' & Hv). rewrite E.
  eexists. split; [reflexivity|].
  assert (forall k, find_metric k (metrics (r <| metrics ::= put_metric m' |>))
    = if eqs (decoder_name suffix) k then Some m' else find_metric k (metrics r)) as Hf.
  { intros k. change (metrics (r <| metrics ::= put_metric m' |>)) with (put_metric m' (metrics r)).
    rewrite put_metric_find; rewrite Hn', Hn; [done|by rewrite Hm]. }
  split_and!.
  - split.
    + intros k x. rewrite Hf. case_match; [by intros [= <-]|apply Hc].
    + intros k Hk. rewrite Hf. case_match; [by eexists|by apply Hp].
  - unfold decoder_value at 1. rewrite Hf, eqs_refl. cbn. rewrite Hv. unfold decoder_value. by rewrite Hm.
  - intros k Hk. unfold decoder_value. rewrite Hf.
    rewrite (proj2 (eqs_false (decoder_name suffix) (decoder_name k))); [done|]. by intros H%decoder_name_inj.
Qed.

Definition collector_writes (l : list (string * operation)) : Prop :=
  NoDup (map fst l) /\ Forall (fun w => w.1 ∈ DECODER_SUFFIXES /\ collector_op w.2) l.

Lemma run_writes_exact l r :
  holds_decoder r -> collector_writes l ->
  holds_decoder (run_writes l r)
  /\ (forall k o, (k, o) ∈ l -> decoder_value k (run_writes l r) = Some (effect o (decoder_value k r)))
  /\ (forall k, k ∉ map fst l -> decoder_value k (run_writes l r) = decoder_value k r).
Proof.
  intros Hr [Hd Hl]. revert r Hr. induction Hl as [|[k o] l [Hk Ho] _ IH]; intros r Hr.
  { split_and!; [done| |done]. by intros k o ?%not_elem_of_nil. }
  cbn [map fst] in Hd. apply NoDup_cons in Hd as [Hnot Hd]. cbn in Hk, Ho.
  destruct (write_exact k o r Hr Hk Ho) as (r1 & E & H1 & Hv & Hrest). cbn [run_writes]. rewrite E.
  destruct (IH Hd r1 H1) as (H2 & Hin & Hout). split_and!; [done| |].
  - intros k' o' [[= -> ->]|Hi]%elem_of_cons; [by rewrite Hout, Hv|]. rewrite (Hin k' o' Hi), Hrest; [done|].
    intros ->. apply Hnot. apply list_elem_of_In, in_map_iff. exists (k, o'). split; [done|]. by apply list_elem_of_In.
  - intros k' Hk'. cbn [map fst] in Hk'. apply not_elem_of_cons in Hk' as [? ?]. by rewrite Hout, Hrest.
Qed.

(** *** What a scrape writes *)

Lemma setIf_keys k v : map fst (setIf k v) `sublist_of` [k].
Proof. unfold setIf. destruct v as [v|]; [destruct (isFinite v)|]; [done|apply sublist_nil_l..]. Qed.

Lemma setIf_ok k v :
  k ∈ DECODER_SUFFIXES -> Forall (fun w => w.1 ∈ DECODER_SUFFIXES /\ collector_op w.2) (setIf k v).
Proof.
  intros Hk. unfold setIf. destruct v as [v|]; [destruct (isFinite v) eqn:E|]; [|constructor..].
  by constructor; [|constructor].
Qed.

Lemma count_op n : 0 <= n -> collector_op (SetMonotonic [] (numZ n)).
Proof. intros Hn. split; [done|]. rewrite num_lt_Z. by apply Z.ltb_ge. Qed.

Definition counts_up (conn : connector) (s : lstate) : Prop :=
  0 <= all_rpc_errors conn s /\ 0 <= parseErrors (counters s) /\ 0 <= quarantinedTxs (counters s)
  /\ 0 <= dispenserPurgeFailures (counters s) /\ 0 <= reorgCount (reorg_of s).

(** The suffixes in the order a scrape writes them. *)
Definition WRITE_ORDER : list string :=
  ["last_processed_block"; "node_height"; "block_lag"; "last_tip_poll_timestamp_seconds";
   "last_block_advance_timestamp_seconds"; "tip_age_seconds"; "node_height_stale"; "synced"; "stalled";
   "poll_silent"; "last_poll_timestamp_seconds"; "rpc_errors_total"; "parse_errors_total";
   "quarantined_tx_total"; "dispenser_purge_failures_total"; "last_reorg_depth"; "reorgs_total";
   "reorg_halted"; "reorg_halt_parked"]%string.

Section Scrape.
Context (STALL_ALERT_MS STALL_FETCH_ATTEMPTS POLL_SILENT_MS : Z).
Abbreviation collect := (collectDecoderMetrics STALL_ALERT_MS STALL_FETCH_ATTEMPTS POLL_SILENT_MS).

Lemma collect_split clock conn s :
  exists rest,
    collect clock conn s
    = (let status := getSyncStatus (clock 0%nat) s in
       setIf "last_processed_block" (numZ ∘ last_processed_block <$> status)
       ++ setIf "node_height" (numZ ∘ ss_node_height <$> status)
       ++ setIf "block_lag" (numZ ∘ lag <$> status) ++ rest)
    /\ map fst rest `sublist_of` drop 3 WRITE_ORDER.
Proof.
  eexists. split; [reflexivity|]. rewrite !map_app. unfold WRITE_ORDER, drop.
  repeat (apply (sublist_app _ [_]); [apply setIf_keys|]).
  apply (sublist_app _ [_; _; _; _]); [done|]. apply (sublist_app _ [_]); [apply setIf_keys|].
  apply (sublist_app _ [_; _; _; _]); [done|]. apply (sublist_app _ [_]); [apply setIf_keys|].
  apply (sublist_app _ [_]); [done|]. apply (sublist_app _ [_]); [|done].
  destruct (_ || _); [done|apply sublist_nil_l].
Qed.

Lemma collect_keys clock conn s : map fst (collect clock conn s) `sublist_of` WRITE_ORDER.
Proof.
  destruct (collect_split clock conn s) as (rest & -> & H). cbv zeta. rewrite !map_app.
  repeat (apply (sublist_app _ [_]); [apply setIf_keys|]). exact H.
Qed.

Lemma collect_writes clock conn s : counts_up conn s -> collector_writes (collect clock conn s).
Proof.
  intros (H1 & H2 & H3 & H4 & H5). split.
  - eapply sublist_NoDup; [|apply collect_keys]. apply (bool_decide_unpack _). by vm_compute.
  - assert (forall k, bool_decide (k ∈ DECODER_SUFFIXES) = true -> k ∈ DECODER_SUFFIXES) as Hk
      by (intros k H; by apply bool_decide_eq_true in H).
    unfold collectDecoderMetrics. cbv zeta. repeat (apply Forall_app; split);
      try (apply setIf_ok, Hk; by vm_compute);
      try (destruct (_ || _); [|by constructor]);
      repeat (apply Forall_cons; split; [split; [apply Hk; by vm_compute|first [done|by apply count_op]]|]);
      by constructor.
Qed.

(** *** What a scrape leaves *)

Lemma new_plain_metric t name help max m :
  t <> Histogram -> (0 < max)%nat -> new_metric t name help [] max [] = inr m ->
  plain_metric m /\ m_name m = name.
Proof.
  intros Ht Hm. unfold new_metric. destruct (metric_name name); [|done]. cbn [negb existsb].
  destruct t; [..|done]; intros [= <-]; (split; [split; cbn; [done|done|by left]|done]).
Qed.

Lemma find_metric_app k l m :
  find_metric k (l ++ [m])
  = match find_metric k l with Some x => Some x | None => if eqs (m_name m) k then Some m else None end.
Proof.
  unfold find_metric. induction l as [|x l IH]; cbn; [by destruct (eqs (m_name m) k)|].
  by destruct (eqs (m_name x) k).
Qed.

Lemma register_each_holds t l r r' :
  t <> Histogram -> (0 < reg_max r)%nat -> clean r -> register_each t l r = inr r' ->
  reg_max r' = reg_max r /\ clean r'
  /\ (forall k, is_Some (find_metric k (metrics r)) -> is_Some (find_metric k (metrics r')))
  /\ (forall suffix, suffix ∈ map fst l -> is_Some (find_metric (decoder_name suffix) (metrics r'))).
Proof.
  intros Ht. revert r. induction l as [|[suffix help] l IH]; intros r Hm Hc; cbn [register_each].
  { intros [= <-]. split_and!; [done..|]. by intros k ?%not_elem_of_nil. }
  destruct (new_metric t _ _ [] (reg_max r) []) as [|m] eqn:Em; [done|].
  destruct (new_plain_metric _ _ _ _ _ Ht Hm Em) as [Hpl Hn]. unfold _register.
  destruct (find_metric (m_name m) (metrics r)) as [x|] eqn:Ex.
  - destruct (_ && _); [|done]. intros H. destruct (IH r Hm Hc H) as (H1 & H2 & H3 & H4). split_and!; [done..|].
    intros k [->|Hk]%elem_of_cons; [|by apply H4]. apply H3. cbn [fst]. rewrite <- Hn, Ex. by eexists.
  - set (r1 := r <| metrics ::= fun l => l ++ [m] |>).
    assert (forall k, find_metric k (metrics r1)
      = match find_metric k (metrics r) with Some x => Some x | None => if eqs (m_name m) k then Some m else None end)
      as Hf by (intros k; apply find_metric_app).
    intros H. destruct (IH r1 Hm) as (H1 & H2 & H3 & H4); [|exact H|].
    + intros k x. rewrite Hf. destruct (find_metric (decoder_name k) (metrics r)) eqn:E; [intros [= <-]; by eapply Hc|].
      case_match; [by intros [= <-]|done].
    + split_and!; [exact H1|exact H2| |].
      * intros k [x Hx]. apply H3. rewrite Hf, Hx. by eexists.
      * intros k [->|Hk]%elem_of_cons; [|by apply H4]. apply H3. rewrite Hf. cbn [fst]. rewrite Hn, eqs_refl.
        case_match; by eexists.
Qed.

(** A registry with the decoder's metrics, scraped any number of times. *)
Inductive scraped : registry -> Prop :=
  | scraped_registered r0 r :
      clean r0 -> (0 < reg_max r0)%nat -> registerDecoderMetrics r0 = inr r -> scraped r
  | scraped_again clock conn s r :
      scraped r -> counts_up conn s -> scraped (run_writes (collect clock conn s) r).

Lemma scraped_holds r : scraped r -> holds_decoder r.
Proof.
  induction 1 as [r0 r Hc Hm Hr|clock conn s r _ IH Hs].
  - unfold registerDecoderMetrics in Hr. destruct (register_each Gauge DECODER_GAUGES r0) as [|r1] eqn:E1; [done|].
    destruct (register_each_holds Gauge _ _ _ ltac:(done) Hm Hc E1) as (H1 & H2 & _ & H4).
    rewrite <- H1 in Hm. destruct (register_each_holds Counter _ _ _ ltac:(done) Hm H2 Hr) as (_ & H5 & H6 & H7).
    split; [done|]. intros suffix. unfold DECODER_SUFFIXES. rewrite map_app. intros [Hi|Hi]%elem_of_app; [|by apply H7].
    by apply H6, H4.
  - by destruct (run_writes_exact _ r IH (collect_writes clock conn s Hs)).
Qed.

(** After a scrape every gauge and counter it writes shows what it wrote: the heights of the
    published status, the verdicts of staleness, stall and silence, the halt; a counter never
    goes back.  What it does not write keeps its value. *)
Lemma decoder_metrics_exact r clock conn s :
  scraped r -> counts_up conn s ->
  let r' := run_writes (collect clock conn s) r in
  (forall k o, (k, o) ∈ collect clock conn s -> decoder_value k r' = Some (effect o (decoder_value k r)))
  /\ (forall k, k ∉ map fst (collect clock conn s) -> decoder_value k r' = decoder_value k r).
Proof.
  intros Hr Hs. by destruct (run_writes_exact _ r (scraped_holds r Hr) (collect_writes clock conn s Hs)) as (_ & ? & ?).
Qed.

(** So the gauges do drift from /live: once the decoder has rolled back to nothing, /live
    publishes no height and the scrape leaves the last one. *)
Lemma height_outlives_rollback r clock conn s :
  scraped r -> counts_up conn s -> cursor s = -1 ->
  getSyncStatus (clock 0%nat) s = None
  /\ decoder_value "last_processed_block" (run_writes (collect clock conn s) r)
     = decoder_value "last_processed_block" r.
Proof.
  intros Hr Hs Hc. assert (getSyncStatus (clock 0%nat) s = None) as E by (unfold getSyncStatus; by rewrite Hc).
  split; [done|]. apply (proj2 (decoder_metrics_exact r clock conn s Hr Hs)).
  destruct (collect_split clock conn s) as (rest & -> & Hsub). rewrite E. cbn [fmap option_fmap option_map setIf app].
  intros Hin. pose proof (elem_of_sublist _ _ _ Hin Hsub) as H. apply (bool_decide_eq_true_2 _) in H.
  by vm_compute in H.
Qed.
End Scrape.
