(* ===== verification/Observability.v ===== *)
(** * The wiring of metrics

    src/src/observability/index.js: the environment it reads, the metrics endpoint with its
    token, and the middleware that counts and times requests.

    The registry is that of [Metrics], after the collectors; [render] does not throw, so the
    500 of the endpoint does not arise.  A request is what the middleware reads of it: its
    path without the query, and, when its response ends, the pattern of the matched route or
    the first segment of the path, the method in upper case, the status and the seconds it
    took.  The patched console, the logger handles, the hoisting of the middleware, which
    reaches into Express, and the fields that are constant are left out.

    The endpoint answers only to the token; the gauge of open requests is exact; and the cap
    on route labels does not protect a metric's series from a caller that varies the
    method. *)
From Stdlib Require Import QArith.QArith_base.
From S2P Require Import Prelude JsNum Wire Sha256 Json LogShipper Metrics.
#[local] Open Scope Z_scope.
#[local] Open Scope update_scope.

(** ** The environment *)

Record obs_env := ObsEnv { metricsEnabled : bool; metricsPath : jstr; metricsToken : jstr; httpMetrics : bool }.

Definition readObservabilityEnv (enabled path token http : option jstr) : obs_env :=
  let on := toBool enabled false in
  let p := trim (match path with Some (c :: s) => c :: s | _ => js "/metrics" end) in
  ObsEnv on (if startsWith (js "/") p then p else 47 :: p) (default [] token) (on && toBool http true).

(** ** The endpoint *)

Definition timingSafeEqual (a b : jstr) : bool := eqs (utf8 a) (utf8 b).

Definition BEARER : jstr := js "Bearer ".

(** [authorization]: the header, when there is one. *)
Definition authorized (token : jstr) (authorization : option jstr) : bool :=
  if is_empty token then true
  else
    let header := default [] authorization in
    let presented := if startsWith BEARER header then drop 7 header else [] in
    negb (is_empty presented) && timingSafeEqual presented token.

Inductive scrape_answer := Unauthorized | Exposed (body : jstr).

Definition metrics_route (decimal_text : num -> jstr) (env : obs_env) (authorization : option jstr)
    (r : registry) : scrape_answer :=
  if authorized (metricsToken env) authorization then Exposed (render decimal_text r) else Unauthorized.

(** ** The timing of requests *)

Definition REQUESTS : jstr := js "http_requests_total".
Definition DURATION : jstr := js "http_request_duration_seconds".
Definition IN_FLIGHT : jstr := js "http_requests_in_flight".

(** [DEFAULT_DURATION_BUCKETS] *)
Definition DURATION_BUCKETS : list num :=
  map (fun q => round_binary64 q)
    [Qmake 5 1000; Qmake 1 100; Qmake 25 1000; Qmake 5 100; Qmake 1 10; Qmake 25 100; Qmake 5 10; Qmake 1 1;
     Qmake 25 10; Qmake 5 1; Qmake 10 1].

Definition declare (t : metric_type) (name help : jstr) (labels : list jstr) (bs : list num)
    (r : metric_error + registry) : metric_error + registry :=
  match r with
  | inl e => inl e
  | inr r =>
      match new_metric t name help labels (reg_max r) bs with
      | inl e => inl e
      | inr m => match _register m r with inl e => inl e | inr (_, r) => inr r end
      end
  end.

Definition http_metrics (r : registry) : metric_error + registry :=
  declare Gauge IN_FLIGHT (js "HTTP requests currently being served") [] []
  (declare Histogram DURATION (js "HTTP request latency in seconds") [js "method"; js "route"] DURATION_BUCKETS
  (declare Counter REQUESTS (js "HTTP requests handled, by method, route and status class")
     [js "method"; js "route"; js "status"] [] (inr r))).

Record traffic := Traffic {
  metrics_of : registry;
  labels_seen : list jstr;                  (* _unmatchedRouteLabels *)
  being_served : list nat                   (* the requests whose [done] is false *)
}.

#[export] Instance eta_traffic : Eta traffic := fun t => Traffic (metrics_of t) (labels_seen t) (being_served t).

Record http_end := HttpEnd {
  he_method : jstr; he_route : option jstr; he_segment : option jstr; he_status : Z; he_seconds : num
}.

(** An operation whose throw is caught. *)
Definition try_op (name : jstr) (o : operation) (r : registry) : registry :=
  match on_metric name (apply_op o) r with inr r => r | inl _ => r end.

Definition label (k v : jstr) : jstr * option jstr := (k, Some v).

(** The middleware; a scrape is not counted. *)
Definition timing (env : obs_env) (id : nat) (path : jstr) (t : traffic) : traffic :=
  if eqs path (metricsPath env) then t
  else t <| metrics_of ::= try_op IN_FLIGHT (IncGauge [] (numZ 1)) |> <| being_served ::= cons id |>.

(** [finish], on the first of the events finish and close; the two observations share one
    try. *)
Definition finish (id : nat) (e : http_end) (t : traffic) : traffic :=
  if bool_decide (id ∈ being_served t) then
    let r := try_op IN_FLIGHT (IncGauge [] (numZ (-1))) (metrics_of t) in
    let '(route, seen) := routeLabel (he_route e) (he_segment e) (labels_seen t) in
    let two := [label (js "method") (he_method e); label (js "route") route] in
    let r := match on_metric DURATION (apply_op (Observe two (he_seconds e))) r with
             | inr r => try_op REQUESTS (IncCounter (two ++ [label (js "status") (dec (he_status e))]) (numZ 1)) r
             | inl _ => r
             end in
    Traffic r seen (List.filter (fun x => negb (x =? id)%nat) (being_served t))
  else t.

Inductive http_event := Begins (id : nat) (path : jstr) | Ends (id : nat) (e : http_end).

Definition http_step (env : obs_env) (t : traffic) (e : http_event) : traffic :=
  match e with
  | Begins id path => timing env id path t
  | Ends id e => finish id e t
  end.

(** ** The token *)

(** With a token configured the endpoint hands out the metrics to the header that bears it,
    and to no other. *)
Lemma authorized_exact token authorization :
  token <> [] ->
  authorized token authorization = true <->
  exists presented, authorization = Some (BEARER ++ presented) /\ presented <> [] /\ utf8 presented = utf8 token.
Proof.
  intros Ht. unfold authorized. destruct token as [|c token]; [done|]. cbn [is_empty].
  unfold timingSafeEqual. split.
  - destruct (startsWith BEARER (default [] authorization)) eqn:E; [|done].
    apply startsWith_spec in E as [p Ep]. rewrite Ep. rewrite (drop_app_length' BEARER p) by done.
    intros [Hp He]%andb_prop. apply eqs_true in He. exists p. split; [|by destruct p].
    destruct authorization as [h|]; cbn in Ep; [by rewrite Ep|]. by apply (f_equal length) in Ep.
  - intros (p & -> & Hp & He). cbn [default from_option]. unfold id. rewrite startsWith_app.
    rewrite (drop_app_length' BEARER p) by done. rewrite He, eqs_refl. by destruct p.
Qed.

(** ** Open requests *)

Lemma num_add_safe v n k :
  safe_integer v = Some n -> Z.abs (n + k) <= MAX_SAFE_INTEGER -> safe_integer (num_add v (numZ k)) = Some (n + k).
Proof.
  unfold safe_integer at 1. destruct (integer_of v) as [z|] eqn:Ei; [|done]. case_match; [|done]. intros [= ->] Hk.
  destruct v as [| |[a b]]; [done..|]. cbn in Ei. destruct (Z.eqb_spec (a mod Zpos b) 0) as [E|]; [|done].
  injection Ei as <-. rewrite <- (round_binary64_small _ Hk). cbn [num_add numZ]. f_equal.
  unfold round_binary64, Qplus, Qz. cbn [Qnum Qden].
  rewrite (Qred_integral _ (b * 1) (a / Zpos b + k)), (Qred_integral _ 1 (a / Zpos b + k)); [done|lia|].
  rewrite Pos.mul_1_r. pose proof (Z.div_exact a (Zpos b)). nia.
Qed.

(** The gauge shows the number of requests being served. *)
Definition gauge_exact (t : traffic) : Prop :=
  NoDup (being_served t) /\ exists m, find_metric IN_FLIGHT (metrics (metrics_of t)) = Some m /\ plain_metric m
    /\ safe_integer (default (numZ 0) (value_in m)) = Some (Z.of_nat (length (being_served t))).

Lemma try_op_other name o r k :
  k <> name -> k <> DROPPED -> find_metric k (metrics (try_op name o r)) = find_metric k (metrics r).
Proof.
  intros H1 H2. unfold try_op. destruct (on_metric name (apply_op o) r) as [|r'] eqn:E; [done|].
  by apply (on_metric_other _ _ _ _ _ E).
Qed.

Lemma try_gauge r m k :
  find_metric IN_FLIGHT (metrics r) = Some m -> plain_metric m ->
  exists m', find_metric IN_FLIGHT (metrics (try_op IN_FLIGHT (IncGauge [] (numZ k)) r)) = Some m' /\ plain_metric m'
    /\ value_in m' = Some (num_add (default (numZ 0) (value_in m)) (numZ k)).
Proof.
  intros Hm Hp. destruct (collector_op_applies (IncGauge [] (numZ k)) m I Hp) as (m' & E & Hp' & Hn & Hv).
  exists m'. unfold try_op, on_metric. rewrite Hm, E. split_and!; [|done|done].
  change (metrics (r <| metrics ::= put_metric m' |>)) with (put_metric m' (metrics r)).
  rewrite put_metric_find; rewrite Hn, (find_metric_named _ _ _ Hm); [by rewrite eqs_refl|by rewrite Hm].
Qed.

Lemma remove_length l id :
  NoDup l -> id ∈ l -> S (length (List.filter (fun x => negb (x =? id)%nat) l)) = length l.
Proof.
  induction 1 as [|x l Hx Hl IH]; [by intros ?%not_elem_of_nil|]. intros [-> | Hin]%elem_of_cons; cbn [List.filter].
  - rewrite Nat.eqb_refl. cbn [negb length]. f_equal. f_equal. apply filter_all.
    apply Forall_forall. intros y Hy. destruct (Nat.eqb_spec y x); [by subst|done].
  - destruct (Nat.eqb_spec x id); [by subst|]. cbn [negb length]. by rewrite (IH Hin).
Qed.

Lemma timing_exact env id path t :
  id ∉ being_served t -> Z.of_nat (length (being_served t)) < MAX_SAFE_INTEGER -> gauge_exact t ->
  gauge_exact (timing env id path t).
Proof.
  intros Hid Hb (Hd & m & Hm & Hp & Hv). unfold timing. destruct (eqs path (metricsPath env)); [by split; [|exists m]|].
  split; [by constructor|]. destruct (try_gauge _ m 1 Hm Hp) as (m' & Hm' & Hp' & Hv').
  exists m'. split_and!; [exact Hm'|done|]. rewrite Hv'. change (default (numZ 0) (Some ?x)) with x.
  rewrite (num_add_safe _ _ 1 Hv) by lia. f_equal. cbn [being_served set_field]. cbn. lia.
Qed.

Lemma finish_exact id e t : Z.of_nat (length (being_served t)) <= MAX_SAFE_INTEGER -> gauge_exact t ->
  gauge_exact (finish id e t).
Proof.
  intros Hb (Hd & m & Hm & Hp & Hv). unfold finish. case_bool_decide as Hin; [|by split; [|exists m]].
  destruct (try_gauge _ m (-1) Hm Hp) as (m' & Hm' & Hp' & Hv').
  destruct (routeLabel _ _ _) as [route seen]. set (r1 := try_op IN_FLIGHT _ _) in *.
  pose proof (remove_length _ _ Hd Hin) as Hl. split; [by apply NoDup_ListNoDup, List.NoDup_filter, NoDup_ListNoDup|].
  exists m'. split_and!; [|done|].
  - cbn [metrics_of]. destruct (on_metric DURATION _ r1) as [|r2] eqn:E; [done|].
    rewrite try_op_other by done. by rewrite (on_metric_other _ _ _ _ _ E).
  - rewrite Hv'. change (default (numZ 0) (Some ?x)) with x. cbn [being_served].
    rewrite (num_add_safe _ _ (-1) Hv) by lia. f_equal. lia.
Qed.

(** A request begins once. *)
Fixpoint begins_fresh (env : obs_env) (t : traffic) (es : list http_event) : Prop :=
  match es with
  | [] => True
  | e :: es =>
      match e with Begins id _ => id ∉ being_served t | Ends _ _ => True end
      /\ begins_fresh env (http_step env t e) es
  end.

Lemma step_length env t e : (length (being_served (http_step env t e)) <= S (length (being_served t)))%nat.
Proof.
  destruct e as [id path|id e]; cbn [http_step].
  - unfold timing. case_match; [lia|]. cbn. lia.
  - unfold finish. case_bool_decide; [|lia]. destruct (routeLabel _ _ _). cbn [being_served].
    pose proof (List.filter_length_le (fun x => negb (x =? id)%nat) (being_served t)). lia.
Qed.

(** However requests begin and end, whether a response finishes, its connection closes, or
    both, the gauge of open requests never drifts. *)
Lemma in_flight_exact env es t :
  gauge_exact t -> begins_fresh env t es ->
  Z.of_nat (length (being_served t) + length es) <= MAX_SAFE_INTEGER ->
  gauge_exact (foldl (http_step env) t es).
Proof.
  revert t. induction es as [|e es IH]; intros t Ht Hf Hb; [done|]. destruct Hf as [He Hf]. cbn [foldl].
  pose proof (step_length env t e). apply IH; [|done|cbn [length] in Hb; lia].
  destruct e as [id path|id e]; cbn [length] in Hb; [apply timing_exact|apply finish_exact]; (done || lia).
Qed.

Lemma fresh_gauge max r : http_metrics (new_registry (S max)) = inr r -> gauge_exact (Traffic r [] []).
Proof.
  intros H. vm_compute in H. injection H as <-. split; [constructor|].
  eexists. split; [by vm_compute|]. split; [|by vm_compute]. split; cbn; [done|lia|by left].
Qed.

(** ** The budget of a metric *)

Definition METHODS : list jstr := map js
  ["GET"; "POST"; "PUT"; "DELETE"; "HEAD"; "OPTIONS"; "PATCH"; "COPY"; "LOCK"; "MKCOL"; "MOVE"; "PROPFIND";
   "PROPPATCH"; "SEARCH"; "UNLOCK"; "BIND"; "REBIND"; "UNBIND"; "ACL"; "REPORT"; "MKACTIVITY"; "CHECKOUT";
   "MERGE"; "NOTIFY"]%string.

Definition sample_env : obs_env := readObservabilityEnv (Some (js "1")) None None None.

(** One request of each method to each of twenty-one paths no route matches. *)
Definition flood : list http_event :=
  flat_map (fun m => flat_map (fun k =>
    [Begins 0 (js "/x"); Ends 0 (HttpEnd m None (Some (120 :: dec k)) 404 (numZ 1))])
    (map Z.of_nat (seq 0 21))) METHODS.

(** The series of a request. *)
Definition counted (m route : jstr) (status : Z) (r : registry) : option cell :=
  x ← find_metric REQUESTS (metrics r);
  s_cell <$> lookup_series (_key x [label (js "method") m; label (js "route") route; label (js "status") (dec status)])
    (series_of x).

(** The cap on labels is there so that a flood of unmatched paths leaves the series of the
    service's own routes room; with the methods a client can choose, the flood takes all of
    them, and the first GET /status after it is not counted. *)
Example flood_spends_the_budget :
  match http_metrics (new_registry DEFAULT_MAX_SERIES) with
  | inr r =>
      let t := foldl (http_step sample_env) (Traffic r [] []) flood in
      let t' := foldl (http_step sample_env) t
        [Begins 1 (js "/status"); Ends 1 (HttpEnd (js "GET") (Some (js "/status")) None 200 (numZ 1))] in
      length (labels_seen t) = UNMATCHED_ROUTE_LABEL_CAP
      /\ counted (js "GET") (js "/status") 200 (metrics_of t') = None
  | inl _ => False
  end.
Proof. vm_compute. split; reflexivity. Qed.
